(* ===== verification/_CoqProject ===== *)
-Q . S2P
Prelude.v
Steps.v
Rust.v
Externals.v
Crates.v
Clock.v
Files.v
Devices.v
DeviceJson.v
Store.v
Supervisor.v
SupervisionFacts.v
Admin.v
EventJson.v
Guard.v
Events.v
World.v
Pairing.v
PairingFacts.v
PairingSpec.v
Webauthn.v
WebauthnFacts.v
Session.v
SessionInv.v
SessionOps.v
SessionLogin.v
Authorize.v
SessionSpec.v
SessionProps.v
StoreProps.v
SupervisionProps.v
Gateway.v
GatewayFacts.v
GatewayProps.v
WriteAudit.v
AuditProps.v
Jobs.v
Herdr.v
HerdrFacts.v
Push.v
PushNotices.v
DesktopPush.v
GitBridge.v
GitFacts.v
GitProps.v
Kept.v
Control.v
ControlFacts.v
ControlProps.v
Http.v
Dispatch.v
DispatchSpec.v
Calm.v
DispatchProps.v
Runs.v
Wire.v
WireFacts.v
WireProps.v
Rpc.v
RpcProps.v
Threads.v
Growing.v
Streams.v
Calls.v
WriteBridge.v
ReadBridge.v
ReadFacts.v
Peer.v
Still.v
PeerRely.v
CallsSafe.v
CallsOpen.v
Truthful.v
PeerInv.v
TaskSteps.v
TaskSubmit.v
TaskSafe.v
PeerSystem.v
PeerProps.v
