(* ===== verification/Prelude.v ===== *)
(** * The Yuzora Companion: gateway and desktop

    Yuzora is a desktop IDE; its Companion gateway ([src/src-tauri/companion])
    lets a phone reach it over a private network.  The gateway is a process of its
    own that the desktop starts: it talks to the desktop over stdin and stdout
    (commands in, events out) and to phones over HTTP and WebSockets.  It decides
    who may do what, and it carries out what a phone asks of the terminal host and
    of Git.  The desktop ([src/src-tauri/src/companion_*.rs]) starts and supervises
    it, keeps the paired devices on disk and sends the push messages it asks for.
    The gateway and this half of the desktop are what this development is about.

    ** The parts and where they are

    Each part has a file with its data and operations, named first below, and files
    with its lemmas and its properties ([...Props], [...Spec]), the latter with runs
    computed from end to end, at which the properties are applied.

    - [Prelude], [Steps], [Rust]: outcomes, the state and error monad [M] of the
      handlers, a weakest-precondition calculus [wp] for it, map lemmas; [along], what
      every step of a handler keeps; the fragment of Rust's standard library the code
      uses (strings as bytes, UTF-8, integers at their width, IP addresses).
    - [Externals]: the third-party crates as type classes with the laws of their
      documentation ([Base64], [Crypto], [Tokio] semaphores and channels, [Http]
      header values and authorities, [Webauthn] for webauthn_rp).  [Crates]: an
      instance of each, so that no law is vacuous and runs can be computed.
    - [Clock] ([clock.rs]): timestamps, [Clock::observe], [Clock::until].
    - [Devices] ([devices.rs], [secrets.rs]): records of paired devices.  [DeviceJson]:
      the JSON that serde derives for them, both ways.  [EventJson]: that of the events.
    - [Admin] ([admin.rs]): policy, commands, events, framing.  [Events] (the rest
      of [admin.rs]): the bounded event queue, its permits and its writer.
    - [World]: the interface a handler runs against (clock, entropy, queue, order of
      hash maps).  [real_world] shows that [Clock] and [Events] implement it.
    - [Guard] ([guard.rs]): the check of every request.
    - [Pairing], [PairingFacts], [PairingSpec] ([pairing.rs]): pairing by QR code, as a
      state machine over a table, with the short authentication string.
    - [Webauthn] ([webauthn.rs]): passkey policy and ceremonies.
    - [Session], with [SessionInv], [SessionOps], [SessionLogin] and [Authorize]
      ([session.rs], [Gateway::with_authorized]): devices, sessions,
      elevations, peers, lockout, and the notifications to the desktop.
    - [Gateway] ([gateway_auth.rs], the session routes of [http.rs]): the handlers
      that combine pairings, identity and ceremonies.
    - [WriteAudit] ([audit.rs]): the audit of writes, live streams.
    - [Jobs] ([herdr_jobs.rs]): the bounded executor of blocking calls and the leases
      of what the host opened.
    - [Herdr] ([herdr.rs]): the closed boundary to the terminal host.
    - [Push], [PushNotices] ([push.rs]): whom to ring, and when.
    - [GitBridge] ([git_bridge.rs]): Git in the folders the desktop mapped.
    - [Control], with [Kept] ([gateway.rs]): the whole state [Whole]; [Gateway::new],
      [command] and [maintenance].
    - [Http], [Dispatch] ([http.rs], the first half of [bridge.rs]): the
      routes, static files, the dispatch of a request, WebSocket upgrades.  [Calm]:
      no handler panics where the state is sound.
    - [Wire] ([Outbound], [Sink] and the writer of [bridge.rs]): what waits to be
      written to a phone.  [Rpc] ([bridge.rs]): its calls and their authorisation.
    - [Threads]: closures on threads of their own, with a rely-guarantee logic.
      [Streams], [Calls], [WriteBridge], [ReadBridge] ([read_bridge.rs],
      [write_bridge.rs]): the task of a phone's connection and the threads of the
      calls it submits.  [Peer]: the loop [drive] and the system of all of them.
    - [Growing], [Still], [PeerRely], [CallsSafe], [CallsOpen], [Truthful], [PeerInv], [TaskSteps],
      [TaskSubmit], [TaskSafe], [PeerSystem]: the
      guarantee of each thread and their composition; [ReadFacts]: snapshots.

    The desktop's half:

    - [Files]: the file system and the JSON text the desktop relies on, as classes with
      their laws, and an instance [SimFs] whose operations can fail one by one.
    - [Store], [StoreProps] ([companion_store.rs], the device commands of
      [companion_commands.rs]): [devices.json], its rules, its edits.
    - [Supervisor], [SupervisionFacts], [SupervisionProps] ([companion_service.rs]): the
      state of [CompanionManager] under its two locks, the handlers of the gateway's
      events as phases [on_event], [on_device], ... that [hold] runs with the store's
      lock held, and the system [sup_step] of callers, spawned tasks and handlers; the
      reader of the gateway's stderr.
    - [DesktopPush] ([companion_push.rs]): subscriptions, VAPID keys, the requests of a
      job, cooldowns, and the system [push_sys_step] of jobs on their way.

    ** How the code is modelled

    A method with [&mut self] is a function of type [M (State * World) E A]: the
    state and the world are threaded through success, error and panic, so a change
    made before an early return stays.  [Result] is [Err], [Option] is [Err tt],
    [expect] on a [None] is [Panic].  A lock is a critical section: the methods of
    [Pairings], [Identity] and [Ceremonies] are atomic, and [pairing_step],
    [identity_step], [ceremony_step], [gw_step], [task_step] are one section each.  A
    poisoned lock needs a panic inside one; the theorems show there is none.  A
    handler that takes several locks in turn has a parameter for what the other tasks
    do in between, which its theorems quantify over.  A closure on a thread of its own
    is a [Thread], a tree of atomic steps; [sys_step] interleaves the task of a peer,
    those threads, the host's callbacks, the writer and the rest of the gateway.  A
    hash map is a [gmap], and code that depends on its order asks the world for an
    order.  Time is in nanoseconds since the epoch, in [Z]; the [f64] of the rate
    limit is Rocq's IEEE binary64.  The counters of failures ([u8]) saturate and those
    of peers ([u64]) and streams ([u32]) are checked, as in the code.  Loops are
    structural but for [decode_login], whose fuel is the length of its input,
    [derive_sas], which runs over the [u32] counter, [Clock::until], whose bound is
    proved from the advance of the clock, [frames_poll], whose fuel
    [frames_fuel] is proved enough, and [chunks], whose fuel is the length of its input.

    ** What the theorems show

    - The gateway as a whole: every request, under every interleaving, is a run of
      critical sections and ends in an answer; the invariants of all components hold
      together; login, registration and elevation are followed end to end, from the
      state a handler finds to the one it leaves (C1 to C4, C10, C11, C38).
    - Identity: the invariant of sessions and elevations, exactness of [validate],
      soundness of [with_authorized], atomicity of commands, revocation that cannot be
      refused (C5, C12, C13, C15, C16).
    - The devices, from the gateway to the disk: the events are a refinement of the
      gateway's table, the desktop's file follows them, its own edits do what the
      gateway would, its rules and the gateway's differ on two points only, a caller is
      told of success only when the file says so, and memory and file agree (C6 to C9,
      C17, C20, C21).
    - The supervisor: its state is consistent whatever the order of events, every
      handler ends, the records of stderr are its lines (C18, C19, C32).
    - A phone's connection: the host is called for a write only after it was admitted,
      audited (or counted, an input) and checked, in the order of admission, and never
      for one that is answered as dropped; calls are authorised for their scope; what waits to be
      written is bounded and in order (C22 to C27, C33).
    - Push: cooldown, destinations and subscriptions on the desktop, which listings the
      gateway accepts, the endpoints it takes (C28 to C31, C40).
    - Pairing: the invariant of the state machine, what a successful claim implies
      (C14, C39).  The audit accounts for every tightening event; the executor's limits
      hold and what the host opened is released once; cursors and trust of Git (C34 to
      C37).
    - Further theorems of the same files: the check of a request is its list of
      conditions, termination and round trip of the login decoder, framing, order and
      refinement of the queue and clock, the rate of messages, static files.

    ** Not modelled

    Serde's parsing of commands and the text of JSON, chrono's formatting, the HTTP and
    WebSocket protocols (hyper, tungstenite), the listener with its connection permits
    and the process start-up ([main.rs], [parent.rs]).  Of the desktop: the settings
    file of [companion_store.rs], pipes and child processes (a send on the
    child's stdin does not fail in the model), the network and the vault
    of the operating system behind [DesktopPush], the Tauri commands beyond those of
    devices.  The terminal host and Git library behind [HerdrPort], [HerdrHost] and the parameters of [GitBridge], the rest of the
    desktop backend, the user interfaces and the Tailscale node are other programs. *)

From stdpp Require Import base gmap strings list fin_maps fin_sets.
From Stdlib Require Import ZArith Lia.

Declare Scope rust_scope.
Delimit Scope rust_scope with rust.

(** ** Outcomes

    What a Rust call leaves behind: a value, the error of a [Result] (or the
    [None] of an [Option], at [E := unit]), or a panic ([unwrap], [expect],
    [unreachable!]).  State changed before an early return stays changed, so
    the state is threaded through every outcome. *)
Inductive outcome (E A : Type) : Type :=
| Ok (a : A)
| Err (e : E)
| Panic.
Arguments Ok {E A} a.
Arguments Err {E A} e.
Arguments Panic {E A}.

Definition M (St E A : Type) : Type := St → outcome E A * St.

Section Monad.
Context {St E : Type}.

Definition ret {A} (a : A) : M St E A := λ s, (Ok a, s).
Definition throw {A} (e : E) : M St E A := λ s, (Err e, s).
Definition panic {A} : M St E A := λ s, (Panic, s).

Definition bind {A B} (m : M St E A) (k : A → M St E B) : M St E B := λ s,
  match m s with
  | (Ok a, s') => k a s'
  | (Err e, s') => (Err e, s')
  | (Panic, s') => (Panic, s')
  end.

Definition gets {A} (f : St → A) : M St E A := λ s, (Ok (f s), s).
Definition modify (f : St → St) : M St E unit := λ s, (Ok tt, f s).

(** [o.ok_or(e)?] *)
Definition ok_or {A} (e : E) (o : option A) : M St E A :=
  match o with Some a => ret a | None => throw e end.

(** [o.expect(..)] *)
Definition expect {A} (o : option A) : M St E A :=
  match o with Some a => ret a | None => panic end.

(** [if b { return Err(e) }] *)
Definition reject_if (b : bool) (e : E) : M St E unit :=
  if b then throw e else ret tt.

Definition when (b : bool) (m : M St E unit) : M St E unit :=
  if b then m else ret tt.

(** A [for] loop over the items of an iterator. *)
Fixpoint for_each {A} (l : list A) (body : A → M St E unit) : M St E unit :=
  match l with
  | [] => ret tt
  | x :: l => bind (body x) (λ _, for_each l body)
  end.
End Monad.

(** A [Result] looked at as a value: the error is not propagated. *)
Definition attempt {St E E' A} (m : M St E' A) : M St E (E' + A) := λ s,
  match m s with
  | (Ok a, s') => (Ok (inr a), s')
  | (Err e, s') => (Ok (inl e), s')
  | (Panic, s') => (Panic, s')
  end.

Definition map_err {St E E' A} (f : E → E') (m : M St E A) : M St E' A := λ s,
  match m s with
  | (Ok a, s') => (Ok a, s')
  | (Err e, s') => (Err (f e), s')
  | (Panic, s') => (Panic, s')
  end.

(** A method of a part of the state, run on the whole. *)
Definition zoom {St Sub E A} (get : St → Sub) (put : Sub → St → St)
    (m : M Sub E A) : M St E A := λ s,
  let '(r, p) := m (get s) in (r, put p s).

Notation "'let!' x ':=' m 'in' k" := (bind m (λ x, k))
  (at level 10, x name, m at level 200, k at level 200,
   format "'[v' 'let!'  x  ':='  m  'in' '//' k ']'") : rust_scope.
Notation "'let!' ' p ':=' m 'in' k" := (bind m (λ x, match x with p => k end))
  (at level 10, p pattern, m at level 200, k at level 200) : rust_scope.
Notation "m ;; k" := (bind m (λ _, k))
  (at level 100, right associativity) : rust_scope.
Open Scope rust_scope.

(** ** A weakest-precondition calculus for [M] *)

Definition wp {St E A} (m : M St E A) (Q : outcome E A → St → Prop) (s : St) : Prop :=
  Q (m s).1 (m s).2.

Section WpRules.
Context {St E : Type}.
Implicit Types s : St.

Lemma wp_run {A} (m : M St E A) Q s r s' : wp m Q s → m s = (r, s') → Q r s'.
Proof. unfold wp. intros H Hm. by rewrite Hm in H. Qed.

Lemma run_wp {A} (m : M St E A) (Q : outcome E A → St → Prop) s :
  (∀ r s', m s = (r, s') → Q r s') → wp m Q s.
Proof. intros H. apply H. by destruct (m s). Qed.

Lemma wp_result {A} (m : M St E A) (Q : outcome E A → St → Prop) s :
  wp m Q s → ∃ r s', m s = (r, s') ∧ Q r s'.
Proof. unfold wp. intros H. exists (m s).1, (m s).2. split; [by destruct (m s)|done]. Qed.

Lemma wp_mono {A} (m : M St E A) (Q Q' : outcome E A → St → Prop) s :
  wp m Q s → (∀ r s', Q r s' → Q' r s') → wp m Q' s.
Proof. unfold wp. auto. Qed.

Lemma wp_ret {A} (a : A) (Q : outcome E A → St → Prop) s : Q (Ok a) s → wp (ret a) Q s.
Proof. done. Qed.

Lemma wp_throw {A} e (Q : outcome E A → St → Prop) s : Q (Err e) s → wp (throw e) Q s.
Proof. done. Qed.

Lemma wp_bind {A B} (m : M St E A) (k : A → M St E B) (Q : outcome E B → St → Prop) s :
  wp m (λ r s', match r with
                | Ok a => wp (k a) Q s'
                | Err e => Q (Err e) s'
                | Panic => Q Panic s'
                end) s → wp (bind m k) Q s.
Proof. unfold wp, bind. destruct (m s) as [[a|e|] s']; done. Qed.

Lemma wp_gets {A} (f : St → A) (Q : outcome E A → St → Prop) s :
  Q (Ok (f s)) s → wp (gets f) Q s.
Proof. done. Qed.

Lemma wp_modify f (Q : outcome E unit → St → Prop) s :
  Q (Ok tt) (f s) → wp (modify f) Q s.
Proof. done. Qed.

Lemma wp_ok_or {A} (e : E) (o : option A) (Q : outcome E A → St → Prop) s :
  match o with Some a => Q (Ok a) s | None => Q (Err e) s end → wp (ok_or e o) Q s.
Proof. by destruct o. Qed.

Lemma wp_expect {A} (o : option A) (Q : outcome E A → St → Prop) s :
  match o with Some a => Q (Ok a) s | None => Q Panic s end → wp (expect o) Q s.
Proof. by destruct o. Qed.

Lemma wp_reject_if (b : bool) (e : E) (Q : outcome E unit → St → Prop) s :
  (if b then Q (Err e) s else Q (Ok tt) s) → wp (reject_if b e) Q s.
Proof. by destruct b. Qed.

Lemma wp_when (b : bool) (m : M St E unit) (Q : outcome E unit → St → Prop) s :
  (if b then wp m Q s else Q (Ok tt) s) → wp (when b m) Q s.
Proof. by destruct b. Qed.

(** A loop keeps an invariant its body keeps and never fails when the body
    never fails. *)
Lemma wp_for_each {A} (l : list A) (body : A → M St E unit) (I : St → Prop) (Q : outcome E unit → St → Prop) s :
  I s →
  (∀ x s, x ∈ l → I s → wp (body x) (λ (r : outcome E unit) s', r = Ok tt ∧ I s') s) →
  (∀ s, I s → Q (Ok tt) s) → wp (for_each l body : M St E unit) Q s.
Proof.
  intros Hs Hbody HQ. revert s Hs.
  induction l as [|x l IH]; intros s Hs; [by apply HQ|].
  simpl. apply wp_bind. eapply wp_mono; [apply Hbody; [left|done]|].
  intros r s' [-> Hs']. apply IH; [|done]. intros y s0 Hy. apply Hbody. by right.
Qed.
End WpRules.

Lemma wp_attempt {St E E' A} (m : M St E' A) (Q : outcome E (E' + A) → St → Prop) s :
  wp m (λ r s', match r with
                | Ok a => Q (Ok (inr a)) s'
                | Err e => Q (Ok (inl e)) s'
                | Panic => Q Panic s'
                end) s → wp (attempt m) Q s.
Proof. unfold wp, attempt. destruct (m s) as [[a|e|] s']; done. Qed.

Lemma wp_map_err {St E E' A} (f : E → E') (m : M St E A) (Q : outcome E' A → St → Prop) s :
  wp m (λ r s', match r with
                | Ok a => Q (Ok a) s'
                | Err e => Q (Err (f e)) s'
                | Panic => Q Panic s'
                end) s → wp (map_err f m) Q s.
Proof. unfold wp, map_err. destruct (m s) as [[a|e|] s']; done. Qed.

Lemma wp_zoom {St Sub E A} (get : St → Sub) put (m : M Sub E A)
    (Q : outcome E A → St → Prop) s :
  wp m (λ r p, Q r (put p s)) (get s) → wp (zoom get put m) Q s.
Proof. unfold wp, zoom. destruct (m (get s)) as [r p]; done. Qed.

Arguments wp : simpl never.
Arguments bind : simpl never.
Arguments for_each : simpl nomatch.

(** One symbolic step of a handler. [wp_step] only uses the rules above; an
    operation of another component is entered with its specification by
    [wp_use]. *)
Ltac wp_step :=
  lazymatch goal with
  | |- wp (bind _ _) _ _ => apply wp_bind
  | |- wp (ret _) _ _ => apply wp_ret
  | |- wp (throw _) _ _ => apply wp_throw
  | |- wp (gets _) _ _ => apply wp_gets
  | |- wp (modify _) _ _ => apply wp_modify
  | |- wp (ok_or _ ?o) _ _ => apply wp_ok_or; destruct o eqn:?
  | |- wp (expect ?o) _ _ => apply wp_expect; destruct o eqn:?
  | |- wp (reject_if ?b _) _ _ => apply wp_reject_if; destruct b eqn:?
  | |- wp (when ?b _) _ _ => apply wp_when; destruct b eqn:?
  | |- wp (attempt _) _ _ => apply wp_attempt
  | |- wp (map_err _ _) _ _ => apply wp_map_err
  | |- wp (zoom _ _ _) _ _ => apply wp_zoom
  | |- wp (if ?b then _ else _) _ _ => destruct b eqn:?
  | |- wp (match ?x with _ => _ end) _ _ => destruct x eqn:?
  end; cbn beta iota.
Ltac wp_steps := repeat wp_step.
Tactic Notation "wp_use" uconstr(lem) := eapply wp_mono; [eapply lem|cbn beta iota].

(** ** Lists *)

Lemma forallb_Forall {A} (p : A → bool) l : forallb p l = true ↔ Forall (λ x, p x = true) l.
Proof. rewrite List.forallb_forall, List.Forall_forall. done. Qed.

(** ** Maps *)

Section Maps.
Context `{Countable K} {A : Type} (P : K * A → Prop) `{!∀ x, Decision (P x)}.
Implicit Types m : gmap K A.

Lemma map_size_insert_le i x m : (size (<[i := x]> m) ≤ S (size m))%nat.
Proof. rewrite map_size_insert. destruct (m !! i); simpl; lia. Qed.

Lemma map_size_delete_le i m : (size (delete i m) ≤ size m)%nat.
Proof. apply map_subseteq_size, delete_subseteq. Qed.

(** How many entries satisfy [P] after one is written. *)
Lemma filter_size_insert_le i x m :
  (size (filter P (<[i := x]> m)) ≤ S (size (filter P m)))%nat.
Proof.
  etrans; [|apply (map_size_insert_le i x)]. rewrite <-!size_dom.
  apply subseteq_size. intros j. rewrite !elem_of_dom. intros [y Hy].
  apply map_lookup_filter_Some in Hy as [Hy HP].
  apply lookup_insert_Some in Hy as [[<- <-]|[Hne Hy]].
  - exists x. by simplify_map_eq.
  - exists y. rewrite lookup_insert_ne by done. by apply map_lookup_filter_Some.
Qed.

Lemma filter_size_update_le i x x' m :
  m !! i = Some x → (P (i, x') → P (i, x)) →
  (size (filter P (<[i := x']> m)) ≤ size (filter P m))%nat.
Proof.
  intros Hx HP. rewrite <-!size_dom. apply subseteq_size. intros j.
  rewrite !elem_of_dom. intros [y Hy]. apply map_lookup_filter_Some in Hy as [Hy HPy].
  apply lookup_insert_Some in Hy as [[<- <-]|[Hne Hy]].
  - exists x. apply map_lookup_filter_Some. auto.
  - exists y. by apply map_lookup_filter_Some.
Qed.

Lemma filter_size_delete_le i m :
  (size (filter P (delete i m)) ≤ size (filter P m))%nat.
Proof. apply map_subseteq_size, map_filter_subseteq_mono, delete_subseteq. Qed.

Lemma filter_size_le m : (size (filter P m) ≤ size m)%nat.
Proof. apply map_subseteq_size, map_filter_subseteq. Qed.
End Maps.
