(* ===== verification/Steps.v ===== *)
(** * Computations that only take steps of a relation

    A handler with several critical sections is a run of the step relation of
    its component; the hints of [stepping] follow its syntax. *)

From stdpp Require Import base list relations.
From S2P Require Import Prelude.

Create HintDb stepping discriminated.

Section Along.
Context {St : Type} (step : St → St → Prop).

Definition along {E A} (m : M St E A) : Prop := ∀ s, rtc step s (m s).2.

Context {E : Type}.

Lemma along_still {A} (m : M St E A) : (∀ s, (m s).2 = s) → along m.
Proof. intros Hm s. by rewrite Hm. Qed.
Lemma along_once {A} (m : M St E A) : (∀ s, step s (m s).2) → along m.
Proof. intros Hm s. by apply rtc_once. Qed.
Lemma along_bind {A B} (m : M St E A) (k : A → M St E B) :
  along m → (∀ a, along (k a)) → along (bind m k).
Proof.
  intros Hm Hk s. specialize (Hm s). unfold bind. destruct (m s) as [[a|e|] s']; [|done..].
  etrans; [exact Hm|apply Hk].
Qed.
Lemma along_ret {A} (a : A) : along (ret a : M St E A).
Proof. by apply along_still. Qed.
Lemma along_throw {A} (e : E) : along (throw e : M St E A).
Proof. by apply along_still. Qed.
Lemma along_panic {A} : along (panic : M St E A).
Proof. by apply along_still. Qed.
Lemma along_ok_or {A} (e : E) (o : option A) : along (ok_or e o : M St E A).
Proof. apply along_still. by destruct o. Qed.
Lemma along_reject_if b (e : E) : along (reject_if b e : M St E unit).
Proof. apply along_still. by destruct b. Qed.
Lemma along_modify f : (∀ s, rtc step s (f s)) → along (modify f : M St E unit).
Proof. intros Hf s. apply Hf. Qed.
Lemma along_when b (m : M St E unit) : along m → along (when b m).
Proof. intros Hm. destruct b; [done|apply along_ret]. Qed.
Lemma along_for_each {A} (l : list A) (body : A → M St E unit) :
  (∀ x, along (body x)) → along (for_each l body).
Proof. intros Hb. induction l as [|x l IH]; [apply along_ret|by apply along_bind]. Qed.
Lemma along_gets {A} (f : St → A) : along (gets f : M St E A).
Proof. by apply along_still. Qed.
Lemma along_expect {A} (o : option A) : along (expect o : M St E A).
Proof. apply along_still. by destruct o. Qed.
Lemma along_attempt {E' A} (m : M St E' A) : along m → along (attempt m : M St E (E' + A)).
Proof. intros Hm s. specialize (Hm s). unfold attempt. by destruct (m s) as [[a|e|] t]. Qed.
Lemma along_map_err {E' A} (f : E' → E) (m : M St E' A) : along m → along (map_err f m).
Proof. intros Hm s. specialize (Hm s). unfold map_err. by destruct (m s) as [[a|e|] t]. Qed.
End Along.

#[export] Hint Resolve along_ret along_throw along_panic along_ok_or along_reject_if along_attempt along_map_err
  along_when along_for_each along_gets along_expect
  : stepping.
#[export] Hint Extern 1 (along _ (bind _ _)) => apply along_bind; [|intros ?] : stepping.
#[export] Hint Extern 3 (along _ (if ?b then _ else _)) => destruct b : stepping.
#[export] Hint Extern 3 (along _ (match ?x with _ => _ end)) => destruct x : stepping.
Ltac along_auto := cbn zeta; eauto 80 with stepping nocore.
