(* ===== verification/Rust.v ===== *)
(** * The parts of Rust's standard library the gateway calls

    A [String], a [&str] and a byte array are all Stdlib [string]s, one [ascii]
    per byte, so [len()] is [String.length].  [chars()] decodes UTF-8.
    Bounded unsigned integers are [Z]; [saturating_add] writes its bound out. *)

From stdpp Require Import base gmap strings list.
From Stdlib Require Import ZArith Lia.
From S2P Require Import Prelude.

Local Open Scope Z_scope.

(** ** Integers *)

Definition u8_max : Z := 255.
Definition u32_max : Z := 4294967295.
Definition u64_max : Z := 18446744073709551615.

Definition saturating_add (max a b : Z) : Z := Z.min max (a + b).
Definition checked_add (max a b : Z) : option Z :=
  if a + b <=? max then Some (a + b) else None.
Definition div_ceil (a b : Z) : Z := (a + b - 1) / b.

(** ** Bytes and strings *)

Definition len (s : string) : Z := Z.of_nat (String.length s).
Definition byte (a : Ascii.ascii) : Z := Z.of_N (Ascii.N_of_ascii a).
Definition char_of (b : Z) : Ascii.ascii := Ascii.ascii_of_N (Z.to_N b).
Definition bytes (s : string) : list Z := byte <$> String.list_ascii_of_string s.
Definition of_bytes (l : list Z) : string := String.string_of_list_ascii (char_of <$> l).

Definition in_range (lo x hi : Z) : bool := (lo <=? x) && (x <=? hi).
Definition is_ascii_digit (b : Z) : bool := in_range 48 b 57.
Definition is_ascii_lowercase (b : Z) : bool := in_range 97 b 122.
Definition is_ascii_uppercase (b : Z) : bool := in_range 65 b 90.
Definition to_ascii_lowercase (b : Z) : Z := if is_ascii_uppercase b then b + 32 else b.
Definition eq_ignore_ascii_case (a b : string) : bool :=
  bool_decide (to_ascii_lowercase <$> bytes a = to_ascii_lowercase <$> bytes b).

Fixpoint strip_prefix (p s : string) : option string :=
  match p, s with
  | EmptyString, _ => Some s
  | String c p, String d s => if Ascii.eqb c d then strip_prefix p s else None
  | String _ _, EmptyString => None
  end.
Definition starts_with (p s : string) : bool := bool_decide (is_Some (strip_prefix p s)).

(** [find] of a literal: the offset of the first occurrence. *)
Fixpoint find_str (p s : string) : option nat :=
  if starts_with p s then Some 0%nat
  else match s with
       | EmptyString => None
       | String _ s => S <$> find_str p s
       end.

Fixpoint skip (n : nat) (s : string) : string :=
  match n, s with
  | S n, String _ s => skip n s
  | _, _ => s
  end.
Fixpoint prefix (n : nat) (s : string) : string :=
  match n, s with
  | S n, String c s => String c (prefix n s)
  | _, _ => EmptyString
  end.

Definition strip_suffix (p s : string) : option string :=
  let n := (String.length s - String.length p)%nat in
  if bool_decide (String.length p ≤ String.length s)%nat && bool_decide (skip n s = p)
  then Some (prefix n s) else None.
Definition ends_with (p s : string) : bool := bool_decide (is_Some (strip_suffix p s)).
Definition contains (p s : string) : bool := bool_decide (is_Some (find_str p s)).

(** [[0; n]] *)
Fixpoint zeros (n : nat) : string :=
  match n with O => EmptyString | S n => String (char_of 0) (zeros n) end.

(** [str::split] at one character; always yields at least one piece. *)
Fixpoint split_on (sep : Ascii.ascii) (s : string) : list string :=
  match s with
  | EmptyString => [EmptyString]
  | String c s =>
      if Ascii.eqb c sep then EmptyString :: split_on sep s
      else match split_on sep s with
           | p :: ps => String c p :: ps
           | [] => [String c EmptyString]
           end
  end.

(** ** UTF-8 ([str::from_utf8], [str::chars]) *)

Definition is_cont (b : Z) : bool := in_range 128 b 191.

Fixpoint utf8_decode (l : list Z) : option (list Z) :=
  match l with
  | [] => Some []
  | b0 :: l1 =>
      if b0 <? 128 then cons b0 <$> utf8_decode l1
      else if in_range 194 b0 223 then
        match l1 with
        | b1 :: l2 => if is_cont b1
            then cons ((b0 - 192) * 64 + (b1 - 128)) <$> utf8_decode l2 else None
        | _ => None
        end
      else if in_range 224 b0 239 then
        match l1 with
        | b1 :: b2 :: l3 =>
            if in_range (if b0 =? 224 then 160 else 128) b1 (if b0 =? 237 then 159 else 191)
               && is_cont b2
            then cons ((b0 - 224) * 4096 + (b1 - 128) * 64 + (b2 - 128)) <$> utf8_decode l3
            else None
        | _ => None
        end
      else if in_range 240 b0 244 then
        match l1 with
        | b1 :: b2 :: b3 :: l4 =>
            if in_range (if b0 =? 240 then 144 else 128) b1 (if b0 =? 244 then 143 else 191)
               && is_cont b2 && is_cont b3
            then cons ((b0 - 240) * 262144 + (b1 - 128) * 4096
                       + (b2 - 128) * 64 + (b3 - 128)) <$> utf8_decode l4
            else None
        | _ => None
        end
      else None
  end.

(** A [str] holds valid UTF-8, so its characters exist; the default is never
    reached for one. *)
Definition chars (s : string) : list Z := default [] (utf8_decode (bytes s)).

(** The bytes of a list of characters, and the owned string of it. *)
Definition utf8_char (c : Z) : list Z :=
  if c <? 128 then [c]
  else if c <? 2048 then [192 + c / 64; 128 + c mod 64]
  else if c <? 65536 then [224 + c / 4096; 128 + c / 64 mod 64; 128 + c mod 64]
  else [240 + c / 262144; 128 + c / 4096 mod 64; 128 + c / 64 mod 64; 128 + c mod 64].
Definition of_chars (l : list Z) : string := of_bytes (l ≫= utf8_char).

(** [char::is_control] (category Cc) and [char::is_whitespace] (White_Space). *)
Definition is_control (c : Z) : bool := in_range 0 c 31 || in_range 127 c 159.
Definition is_whitespace (c : Z) : bool :=
  in_range 9 c 13 || (c =? 32) || (c =? 133) || (c =? 160) || (c =? 5760)
  || in_range 8192 c 8202 || (c =? 8232) || (c =? 8233) || (c =? 8239)
  || (c =? 8287) || (c =? 12288).

Fixpoint drop_while {A} (p : A → bool) (l : list A) : list A :=
  match l with
  | x :: l' => if p x then drop_while p l' else l
  | [] => []
  end.
Definition trim_chars (l : list Z) : list Z :=
  rev (drop_while is_whitespace (rev (drop_while is_whitespace l))).

(** ** [IpAddr::from_str] *)

Definition to_digit (radix b : Z) : option Z :=
  let d := if is_ascii_digit b then Some (b - 48)
           else if is_ascii_lowercase b then Some (b - 87)
           else if is_ascii_uppercase b then Some (b - 55) else None in
  match d with Some v => if v <? radix then Some v else None | None => None end.

(** [read_number]: digits read, value, rest.  [None] when the value or the
    digit count runs over its bound. *)
Fixpoint read_digits (radix max maxdigits : Z) (l : list Z) (count acc : Z)
    : option (Z * Z * list Z) :=
  match l with
  | b :: l' =>
      match to_digit radix b with
      | Some d =>
          if (acc * radix + d <=? max) && (count + 1 <=? maxdigits)
          then read_digits radix max maxdigits l' (count + 1) (acc * radix + d)
          else None
      | None => Some (count, acc, l)
      end
  | [] => Some (count, acc, [])
  end.
Definition read_number (radix max maxdigits : Z) (zero_prefix : bool) (l : list Z)
    : option (Z * list Z) :=
  match read_digits radix max maxdigits l 0 0 with
  | Some (count, v, rest) =>
      if (count =? 0) || (negb zero_prefix && bool_decide (head l = Some 48) && (1 <? count))
      then None else Some (v, rest)
  | None => None
  end.

Definition read_char (c : Z) (l : list Z) : option (list Z) :=
  match l with b :: l => if b =? c then Some l else None | [] => None end.
Definition read_separator {A} (sep : Z) (i : nat) (p : list Z → option (A * list Z))
    (l : list Z) : option (A * list Z) :=
  match i with
  | O => p l
  | S _ => match read_char sep l with Some l => p l | None => None end
  end.

Fixpoint read_ipv4_groups (n : nat) (i : nat) (l : list Z) : option (unit * list Z) :=
  match n with
  | O => Some (tt, l)
  | S n => match read_separator 46 i (read_number 10 255 3 false) l with
           | Some (_, l) => read_ipv4_groups n (S i) l
           | None => None
           end
  end.
Definition read_ipv4 : list Z → option (unit * list Z) := read_ipv4_groups 4 0.

(** [read_groups]: groups still allowed, index; returns groups read, whether
    they ended in an IPv4 address, and the rest. *)
Fixpoint read_groups (n i : nat) (l : list Z) : nat * bool * list Z :=
  match n with
  | O => (i, false, l)
  | S n' =>
      match (if bool_decide (n' = 0%nat) then None else read_separator 58 i read_ipv4 l) with
      | Some (_, l) => ((i + 2)%nat, true, l)
      | None => match read_separator 58 i (read_number 16 65535 4 true) l with
                | Some (_, l) => read_groups n' (S i) l
                | None => (i, false, l)
                end
      end
  end.
Definition read_ipv6 (l : list Z) : option (list Z) :=
  let '(head, v4, l1) := read_groups 8 0 l in
  if bool_decide (head = 8%nat) then Some l1
  else if v4 then None
  else match read_char 58 l1 with
       | Some l2 => match read_char 58 l2 with
                    | Some l3 => let '(_, _, l4) := read_groups (8 - (head + 1)) 0 l3 in Some l4
                    | None => None
                    end
       | None => None
       end.
Definition parse_ip_addr (s : string) : bool :=
  match read_ipv4 (bytes s) with
  | Some (_, rest) => bool_decide (rest = [])
  | None => match read_ipv6 (bytes s) with
            | Some rest => bool_decide (rest = [])
            | None => false
            end
  end.

Example parse_ip_addr_v4 : parse_ip_addr "127.0.0.1" = true.
Proof. reflexivity. Qed.
Example parse_ip_addr_v6 : parse_ip_addr "::ffff:1.2.3.4" = true.
Proof. reflexivity. Qed.
Example parse_ip_addr_name : parse_ip_addr "desktop.tailnet.ts.net" = false.
Proof. reflexivity. Qed.
Example parse_ip_addr_zero : parse_ip_addr "127.0.0.01" = false.
Proof. reflexivity. Qed.
Example chars_two : chars "é€" = [233; 8364].
Proof. reflexivity. Qed.

Example of_chars_three : of_chars (chars "aé€") = "aé€".
Proof. reflexivity. Qed.

(** ** Facts *)

Lemma byte_range a : 0 <= byte a <= 255.
Proof.
  unfold byte. pose proof (Ascii.N_ascii_bounded a). lia.
Qed.

Lemma bytes_range s : Forall (λ b, 0 <= b <= 255) (bytes s).
Proof.
  unfold bytes. apply Forall_fmap, Forall_true. intros a. apply byte_range.
Qed.

Lemma length_bytes s : length (bytes s) = String.length s.
Proof. unfold bytes. rewrite length_fmap. induction s; simpl; congruence. Qed.

Lemma saturating_add_le max a b : saturating_add max a b <= max.
Proof. unfold saturating_add. lia. Qed.

Lemma saturating_add_small max a b : a + b <= max → saturating_add max a b = a + b.
Proof. unfold saturating_add. lia. Qed.

Lemma len_zeros n : len (zeros n) = Z.of_nat n.
Proof. unfold len. induction n; simpl; lia. Qed.

(** ** Pieces of strings *)

Lemma strip_prefix_app p s r : strip_prefix p s = Some r → s = p +:+ r.
Proof.
  revert s. induction p as [|c p IH]; intros s; simpl; [by intros [= ->]|].
  destruct s as [|d s]; [done|]. destruct (Ascii.eqb_spec c d) as [->|]; [|done].
  intros Hr. exact (f_equal (String d) (IH s Hr)).
Qed.
Lemma append_assoc (a b c : string) : (a +:+ b) +:+ c = a +:+ b +:+ c.
Proof. induction a as [|x a IH]; [done|]. exact (f_equal (String x) IH). Qed.
Lemma prefix_skip n s : prefix n s +:+ skip n s = s.
Proof. revert s. induction n as [|n IH]; intros [|c s]; [done..|]. exact (f_equal (String c) (IH s)). Qed.
Lemma strip_suffix_app p s r : strip_suffix p s = Some r → s = r +:+ p.
Proof.
  unfold strip_suffix. destruct (bool_decide _ && bool_decide _) eqn:Hb; [|done]. intros [= <-].
  apply andb_true_iff in Hb as [_ Hskip%bool_decide_eq_true]. rewrite <-Hskip at 2. symmetry. apply prefix_skip.
Qed.

(** ** [Iterator::position] *)

Fixpoint position (p : Z → bool) (l : list Z) : option nat :=
  match l with
  | [] => None
  | b :: l => if p b then Some 0%nat else S <$> position p l
  end.

Lemma position_app_none p l k :
  position p l = None → position p (l ++ k) = (λ n, length l + n)%nat <$> position p k.
Proof.
  induction l as [|b l IH]; simpl; [by destruct (position p k)|].
  destruct (p b); [done|]. intros Hl. destruct (position p l) eqn:?; [done|].
  rewrite IH by done. by destruct (position p k).
Qed.

Lemma position_app_some p l k n : position p l = Some n → position p (l ++ k) = Some n.
Proof.
  revert n. induction l as [|b l IH]; intros n; simpl; [done|].
  destruct (p b); [done|]. destruct (position p l) eqn:?; [|done].
  intros [= <-]. by rewrite (IH _ eq_refl).
Qed.

Lemma position_some p l n : position p l = Some n →
  (n < length l)%nat ∧ ∃ b, l !! n = Some b ∧ p b = true.
Proof.
  revert n. induction l as [|b l IH]; intros n; simpl; [done|].
  destruct (p b) eqn:Hb; [intros [= <-]; split; [lia|eauto]|].
  destruct (position p l) eqn:?; [|done]. intros [= <-].
  destruct (IH _ eq_refl) as [? ?]. split; [lia|done].
Qed.

(** ** Concatenation *)

Lemma bytes_app a b : bytes (a +:+ b) = bytes a ++ bytes b.
Proof.
  unfold bytes. rewrite <-fmap_app. f_equal.
  induction a as [|c a IH]; [reflexivity|]. exact (f_equal (cons c) IH).
Qed.
Lemma length_skip n s : String.length (skip n s) = (String.length s - n)%nat.
Proof. revert s. induction n as [|n IH]; intros [|c s]; cbn; [done..|apply IH]. Qed.
Lemma utf8_decode_app l1 l2 c1 c2 :
  utf8_decode l1 = Some c1 → utf8_decode l2 = Some c2 → utf8_decode (l1 ++ l2) = Some (c1 ++ c2).
Proof.
  intros H1 H2. revert c1 H1.
  induction l1 as [l1 IH] using (induction_ltof1 _ (@length Z)). unfold ltof in IH.
  intros c1 H1. destruct l1 as [|b0 l1]; cbn [utf8_decode app] in *; [by simplify_eq|].
  repeat case_match; simplify_eq/=; simplify_option_eq; try done.
  all: try congruence.
  all: match goal with
       | Hd : utf8_decode ?l = Some _ |- context [utf8_decode (?l ++ _)] =>
           rewrite (IH l ltac:(simpl; lia) _ Hd); done
       end.
Qed.
Lemma length_prefix n s : String.length (prefix n s) = Nat.min n (String.length s).
Proof. revert s. induction n as [|n IH]; intros [|c s]; cbn; [done..|by rewrite IH]. Qed.
Lemma length_app_str a b : String.length (a +:+ b) = (String.length a + String.length b)%nat.
Proof. induction a as [|c a IH]; [reflexivity|]. exact (f_equal S IH). Qed.
Lemma skip_app a b : skip (String.length a) (a +:+ b) = b.
Proof. induction a as [|c a IH]; [by destruct b|]. exact IH. Qed.
Lemma prefix_app a b : prefix (String.length a) (a +:+ b) = a.
Proof. induction a as [|c a IH]; [by destruct b|]. exact (f_equal (String c) IH). Qed.
Lemma app_empty_r a : a +:+ "" = a.
Proof. induction a as [|c a IH]; [reflexivity|]. exact (f_equal (String c) IH). Qed.
Lemma skip_all a : skip (String.length a) a = "".
Proof. rewrite <-(app_empty_r a) at 2. apply skip_app. Qed.
Lemma prefix_all a : prefix (String.length a) a = a.
Proof. rewrite <-(app_empty_r a) at 2. apply prefix_app. Qed.
