(* ===== verification/Externals.v ===== *)
(** * Third-party crates, as interfaces

    The crates the gateway calls are parameters of the model: one class per
    crate with the functions the source calls, and one class of laws per crate
    that states the documented behaviour the theorems rely on.  No body of a
    crate is made up here; [Sim] gives concrete instances for the witnesses. *)

From stdpp Require Import base gmap strings list.
From Stdlib Require Import ZArith.
From S2P Require Import Prelude Rust.

Local Open Scope Z_scope.

(** ** [base64]: the engines [URL_SAFE_NO_PAD] and [STANDARD] *)
Class Base64 := {
  b64url_encode : string → string;
  b64url_decode : string → option string;
  b64std_encode : string → string;
  b64std_decode : string → option string;
}.

(** Decoding inverts encoding, the URL-safe engine accepts canonical text only
    (no padding, no trailing bits), and a block of three bytes takes four
    characters; the standard engine pads the last block. *)
Class Base64Laws (B : Base64) : Prop := {
  b64url_decode_encode b : b64url_decode (b64url_encode b) = Some b;
  b64url_encode_decode t b : b64url_decode t = Some b → b64url_encode b = t;
  b64url_encode_len b : len (b64url_encode b) = div_ceil (len b * 8) 6;
  b64url_alphabet b : Forall (λ c, is_ascii_digit c || is_ascii_lowercase c || is_ascii_uppercase c
                                   || (c =? 45) || (c =? 95) = true) (bytes (b64url_encode b));
  b64std_decode_encode b : b64std_decode (b64std_encode b) = Some b;
  b64std_encode_len b : len (b64std_encode b) = div_ceil (len b) 3 * 4;
  b64std_alphabet b : Forall (λ c, is_ascii_digit c || is_ascii_lowercase c || is_ascii_uppercase c
                                   || (c =? 43) || (c =? 47) || (c =? 61) = true) (bytes (b64std_encode b));
}.

(** ** [sha2], [hmac], [subtle] *)
Class Crypto := {
  sha256 : string → string;
  hmac_sha256 : string → string → string;   (* key, message *)
  ct_eq : string → string → bool;
}.
Class CryptoLaws (C : Crypto) : Prop := {
  sha256_len b : len (sha256 b) = 32;
  hmac_len k m : len (hmac_sha256 k m) = 32;
  ct_eq_spec a b : ct_eq a b = true ↔ a = b;
}.

(** ** [tokio::sync]: [Semaphore] with owned permits and the bounded [mpsc]

    A permit is not a value of the model: the record that holds it says so, and
    its [Drop] is a [sem_release] (or [permit_drop]) written at that place.
    [chan_queue] is what the receiver has yet to take, [chan_free] the
    [capacity()] of the sender; [try_send] and [try_reserve_owned] fail on a
    full or closed channel. *)
Class Tokio := {
  Sem : Type;
  sem_new : nat → Sem;
  sem_try_acquire : Sem → option Sem;
  sem_release : Sem → Sem;
  sem_permits : Sem → nat;
  Chan : Type → Type;
  chan_new : ∀ {A}, nat → Chan A;
  chan_try_send : ∀ {A}, A → Chan A → option (Chan A);
  chan_try_reserve : ∀ {A}, Chan A → option (Chan A);
  chan_permit_send : ∀ {A}, A → Chan A → Chan A;
  chan_permit_drop : ∀ {A}, Chan A → Chan A;
  chan_recv : ∀ {A}, Chan A → option (A * Chan A);
  chan_close : ∀ {A}, Chan A → Chan A;
  chan_queue : ∀ {A}, Chan A → list A;
  chan_free : ∀ {A}, Chan A → nat;
  chan_closed : ∀ {A}, Chan A → bool;
}.
Class TokioLaws (T : Tokio) : Prop := {
  sem_new_permits n : sem_permits (sem_new n) = n;
  sem_acquire_none s : sem_try_acquire s = None ↔ sem_permits s = 0%nat;
  sem_acquire_some s s' :
    sem_try_acquire s = Some s' → sem_permits s = S (sem_permits s');
  sem_release_permits s : sem_permits (sem_release s) = S (sem_permits s);
  chan_new_queue A n : chan_queue (@chan_new _ A n) = [];
  chan_new_free A n : chan_free (@chan_new _ A n) = n;
  chan_new_open A n : chan_closed (@chan_new _ A n) = false;
  chan_send_none A (x : A) c :
    chan_try_send x c = None ↔ chan_free c = 0%nat ∨ chan_closed c = true;
  chan_send_some A (x : A) c c' : chan_try_send x c = Some c' →
    chan_queue c' = chan_queue c ++ [x] ∧ chan_free c = S (chan_free c')
    ∧ chan_closed c' = chan_closed c;
  chan_reserve_none A (c : Chan A) :
    chan_try_reserve c = None ↔ chan_free c = 0%nat ∨ chan_closed c = true;
  chan_reserve_some A (c c' : Chan A) : chan_try_reserve c = Some c' →
    chan_queue c' = chan_queue c ∧ chan_free c = S (chan_free c')
    ∧ chan_closed c' = chan_closed c;
  chan_permit_send_queue A (x : A) c : chan_queue (chan_permit_send x c) = chan_queue c ++ [x];
  chan_permit_send_free A (x : A) c : chan_free (chan_permit_send x c) = chan_free c;
  chan_permit_send_closed A (x : A) c :
    chan_closed (chan_permit_send x c) = chan_closed c;
  chan_permit_drop_queue A (c : Chan A) : chan_queue (chan_permit_drop c) = chan_queue c;
  chan_permit_drop_free A (c : Chan A) : chan_free (chan_permit_drop c) = S (chan_free c);
  chan_permit_drop_closed A (c : Chan A) : chan_closed (chan_permit_drop c) = chan_closed c;
  chan_recv_none A (c : Chan A) : chan_recv c = None ↔ chan_queue c = [];
  chan_recv_some A (x : A) c c' : chan_recv c = Some (x, c') →
    chan_queue c = x :: chan_queue c' ∧ chan_free c' = S (chan_free c)
    ∧ chan_closed c' = chan_closed c;
  chan_close_closed A (c : Chan A) : chan_closed (chan_close c) = true;
}.

(** [Semaphore] as a budget of bytes: [try_acquire_many_owned], the drop of a
    permit of that many, [available_permits].  Nothing closes these. *)
Class Budgets := {
  Budget : Type;
  budget_new : Z → Budget;
  budget_take : Z → Budget → option Budget;
  budget_give : Z → Budget → Budget;
  budget_free : Budget → Z;
}.
Class BudgetLaws (B : Budgets) : Prop := {
  budget_new_free n : 0 <= n → budget_free (budget_new n) = n;
  budget_take_none n b : 0 <= n → budget_take n b = None ↔ budget_free b < n;
  budget_take_some n b b' : 0 <= n → budget_take n b = Some b' → budget_free b = budget_free b' + n;
  budget_give_free n b : 0 <= n → budget_free (budget_give n b) = budget_free b + n;
}.

(** ** [serde_json::Value]

    The public enum; an object keeps one value per key. *)
Inductive Value : Type :=
| VNull
| VBool (b : bool)
| VNumber (n : Z)
| VString (s : string)
| VArray (l : list Value)
| VObject (l : list (string * Value)).

Fixpoint assoc {A} (k : string) (l : list (string * A)) : option A :=
  match l with
  | [] => None
  | (k', v) :: l => if bool_decide (k = k') then Some v else assoc k l
  end.
(** [Value::get] and [Value::as_str]; indexing by [v["key"]] is [Null] where
    there is no such key. *)
Definition value_get (k : string) (v : Value) : option Value :=
  match v with VObject l => assoc k l | _ => None end.
Definition as_str (v : Value) : option string :=
  match v with VString s => Some s | _ => None end.
Definition value_index (k : string) (v : Value) : Value := default VNull (value_get k v).
Definition as_array (v : Value) : option (list Value) :=
  match v with VArray l => Some l | _ => None end.
Definition as_object (v : Value) : option (list (string * Value)) :=
  match v with VObject l => Some l | _ => None end.
Definition as_u64 (v : Value) : option Z :=
  match v with VNumber n => if in_range 0 n u64_max then Some n else None | _ => None end.
Definition is_null (v : Value) : bool := match v with VNull => true | _ => false end.
Definition as_bool (v : Value) : option bool := match v with VBool b => Some b | _ => None end.
(** [value == ".."] *)
Definition value_is (v : Value) (s : string) : bool := bool_decide (as_str v = Some s).
(** [value[key] = v]: [None] is the panic on a value that holds no keys. *)
Fixpoint assoc_set {A} (k : string) (v : A) (l : list (string * A)) : list (string * A) :=
  match l with
  | [] => [(k, v)]
  | (k', v') :: l => if bool_decide (k = k') then (k', v) :: l else (k', v') :: assoc_set k v l
  end.
Definition value_set (k : string) (v : Value) (o : Value) : option Value :=
  match o with
  | VNull => Some (VObject [(k, v)])
  | VObject l => Some (VObject (assoc_set k v l))
  | _ => None
  end.

(** [==] of values: objects are maps. *)
Fixpoint value_eqb (a b : Value) : bool :=
  match a, b with
  | VNull, VNull => true
  | VBool x, VBool y => Bool.eqb x y
  | VNumber x, VNumber y => x =? y
  | VString x, VString y => bool_decide (x = y)
  | VArray l, VArray m =>
      (fix all (l m : list Value) := match l, m with
         | [], [] => true
         | x :: l, y :: m => value_eqb x y && all l m
         | _, _ => false
         end) l m
  | VObject l, VObject m =>
      bool_decide (length l = length m)
      && forallb (λ e, match assoc e.1 m with Some y => value_eqb e.2 y | None => false end) l
  | _, _ => false
  end.

(** [serde_json::to_vec], and [to_string] of a [Value]: the compact form.  A
    string takes two quotes and at most six bytes for each of its own, none more
    than one if no character needs an escape. *)
Class Json := { json_to_vec : Value → option string }.
Definition json_len `{Json} (v : Value) : Z := match json_to_vec v with Some b => len b | None => 0 end.
Definition plain_char (b : Z) : bool := in_range 32 b 126 && negb (b =? 34) && negb (b =? 92).
Class JsonLaws (J : Json) : Prop := {
  json_total v : is_Some (json_to_vec v);
  json_null_len : json_len VNull = 4;
  json_bool_len b : json_len (VBool b) <= 5;
  json_number_len n : 0 <= n <= u64_max → json_len (VNumber n) <= 20;
  json_string_len s : json_len (VString s) <= 6 * len s + 2;
  json_plain_len s : Forall (λ b, plain_char b = true) (bytes s) → json_len (VString s) = len s + 2;
  json_object_len l : json_len (VObject l) <=
    2 + foldr (λ e n, json_len (VString e.1) + 2 + json_len e.2 + n) 0 l;
}.

(** ** [webauthn_rp] 0.3: ceremonies

    Server states are opaque; a challenge identifies one ([Borrow<SentChallenge>]).
    The option records below list what the source sets. *)
Inductive Backup := BackupNotEligible | BackupEligible | BackupExists.
Inductive BackupReq := BackupReqNone | BackupReqNotEligible.

Inductive AuthCeremonyErr : Type :=
| SignatureCounter
| OriginMismatch | CrossOrigin | TopOriginMismatch | RpIdHashMismatch
| UserNotVerified | ErrBackupEligible | ErrBackupNotEligible | BackupDoesNotExist
| ExtensionForbiddenHmacSecret | ExtensionHmacSecretForPrfIncapableCred
| OtherAuthCeremonyErr (code : nat).

Record DynamicState := mkDynamic {
  dyn_user_verified : bool;
  dyn_backup : Backup;
  dyn_sign_count : Z;
}.

(** [PublicKeyCredentialDescriptor]: decoded credential id and its transports. *)
Record Descriptor {Transport : Type} := mkDescriptor {
  desc_id : string;
  desc_transports : list Transport;
}.
Arguments Descriptor : clear implicits.
Arguments mkDescriptor {Transport}.

Record CreationOptions {Transport : Type} := mkCreation {
  co_rp_id : string;
  co_user_name : string;
  co_user_id : string;
  co_display_name : option string;
  co_timeout_ms : Z;
  co_exclude : list (Descriptor Transport);
  co_resident_required : bool;
}.
Arguments CreationOptions : clear implicits.
Arguments mkCreation {Transport}.

Record RegistrationOpts := mkRegOpts { ro_origin : string; ro_backup : BackupReq }.
Record AuthOpts := mkAuthOpts { ao_origin : string; ao_backup : option BackupReq }.

(** What a verified registration exposes. *)
Record Registered {Transport : Type} := mkRegistered {
  rg_dynamic : DynamicState;
  rg_user_id : string;
  rg_id : string;
  rg_static_state : option string;      (* [static_state().encode()] *)
  rg_transports : list Transport;
}.
Arguments Registered : clear implicits.
Arguments mkRegistered {Transport}.

Class Webauthn (Transport : Type) := {
  Challenge : Type;
  challenge_eq_dec : EqDecision Challenge;
  challenge_countable : Countable Challenge;
  RegState : Type;
  LoginState : Type;
  ElevState : Type;
  KeyState : Type;
  reg_challenge : RegState → Challenge;
  login_challenge : LoginState → Challenge;
  elev_challenge : ElevState → Challenge;
  (* [StaticState::decode] then [CompressedPubKey::validate]; [key_is_p384] *)
  key_decode : string → option KeyState;
  key_is_p384 : KeyState → bool;
  (* [UserHandle16::decode], [CredentialId::decode], [AsciiDomain::try_from],
     [Nickname::try_from] (its normalised text) *)
  user_handle_ok : string → bool;
  credential_id_ok : string → bool;
  ascii_domain_ok : string → bool;
  nickname : string → option string;
  username_ok : string → bool;
  (* [NonDiscoverableCredentialRequestOptions::second_factor] *)
  second_factor_ok : string → list (Descriptor Transport) → bool;
  (* [start_ceremony], with the random bytes [Challenge::new] drew *)
  start_registration : CreationOptions Transport → string → option (RegState * Value);
  start_login : string → string → option (LoginState * Value);
  start_elevation : string → list (Descriptor Transport) → string → option (ElevState * Value);
  (* [from_value::<..Relaxed>(..)] then [challenge_relaxed()] *)
  registration_response_challenge : Value → option Challenge;
  login_response_challenge : Value → option Challenge;
  elevation_response_challenge : Value → option Challenge;
  (* [from_value] then [verify]: the outer option is the parse, the sum is [verify] *)
  verify_reg : RegState → string → Value → RegistrationOpts → option (Registered Transport);
  authenticated_credential_ok : string → string → KeyState → DynamicState → bool;
  verify_login : LoginState → string → Value → string → string → KeyState → DynamicState →
    AuthOpts → option (AuthCeremonyErr + DynamicState);
  verify_elev : ElevState → string → Value → string → string → KeyState → DynamicState →
    AuthOpts → option (AuthCeremonyErr + DynamicState);
}.
#[global] Existing Instance challenge_eq_dec.
#[global] Existing Instance challenge_countable.

(** ** [http]: header values and authorities

    A [HeaderMap] is the list of its entries, names in lower case; a [Uri] is
    what the source asks of it. *)
Definition HeaderMap : Type := list (string * string).
Record Uri := mkUri { uri_path : string; uri_has_authority : bool; uri_has_scheme : bool }.
Record Authority := mkAuthority {
  au_host : string; au_port : option (Z * string); au_as_str : string }.

Class Http := {
  header_to_str : string → option string;
  header_from_str : string → option string;
  parse_authority : string → option Authority;
}.
(** [HeaderValue::to_str] succeeds on visible ASCII and tabs, and is the value;
    [HeaderValue::from_str] accepts at least those. *)
Class HttpLaws (H : Http) : Prop := {
  header_to_str_some v s : header_to_str v = Some s ↔
    s = v ∧ Forall (λ b, 32 <= b <= 126 ∨ b = 9) (bytes v);
  header_from_str_visible s : Forall (λ b, 32 <= b <= 126 ∨ b = 9) (bytes s) → header_from_str s = Some s;
}.

Definition headers_contain (name : string) (h : HeaderMap) : bool :=
  existsb (λ e, bool_decide (e.1 = name)) h.
Definition headers_get_all (name : string) (h : HeaderMap) : list string :=
  snd <$> filter (λ e, e.1 = name) h.
