(* ===== verification/Crates.v ===== *)
(** * Concrete instances of the third-party interfaces

    One model per crate, with its laws proved: the hypotheses of [Externals]
    hold together, and a witness can run the gateway's code on them.  The
    base64 codec is the real alphabet and bit layout; the digest, the
    ceremonies and the semaphores are the smallest functions with the laws. *)

From stdpp Require Import base gmap strings list pretty.
From Stdlib Require Import ZArith Lia.
From S2P Require Import Prelude Rust Externals.

Local Open Scope Z_scope.

Lemma char_of_byte a : char_of (byte a) = a.
Proof. unfold char_of, byte. rewrite N2Z.id. apply Ascii.ascii_N_embedding. Qed.

Lemma byte_char_of b : 0 <= b <= 255 → byte (char_of b) = b.
Proof. intros. unfold char_of, byte. rewrite Ascii.N_ascii_embedding; lia. Qed.

Lemma of_bytes_bytes s : of_bytes (bytes s) = s.
Proof.
  unfold of_bytes, bytes. induction s as [|c s IH]; [done|]. csimpl. by rewrite char_of_byte, IH.
Qed.

Lemma bytes_of_bytes l : Forall (λ b, 0 <= b <= 255) l → bytes (of_bytes l) = l.
Proof.
  unfold of_bytes, bytes. induction 1 as [|b l Hb _ IH]; [done|]. csimpl.
  by rewrite byte_char_of, IH.
Qed.

Lemma len_bytes s : len s = Z.of_nat (length (bytes s)).
Proof. unfold len. by rewrite length_bytes. Qed.

(** ** base64url without padding *)
Module Codec.
Definition to_char (v : Z) : Z :=
  if v <? 26 then 65 + v else if v <? 52 then 71 + v else if v <? 62 then v - 4
  else if v =? 62 then 45 else 95.
Definition of_char (c : Z) : option Z :=
  if in_range 65 c 90 then Some (c - 65) else if in_range 97 c 122 then Some (c - 71)
  else if in_range 48 c 57 then Some (c + 4) else if c =? 45 then Some 62
  else if c =? 95 then Some 63 else None.

Fixpoint sextets (l : list Z) : list Z :=
  match l with
  | a :: b :: c :: l =>
      a / 4 :: a mod 4 * 16 + b / 16 :: b mod 16 * 4 + c / 64 :: c mod 64 :: sextets l
  | [a; b] => [a / 4; a mod 4 * 16 + b / 16; b mod 16 * 4]
  | [a] => [a / 4; a mod 4 * 16]
  | [] => []
  end.
Fixpoint octets (l : list Z) : option (list Z) :=
  match l with
  | w :: x :: y :: z :: l =>
      (λ r, w * 4 + x / 16 :: x mod 16 * 16 + y / 4 :: y mod 4 * 64 + z :: r) <$> octets l
  | [w; x; y] => if y mod 4 =? 0 then Some [w * 4 + x / 16; x mod 16 * 16 + y / 4] else None
  | [w; x] => if x mod 16 =? 0 then Some [w * 4 + x / 16] else None
  | [_] => None
  | [] => Some []
  end.

Definition enc (s : string) : string := of_bytes (to_char <$> sextets (bytes s)).
Definition dec (t : string) : option string :=
  match mapM of_char (bytes t) with
  | Some v => of_bytes <$> octets v
  | None => None
  end.

Definition byte_range (b : Z) : Prop := 0 <= b <= 255.
Definition sextet_range (v : Z) : Prop := 0 <= v <= 63.

Ltac div_lia := Z.div_mod_to_equations; lia.

Lemma of_char_to_char v : sextet_range v → of_char (to_char v) = Some v.
Proof.
  unfold sextet_range, of_char, to_char, in_range. intros Hv.
  repeat case_match; f_equal;
    repeat match goal with
    | H : (_ && _) = true |- _ => apply andb_true_iff in H as [?%Z.leb_le ?%Z.leb_le]
    | H : (_ && _) = false |- _ => apply andb_false_iff in H as [?%Z.leb_gt|?%Z.leb_gt]
    | H : (_ <? _) = true |- _ => apply Z.ltb_lt in H
    | H : (_ <? _) = false |- _ => apply Z.ltb_ge in H
    | H : (_ =? _) = true |- _ => apply Z.eqb_eq in H
    | H : (_ =? _) = false |- _ => apply Z.eqb_neq in H
    end; lia.
Qed.

Lemma to_char_of_char c v : of_char c = Some v → to_char v = c ∧ sextet_range v.
Proof.
  unfold sextet_range, of_char, to_char, in_range. intros Hv.
  repeat case_match; simplify_eq;
    repeat match goal with
    | H : (_ && _) = true |- _ => apply andb_true_iff in H as [?%Z.leb_le ?%Z.leb_le]
    | H : (_ && _) = false |- _ => apply andb_false_iff in H as [?%Z.leb_gt|?%Z.leb_gt]
    | H : (_ <? _) = true |- _ => apply Z.ltb_lt in H
    | H : (_ <? _) = false |- _ => apply Z.ltb_ge in H
    | H : (_ =? _) = true |- _ => apply Z.eqb_eq in H
    | H : (_ =? _) = false |- _ => apply Z.eqb_neq in H
    end; lia.
Qed.

Lemma to_char_range v : sextet_range v → byte_range (to_char v).
Proof. unfold sextet_range, byte_range, to_char. intros. repeat case_match; lia. Qed.

Lemma mapM_of_char l : Forall sextet_range l → mapM of_char (to_char <$> l) = Some l.
Proof.
  intros Hl. apply mapM_Some. induction Hl as [|v l Hv _ IH]; constructor; [|done].
  by apply of_char_to_char.
Qed.

Lemma three_ind (P : list Z → Prop) :
  P [] → (∀ a, P [a]) → (∀ a b, P [a; b]) → (∀ a b c l, P l → P (a :: b :: c :: l)) →
  ∀ l, P l.
Proof.
  intros H0 H1 H2 H3. fix IH 1. intros [|a [|b [|c l]]];
    [exact H0|exact (H1 a)|exact (H2 a b)|exact (H3 a b c l (IH l))].
Qed.

Lemma four_ind (P : list Z → Prop) :
  P [] → (∀ a, P [a]) → (∀ a b, P [a; b]) → (∀ a b c, P [a; b; c]) →
  (∀ a b c d l, P l → P (a :: b :: c :: d :: l)) → ∀ l, P l.
Proof.
  intros H0 H1 H2 H3 H4. fix IH 1. intros [|a [|b [|c [|d l]]]];
    [exact H0|exact (H1 a)|exact (H2 a b)|exact (H3 a b c)|exact (H4 a b c d l (IH l))].
Qed.

Lemma sextets_range l : Forall byte_range l → Forall sextet_range (sextets l).
Proof.
  unfold byte_range, sextet_range. induction l as [|a|a b|a b c l IH] using three_ind;
    intros Hl; decompose_Forall_hyps; repeat constructor; try div_lia; auto.
Qed.

Lemma octets_sextets l : Forall byte_range l → octets (sextets l) = Some l.
Proof.
  unfold byte_range. induction l as [|a|a b|a b c l IH] using three_ind; intros Hl; simpl.
  - done.
  - decompose_Forall_hyps. replace (a mod 4 * 16 mod 16 =? 0) with true by (symmetry; apply Z.eqb_eq; div_lia).
    do 2 f_equal. div_lia.
  - decompose_Forall_hyps. replace (b mod 16 * 4 mod 4 =? 0) with true by (symmetry; apply Z.eqb_eq; div_lia).
    f_equal. f_equal; [div_lia|]. f_equal. div_lia.
  - decompose_Forall_hyps. rewrite IH by done. simpl.
    do 2 f_equal; [div_lia|]. f_equal; [div_lia|]. f_equal. div_lia.
Qed.

Lemma sextets_octets l : ∀ r, Forall sextet_range l → octets l = Some r →
  sextets r = l ∧ Forall byte_range r.
Proof.
  unfold byte_range, sextet_range.
  induction l as [|w|w x|w x y|w x y z l IH] using four_ind; intros r Hl Hr; simpl in Hr.
  - by simplify_eq.
  - done.
  - decompose_Forall_hyps. case_match eqn:Hx; simplify_eq. apply Z.eqb_eq in Hx. simpl.
    split; [f_equal; [div_lia|f_equal; div_lia]|repeat constructor; div_lia].
  - decompose_Forall_hyps. case_match eqn:Hx; simplify_eq. apply Z.eqb_eq in Hx. simpl.
    split; [f_equal; [div_lia|f_equal; [div_lia|f_equal; div_lia]]|repeat constructor; div_lia].
  - decompose_Forall_hyps. destruct (octets l) as [r'|] eqn:Ho; [|done]. simplify_eq/=.
    destruct (IH r') as [IH1 IH2]; [done..|]. split; [|repeat constructor; try div_lia; done].
    rewrite IH1. f_equal; [div_lia|]. f_equal; [div_lia|]. f_equal; [div_lia|]. f_equal. div_lia.
Qed.

Lemma enc_range b : Forall byte_range (to_char <$> sextets (bytes b)).
Proof.
  apply Forall_fmap. eapply Forall_impl; [apply sextets_range, bytes_range|apply to_char_range].
Qed.

Lemma dec_enc b : dec (enc b) = Some b.
Proof.
  unfold dec, enc. rewrite (bytes_of_bytes _ (enc_range b)).
  rewrite mapM_of_char by apply sextets_range, bytes_range.
  rewrite octets_sextets by apply bytes_range. simpl. by rewrite of_bytes_bytes.
Qed.

Lemma enc_dec t b : dec t = Some b → enc b = t.
Proof.
  unfold dec, enc. case_match eqn:Hm; [|done]. apply mapM_Some in Hm.
  destruct (octets l) as [r|] eqn:Ho; [|done]. intros [= <-].
  assert (Forall sextet_range l) as Hl.
  { clear Ho. induction Hm as [|c v cs vs Hc _ IH]; constructor; [|done].
    by apply to_char_of_char in Hc as [_ ?]. }
  destruct (sextets_octets l r Hl Ho) as [Hs Hr]. rewrite bytes_of_bytes by done. rewrite Hs.
  replace (to_char <$> l) with (bytes t); [apply of_bytes_bytes|].
  clear -Hm. induction Hm as [|c v cs vs Hc _ IH]; [done|]. csimpl. f_equal; [|done].
  by apply to_char_of_char in Hc as [-> _].
Qed.

Lemma sextets_length l :
  Z.of_nat (length (sextets l)) = div_ceil (Z.of_nat (length l) * 8) 6.
Proof.
  unfold div_ceil. induction l as [|a|a b|a b c l IH] using three_ind; [done..|].
  simpl length. rewrite !Nat2Z.inj_succ, IH. div_lia.
Qed.

Lemma enc_len b : len (enc b) = div_ceil (len b * 8) 6.
Proof.
  unfold enc. rewrite !len_bytes, (bytes_of_bytes _ (enc_range b)).
  by rewrite length_fmap, sextets_length.
Qed.
Lemma enc_alphabet b : Forall (λ c, is_ascii_digit c || is_ascii_lowercase c || is_ascii_uppercase c
    || (c =? 45) || (c =? 95) = true) (bytes (enc b)).
Proof.
  unfold enc. rewrite (bytes_of_bytes _ (enc_range b)). apply Forall_fmap.
  eapply Forall_impl; [apply sextets_range, bytes_range|]. intros v Hv.
  unfold sextet_range, is_ascii_digit, is_ascii_lowercase, is_ascii_uppercase, in_range, to_char, compose in *.
  repeat case_match; lia.
Qed.

(** ** The standard alphabet, padded *)
Definition to_std (c : Z) : Z := if c =? 45 then 43 else if c =? 95 then 47 else c.
Definition of_std (c : Z) : option Z :=
  if c =? 43 then Some 45 else if c =? 47 then Some 95
  else if (c =? 45) || (c =? 95) then None else Some c.
Definition padding (n : nat) : list Z := repeat 61 ((4 - n mod 4) mod 4).
Definition std_enc (s : string) : string :=
  let l := to_std <$> bytes (enc s) in of_bytes (l ++ padding (length l)).
Definition std_dec (t : string) : option string :=
  let l := bytes t in
  let body := rev (drop_while (λ c, c =? 61) (rev l)) in
  if bool_decide (l = body ++ padding (length body)) then l ← mapM of_std body; dec (of_bytes l) else None.

Definition std_char (c : Z) : Prop := is_ascii_digit c || is_ascii_lowercase c || is_ascii_uppercase c
  || (c =? 43) || (c =? 47) = true.
Lemma to_std_spec c :
  is_ascii_digit c || is_ascii_lowercase c || is_ascii_uppercase c || (c =? 45) || (c =? 95) = true →
  of_std (to_std c) = Some c ∧ std_char (to_std c).
Proof.
  unfold std_char, of_std, to_std, is_ascii_digit, is_ascii_lowercase, is_ascii_uppercase, in_range. intros Hc.
  destruct (Z.eq_dec c 45); [by subst c|]. destruct (Z.eq_dec c 95); [by subst c|].
  destruct (Z.eq_dec c 43); [lia|]. destruct (Z.eq_dec c 47); [lia|].
  assert ((if c =? 45 then 43 else if c =? 95 then 47 else c) = c) as ->.
  { replace (c =? 45) with false by lia. by replace (c =? 95) with false by lia. }
  replace (c =? 43) with false by lia. replace (c =? 47) with false by lia.
  replace (c =? 45) with false by lia. replace (c =? 95) with false by lia. split; [done|]. lia.
Qed.
Lemma enc_std_chars b : Forall std_char (to_std <$> bytes (enc b)).
Proof. apply Forall_fmap. eapply Forall_impl; [apply enc_alphabet|]. intros c Hc. by apply to_std_spec. Qed.
Lemma std_char_range c : std_char c → 0 <= c <= 255 ∧ c ≠ 61.
Proof.
  unfold std_char, is_ascii_digit, is_ascii_lowercase, is_ascii_uppercase, in_range. lia.
Qed.
Lemma padding_range n : Forall (λ c, c = 61) (padding n).
Proof. unfold padding. generalize ((4 - n mod 4) mod 4)%nat. intros k. induction k; simpl; auto. Qed.
Lemma std_enc_bytes b :
  bytes (std_enc b) = (to_std <$> bytes (enc b)) ++ padding (length (to_std <$> bytes (enc b))).
Proof.
  unfold std_enc. apply bytes_of_bytes, Forall_app. split.
  - eapply Forall_impl; [apply enc_std_chars|]. intros c Hc. by apply std_char_range.
  - eapply Forall_impl; [apply padding_range|]. intros c ->. lia.
Qed.
Lemma drop_while_all {A} (p : A → bool) l m : Forall (λ x, p x = true) l →
  drop_while p (l ++ m) = drop_while p m.
Proof. induction 1 as [|x l Hx _ IH]; [done|]. simpl. by rewrite Hx. Qed.
Lemma drop_padding l n : Forall std_char l → drop_while (λ c, c =? 61) (rev (l ++ padding n)) = rev l.
Proof.
  intros Hl. rewrite rev_app_distr, drop_while_all.
  - destruct (rev l) as [|c m] eqn:Hr; [done|]. simpl.
    assert (c ∈ l) as Hc. { apply list_elem_of_In, in_rev. rewrite Hr. by left. }
    rewrite Forall_forall in Hl. apply Hl, std_char_range in Hc as [_ Hc]. by apply Z.eqb_neq in Hc as ->.
  - apply Forall_rev. eapply Forall_impl; [apply padding_range|]. by intros c ->.
Qed.
Lemma std_dec_enc b : std_dec (std_enc b) = Some b.
Proof.
  unfold std_dec. rewrite std_enc_bytes, drop_padding by apply enc_std_chars. rewrite rev_involutive.
  rewrite bool_decide_eq_true_2 by done.
  replace (mapM of_std (to_std <$> bytes (enc b))) with (Some (bytes (enc b))).
  { simpl. rewrite of_bytes_bytes. apply dec_enc. }
  symmetry. apply mapM_Some. generalize (enc_alphabet b). induction 1 as [|c l Hc _ IH]; constructor; [|done].
  by apply to_std_spec.
Qed.
Lemma std_enc_len b : len (std_enc b) = div_ceil (len b) 3 * 4.
Proof.
  rewrite len_bytes, std_enc_bytes, length_app, length_fmap. unfold padding. rewrite repeat_length.
  pose proof (enc_len b) as He. rewrite len_bytes in He. rewrite Nat2Z.inj_add.
  set (n := length (bytes (enc b))) in *.
  assert (Z.of_nat ((4 - n mod 4) mod 4) = (4 - Z.of_nat n mod 4) mod 4) as ->.
  { pose proof (Nat.mod_upper_bound n 4 ltac:(lia)). rewrite Nat2Z.inj_mod, Nat2Z.inj_sub by lia.
    by rewrite Nat2Z.inj_mod. }
  rewrite He. unfold div_ceil. pose proof (len_bytes b). div_lia.
Qed.
Lemma std_alphabet b : Forall (λ c, is_ascii_digit c || is_ascii_lowercase c || is_ascii_uppercase c
    || (c =? 43) || (c =? 47) || (c =? 61) = true) (bytes (std_enc b)).
Proof.
  rewrite std_enc_bytes. apply Forall_app. split.
  - eapply Forall_impl; [apply enc_std_chars|]. intros c Hc. unfold std_char in Hc. by rewrite Hc.
  - eapply Forall_impl; [apply padding_range|]. by intros c ->.
Qed.
End Codec.

#[export] Instance sim_base64 : Base64 := {|
  b64url_encode := Codec.enc;
  b64url_decode := Codec.dec;
  b64std_encode := Codec.std_enc;
  b64std_decode := Codec.std_dec;
|}.
#[export] Instance sim_base64_laws : Base64Laws sim_base64.
Proof.
  constructor; [apply Codec.dec_enc|apply Codec.enc_dec|apply Codec.enc_len|apply Codec.enc_alphabet
    |apply Codec.std_dec_enc|apply Codec.std_enc_len|apply Codec.std_alphabet].
Qed.

(** ** A digest of the right width *)

Fixpoint pad (n : nat) (s : string) : string :=
  match n, s with
  | O, _ => EmptyString
  | S n, EmptyString => zeros (S n)
  | S n, String c s => String c (pad n s)
  end.
Lemma len_pad n s : len (pad n s) = Z.of_nat n.
Proof.
  unfold len. revert s. induction n as [|n IH]; intros [|c s]; simpl; [done..| |].
  - pose proof (len_zeros n). unfold len in *. lia.
  - specialize (IH s). lia.
Qed.

#[export] Instance sim_crypto : Crypto := {|
  sha256 := pad 32;
  hmac_sha256 := λ key msg, pad 32 (msg +:+ key);
  ct_eq := λ a b, bool_decide (a = b);
|}.
#[export] Instance sim_crypto_laws : CryptoLaws sim_crypto.
Proof.
  constructor; intros; cbn; [apply (len_pad 32)..|]. apply bool_decide_eq_true.
Qed.

(** ** Permit counters and a bounded queue *)

Record SimChan (A : Type) := mkSimChan { sc_queue : list A; sc_free : nat; sc_closed : bool }.
Arguments mkSimChan {A}.
Arguments sc_queue {A}.
Arguments sc_free {A}.
Arguments sc_closed {A}.

Definition sim_take_slot {A} (l : list A) (c : SimChan A) : option (SimChan A) :=
  match sc_free c, sc_closed c with
  | S n, false => Some (mkSimChan (sc_queue c ++ l) n false)
  | _, _ => None
  end.

#[export] Instance sim_tokio : Tokio := {|
  Sem := nat;
  sem_new := λ n, n;
  sem_try_acquire := λ s, match s with O => None | S n => Some n end;
  sem_release := S;
  sem_permits := λ s, s;
  Chan := SimChan;
  chan_new := λ A n, mkSimChan [] n false;
  chan_try_send := λ A x c, sim_take_slot [x] c;
  chan_try_reserve := λ A c, sim_take_slot [] c;
  chan_permit_send := λ A x c, mkSimChan (sc_queue c ++ [x]) (sc_free c) (sc_closed c);
  chan_permit_drop := λ A c, mkSimChan (sc_queue c) (S (sc_free c)) (sc_closed c);
  chan_recv := λ A c, match sc_queue c with
                      | [] => None
                      | x :: l => Some (x, mkSimChan l (S (sc_free c)) (sc_closed c))
                      end;
  chan_close := λ A c, mkSimChan (sc_queue c) (sc_free c) true;
  chan_queue := @sc_queue;
  chan_free := @sc_free;
  chan_closed := @sc_closed;
|}.
Lemma sim_take_slot_none {A} (l : list A) c :
  sim_take_slot l c = None ↔ sc_free c = 0%nat ∨ sc_closed c = true.
Proof.
  destruct c as [q [|n] []]; cbn; split; intros; try done; auto.
  by destruct H as [H|H].
Qed.
Lemma sim_take_slot_some {A} (l : list A) c c' : sim_take_slot l c = Some c' →
  sc_queue c' = sc_queue c ++ l ∧ sc_free c = S (sc_free c') ∧ sc_closed c' = sc_closed c.
Proof. destruct c as [q [|n] []]; cbn; intros; by simplify_eq/=. Qed.

#[export] Instance sim_tokio_laws : TokioLaws sim_tokio.
Proof.
  constructor; cbn; try done; intros *.
  - destruct s; split; done.
  - destruct s; intros; by simplify_eq.
  - apply sim_take_slot_none.
  - apply sim_take_slot_some.
  - apply sim_take_slot_none.
  - intros Hs. apply sim_take_slot_some in Hs as (-> & ? & ?). by rewrite app_nil_r.
  - destruct c as [[|x l] n b]; cbn; done.
  - destruct c as [[|y l] n b]; cbn; intros; by simplify_eq/=.
Qed.

#[export] Instance sim_budgets : Budgets := {|
  Budget := Z;
  budget_new := λ n, n;
  budget_take := λ n b, if b <? n then None else Some (b - n);
  budget_give := λ n b, b + n;
  budget_free := λ b, b;
|}.
#[export] Instance sim_budget_laws : BudgetLaws sim_budgets.
Proof.
  constructor; cbn; intros.
  - done.
  - destruct (Z.ltb_spec b n); split; intros; (done || lia).
  - destruct (Z.ltb_spec b n); simplify_eq; lia.
  - done.
Qed.

(** ** Ceremonies whose challenge is their state *)

Definition sim_response_challenge (v : Value) : option Z :=
  match value_get "challenge" v with Some (VNumber n) => Some n | _ => None end.

Definition sim_challenge (entropy : string) : Z := foldl (λ n b, n * 256 + b) 0 (bytes entropy).

#[export] Instance sim_webauthn (Transport : Type) : Webauthn Transport := {|
  Challenge := Z;
  challenge_eq_dec := _;
  challenge_countable := _;
  RegState := Z * string;
  LoginState := Z;
  ElevState := Z;
  KeyState := unit;
  reg_challenge := fst;
  login_challenge := λ s, s;
  elev_challenge := λ s, s;
  key_decode := λ _, Some tt;
  key_is_p384 := λ _, false;
  user_handle_ok := λ _, true;
  credential_id_ok := λ _, true;
  ascii_domain_ok := λ _, true;
  nickname := Some;
  username_ok := λ _, true;
  second_factor_ok := λ _ allowed, negb (bool_decide (length allowed = 0%nat));
  start_registration := λ o ch, Some ((sim_challenge ch, co_user_id o), VNumber (sim_challenge ch));
  start_login := λ _ ch, Some (sim_challenge ch, VNumber (sim_challenge ch));
  start_elevation := λ _ _ ch, Some (sim_challenge ch, VNumber (sim_challenge ch));
  registration_response_challenge := sim_response_challenge;
  login_response_challenge := sim_response_challenge;
  elevation_response_challenge := sim_response_challenge;
  verify_reg := λ st _ _ _, Some (mkRegistered (mkDynamic true BackupNotEligible 0)
    (snd st) "credential" (Some "key") []);
  authenticated_credential_ok := λ _ _ _ _, true;
  verify_login := λ _ _ _ _ _ _ d _,
    Some (inr (mkDynamic true (dyn_backup d) (dyn_sign_count d + 1)));
  verify_elev := λ _ _ _ _ _ _ d _,
    Some (inr (mkDynamic true (dyn_backup d) (dyn_sign_count d + 1)));
|}.

(** [http]: ASCII header values, and authorities without user information. *)
#[export] Instance sim_http : Http := {|
  header_to_str := λ v,
    if forallb (λ b, in_range 32 b 126 || (b =? 9)) (bytes v) then Some v else None;
  header_from_str := λ v,
    if forallb (λ b, in_range 32 b 126 || (b =? 9)) (bytes v) then Some v else None;
  parse_authority := λ s, match split_on (char_of 58) s with
    | [h] => Some (mkAuthority h None s)
    | _ => None
    end;
|}.
#[export] Instance sim_http_laws : HttpLaws sim_http.
Proof.
  assert (∀ v, Forall (λ b, 32 <= b <= 126 ∨ b = 9) (bytes v) →
    forallb (λ b, in_range 32 b 126 || (b =? 9)) (bytes v) = true) as Hvis.
  { intros v Hv. apply forallb_Forall. eapply Forall_impl; [exact Hv|]. simpl. unfold in_range. intros b. lia. }
  constructor.
  - intros v s. cbn. split.
    + case_match eqn:Hb; [|done]. intros [= ->]. split; [done|].
      apply forallb_Forall in Hb. eapply Forall_impl; [exact Hb|]. simpl. intros b Hv.
      unfold in_range in Hv. lia.
    + intros [-> Hv]. by rewrite Hvis.
  - intros v Hv. cbn. by rewrite Hvis.
Qed.

(** [serde_json]: a printer that escapes nothing, with one comma after each item. *)
Fixpoint digits (fuel : nat) (n : Z) : string :=
  match fuel with
  | O => EmptyString
  | S fuel => (if n <? 10 then EmptyString else digits fuel (n / 10)) +:+ of_bytes [48 + n mod 10]
  end.
Fixpoint sim_json (v : Value) : string :=
  match v with
  | VNull => "null"
  | VBool b => if b then "true" else "false"
  | VNumber n => if in_range 0 n u64_max then digits 20 n else pretty n
  | VString s => "'" +:+ s +:+ "'"
  | VArray l => "[" +:+ foldr (λ v s, sim_json v +:+ "," +:+ s) "]" l
  | VObject l => "{" +:+ foldr (λ e s, e.1 +:+ ":" +:+ sim_json e.2 +:+ "," +:+ s) "}" l
  end.
#[export] Instance sim_json_writer : Json := {| json_to_vec := λ v, Some (sim_json v) |}.

Lemma len_append a b : len (a +:+ b) = len a + len b.
Proof. unfold len. induction a as [|c a IH]; [done|]. change (String c a +:+ b) with (String c (a +:+ b)). cbn [String.length]. rewrite !Nat2Z.inj_succ, IH. lia. Qed.
Lemma len_digits fuel n : len (digits fuel n) <= Z.of_nat fuel.
Proof.
  revert n. induction fuel as [|fuel IH]; intros n; [done|]. cbn [digits]. rewrite len_append.
  change (len (of_bytes [48 + n mod 10])) with 1.
  destruct (n <? 10); [change (len "") with 0; lia|]. specialize (IH (n / 10)). lia.
Qed.
#[export] Instance sim_json_laws : JsonLaws sim_json_writer.
Proof.
  constructor; unfold json_len; cbn -[sim_json u64_max].
  - eauto.
  - done.
  - by intros [].
  - intros n Hn. cbn [sim_json]. replace (in_range 0 n u64_max) with true by (unfold in_range; lia). apply (len_digits 20).
  - intros s. cbn [sim_json]. rewrite !len_append. unfold len. simpl. lia.
  - intros s _. cbn [sim_json]. rewrite !len_append. unfold len. simpl. lia.
  - intros l. change (sim_json (VObject l))
      with ("{" +:+ foldr (λ e s, e.1 +:+ ":" +:+ sim_json e.2 +:+ "," +:+ s) "}" l). rewrite len_append. change (len "{") with 1.
    enough (len (foldr (λ e s, e.1 +:+ ":" +:+ sim_json e.2 +:+ "," +:+ s) "}" l) <=
      1 + foldr (λ e n, len (sim_json (VString e.1)) + 2 + len (sim_json e.2) + n) 0 l) by lia.
    induction l as [|[k v] l IH]; [done|]. cbn [foldr fst snd]. rewrite !len_append.
    change (sim_json (VString k)) with ("'" +:+ k +:+ "'"). rewrite !len_append.
    change (len "'") with 1. change (len ":") with 1. change (len ",") with 1. lia.
Qed.
