(* ===== verification/Clock.v ===== *)
(** * [clock.rs]: wall-clock deadlines with a monotonic floor

    A [Timestamp] is an instant in nanoseconds since the Unix epoch.  Four-digit
    years keep every sum the gateway forms inside chrono's range, so chrono's
    checked additions are plain additions here.  The operating system's two
    clocks are inputs: [elapsed] is what [Instant::elapsed] reads, [system]
    what [Utc::now] reads. *)

From stdpp Require Import base strings list.
From Stdlib Require Import ZArith Lia Sorting.Sorted.
From S2P Require Import Prelude Rust.

Local Open Scope Z_scope.

Abbreviation Timestamp := Z (only parsing).
Definition seconds (n : Z) : Z := n * 1000000000.

(** [Timestamp::after] *)
Definition after (t : Timestamp) (d : Z) : Timestamp := t + d.

(** [Option<Timestamp>] is ordered with [None] first. *)
Definition option_lt (a b : option Timestamp) : bool :=
  match a, b with
  | None, Some _ => true
  | Some a, Some b => a <? b
  | _, None => false
  end.

(** ** The UTC shape of the admin protocol *)

Definition strip_suffix_bytes (suf l : list Z) : option (list Z) :=
  let n := (length l - length suf)%nat in
  if bool_decide (length suf ≤ length l)%nat && bool_decide (drop n l = suf)
  then Some (take n l) else None.

Definition separator (i : nat) : option Z :=
  match i with
  | 4%nat | 7%nat => Some 45
  | 10%nat => Some 84
  | 13%nat | 16%nat => Some 58
  | _ => None
  end.
Fixpoint shape_from (i : nat) (l : list Z) : bool :=
  match l with
  | [] => true
  | b :: l => match separator i with
              | None => is_ascii_digit b
              | Some expected => b =? expected
              end && shape_from (S i) l
  end.

Definition utc_shape (value : list Z) : bool :=
  let core := match strip_suffix_bytes [90] value with
              | Some core => Some core
              | None => strip_suffix_bytes [43; 48; 48; 58; 48; 48] value
              end in
  match core with
  | None => false
  | Some core =>
      if bool_decide (length core < 19)%nat then false
      else if negb (shape_from 0 (take 19 core)) then false
      else bool_decide (length core = 19%nat)
           || (bool_decide (21 ≤ length core ≤ 29)%nat
               && bool_decide (core !! 19%nat = Some 46)
               && forallb is_ascii_digit (drop 20 core))
  end.

(** [Timestamp::deserialize]; chrono's [parse_from_rfc3339] is the parameter: it
    yields the offset in seconds, the sub-second nanoseconds and the instant. *)
Definition timestamp_deserialize (parse_from_rfc3339 : string → option (Z * Z * Timestamp))
    (value : string) : option Timestamp :=
  if negb (utc_shape (bytes value)) then None
  else match parse_from_rfc3339 value with
       | None => None
       | Some (offset, subsec_nanos, instant) =>
           if negb (offset =? 0) || (1000000000 <=? subsec_nanos) then None
           else Some instant
       end.

Example utc_shape_plain : utc_shape (bytes "2030-01-01T00:00:00Z") = true.
Proof. reflexivity. Qed.
Example utc_shape_nanos : utc_shape (bytes "2030-01-01T00:00:00.123456789+00:00") = true.
Proof. reflexivity. Qed.
Example utc_shape_offset : utc_shape (bytes "2030-01-01T00:00:00+01:00") = false.
Proof. reflexivity. Qed.
Example utc_shape_dot : utc_shape (bytes "2030-01-01T00:00:00.Z") = false.
Proof. reflexivity. Qed.

(** ** The clock

    [skew] is shared by every clone, so one record stands for all of them. *)
Record Clock := mkClock {
  wall : Timestamp;
  clock_system : bool;
  skew : Z;
}.

Definition clock_default (now : Timestamp) : Clock := mkClock now true 0.
Definition clock_at (now : Timestamp) : Clock := mkClock now false 0.

(** [Clock::observe] *)
Definition observe (elapsed : Z) (system : option Timestamp) (c : Clock) : Timestamp * Clock :=
  let monotonic := after c.(wall) elapsed in
  let skew' := match system with
               | Some system => Z.max c.(skew) (system - monotonic)
               | None => c.(skew)
               end in
  (monotonic + skew', mkClock c.(wall) c.(clock_system) skew').

(** [Clock::now] *)
Definition clock_now (elapsed utc : Z) (c : Clock) : Timestamp * Clock :=
  observe elapsed (if c.(clock_system) then Some utc else None) c.

(** [Clock::until]: [env k] is the extra time the [k]th sleep took beyond what
    was asked and the wall clock read after it.  The result is what [now()]
    showed when the loop returned, and how many times it slept. *)
Fixpoint clock_until (fuel : nat) (env : nat → Z * Z) (k : nat) (elapsed utc : Z)
    (deadline : Timestamp) (c : Clock) : option (Timestamp * nat * Clock) :=
  match fuel with
  | O => None
  | S fuel =>
      let '(now, c) := clock_now elapsed utc c in
      let remaining := Z.max 0 (deadline - now) in
      if remaining =? 0 then Some (now, k, c)
      else let nap := Z.min remaining (seconds 1) in
           clock_until fuel env (S k) (elapsed + nap + (env k).1) (env k).2 deadline c
  end.

(** A run of readings: [(elapsed, utc)] pairs in the order [now()] was called. *)
Fixpoint readings (l : list (Z * Z)) (c : Clock) : list Timestamp * Clock :=
  match l with
  | [] => ([], c)
  | (e, u) :: l => let '(t, c) := clock_now e u c in
                   let '(ts, c) := readings l c in (t :: ts, c)
  end.

(** ** What the clock promises *)

Arguments observe : simpl never.
Arguments clock_now : simpl never.

Lemma observe_skew_mono e u c : skew c <= skew (observe e u c).2.
Proof. unfold observe. destruct u; cbn; lia. Qed.

Lemma observe_shown e u c : (observe e u c).1 = wall c + e + skew (observe e u c).2.
Proof. reflexivity. Qed.

Lemma clock_now_wall e u c : wall (clock_now e u c).2 = wall c.
Proof. reflexivity. Qed.

Lemma clock_now_advances e u e' u' c :
  (clock_now e' u' (clock_now e u c).2).1 - (clock_now e u c).1 >= e' - e.
Proof.
  unfold clock_now. rewrite !observe_shown.
  pose proof (observe_skew_mono e' (if clock_system (observe e (if clock_system c then Some u
    else None) c).2 then Some u' else None) (observe e (if clock_system c then Some u else None) c).2).
  simpl in *. lia.
Qed.

Lemma readings_floor l : ∀ c e0 t0,
  t0 <= wall c + e0 + skew c →
  Forall (λ r : Z * Z, e0 <= r.1) l →
  StronglySorted (λ a b : Z * Z, a.1 <= b.1) l →
  ∀ i r t, l !! i = Some r → (readings l c).1 !! i = Some t →
  t0 + (r.1 - e0) <= t.
Proof.
  induction l as [|[e u] l IH]; intros c e0 t0 Ht He Hs i r t Hi Hr; [done|].
  cbn [readings] in Hr. destruct (clock_now e u c) as [t1 c1] eqn:Hn.
  destruct (readings l c1) as [ts c2] eqn:Hrs.
  apply Sorted.StronglySorted_inv in Hs as [Hs Hle].
  apply Forall_cons in He as [He0 He]. simpl in He0.
  assert (t1 = wall c + e + skew c1 ∧ wall c1 = wall c ∧ skew c <= skew c1) as (Ht1&Hw&Hk).
  { unfold clock_now in Hn. pose proof (observe_skew_mono e
      (if clock_system c then Some u else None) c) as Hm. rewrite Hn in Hm.
    unfold observe, after in Hn. injection Hn as <- <-. simpl in *. unfold after in *. lia. }
  destruct i as [|i]; simpl in *.
  - injection Hi as <-. injection Hr as <-. simpl. lia.
  - assert (t1 + (r.1 - e) <= t); [|lia].
    eapply (IH c1 e t1); rewrite ?Hrs; eauto. lia.
Qed.

Definition elapsed_le (a b : Z * Z) : Prop := a.1 <= b.1.

(** [now()] never goes back and never runs slower than the monotonic
    clock: between any two readings it advances at least as far as
    [Instant::elapsed] did, whatever the wall clock showed in between. *)
Theorem readings_advance (l : list (Z * Z)) (c : Clock) i j ri rj ti tj :
  StronglySorted elapsed_le l →
  (i < j)%nat → l !! i = Some ri → l !! j = Some rj →
  (readings l c).1 !! i = Some ti → (readings l c).1 !! j = Some tj →
  ti <= tj ∧ rj.1 - ri.1 <= tj - ti.
Proof.
  revert c i j. induction l as [|[e u] l IH]; intros c i j Hs Hij Hi Hj Hti Htj; [done|].
  cbn [readings] in Hti, Htj. destruct (clock_now e u c) as [t1 c1] eqn:Hn.
  destruct (readings l c1) as [ts c2] eqn:Hrs.
  apply StronglySorted_inv in Hs as [Hs Hle].
  destruct j as [|j]; [lia|]. destruct i as [|i]; simpl in *.
  - injection Hi as <-. injection Hti as <-.
    assert (t1 + (rj.1 - e) <= tj).
    { eapply (readings_floor l c1 e t1); rewrite ?Hrs; eauto.
      unfold clock_now, observe, after in Hn. injection Hn as <- <-. simpl. lia. }
    rewrite Forall_lookup in Hle. specialize (Hle j rj Hj). unfold elapsed_le in Hle.
    simpl in *. lia.
  - eapply (IH c1 i j); rewrite ?Hrs; eauto. lia.
Qed.

Lemma readings_advance_witness :
  let l := [(0, 100); (seconds 10, 50)] in
  (StronglySorted elapsed_le l ∧
   (readings l (clock_default 60)).1 = [100; 100 + seconds 10]) ∧
  100 <= 100 + seconds 10 ∧ seconds 10 - 0 <= 100 + seconds 10 - 100.
Proof.
  split; [split; [|reflexivity]|].
  - repeat constructor; vm_compute; discriminate.
  - apply (readings_advance [(0, 100); (seconds 10, 50)] (clock_default 60) 0 1
      (0, 100) (seconds 10, 50)); try reflexivity; [|lia].
    repeat constructor; vm_compute; discriminate.
Defined.

(** Every sleep brings the deadline closer by what it slept, so the loop of
    [until] is over once the naps of one second cover the time left. *)
Lemma clock_until_progress fuel : ∀ env k e u deadline c,
  (∀ k, 0 <= (env k).1) →
  deadline - (clock_now e u c).1 <= seconds (Z.of_nat fuel - 1) →
  (1 <= fuel)%nat →
  ∃ now n c', clock_until fuel env k e u deadline c = Some (now, n, c')
    ∧ deadline <= now ∧ (n < k + fuel)%nat.
Proof.
  induction fuel as [|fuel IH]; intros env k e u deadline c Henv Hleft Hf; [lia|].
  cbn [clock_until]. destruct (clock_now e u c) as [now c1] eqn:Hn. cbn [fst] in Hleft.
  case_match eqn:Hz; [apply Z.eqb_eq in Hz; eexists _, _, _; split; [done|lia]|].
  apply Z.eqb_neq in Hz. unfold seconds in *.
  pose proof (clock_now_advances e u (e + Z.min (Z.max 0 (deadline - now)) (1 * 1000000000)
    + (env k).1) (env k).2 c) as Hadv.
  rewrite Hn in Hadv. cbn [fst snd] in Hadv. pose proof (Henv k).
  destruct (IH env (S k) (e + Z.min (Z.max 0 (deadline - now)) (1 * 1000000000) + (env k).1)
    (env k).2 deadline c1) as (now' & n & c' & -> & ? & ?);
    [done|unfold seconds; lia|lia|].
  eexists _, _, _. split; [done|lia].
Qed.

(** [Clock::until] returns, with the deadline reached: it needs at most one
    sleep per second (rounded up) that was left when it was called, however
    long each sleep overshoots and whatever the wall clock does. *)
Theorem clock_until_returns env e u deadline c :
  (∀ k, 0 <= (env k).1) →
  let left := Z.max 0 (deadline - (clock_now e u c).1) in
  ∃ now n c',
    clock_until (S (Z.to_nat (div_ceil left (seconds 1)))) env 0 e u deadline c
      = Some (now, n, c')
    ∧ deadline <= now ∧ (n <= Z.to_nat (div_ceil left (seconds 1)))%nat.
Proof.
  intros Henv left.
  destruct (clock_until_progress (S (Z.to_nat (div_ceil left (seconds 1)))) env 0 e u
    deadline c Henv) as (now & n & c' & -> & ? & ?); [|lia|eexists _, _, _; split; [done|lia]].
  unfold div_ceil, seconds, left in *.
  pose proof (Z.div_mod (Z.max 0 (deadline - (clock_now e u c).1) + 1 * 1000000000 - 1)
    (1 * 1000000000)).
  pose proof (Z.mod_pos_bound (Z.max 0 (deadline - (clock_now e u c).1) + 1 * 1000000000 - 1)
    (1 * 1000000000)). lia.
Qed.

Lemma clock_until_returns_witness :
  let env := λ k : nat, (5, 0) in
  (∀ k, 0 <= (env k).1) ∧
  ∃ now n c', clock_until 3 env 0 0 0 (seconds 2) (clock_at 0) = Some (now, n, c')
    ∧ seconds 2 <= now ∧ (n <= 2)%nat.
Proof.
  split; [intros k; simpl; lia|].
  apply (clock_until_returns (λ k : nat, (5, 0)) 0 0 (seconds 2) (clock_at 0)).
  intros k; simpl; lia.
Defined.
