(* ===== verification/Files.v ===== *)
(** * [std::fs] as the desktop uses it, and its atomic writes

    Every operation may fail.  [fs_file] is what the next read of a path would find;
    a path is a directory and a name in it. *)
From stdpp Require Import base gmap strings list pretty countable.
From Stdlib Require Import ZArith Lia Ascii.
From S2P Require Import Prelude Rust Externals Clock.
Local Open Scope Z_scope.

(** [std::io::Error]: whether its kind is [NotFound], [raw_os_error()], its text. *)
Record IoError := mkIoError { io_not_found : bool; io_raw_os : option Z; io_text : string }.
Abbreviation Path := (string * string)%type (only parsing).

Class Fs (D : Type) := {
  fs_file : D → Path → option string;
  fs_read : Path → M D IoError string;
  (* [DirBuilder::create] or [create_dir_all] *)
  fs_create_dir : string → M D IoError unit;
  (* [OpenOptions] with write, create and truncate; [write_all] and [sync_all] of the file *)
  fs_open : Path → M D IoError unit;
  fs_write_all : Path → string → M D IoError unit;
  fs_sync_all : Path → M D IoError unit;
  fs_rename : Path → Path → M D IoError unit;
  fs_sync_dir : string → M D IoError unit;
  fs_copy : Path → Path → M D IoError unit;
  (* [SystemTime::now()] since the epoch, in seconds *)
  fs_seconds : M D IoError Z;
}.

Definition fs_only `{Fs D} (p : Path) (d d' : D) : Prop := ∀ q, q ≠ p → fs_file d' q = fs_file d q.
Definition fs_same `{Fs D} (d d' : D) : Prop := ∀ q, fs_file d' q = fs_file d q.

(** What POSIX and Windows promise: an operation changes no file but the one it names,
    and a rename replaces its target in one step or not at all. *)
Class FsLaws {D} (F : Fs D) : Prop := {
  fs_read_law p : ∀ d, wp (fs_read p) (λ r d', fs_same d d' ∧ match r with
    | Ok b => fs_file d p = Some b
    | Err e => io_not_found e = true → fs_file d p = None
    | Panic => False
    end) d;
  fs_create_dir_law p : ∀ d, wp (fs_create_dir p) (λ r d', fs_same d d' ∧ r ≠ Panic) d;
  fs_open_law p : ∀ d, wp (fs_open p) (λ r d', fs_only p d d' ∧ match r with
    | Ok _ => fs_file d' p = Some ""
    | Err _ => True
    | Panic => False
    end) d;
  fs_write_law p b : ∀ d, wp (fs_write_all p b) (λ r d', fs_only p d d' ∧ match r with
    | Ok _ => ∀ b0, fs_file d p = Some b0 → fs_file d' p = Some (b0 +:+ b)
    | Err _ => True
    | Panic => False
    end) d;
  fs_sync_law p : ∀ d, wp (fs_sync_all p) (λ r d', fs_same d d' ∧ r ≠ Panic) d;
  fs_rename_law p q : ∀ d, p ≠ q → wp (fs_rename p q) (λ r d', match r with
    | Ok _ => fs_file d' q = fs_file d p ∧ ∀ x, x ≠ p → x ≠ q → fs_file d' x = fs_file d x
    | Err _ => fs_same d d'
    | Panic => False
    end) d;
  fs_sync_dir_law p : ∀ d, wp (fs_sync_dir p) (λ r d', fs_same d d' ∧ r ≠ Panic) d;
  fs_copy_law p q : ∀ d, wp (fs_copy p q) (λ r d', fs_only q d d' ∧ r ≠ Panic) d;
  fs_seconds_law : ∀ d, wp fs_seconds (λ r d', fs_same d d' ∧ r ≠ Panic) d;
}.

Section Files.
(** [windows] is [cfg!(windows)]. *)
Context `{Fs D} (windows : bool).
Abbreviation fs_m E A := (M D E A).

(** ** [ssh_service.rs]: failures that pass *)

Definition windows_scanner_held (error : IoError) : bool :=
  windows && bool_decide (error.(io_raw_os) ∈ [Some 5; Some 32]).
Fixpoint retries {A} (n : nat) (transient : IoError → bool) (op : fs_m IoError A) : fs_m IoError A :=
  match n with
  | O => op
  | S n =>
      let! r := attempt (E' := IoError) op in
      match r with
      | inl error => if transient error then retries n transient op else throw error
      | inr a => ret a
      end
  end.
Definition retry_transient {A} := @retries A 5.

(** ** [companion_store.rs]: versioned files, written atomically *)

Definition VERSION : Z := 1.

Definition corrupt (path : Path) : fs_m string string :=
  let! stamp := attempt (E' := IoError) fs_seconds in
  let stamp := match stamp with inr n => n | inl _ => 0 end in
  let! _ := attempt (E' := IoError) (fs_copy path (path.1, path.2 +:+ ".corrupt-" +:+ pretty stamp)) in
  ret "companion-store-corrupt".

Definition read_versioned {T} (from_slice : string → option T) (version : T → Z) (path : Path)
    : fs_m string (option T) :=
  let! r := attempt (E' := IoError) (fs_read path) in
  match r with
  | inl e => if e.(io_not_found) then ret None
             else throw ("companion-store-unreadable: " +:+ e.(io_text))
  | inr bytes =>
      match from_slice bytes with
      | Some value => if version value =? VERSION then ret (Some value)
                      else let! code := corrupt path in throw code
      | None => let! code := corrupt path in throw code
      end
  end.

Definition newline : string := of_bytes [10].
Definition failed (e : IoError) : string := "companion-store-write-failed: " +:+ e.(io_text).
Definition write_json {T} (to_vec_pretty : T → string + string) (path : Path) (value : T) : fs_m string unit :=
  map_err failed (fs_create_dir path.1);;
  let! bytes := (match to_vec_pretty value with inl e => throw e | inr b => ret b end) in
  let bytes := bytes +:+ newline in
  let tmp := (path.1, path.2 +:+ ".tmp") in
  map_err failed (fs_open tmp);;
  map_err failed (fs_write_all tmp bytes);;
  map_err failed (fs_sync_all tmp);;
  map_err failed (retry_transient windows_scanner_held (fs_rename tmp path));;
  when (negb windows) (map_err failed (fs_sync_dir path.1)).

(** ** What they do to the files *)
Context `{!FsLaws H}.

#[local] Instance fs_same_refl : Reflexive fs_same.
Proof. done. Qed.
#[local] Instance fs_same_trans : Transitive fs_same.
Proof. intros d d' d'' H1 H2 q. by rewrite H2. Qed.
#[local] Instance fs_only_refl p : Reflexive (fs_only p).
Proof. done. Qed.
#[local] Instance fs_only_trans p : Transitive (fs_only p).
Proof. intros d d' d'' H1 H2 q Hq. by rewrite H2, H1. Qed.
Lemma same_only p d d' : fs_same d d' → fs_only p d d'.
Proof. intros Hs q _. apply Hs. Qed.

Lemma append_right_ne (a b : string) : b ≠ "" → a +:+ b ≠ a.
Proof.
  intros Hb. induction a as [|c a IH]; [done|].
  change (String c a +:+ b) with (String c (a +:+ b)). intros Heq. by injection Heq.
Qed.

Lemma retries_spec {A} n transient (op : fs_m IoError A) (I : D → Prop) (Q : A → D → Prop) :
  (∀ d, I d → wp op (λ r d', match r with Ok a => Q a d' | Err _ => I d' | Panic => False end) d) →
  ∀ d, I d → wp (retries n transient op) (λ r d', match r with Ok a => Q a d' | Err _ => I d' | Panic => False end) d.
Proof.
  intros Hop. induction n as [|n IH]; intros d Hd; cbn [retries]; [by apply Hop|].
  apply wp_bind, wp_attempt. eapply wp_mono; [by apply Hop|].
  intros [a|e|] d' Hr; [by apply wp_ret| |done]. destruct (transient e); [by apply IH|by apply wp_throw].
Qed.

Definition tmp_of (path : Path) : Path := (path.1, path.2 +:+ ".tmp").
Lemma tmp_ne path : tmp_of path ≠ path.
Proof. destruct path as [dir name]. intros [=Hn]. by apply append_right_ne in Hn. Qed.

(** A file that was read is as it was; one that is [corrupt] is kept, and copied. *)
Lemma corrupt_spec path d :
  wp (corrupt path) (λ r d', r = Ok "companion-store-corrupt" ∧ fs_file d' path = fs_file d path) d.
Proof.
  unfold corrupt. apply wp_bind, wp_attempt.
  eapply wp_mono; [apply fs_seconds_law|]. intros r d1 [Hs Hr].
  assert (∀ z : IoError + Z, wp (let stamp := match z with inr n => n | inl _ => 0 end in
    let! _ := attempt (E' := IoError) (fs_copy path (path.1, path.2 +:+ ".corrupt-" +:+ pretty stamp)) in
    ret "companion-store-corrupt" : fs_m string string)
    (λ r d', r = Ok "companion-store-corrupt" ∧ fs_file d' path = fs_file d path) d1) as Hk.
  { intros z. apply wp_bind, wp_attempt. eapply wp_mono; [apply fs_copy_law|]. intros r' d2 [Ho Hr'].
    assert (fs_file d2 path = fs_file d path) as Heq.
    { rewrite Ho, Hs; [done|]. destruct path as [dir name]. intros [=Hn]. symmetry in Hn. by apply append_right_ne in Hn. }
    destruct r'; [..|done]; by apply wp_ret. }
  destruct r as [n|e|]; [apply (Hk (inr n))|apply (Hk (inl e))|done].
Qed.

Lemma read_versioned_spec {T} (from_slice : string → option T) version path d :
  wp (read_versioned from_slice version path) (λ r d', fs_file d' path = fs_file d path ∧
    match r with
    | Ok (Some v) => version v = VERSION ∧ ∃ b, fs_file d path = Some b ∧ from_slice b = Some v
    | Ok None => fs_file d path = None
    | Err code => (∃ text, code = "companion-store-unreadable: " +:+ text)
        ∨ code = "companion-store-corrupt"
          ∧ ∃ b, fs_file d path = Some b ∧ ∀ v, from_slice b = Some v → version v ≠ VERSION
    | Panic => False
    end) d.
Proof.
  unfold read_versioned. apply wp_bind, wp_attempt. eapply wp_mono; [apply fs_read_law|].
  intros [b|e|] d1 [Hs Hr]; [|destruct (io_not_found e); [by apply wp_ret; auto|apply wp_throw; split; [done|eauto]]|done].
  assert (wp (let! code := corrupt path in throw code : fs_m string (option T)) (λ r d',
    fs_file d' path = fs_file d path ∧ r = Err "companion-store-corrupt") d1) as Hc.
  { apply wp_bind. eapply wp_mono; [apply corrupt_spec|]. intros r d2 [-> Hd2]. apply wp_throw. by rewrite Hd2, Hs. }
  destruct (from_slice b) as [v|] eqn:Hv; [destruct (version v =? VERSION) eqn:Hver|].
  - apply wp_ret. split; [apply Hs|]. split; [lia|eauto].
  - eapply wp_mono; [exact Hc|]. intros r d2 [Hd2 ->]. split; [done|]. right. split; [done|]. exists b. split; [done|].
    intros v' Hv'. rewrite Hv in Hv'. injection Hv' as <-. lia.
  - eapply wp_mono; [exact Hc|]. intros r d2 [Hd2 ->]. split; [done|]. right. split; [done|]. exists b.
    split; [done|]. by rewrite Hv.
Qed.

(** The file is the new one or, on an error only, still the old one; no other file but
    the temporary one is touched. *)
Definition written {T} (to_vec_pretty : T → string + string) (value : T) (o : option string) : Prop :=
  ∃ b, to_vec_pretty value = inr b ∧ o = Some (b +:+ newline).
Lemma write_json_spec {T} (to_vec_pretty : T → string + string) path value d :
  wp (write_json to_vec_pretty path value) (λ r d',
    (∀ q, q ≠ path → q ≠ tmp_of path → fs_file d' q = fs_file d q) ∧
    match r with
    | Ok _ => written to_vec_pretty value (fs_file d' path)
    | Err _ => fs_file d' path = fs_file d path ∨ written to_vec_pretty value (fs_file d' path)
    | Panic => False
    end) d.
Proof.
  set (Q := λ (r : outcome string unit) d', _).
  (* before the rename *)
  assert (∀ e d', fs_only (tmp_of path) d d' → Q (Err e) d') as Hold.
  { intros e d' Ho. split; [intros q _ Hq; by apply Ho|]. left. apply Ho. by apply not_eq_sym, tmp_ne. }
  unfold write_json. apply wp_bind, wp_map_err. eapply wp_mono; [apply fs_create_dir_law|].
  intros r d1 [Hs1 Hr]. apply (same_only (tmp_of path)) in Hs1. destruct r as [|e|]; [|by apply Hold|done]. clear Hr.
  apply wp_bind. destruct (to_vec_pretty value) as [e|b] eqn:Hb; [by apply wp_throw, Hold|apply wp_ret].
  apply wp_bind, wp_map_err. eapply wp_mono; [apply fs_open_law|]. fold (tmp_of path).
  intros r d2 [Hs2 Hr]. assert (fs_only (tmp_of path) d d2) as Ho2 by by etrans.
  destruct r as [|e|]; [|by apply Hold|done].
  apply wp_bind, wp_map_err. eapply wp_mono; [apply fs_write_law|].
  intros r d3 [Hs3 Hr3]. assert (fs_only (tmp_of path) d d3) as Ho3 by by etrans.
  destruct r as [|e|]; [|by apply Hold|done]. specialize (Hr3 _ Hr).
  apply wp_bind, wp_map_err. eapply wp_mono; [apply fs_sync_law|]. intros r d4 [Hs4 Hr4].
  assert (fs_only (tmp_of path) d d4) as Ho4 by (etrans; [exact Ho3|by apply same_only]).
  destruct r as [|e|]; [|by apply Hold|done]. rewrite <- (Hs4 (tmp_of path)) in Hr3. clear Hr4.
  apply wp_bind, wp_map_err.
  eapply wp_mono; [eapply (retries_spec _ _ _ (fs_same d4) (λ _ d', fs_file d' path = Some (b +:+ newline)
    ∧ ∀ q, q ≠ tmp_of path → q ≠ path → fs_file d' q = fs_file d4 q))|].
  - intros d5 Hd5. eapply wp_mono; [apply fs_rename_law, tmp_ne|]. intros [|e|] d6; [|intros Hs; by etrans|done].
    intros [Hp Hq]. split; [by rewrite Hp, Hd5|]. intros q H1 H2. by rewrite Hq, Hd5.
  - done.
  - intros [|e|] d5 Hr5; [|apply Hold; etrans; [exact Ho4|by apply same_only]|done]. destruct Hr5 as [Hp Hq].
    assert (∀ d', fs_same d5 d' → (∀ q, q ≠ path → q ≠ tmp_of path → fs_file d' q = fs_file d q)
      ∧ written to_vec_pretty value (fs_file d' path)) as Hdone.
    { intros d' Hd'. split; [intros q H1 H2; rewrite Hd', Hq, Ho4; done|]. exists b. by rewrite Hd'. }
    apply wp_when. destruct windows; [by apply Hdone|]. apply wp_map_err.
    eapply wp_mono; [apply fs_sync_dir_law|]. intros r d6 [Hs6 Hr6]. destruct (Hdone _ Hs6) as [H1 H2].
    destruct r; [by split|split; [done|by right]|done].
Qed.
End Files.

(** * A file system, a text format and a calendar to compute with

    An instance of [Fs] whose operations fail as a script says, and an encoding of JSON
    values as text that reads back, and RFC 3339 for the first hour of 1970. *)
(** ** Files *)

(** [sf_faults]: whether each operation to come fails. *)
Record SimFs := mkSimFs { sf_files : gmap (string * string) string; sf_faults : list bool }.
Definition sim_error : IoError := mkIoError false None "no space left on device".
Definition sim_op {A} (op : SimFs → outcome IoError A * SimFs) : M SimFs IoError A := λ d,
  let d' := mkSimFs (sf_files d) (tail (sf_faults d)) in
  match head (sf_faults d) with Some true => (Err sim_error, d') | _ => op d' end.
Definition sim_put (p : string * string) (b : string) (d : SimFs) : SimFs :=
  mkSimFs (<[p := b]> (sf_files d)) (sf_faults d).
#[export] Instance sim_fs : Fs SimFs := {|
  fs_file := λ d p, sf_files d !! p;
  fs_read := λ p, sim_op (λ d, match sf_files d !! p with
    | Some b => (Ok b, d)
    | None => (Err (mkIoError true (Some 2) "not found"), d)
    end);
  fs_create_dir := λ _, sim_op (λ d, (Ok tt, d));
  fs_open := λ p, sim_op (λ d, (Ok tt, sim_put p EmptyString d));
  fs_write_all := λ p b, sim_op (λ d, (Ok tt, sim_put p (default EmptyString (sf_files d !! p) +:+ b) d));
  fs_sync_all := λ _, sim_op (λ d, (Ok tt, d));
  fs_rename := λ p q, sim_op (λ d, match sf_files d !! p with
    | Some b => (Ok tt, mkSimFs (<[q := b]> (delete p (sf_files d))) (sf_faults d))
    | None => (Err (mkIoError true (Some 2) "not found"), d)
    end);
  fs_sync_dir := λ _, sim_op (λ d, (Ok tt, d));
  fs_copy := λ p q, sim_op (λ d, match sf_files d !! p with
    | Some b => (Ok tt, sim_put q b d)
    | None => (Err (mkIoError true (Some 2) "not found"), d)
    end);
  fs_seconds := sim_op (λ d, (Ok 1750000000, d));
|}.

Lemma sim_op_spec {A} (op : SimFs → outcome IoError A * SimFs) (Q : outcome IoError A → SimFs → Prop) d :
  (∀ faults, Q (Err sim_error) (mkSimFs (sf_files d) faults)) →
  (∀ faults, wp op Q (mkSimFs (sf_files d) faults)) → wp (sim_op op) Q d.
Proof. intros Herr Hop. unfold wp, sim_op. destruct (head (sf_faults d)) as [[]|]; [apply Herr|apply Hop..]. Qed.
#[export] Instance sim_fs_laws : FsLaws sim_fs.
Proof.
  constructor; cbn [fs_read fs_create_dir fs_open fs_write_all fs_sync_all fs_rename fs_sync_dir fs_copy fs_seconds sim_fs];
    unfold fs_same, fs_only; intros; apply sim_op_spec; intros faults; try done; unfold wp; cbn.
  - by destruct (sf_files d !! p).
  - split; [|by rewrite lookup_insert_eq]. intros q Hq. by rewrite lookup_insert_ne.
  - split; [intros q Hq; by rewrite lookup_insert_ne|]. intros b0 Hb. by rewrite lookup_insert_eq, Hb.
  - destruct (sf_files d !! p) as [c|] eqn:Hp; [|done]. cbn. split; [by rewrite lookup_insert_eq|].
    intros x H1 H2. by rewrite lookup_insert_ne, lookup_delete_ne by done.
  - destruct (sf_files d !! p); [|done]. cbn. split; [|done]. intros x Hx. by rewrite lookup_insert_ne.
Qed.

(** ** Values as trees, trees as numbers, numbers as text *)

Fixpoint value_tree (v : Value) : gen_tree (Z + string) :=
  match v with
  | VNull => GenNode 0 []
  | VBool b => GenNode (if b then 2 else 1) []
  | VNumber n => GenLeaf (inl n)
  | VString s => GenLeaf (inr s)
  | VArray l => GenNode 3 (value_tree <$> l)
  | VObject l => GenNode 4 ((λ e, GenNode 5 [GenLeaf (inr e.1); value_tree e.2]) <$> l)
  end.
Fixpoint tree_value (t : gen_tree (Z + string)) : Value :=
  match t with
  | GenLeaf (inl n) => VNumber n
  | GenLeaf (inr s) => VString s
  | GenNode 0 _ => VNull
  | GenNode 1 _ => VBool false
  | GenNode 2 _ => VBool true
  | GenNode 3 l => VArray ((fix go l := match l with [] => [] | t :: l => tree_value t :: go l end) l)
  | GenNode _ l => VObject ((fix go l := match l with
      | [] => []
      | GenNode _ [GenLeaf (inr k); t] :: l => (k, tree_value t) :: go l
      | _ :: l => go l
      end) l)
  end.
Section ValueInd.
Context (P : Value → Prop) (Hnull : P VNull) (Hbool : ∀ b, P (VBool b)) (Hnumber : ∀ n, P (VNumber n))
  (Hstring : ∀ s, P (VString s)) (Harray : ∀ l, Forall P l → P (VArray l))
  (Hobject : ∀ l, Forall (λ e, P e.2) l → P (VObject l)).
Fixpoint value_ind_nested (v : Value) : P v :=
  match v with
  | VNull => Hnull
  | VBool b => Hbool b
  | VNumber n => Hnumber n
  | VString s => Hstring s
  | VArray l => Harray l ((fix go l : Forall P l :=
      match l with [] => Forall_nil_2 P | v :: l => Forall_cons_2 P v l (value_ind_nested v) (go l) end) l)
  | VObject l => Hobject l ((fix go l : Forall (λ e, P e.2) l :=
      match l with [] => Forall_nil_2 _ | e :: l => Forall_cons_2 _ e l (value_ind_nested e.2) (go l) end) l)
  end.
End ValueInd.
Lemma tree_value_tree v : tree_value (value_tree v) = v.
Proof.
  induction v as [| [] | | |l Hl|l Hl] using value_ind_nested; try done; cbn.
  - f_equal. induction Hl as [|v l Hv _ IH]; [done|]. by rewrite fmap_cons, Hv, IH.
  - f_equal. induction Hl as [|[k v] l Hv _ IH]; [done|]. rewrite fmap_cons. cbn in *. by rewrite Hv, IH.
Qed.
#[export] Instance value_eq_dec : EqDecision Value.
Proof. refine (inj_eq_dec value_tree). intros v w Hvw. by rewrite <- (tree_value_tree v), Hvw, tree_value_tree. Defined.
#[export] Instance value_countable : Countable Value.
Proof. refine (inj_countable' value_tree tree_value tree_value_tree). Defined.

Fixpoint digits_of (p : positive) : string :=
  match p with
  | xH => ""
  | xO p => String "0"%char (digits_of p)
  | xI p => String "1"%char (digits_of p)
  end.
Fixpoint of_digits (s : string) : positive :=
  match s with
  | String "0"%char s => xO (of_digits s)
  | String "1"%char s => xI (of_digits s)
  | _ => xH
  end.
Lemma of_digits_of p s : of_digits (digits_of p +:+ newline +:+ s) = p.
Proof.
  induction p as [p IH|p IH|]; [ | |reflexivity].
  - change (xI (of_digits (digits_of p +:+ newline +:+ s)) = xI p). by rewrite IH.
  - change (xO (of_digits (digits_of p +:+ newline +:+ s)) = xO p). by rewrite IH.
Qed.
Definition sim_text `{Countable A} (a : A) : string := digits_of (encode a).
Definition sim_parse `{Countable A} (s : string) : option A := decode (of_digits s).
Lemma sim_parse_text `{Countable A} (a : A) : sim_parse (sim_text a +:+ newline) = Some a.
Proof.
  unfold sim_parse, sim_text. assert (newline = newline +:+ "") as -> by reflexivity. rewrite of_digits_of. apply decode_encode.
Qed.

(** ** The first hour of 1970 *)
Definition two_digits (n : Z) : string := of_bytes [48 + n / 10; 48 + n mod 10].
Definition sim_rfc3339 (t : Timestamp) : string :=
  let n := t / 1000000000 in
  "1970-01-01T00:" +:+ two_digits (n / 60) +:+ ":" +:+ two_digits (n mod 60) +:+ "Z".
Definition sim_parse_rfc3339 (s : string) : option (Z * Z * Timestamp) :=
  match bytes <$> strip_prefix "1970-01-01T00:" s with
  | Some [a; b; _; c; d; _] => Some (0, 0, seconds (((a - 48) * 10 + (b - 48)) * 60 + (c - 48) * 10 + (d - 48)))
  | _ => None
  end.
Lemma sim_utc_offset s o n t : utc_shape (bytes s) = true → sim_parse_rfc3339 s = Some (o, n, t) → o = 0.
Proof.
  intros _. unfold sim_parse_rfc3339. destruct (bytes <$> _) as [[|a [|b [|c [|d [|e [|f [|]]]]]]]|]; try done. by intros [= <-].
Qed.
