(* ===== verification/Devices.v ===== *)
(** * [secrets.rs] and [devices.rs]: encodings, labels, credentials, devices

    Fixed-width secrets are compared by digest; device and credential records
    are checked when they are read and whenever they change. *)

From stdpp Require Import base gmap strings list.
From Stdlib Require Import ZArith Lia.
From S2P Require Import Prelude Rust Externals Clock.

Local Open Scope Z_scope.

(** ** Secrets *)
Section Secrets.
Context `{Base64, Crypto}.

Definition encode (value : string) : string := b64url_encode value.
Definition hash (value : string) : string := sha256 value.
(** [secrets::matches] *)
Definition matches (expected supplied : string) : bool := ct_eq expected (hash supplied).

(** [devices::decode::<N>] *)
Definition decode (n : Z) (value : string) : option string :=
  if negb (len value =? div_ceil (n * 8) 6) then None
  else match b64url_decode value with
       | Some b => if len b =? n then Some b else None
       | None => None
       end.

Lemma matches_iff `{!CryptoLaws H0} expected supplied :
  matches expected supplied = true ↔ expected = hash supplied.
Proof. apply ct_eq_spec. Qed.

Lemma decode_encode `{!Base64Laws H} n b : len b = n → decode n (encode b) = Some b.
Proof.
  intros Hn. unfold decode, encode.
  rewrite b64url_encode_len, Hn, Z.eqb_refl, b64url_decode_encode, Hn, Z.eqb_refl. done.
Qed.

Lemma decode_len n v b : decode n v = Some b → len b = n.
Proof. unfold decode. repeat case_match; intros; simplify_eq. by apply Z.eqb_eq. Qed.

Lemma decode_inj `{!Base64Laws H} n v v' b :
  decode n v = Some b → decode n v' = Some b → v = v'.
Proof.
  unfold decode. repeat case_match; intros; simplify_eq.
  repeat match goal with H : b64url_decode _ = Some _ |- _ =>
    apply b64url_encode_decode in H end. congruence.
Qed.
End Secrets.

(** ** Labels and host names *)

(** Unicode Cf ranges and the line and paragraph separators. *)
Definition label_format (c : Z) : bool :=
  (c =? 0x00ad) || in_range 0x0600 c 0x0605 || (c =? 0x061c) || (c =? 0x06dd)
  || (c =? 0x070f) || in_range 0x0890 c 0x0891 || (c =? 0x08e2) || (c =? 0x180e)
  || in_range 0x200b c 0x200f || in_range 0x2028 c 0x202e || in_range 0x2060 c 0x2064
  || in_range 0x2066 c 0x206f || (c =? 0xfeff) || in_range 0xfff9 c 0xfffb
  || (c =? 0x110bd) || (c =? 0x110cd) || in_range 0x13430 c 0x1343f
  || in_range 0x1bca0 c 0x1bca3 || in_range 0x1d173 c 0x1d17a
  || (c =? 0xe0001) || in_range 0xe0020 c 0xe007f.

Definition valid_label (value : string) : bool :=
  negb (bool_decide (value = EmptyString))
  && (len value <=? 80)
  && bool_decide (trim_chars (chars value) = chars value)
  && forallb (λ c, negb (is_control c) && negb (label_format c)) (chars value).

Definition rp_part (part : string) : bool :=
  negb (bool_decide (part = EmptyString))
  && (len part <=? 63)
  && negb (bool_decide (head (bytes part) = Some 45))
  && negb (bool_decide (last (bytes part) = Some 45))
  && forallb (λ b, is_ascii_lowercase b || is_ascii_digit b || (b =? 45)) (bytes part).
Definition valid_rp_id (value : string) : bool :=
  negb (bool_decide (value = EmptyString))
  && (len value <=? 253)
  && negb (parse_ip_addr value)
  && forallb rp_part (split_on (char_of 46) value).

Example valid_label_plain : valid_label "Ann's phone" = true.
Proof. reflexivity. Qed.
Example valid_label_padded : valid_label " phone" = false.
Proof. reflexivity. Qed.
Example valid_label_bidi : valid_label "x‮y" = false.
Proof. reflexivity. Qed.
Example valid_rp_id_host : valid_rp_id "desktop.tailnet.ts.net" = true.
Proof. reflexivity. Qed.
Example valid_rp_id_ip : valid_rp_id "127.0.0.1" = false.
Proof. reflexivity. Qed.
Example valid_rp_id_dash : valid_rp_id "a.-b" = false.
Proof. reflexivity. Qed.

(** ** Grants and credentials *)

Record ControlGrant := mkControlGrant { cg_until : Timestamp }.
Record Grants := mkGrants { g_control : option ControlGrant; g_full : bool }.

Inductive Transport := Usb | Nfc | Ble | Internal | Hybrid | SmartCard.
#[export] Instance transport_eq_dec : EqDecision Transport.
Proof. solve_decision. Defined.
#[export] Instance transport_countable : Countable Transport.
Proof.
  refine (inj_countable
    (λ t, match t with Usb => 0 | Nfc => 1 | Ble => 2 | Internal => 3
                  | Hybrid => 4 | SmartCard => 5 end)
    (λ n : Z, match n with 0 => Some Usb | 1 => Some Nfc | 2 => Some Ble | 3 => Some Internal
                  | 4 => Some Hybrid | 5 => Some SmartCard | _ => None end) _).
  by intros [].
Defined.

Record CredentialRecord := mkCredential {
  cr_id : string;
  cr_rp_id : string;
  cr_public_key_state : string;
  cr_state_format : string;
  cr_sign_count : Z;
  cr_backup_eligible : bool;
  cr_backup_state : bool;
  cr_transports : list Transport;
}.

(** Collecting into a [HashSet] keeps every item: no two are equal. *)
Definition all_distinct `{Countable A} (l : list A) : bool :=
  bool_decide (size (list_to_set l : gset A) = length l).

Lemma size_list_to_set_le `{Countable A} (l : list A) :
  (size (list_to_set l : gset A) ≤ length l)%nat.
Proof.
  unfold size, set_size; simpl. apply submseteq_length, NoDup_submseteq; [apply NoDup_elements|].
  intros x. rewrite elem_of_elements. set_solver.
Qed.

Lemma all_distinct_NoDup `{Countable A} (l : list A) : all_distinct l = true ↔ NoDup l.
Proof.
  unfold all_distinct. rewrite bool_decide_eq_true.
  split; [|intros Hl; by rewrite size_list_to_set].
  induction l as [|x l IH]; intros Hs; [constructor|]. simpl in Hs.
  pose proof (size_list_to_set_le l) as Hle. destruct (decide (x ∈ l)) as [Hx|Hx].
  - exfalso. rewrite subseteq_union_1_L in Hs; [lia|]. by apply singleton_subseteq_l, elem_of_list_to_set.
  - rewrite size_union, size_singleton in Hs by (apply disjoint_singleton_l; by rewrite elem_of_list_to_set).
    constructor; [done|]. apply IH. lia.
Qed.

(** ** Devices *)

Record Device := mkDevice {
  d_device_id : string;
  d_label : string;
  d_credentials : list CredentialRecord;
  d_grants : Grants;
  d_locked : bool;
  d_created_at : Timestamp;
  d_last_seen : Timestamp;
}.

Definition device_set_label l d := mkDevice d.(d_device_id) l d.(d_credentials)
  d.(d_grants) d.(d_locked) d.(d_created_at) d.(d_last_seen).
Definition device_set_grants g d := mkDevice d.(d_device_id) d.(d_label) d.(d_credentials)
  g d.(d_locked) d.(d_created_at) d.(d_last_seen).
Definition device_set_locked b d := mkDevice d.(d_device_id) d.(d_label) d.(d_credentials)
  d.(d_grants) b d.(d_created_at) d.(d_last_seen).
Definition device_set_last_seen t d := mkDevice d.(d_device_id) d.(d_label) d.(d_credentials)
  d.(d_grants) d.(d_locked) d.(d_created_at) t.
Definition device_set_credentials c d := mkDevice d.(d_device_id) d.(d_label) c
  d.(d_grants) d.(d_locked) d.(d_created_at) d.(d_last_seen).

Definition STATE_FORMAT : string := "webauthn_rp-0.3.0-static".
Definition MAX_KEY_STATE_BYTES : Z := 2058.

Section Devices.
Context `{Base64, Crypto, !Webauthn Transport}.

(** [webauthn::key_state] *)
Definition key_state (value : string) : option KeyState :=
  if div_ceil MAX_KEY_STATE_BYTES 3 * 4 <? len value then None
  else match b64url_decode value with
       | None => None
       | Some b =>
           if MAX_KEY_STATE_BYTES <? len b then None
           else match key_decode b with
                | None => None
                | Some state => if key_is_p384 state then None else Some state
                end
       end.

(** [CredentialRecord::valid] and its local [binary] *)
Definition binary (value : string) (max : Z) : bool :=
  negb (bool_decide (value = EmptyString))
  && (len value <=? div_ceil max 3 * 4)
  && match b64url_decode value with
     | Some v => negb (bool_decide (v = EmptyString)) && (len v <=? max)
     | None => false
     end.
Definition credential_valid (c : CredentialRecord) : bool :=
  binary c.(cr_id) 1024
  && bool_decide (c.(cr_state_format) = STATE_FORMAT)
  && bool_decide (is_Some (key_state c.(cr_public_key_state)))
  && valid_rp_id c.(cr_rp_id)
  && (negb c.(cr_backup_state) || c.(cr_backup_eligible))
  && bool_decide (length c.(cr_transports) ≤ 6)%nat
  && all_distinct c.(cr_transports).

(** [CredentialRecord::deserialize], after serde filled the fields *)
Definition credential_deserialize (fields : CredentialRecord) : option CredentialRecord :=
  if credential_valid fields then Some fields else None.

Definition credential_key (c : CredentialRecord) : string * string :=
  (c.(cr_rp_id), c.(cr_id)).

(** [Device::valid] *)
Definition device_valid (d : Device) : bool :=
  bool_decide (is_Some (decode 16 d.(d_device_id)))
  && valid_label d.(d_label)
  && negb (bool_decide (d.(d_credentials) = []))
  && bool_decide (length d.(d_credentials) ≤ 8)%nat
  && forallb credential_valid d.(d_credentials)
  && all_distinct (credential_key <$> d.(d_credentials))
  && (d.(d_created_at) <=? d.(d_last_seen)).

(** [Device::deserialize], after serde filled the fields *)
Definition device_deserialize (fields : Device) : option Device :=
  match mapM credential_deserialize fields.(d_credentials) with
  | None => None
  | Some credentials =>
      let value := device_set_credentials credentials fields in
      if device_valid value then Some value else None
  end.

Definition deserialize_devices (fields : list Device) : option (list Device) :=
  match mapM device_deserialize fields with
  | None => None
  | Some devices =>
      if bool_decide (64 < length devices)%nat
         || negb (forallb device_valid devices)
         || negb (all_distinct (d_device_id <$> devices))
         || negb (bool_decide (
              size (list_to_set (devices ≫= λ v, credential_key <$> v.(d_credentials))
                    : gset (string * string))
              = sum_list_with (λ v, length v.(d_credentials)) devices))
      then None else Some devices
  end.

(** *** What a valid record satisfies *)

Lemma credential_deserialize_id fs cs :
  mapM credential_deserialize fs = Some cs → cs = fs.
Proof.
  intros Hm. apply mapM_Some in Hm.
  induction Hm as [|f c fs cs Hf _ IH]; [done|].
  unfold credential_deserialize in Hf. case_match; simplify_eq. by f_equal.
Qed.

Lemma device_deserialize_id f d : device_deserialize f = Some d → d = f ∧ device_valid f = true.
Proof.
  unfold device_deserialize. case_match eqn:Hm; [|done].
  apply credential_deserialize_id in Hm as ->. destruct f; simpl.
  case_match; intros; simplify_eq; done.
Qed.

Lemma device_valid_spec d : device_valid d = true ↔
  is_Some (decode 16 d.(d_device_id)) ∧ valid_label d.(d_label) = true
  ∧ d.(d_credentials) ≠ [] ∧ (length d.(d_credentials) ≤ 8)%nat
  ∧ Forall (λ c, credential_valid c = true) d.(d_credentials)
  ∧ NoDup (credential_key <$> d.(d_credentials))
  ∧ d.(d_created_at) <= d.(d_last_seen).
Proof.
  unfold device_valid.
  rewrite !andb_true_iff, negb_true_iff, !bool_decide_eq_true, bool_decide_eq_false,
    forallb_Forall, all_distinct_NoDup, Z.leb_le. tauto.
Qed.

Lemma length_flat_credentials (ds : list Device) :
  length (ds ≫= λ v, credential_key <$> v.(d_credentials))
  = sum_list_with (λ v, length v.(d_credentials)) ds.
Proof.
  induction ds as [|d ds IH]; [done|]. csimpl. rewrite length_app, length_fmap. lia.
Qed.
End Devices.
