(* ===== verification/DeviceJson.v ===== *)
(** * [devices.rs], [clock.rs]: devices as JSON

    What serde derives from the field attributes: [camelCase] names,
    [deny_unknown_fields], an [Option] that may be missing or null.  The objects are
    maps; the sequences and maps that serde also takes for a struct or a unit variant
    are left out, as nothing writes them. *)

From stdpp Require Import base gmap strings list.
From Stdlib Require Import ZArith Lia.
From S2P Require Import Prelude Rust Externals Clock Devices.

Local Open Scope Z_scope.

(** ** Objects *)

Definition only (fields : list string) (v : Value) : option (list (string * Value)) :=
  o ← as_object v;
  if forallb (λ e, bool_decide (e.1 ∈ fields)) o then Some o else None.
Definition required {A} (f : Value → option A) (k : string) (o : list (string * Value)) : option A :=
  v ← assoc k o; f v.
Definition optional {A} (f : Value → option A) (k : string) (o : list (string * Value)) : option (option A) :=
  match assoc k o with
  | None | Some VNull => Some None
  | Some v => Some <$> f v
  end.

Lemma only_object fields o :
  forallb (λ e, bool_decide (e.1 ∈ fields)) o = true → only fields (VObject o) = Some o.
Proof. intros Ho. unfold only. cbn. by rewrite Ho. Qed.
Lemma assoc_here {A} k (v : A) l : assoc k ((k, v) :: l) = Some v.
Proof. cbn [assoc]. by rewrite bool_decide_true. Qed.
Lemma assoc_there {A} k k' (v : A) l : k ≠ k' → assoc k ((k', v) :: l) = assoc k l.
Proof. intros Hk. cbn [assoc]. by rewrite bool_decide_false. Qed.
(** The fields of an object whose keys are literals *)
Ltac read_object :=
  unfold required, optional, value_index, value_get;
  repeat (first [rewrite only_object by reflexivity | rewrite assoc_here | rewrite assoc_there by done];
          cbn [mbind option_bind fmap option_fmap option_map as_str as_bool as_array as_object default from_option id]).

(** A value of Rust has each key once in each of its objects. *)
Fixpoint value_wf (v : Value) : bool :=
  match v with
  | VArray l => forallb value_wf l
  | VObject l => bool_decide (NoDup l.*1) && forallb (λ e, value_wf e.2) l
  | _ => true
  end.

(** ** Enumerations and numbers *)
Definition transport_of (v : Value) : option Transport :=
  s ← as_str v;
  if bool_decide (s = "usb") then Some Usb
  else if bool_decide (s = "nfc") then Some Nfc
  else if bool_decide (s = "ble") then Some Ble
  else if bool_decide (s = "internal") then Some Internal
  else if bool_decide (s = "hybrid") then Some Hybrid
  else if bool_decide (s = "smart-card") then Some SmartCard
  else None.
Definition transport_name (t : Transport) : string :=
  match t with
  | Usb => "usb" | Nfc => "nfc" | Ble => "ble" | Internal => "internal" | Hybrid => "hybrid"
  | SmartCard => "smart-card"
  end.
Definition u32_of (v : Value) : option Z :=
  n ← as_u64 v; if n <=? u32_max then Some n else None.

Section DeviceJson.
Context (parse_from_rfc3339 : string → option (Z * Z * Timestamp)) (rfc3339 : Timestamp → string).

(** ** Deserialize *)
Definition timestamp_of (v : Value) : option Timestamp :=
  s ← as_str v; timestamp_deserialize parse_from_rfc3339 s.
Definition control_of (v : Value) : option ControlGrant :=
  o ← only ["until"] v;
  until ← required timestamp_of "until" o;
  Some (mkControlGrant until).
Definition grants_of (v : Value) : option Grants :=
  o ← only ["control"; "full"] v;
  control ← optional control_of "control" o;
  full ← required as_bool "full" o;
  Some (mkGrants control full).
Definition credential_of (v : Value) : option CredentialRecord :=
  o ← only ["id"; "rpId"; "publicKeyState"; "stateFormat"; "signCount"; "backupEligible"; "backupState";
            "transports"] v;
  i ← required as_str "id" o;
  rp_id ← required as_str "rpId" o;
  public_key_state ← required as_str "publicKeyState" o;
  state_format ← required as_str "stateFormat" o;
  sign_count ← required u32_of "signCount" o;
  backup_eligible ← required as_bool "backupEligible" o;
  backup_state ← required as_bool "backupState" o;
  transports ← required (λ v, l ← as_array v; mapM transport_of l) "transports" o;
  Some (mkCredential i rp_id public_key_state state_format sign_count backup_eligible backup_state transports).
Definition device_of (v : Value) : option Device :=
  o ← only ["deviceId"; "label"; "credentials"; "grants"; "locked"; "createdAt"; "lastSeen"] v;
  device_id ← required as_str "deviceId" o;
  label ← required as_str "label" o;
  credentials ← required (λ v, l ← as_array v; mapM credential_of l) "credentials" o;
  grants ← required grants_of "grants" o;
  locked ← required as_bool "locked" o;
  created_at ← required timestamp_of "createdAt" o;
  last_seen ← required timestamp_of "lastSeen" o;
  Some (mkDevice device_id label credentials grants locked created_at last_seen).

(** The devices of the init frame *)
Definition read_devices `{Base64, !Webauthn Transport} (vs : list Value) : option (list Device) :=
  fields ← mapM device_of vs; deserialize_devices fields.

(** ** Serialize *)
Definition timestamp_value (t : Timestamp) : Value := VString (rfc3339 t).
Definition control_value (c : ControlGrant) : Value := VObject [("until", timestamp_value c.(cg_until))].
Definition grants_value (g : Grants) : Value :=
  VObject [("control", match g.(g_control) with Some c => control_value c | None => VNull end);
           ("full", VBool g.(g_full))].
Definition credential_value (c : CredentialRecord) : Value :=
  VObject [("id", VString c.(cr_id)); ("rpId", VString c.(cr_rp_id));
           ("publicKeyState", VString c.(cr_public_key_state));
           ("stateFormat", VString c.(cr_state_format)); ("signCount", VNumber c.(cr_sign_count));
           ("backupEligible", VBool c.(cr_backup_eligible)); ("backupState", VBool c.(cr_backup_state));
           ("transports", VArray ((λ t, VString (transport_name t)) <$> c.(cr_transports)))].
Definition device_value (d : Device) : Value :=
  VObject [("deviceId", VString d.(d_device_id)); ("label", VString d.(d_label));
           ("credentials", VArray (credential_value <$> d.(d_credentials)));
           ("grants", grants_value d.(d_grants)); ("locked", VBool d.(d_locked));
           ("createdAt", timestamp_value d.(d_created_at)); ("lastSeen", timestamp_value d.(d_last_seen))].

(** ** What is written reads back *)

(** chrono reads back what it wrote for these; true of four-digit years. *)
Definition dated (t : Timestamp) : Prop := timestamp_deserialize parse_from_rfc3339 (rfc3339 t) = Some t.
Definition grants_dated (g : Grants) : Prop :=
  match g.(g_control) with Some c => dated c.(cg_until) | None => True end.
Definition device_dated (d : Device) : Prop :=
  grants_dated d.(d_grants) ∧ dated d.(d_created_at) ∧ dated d.(d_last_seen).
Definition counted (c : CredentialRecord) : Prop := 0 <= c.(cr_sign_count) <= u32_max.

Lemma transport_read t : transport_of (VString (transport_name t)) = Some t.
Proof. by destruct t. Qed.
Lemma mapM_read {A} (f : A → Value) (g : Value → option A) (P : A → Prop) l :
  (∀ x, P x → g (f x) = Some x) → Forall P l → mapM g (f <$> l) = Some l.
Proof.
  intros Hfg Hl. induction Hl as [|x l Hx _ IH]; [done|].
  rewrite fmap_cons. cbn [mapM]. rewrite Hfg by done. cbn. by rewrite IH.
Qed.

Lemma grants_read g : grants_dated g → grants_of (grants_value g) = Some g.
Proof.
  destruct g as [[[until]|] full]; unfold grants_dated, grants_of, grants_value; cbn [g_control g_full]; intros Hg;
    read_object; [|done].
  unfold control_value, control_of, timestamp_value, timestamp_of, dated in *. cbn [cg_until] in *. read_object. by rewrite Hg.
Qed.
Lemma u32_read n : 0 <= n <= u32_max → u32_of (VNumber n) = Some n.
Proof.
  intros [Hl Hu]. unfold u32_of, as_u64, in_range. change u64_max with 18446744073709551615.
  change u32_max with 4294967295 in *.
  replace ((0 <=? n) && (n <=? 18446744073709551615)) with true by lia. cbn.
  by replace (n <=? 4294967295) with true by lia.
Qed.
Lemma credential_read c : counted c → credential_of (credential_value c) = Some c.
Proof.
  intros Hc. destruct c as [i rp pk sf n be bs ts]. unfold credential_of, credential_value. read_object.
  unfold counted in Hc. cbn [cr_sign_count] in *. rewrite (u32_read n Hc). cbn [mbind option_bind].
  rewrite (mapM_read _ transport_of (λ _, True)); [done|by intros t _; apply transport_read|by apply Forall_true].
Qed.
Lemma device_read d : device_dated d → Forall counted d.(d_credentials) → device_of (device_value d) = Some d.
Proof.
  destruct d as [i label cs g locked created seen]. intros (Hg & Hc & Hs) Hcs.
  unfold device_of, device_value, timestamp_value, timestamp_of, dated in *.
  cbn [d_device_id d_label d_credentials d_grants d_locked d_created_at d_last_seen] in *. read_object.
  rewrite (mapM_read _ credential_of counted); [|apply credential_read|done].
  cbn [mbind option_bind]. rewrite grants_read by done. cbn [mbind option_bind]. by rewrite Hc, Hs.
Qed.
Lemma devices_read ds :
  Forall device_dated ds → Forall (λ d, Forall counted d.(d_credentials)) ds →
  mapM device_of (device_value <$> ds) = Some ds.
Proof.
  intros Hd Hc. apply (mapM_read _ _ (λ d, device_dated d ∧ Forall counted d.(d_credentials))).
  - intros d []. by apply device_read.
  - by apply Forall_and.
Qed.
End DeviceJson.
