(* ===== verification/Store.v ===== *)
(** * [companion_store.rs]: what the desktop keeps of the paired devices

    The desktop stores the devices as the JSON the gateway emitted and gives them back
    in the next init frame.  [Rules] are its copies of the gateway's checks. *)
From stdpp Require Import base gmap strings list pretty sorting.
From Stdlib Require Import ZArith Lia.
From S2P Require Import Prelude Rust Externals Clock Files Devices DeviceJson.
Local Open Scope Z_scope.

Definition DEVICES_FILE : string := "devices.json".
Definition SETTINGS_FILE : string := "settings.json".

Record DevicesFile := mkDevicesFile { df_version : Z; df_devices : list Value }.
Record Devices := mkDevices { ds_path : Path; ds_devices : list Value }.

(** ** The gateway's rules *)
Module Rules.

(** [label_format] *)
Definition label_format (c : Z) : bool :=
  (c =? 0x00ad) || in_range 0x0600 c 0x0605 || (c =? 0x061c) || (c =? 0x06dd) || (c =? 0x070f)
  || in_range 0x0890 c 0x0891
  || (c =? 0x08e2) || (c =? 0x180e) || in_range 0x200b c 0x200f || in_range 0x2028 c 0x202e
  || in_range 0x2060 c 0x2064
  || in_range 0x2066 c 0x206f || (c =? 0xfeff) || in_range 0xfff9 c 0xfffb || (c =? 0x110bd)
  || (c =? 0x110cd)
  || in_range 0x13430 c 0x1343f || in_range 0x1bca0 c 0x1bca3 || in_range 0x1d173 c 0x1d17a
  || (c =? 0xe0001) || in_range 0xe0020 c 0xe007f.
Definition valid_label (label : string) : bool :=
  negb (bool_decide (label = EmptyString))
  && (len label <=? 80)
  && bool_decide (trim_chars (chars label) = chars label)
  && forallb (λ c, negb (is_control c) && negb (label_format c)) (chars label).

Definition valid_rp_id (value : string) : bool :=
  negb (bool_decide (value = EmptyString))
  && (len value <=? 253)
  && negb (parse_ip_addr value)
  && forallb (λ part,
       negb (bool_decide (part = EmptyString))
       && (len part <=? 63)
       && negb (bool_decide (head (bytes part) = Some 45))
       && negb (bool_decide (last (bytes part) = Some 45))
       && forallb (λ b, is_ascii_lowercase b || is_ascii_digit b || (b =? 45)) (bytes part))
     (split_on (char_of 46) value).

(** The shape of [valid_until]: one match on the index of each of 19 bytes. *)
Definition until_byte (i : nat) (byte : Z) : bool :=
  match i with
  | 4%nat | 7%nat => byte =? 45
  | 10%nat => byte =? 84
  | 13%nat | 16%nat => byte =? 58
  | _ => is_ascii_digit byte
  end.
Definition until_shape (core : list Z) : bool :=
  bool_decide (19 ≤ length core)%nat
  && forallb id (imap until_byte (take 19 core))
  && (bool_decide (length core = 19%nat)
      || (bool_decide (21 ≤ length core ≤ 29)%nat
          && bool_decide (core !! 19%nat = Some 46)
          && forallb is_ascii_digit (drop 20 core))).

Section Rules.
Context `{Base64}.
(** [chrono::DateTime::parse_from_rfc3339], as in [Clock]: the offset, the sub-second
    nanoseconds and the instant *)
Context (parse_from_rfc3339 : string → option (Z * Z * Timestamp)).

Definition valid_until (value : string) : bool :=
  let bytes := bytes value in
  match (match strip_suffix_bytes [90] bytes with
         | Some core => Some core
         | None => strip_suffix_bytes [43; 48; 48; 58; 48; 48] bytes
         end) with
  | None => false
  | Some core =>
      until_shape core
      && match parse_from_rfc3339 value with
         | Some (_, subsec_nanos, _) => subsec_nanos <? 1000000000
         | None => false
         end
  end.

(** [object.contains_key] for each of the fields, and no more of them *)
Definition closed (fields : list string) (object : list (string * Value)) : bool :=
  bool_decide (length object = length fields)
  && forallb (λ f, bool_decide (is_Some (assoc f object))) fields.

Definition valid_grants (grants : Value) : bool :=
  match as_object grants with
  | None => false
  | Some object =>
      let control_ok := match assoc "control" object with
        | Some VNull => true
        | Some (VObject control) =>
            bool_decide (length control = 1%nat)
            && match (v ← assoc "until" control; as_str v) with
               | Some until => valid_until until
               | None => false
               end
        | _ => false
        end in
      bool_decide (length object = 2%nat) && control_ok
      && match assoc "full" object with Some full => bool_decide (is_Some (as_bool full)) | None => false end
  end.

Definition CREDENTIAL_FIELDS : list string :=
  ["id"; "rpId"; "publicKeyState"; "stateFormat"; "signCount"; "backupEligible"; "backupState"; "transports"].
Definition TRANSPORTS : list string := ["usb"; "nfc"; "ble"; "internal"; "hybrid"; "smart-card"].
(** [list.iter().all(..)] with the set of those seen so far *)
Fixpoint transports_from (seen : gset string) (l : list Value) : bool :=
  match l with
  | [] => true
  | t :: l =>
      match as_str t with
      | Some t => bool_decide (t ∈ TRANSPORTS) && negb (bool_decide (t ∈ seen)) && transports_from ({[t]} ∪ seen) l
      | None => false
      end
  end.
Definition valid_credential (credential : Value) : bool :=
  match as_object credential with
  | None => false
  | Some object =>
      let field f := default VNull (assoc f object) in
      if negb (closed CREDENTIAL_FIELDS object) then false
      else
        let id_ok := match as_str (field "id") with
          | Some id => negb (bool_decide (id = EmptyString)) && (len id <=? div_ceil 1024 3 * 4)
                       && match b64url_decode id with
                          | Some bytes => negb (bool_decide (bytes = EmptyString)) && (len bytes <=? 1024)
                          | None => false
                          end
          | None => false
          end in
        let transports_ok := match as_array (field "transports") with
          | Some list => bool_decide (length list ≤ 6)%nat && transports_from ∅ list
          | None => false
          end in
        id_ok
        && match as_str (field "rpId") with Some v => valid_rp_id v | None => false end
        && bool_decide (is_Some (as_str (field "publicKeyState")))
        && value_is (field "stateFormat") "webauthn_rp-0.3.0-static"
        && match as_u64 (field "signCount") with Some n => n <=? u32_max | None => false end
        && transports_ok
        && match as_bool (field "backupEligible"), as_bool (field "backupState") with
           | Some eligible, Some state => negb state || eligible
           | _, _ => false
           end
  end.

Definition FIELDS : list string :=
  ["deviceId"; "label"; "credentials"; "grants"; "locked"; "createdAt"; "lastSeen"].
Definition timestamp (value : Value) : option Timestamp :=
  value ← as_str value;
  if valid_until value then snd <$> parse_from_rfc3339 value else None.

(** The sets [ids] and [credentials] while the devices are gone through; [None] once
    a check failed. *)
Abbreviation Seen := (gset string * gset (string * string))%type.
Definition text_of (k : string) (v : Value) : string := default EmptyString (as_str (value_index k v)).
Fixpoint credentials_from (seen : gset (string * string)) (l : list Value) : option (gset (string * string)) :=
  match l with
  | [] => Some seen
  | c :: l =>
      let key := (text_of "rpId" c, text_of "id" c) in
      if valid_credential c && negb (bool_decide (key ∈ seen)) then credentials_from ({[key]} ∪ seen) l else None
  end.
Definition device_from (seen : Seen) (device : Value) : option Seen :=
  let '(ids, credentials) := seen in
  if negb (match as_object device with Some d => closed FIELDS d | None => false end) then None
  else
    id ← as_str (value_index "deviceId" device);
    if negb ((len id =? 22)
             && match b64url_decode id with Some bytes => len bytes =? 16 | None => false end
             && negb (bool_decide (id ∈ ids))) then None
    else if negb (match as_str (value_index "label" device) with Some label => valid_label label | None => false end
                  && valid_grants (value_index "grants" device)
                  && bool_decide (is_Some (as_bool (value_index "locked" device)))
                  && match timestamp (value_index "createdAt" device), timestamp (value_index "lastSeen" device) with
                     | Some created, Some seen => created <=? seen
                     | _, _ => false
                     end) then None
    else
      list ← as_array (value_index "credentials" device);
      if bool_decide (1 ≤ length list ≤ 8)%nat then
        credentials ← credentials_from credentials list;
        Some ({[id]} ∪ ids, credentials)
      else None.
Fixpoint devices_from (seen : Seen) (l : list Value) : option Seen :=
  match l with
  | [] => Some seen
  | device :: l => seen ← device_from seen device; devices_from seen l
  end.
Definition valid_devices (devices : list Value) : bool :=
  bool_decide (length devices ≤ 64)%nat && bool_decide (is_Some (devices_from (∅, ∅) devices)).
End Rules.
End Rules.

(** ** [device_id] *)
Definition device_id (device : Value) : option string :=
  id ← value_get "deviceId" device;
  id ← as_str id;
  if bool_decide (id = EmptyString) then None else Some id.

Section Store.
Context `{Base64, Fs D} (windows : bool) (parse_from_rfc3339 : string → option (Z * Z * Timestamp)).
(** The derived [Deserialize] and [Serialize] of [DevicesFile], from and to text *)
Context (from_slice : string → option DevicesFile) (to_vec_pretty : DevicesFile → string + string).
Abbreviation fs_m E A := (M D E A).

(** ** [Devices] *)
Definition devices_load (dir : string) : fs_m string Devices :=
  let path := (dir, DEVICES_FILE) in
  let! file := read_versioned from_slice df_version path in
  let devices := match file with Some file => file.(df_devices) | None => [] end in
  if negb (Rules.valid_devices parse_from_rfc3339 devices) then let! code := corrupt path in throw code
  else ret (mkDevices path devices).

Abbreviation store_m E A := (M (Devices * D) E A).
Definition on_disk {E A} (m : fs_m E A) : store_m E A := zoom snd (λ d s, (s.1, d)) m.

(** Memory follows disk only after the write succeeded. *)
Definition devices_commit (devices : list Value) : store_m string unit :=
  let! s := gets fst in
  on_disk (write_json windows to_vec_pretty s.(ds_path) (mkDevicesFile VERSION devices));;
  modify (λ s, (mkDevices s.1.(ds_path) devices, s.2)).

(** [iter_mut().find(..)]: the first device with the id takes the new value. *)
Fixpoint replace_first (id : string) (device : Value) (l : list Value) : option (list Value) :=
  match l with
  | [] => None
  | d :: l => if bool_decide (device_id d = Some id) then Some (device :: l) else cons d <$> replace_first id device l
  end.
Definition devices_upsert (device : Value) : store_m string unit :=
  let! id := ok_or "companion-device-invalid" (device_id device) in
  let! s := gets fst in
  devices_commit (match replace_first id device s.(ds_devices) with
                  | Some next => next
                  | None => s.(ds_devices) ++ [device]
                  end).
Definition devices_remove (id : string) : store_m string unit :=
  let! s := gets fst in
  devices_commit (List.filter (λ d, negb (bool_decide (device_id d = Some id))) s.(ds_devices)).

(** [mixed] *)
Definition grants_until (grants : Value) : option Timestamp :=
  until ← as_str (value_index "until" (value_index "control" grants));
  snd <$> parse_from_rfc3339 until.
Definition grants_full (grants : Value) : bool := default false (as_bool (value_index "full" grants)).
Definition mixed (old new : Value) : bool :=
  let tightening := option_lt (grants_until new) (grants_until old) || (negb (grants_full new) && grants_full old) in
  let widening := option_lt (grants_until old) (grants_until new) || (grants_full new && negb (grants_full old)) in
  tightening && widening.

(** The change of [Devices::apply] to the device it found; [None] is a panic of
    [device[field] = ..]. *)
Definition present (frame : Value) (field : string) : option Value :=
  v ← value_get field frame; if is_null v then None else Some v.
Definition set_present (field : string) (value : option Value) (device : Value) : option Value :=
  match value with Some value => value_set field value device | None => Some device end.
Definition apply_change (frame device : Value) : string + option Value :=
  if value_is (value_index "type" frame) "device.update" then
    let label := present frame "label" in
    let grants := present frame "grants" in
    if bool_decide (label = None) && bool_decide (grants = None) then inl "companion-device-invalid"
    else if match grants with Some grants => mixed (value_index "grants" device) grants | None => false end
    then inl "companion-grants-mixed"
    else inr (device ← set_present "label" label device; set_present "grants" grants device)
  else if value_is (value_index "type" frame) "device.unlock" then inr (value_set "locked" (VBool false) device)
  else inl "companion-device-invalid".
Definition devices_apply (frame : Value) : store_m string unit :=
  let! id := ok_or "companion-device-invalid" (as_str (value_index "deviceId" frame)) in
  if value_is (value_index "type" frame) "device.revoke" then devices_remove id
  else
    let! s := gets fst in
    let! device := ok_or "companion-device-unknown"
      (List.find (λ d, bool_decide (device_id d = Some id)) s.(ds_devices)) in
    match apply_change frame device with
    | inl e => throw e
    | inr device => let! device := expect device in devices_upsert device
    end.
End Store.

(** * The desktop's rules for stored devices are the gateway's

    [Rules.valid_devices] against [read_devices], check by check: the same but for the
    key state, which only the gateway parses. *)
(** ** Labels, hosts, timestamps *)

Lemma label_same l : Rules.valid_label l = Devices.valid_label l.
Proof. reflexivity. Qed.
Lemma rp_id_same s : Rules.valid_rp_id s = Devices.valid_rp_id s.
Proof. reflexivity. Qed.

Lemma until_byte_separator i b :
  Rules.until_byte i b = match separator i with None => is_ascii_digit b | Some expected => b =? expected end.
Proof. do 17 (destruct i as [|i]; [reflexivity|]). reflexivity. Qed.
Lemma shape_from_imap i l : shape_from i l = forallb id (imap (λ j, Rules.until_byte (i + j)) l).
Proof.
  revert i. induction l as [|b l IH]; intros i; [done|]. cbn [shape_from].
  rewrite imap_cons. cbn [forallb]. rewrite Nat.add_0_r, <- until_byte_separator, IH. unfold id at 2. f_equal.
  f_equal. apply imap_ext. intros j x _. unfold compose. f_equal. lia.
Qed.
Lemma until_shape_same core :
  Rules.until_shape core =
  (if bool_decide (length core < 19)%nat then false
   else if negb (shape_from 0 (take 19 core)) then false
   else bool_decide (length core = 19%nat)
        || (bool_decide (21 ≤ length core ≤ 29)%nat && bool_decide (core !! 19%nat = Some 46)
            && forallb is_ascii_digit (drop 20 core))).
Proof.
  unfold Rules.until_shape. rewrite shape_from_imap. cbn [Nat.add].
  destruct (decide (length core < 19)%nat).
  - rewrite (bool_decide_false (19 ≤ length core)%nat), (bool_decide_true (length core < 19)%nat) by lia. done.
  - rewrite (bool_decide_true (19 ≤ length core)%nat), (bool_decide_false (length core < 19)%nat) by lia.
    cbn [andb]. by destruct (forallb id _).
Qed.

Section Timestamps.
Context (parse_from_rfc3339 : string → option (Z * Z * Timestamp)).
(** RFC 3339: [Z] and [+00:00] are the offset zero. *)
Hypothesis utc_offset : ∀ s o n t,
  utc_shape (bytes s) = true → parse_from_rfc3339 s = Some (o, n, t) → o = 0.

Lemma valid_until_same s :
  Rules.valid_until parse_from_rfc3339 s = bool_decide (is_Some (timestamp_deserialize parse_from_rfc3339 s)).
Proof.
  unfold Rules.valid_until, timestamp_deserialize.
  destruct (utc_shape (bytes s)) eqn:Hs; cbn [negb].
  - pose proof (λ o n t, utc_offset s o n t Hs) as Ho. unfold utc_shape in Hs. case_match; [|done].
    rewrite until_shape_same, Hs. cbn [andb].
    destruct (parse_from_rfc3339 s) as [[[o n] t]|]; [|done]. rewrite (Ho o n t eq_refl). cbn [negb Z.eqb orb].
    replace (n <? 1000000000) with (negb (1000000000 <=? n)) by lia.
    by destruct (1000000000 <=? n).
  - unfold utc_shape in Hs. case_match; [|done]. by rewrite until_shape_same, Hs.
Qed.
Lemma timestamp_same v : Rules.timestamp parse_from_rfc3339 v = timestamp_of parse_from_rfc3339 v.
Proof.
  unfold Rules.timestamp, timestamp_of. destruct (as_str v) as [s|]; [|done]. cbn.
  rewrite valid_until_same. unfold timestamp_deserialize. destruct (negb (utc_shape (bytes s))); [done|].
  destruct (parse_from_rfc3339 s) as [[[o n] t]|]; [|done].
  by destruct (negb (o =? 0) || (1000000000 <=? n)).
Qed.
End Timestamps.

(** ** Closed objects *)

Lemma assoc_elem {A} k (l : list (string * A)) : is_Some (assoc k l) ↔ k ∈ l.*1.
Proof.
  induction l as [|[k' v] l IH]; [rewrite elem_of_nil; split; [by intros []|done]|].
  rewrite fmap_cons, elem_of_cons. cbn [assoc fst]. case_bool_decide; [|rewrite IH; naive_solver].
  split; [by left|by eauto].
Qed.
Lemma closed_keys fields o : NoDup fields → Rules.closed fields o = true →
  forallb (λ e, bool_decide (e.1 ∈ fields)) o = true ∧ ∀ f, f ∈ fields → is_Some (assoc f o).
Proof.
  unfold Rules.closed. rewrite andb_true_iff, bool_decide_eq_true, forallb_Forall, Forall_forall.
  intros Hnd [Hlen Hall].
  assert (∀ f, f ∈ fields → is_Some (assoc f o)) as Hin by (intros f Hf; eapply bool_decide_eq_true_1, Hall, Hf).
  split; [|done]. apply forallb_Forall, Forall_forall. intros e He. apply bool_decide_eq_true_2.
  assert (fields ≡ₚ o.*1) as Hperm.
  { apply submseteq_length_Permutation; [|by rewrite length_fmap, Hlen].
    apply NoDup_submseteq; [done|]. intros f Hf. by apply assoc_elem, Hin. }
  rewrite Hperm. by apply list_elem_of_fmap_2.
Qed.
Lemma keys_closed fields o : NoDup fields → NoDup o.*1 →
  forallb (λ e, bool_decide (e.1 ∈ fields)) o = true → (∀ f, f ∈ fields → is_Some (assoc f o)) →
  Rules.closed fields o = true.
Proof.
  intros Hnd Hkeys Honly Hin. rewrite forallb_Forall, Forall_forall in Honly.
  unfold Rules.closed. apply andb_true_iff. split.
  - apply bool_decide_eq_true_2. rewrite <- (length_fmap fst o). apply Permutation_length, NoDup_Permutation; [done..|].
    intros f. split; [|intros Hf; by apply assoc_elem, Hin].
    intros ([k v] & -> & He)%list_elem_of_fmap. by apply (bool_decide_eq_true_1 _ (Honly _ He)).
  - apply forallb_Forall, Forall_forall. intros f Hf. by apply bool_decide_eq_true_2, Hin.
Qed.

(** The parts of a value that is an object *)
Lemma wf_object o : value_wf (VObject o) = true → NoDup o.*1 ∧ ∀ k v, assoc k o = Some v → value_wf v = true.
Proof.
  cbn [value_wf]. rewrite andb_true_iff, bool_decide_eq_true, forallb_Forall. intros [Hnd Hwf]. split; [done|].
  intros k v. induction Hwf as [|[k' v'] o Hv Ho IH]; [done|]. cbn [assoc]. case_bool_decide.
  - by intros [= <-].
  - apply IH. by apply NoDup_cons in Hnd as [].
Qed.
Lemma wf_array l : value_wf (VArray l) = true → Forall (λ v, value_wf v = true) l.
Proof. cbn [value_wf]. by rewrite forallb_Forall. Qed.
Lemma wf_index k v : value_wf v = true → value_wf (value_index k v) = true.
Proof.
  intros Hv. unfold value_index, value_get. destruct v as [| | | | |o]; try done.
  destruct (assoc k o) as [v|] eqn:Hk; [|done]. cbn. by eapply wf_object in Hk.
Qed.

Section Same.
Context `{Base64, Crypto, !Webauthn Transport} (parse_from_rfc3339 : string → option (Z * Z * Timestamp)).
Hypothesis utc_offset : ∀ s o n t,
  utc_shape (bytes s) = true → parse_from_rfc3339 s = Some (o, n, t) → o = 0.
Abbreviation valid_grants := (Rules.valid_grants parse_from_rfc3339).
Abbreviation grants_of := (grants_of parse_from_rfc3339).
Abbreviation device_of := (device_of parse_from_rfc3339).
Implicit Types (o : list (string * Value)) (v : Value).

(** ** Grants *)

Lemma until_same c : value_wf c = true →
  (match c with
   | VObject control => bool_decide (length control = 1%nat)
       && match (v ← assoc "until" control; as_str v) with
          | Some until => Rules.valid_until parse_from_rfc3339 until
          | None => false
          end
   | _ => false
   end) = bool_decide (is_Some (control_of parse_from_rfc3339 c)).
Proof.
  intros Hwf. destruct c as [| | | | |o]; try done. apply wf_object in Hwf as [Hnd _].
  unfold control_of, required. destruct (assoc "until" o) as [u|] eqn:Hu.
  - transitivity (bool_decide (length o = 1%nat) && bool_decide (is_Some (timestamp_of parse_from_rfc3339 u))).
    { f_equal. cbn [mbind option_bind]. unfold timestamp_of. destruct (as_str u) as [s|]; [|done].
      cbn [mbind option_bind]. by apply valid_until_same. }
    assert (bool_decide (length o = 1%nat) = forallb (λ e, bool_decide (e.1 ∈ ["until"])) o) as ->.
    { apply eq_true_iff_eq. rewrite bool_decide_eq_true. split; intros Ho.
      - apply (closed_keys ["until"]); [by apply NoDup_singleton|]. unfold Rules.closed.
        cbn [forallb]. rewrite Hu. by rewrite !bool_decide_true.
      - apply (keys_closed ["until"]) in Ho; [|by apply NoDup_singleton|done|].
        + unfold Rules.closed in Ho. by apply andb_true_iff in Ho as [Hl%bool_decide_eq_true _].
        + intros f ->%list_elem_of_singleton. eauto. }
    unfold only. cbn [as_object mbind option_bind]. destruct (forallb _ o); [|done]. cbn [mbind option_bind andb].
    rewrite Hu. cbn [mbind option_bind]. by destruct (timestamp_of parse_from_rfc3339 u).
  - cbn [mbind option_bind]. rewrite andb_false_r. unfold only. cbn [as_object mbind option_bind].
    destruct (forallb _ o); [|done]. cbn [mbind option_bind]. by rewrite Hu.
Qed.

(** The gateway also reads grants without [control]; it never writes them. *)
Definition has_control v : bool := bool_decide (is_Some (value_get "control" v)).
Lemma grants_same v : value_wf v = true → valid_grants v = has_control v && bool_decide (is_Some (grants_of v)).
Proof.
  intros Hwf. unfold Rules.valid_grants, has_control, DeviceJson.grants_of. destruct v as [| | | | |o]; try done.
  apply wf_object in Hwf as [Hnd Hwf]. cbn [as_object value_get].
  destruct (assoc "control" o) as [c|] eqn:Hc; [|by rewrite andb_false_r]. rewrite (bool_decide_true (is_Some (Some c))) by eauto.
  cbn [andb]. specialize (Hwf _ _ Hc).
  destruct (assoc "full" o) as [f|] eqn:Hf; cbn [andb].
  2:{ rewrite andb_false_r. unfold only. cbn [as_object mbind option_bind]. destruct (forallb _ o); [|done].
      cbn [mbind option_bind]. unfold optional, required. rewrite Hc, Hf. destruct c; cbn [mbind option_bind]; try done. by destruct (control_of parse_from_rfc3339 (VObject l)). }
  assert (bool_decide (length o = 2%nat) = forallb (λ e, bool_decide (e.1 ∈ ["control"; "full"])) o) as ->.
  { apply eq_true_iff_eq. rewrite bool_decide_eq_true. split; intros Ho.
    - apply (closed_keys ["control"; "full"]); [apply NoDup_cons; split; [set_solver|apply NoDup_singleton]|].
      unfold Rules.closed. cbn [forallb]. rewrite Hc, Hf. by rewrite !bool_decide_true.
    - apply (keys_closed ["control"; "full"]) in Ho; [|apply NoDup_cons; split; [set_solver|apply NoDup_singleton]|done|].
      + unfold Rules.closed in Ho. by apply andb_true_iff in Ho as [Hl%bool_decide_eq_true _].
      + intros g [->|[->|[]%elem_of_nil]%elem_of_cons]%elem_of_cons; eauto. }
  unfold only. cbn [as_object mbind option_bind]. destruct (forallb _ o); [|done]. cbn [mbind option_bind andb].
  unfold optional, required. rewrite Hc, Hf. cbn [mbind option_bind].
  assert (∀ g : option (option ControlGrant), bool_decide (is_Some g) && bool_decide (is_Some (as_bool f))
    = bool_decide (is_Some (control ← g; full ← as_bool f; Some (mkGrants control full)))) as Hg.
  { intros [g|]; [|done]. by destruct (as_bool f). }
  rewrite <- Hg. f_equal. pose proof (until_same c Hwf) as Hu.
  destruct c as [| | | | |control]; try done. rewrite Hu. by destruct (control_of parse_from_rfc3339 (VObject control)).
Qed.

(** ** Credentials *)

Lemma transport_of_name v t : transport_of v = Some t ↔ v = VString (transport_name t).
Proof.
  split; [|intros ->; apply transport_read].
  unfold transport_of. destruct v as [| | |s| |]; try done. cbn [as_str mbind option_bind].
  repeat case_bool_decide; intros; by simplify_eq.
Qed.
Lemma transport_names s : s ∈ Rules.TRANSPORTS ↔ ∃ t, s = transport_name t.
Proof.
  unfold Rules.TRANSPORTS. split.
  - rewrite !elem_of_cons, elem_of_nil.
    intros [->|[->|[->|[->|[->|[->|[]]]]]]]; [exists Usb|exists Nfc|exists Ble|exists Internal|exists Hybrid|exists SmartCard]; done.
  - intros [t ->]. destruct t; rewrite !elem_of_cons; cbn [transport_name]; tauto.
Qed.
Lemma transport_name_inj t t' : transport_name t = transport_name t' → t = t'.
Proof. by destruct t, t'. Qed.
Lemma transports_same l seen : Rules.transports_from seen l = true ↔
  ∃ ts, mapM transport_of l = Some ts ∧ NoDup ts ∧ ∀ t, t ∈ ts → transport_name t ∉ seen.
Proof.
  revert seen. induction l as [|v l IH]; intros seen; cbn [Rules.transports_from].
  { split; [|done]. intros _. exists []. split; [done|]. split; [constructor|]. by intros t ?%elem_of_nil. }
  split.
  - destruct (as_str v) as [s|] eqn:Hv; [|done]. destruct v; try done. injection Hv as ->.
    rewrite !andb_true_iff, negb_true_iff, bool_decide_eq_true, bool_decide_eq_false, IH, transport_names.
    intros [[[t ->] Hs] (ts & Hts & Hnd & Hin)]. exists (t :: ts). cbn [mapM]. rewrite transport_read. cbn [mbind option_bind].
    rewrite Hts. split; [done|]. split.
    + constructor; [|done]. intros Ht. apply Hin in Ht. set_solver.
    + intros t' [->|Ht']%elem_of_cons; [done|]. apply Hin in Ht'. set_solver.
  - intros (ts & Hts & Hnd & Hin). cbn [mapM] in Hts. apply bind_Some in Hts as (t & Ht & Hts).
    apply bind_Some in Hts as (ts' & Hts & [= <-]). apply transport_of_name in Ht as ->. cbn [as_str].
    apply NoDup_cons in Hnd as [Hnt Hnd].
    rewrite !andb_true_iff, negb_true_iff, bool_decide_eq_true, bool_decide_eq_false, IH, transport_names.
    split; [split; [eauto|apply Hin; left]|]. exists ts'. split; [done|]. split; [done|].
    intros t' Ht'. apply not_elem_of_union. split; [|apply Hin; by right].
    rewrite elem_of_singleton. by intros ->%transport_name_inj.
Qed.

(** [CredentialRecord::valid] but for the key state *)
Definition credential_rest (c : CredentialRecord) : bool :=
  binary c.(cr_id) 1024
  && bool_decide (c.(cr_state_format) = STATE_FORMAT)
  && Devices.valid_rp_id c.(cr_rp_id)
  && (negb c.(cr_backup_state) || c.(cr_backup_eligible))
  && bool_decide (length c.(cr_transports) ≤ 6)%nat
  && all_distinct c.(cr_transports).
Definition key_ok (c : CredentialRecord) : bool := bool_decide (is_Some (key_state c.(cr_public_key_state))).
Lemma credential_valid_rest c : credential_valid c = credential_rest c && key_ok c.
Proof.
  unfold credential_valid, credential_rest, key_ok.
  destruct (binary _ _), (bool_decide (cr_state_format c = STATE_FORMAT)), (bool_decide (is_Some _)),
    (Devices.valid_rp_id _), (_ || _), (bool_decide (length _ ≤ 6)%nat), (all_distinct _); reflexivity.
Qed.

Lemma required_some {A} (f : Value → option A) k o x : required f k o = Some x → is_Some (assoc k o).
Proof. unfold required. destruct (assoc k o); [by eauto|done]. Qed.
Lemma only_some fields v o : only fields v = Some o → v = VObject o ∧ forallb (λ e, bool_decide (e.1 ∈ fields)) o = true.
Proof. unfold only. destruct v as [| | | | |o']; try done. cbn. case_match; [|done]. by intros [= ->]. Qed.

Lemma credential_closed v c : value_wf v = true → credential_of v = Some c →
  ∃ o, v = VObject o ∧ Rules.closed Rules.CREDENTIAL_FIELDS o = true.
Proof.
  intros Hwf Hc. unfold credential_of in Hc.
  repeat (apply bind_Some in Hc as (? & ? & Hc)). injection Hc as <-.
  repeat match goal with H : required _ _ _ = Some _ |- _ => apply required_some in H end.
  match goal with H : only _ _ = Some _ |- _ => apply only_some in H as [-> Ho] end.
  eexists. split; [done|]. apply wf_object in Hwf as [Hnd _].
  apply keys_closed; [by apply (bool_decide_unpack _)|done..|].
  intros f Hf. unfold Rules.CREDENTIAL_FIELDS in Hf. rewrite !elem_of_cons, elem_of_nil in Hf.
  by destruct Hf as [->|[->|[->|[->|[->|[->|[->|[->|[]]]]]]]]].
Qed.
Ltac member := eapply bool_decide_eq_true_1; reflexivity.
Ltac neither := cbv beta iota zeta; repeat first [rewrite andb_false_r | rewrite andb_false_l]; cbn [mbind option_bind]; split; [done|by intros (? & ? & _)].
Lemma credential_same v : value_wf v = true →
  Rules.valid_credential v = true ↔ ∃ c, credential_of v = Some c ∧ credential_rest c = true.
Proof.
  intros Hwf.
  assert (∀ o, Rules.closed Rules.CREDENTIAL_FIELDS o = true →
    Rules.valid_credential (VObject o) = true ↔ ∃ c, credential_of (VObject o) = Some c ∧ credential_rest c = true) as Hclosed.
  { intros o Hcl. pose proof (closed_keys Rules.CREDENTIAL_FIELDS o ltac:(by apply (bool_decide_unpack _)) Hcl) as [Honly Hin].
    unfold Rules.valid_credential, credential_of. cbn [as_object]. rewrite Hcl. cbn [negb].
    change (only _ (VObject o)) with (only Rules.CREDENTIAL_FIELDS (VObject o)).
    rewrite (only_object _ o Honly). cbn [mbind option_bind]. unfold required.
    destruct (Hin "id" ltac:(member)) as [v1 ->], (Hin "rpId" ltac:(member)) as [v2 ->],
      (Hin "publicKeyState" ltac:(member)) as [v3 ->], (Hin "stateFormat" ltac:(member)) as [v4 ->],
      (Hin "signCount" ltac:(member)) as [v5 ->], (Hin "backupEligible" ltac:(member)) as [v6 ->],
      (Hin "backupState" ltac:(member)) as [v7 ->], (Hin "transports" ltac:(member)) as [v8 ->].
    cbn [default from_option id mbind option_bind]. unfold u32_of, value_is, id.
    destruct (as_str v1) as [i|]; [|neither]. destruct (as_str v2) as [rp|]; cbn [mbind option_bind]; [|neither].
    destruct (as_str v3) as [pk|]; cbn [mbind option_bind]; [|rewrite (bool_decide_false (is_Some None)) by (by intros []); neither].
    destruct (as_str v4) as [sf|]; cbn [mbind option_bind]; [|rewrite (bool_decide_false (None = _)) by done; neither].
    destruct (as_u64 v5) as [n|]; cbn [mbind option_bind]; [|neither].
    destruct (n <=? u32_max); cbn [mbind option_bind]; [|neither].
    destruct (as_bool v6) as [be|]; cbn [mbind option_bind]; [|neither].
    destruct (as_bool v7) as [bs|]; cbn [mbind option_bind]; [|neither].
    destruct (as_array v8) as [ts|]; cbn [mbind option_bind]; [|neither].
    match goal with |- ?l = true ↔ _ => change l with (binary i 1024 && Devices.valid_rp_id rp
      && bool_decide (is_Some (Some pk)) && bool_decide (Some sf = Some STATE_FORMAT) && true
      && (bool_decide (length ts ≤ 6)%nat && Rules.transports_from ∅ ts) && (negb bs || be)) end.
    rewrite !andb_true_iff, (transports_same ts ∅), !bool_decide_eq_true. split.
    - intros ((((((Hid & Hrp) & _) & [= ->]) & _) & Hlen & l & Hl & Hnd & _) & Hb). rewrite Hl. cbn [mbind option_bind].
      eexists. split; [done|]. unfold credential_rest. cbn [cr_id cr_rp_id cr_state_format cr_backup_state cr_backup_eligible cr_transports].
      rewrite Hid, Hrp, Hb, <- (length_mapM _ _ _ Hl), !bool_decide_true by done. by apply all_distinct_NoDup.
    - intros (c & Hc & Hrest). apply bind_Some in Hc as (l & Hl & [= <-]). unfold credential_rest in Hrest.
      cbn [cr_id cr_rp_id cr_state_format cr_backup_state cr_backup_eligible cr_transports] in Hrest.
      rewrite !andb_true_iff, all_distinct_NoDup, !bool_decide_eq_true, <- (length_mapM _ _ _ Hl) in Hrest.
      destruct Hrest as (((((Hid & ->) & Hrp) & Hb) & Hlen) & Hnd). repeat split; try done. exists l. split; [done|]. split; [done|].
      intros t _. apply not_elem_of_empty. }
  split.
  - intros Hv. destruct v as [| | | | |o]; try done. apply Hclosed; [|done].
    unfold Rules.valid_credential in Hv. cbn [as_object] in Hv. by destruct (Rules.closed Rules.CREDENTIAL_FIELDS o).
  - intros (c & Hc & Hrest). destruct (credential_closed v c Hwf Hc) as (o & -> & Hcl). apply Hclosed; [done|]. eauto.
Qed.

Lemma credential_text v c : credential_of v = Some c →
  (Rules.text_of "rpId" v, Rules.text_of "id" v) = credential_key c.
Proof.
  unfold credential_of. intros Hc. apply bind_Some in Hc as (o & Ho & Hc). apply only_some in Ho as [-> _].
  repeat (apply bind_Some in Hc as (? & ? & Hc)). injection Hc as <-.
  repeat match goal with H : required as_str _ _ = Some _ |- _ => apply bind_Some in H as (? & ? & ?) end.
  unfold Rules.text_of, value_index, value_get, credential_key. cbn [cr_rp_id cr_id].
  match goal with H1 : assoc "id" _ = Some _, H2 : assoc "rpId" _ = Some _ |- _ => rewrite H1, H2 end.
  cbn [default from_option id]. unfold id. by f_equal; match goal with H : as_str _ = Some _ |- _ => rewrite H end.
Qed.
Lemma credentials_same l seen r : Forall (λ v, value_wf v = true) l →
  Rules.credentials_from seen l = Some r ↔
  ∃ cs, mapM credential_of l = Some cs ∧ Forall (λ c, credential_rest c = true) cs
    ∧ NoDup (credential_key <$> cs) ∧ (∀ c, c ∈ cs → credential_key c ∉ seen)
    ∧ r = list_to_set (credential_key <$> cs) ∪ seen.
Proof.
  intros Hwf. revert seen r. induction Hwf as [|v l Hv Hl IH]; intros seen r; cbn [Rules.credentials_from mapM].
  { split.
    - intros [= <-]. exists []. split; [done|]. repeat split; [constructor..|by intros c ?%elem_of_nil|set_solver].
    - intros (cs & [= <-] & _ & _ & _ & ->). f_equal. set_solver. }
  split.
  - intros Hr. destruct (Rules.valid_credential v && _) eqn:Hc; [|done].
    apply andb_true_iff in Hc as [Hc Hseen%negb_true_iff%bool_decide_eq_false].
    apply credential_same in Hc as (c & Hc & Hrest); [|done]. rewrite (credential_text v c Hc) in *.
    apply IH in Hr as (cs & Hcs & Hrests & Hnd & Hnot & ->). exists (c :: cs). rewrite Hc. cbn [mbind option_bind]. rewrite Hcs.
    split; [done|]. split; [by constructor|]. rewrite fmap_cons. split; [|split].
    + constructor; [|done]. intros (c' & Hk & Hin)%list_elem_of_fmap. apply (Hnot c' Hin). rewrite <- Hk. set_solver.
    + intros c' [->|Hin]%elem_of_cons; [done|]. specialize (Hnot c' Hin). set_solver.
    + rewrite list_to_set_cons. set_solver.
  - intros (cs & Hcs & Hrests & Hnd & Hnot & ->). apply bind_Some in Hcs as (c & Hc & Hcs).
    apply bind_Some in Hcs as (cs' & Hcs & [= <-]). apply Forall_cons in Hrests as [Hrest Hrests].
    rewrite fmap_cons, NoDup_cons in Hnd. destruct Hnd as [Hnk Hnd]. rewrite (credential_text v c Hc).
    rewrite (proj2 (credential_same v Hv)) by eauto. rewrite bool_decide_false by (apply Hnot; left). cbn [negb andb].
    apply IH. exists cs'. split; [done|]. split; [done|]. split; [done|]. split.
    + intros c' Hin. apply not_elem_of_union. split; [|apply Hnot; by right].
      intros Hk%elem_of_singleton. apply Hnk. rewrite <- Hk. by apply list_elem_of_fmap_2.
    + rewrite fmap_cons, list_to_set_cons. set_solver.
Qed.

(** ** Devices *)

Definition keys_of (d : Device) : list (string * string) := credential_key <$> d.(d_credentials).
(** [Device::valid] but for the key states *)
Definition device_rest (d : Device) : Prop :=
  is_Some (decode 16 d.(d_device_id)) ∧ Devices.valid_label d.(d_label) = true
  ∧ (1 ≤ length d.(d_credentials) ≤ 8)%nat ∧ Forall (λ c, credential_rest c = true) d.(d_credentials)
  ∧ NoDup (keys_of d) ∧ d.(d_created_at) <= d.(d_last_seen).
Lemma device_valid_rest d :
  device_valid d = true ↔ device_rest d ∧ Forall (λ c, key_ok c = true) d.(d_credentials).
Proof.
  rewrite device_valid_spec. unfold device_rest, keys_of.
  assert (Forall (λ c, credential_valid c = true) (d_credentials d) ↔
    Forall (λ c, credential_rest c = true) (d_credentials d) ∧ Forall (λ c, key_ok c = true) (d_credentials d)) as ->.
  { rewrite <- Forall_and. apply Forall_iff. intros c. by rewrite credential_valid_rest, andb_true_iff. }
  assert (d_credentials d ≠ [] ↔ (1 ≤ length (d_credentials d))%nat) as ->; [|naive_solver lia].
  destruct (d_credentials d); simpl; split; intros; try done; lia.
Qed.

Lemma device_closed v d : value_wf v = true → device_of v = Some d →
  ∃ o, v = VObject o ∧ Rules.closed Rules.FIELDS o = true.
Proof.
  intros Hwf Hd. unfold DeviceJson.device_of in Hd.
  repeat (apply bind_Some in Hd as (? & ? & Hd)). injection Hd as <-.
  repeat match goal with H : required _ _ _ = Some _ |- _ => apply required_some in H end.
  match goal with H : only _ _ = Some _ |- _ => apply only_some in H as [-> Ho] end.
  eexists. split; [done|]. apply wf_object in Hwf as [Hnd _].
  apply keys_closed; [by apply (bool_decide_unpack _)|done..|].
  intros f Hf. unfold Rules.FIELDS in Hf. rewrite !elem_of_cons, elem_of_nil in Hf.
  by destruct Hf as [->|[->|[->|[->|[->|[->|[->|[]]]]]]]].
Qed.

Definition fresh_device (seen : gset string * gset (string * string)) (d : Device) : Prop :=
  d_device_id d ∉ seen.1 ∧ ∀ c, c ∈ d_credentials d → credential_key c ∉ seen.2.
Definition seen_device (seen : gset string * gset (string * string)) (d : Device)
    : gset string * gset (string * string) :=
  ({[d_device_id d]} ∪ seen.1, list_to_set (keys_of d) ∪ seen.2).
Definition control_shown v : bool := has_control (value_index "grants" v).
Lemma device_same v seen r : value_wf v = true → control_shown v = true →
  Rules.device_from parse_from_rfc3339 seen v = Some r ↔
  ∃ d, device_of v = Some d ∧ device_rest d ∧ fresh_device seen d ∧ r = seen_device seen d.
Proof.
  intros Hwf Hgrants. destruct seen as [ids creds].
  assert (∀ o, v = VObject o → Rules.closed Rules.FIELDS o = true →
    Rules.device_from parse_from_rfc3339 (ids, creds) v = Some r ↔
    ∃ d, device_of v = Some d ∧ device_rest d ∧ fresh_device (ids, creds) d ∧ r = seen_device (ids, creds) d) as Hclosed.
  { intros o -> Hcl. pose proof (closed_keys Rules.FIELDS o ltac:(by apply (bool_decide_unpack _)) Hcl) as [Honly Hin].
    unfold Rules.device_from, DeviceJson.device_of. cbn [as_object]. rewrite Hcl. cbn [negb].
    change (only _ (VObject o)) with (only Rules.FIELDS (VObject o)).
    rewrite (only_object _ o Honly). cbn [mbind option_bind]. unfold required.
    unfold control_shown, value_index, value_get in Hgrants |- *. apply wf_object in Hwf as [_ Hwf].
    destruct (Hin "deviceId" ltac:(member)) as [v1 H1], (Hin "label" ltac:(member)) as [v2 H2],
      (Hin "credentials" ltac:(member)) as [v3 H3], (Hin "grants" ltac:(member)) as [v4 H4],
      (Hin "locked" ltac:(member)) as [v5 H5], (Hin "createdAt" ltac:(member)) as [v6 H6],
      (Hin "lastSeen" ltac:(member)) as [v7 H7].
    pose proof (Hwf _ _ H3) as Hw3. pose proof (Hwf _ _ H4) as Hw4. rewrite H4 in Hgrants.
    rewrite H1, H2, H3, H4, H5, H6, H7. cbn [default from_option id mbind option_bind] in *. unfold id in *.
    rewrite (grants_same v4 Hw4), Hgrants, !(timestamp_same _ utc_offset).
    assert (∀ i, (len i =? 22) && match b64url_decode i with Some bytes => len bytes =? 16 | None => false end
      = bool_decide (is_Some (decode 16 i))) as Hdecode.
    { intros i. unfold decode. change (div_ceil (16 * 8) 6) with 22. destruct (len i =? 22); [|done]. cbn [andb negb].
      destruct (b64url_decode i) as [b|]; [|done]. by destruct (len b =? 16). }
    split.
    - intros Hr. destruct (as_str v1) as [i|]; [|done]. cbn [mbind option_bind] in Hr.
      rewrite Hdecode in Hr. destruct (bool_decide (is_Some (decode 16 i)) && _) eqn:Hid; [|done]. cbn [negb] in Hr.
      apply andb_true_iff in Hid as [Hid%bool_decide_eq_true Hids%negb_true_iff%bool_decide_eq_false].
      destruct (as_str v2) as [label|]; [|done]. destruct (grants_of v4) as [grants|]; [|by rewrite andb_false_r in Hr].
      destruct (as_bool v5) as [locked|]; [|by rewrite andb_false_r in Hr].
      destruct (timestamp_of parse_from_rfc3339 v6) as [created|]; [|by rewrite andb_false_r in Hr].
      destruct (timestamp_of parse_from_rfc3339 v7) as [last|]; [|by rewrite andb_false_r in Hr].
      cbn [mbind option_bind]. rewrite !bool_decide_true in Hr by eauto. cbn [andb] in Hr. rewrite !andb_true_r in Hr.
      destruct (Rules.valid_label label && (created <=? last)) eqn:Hlabel; [|done]. cbn [negb] in Hr.
      apply andb_true_iff in Hlabel as [Hlabel Hlast%Z.leb_le].
      destruct (as_array v3) as [l|] eqn:Hl; [|done]. destruct v3 as [| | | |l'|]; try done. injection Hl as ->.
      cbn [mbind option_bind] in Hr. case_bool_decide as Hlen; [|done].
      apply bind_Some in Hr as (creds' & Hcreds & [= <-]).
      apply credentials_same in Hcreds as (cs & Hcs & Hrests & Hnd & Hnot & ->); [|by apply wf_array].
      cbn [mbind option_bind]. rewrite Hcs. cbn [mbind option_bind]. eexists. split; [done|].
      unfold device_rest, fresh_device, seen_device, keys_of. cbn. rewrite <- (length_mapM _ _ _ Hcs). done.
    - intros (d & Hd & (Hid & Hlabel & Hlen & Hrests & Hnd & Hlast) & (Hids & Hnot) & ->).
      repeat (apply bind_Some in Hd as (? & ? & Hd)). injection Hd as <-. cbn in *.
      repeat match goal with H : _ = Some _ |- _ => rewrite H end. cbn [mbind option_bind].
      rewrite Hdecode, (bool_decide_true (is_Some (decode 16 _))), bool_decide_false by done. cbn [negb andb].
      rewrite label_same, Hlabel, !bool_decide_true by eauto. cbn [negb andb].
      rewrite (proj2 (Z.leb_le _ _) Hlast). cbn [negb andb].
      match goal with H : _ ≫= _ = Some _ |- _ => apply bind_Some in H as (l & Hl & Hcs) end.
      destruct v3 as [| | | |l'|]; try done. injection Hl as ->. cbn [as_array mbind option_bind].
      rewrite bool_decide_true by (by rewrite (length_mapM _ _ _ Hcs)).
      assert (Rules.credentials_from creds l = Some (list_to_set (credential_key <$> x1) ∪ creds)) as ->; [|done].
      apply credentials_same; [by apply wf_array|]. by exists x1. }
  split.
  - intros Hr. destruct v as [| | | | |o]; try done. apply (Hclosed o); [done| |done].
    unfold Rules.device_from in Hr. cbn [as_object] in Hr. by destruct (Rules.closed Rules.FIELDS o).
  - intros (d & Hd & Hrest). destruct (device_closed v d Hwf Hd) as (o & -> & Hcl). apply (Hclosed o); [done|done|]. eauto.
Qed.

Lemma devices_same vs seen : Forall (λ v, value_wf v = true) vs → Forall (λ v, control_shown v = true) vs →
  is_Some (Rules.devices_from parse_from_rfc3339 seen vs) ↔
  ∃ ds, mapM device_of vs = Some ds ∧ Forall device_rest ds ∧ NoDup (d_device_id <$> ds)
    ∧ NoDup (ds ≫= keys_of) ∧ Forall (fresh_device seen) ds.
Proof.
  intros Hwf. revert seen. induction Hwf as [|v vs Hv Hvs IH]; intros seen Hcs; cbn [Rules.devices_from mapM].
  { split; [|by eauto]. intros _. exists []. repeat split; constructor. }
  apply Forall_cons in Hcs as [Hc Hcs]. split.
  - intros [r Hr]. apply bind_Some in Hr as (seen' & Hs & Hr). apply device_same in Hs as (d & Hd & Hrest & Hfresh & ->); [|done..].
    destruct (proj1 (IH (seen_device seen d) Hcs)) as (ds & Hds & Hrests & Hids & Hkeys & Hall); [by eauto|].
    exists (d :: ds). rewrite Hd. cbn [mbind option_bind]. rewrite Hds. rewrite Forall_forall in Hall.
    split; [done|]. split; [by constructor|]. rewrite fmap_cons, bind_cons. split; [|split].
    + constructor; [|done]. intros (d' & Hd' & Hin)%list_elem_of_fmap. destruct (Hall _ Hin) as [Hn _].
      apply Hn. rewrite <- Hd'. cbn. set_solver.
    + apply NoDup_app. split; [apply Hrest|]. split; [|done]. intros k Hk (d' & Hk' & Hin)%list_elem_of_bind.
      destruct (Hall _ Hin) as [_ Hn]. unfold keys_of in Hk'. apply list_elem_of_fmap in Hk' as (c & -> & Hin').
      apply (Hn c Hin'). cbn. apply elem_of_union_l. by apply elem_of_list_to_set.
    + constructor; [done|]. apply Forall_forall. intros d' Hin. destruct (Hall _ Hin) as [H1 H2]. cbn in *.
      split; [set_solver|]. intros c Hc'. specialize (H2 c Hc'). set_solver.
  - intros (ds & Hds & Hrests & Hids & Hkeys & Hfresh). apply bind_Some in Hds as (d & Hd & Hds).
    apply bind_Some in Hds as (ds' & Hds & [= <-]). apply Forall_cons in Hrests as [Hrest Hrests].
    apply Forall_cons in Hfresh as [Hf Hfresh]. rewrite fmap_cons, NoDup_cons in Hids. destruct Hids as [Hid Hids].
    rewrite bind_cons in Hkeys. apply NoDup_app in Hkeys as (_ & Hdisj & Hkeys).
    assert (Rules.device_from parse_from_rfc3339 seen v = Some (seen_device seen d)) as ->
      by (apply device_same; [done..|by exists d]).
    cbn [mbind option_bind]. apply IH; [done|]. exists ds'. repeat (split; [done|]).
    rewrite Forall_forall in Hfresh |- *. intros d' Hin. destruct (Hfresh _ Hin) as [H1 H2]. split; cbn.
    + apply not_elem_of_union. split; [|done]. intros Heq%elem_of_singleton. apply Hid. rewrite <- Heq.
      by apply list_elem_of_fmap_2.
    + intros c Hc'. apply not_elem_of_union. split; [|by apply H2]. intros Hk%elem_of_list_to_set.
      apply (Hdisj _ Hk). apply list_elem_of_bind. exists d'. split; [|done]. by apply list_elem_of_fmap_2.
Qed.

Lemma deserialize_spec fields ds : deserialize_devices fields = Some ds ↔
  ds = fields ∧ (length fields ≤ 64)%nat ∧ Forall (λ d, device_valid d = true) fields
  ∧ NoDup (d_device_id <$> fields) ∧ NoDup (fields ≫= keys_of).
Proof.
  unfold deserialize_devices.
  assert (∀ fs, mapM device_deserialize fs = Some fs ↔ Forall (λ d, device_valid d = true) fs) as Hall.
  { intros fs. split.
    - intros Hm%mapM_Some. rewrite Forall_forall. intros d Hd. apply list_elem_of_lookup in Hd as [i Hi].
      destruct (Forall2_lookup_l _ _ _ _ _ Hm Hi) as (d' & Hi' & Hd'). by apply device_deserialize_id in Hd' as [_ ?].
    - intros Hv. apply mapM_Some. induction Hv as [|d fs Hd _ IH]; constructor; [|done].
      unfold device_deserialize. destruct (proj1 (device_valid_spec d) Hd) as (_ & _ & _ & _ & Hcs & _).
      assert (mapM credential_deserialize (d_credentials d) = Some (d_credentials d)) as ->.
      { apply mapM_Some. induction Hcs as [|c cs Hc _ IHc]; constructor; [|done]. unfold credential_deserialize. by rewrite Hc. }
      destruct d. cbn in *. unfold device_set_credentials. cbn. by rewrite Hd. }
  assert (∀ ds : list Device, (ds ≫= λ d, credential_key <$> d_credentials d) = ds ≫= keys_of) as Hkeys by done.
  destruct (mapM device_deserialize fields) as [ds'|] eqn:Hm.
  - assert (ds' = fields) as ->.
    { apply mapM_Some in Hm. clear Hall. induction Hm as [|f d fs ds'' Hf _ IH]; [done|].
      apply device_deserialize_id in Hf as [-> _]. by f_equal. }
    apply Hall in Hm. rewrite (proj2 (forallb_Forall device_valid fields)) by done. cbn [negb]. rewrite orb_false_r.
    rewrite <- length_flat_credentials. fold (all_distinct (fields ≫= λ d, credential_key <$> d_credentials d)). rewrite Hkeys.
    destruct (bool_decide (64 < length fields)%nat) eqn:Hlen; [apply bool_decide_eq_true in Hlen; cbn [orb]; split; [done|lia]|].
    apply bool_decide_eq_false in Hlen. cbn [orb].
    destruct (all_distinct (d_device_id <$> fields)) eqn:Hids; cbn [negb orb].
    2:{ split; [done|]. intros (_ & _ & _ & Hn & _). apply all_distinct_NoDup in Hn. by rewrite Hids in Hn. }
    destruct (all_distinct (fields ≫= keys_of)) eqn:Hks; cbn [negb orb].
    2:{ split; [done|]. intros (_ & _ & _ & _ & Hn). apply all_distinct_NoDup in Hn. by rewrite Hks in Hn. }
    apply all_distinct_NoDup in Hids, Hks. split; [intros [= ->]; repeat split; try done; lia|by intros (-> & _)].
  - split; [done|]. intros (_ & _ & Hv & _). apply Hall in Hv. by rewrite Hm in Hv.
Qed.
End Same.

(** ** Edits *)
Section Edits.
Context `{Base64, Fs D, !FsLaws H0} (windows : bool).
Context (parse : string → option (Z * Z * Timestamp)).
Context (from_slice : string → option DevicesFile) (to_vec_pretty : DevicesFile → string + string).
Implicit Types (s : Devices * D).

Definition stored_as (devices : list Value) (o : option string) : Prop :=
  written to_vec_pretty (mkDevicesFile VERSION devices) o.
(** What an operation that wants the devices [next] leaves. *)
Definition committed (next : list Value) s (r : outcome string unit) s' : Prop :=
  let path := ds_path s.1 in
  (∀ q, q ≠ path → q ≠ tmp_of path → fs_file s'.2 q = fs_file s.2 q) ∧
  match r with
  | Ok _ => s'.1 = mkDevices path next ∧ stored_as next (fs_file s'.2 path)
  | Err _ => s'.1 = s.1 ∧ (fs_file s'.2 path = fs_file s.2 path ∨ stored_as next (fs_file s'.2 path))
  | Panic => False
  end.
Lemma devices_commit_spec next s : wp (devices_commit windows to_vec_pretty next) (committed next s) s.
Proof.
  unfold devices_commit. apply wp_bind, wp_gets, wp_bind. unfold on_disk. apply wp_zoom.
  eapply wp_mono; [apply (write_json_spec windows)|]. intros [|e|] d' [Hq Hr]; [|by split|done].
  apply wp_modify. by split.
Qed.
Lemma upsert_spec id device s : device_id device = Some id →
  wp (devices_upsert windows to_vec_pretty device)
    (committed (default (ds_devices s.1 ++ [device]) (replace_first id device (ds_devices s.1))) s) s.
Proof.
  intros Hid. unfold devices_upsert. rewrite Hid. apply wp_bind, wp_ok_or, wp_bind, wp_gets.
  replace (match replace_first id device (ds_devices s.1) with Some next => next | None => ds_devices s.1 ++ [device] end)
    with (default (ds_devices s.1 ++ [device]) (replace_first id device (ds_devices s.1))) by by case_match.
  apply devices_commit_spec.
Qed.
Lemma remove_spec id s : wp (devices_remove windows to_vec_pretty id)
  (committed (List.filter (λ d, negb (bool_decide (device_id d = Some id))) (ds_devices s.1)) s) s.
Proof. apply wp_bind, wp_gets, devices_commit_spec. Qed.

Inductive Edit := Upsert (device : Value) | Remove (id : string) | Apply (frame : Value).
Definition run_edit (e : Edit) : M (Devices * D) string unit :=
  match e with
  | Upsert device => devices_upsert windows to_vec_pretty device
  | Remove id => devices_remove windows to_vec_pretty id
  | Apply frame => devices_apply windows parse to_vec_pretty frame
  end.
(** The list an edit wants in place of [devices]; [None] when it is refused. *)
Definition upsert_next (device : Value) (devices : list Value) : option (list Value) :=
  (λ id, default (devices ++ [device]) (replace_first id device devices)) <$> device_id device.
Definition remove_next (id : string) (devices : list Value) : list Value :=
  List.filter (λ d, negb (bool_decide (device_id d = Some id))) devices.
Definition edit_next (e : Edit) (devices : list Value) : option (list Value) :=
  match e with
  | Upsert device => upsert_next device devices
  | Remove id => Some (remove_next id devices)
  | Apply frame =>
      id ← as_str (value_index "deviceId" frame);
      if value_is (value_index "type" frame) "device.revoke" then Some (remove_next id devices)
      else
        device ← List.find (λ d, bool_decide (device_id d = Some id)) devices;
        match apply_change parse frame device with
        | inr (Some device) => upsert_next device devices
        | _ => None
        end
  end.
Lemma apply_change_object frame id device : device_id device = Some id → apply_change parse frame device ≠ inr None.
Proof.
  intros Hid. assert (∃ o, device = VObject o) as [o ->].
  { unfold device_id, value_get in Hid. destruct device; try done. eauto. }
  unfold apply_change. repeat case_match; try done; intros [= Hn].
  all: unfold set_present in Hn; by destruct (present frame "label"), (present frame "grants").
Qed.
Lemma upsert_next_spec device s : wp (devices_upsert windows to_vec_pretty device) (λ r s',
  match upsert_next device (ds_devices s.1) with
  | Some next => committed next s r s'
  | None => s' = s ∧ ∃ e, r = Err e
  end) s.
Proof.
  unfold upsert_next. destruct (device_id device) as [id|] eqn:Hid; cbn [fmap option_fmap option_map].
  - by apply upsert_spec.
  - unfold devices_upsert. rewrite Hid. apply wp_bind, wp_ok_or. eauto.
Qed.
Lemma edit_spec e s : wp (run_edit e) (λ r s',
  match edit_next e (ds_devices s.1) with
  | Some next => committed next s r s'
  | None => s' = s ∧ ∃ e, r = Err e
  end) s.
Proof.
  destruct e as [device|id|frame]; cbn [run_edit edit_next]; [apply upsert_next_spec|apply remove_spec|].
  unfold devices_apply. apply wp_bind, wp_ok_or. destruct (as_str _) as [id|]; cbn [mbind option_bind]; [|by eauto].
  destruct (value_is _ _); [apply remove_spec|].
  apply wp_bind, wp_gets, wp_bind, wp_ok_or. destruct (List.find _ _) as [device|] eqn:Hf; cbn [mbind option_bind]; [|by eauto].
  apply List.find_some in Hf as [_ Hid%bool_decide_eq_true].
  pose proof (apply_change_object frame id device Hid) as Hne.
  destruct (apply_change parse frame device) as [err|[device'|]]; [apply wp_throw; by eauto| |done].
  apply wp_bind, wp_expect, upsert_next_spec.
Qed.

(** What is written is read back, by the same serde types. *)
Hypothesis reads_back : ∀ f b, to_vec_pretty f = inr b → from_slice (b +:+ newline) = Some f.
Lemma load_spec dir devices d : stored_as devices (fs_file d (dir, DEVICES_FILE)) →
  wp (devices_load parse from_slice dir) (λ r d', fs_file d' (dir, DEVICES_FILE) = fs_file d (dir, DEVICES_FILE) ∧
    (r = (if Rules.valid_devices parse devices then Ok (mkDevices (dir, DEVICES_FILE) devices)
          else Err "companion-store-corrupt")
     ∨ ∃ text, r = Err ("companion-store-unreadable: " +:+ text))) d.
Proof.
  intros (b & Hb & Hfile). unfold devices_load. apply wp_bind. eapply wp_mono; [apply read_versioned_spec|].
  intros [[f|]|e|] d1 [Hd1 Hr]; [|by rewrite Hfile in Hr| |done].
  - destruct Hr as (_ & b' & Hfile' & Hf). rewrite Hfile in Hfile'. injection Hfile' as <-.
    rewrite (reads_back _ _ Hb) in Hf. injection Hf as <-. cbn [df_devices].
    destruct (Rules.valid_devices parse devices); cbn [negb]; [apply wp_ret; by auto|].
    apply wp_bind. eapply wp_mono; [apply corrupt_spec|]. intros r d2 [-> Hd2]. apply wp_throw. rewrite Hd2. by auto.
  - split; [done|]. destruct Hr as [Hr|(-> & b' & Hfile' & Hv)]; [right; destruct Hr as [text ->]; by exists text|].
    rewrite Hfile in Hfile'. injection Hfile' as <-. by destruct (Hv _ (reads_back _ _ Hb)).
Qed.
End Edits.
