(* ===== verification/Supervisor.v ===== *)
(** * [companion_service.rs]: the desktop supervises the gateway

    [Inner] and the store are behind a lock each, the store's always taken first.  A
    method below is what happens under the locks it holds; a handler that keeps the
    store's lock between two sections under [inner]'s is a chain of [Phase]s. *)
From stdpp Require Import base gmap strings list pretty relations.
From Stdlib Require Import ZArith Lia.
From S2P Require Import Prelude Rust Externals Clock Files DeviceJson Store.
Local Open Scope Z_scope.

(** ** [RecordReader]: the stderr of a child

    [fill_buf] yields a chunk, the empty chunk (or nothing) at the end of the stream, or
    an error ([None]).  A record is given as bytes; [take] decodes them, with U+FFFD for
    what is not UTF-8, which a carriage return never is. *)
Definition STDERR_RECORD_BYTES : nat := 4096.
Record RecordReader := mkReader {
  rr_reader : list (option (list Z));
  rr_record : list Z;
  rr_skipping : bool;
}.
Definition reader_new (chunks : list (option (list Z))) : RecordReader := mkReader chunks [] false.
Fixpoint drop_returns (l : list Z) : list Z := match l with 13 :: l => drop_returns l | _ => l end.
Definition take_record (record : list Z) : list Z := reverse (drop_returns (reverse record)).
Definition absorb (cap : nat) (body record : list Z) (skipping : bool) : list Z * bool :=
  if skipping then (record, true)
  else
    let kept := (length body `min` (cap - length record))%nat in
    (record ++ take kept body, bool_decide (kept < length body)%nat).
Fixpoint reader_next (cap : nat) (record : list Z) (skipping : bool) (chunks : list (option (list Z)))
    : option (list Z) * RecordReader :=
  match chunks with
  | None :: _ => (None, mkReader chunks record skipping)
  | [] | Some [] :: _ =>
      (if bool_decide (record = []) then None else Some (take_record record), mkReader chunks [] false)
  | Some chunk :: rest =>
      let newline := position (λ b, b =? 10) chunk in
      let '(record, skipping) := absorb cap (take (default (length chunk) newline) chunk) record skipping in
      match newline with
      | None => reader_next cap record skipping rest
      | Some at_ =>
          let left := drop (S at_) chunk in
          (Some (take_record record), mkReader (if bool_decide (left = []) then rest else Some left :: rest) [] false)
      end
  end.
Definition record_next (cap : nat) (r : RecordReader) : option (list Z) * RecordReader :=
  reader_next cap r.(rr_record) r.(rr_skipping) r.(rr_reader).
(** The loop of the task that drains it, until [None] *)
Fixpoint drain (fuel cap : nat) (r : RecordReader) : list (list Z) :=
  match fuel with
  | O => []
  | S fuel => match record_next cap r with (None, _) => [] | (Some line, r) => line :: drain fuel cap r end
  end.

(** ** Data *)

Inductive Status := Disabled | Starting | Running (port : Z) | Stopping | Failed (code : string).
#[export] Instance status_eq_dec : EqDecision Status.
Proof. solve_decision. Defined.
(** [frame] is the command as it was sent. *)
Inductive Want :=
| WantPairing
| WantDecision (id kind : string)
| WantDevice (id done : string) (frame : Value).
(** A reply channel is a number. *)
Record Pending := mkPending { pn_want : Want; pn_reply : Z }.
(** [pr_kill]: the kill handle is still here. *)
Record Process := mkProcess { pr_kill : bool }.
Record Inner := mkInner {
  in_status : Status;
  in_generation : Z;
  in_process : option Process;
  in_port : option Z;
  in_until : option string;
  in_ready : bool;
  in_expired : bool;
  in_last_error : option string;
  in_terminal : option Status;
  in_pending : option Pending;
  in_peer_waits : gmap Z Z;
  in_peer_seq : Z;
}.
Definition inner_new : Inner := mkInner Disabled 0 None None None false false None None None ∅ 0.
Definition set_status x i := mkInner x i.(in_generation) i.(in_process) i.(in_port) i.(in_until) i.(in_ready)
  i.(in_expired) i.(in_last_error) i.(in_terminal) i.(in_pending) i.(in_peer_waits) i.(in_peer_seq).
Definition set_generation x i := mkInner i.(in_status) x i.(in_process) i.(in_port) i.(in_until) i.(in_ready)
  i.(in_expired) i.(in_last_error) i.(in_terminal) i.(in_pending) i.(in_peer_waits) i.(in_peer_seq).
Definition set_process x i := mkInner i.(in_status) i.(in_generation) x i.(in_port) i.(in_until) i.(in_ready)
  i.(in_expired) i.(in_last_error) i.(in_terminal) i.(in_pending) i.(in_peer_waits) i.(in_peer_seq).
Definition set_launch port until i := mkInner i.(in_status) i.(in_generation) i.(in_process) port until i.(in_ready)
  i.(in_expired) i.(in_last_error) i.(in_terminal) i.(in_pending) i.(in_peer_waits) i.(in_peer_seq).
Definition set_ready x i := mkInner i.(in_status) i.(in_generation) i.(in_process) i.(in_port) i.(in_until) x
  i.(in_expired) i.(in_last_error) i.(in_terminal) i.(in_pending) i.(in_peer_waits) i.(in_peer_seq).
Definition set_expired x i := mkInner i.(in_status) i.(in_generation) i.(in_process) i.(in_port) i.(in_until) i.(in_ready)
  x i.(in_last_error) i.(in_terminal) i.(in_pending) i.(in_peer_waits) i.(in_peer_seq).
Definition set_last_error x i := mkInner i.(in_status) i.(in_generation) i.(in_process) i.(in_port) i.(in_until) i.(in_ready)
  i.(in_expired) x i.(in_terminal) i.(in_pending) i.(in_peer_waits) i.(in_peer_seq).
Definition set_terminal x i := mkInner i.(in_status) i.(in_generation) i.(in_process) i.(in_port) i.(in_until) i.(in_ready)
  i.(in_expired) i.(in_last_error) x i.(in_pending) i.(in_peer_waits) i.(in_peer_seq).
Definition set_pending x i := mkInner i.(in_status) i.(in_generation) i.(in_process) i.(in_port) i.(in_until) i.(in_ready)
  i.(in_expired) i.(in_last_error) i.(in_terminal) x i.(in_peer_waits) i.(in_peer_seq).
Definition set_waits x i := mkInner i.(in_status) i.(in_generation) i.(in_process) i.(in_port) i.(in_until) i.(in_ready)
  i.(in_expired) i.(in_last_error) i.(in_terminal) i.(in_pending) x i.(in_peer_seq).
Definition set_seq x i := mkInner i.(in_status) i.(in_generation) i.(in_process) i.(in_port) i.(in_until) i.(in_ready)
  i.(in_expired) i.(in_last_error) i.(in_terminal) i.(in_pending) i.(in_peer_waits) x.

(** What others see of the supervisor, in order; a channel of [peers] that is dropped
    is told [None]. *)
Inductive Did :=
| DidEmit (event : Value)
| DidSend (generation : Z) (frame : Value)
| DidReply (reply : Z) (result : string + Value)
| DidPeers (reply : Z) (snapshot : option Value)
| DidKill (generation : Z)
| DidStopped.

(** [companion_push.rs], which keeps the subscriptions *)
Class DesktopPush (P : Type) := {
  push_forget : string → P → bool * P;
  push_unsubscribe : string → string → P → bool * P;
  push_subscription : string → Value → P → bool * P;
  push_listing : P → Value;
  push_event : P → Value;
  push_request : Value → Value → P → bool * P;
}.

(** [CompanionManager] *)
Record Manager (D P : Type) := mkManager {
  mg_inner : Inner;
  mg_store : option Devices;
  mg_disk : D;
  mg_push : P;
  mg_did : list Did;
}.
Arguments mkManager {D P}.
Arguments mg_inner {D P}.
Arguments mg_store {D P}.
Arguments mg_disk {D P}.
Arguments mg_push {D P}.
Arguments mg_did {D P}.
Definition on_inner {D P} (f : Inner → Inner) (m : Manager D P) : Manager D P :=
  mkManager (f m.(mg_inner)) m.(mg_store) m.(mg_disk) m.(mg_push) m.(mg_did).
Definition set_store {D P} x (m : Manager D P) : Manager D P :=
  mkManager m.(mg_inner) x m.(mg_disk) m.(mg_push) m.(mg_did).
Definition set_disk {D P} x (m : Manager D P) : Manager D P :=
  mkManager m.(mg_inner) m.(mg_store) x m.(mg_push) m.(mg_did).
Definition set_push {D P} x (m : Manager D P) : Manager D P :=
  mkManager m.(mg_inner) m.(mg_store) m.(mg_disk) x m.(mg_did).
Definition did {D P} (x : Did) (m : Manager D P) : Manager D P :=
  mkManager m.(mg_inner) m.(mg_store) m.(mg_disk) m.(mg_push) (m.(mg_did) ++ [x]).

(** ** Values *)

Definition status_value (s : Status) : Value :=
  match s with
  | Disabled => VObject [("state", VString "disabled")]
  | Starting => VObject [("state", VString "starting")]
  | Running port => VObject [("state", VString "running"); ("port", VNumber port)]
  | Stopping => VObject [("state", VString "stopping")]
  | Failed code => VObject [("state", VString "failed"); ("code", VString code)]
  end.
Definition status_event (s : Status) : Value := VObject [("type", VString "status"); ("status", status_value s)].
Definition device_summary (device : Value) : Value :=
  VObject ((λ k, (k, value_index k device)) <$> ["deviceId"; "label"; "grants"; "locked"; "createdAt"; "lastSeen"]).
Definition SHUTDOWN_FRAME : Value := VObject [("v", VNumber 1); ("type", VString "shutdown")].

Definition decided (kind : string) (event : Value) : bool :=
  if bool_decide (kind = "pairing.approve") then value_is (value_index "state" event) "approved"
  else if bool_decide (kind = "pairing.reject") then
    value_is (value_index "state" event) "rejected" && value_is (value_index "reason" event) "rejected"
  else if bool_decide (kind = "pairing.cancel") then
    value_is (value_index "state" event) "rejected" && value_is (value_index "reason" event) "cancelled"
  else false.

Section Reflects.
Context (parse_from_rfc3339 : string → option (Z * Z * Timestamp)).
Definition until_instant (grants : Value) : option (option Timestamp) :=
  (λ until, snd <$> parse_from_rfc3339 until) <$> as_str (value_index "until" (value_index "control" grants)).
Definition reflects (frame device : Value) : bool :=
  if value_is (value_index "type" frame) "device.unlock" then
    bool_decide (as_bool (value_index "locked" device) = Some false)
  else if value_is (value_index "type" frame) "device.update" then
    let label := value_index "label" frame in
    let grants := value_index "grants" frame in
    (is_null label || value_eqb (value_index "label" device) label)
    && (is_null grants
        || (value_eqb (value_index "full" (value_index "grants" device)) (value_index "full" grants)
            && bool_decide (until_instant (value_index "grants" device) = until_instant grants)))
  else false.
End Reflects.

(** ** Sections under the lock of [inner] *)
Section Supervisor.
Context `{Base64, Fs D, DesktopPush P} (windows : bool).
Context (parse_from_rfc3339 : string → option (Z * Z * Timestamp)).
Context (from_slice : string → option DevicesFile) (to_vec_pretty : DevicesFile → string + string).
Context (dir : string).
Abbreviation Mgr := (Manager D P).
Abbreviation mgr_m E A := (M Mgr E A).
Implicit Types (m : Mgr) (i : Inner).

Definition emit (event : Value) : Mgr → Mgr := did (DidEmit event).
Definition reply_pending (result : string + Value) m : Mgr :=
  match m.(mg_inner).(in_pending) with
  | Some p => on_inner (set_pending None) (did (DidReply p.(pn_reply) result) m)
  | None => m
  end.
(** [resolve] *)
Definition resolve (matches : Want → bool) (result : string + Value) m : Mgr :=
  if match m.(mg_inner).(in_pending) with Some p => matches p.(pn_want) | None => false end
  then reply_pending result m else m.
(** [halt]: what it returns is the kill handle, if it was still there. *)
Definition halt (code : string) m : option Z * Mgr :=
  let m := reply_pending (inl code) m in
  let m := on_inner (λ i, set_status (Failed code) (set_terminal (Some (Failed code)) i)) m in
  let i := m.(mg_inner) in
  (match i.(in_process) with Some p => if p.(pr_kill) then Some i.(in_generation) else None | None => None end,
   on_inner (λ i, set_process ((λ _, mkProcess false) <$> i.(in_process)) i) m).

Definition idle i : bool :=
  bool_decide (i.(in_process) = None) && match i.(in_status) with Disabled | Failed _ => true | _ => false end.
Definition is_running i : bool := match i.(in_status) with Running _ => true | _ => false end.

(** [notify] *)
Definition notify (frame : Value) m : Mgr :=
  if bool_decide (is_Some m.(mg_inner).(in_process)) && is_running m.(mg_inner)
  then did (DidSend m.(mg_inner).(in_generation) frame) m else m.
Definition push_devices m : Mgr :=
  notify (VObject [("v", VNumber 1); ("type", VString "push.devices"); ("devices", push_listing m.(mg_push))]) m.

(** [start], up to [spawn] *)
Definition start m : (string + Z) * Mgr :=
  let i := m.(mg_inner) in
  if bool_decide (is_Some i.(in_process)) || bool_decide (i.(in_status) ∈ [Starting; Stopping])
  then (inl "companion-already-running", m)
  else (inr i.(in_generation), emit (status_event Starting) (on_inner (λ i, set_status Starting (set_expired false i)) m)).
(** [spawn]: what a load or a start that failed does *)
Definition spawn_failed (expected : Z) (code : string) m : Mgr :=
  let i := m.(mg_inner) in
  if bool_decide (i.(in_generation) = expected) && bool_decide (i.(in_status) = Starting)
  then emit (status_event (Failed code)) (on_inner (set_status (Failed code)) m) else m.
(** [spawn]: the process is there; both locks are held.  [None] is
    ["companion-cancelled"]. *)
Definition launch_port (init : Value) : option Z :=
  port ← as_u64 (value_index "port" (value_index "loopback" (value_index "listeners" init)));
  if port =? 0 then None else Some port.
Definition spawn_install (expected : Z) (init : Value) (devices : Devices) (frame : Value) m : option Mgr :=
  let i := m.(mg_inner) in
  if negb (bool_decide (i.(in_generation) = expected)) || negb (bool_decide (i.(in_status) = Starting)) then None
  else
    let m := set_store (Some devices) m in
    let m := on_inner (λ i,
      set_terminal None (set_last_error None (set_ready false
        (set_launch (launch_port init) (as_str (value_index "enableUntil" (value_index "policy" init)))
          (set_process (Some (mkProcess true)) (set_generation (i.(in_generation) + 1) i)))))) m in
    Some (did (DidSend (expected + 1) frame) m).
(** The watchdog of [spawn], when its time has come *)
Definition watchdog (generation : Z) m : option Z * Mgr :=
  let i := m.(mg_inner) in
  if negb (bool_decide (i.(in_generation) = generation)) || i.(in_ready) || bool_decide (is_Some i.(in_terminal))
  then (None, m)
  else
    let '(kill, m) := halt "companion-start-timeout" m in
    (kill, emit (status_event m.(mg_inner).(in_status)) m).

(** [on_exit] *)
Definition on_exit (generation : Z) m : Mgr :=
  let i := m.(mg_inner) in
  if negb (bool_decide (i.(in_generation) = generation)) then m
  else
    let m := on_inner (λ i, set_launch i.(in_port) None (set_process None (set_generation (i.(in_generation) + 1) i))) m in
    let m := reply_pending (inl "companion-exited") m in
    let m := foldr (λ e, did (DidPeers e.2 None)) m (map_to_list m.(mg_inner).(in_peer_waits)) in
    let m := on_inner (set_waits ∅) m in
    let requested := bool_decide (i.(in_terminal) = Some Disabled) in
    let status := match i.(in_terminal) with
      | Some terminal => terminal
      | None =>
          if i.(in_expired) then Disabled
          else if negb i.(in_ready) then Failed (default "companion-exited" i.(in_last_error))
          else Failed "companion-crashed"
      end in
    let m := emit (status_event status) (on_inner (λ i, set_status status (set_terminal None i)) m) in
    if requested then m else did DidStopped m.

(** [stop], before and after its wait; the kill handle goes with the wait. *)
Definition stop m : (option Z * option Z) * Mgr :=
  let i := m.(mg_inner) in
  match i.(in_process) with
  | None =>
      ((None, None), emit (status_event Disabled)
         (on_inner (λ i, set_status Disabled (set_generation (i.(in_generation) + 1) i)) m))
  | Some p =>
      let m := did (DidSend i.(in_generation) SHUTDOWN_FRAME) m in
      ((Some i.(in_generation), if p.(pr_kill) then Some i.(in_generation) else None),
       emit (status_event Stopping)
         (on_inner (λ i, set_status Stopping (set_terminal (Some Disabled) (set_process (Some (mkProcess false)) i))) m))
  end.
Definition send_kill (kill : option Z) m : Mgr := match kill with Some g => did (DidKill g) m | None => m end.

(** [fail] *)
Definition fail (code : string) m : option Z * Mgr :=
  let i := m.(mg_inner) in
  if bool_decide (i.(in_process) = None) || negb (match i.(in_status) with Starting | Running _ => true | _ => false end)
  then (None, m)
  else
    let '(kill, m) := halt code m in
    (kill, emit (status_event m.(mg_inner).(in_status)) m).
(** [clear_failure] *)
Definition clear_failure m : Mgr :=
  let i := m.(mg_inner) in
  if bool_decide (i.(in_process) = None) && match i.(in_status) with Failed _ => true | _ => false end
  then emit (status_event Disabled) (on_inner (set_status Disabled) m) else m.

(** [request], up to its wait: the generation it waits for; and when it timed out *)
Definition request (frame : Value) (want : Want) (reply : Z) m : (string + Z) * Mgr :=
  let i := m.(mg_inner) in
  if negb (bool_decide (is_Some i.(in_process)) && is_running i) then (inl "companion-not-running", m)
  else (inr i.(in_generation),
        on_inner (set_pending (Some (mkPending want reply))) (did (DidSend i.(in_generation) frame) m)).
Definition request_timeout (generation : Z) m : option Z * Mgr :=
  let m := on_inner (set_pending None) m in
  if bool_decide (m.(mg_inner).(in_generation) = generation) then
    let '(kill, m) := halt "companion-timeout" m in
    (kill, emit (status_event m.(mg_inner).(in_status)) m)
  else (None, m).
(** [device_command]: what it wants *)
Definition device_want (frame : Value) : string + (Want * Value) :=
  match as_str (value_index "deviceId" frame) with
  | None => inl "companion-device-invalid"
  | Some id =>
      match (if value_is (value_index "type" frame) "device.revoke" then Some "device.revoked"
             else if value_is (value_index "type" frame) "device.update"
                     || value_is (value_index "type" frame) "device.unlock" then Some "device.updated"
             else None), value_set "v" (VNumber 1) frame with
      | Some done, Some frame => inr (WantDevice id done frame, frame)
      | _, _ => inl "companion-device-invalid"
      end
  end.

(** [peers], up to its wait; and after it *)
Definition peers (reply : Z) m : (string + Z) * Mgr :=
  let m := on_inner (λ i, set_seq (i.(in_peer_seq) + 1) i) m in
  let i := m.(mg_inner) in
  let id := i.(in_peer_seq) in
  if negb (bool_decide (is_Some i.(in_process)) && is_running i) then (inl "companion-not-running", m)
  else
    let frame := VObject [("v", VNumber 1); ("type", VString "peers.list"); ("requestId", VNumber id)] in
    (inr id, on_inner (λ i, set_waits (<[id := reply]> i.(in_peer_waits)) i) (did (DidSend i.(in_generation) frame) m)).
Definition peers_done (id : Z) m : Mgr := on_inner (λ i, set_waits (delete id i.(in_peer_waits)) i) m.

(** [shutdown_after_closing], once the node no longer forwards *)
Definition shutdown (generation : Z) m : Mgr :=
  let i := m.(mg_inner) in
  if bool_decide (is_Some i.(in_process)) && bool_decide (i.(in_generation) = generation)
  then did (DidSend i.(in_generation) SHUTDOWN_FRAME) m else m.
(** [push_init]: the listing before and after [Push::init] are the argument. *)
Definition push_init (before : Value) m : Mgr :=
  if value_eqb (push_listing m.(mg_push)) before then m else emit (push_event m.(mg_push)) (push_devices m).

(** ** Handlers that hold the store's lock *)

(** The derived [Deserialize] of [PeersSnapshot], which ignores other fields *)
Definition peer_row (v : Value) : option unit :=
  o ← as_object v; _ ← required as_u64 "peerId" o; _ ← required as_str "deviceId" o; Some tt.
Definition stream_row (v : Value) : option unit :=
  o ← as_object v;
  _ ← required as_str "stream" o; _ ← required as_str "deviceId" o; _ ← required as_u64 "peerId" o;
  _ ← required as_str "session" o; _ ← required as_str "scope" o; _ ← optional as_str "target" o; Some tt.
Definition peers_snapshot (v : Value) : option unit :=
  o ← as_object v;
  _ ← required (λ v, l ← as_array v; mapM peer_row l) "peers" o;
  _ ← required (λ v, l ← as_array v; mapM stream_row l) "streams" o; Some tt.

(** What [on_event] does once it has dropped the store's lock *)
Record Effects := mkEffects { ef_outgoing : list Value; ef_kill : option Z; ef_expiring : bool }.
(** Between two sections: what the handler is about to do, with its local variables *)
Inductive Phase :=
| OnEvent (event : Value)
| OnDevice (event : Value)
| OnSaved (event : Value) (id : option string) (saved : string + unit) (unsubscribed : bool)
| OnDeferred (event : Value)
| OnApply (event frame : Value)
| OnApplied (event : Value) (saved : string + unit)
| OnSubscription (event : Value)
| OnAck (event : Value) (changed : bool) (outgoing : list Value)
| OnPushRequest (event : Value)
| OnOther (event : Value)
| OnEdit (frame : Value)
| OnEditing (frame : Value).
Inductive Turn :=
| Keep (p : Phase)
| Release (e : Effects)
| Edited (frame : Value) (r : string + unit).

Definition in_store (op : M (Devices * D) string unit) : mgr_m Empty_set (string + unit) :=
  let! m := gets id in
  match m.(mg_store) with
  | None => ret (inl "companion-device-invalid")
  | Some devices =>
      match op (devices, m.(mg_disk)) with
      | (Panic, _) => panic
      | (Ok _, (devices, disk)) => modify (λ m, set_disk disk (set_store (Some devices) m));; ret (inr tt)
      | (Err e, (devices, disk)) => modify (λ m, set_disk disk (set_store (Some devices) m));; ret (inl e)
      end
  end.
Definition run {A} (f : Mgr → A * Mgr) : mgr_m Empty_set A := λ m, let '(a, m) := f m in (Ok a, m).
Definition run_push {A} (f : P → A * P) : mgr_m Empty_set A :=
  run (λ m, let '(a, p) := f m.(mg_push) in (a, set_push p m)).

Definition event_kind (event : Value) : string := default "" (as_str (value_index "type" event)).
Definition is_device_kind (kind : string) : bool :=
  bool_decide (kind ∈ ["device.registered"; "device.updated"; "device.revoked"]).
Definition event_id (event : Value) : option string :=
  if bool_decide (event_kind event = "device.revoked") then as_str (value_index "deviceId" event)
  else device_id (value_index "device" event).
(** What a device event does to the store *)
Definition device_change (event : Value) : M (Devices * D) string unit :=
  let! id := ok_or "companion-device-invalid" (event_id event) in
  if bool_decide (event_kind event = "device.revoked") then devices_remove windows to_vec_pretty id
  else devices_upsert windows to_vec_pretty (value_index "device" event).
(** The command that a [command.deferred] is about *)
Definition deferred_frame (event : Value) (want : Want) : option Value :=
  match want with
  | WantDevice id _ frame =>
      if bool_decide (id = default "" (as_str (value_index "target" event)))
         && value_eqb (value_index "type" frame) (value_index "command" event) then Some frame else None
  | _ => None
  end.
(** Failing to persist halts the gateway. *)
Definition halted (code : string) : mgr_m Empty_set Effects :=
  let! kill := run (halt code) in
  let! m := gets id in
  ret (mkEffects [status_event m.(mg_inner).(in_status)] kill false).
Definition done (outgoing : list Value) : mgr_m Empty_set Turn := ret (Release (mkEffects outgoing None false)).

(** The other events, in one section of [inner] *)
Definition on_other (event : Value) : mgr_m Empty_set Turn :=
  let kind := event_kind event in
  let! m := gets id in
  let i := m.(mg_inner) in
  if bool_decide (kind = "ready") && bool_decide (is_Some i.(in_process)) && bool_decide (i.(in_terminal) = None) then
    let port := default 0 (as_u64 (value_index "loopback" (value_index "ports" event))) in
    if match i.(in_port) with Some expected => negb (expected =? port) | None => false end then
      let! e := halted "companion-port-mismatch" in ret (Release e)
    else
      modify (on_inner (λ i, set_status (Running (port mod 65536)) (set_ready true i)));;
      done [status_event (Running (port mod 65536))]
  else if bool_decide (kind = "peers.snapshot") then
    match (id ← as_u64 (value_index "requestId" event); reply ← i.(in_peer_waits) !! id; Some (id, reply)) with
    | None => done []
    | Some (id, reply) =>
        modify (on_inner (λ i, set_waits (delete id i.(in_peer_waits)) i));;
        modify (did (DidPeers reply ((λ _, event) <$> peers_snapshot event)));;
        done []
    end
  else if bool_decide (kind = "pairing.created") then
    modify (resolve (λ want, match want with WantPairing => true | _ => false end) (inr event));;
    done []
  else if bool_decide (kind = "pairing.state") then
    let id := default "" (as_str (value_index "pairingId" event)) in
    modify (resolve (λ want, match want with
      | WantDecision wanted kind => bool_decide (wanted = id) && decided kind event
      | _ => false
      end) (inr event));;
    done [event]
  else if bool_decide (kind = "error") then
    let code := default "companion-error" (as_str (value_index "code" event)) in
    let expiring := bool_decide (code = "policy-expired") in
    when expiring (modify (on_inner (set_expired true)));;
    modify (reply_pending (inl code));;
    modify (on_inner (set_last_error (Some code)));;
    ret (Release (mkEffects [VObject [("type", VString "error"); ("code", VString code)]] None expiring))
  else done [event].

(** [on_event] up to its check, then by kind of event; [edit_stopped] in two sections *)
Definition on_event (generation : Z) (event : Value) : mgr_m Empty_set Turn :=
  let kind := event_kind event in
  let! m := gets id in
  let i := m.(mg_inner) in
  if negb (bool_decide (i.(in_generation) = generation))
     || match i.(in_terminal) with Some (Failed _) => true | _ => false end then done []
  else ret (Keep (if is_device_kind kind then OnDevice event
                  else if bool_decide (kind = "command.deferred") then OnDeferred event
                  else if bool_decide (kind = "push.subscription") then OnSubscription event
                  else if bool_decide (kind = "push.request") then OnPushRequest event
                  else OnOther event)).
Definition on_device (event : Value) : mgr_m Empty_set Turn :=
  let revoked := bool_decide (event_kind event = "device.revoked") in
  let id := event_id event in
  let! saved := in_store (device_change event) in
  let! unsubscribed := (match id with
    | Some id => if revoked && bool_decide (saved = inr tt) then run_push (push_forget id) else ret false
    | None => ret false
    end) in
  ret (Keep (OnSaved event id saved unsubscribed)).
Definition on_saved (event : Value) (id : option string) (saved : string + unit) (unsubscribed : bool) : mgr_m Empty_set Turn :=
  match saved with
  | inl code => let! e := halted code in ret (Release e)
  | inr _ =>
      let kind := event_kind event in
      let id := default "" id in
      modify (resolve (λ want, match want with
        | WantDevice wanted done frame =>
            bool_decide (wanted = id) && bool_decide (done = kind)
            && (negb (bool_decide (kind = "device.updated"))
                || reflects parse_from_rfc3339 frame (value_index "device" event))
        | _ => false
        end) (inr event));;
      let! m := gets Datatypes.id in
      done ([if bool_decide (kind = "device.revoked") then event
             else VObject [("type", VString kind); ("device", device_summary (value_index "device" event))]]
            ++ if unsubscribed then [push_event m.(mg_push)] else [])
  end.
Definition on_deferred (event : Value) : mgr_m Empty_set Turn :=
  let! m := gets id in
  match (p ← m.(mg_inner).(in_pending); deferred_frame event p.(pn_want)) with
  | Some frame => ret (Keep (OnApply event frame))
  | None =>
      let target := default "" (as_str (value_index "target" event)) in
      modify (resolve (λ want, match want with
        | WantDecision id kind => bool_decide (id = target) && value_is (value_index "command" event) kind
        | _ => false
        end) (inr event));;
      done [event]
  end.
Definition on_apply (event frame : Value) : mgr_m Empty_set Turn :=
  let! saved := in_store (devices_apply windows parse_from_rfc3339 to_vec_pretty frame) in
  ret (Keep (OnApplied event saved)).
Definition on_applied (event : Value) (saved : string + unit) : mgr_m Empty_set Turn :=
  match saved with
  | inl code =>
      let! e := halted code in ret (Release (mkEffects (e.(ef_outgoing) ++ [event]) e.(ef_kill) false))
  | inr _ =>
      modify (resolve (λ want, bool_decide (is_Some (deferred_frame event want))) (inr event));;
      done [event]
  end.
Definition on_subscription (event : Value) : mgr_m Empty_set Turn :=
  let id := default "" (as_str (value_index "deviceId" event)) in
  let! m := gets Datatypes.id in
  let known := match m.(mg_store) with
    | Some devices => existsb (λ d, bool_decide (device_id d = Some id)) devices.(ds_devices)
    | None => false
    end in
  let! changed := (if negb known then ret false
    else if is_null (value_index "subscription" event) then
      match as_str (value_index "endpointId" event) with
      | Some endpoint => run_push (push_unsubscribe id endpoint)
      | None => ret false
      end
    else run_push (push_subscription id (value_index "subscription" event))) in
  if changed then
    modify push_devices;;
    let! m := gets Datatypes.id in
    ret (Keep (OnAck event true [push_event m.(mg_push)]))
  else ret (Keep (OnAck event false [])).
Definition on_ack (event : Value) (changed : bool) (outgoing : list Value) : mgr_m Empty_set Turn :=
  match as_u64 (value_index "requestId" event) with
  | Some request =>
      modify (notify (VObject [("v", VNumber 1); ("type", VString "push.ack");
                               ("requestId", VNumber request); ("stored", VBool changed)]));;
      done outgoing
  | None => done outgoing
  end.
Definition on_push_request (event : Value) : mgr_m Empty_set Turn :=
  let! _ := run_push (push_request (value_index "deviceIds" event) (value_index "payload" event)) in
  done [].
Definition edit_begin (frame : Value) : mgr_m Empty_set Turn :=
  let! m := gets id in
  if idle m.(mg_inner) then ret (Keep (OnEditing frame)) else ret (Edited frame (inl "companion-busy")).
Definition edit_stopped (frame : Value) : mgr_m Empty_set Turn :=
  let! m := gets id in
  match devices_load parse_from_rfc3339 from_slice dir m.(mg_disk) with
  | (Panic, _) => panic
  | (Err e, disk) => modify (set_disk disk);; ret (Edited frame (inl e))
  | (Ok devices, disk) =>
      match devices_apply windows parse_from_rfc3339 to_vec_pretty frame (devices, disk) with
      | (Panic, _) => panic
      | (Err e, (_, disk)) => modify (set_disk disk);; ret (Edited frame (inl e))
      | (Ok _, (_, disk)) =>
          modify (set_disk disk);;
          when (value_is (value_index "type" frame) "device.revoke")
            (let! forgotten := run_push (push_forget (default "" (as_str (value_index "deviceId" frame)))) in
             when forgotten (let! m := gets id in modify (emit (push_event m.(mg_push)))));;
          ret (Edited frame (inr tt))
      end
  end.

Definition hold (generation : Z) (p : Phase) : mgr_m Empty_set Turn :=
  match p with
  | OnEvent event => on_event generation event
  | OnDevice event => on_device event
  | OnSaved event id saved unsubscribed => on_saved event id saved unsubscribed
  | OnDeferred event => on_deferred event
  | OnApply event frame => on_apply event frame
  | OnApplied event saved => on_applied event saved
  | OnSubscription event => on_subscription event
  | OnAck event changed outgoing => on_ack event changed outgoing
  | OnPushRequest event => on_push_request event
  | OnOther event => on_other event
  | OnEdit frame => edit_begin frame
  | OnEditing frame => edit_stopped frame
  end.
End Supervisor.

(** * The supervisor, its tasks and its callers, as a system

    One section of the supervisor at a time: of a caller, of a task it spawned, or of
    the handler that holds the store's lock. *)
(** What the supervisor has yet to do, with local variables: [spawn] before and after
    it read the file, the end of [on_event], the tasks of [kill_after_closing] and
    [shutdown_after_closing], the wait of [stop], of a request, of [peers], and the
    watchdog. *)
Inductive Task :=
| TaskSpawn (expected : Z) (init : Value)
| TaskInstall (expected : Z) (init : Value) (devices : Devices)
| TaskAfter (generation : Z) (e : Effects)
| TaskKill (generation : Z)
| TaskShutdown (generation : Z)
| TaskStop (generation : Z) (kill : option Z)
| TaskRequest (generation : Z)
| TaskPeers (id : Z)
| TaskWatchdog (generation : Z).
Definition is_spawning (t : Task) : bool := match t with TaskSpawn _ _ | TaskInstall _ _ _ => true | _ => false end.
Definition is_request (t : Task) : bool := match t with TaskRequest _ => true | _ => false end.
Definition is_edit (p : Phase) : bool := match p with OnEdit _ | OnEditing _ => true | _ => false end.

(** [sy_readers]: the generations whose process was started; each has a reader. *)
Record Sys (D P : Type) := mkSys {
  sy_mgr : Manager D P;
  sy_hold : option (Z * Phase);
  sy_tasks : list Task;
  sy_readers : list Z;
  sy_next : Z;
  sy_edited : list (Value * (string + unit));
}.
Arguments mkSys {D P}.
Arguments sy_mgr {D P}.
Arguments sy_hold {D P}.
Arguments sy_tasks {D P}.
Arguments sy_readers {D P}.
Arguments sy_next {D P}.
Arguments sy_edited {D P}.

Inductive Action (P : Type) :=
| ActStart (init : Value)
| ActStop
| ActFail (code : string)
| ActClear
| ActNotify (frame : Value)
| ActRequest (frame : Value) (want : Want)
| ActPeers
| ActEdit (frame : Value)
| ActEvent (generation : Z) (event : Value)
| ActHold
| ActExit (generation : Z)
| ActPush (p : P)
| ActPushInit (before : Value)
| ActTask (k : nat) (late : bool).
Arguments ActStart {P}.
Arguments ActStop {P}.
Arguments ActFail {P}.
Arguments ActClear {P}.
Arguments ActNotify {P}.
Arguments ActRequest {P}.
Arguments ActPeers {P}.
Arguments ActEdit {P}.
Arguments ActEvent {P}.
Arguments ActHold {P}.
Arguments ActExit {P}.
Arguments ActPush {P}.
Arguments ActPushInit {P}.
Arguments ActTask {P}.

Section System.
Context `{Base64, Fs D, DesktopPush P} (windows : bool).
Context (parse_from_rfc3339 : string → option (Z * Z * Timestamp)).
Context (from_slice : string → option DevicesFile) (to_vec_pretty : DevicesFile → string + string).
Context (dir : string).
Abbreviation Mgr := (Manager D P).
Abbreviation System := (Sys D P).
Implicit Types (m : Mgr) (s : System).

Definition with_mgr m s : System := mkSys m s.(sy_hold) s.(sy_tasks) s.(sy_readers) s.(sy_next) s.(sy_edited).
Definition with_hold h s : System := mkSys s.(sy_mgr) h s.(sy_tasks) s.(sy_readers) s.(sy_next) s.(sy_edited).
Definition with_tasks l s : System := mkSys s.(sy_mgr) s.(sy_hold) l s.(sy_readers) s.(sy_next) s.(sy_edited).
Definition spawn_task (t : Task) s : System := with_tasks (s.(sy_tasks) ++ [t]) s.
Definition kill_task (kill : option Z) s : System := match kill with Some g => spawn_task (TaskKill g) s | None => s end.

(** [change_device] and [companion_enable] hold [ops]: the one while it edits, the
    other from before [start] until the gateway is ready or was given up. *)
Definition ops_free s : bool :=
  negb (existsb is_spawning s.(sy_tasks)) && match s.(sy_hold) with Some (_, p) => negb (is_edit p) | None => true end.

(** A task, when its turn has come; [late] when what it waits for did not happen. *)
Definition run_task (t : Task) (late : bool) s : option System :=
  let m := s.(sy_mgr) in
  match t with
  | TaskSpawn expected init =>
      match devices_load parse_from_rfc3339 from_slice dir m.(mg_disk) with
      | (Ok devices, disk) => Some (spawn_task (TaskInstall expected init devices) (with_mgr (set_disk disk m) s))
      | (Err code, disk) => Some (with_mgr (spawn_failed expected code (set_disk disk m)) s)
      | (Panic, _) => None
      end
  | TaskInstall expected init devices =>
      if late then Some (with_mgr (spawn_failed expected "companion-unavailable" m) s)
      else if bool_decide (is_Some s.(sy_hold)) then None
      else match value_set "devices" (VArray devices.(ds_devices)) init with
           | None => None
           | Some frame =>
               match spawn_install expected init devices frame m with
               | None => Some s
               | Some m =>
                   Some (spawn_task (TaskWatchdog (expected + 1))
                     (mkSys m None s.(sy_tasks) (s.(sy_readers) ++ [expected + 1]) s.(sy_next) s.(sy_edited)))
               end
           end
  | TaskAfter generation e =>
      let s := with_mgr (foldl (λ m v, emit v m) m e.(ef_outgoing)) s in
      let s := kill_task e.(ef_kill) s in
      Some (if e.(ef_expiring) then spawn_task (TaskShutdown generation) s else s)
  | TaskKill generation => Some (with_mgr (did (DidKill generation) m) s)
  | TaskShutdown generation => Some (with_mgr (shutdown generation m) s)
  | TaskStop _ kill => Some (with_mgr (if late then send_kill kill m else m) s)
  | TaskRequest generation =>
      if late then let '(kill, m) := request_timeout generation m in Some (kill_task kill (with_mgr m s))
      else if bool_decide (m.(mg_inner).(in_pending) = None) then Some s else None
  | TaskPeers id => Some (with_mgr (peers_done id m) s)
  | TaskWatchdog generation =>
      let '(kill, m) := watchdog generation m in Some (kill_task kill (with_mgr m s))
  end.

Definition act (a : Action P) s : option System :=
  let m := s.(sy_mgr) in
  match a with
  | ActStart init =>
      if negb (ops_free s) then None
      else match start m with
           | (inl _, _) => Some s
           | (inr expected, m) => Some (spawn_task (TaskSpawn expected init) (with_mgr m s))
           end
  | ActStop =>
      let '((exited, kill), m) := stop m in
      Some (match exited with Some g => spawn_task (TaskStop g kill) (with_mgr m s) | None => with_mgr m s end)
  | ActFail code => let '(kill, m) := fail code m in Some (kill_task kill (with_mgr m s))
  | ActClear => Some (with_mgr (clear_failure m) s)
  | ActNotify frame => Some (with_mgr (notify frame m) s)
  | ActRequest frame want =>
      if existsb is_request s.(sy_tasks) then None
      else match request frame want s.(sy_next) m with
           | (inl _, _) => Some s
           | (inr g, m) =>
               Some (spawn_task (TaskRequest g)
                 (mkSys m s.(sy_hold) s.(sy_tasks) s.(sy_readers) (s.(sy_next) + 1) s.(sy_edited)))
           end
  | ActPeers =>
      match peers s.(sy_next) m with
      | (inl _, m) => Some (with_mgr m s)
      | (inr id, m) =>
          Some (spawn_task (TaskPeers id)
            (mkSys m s.(sy_hold) s.(sy_tasks) s.(sy_readers) (s.(sy_next) + 1) s.(sy_edited)))
      end
  | ActEdit frame =>
      if bool_decide (is_Some s.(sy_hold)) || negb (ops_free s) then None else Some (with_hold (Some (0, OnEdit frame)) s)
  | ActEvent generation event =>
      if bool_decide (is_Some s.(sy_hold)) || negb (bool_decide (generation ∈ s.(sy_readers))) then None
      else Some (with_hold (Some (generation, OnEvent event)) s)
  | ActHold =>
      match s.(sy_hold) with
      | None => None
      | Some (g, p) =>
          match hold windows parse_from_rfc3339 from_slice to_vec_pretty dir g p m with
          | (Ok (Keep p), m) => Some (with_hold (Some (g, p)) (with_mgr m s))
          | (Ok (Release e), m) => Some (spawn_task (TaskAfter g e) (with_hold None (with_mgr m s)))
          | (Ok (Edited frame r), m) =>
              Some (mkSys m None s.(sy_tasks) s.(sy_readers) s.(sy_next) (s.(sy_edited) ++ [(frame, r)]))
          | (Panic, _) | (Err _, _) => None
          end
      end
  | ActExit generation =>
      if bool_decide (generation ∈ s.(sy_readers)) then Some (with_mgr (on_exit generation m) s) else None
  | ActPush p => Some (with_mgr (set_push p m) s)
  | ActPushInit before => Some (with_mgr (push_init before m) s)
  | ActTask k late =>
      t ← s.(sy_tasks) !! k; run_task t late (with_tasks (delete k s.(sy_tasks)) s)
  end.

Definition sup_step s s' : Prop := ∃ a, act a s = Some s'.
Definition sup_start (d : D) (p : P) : System := mkSys (mkManager inner_new None d p []) None [] [] 0 [].
Definition sup_reachable s : Prop := ∃ d p, rtc sup_step (sup_start d p) s.

(** A schedule, computed *)
Fixpoint acts (l : list (Action P)) s : option System :=
  match l with [] => Some s | a :: l => s ← act a s; acts l s end.
Lemma acts_rtc l s s' : acts l s = Some s' → rtc sup_step s s'.
Proof.
  revert s. induction l as [|a l IH]; intros s; cbn [acts].
  - by intros [= ->].
  - intros Hs. apply bind_Some in Hs as (s1 & Hs1 & Hs). eapply rtc_l; [by exists a|by apply IH].
Qed.
End System.
