(* ===== verification/SupervisionFacts.v ===== *)
(** * The invariant of the supervisor

    Most sections touch only [inner] and are [calm]: they keep its invariant and make
    nothing live.  The others start a process, take a request, or hold the store's
    lock. *)

From stdpp Require Import base gmap strings list relations.
From Stdlib Require Import ZArith Lia.
From S2P Require Import Prelude Rust Externals Files Clock DeviceJson Store Supervisor.

Local Open Scope Z_scope.

(** ** The records of a stream *)

(** The lines of a stream, and what is after the last newline unless it is empty *)
Fixpoint lines_from (line l : list Z) : list (list Z) :=
  match l with
  | [] => if bool_decide (line = []) then [] else [line]
  | b :: l => if b =? 10 then line :: lines_from [] l else lines_from (line ++ [b]) l
  end.
Lemma lines_position line l : lines_from line l = match position (λ b, b =? 10) l with
  | None => if bool_decide (line ++ l = []) then [] else [line ++ l]
  | Some n => (line ++ take n l) :: lines_from [] (drop (S n) l)
  end.
Proof.
  revert line. induction l as [|b l IH]; intros line; cbn; [by rewrite app_nil_r|].
  destruct (b =? 10); [by rewrite app_nil_r|]. rewrite IH. destruct (position _ l) as [n|]; cbn; by rewrite <- app_assoc.
Qed.

Section Records.
Context (cap : nat) (Hcap : (0 < cap)%nat).
(** The record is the line so far, cut at [cap]; more of it is skipped. *)
Definition cut (line record : list Z) (skipping : bool) : Prop :=
  record = take cap line ∧ skipping = bool_decide (cap < length line)%nat.
Lemma absorb_cut line body record skipping : cut line record skipping →
  cut (line ++ body) (absorb cap body record skipping).1 (absorb cap body record skipping).2.
Proof.
  intros [-> ->]. unfold cut, absorb. rewrite length_app. case_bool_decide as Hl; cbn [fst snd].
  - rewrite take_app_le by lia. rewrite bool_decide_true by lia. done.
  - rewrite (take_ge line) by lia. split.
    + rewrite take_app, (take_ge line) by lia. f_equal. destruct (decide (length body ≤ cap - length line)%nat).
      * by rewrite Nat.min_l, !take_ge by lia.
      * by rewrite Nat.min_r by lia.
    + apply bool_decide_ext. lia.
Qed.
Lemma reader_next_spec line record skipping chunks : Forall (λ c, c ≠ []) chunks → cut line record skipping →
  match position (λ b, b =? 10) (concat chunks) with
  | None => (reader_next cap record skipping (Some <$> chunks)).1 =
      if bool_decide (line ++ concat chunks = []) then None else Some (take_record (take cap (line ++ concat chunks)))
  | Some n => ∃ rest, Forall (λ c, c ≠ []) rest ∧ concat rest = drop (S n) (concat chunks)
      ∧ reader_next cap record skipping (Some <$> chunks)
        = (Some (take_record (take cap (line ++ take n (concat chunks)))), reader_new (Some <$> rest))
  end
  ∧ (position (λ b, b =? 10) (concat chunks) = None →
     (reader_next cap record skipping (Some <$> chunks)).2 = reader_new []).
Proof.
  intros Hne. revert line record skipping. induction Hne as [|c chunks Hc Hne IH]; intros line record skipping Hcut.
  { destruct Hcut as [-> _]. cbn. rewrite app_nil_r. split; [|done].
    destruct line as [|b line]; [by destruct cap|]. by destruct cap; [lia|]. }
  rewrite fmap_cons. destruct c as [|b c]; [done|]. cbn [reader_next].
  change (concat ((b :: c) :: chunks)) with ((b :: c) ++ concat chunks).
  pose proof (absorb_cut line (take (default (length (b :: c)) (position (λ b, b =? 10) (b :: c))) (b :: c)) _ _ Hcut) as Ha.
  destruct (absorb _ _ _ _) as [record' skipping']. cbn [fst snd] in Ha.
  destruct (position (λ b, b =? 10) (b :: c)) as [n|] eqn:Hp.
  - rewrite (position_app_some _ _ _ _ Hp). split; [|done]. pose proof (position_some _ _ _ Hp) as [Hn _].
    cbn [default from_option id] in Ha. destruct Ha as [-> _].
    rewrite (take_app_le (b :: c)), (drop_app_le (b :: c)) by lia. case_bool_decide as Hl.
    + exists chunks. rewrite Hl. done.
    + exists (drop (S n) (b :: c) :: chunks). split; [by constructor|]. done.
  - cbn [default from_option id] in Ha. rewrite take_ge in Ha by done. rewrite (position_app_none _ _ _ Hp).
    specialize (IH _ _ _ Ha). destruct (position _ (concat chunks)) as [n|]; cbn [fmap option_fmap option_map].
    + destruct IH as [(rest & Hr & Hcr & Hrun) _]. split; [|done]. exists rest. split; [exact Hr|].
      rewrite (take_app_add (b :: c)), <- Nat.add_succ_r, (drop_app_add (b :: c)).
      rewrite <- app_assoc in Hrun. by split.
    + rewrite <- app_assoc in IH. destruct IH as [IH1 IH2]. by split; [|intros _; apply IH2].
Qed.
End Records.

(** ** What holds of [Inner] *)

Definition live (i : Inner) : Prop :=
  in_process i ≠ None ∧ match in_status i with Starting | Running _ => True | _ => False end.
Record inner_inv (readers : list Z) (i : Inner) : Prop := {
  ii_running p : in_status i = Running p →
    in_ready i = true ∧ ∀ q, in_port i = Some q → p = q mod 65536;
  ii_process : in_process i ≠ None → in_terminal i = match in_status i with
    | Stopping => Some Disabled
    | Failed code => Some (Failed code)
    | _ => None
    end ∧ in_status i ≠ Disabled;
  ii_none : in_process i = None → in_pending i = None ∧ in_peer_waits i = ∅
    ∧ match in_status i with Running _ | Stopping => False | _ => True end;
  ii_readers : Forall (λ r, r <= in_generation i) readers;
  ii_reader : in_process i ≠ None ↔ in_generation i ∈ readers;
}.

Lemma reader_none readers i : inner_inv readers i → in_generation i ∉ readers → in_process i = None.
Proof. intros Hi Hg. destruct (in_process i) eqn:Hp; [|done]. destruct Hg. apply Hi. by rewrite Hp. Qed.
Lemma live_terminal readers i : inner_inv readers i → live i → in_terminal i = None.
Proof. intros Hi [Hp Hs]. destruct (ii_process _ _ Hi Hp) as [-> _]. by destruct (in_status i). Qed.

Section Calm.
Context {D P : Type} (readers : list Z).
Abbreviation Mgr := (Manager D P).
Implicit Types (m : Mgr) (i : Inner) (Q : Z → Value → Prop).

(** What a section said; an answer that is not an error is one that [Q] allows. *)
Definition says Q m m' : Prop :=
  ∃ l, mg_did m' = mg_did m ++ l ∧ ∀ r event, DidReply r (inr event) ∈ l → Q r event.
#[global] Instance says_refl Q : Reflexive (says Q).
Proof. intros m. exists []. rewrite app_nil_r. by split; [|intros r event Hin; inversion Hin]. Qed.
#[global] Instance says_trans Q : Transitive (says Q).
Proof.
  intros m1 m2 m3 (l & H1 & Hl) (l' & H2 & Hl'). exists (l ++ l'). rewrite H2, H1, app_assoc. split; [done|].
  intros r event [Hin|Hin]%elem_of_app; auto.
Qed.
Lemma says_same Q m m' : mg_did m' = mg_did m → says Q m m'.
Proof. intros Hd. exists []. rewrite app_nil_r. by split; [|intros r event Hin; inversion Hin]. Qed.
Lemma says_did Q x m m' : mg_did m' = mg_did m ++ [x] → (∀ r event, x = DidReply r (inr event) → Q r event) →
  says Q m m'.
Proof. intros Hd Hx. exists [x]. split; [done|]. intros r event Hin%list_elem_of_singleton. by apply Hx. Qed.

Record calm Q m m' : Prop := {
  ca_store : mg_store m' = mg_store m;
  ca_disk : mg_disk m' = mg_disk m;
  ca_inv : inner_inv readers (mg_inner m) → inner_inv readers (mg_inner m');
  ca_process : inner_inv readers (mg_inner m) → in_process (mg_inner m') ≠ None → in_process (mg_inner m) ≠ None;
  ca_live : inner_inv readers (mg_inner m) → live (mg_inner m') → live (mg_inner m);
  ca_generation : in_generation (mg_inner m) <= in_generation (mg_inner m');
  ca_says : says Q m m';
}.
#[global] Instance calm_refl Q : Reflexive (calm Q).
Proof. intros m. by constructor. Qed.
#[global] Instance calm_trans Q : Transitive (calm Q).
Proof.
  intros m1 m2 m3 [] []. constructor; try congruence; try tauto; [lia|by etrans].
Qed.

(** The inner state is as it was, or one component of it that the invariant does not
    mention. *)
Lemma calm_same Q m m' : mg_inner m' = mg_inner m → mg_store m' = mg_store m → mg_disk m' = mg_disk m →
  says Q m m' → calm Q m m'.
Proof. intros Hi Hs Hd Hq. constructor; rewrite ?Hi; done. Qed.
Lemma calm_says Q x m : (∀ r event, x = DidReply r (inr event) → Q r event) → calm Q m (did x m).
Proof. intros Hx. by apply calm_same; [..|eapply says_did]. Qed.
Lemma calm_emit Q v m : calm Q m (emit v m).
Proof. by apply calm_says. Qed.
Lemma calm_emits Q l m : calm Q m (foldl (λ m v, emit v m) m l).
Proof. revert m. induction l as [|x l IH]; intros m; [done|]. cbn [foldl]. etrans; [apply calm_emit|apply IH]. Qed.
Lemma calm_exits Q {A} (l : list (A * Z)) m :
  calm Q m (foldr (λ e, did (DidPeers e.2 None)) m l).
Proof. induction l as [|x l IH]; [done|]. cbn [foldr]. etrans; [exact IH|by apply calm_says]. Qed.
Lemma calm_push Q p m : calm Q m (set_push p m).
Proof. by apply calm_same; [..|apply says_same]. Qed.

Ltac calm_inner :=
  intros; constructor; try done; cbn; try naive_solver; try (intros []; constructor; cbn in *; naive_solver);
  try (by apply says_same).
Lemma calm_expired Q x m : calm Q m (on_inner (set_expired x) m).
Proof. calm_inner. Qed.
Lemma calm_error Q x m : calm Q m (on_inner (set_last_error x) m).
Proof. calm_inner. Qed.
Lemma calm_seq Q m : calm Q m (on_inner (λ i, set_seq (in_peer_seq i + 1) i) m).
Proof. calm_inner. Qed.
Lemma calm_no_pending Q m : calm Q m (on_inner (set_pending None) m).
Proof. calm_inner. Qed.
Lemma calm_unwait Q id m : calm Q m (on_inner (λ i, set_waits (delete id (in_peer_waits i)) i) m).
Proof.
  constructor; try done; cbn; try naive_solver; [|by apply says_same]. intros [H1 H2 H3 H4 H5]. constructor; cbn; try done.
  intros Hp. destruct (H3 Hp) as (Hpe & Hw & Hs). split; [done|]. split; [|done]. by rewrite Hw, delete_empty.
Qed.
Lemma calm_reply Q r m :
  (∀ p event, in_pending (mg_inner m) = Some p → r = inr event → Q (pn_reply p) event) → calm Q m (reply_pending r m).
Proof.
  intros Hq. unfold reply_pending. destruct (in_pending _) as [p|] eqn:Hp; [|done].
  etrans; [apply calm_says|apply calm_no_pending]. intros reply event [= <- ->]. by apply Hq.
Qed.
Lemma calm_resolve Q f r m :
  (∀ p event, in_pending (mg_inner m) = Some p → f (pn_want p) = true → r = inr event → Q (pn_reply p) event) →
  calm Q m (resolve f r m).
Proof.
  intros Hq. unfold resolve. destruct (in_pending _) as [p|] eqn:Hp; [|done].
  destruct (f (pn_want p)) eqn:Hf; [|done]. apply calm_reply. intros p' event Hp'. rewrite Hp in Hp'. injection Hp' as <-. auto.
Qed.
Lemma reply_inner r m : mg_inner (reply_pending r m) = set_pending None (mg_inner m).
Proof. unfold reply_pending. destruct m as [[? ? ? ? ? ? ? ? ? [p|] ? ?] ? ? ? ?]; done. Qed.

Lemma calm_halt Q code m : calm Q m (halt code m).2.
Proof.
  unfold halt. cbn [snd]. etrans; [by apply (calm_reply Q (inl code))|].
  constructor; try done; cbn; rewrite ?reply_inner; cbn; try done; [..|by apply says_same].
  - intros [H1 H2 H3 H4 H5]. cbn in *. constructor; cbn; try done.
    + intros Hp. destruct (in_process (mg_inner m)); [done|]. by destruct (H3 eq_refl) as (? & ? & _).
    + rewrite <- H5. by destruct (in_process (mg_inner m)).
  - intros _. by destruct (in_process (mg_inner m)).
  - by intros _ [_ []].
Qed.
Lemma halt_dead code m : ¬ live (mg_inner (halt code m).2).
Proof. by intros [_ []]. Qed.

(** [halt], then the event that says so *)
Lemma calm_halt_emit Q code m : calm Q m (let '(_, m') := halt code m in emit (status_event (in_status (mg_inner m'))) m').
Proof. pose proof (calm_halt Q code m) as Hh. destruct (halt _ m) as [kill m']. etrans; [exact Hh|apply calm_emit]. Qed.
Lemma calm_watchdog Q g m : calm Q m (watchdog g m).2.
Proof.
  unfold watchdog. destruct (_ || _); [done|]. pose proof (calm_halt_emit Q "companion-start-timeout" m) as Hh.
  by destruct (halt _ m) as [kill m'].
Qed.
Lemma calm_fail Q code m : calm Q m (fail code m).2.
Proof.
  unfold fail. destruct (_ || _); [done|]. pose proof (calm_halt_emit Q code m) as Hh. by destruct (halt _ m) as [kill m'].
Qed.
Lemma calm_timeout Q g m : calm Q m (request_timeout g m).2.
Proof.
  unfold request_timeout. case_bool_decide; [|apply calm_no_pending].
  pose proof (calm_halt_emit Q "companion-timeout" (on_inner (set_pending None) m)) as Hh.
  destruct (halt _ _) as [kill m']. etrans; [apply calm_no_pending|exact Hh].
Qed.
Lemma calm_clear Q m : calm Q m (clear_failure m).
Proof.
  unfold clear_failure. destruct (bool_decide _ && _) eqn:Hc; [|done].
  apply andb_true_iff in Hc as [Hp%bool_decide_eq_true Hs]. etrans; [|apply calm_emit].
  constructor; try done; cbn; [..|by apply says_same].
  - intros [H1 H2 H3 H4 H5]. constructor; cbn; try done. intros _. destruct (H3 Hp) as (? & ? & _). done.
  - by intros _ [_ []].
Qed.
Lemma calm_spawn_failed Q expected code m : expected ∉ readers → calm Q m (spawn_failed expected code m).
Proof.
  intros Hr. unfold spawn_failed. destruct (bool_decide _ && _) eqn:Hc; [|done].
  apply andb_true_iff in Hc as [Hg%bool_decide_eq_true Hs]. etrans; [|apply calm_emit].
  constructor; try done; cbn; [..|by apply says_same].
  - intros Hi. assert (in_process (mg_inner m) = None) as Hp by (eapply reader_none; [exact Hi|by rewrite Hg]).
    destruct Hi as [H1 H2 H3 H4 H5]. constructor; cbn; try done. intros _. destruct (H3 Hp) as (? & ? & _). done.
  - by intros _ [_ []].
Qed.
Lemma calm_stop Q m : calm Q m (stop m).2.
Proof.
  unfold stop. destruct (in_process (mg_inner m)) as [p|] eqn:Hp; cbn [snd]; (etrans; [|apply calm_emit]).
  - etrans; [by apply (calm_says Q (DidSend (in_generation (mg_inner m)) SHUTDOWN_FRAME))|].
    constructor; try done; cbn; [..|by apply says_same].
    + intros [H1 H2 H3 H4 H5]. rewrite Hp in *. constructor; cbn; try done. split; [|done]. intros _. by apply H5.
    + intros _ _. by rewrite Hp.
    + by intros _ [_ []].
  - constructor; try done; cbn; [..|by apply says_same].
    + intros [H1 H2 H3 H4 H5]. destruct (H3 Hp) as (? & ? & _). constructor; cbn; try done.
      * eapply Forall_impl; [exact H4|]. cbn. lia.
      * rewrite Hp. split; [done|]. intros Hin. rewrite Forall_forall in H4. specialize (H4 _ Hin). cbn in H4. lia.
    + by intros _ [_ []].
    + lia.
Qed.
Lemma calm_notify Q frame m : calm Q m (notify frame m).
Proof. unfold notify. case_match; [by apply calm_says|done]. Qed.
Lemma calm_push_devices `{DesktopPush P} Q m : calm Q m (push_devices m).
Proof. apply calm_notify. Qed.
Lemma calm_push_init `{DesktopPush P} Q before m : calm Q m (push_init before m).
Proof. unfold push_init. case_match; [done|]. etrans; [apply calm_push_devices|apply calm_emit]. Qed.
Lemma calm_shutdown Q g m : calm Q m (shutdown g m).
Proof. unfold shutdown. case_match; [by apply calm_says|done]. Qed.
Lemma calm_kill Q kill m : calm Q m (send_kill kill m).
Proof. destruct kill; [by apply calm_says|done]. Qed.

Lemma running_process i : inner_inv readers i → is_running i = true → in_process i ≠ None.
Proof. intros Hi Hr Hp. destruct (ii_none _ _ Hi Hp) as (_ & _ & Hs). unfold is_running in Hr. by destruct (in_status i). Qed.
Lemma calm_request Q frame want reply m : calm Q m (request frame want reply m).2.
Proof.
  unfold request. destruct (bool_decide _ && _) eqn:Hc; [|done]. apply andb_true_iff in Hc as [[x Hx]%bool_decide_eq_true Hr].
  cbn [negb snd]. etrans; [by apply (calm_says Q (DidSend (in_generation (mg_inner m)) frame))|].
  constructor; try done; cbn; [|by apply says_same]. intros [H1 H2 H3 H4 H5]. constructor; cbn; try done.
  intros Hp. by rewrite Hx in Hp.
Qed.
Lemma calm_peers Q reply m : calm Q m (peers reply m).2.
Proof.
  unfold peers. etrans; [apply (calm_seq Q)|]. set (m' := on_inner _ m). generalize m'. clear. intros m.
  destruct (bool_decide _ && _) eqn:Hc; [|done]. apply andb_true_iff in Hc as [[x Hx]%bool_decide_eq_true Hr].
  cbn [negb snd]. match goal with |- context [did ?x m] => etrans; [by apply (calm_says Q x)|] end.
  constructor; try done; cbn; [|by apply says_same]. intros [H1 H2 H3 H4 H5]. constructor; cbn; try done.
  intros Hp. by rewrite Hx in Hp.
Qed.

(** The process has ended: what it leaves *)
Lemma calm_exit Q g m : g ∈ readers → inner_inv readers (mg_inner m) → calm Q m (on_exit g m).
Proof.
  intros Hg Hi. unfold on_exit. destruct (bool_decide _) eqn:Hgen; [|done]. apply bool_decide_eq_true in Hgen. cbn [negb].
  assert (in_process (mg_inner m) ≠ None) as Hp by (apply Hi; by rewrite Hgen).
  destruct (ii_process _ _ Hi Hp) as [Ht Hd].
  set (status := match in_terminal (mg_inner m) with Some _ => _ | None => _ end).
  set (m1 := on_inner _ m). set (m2 := reply_pending _ m1).
  set (m3 := foldr _ m2 _). set (m4 := on_inner _ m3).
  assert (match status with Disabled | Failed _ => True | _ => False end) as Hstatus.
  { unfold status. rewrite Ht. destruct (in_status (mg_inner m)); try done; repeat case_match; done. }
  assert (mg_inner m4 = set_waits ∅ (set_pending None (mg_inner m1))) as Hm4.
  { assert (mg_inner m3 = mg_inner m2) as H3 by (unfold m3; by induction (map_to_list _)).
    unfold m4. cbn [on_inner mg_inner]. rewrite H3. unfold m2. by rewrite reply_inner. }
  assert (mg_store m4 = mg_store m ∧ mg_disk m4 = mg_disk m) as [Hs4 Hd4].
  { pose proof (calm_exits Q (map_to_list (in_peer_waits (mg_inner m2))) m2) as [Hs3 Hd3 _ _ _ _ _].
    pose proof (calm_reply Q (inl "companion-exited") m1 ltac:(done)) as [Hs2 Hd2 _ _ _ _ _].
    unfold m4. cbn. unfold m3, m2 in *. by rewrite Hs3, Hd3, Hs2, Hd2. }
  assert (says Q m m4) as Hsays.
  { etrans; [|by apply says_same]. etrans; [|apply (calm_exits Q)]. etrans; [|by apply (calm_reply Q)]. by apply says_same. }
  match goal with |- calm Q m ?x => assert (calm Q m (emit (status_event status) (on_inner (λ i, set_status status (set_terminal None i)) m4))) as Hc end;
    [|case_bool_decide; [done|by etrans; [exact Hc|apply calm_says]]].
  clearbody m4. cbn in Hm4. constructor; cbn; rewrite ?Hm4; try done; cbn.
  - intros [H1 H2 H3 H4 H5]. constructor; cbn; try done.
    + intros p Hr. by rewrite Hr in Hstatus.
    + intros _. split; [done|]. split; [done|]. by destruct status.
    + eapply Forall_impl; [exact H4|]. cbn. lia.
    + split; [done|]. intros Hin. rewrite Forall_forall in H4. specialize (H4 _ Hin). cbn in H4. lia.
  - by intros _ [? _].
  - lia.
  - etrans; [exact Hsays|]. by eapply says_did.
Qed.
End Calm.

(** ** The handlers *)

Definition rank (p : Phase) : nat :=
  match p with
  | OnEvent _ => 4
  | OnDeferred _ => 3
  | OnDevice _ | OnApply _ _ | OnSubscription _ | OnEdit _ => 2
  | OnSaved _ _ _ _ | OnApplied _ _ | OnAck _ _ _ | OnPushRequest _ | OnOther _ | OnEditing _ => 1
  end.
(** A device list was written, or could not be. *)
Definition is_saved (p : Phase) : bool := match p with OnSaved _ _ _ _ | OnApplied _ _ => true | _ => false end.
Definition is_failing (p : Phase) : bool := match p with OnSaved _ _ (inl _) _ | OnApplied _ (inl _) => true | _ => false end.
(** The section is about the store or the file. *)
Definition is_change (p : Phase) : bool := match p with OnDevice _ | OnApply _ _ | OnEditing _ => true | _ => false end.

Section Handlers.
Context `{Base64, Fs D, !FsLaws H0, DesktopPush P} (windows : bool).
Context (parse : string → option (Z * Z * Timestamp)).
Context (from_slice : string → option DevicesFile) (to_vec_pretty : DevicesFile → string + string).
Context (dir : string) (readers : list Z).
Abbreviation Mgr := (Manager D P).
Abbreviation hold := (hold windows parse from_slice to_vec_pretty dir).
Abbreviation calm := (calm readers).
Implicit Types (m : Mgr).

(** The commands a phase answers with success: a device command when its change is
    saved, any other when its event is there. *)
Definition answers (p : Phase) m (r : Z) (event : Value) : Prop :=
  ∃ pd, in_pending (mg_inner m) = Some pd ∧ pn_reply pd = r ∧
  match pn_want pd with
  | WantDevice id kind frame =>
      match p with
      | OnSaved e i (inr _) _ => event = e ∧ id = default "" i ∧ kind = event_kind e
          ∧ (kind = "device.updated" → reflects parse frame (value_index "device" e) = true)
      | OnApplied e (inr _) => event = e ∧ is_Some (deferred_frame e (pn_want pd))
      | _ => False
      end
  | _ => True
  end.
(** How a phase ends *)
Definition turns g (p : Phase) m' (r : outcome Empty_set Turn) : Prop :=
  match r with
  | Ok (Keep q) => (rank q < rank p)%nat ∧ is_edit q = is_edit p ∧ is_saved q = false
      ∧ match q with OnEditing _ => in_process (mg_inner m') = None | _ => True end
      ∧ (match p with OnEvent _ => in_generation (mg_inner m') = g | _ => True end)
  | Ok (Release _) => is_edit p = false ∧ (is_failing p = true → ¬ live (mg_inner m'))
  | Ok (Edited _ _) => is_edit p = true
  | Err _ | Panic => False
  end.
Definition held g p m (r : outcome Empty_set Turn) m' : Prop := calm (answers p m) m m' ∧ turns g p m' r.

Lemma wp_section {A} (f : Mgr → A * Mgr) (Q : outcome Empty_set A → Mgr → Prop) m :
  Q (Ok (f m).1) (f m).2 → wp (run f) Q m.
Proof. unfold wp, run. by destruct (f m). Qed.
Lemma wp_run_push {A} (f : P → A * P) (Q : outcome Empty_set A → Mgr → Prop) m :
  (∀ a p, Q (Ok a) (set_push p m)) → wp (run_push f) Q m.
Proof. intros HQ. unfold run_push. apply wp_section. destruct (f (mg_push m)) as [a p]. apply HQ. Qed.
Lemma wp_done outgoing (Q : outcome Empty_set Turn → Mgr → Prop) m :
  Q (Ok (Release (mkEffects outgoing None false))) m → wp (done outgoing) Q m.
Proof. done. Qed.
Lemma wp_halted code Q (R : outcome Empty_set Effects → Mgr → Prop) m :
  (∀ e m', calm Q m m' → ¬ live (mg_inner m') → R (Ok e) m') → wp (halted code) R m.
Proof.
  intros HR. unfold halted. apply wp_bind, wp_section, wp_bind, wp_gets, wp_ret.
  apply HR; [apply calm_halt|apply halt_dead].
Qed.

Lemma hold_event g event m : wp (hold g (OnEvent event)) (held g (OnEvent event) m) m.
Proof.
  cbn [Supervisor.hold]; unfold on_event. apply wp_bind, wp_gets. destruct (_ || _) eqn:Hg; [by apply wp_done|].
  apply orb_false_iff in Hg as [Hg%negb_false_iff%bool_decide_eq_true _]. apply wp_ret. split; [done|].
  repeat case_match; cbn; repeat split; try done; lia.
Qed.
Lemma hold_saved g event id saved un m : wp (hold g (OnSaved event id saved un)) (held g (OnSaved event id saved un) m) m.
Proof.
  destruct saved as [code|[]]; cbn [Supervisor.hold]; unfold on_saved.
  - apply wp_bind. eapply (wp_halted _ (answers _ m)). intros e m' Hc Hl. by apply wp_ret.
  - apply wp_bind, wp_modify, wp_bind, wp_gets, wp_done. split; [|done]. apply calm_resolve.
    intros [want reply] e Hp Hm [= <-]. exists (mkPending want reply). split; [exact Hp|]. split; [done|]. cbn in *.
    destruct want as [|i k|i k frame]; try done. apply andb_true_iff in Hm as [[Hi Hk]%andb_true_iff Hr].
    apply bool_decide_eq_true in Hi, Hk. split; [done|]. split; [done|]. split; [done|]. intros Hu. rewrite <- Hk, Hu in Hr. done.
Qed.
Lemma hold_deferred g event m : wp (hold g (OnDeferred event)) (held g (OnDeferred event) m) m.
Proof.
  cbn [Supervisor.hold]; unfold on_deferred. apply wp_bind, wp_gets. destruct (p ← in_pending _; _) as [frame|].
  { apply wp_ret. split; [done|]. cbn. repeat split; lia. }
  apply wp_bind, wp_modify, wp_done. split; [|done]. apply calm_resolve.
  intros [want reply] e Hp Hm [= <-]. exists (mkPending want reply). split; [exact Hp|]. split; [done|]. by destruct want.
Qed.
Lemma hold_applied g event saved m : wp (hold g (OnApplied event saved)) (held g (OnApplied event saved) m) m.
Proof.
  destruct saved as [code|[]]; cbn [Supervisor.hold]; unfold on_applied.
  - apply wp_bind. eapply (wp_halted _ (answers _ m)). intros e m' Hc Hl. by apply wp_ret.
  - apply wp_bind, wp_modify, wp_done. split; [|done]. apply calm_resolve.
    intros [want reply] e Hp Hm [= <-]. exists (mkPending want reply). split; [exact Hp|]. split; [done|].
    apply bool_decide_eq_true in Hm. by destruct want.
Qed.
Lemma hold_subscription g event m : wp (hold g (OnSubscription event)) (held g (OnSubscription event) m) m.
Proof.
  cbn [Supervisor.hold]; unfold on_subscription. apply wp_bind, wp_gets, wp_bind.
  assert (∀ (changed : bool) p, wp ((if changed then modify push_devices;;
      let! m := gets id in ret (Keep (OnAck event true [push_event (mg_push m)]))
      else ret (Keep (OnAck event false []))) : M Mgr Empty_set Turn) (held g (OnSubscription event) m) (set_push p m)) as Hk.
  { intros changed p. destruct changed.
    - apply wp_bind, wp_modify, wp_bind, wp_gets, wp_ret. split; [etrans; [apply calm_push|apply calm_push_devices]|].
      cbn. repeat split; lia.
    - apply wp_ret. split; [apply calm_push|]. cbn. repeat split; lia. }
  pose proof (Hk false (mg_push m)) as Hf. replace (set_push (mg_push m) m) with m in Hf by by destruct m.
  destruct (negb _); [by apply wp_ret|].
  destruct (is_null _); [destruct (as_str _); [|by apply wp_ret]|]; by apply wp_run_push.
Qed.
Lemma hold_ack g event changed outgoing m : wp (hold g (OnAck event changed outgoing)) (held g (OnAck event changed outgoing) m) m.
Proof.
  cbn [Supervisor.hold]; unfold on_ack. destruct (as_u64 _); [|by apply wp_done]. apply wp_bind, wp_modify, wp_done.
  split; [apply calm_notify|done].
Qed.
Lemma hold_push_request g event m : wp (hold g (OnPushRequest event)) (held g (OnPushRequest event) m) m.
Proof. cbn [Supervisor.hold]; unfold on_push_request. apply wp_bind, wp_run_push. intros a p. apply wp_done. split; [apply calm_push|done]. Qed.
Lemma hold_edit g frame m : wp (hold g (OnEdit frame)) (held g (OnEdit frame) m) m.
Proof.
  cbn [Supervisor.hold]; unfold edit_begin. apply wp_bind, wp_gets. destruct (idle _) eqn:Hi; apply wp_ret; split; try done.
  apply andb_true_iff in Hi as [Hp%bool_decide_eq_true _]. cbn. repeat split; [lia|done].
Qed.

Lemma calm_ready Q port m : in_process (mg_inner m) ≠ None → in_terminal (mg_inner m) = None →
  (∀ q, in_port (mg_inner m) = Some q → q = port) →
  calm Q m (on_inner (λ i, set_status (Running (port mod 65536)) (set_ready true i)) m).
Proof.
  intros Hp Ht Hq. constructor; try done; cbn; [..|by apply says_same].
  - intros [H2 H3 H4 H5 H6]. constructor; cbn; try done.
    intros p [= <-]. split; [done|]. intros q Hport. by rewrite (Hq _ Hport).
  - intros Hi _. split; [done|]. destruct (ii_process _ _ Hi Hp) as [Ht' Hd]. rewrite Ht in Ht'. by destruct (in_status (mg_inner m)).
Qed.
Lemma hold_other g event m : wp (hold g (OnOther event)) (held g (OnOther event) m) m.
Proof.
  assert (∀ outgoing m', calm (answers (OnOther event) m) m m' →
    wp (done outgoing) (held g (OnOther event) m) m') as Hdone by by intros outgoing m' Hc; apply wp_done.
  cbn [Supervisor.hold]. unfold on_other. apply wp_bind, wp_gets.
  destruct (bool_decide (_ = "ready") && _ && _) eqn:Hready.
  { apply andb_true_iff in Hready as [[_ [x Hp]%bool_decide_eq_true]%andb_true_iff Ht%bool_decide_eq_true].
    change (id m) with m in *. set (port := default 0 _). destruct (match in_port _ with Some _ => _ | None => _ end) eqn:Hport.
    - apply wp_bind. eapply (wp_halted _ (answers _ m)). intros e m' Hc Hl. by apply wp_ret.
    - apply wp_bind, wp_modify, Hdone. apply calm_ready; [by rewrite Hp|done|]. intros q Hq. rewrite Hq in Hport. lia. }
  destruct (bool_decide (_ = "peers.snapshot")).
  { destruct (i ← as_u64 _; _) as [[i reply]|]; [|by apply Hdone].
    apply wp_bind, wp_modify, wp_bind, wp_modify, Hdone. etrans; [apply calm_unwait|by apply calm_says]. }
  destruct (bool_decide (_ = "pairing.created")).
  { apply wp_bind, wp_modify, Hdone. apply calm_resolve. intros [want reply] e Hp Hm [= <-].
    exists (mkPending want reply). split; [exact Hp|]. by destruct want. }
  destruct (bool_decide (_ = "pairing.state")).
  { apply wp_bind, wp_modify, Hdone. apply calm_resolve. intros [want reply] e Hp Hm [= <-].
    exists (mkPending want reply). split; [exact Hp|]. by destruct want. }
  destruct (bool_decide (_ = "error")); [|by apply Hdone].
  apply wp_bind, wp_when. set (code := default _ _).
  assert (∀ m', calm (answers (OnOther event) m) m m' → wp (
    modify (reply_pending (inl code));; modify (on_inner (set_last_error (Some code)));;
    ret (Release (mkEffects [VObject [("type", VString "error"); ("code", VString code)]] None
      (bool_decide (code = "policy-expired")))) : M Mgr Empty_set Turn) (held g (OnOther event) m) m') as Hk.
  { intros m' Hc. apply wp_bind, wp_modify, wp_bind, wp_modify, wp_ret. split; [|done].
    etrans; [exact Hc|]. etrans; [|apply calm_error]. by apply calm_reply. }
  destruct (bool_decide (code = _)); [apply wp_modify, Hk, calm_expired|by apply Hk].
Qed.

Lemma hold_calm g p m : is_change p = false → wp (hold g p) (held g p m) m.
Proof.
  destruct p; intros Hp; try done.
  - apply hold_event.
  - apply hold_saved.
  - apply hold_deferred.
  - apply hold_applied.
  - apply hold_subscription.
  - apply hold_ack.
  - apply hold_push_request.
  - apply hold_other.
  - apply hold_edit.
Qed.

(** ** The file and the list in memory *)
Hypothesis reads_back : ∀ f b, to_vec_pretty f = inr b → from_slice (b +:+ newline) = Some f.

Definition devices_path : string * string := (dir, DEVICES_FILE).
(** A load would find these devices; without a file, none. *)
Definition file_holds (l : list Value) (d : D) : Prop :=
  (fs_file d devices_path = None ∧ l = [])
  ∨ ∃ b v, fs_file d devices_path = Some b ∧ from_slice b = Some v ∧ df_version v = VERSION ∧ df_devices v = l.
Definition agrees m : Prop := ∃ ds, mg_store m = Some ds ∧ file_holds (ds_devices ds) (mg_disk m).
Definition store_path m : Prop := ∀ ds, mg_store m = Some ds → ds_path ds = devices_path.
(** What a device event says is true of the list. *)
Definition persisted (event : Value) (l : list Value) : Prop :=
  ∃ id, event_id event = Some id ∧
  if bool_decide (event_kind event = "device.revoked") then Forall (λ d, device_id d ≠ Some id) l
  else value_index "device" event ∈ l.

Lemma file_holds_same l d d' : fs_file d' devices_path = fs_file d devices_path → file_holds l d → file_holds l d'.
Proof. intros Hd. unfold file_holds. by rewrite Hd. Qed.
Lemma stored_holds l d : stored_as to_vec_pretty l (fs_file d devices_path) → file_holds l d.
Proof. intros (b & Hb & Hf). right. exists (b +:+ newline), (mkDevicesFile VERSION l). split; [done|]. split; [by apply reads_back|done]. Qed.

(** A load leaves the file as it is, and gives what it holds. *)
Lemma load_keeps d : wp (devices_load parse from_slice dir) (λ r d',
  fs_file d' devices_path = fs_file d devices_path ∧ match r with
  | Ok ds => ds_path ds = devices_path ∧ file_holds (ds_devices ds) d'
  | Err _ => True
  | Panic => False
  end) d.
Proof.
  unfold devices_load. apply wp_bind. eapply wp_mono; [apply read_versioned_spec|].
  fold devices_path. intros [o|e|] d1 [Hf Hr]; [|done..].
  set (devices := match o with Some file => df_devices file | None => [] end).
  assert (file_holds devices d1) as Hh.
  { unfold file_holds. rewrite Hf. destruct o as [v|]; [|by left]. destruct Hr as (Hv & b & Hb & Hp). right. eauto 8. }
  destruct (negb _); [|by apply wp_ret]. apply wp_bind. eapply wp_mono; [apply corrupt_spec|].
  intros r d2 [-> Hd2]. apply wp_throw. by rewrite Hd2.
Qed.

(** Only the store and the file change. *)
Definition stored m m' : Prop := mg_inner m' = mg_inner m ∧ mg_did m' = mg_did m ∧ store_path m'.
Definition saved_ok (R : list Value → Prop) (saved : string + unit) m : Prop :=
  saved = inr tt → agrees m ∧ ∃ ds, mg_store m = Some ds ∧ R (ds_devices ds).
(** An operation of the store's that gives a list with [R], or fails *)
Definition saves (R : list Value → Prop) (op : M (Devices * D) string unit) : Prop :=
  ∀ s, wp op (λ r s', (∃ next, R next ∧ committed to_vec_pretty next s r s') ∨ (s' = s ∧ ∃ e, r = Err e)) s.
Lemma wp_in_store R op (Q : outcome Empty_set (string + unit) → Mgr → Prop) m : saves R op → store_path m →
  (∀ saved m', stored m m' → saved_ok R saved m' → Q (Ok saved) m') → wp (in_store op) Q m.
Proof.
  intros Hop Hp HQ. unfold in_store. apply wp_bind, wp_gets. cbn [id]. destruct (mg_store m) as [ds|] eqn:Hs.
  2: { apply wp_ret, HQ; [done|]. by intros ?. }
  specialize (Hp _ Hs). pose proof (Hop (ds, mg_disk m)) as Hw. unfold wp in Hw.
  destruct (op _) as [r [ds' d']]. cbn [fst snd] in Hw. unfold committed in Hw. cbn [fst snd] in Hw.
  rewrite Hp in Hw. destruct r as [[]|e|].
  - destruct Hw as [(next & HR & _ & -> & Hst)|[_ [e ?]]]; [|done]. apply wp_bind, wp_modify, wp_ret, HQ.
    + split; [done|]. split; [done|]. by intros x [= <-].
    + intros _. split; [|by eexists]. eexists. split; [done|]. by apply stored_holds.
  - apply wp_bind, wp_modify, wp_ret, HQ; [|by intros ?]. split; [done|]. split; [done|]. intros x [= <-].
    by destruct Hw as [(next & _ & _ & -> & _)|[[= -> ->] _]].
  - by destruct Hw as [(next & _ & _ & [])|[_ [e ?]]].
Qed.

Lemma replace_first_elem id device l : device ∈ default (l ++ [device]) (replace_first id device l).
Proof.
  destruct (replace_first id device l) as [next|] eqn:Hr; [|by apply elem_of_app; right; constructor]. cbn.
  revert next Hr. induction l as [|d l IH]; intros next Hr; [done|]. cbn [replace_first] in Hr.
  case_bool_decide; [injection Hr as <-; by constructor|]. destruct (replace_first id device l); [|done].
  injection Hr as <-. constructor. by apply IH.
Qed.
Lemma saves_device event : saves (persisted event) (device_change windows to_vec_pretty event).
Proof.
  intros s. unfold device_change. apply wp_bind, wp_ok_or. destruct (event_id event) as [id|] eqn:Hid; [|by eauto].
  pose proof Hid as Hid'. unfold event_id in Hid'. destruct (bool_decide _) eqn:Hk.
  - eapply wp_mono; [apply remove_spec|]. intros r s' Hc. left. eexists. split; [|exact Hc].
    exists id. split; [done|]. rewrite Hk. apply Forall_forall. intros d Hd%list_elem_of_In%List.filter_In.
    destruct Hd as [_ Hd%negb_true_iff%bool_decide_eq_false]. exact Hd.
  - eapply wp_mono; [by eapply upsert_spec|]. intros r s' Hc. left. eexists. split; [|exact Hc].
    exists id. split; [done|]. rewrite Hk. apply replace_first_elem.
Qed.
Lemma saves_apply frame : saves (λ _, True) (devices_apply windows parse to_vec_pretty frame).
Proof.
  intros s. eapply wp_mono; [apply (edit_spec windows parse to_vec_pretty (Apply frame))|].
  intros r s'. destruct (edit_next _ _ _) as [next|]; eauto.
Qed.

Lemma hold_device g event m : store_path m → wp (hold g (OnDevice event)) (λ r m',
  stored m m' ∧ ∃ saved un, r = Ok (Keep (OnSaved event (event_id event) saved un))
  ∧ saved_ok (persisted event) saved m') m.
Proof.
  intros Hp. cbn [Supervisor.hold]; unfold on_device. apply wp_bind.
  assert (∀ saved m1, stored m m1 → saved_ok (persisted event) saved m1 →
    wp (let! un := (match event_id event with
        | Some id => if bool_decide (event_kind event = "device.revoked") && bool_decide (saved = inr tt)
                     then run_push (push_forget id) else ret false
        | None => ret false
        end) in ret (Keep (OnSaved event (event_id event) saved un)) : M Mgr Empty_set Turn)
      (λ r m', stored m m' ∧ ∃ saved un, r = Ok (Keep (OnSaved event (event_id event) saved un))
        ∧ saved_ok (persisted event) saved m') m1) as Hk.
  { intros saved m1 Hs1 Hok. apply wp_bind. destruct (event_id event) as [id|]; [|apply wp_ret, wp_ret; eauto].
    destruct (_ && _); [|apply wp_ret, wp_ret; eauto]. apply wp_run_push. intros a p. apply wp_ret. split; [exact Hs1|]. eauto. }
  eapply wp_in_store; [apply saves_device|done|]. intros saved m1 Hs1 Hok. by apply Hk.
Qed.
Lemma hold_apply g event frame m : store_path m → wp (hold g (OnApply event frame)) (λ r m',
  stored m m' ∧ ∃ saved, r = Ok (Keep (OnApplied event saved)) ∧ saved_ok (λ _, True) saved m') m.
Proof.
  intros Hp. cbn [Supervisor.hold]; unfold on_apply. apply wp_bind. eapply wp_in_store; [apply saves_apply|done|].
  intros saved m1 Hs1 Hok. apply wp_ret. eauto.
Qed.
Lemma hold_editing g frame Q m : wp (hold g (OnEditing frame)) (λ r m',
  mg_inner m' = mg_inner m ∧ mg_store m' = mg_store m ∧ says Q m m' ∧ ∃ r', r = Ok (Edited frame r')) m.
Proof.
  cbn [Supervisor.hold]; unfold edit_stopped. apply wp_bind, wp_gets. cbn [id].
  pose proof (load_keeps (mg_disk m)) as Hl. unfold wp in Hl. destruct (devices_load _ _ _ _) as [[ds|e|] d]; [..|by destruct Hl].
  2: { apply wp_bind, wp_modify, wp_ret. repeat split; [by apply says_same|eauto]. }
  pose proof (saves_apply frame (ds, d)) as Ha. unfold wp in Ha. destruct (devices_apply _ _ _ _ _) as [[[]|e|] [ds' d']]; cbn [fst snd] in Ha.
  - apply wp_bind, wp_modify, wp_bind, wp_when.
    assert (∀ m', mg_inner m' = mg_inner m → mg_store m' = mg_store m → says Q m m' →
      wp (ret (Edited frame (inr tt)) : M Mgr Empty_set Turn) (λ r m',
        mg_inner m' = mg_inner m ∧ mg_store m' = mg_store m ∧ says Q m m' ∧ ∃ r', r = Ok (Edited frame r')) m') as Hk.
    { intros m' H2 H3 H4. apply wp_ret. eauto. }
    destruct (value_is _ _); [|by apply Hk, says_same]. apply wp_bind, wp_run_push. intros forgotten p. apply wp_when.
    destruct forgotten; [|by apply Hk, says_same]. apply wp_bind, wp_gets, wp_modify, Hk; [done..|]. by eapply says_did.
  - apply wp_bind, wp_modify, wp_ret. repeat split; [by apply says_same|eauto].
  - by destruct Ha as [(next & _ & _ & [])|[_ [e ?]]].
Qed.
End Handlers.
