(* ===== verification/Admin.v ===== *)
(** * [admin.rs], the data: policy, commands, events

    What the desktop sends over the gateway's stdin and what the gateway sends
    back over stdout.  Serde's field-by-field parsing is a parameter; the order
    of the checks around it is the source's. *)

From stdpp Require Import base gmap strings list.
From Stdlib Require Import ZArith Lia.
From S2P Require Import Prelude Rust Externals Clock Devices.

Local Open Scope Z_scope.

(** HTTP status codes and the pair every fallible handler returns. *)
Definition OK_STATUS : Z := 200.
Definition BAD_REQUEST : Z := 400.
Definition UNAUTHORIZED : Z := 401.
Definition FORBIDDEN : Z := 403.
Definition REQUEST_TIMEOUT_STATUS : Z := 408.
Definition MISDIRECTED_REQUEST : Z := 421.
Definition TOO_MANY_REQUESTS : Z := 429.
Definition REQUEST_HEADER_FIELDS_TOO_LARGE : Z := 431.
Definition SERVICE_UNAVAILABLE : Z := 503.
Definition Failure : Type := Z * string.

Definition MAX_FRAME_BYTES : Z := 16 * 1024 * 1024.

(** ** Policy *)

Inductive PasskeyBinding := O1 | O2 | O3.
Inductive Scope := View | Control | Full.
#[export] Instance scope_eq_dec : EqDecision Scope.
Proof. solve_decision. Defined.
#[export] Instance passkey_binding_eq_dec : EqDecision PasskeyBinding.
Proof. solve_decision. Defined.

Record Policy := mkPolicy {
  enable_until : Timestamp;
  view_idle_min : Z;
  view_absolute_hours : Z;
  elevation_max_min : Z;
  full_session_enabled : bool;
  max_devices : Z;
  passkey_binding : PasskeyBinding;
}.
(** [Policy::valid] *)
Definition policy_valid (p : Policy) : bool :=
  in_range 1 p.(view_idle_min) 30
  && in_range 1 p.(view_absolute_hours) 12
  && in_range 1 p.(elevation_max_min) 15
  && in_range 1 p.(max_devices) 64.

(** ** The init frame *)

(** [ProxySecret::valid] *)
Definition proxy_secret_valid `{Base64} (s : string) : bool :=
  (len s =? 43)
  && match b64url_decode s with Some b => len b =? 32 | None => false end.

Definition default_port : Z := 47110.
Record Loopback := mkLoopback {
  lb_port : Z;
  public_host : string;
  required_tailscale_login : string;
  proxy_secret : string;
}.
Record Lan := mkLan {
  lan_binds : list string;
  lan_port : Z;
  lan_public_host : string;
  cert_pem : string;
  key_pem : string;
}.
Record Listeners := mkListeners { loopback : Loopback; lan : option Lan }.
Record PushDevice := mkPushDevice { pd_device_id : string; pd_endpoints : list string }.
Record PushInit := mkPushInit { vapid_public_key : string; pi_devices : list PushDevice }.
Record SpaceRoot := mkSpaceRoot {
  sr_session : string; sr_workspace_id : string; sr_root : string }.
Record Init := mkInit {
  herdr_binary : string;
  session_allowlist : list string;
  web_root : string;
  listeners : Listeners;
  init_devices : list Device;
  init_policy : Policy;
  trust_store : string;
  space_roots : list SpaceRoot;
  init_push : option PushInit;
}.

(** ** Commands *)

Inductive PairingCommand :=
| PairingCreate (v : Z) (path : string) (add_to_device : option string)
| PairingApprove (v : Z) (pairing_id : string)
| PairingReject (v : Z) (pairing_id : string)
| PairingCancel (v : Z) (pairing_id : string).
Inductive DeviceCommand :=
| DeviceUpdate (v : Z) (device_id : string) (label : option string) (grants : option Grants)
| DeviceRevoke (v : Z) (device_id : string)
| DeviceUnlock (v : Z) (device_id : string).
Record PushDevices := mkPushDevices { psh_devices : list PushDevice }.
Record PushAck := mkPushAck { pa_request_id : Z; pa_stored : bool }.
Record PeersList := mkPeersList { pl_request_id : Z }.
Record SpacesRoots := mkSpacesRoots { sp_roots : list SpaceRoot }.

Inductive CommandBody :=
| CmdInit (i : Init)
| CmdShutdown
| CmdPairing (c : PairingCommand)
| CmdDevice (c : DeviceCommand)
| CmdSpaces (c : SpacesRoots)
| CmdPush (c : PushDevices)
| CmdPushAck (c : PushAck)
| CmdPeers (c : PeersList)
| CmdUnknown.
Record Command := mkCommand { cmd_v : Z; cmd_body : CommandBody }.

(** ** Results and events *)

Record PeerInfo := mkPeerInfo { pi_peer_id : Z; pi_device_id : string }.
Record StreamInfo := mkStreamInfo {
  si_stream : string;
  si_device_id : string;
  si_peer_id : Z;
  si_session : string;
  si_scope : Scope;
  si_target : option string;
}.
Inductive AdminResult :=
| Applied
| PeersResult (request_id : Z) (peers : list PeerInfo) (streams : list StreamInfo)
| NotificationDeferred (command : string) (target : string).

Record Subscription := mkSubscription {
  sub_endpoint : string; sub_p256dh : string; sub_auth : string }.
Record PushPayload := mkPushPayload {
  pp_kind : string;
  pp_session : string;
  pp_pane_id : string;
  pp_workspace_id : option string;
  pp_title : string;
  pp_space : option string;
}.

Inductive EventBody :=
| EvAudit (device_id : string) (peer_id : Z) (reason outcome : option string) (scope : Scope)
    (action session : string) (target : option string) (summary : Value) (at_ : Timestamp)
| EvAuditDropped (lost lost_tightening rejected_omitted : Z) (since : Timestamp)
| EvControlState (device_id : string) (peer_id : Z) (stream : string) (seq : Z)
    (session target : string) (takeover open : bool)
| EvFullState (device_id : string) (peer_id : Z) (stream : string) (seq : Z)
    (session : string) (open : bool)
| EvCommandDeferred (command target : string) (committed : bool)
| EvSessionOpened (peer_id : Z) (device_id : string)
| EvSessionClosed (peer_id : Z) (device_id reason : string)
| EvPeersSnapshot (request_id : Z) (peers : list PeerInfo) (streams : list StreamInfo)
| EvReady (loopback_port : Z) (lan_port : option Z)
| EvPairingCreated (pairing_id url : string) (expires_at : Timestamp)
| EvPairingClaimed (pairing_id device_label sas via tailscale_login user_agent : string)
| EvPairingState (pairing_id state reason : string)
| EvDeviceRegistered (device : Device)
| EvAuthOutcome (ceremony outcome : string) (device_id : option string)
| EvDeviceUpdated (device : Device)
| EvDeviceRevoked (device_id : string)
| EvPushSubscription (device_id : string) (subscription : option Subscription)
    (endpoint_id : option string) (request_id : option Z)
| EvPushRequest (device_ids : list string) (payload : PushPayload)
| EvError (code message : string).
Record Event := mkEvent { ev_v : Z; ev_body : EventBody }.

(** The constructors of [impl Event]. *)
Definition summary_str (key : string) (summary : Value) : option string :=
  match value_get key summary with Some v => as_str v | None => None end.
Definition audit (device_id : string) (peer_id : Z) (scope : Scope) (action session : string)
    (target : option string) (summary : Value) (at_ : Timestamp) : Event :=
  mkEvent 1 (EvAudit device_id peer_id (summary_str "reason" summary)
    (summary_str "outcome" summary) scope action session target summary at_).
Definition audit_dropped (lost lost_tightening rejected_omitted : Z) (since : Timestamp) : Event :=
  mkEvent 1 (EvAuditDropped lost lost_tightening rejected_omitted since).
Definition control_state (device_id : string) (peer_id : Z) (stream : string) (seq : Z)
    (session target : string) (takeover open : bool) : Event :=
  mkEvent 1 (EvControlState device_id peer_id stream seq session target takeover open).
Definition full_state (device_id : string) (peer_id : Z) (stream : string) (seq : Z)
    (session : string) (open : bool) : Event :=
  mkEvent 1 (EvFullState device_id peer_id stream seq session open).
Definition session_opened (peer_id : Z) (device_id : string) : Event :=
  mkEvent 1 (EvSessionOpened peer_id device_id).
Definition session_closed (peer_id : Z) (device_id reason : string) : Event :=
  mkEvent 1 (EvSessionClosed peer_id device_id reason).
Definition pairing_created (pairing_id url : string) (expires_at : Timestamp) : Event :=
  mkEvent 1 (EvPairingCreated pairing_id url expires_at).
Definition pairing_claimed (pairing_id device_label sas tailscale_login user_agent : string)
    : Event :=
  mkEvent 1 (EvPairingClaimed pairing_id device_label sas "tailscale" tailscale_login user_agent).
Definition pairing_state (pairing_id state reason : string) : Event :=
  mkEvent 1 (EvPairingState pairing_id state reason).
Definition device_registered (device : Device) : Event := mkEvent 1 (EvDeviceRegistered device).
Definition auth_outcome (ceremony outcome : string) (device_id : option string) : Event :=
  mkEvent 1 (EvAuthOutcome ceremony outcome device_id).
Definition device_updated (device : Device) : Event := mkEvent 1 (EvDeviceUpdated device).
Definition device_revoked (device_id : string) : Event := mkEvent 1 (EvDeviceRevoked device_id).
Definition push_subscription (device_id : string) (s : Subscription) (request_id : Z) : Event :=
  mkEvent 1 (EvPushSubscription device_id (Some s) None (Some request_id)).
Definition push_unsubscription (device_id endpoint_id : string) : Event :=
  mkEvent 1 (EvPushSubscription device_id None (Some endpoint_id) None).
Definition push_request (device_ids : list string) (payload : PushPayload) : Event :=
  mkEvent 1 (EvPushRequest device_ids payload).
Definition ready (port : Z) : Event := mkEvent 1 (EvReady port None).
Definition error_event (code : string) : Event :=
  mkEvent 1 (EvError code "Companion request rejected").

(** [AdminResult::deferred_event] *)
Definition deferred_event (r : AdminResult) : option Event :=
  match r with
  | Applied => None
  | PeersResult request_id peers streams =>
      Some (mkEvent 1 (EvPeersSnapshot request_id peers streams))
  | NotificationDeferred command target =>
      Some (mkEvent 1 (EvCommandDeferred command target true))
  end.

(** ** Reading a command

    [fill_buf] yields the bytes that are there: a chunk, the empty chunk at the
    end of the stream, or an error ([None]).  [frame] is what was copied so far,
    [capacity] the size of its one allocation. *)
Definition NEWLINE : Z := 10.

Definition Frame : Type := list Z.
Fixpoint read_frame_zeroizing (frame : Frame) (capacity : Z) (chunks : list (option (list Z)))
    : outcome string (option Frame) * Z * list (option (list Z)) :=
  let at_end := if bool_decide (frame = []) then Ok None else Err "invalid-frame" in
  match chunks with
  | [] => (at_end, capacity, [])
  | None :: rest => (Err "invalid-frame", capacity, rest)
  | Some available :: rest =>
      if bool_decide (available = []) then (at_end, capacity, rest)
      else
        let count := match position (λ b, b =? NEWLINE) available with
                     | Some n => S n
                     | None => length available
                     end in
        let required := Z.of_nat (length frame + count) in
        if MAX_FRAME_BYTES <? required then (Err "invalid-frame", capacity, chunks)
        else
          let capacity := if capacity <? required
                          then Z.min (Z.max required (capacity * 2)) MAX_FRAME_BYTES
                          else capacity in
          let completed := bool_decide (available !! (count - 1)%nat = Some NEWLINE) in
          let frame := frame ++ take count available in
          if completed then (Ok (Some frame), capacity, Some (drop count available) :: rest)
          else read_frame_zeroizing frame capacity rest
  end.

(** [admin::read] on a frame: [parse_envelope] and the [parse_] functions are
    [serde_json::from_slice] at the types the source names. *)
Record FrameParsers := mkFrameParsers {
  parse_envelope : Frame → option (Z * string);
  parse_init : Frame → option Init;
  parse_pairing : Frame → option PairingCommand;
  parse_device : Frame → option DeviceCommand;
  parse_spaces : Frame → option SpacesRoots;
  parse_push : Frame → option PushDevices;
  parse_push_ack : Frame → option PushAck;
  parse_peers : Frame → option PeersList;
  parse_shutdown : Frame → option unit;
}.
Definition is_ascii_whitespace (b : Z) : bool :=
  (b =? 9) || (b =? 10) || (b =? 12) || (b =? 13) || (b =? 32).

Definition read_body (P : FrameParsers) (kind : string) (frame : Frame) : option CommandBody :=
  if bool_decide (kind = "init") then CmdInit <$> P.(parse_init) frame
  else if bool_decide (kind ∈ ["pairing.create"; "pairing.approve"; "pairing.reject";
                               "pairing.cancel"]) then CmdPairing <$> P.(parse_pairing) frame
  else if bool_decide (kind ∈ ["device.update"; "device.revoke"; "device.unlock"])
  then CmdDevice <$> P.(parse_device) frame
  else if bool_decide (kind = "spaces.roots") then CmdSpaces <$> P.(parse_spaces) frame
  else if bool_decide (kind = "push.devices") then CmdPush <$> P.(parse_push) frame
  else if bool_decide (kind = "push.ack") then CmdPushAck <$> P.(parse_push_ack) frame
  else if bool_decide (kind = "peers.list") then CmdPeers <$> P.(parse_peers) frame
  else if bool_decide (kind = "shutdown") then (λ _, CmdShutdown) <$> P.(parse_shutdown) frame
  else Some CmdUnknown.

Definition read (P : FrameParsers) (chunks : list (option (list Z)))
    : outcome string (option Command) * list (option (list Z)) :=
  let '(r, _, rest) := read_frame_zeroizing [] 0 chunks in
  (match r with
   | Err e => Err e
   | Panic => Panic
   | Ok None => Ok None
   | Ok (Some frame) =>
       if negb (bool_decide (List.find (λ b, negb (is_ascii_whitespace b)) frame = Some 123))
       then Err "invalid-command"
       else match P.(parse_envelope) frame with
            | None => Err "invalid-command"
            | Some (v, kind) =>
                if negb (v =? 1) then Err "unsupported-version"
                else match read_body P kind frame with
                     | None => Err "invalid-command"
                     | Some body => Ok (Some (mkCommand v body))
                     end
            end
   end, rest).

(** ** Framing does not depend on how the bytes arrive *)

(** What one frame of a byte stream is: everything up to and including the
    first newline, refused when it is longer than the bound or cut short. *)
Definition first_frame (l : list Z) : outcome string (option Frame) :=
  match position (λ b, b =? NEWLINE) l with
  | Some n => if Z.of_nat (S n) <=? MAX_FRAME_BYTES then Ok (Some (take (S n) l))
              else Err "invalid-frame"
  | None => if bool_decide (l = []) then Ok None else Err "invalid-frame"
  end.

Lemma position_none p l i b : position p l = None → l !! i = Some b → p b = false.
Proof.
  revert i. induction l as [|c l IH]; intros i; simpl; [done|].
  destruct (p c) eqn:?; [done|]. destruct (position p l); [done|].
  destruct i; simpl; [by intros _ [= <-]|]. eauto.
Qed.

Lemma default_fmap_Some (l : list (list Z)) : default [] <$> (Some <$> l) = l.
Proof. induction l as [|x l IH]; [done|]. csimpl. by rewrite IH. Qed.

Lemma read_frame_app chunks : ∀ frame capacity r c rest,
  Forall (λ a, a ≠ []) chunks →
  position (λ b, b =? NEWLINE) frame = None →
  Z.of_nat (length frame) <= capacity <= MAX_FRAME_BYTES →
  read_frame_zeroizing frame capacity (Some <$> chunks) = (r, c, rest) →
  r = first_frame (frame ++ concat chunks) ∧ c <= MAX_FRAME_BYTES
  ∧ ∀ f, r = Ok (Some f) → Z.of_nat (length f) <= c ∧
      f ++ concat (default [] <$> rest) = frame ++ concat chunks.
Proof.
  induction chunks as [|a chunks IH]; intros frame cap r c rest Hne Hfr Hcap Hrun.
  { injection Hrun as <- <- <-. simpl. rewrite app_nil_r. unfold first_frame. rewrite Hfr.
    split; [done|]. split; [lia|]. intros f. by case_bool_decide. }
  apply Forall_cons in Hne as [Ha Hne]. simpl in Hrun.
  rewrite bool_decide_eq_false_2 in Hrun by done.
  destruct (position _ a) as [n|] eqn:Hpos.
  - destruct (position_some _ _ _ Hpos) as (Hn & b & Hb & Hnl).
    assert (position (λ b, b =? NEWLINE) (frame ++ a ++ concat chunks)
      = Some (length frame + n)%nat) as Hall.
    { rewrite position_app_none by done. by rewrite (position_app_some _ _ _ _ Hpos). }
    case_match eqn:Hmax; [apply Z.ltb_lt in Hmax|apply Z.ltb_ge in Hmax].
    + injection Hrun as <- <- <-. simpl. split; [|split; [lia|done]].
      unfold first_frame. by rewrite Hall, (proj2 (Z.leb_gt _ _)) by lia.
    + replace (S n - 1)%nat with n in Hrun by lia. rewrite bool_decide_eq_true_2 in Hrun
        by (rewrite Hb; f_equal; by apply Z.eqb_eq in Hnl).
      injection Hrun as <- <- <-. simpl. unfold first_frame. rewrite Hall.
      rewrite (proj2 (Z.leb_le _ _)) by lia.
      split; [|split; [destruct (Z.ltb_spec cap (Z.of_nat (length frame + S n))); lia|]].
      * rewrite take_app_ge by lia. do 3 f_equal.
        rewrite take_app_le by lia. f_equal. lia.
      * intros f [= <-]. rewrite length_app, length_take.
        split; [destruct (Z.ltb_spec cap (Z.of_nat (length frame + S n))); lia|].
        rewrite default_fmap_Some, <- app_assoc, (app_assoc (take _ a)), take_drop. done.
  - case_match eqn:Hmax; [apply Z.ltb_lt in Hmax|apply Z.ltb_ge in Hmax].
    + injection Hrun as <- <- <-. simpl. split; [|split; [lia|done]].
      unfold first_frame. rewrite position_app_none by done.
      rewrite position_app_none by done.
      destruct (position _ (concat chunks)) as [m|] eqn:?; simpl.
      * by rewrite (proj2 (Z.leb_gt _ _)) by lia.
      * rewrite bool_decide_eq_false_2; [done|]. intros E. by apply app_eq_nil in E as [_ [??]%app_eq_nil].
    + rewrite bool_decide_eq_false_2 in Hrun.
      2: { intros Hlast. eapply position_none in Hpos; [|exact Hlast]. by rewrite Z.eqb_refl in Hpos. }
      rewrite firstn_all in Hrun. apply IH in Hrun; [|done| |].
      * simpl. rewrite <- app_assoc in Hrun. exact Hrun.
      * by rewrite position_app_none, Hpos.
      * rewrite length_app. destruct (Z.ltb_spec cap (Z.of_nat (length frame + length a))); lia.
Qed.

(** Framing: whatever chunks the pipe delivers, [read_frame_zeroizing]
    returns the bytes up to and including the first newline, [None] at a clean
    end of stream, and an error for a cut-off or over-long frame; what follows
    the newline is left unread, and the buffer is never larger than the bound
    nor smaller than the frame it holds (so it was never reallocated under it). *)
Theorem read_frame_chunks chunks :
  Forall (λ a, a ≠ []) chunks →
  let '(r, capacity, rest) := read_frame_zeroizing [] 0 (Some <$> chunks) in
  r = first_frame (concat chunks) ∧ capacity <= MAX_FRAME_BYTES
  ∧ ∀ f, r = Ok (Some f) → Z.of_nat (length f) <= capacity
      ∧ f ++ concat (default [] <$> rest) = concat chunks.
Proof.
  intros Hne. destruct (read_frame_zeroizing [] 0 (Some <$> chunks)) as [[r c] rest] eqn:Hrun.
  eapply (read_frame_app chunks []); [done|done| |exact Hrun].
  unfold MAX_FRAME_BYTES. simpl. lia.
Qed.

Lemma read_frame_chunks_witness :
  let chunks := [[123; 34; 118]; [34; 58; 49; 125]; [10; 123]] in
  Forall (λ a, a ≠ []) chunks ∧
  let '(r, capacity, rest) := read_frame_zeroizing [] 0 (Some <$> chunks) in
  r = first_frame (concat chunks) ∧ capacity <= MAX_FRAME_BYTES
  ∧ ∀ f, r = Ok (Some f) → Z.of_nat (length f) <= capacity
      ∧ f ++ concat (default [] <$> rest) = concat chunks.
Proof.
  assert (Forall (λ a : list Z, a ≠ [])
    [[123; 34; 118]; [34; 58; 49; 125]; [10; 123]]) as H by (repeat constructor; done).
  split; [exact H|]. exact (read_frame_chunks _ H).
Defined.
