(* ===== verification/EventJson.v ===== *)
(** * [admin.rs]: the events as JSON

    What serde derives from the attributes of [Event] and [EventBody]: a flat object
    with [v], [type] and the fields; [skip_serializing_if] leaves a field out. *)

From stdpp Require Import base gmap strings list.
From Stdlib Require Import ZArith Lia.
From S2P Require Import Prelude Rust Externals Clock Devices DeviceJson Admin.

Local Open Scope Z_scope.

Section EventJson.
Context (rfc3339 : Timestamp → string).
Abbreviation fields := (list (string * Value)).

Definition or_null {A} (f : A → Value) (o : option A) : Value := match o with Some a => f a | None => VNull end.
Definition unless_none {A} (k : string) (f : A → Value) (o : option A) : fields :=
  match o with Some a => [(k, f a)] | None => [] end.
Definition scope_value (s : Scope) : Value :=
  VString match s with View => "view" | Control => "control" | Full => "full" end.
Definition peer_info_value (p : PeerInfo) : Value :=
  VObject [("peerId", VNumber (pi_peer_id p)); ("deviceId", VString (pi_device_id p))].
Definition stream_info_value (s : StreamInfo) : Value :=
  VObject ([("stream", VString (si_stream s)); ("deviceId", VString (si_device_id s)); ("peerId", VNumber (si_peer_id s));
            ("session", VString (si_session s)); ("scope", scope_value (si_scope s))]
           ++ unless_none "target" VString (si_target s)).
Definition subscription_value (s : Subscription) : Value :=
  VObject [("endpoint", VString (sub_endpoint s)); ("p256dh", VString (sub_p256dh s)); ("auth", VString (sub_auth s))].
Definition payload_value (p : PushPayload) : Value :=
  VObject [("kind", VString (pp_kind p)); ("session", VString (pp_session p)); ("paneId", VString (pp_pane_id p));
           ("workspaceId", or_null VString (pp_workspace_id p)); ("title", VString (pp_title p));
           ("space", or_null VString (pp_space p))].

Definition event_kind (e : EventBody) : string :=
  match e with
  | EvAudit _ _ _ _ _ _ _ _ _ _ => "audit"
  | EvAuditDropped _ _ _ _ => "audit.dropped"
  | EvControlState _ _ _ _ _ _ _ _ => "control.state"
  | EvFullState _ _ _ _ _ _ => "full.state"
  | EvCommandDeferred _ _ _ => "command.deferred"
  | EvSessionOpened _ _ => "session.opened"
  | EvSessionClosed _ _ _ => "session.closed"
  | EvPeersSnapshot _ _ _ => "peers.snapshot"
  | EvReady _ _ => "ready"
  | EvPairingCreated _ _ _ => "pairing.created"
  | EvPairingClaimed _ _ _ _ _ _ => "pairing.claimed"
  | EvPairingState _ _ _ => "pairing.state"
  | EvDeviceRegistered _ => "device.registered"
  | EvAuthOutcome _ _ _ => "auth.outcome"
  | EvDeviceUpdated _ => "device.updated"
  | EvDeviceRevoked _ => "device.revoked"
  | EvPushSubscription _ _ _ _ => "push.subscription"
  | EvPushRequest _ _ => "push.request"
  | EvError _ _ => "error"
  end.
Definition event_fields (e : EventBody) : fields :=
  match e with
  | EvAudit device_id peer_id reason outcome scope action session target summary at_ =>
      [("deviceId", VString device_id); ("peerId", VNumber peer_id)]
      ++ unless_none "reason" VString reason ++ unless_none "outcome" VString outcome
      ++ [("scope", scope_value scope); ("action", VString action); ("session", VString session);
          ("target", or_null VString target); ("summary", summary); ("at", timestamp_value rfc3339 at_)]
  | EvAuditDropped lost lost_tightening rejected_omitted since =>
      [("lost", VNumber lost); ("lostTightening", VNumber lost_tightening);
       ("rejectedOmitted", VNumber rejected_omitted); ("since", timestamp_value rfc3339 since)]
  | EvControlState device_id peer_id stream seq session target takeover open =>
      [("deviceId", VString device_id); ("peerId", VNumber peer_id); ("stream", VString stream); ("seq", VNumber seq);
       ("session", VString session); ("target", VString target); ("takeover", VBool takeover); ("open", VBool open)]
  | EvFullState device_id peer_id stream seq session open =>
      [("deviceId", VString device_id); ("peerId", VNumber peer_id); ("stream", VString stream); ("seq", VNumber seq);
       ("session", VString session); ("open", VBool open)]
  | EvCommandDeferred command target committed =>
      [("command", VString command); ("target", VString target); ("committed", VBool committed)]
  | EvSessionOpened peer_id device_id => [("peerId", VNumber peer_id); ("deviceId", VString device_id)]
  | EvSessionClosed peer_id device_id reason =>
      [("peerId", VNumber peer_id); ("deviceId", VString device_id); ("reason", VString reason)]
  | EvPeersSnapshot request_id peers streams =>
      [("requestId", VNumber request_id); ("peers", VArray (peer_info_value <$> peers));
       ("streams", VArray (stream_info_value <$> streams))]
  | EvReady loopback lan => [("ports", VObject [("loopback", VNumber loopback); ("lan", or_null VNumber lan)])]
  | EvPairingCreated pairing_id url expires_at =>
      [("pairingId", VString pairing_id); ("url", VString url); ("expiresAt", timestamp_value rfc3339 expires_at)]
  | EvPairingClaimed pairing_id device_label sas via tailscale_login user_agent =>
      [("pairingId", VString pairing_id); ("deviceLabel", VString device_label); ("sas", VString sas);
       ("via", VString via); ("tailscaleLogin", VString tailscale_login); ("userAgent", VString user_agent)]
  | EvPairingState pairing_id state reason =>
      [("pairingId", VString pairing_id); ("state", VString state); ("reason", VString reason)]
  | EvDeviceRegistered device | EvDeviceUpdated device => [("device", device_value rfc3339 device)]
  | EvAuthOutcome ceremony outcome device_id =>
      [("ceremony", VString ceremony); ("outcome", VString outcome); ("deviceId", or_null VString device_id)]
  | EvDeviceRevoked device_id => [("deviceId", VString device_id)]
  | EvPushSubscription device_id subscription endpoint_id request_id =>
      [("deviceId", VString device_id); ("subscription", or_null subscription_value subscription)]
      ++ unless_none "endpointId" VString endpoint_id ++ unless_none "requestId" VNumber request_id
  | EvPushRequest device_ids payload => [("deviceIds", VArray (VString <$> device_ids)); ("payload", payload_value payload)]
  | EvError code message => [("code", VString code); ("message", VString message)]
  end.
Definition event_value (e : Event) : Value :=
  VObject (("v", VNumber (ev_v e)) :: ("type", VString (event_kind (ev_body e))) :: event_fields (ev_body e)).

Lemma event_type e : value_index "type" (event_value e) = VString (event_kind (ev_body e)).
Proof. unfold event_value. by read_object. Qed.
Lemma event_device e d : ev_body e = EvDeviceRegistered d ∨ ev_body e = EvDeviceUpdated d →
  value_index "device" (event_value e) = device_value rfc3339 d.
Proof. intros [He|He]; unfold event_value; rewrite He; cbn [event_fields]; by read_object. Qed.
Lemma event_revoked e id : ev_body e = EvDeviceRevoked id → value_index "deviceId" (event_value e) = VString id.
Proof. intros He. unfold event_value. rewrite He. cbn [event_fields]. by read_object. Qed.
End EventJson.
