(* ===== verification/Guard.v ===== *)
(** * [guard.rs]: what every request must prove before it is routed

    [check] is a sequence of refusals in a fixed order; only a request that
    passes all of them is charged to a token bucket, whose level is an [f64]
    (Stdlib's [spec_float] at the format of binary64). *)
From stdpp Require Import base strings list pretty.
From S2P Require Import Prelude Rust Externals Crates Devices Admin.
Local Open Scope Z_scope.

From Stdlib Require Import ZArith Lia Floats.SpecFloat.


Definition BODY_LIMIT : Z := 64 * 1024.
Definition HEADER_LIMIT : Z := 16 * 1024.
Definition HEADER_COUNT : Z := 64.
Definition RATE_BURST : Z := 60.

(** ** [f64] *)

Definition f64 : Type := spec_float.
Definition f64_from (n : Z) : f64 := binary_normalize 53 1024 n 0 false.
Definition f64_add : f64 → f64 → f64 := SFadd 53 1024.
Definition f64_sub : f64 → f64 → f64 := SFsub 53 1024.
Definition f64_mul : f64 → f64 → f64 := SFmul 53 1024.
Definition f64_div : f64 → f64 → f64 := SFdiv 53 1024.
Definition f64_lt : f64 → f64 → bool := SFltb.
(** [f64::min]: the other operand where one is NaN. *)
Definition f64_min (a b : f64) : f64 :=
  match a, b with
  | S754_nan, _ => b
  | _, S754_nan => a
  | _, _ => if f64_lt b a then b else a
  end.
Definition RATE_PER_SECOND : f64 := f64_from 10.
(** [Duration::as_secs_f64], of a duration in nanoseconds *)
Definition as_secs_f64 (d : Z) : f64 :=
  f64_add (f64_from (d / 1000000000))
    (f64_div (f64_from (d mod 1000000000)) (f64_from 1000000000)).

(** ** State *)

Record Bucket := mkBucket { b_tokens : f64; b_updated : Z }.
Record Guard := mkGuard {
  gd_host : string;
  gd_login : string;
  gd_proxy_secret : string;
  gd_origin : string;
  gd_static_bucket : Bucket;
  gd_api_bucket : Bucket;
}.
Definition with_static_bucket b g := mkGuard g.(gd_host) g.(gd_login) g.(gd_proxy_secret)
  g.(gd_origin) b g.(gd_api_bucket).
Definition with_api_bucket b g := mkGuard g.(gd_host) g.(gd_login) g.(gd_proxy_secret)
  g.(gd_origin) g.(gd_static_bucket) b.

(** ** [decode_login] *)

(** [hex] *)
Definition hex (b : Z) : option Z :=
  if in_range 48 b 57 then Some (b - 48)
  else if in_range 97 b 102 then Some (b - 97 + 10)
  else if in_range 65 b 70 then Some (b - 65 + 10)
  else None.

(** The [Q] encoding *)
Fixpoint q_decode (text : list Z) : option (list Z) :=
  match text with
  | [] => Some []
  | b :: text =>
      if b =? 95 then cons 32 <$> q_decode text
      else if b =? 61 then
        match text with
        | h :: l :: text => h ← hex h; l ← hex l; cons (h * 16 + l) <$> q_decode text
        | _ => None
        end
      else if in_range 33 b 126 && negb (b =? 63) then cons b <$> q_decode text
      else None
  end.

Definition is_blank (b : Z) : bool := (b =? 32) || (b =? 9).
Fixpoint trim_start_blanks (s : string) : string :=
  match s with
  | String c s' => if is_blank (byte c) then trim_start_blanks s' else s
  | EmptyString => EmptyString
  end.

Section Login.
Context `{Base64}.

(** The text of one encoded word, from its three parts. *)
Definition word_text (charset encoding text : string) : option string :=
  if negb (eq_ignore_ascii_case charset "utf-8") || bool_decide (text = EmptyString) then None
  else
    bytes' ← (if eq_ignore_ascii_case encoding "b" then bytes <$> b64std_decode text
              else if eq_ignore_ascii_case encoding "q" then q_decode (bytes text)
              else None);
    _ ← utf8_decode bytes';
    Some (of_bytes bytes').

(** Where the first word of [rest] ends. *)
Definition word_end (rest : string) : option nat :=
  r ← strip_prefix "=?" rest;
  n ← find_str "?" r;
  let charset_end := (n + 2)%nat in
  m ← find_str "?" (skip (charset_end + 1) rest);
  let text_start := (m + charset_end + 2)%nat in
  k ← find_str "?=" (skip text_start rest);
  Some (k + text_start + 2)%nat.

(** Between two words: blanks, and only blanks. *)
Definition next_word (rest : string) : option string :=
  if bool_decide (rest = EmptyString) then Some rest
  else
    let trimmed := trim_start_blanks rest in
    if bool_decide (len trimmed = len rest) || negb (starts_with "=?" trimmed) then None
    else Some trimmed.

(** The text of a word: [parts.next()?] three times, and no fourth part. *)
Definition word_decode (word : string) : option string :=
  body ← strip_prefix "=?" word;
  body ← strip_suffix "?=" body;
  match split_on (char_of 63) body with
  | [charset; encoding; text] => word_text charset encoding text
  | _ => None
  end.

(** One turn of the loop: the decoded word and what follows it. *)
Definition login_word (rest : string) : option (string * string) :=
  end_ ← word_end rest;
  if 75 <? len (prefix end_ rest) then None
  else
    decoded ← word_decode (prefix end_ rest);
    rest ← next_word (skip end_ rest);
    Some (decoded, rest).

(** The loop; the outer [None] is out of fuel. *)
Fixpoint login_words (fuel : nat) (rest result : string) : option (option string) :=
  match fuel with
  | O => None
  | S fuel =>
      if bool_decide (rest = EmptyString) then Some (Some result)
      else match login_word rest with
           | None => Some None
           | Some (decoded, rest) => login_words fuel rest (result +:+ decoded)
           end
  end.

Definition decode_login (input : string) : option string :=
  if negb (starts_with "=?" input) then
    if negb (bool_decide (input = EmptyString))
       && forallb (λ b, in_range 33 b 126) (bytes input)
       && negb (contains "=?" input)
    then Some input else None
  else
    result ← default None (login_words (S (String.length input)) input EmptyString);
    if bool_decide (result = EmptyString) || existsb is_control (chars result) then None
    else Some result.
End Login.

(** ** [Guard] *)

Section Guard.
Context `{Base64, Crypto, Http}.

(** [one]: the only header of that name, as text. *)
Definition one (name : string) (headers : HeaderMap) : option string :=
  match headers_get_all name headers with
  | [] => None
  | value :: values => s ← header_to_str value; match values with [] => Some s | _ => None end
  end.

Definition host_valid (host_text : string) (authority : Authority) : bool :=
  let host := au_host authority in
  negb (bool_decide (host = EmptyString)
    || existsb is_ascii_uppercase (bytes host)
    || ends_with "." host
    || match au_port authority with
       | Some (p, text) => (p =? 443) || negb (bool_decide (text = pretty p))
       | None => false
       end
    || contains "[" host_text || contains "]" host_text || contains "@" host_text
    || parse_ip_addr host
    || negb (forallb (λ b, is_ascii_digit b || is_ascii_lowercase b || is_ascii_uppercase b
                           || (b =? 46) || (b =? 45)) (bytes host))
    || negb (bool_decide (au_as_str authority = host_text))
    || ends_with ":" host_text
    || (contains ":" host_text
        && match au_port authority with Some (p, _) => p =? 0 | None => true end)).

(** [Guard::new]; [now] is [Instant::now()]. *)
Definition guard_new (config : Loopback) (now : Z) : string + Guard :=
  match parse_authority config.(public_host) with
  | None => inl "invalid-host"
  | Some authority =>
      if negb (host_valid config.(public_host) authority) then inl "invalid-host"
      else if bool_decide (config.(required_tailscale_login) = EmptyString)
              || existsb is_control (chars config.(required_tailscale_login))
      then inl "invalid-login"
      else if negb (proxy_secret_valid config.(proxy_secret)) then inl "invalid-proxy-secret"
      else inr (mkGuard config.(public_host) config.(required_tailscale_login)
        (hash config.(proxy_secret)) ("https://" +:+ config.(public_host))
        (mkBucket (f64_from RATE_BURST) now) (mkBucket (f64_from RATE_BURST) now))
  end.

(** The level of a bucket at [now], and the bucket after a request. *)
Definition refill (now : Z) (b : Bucket) : f64 :=
  f64_min (f64_add b.(b_tokens)
    (f64_mul (as_secs_f64 (Z.max 0 (now - b.(b_updated)))) RATE_PER_SECOND))
    (f64_from RATE_BURST).
Definition bucket_take (now : Z) (b : Bucket) : bool * Bucket :=
  let tokens := refill now b in
  if f64_lt tokens (f64_from 1) then (false, mkBucket tokens now)
  else (true, mkBucket (f64_sub tokens (f64_from 1)) now).

Definition is_api (path : string) : bool := starts_with "/api/" path || bool_decide (path = "/ws").
Definition header_size (e : string * string) : Z := len e.1 + len e.2 + 4.

(** [Guard::check] *)
Definition guard_check (now : Z) (method : string) (uri : Uri) (headers : HeaderMap)
    : M Guard Z unit :=
  let! g := gets id in
  reject_if ((HEADER_COUNT <? Z.of_nat (length headers))
             || (HEADER_LIMIT <? foldr Z.add 0 (header_size <$> headers)))
    REQUEST_HEADER_FIELDS_TOO_LARGE;;
  let! host := ok_or MISDIRECTED_REQUEST (one "host" headers) in
  reject_if (negb (eq_ignore_ascii_case host g.(gd_host))
             || uri.(uri_has_authority) || uri.(uri_has_scheme)) MISDIRECTED_REQUEST;;
  let! secret := ok_or FORBIDDEN (one "yzc-proxy-secret" headers) in
  reject_if (negb (matches g.(gd_proxy_secret) secret)) FORBIDDEN;;
  let! login := ok_or FORBIDDEN (one "yzc-peer-login" headers ≫= decode_login) in
  reject_if (negb (bool_decide (login = g.(gd_login)))) FORBIDDEN;;
  let origin_ok := bool_decide (one "origin" headers = Some g.(gd_origin)) in
  reject_if ((negb (bool_decide (method = "GET")) || headers_contain "upgrade" headers
              || bool_decide (uri.(uri_path) = "/ws")) && negb origin_ok) FORBIDDEN;;
  reject_if (bool_decide (method = "GET") && starts_with "/api/" uri.(uri_path)
             && negb origin_ok
             && (headers_contain "origin" headers
                 || negb (bool_decide (one "sec-fetch-site" headers = Some "same-origin"))))
    FORBIDDEN;;
  let api := is_api uri.(uri_path) in
  let '(taken, bucket) := bucket_take now (if api then g.(gd_api_bucket) else g.(gd_static_bucket)) in
  modify (if api then with_api_bucket bucket else with_static_bucket bucket);;
  reject_if (negb taken) TOO_MANY_REQUESTS.
End Guard.

(** * What the guard lets through

    [decode_login] terminates and yields a clean identity; [check] is exactly its
    list of conditions, and only requests that meet them are charged. *)
From Stdlib Require Import ZArith Lia Floats.SpecFloat.


(** ** Strings *)

(** No question mark. *)
Definition plain (s : string) : bool := forallb (λ b, negb (b =? 63)) (bytes s).

Lemma plain_cons c s : plain (String c s) = true ↔ byte c ≠ 63 ∧ plain s = true.
Proof.
  unfold plain. change (bytes (String c s)) with (byte c :: bytes s). cbn [forallb].
  rewrite andb_true_iff, negb_true_iff, Z.eqb_neq. done.
Qed.

Lemma find_end e : plain e = true → find_str "?=" (e +:+ "?=") = Some (String.length e).
Proof.
  induction e as [|c e IH]; [reflexivity|]. intros [Hc He]%plain_cons.
  change (String c e +:+ "?=") with (String c (e +:+ "?=")). cbn [find_str].
  replace (starts_with "?=" (String c (e +:+ "?="))) with false; [by rewrite IH|].
  symmetry. unfold starts_with. cbn [strip_prefix]. case_match eqn:Heqc; [|done].
  apply Ascii.eqb_eq in Heqc as <-. done.
Qed.

Lemma split_plain e : plain e = true → split_on (char_of 63) e = [e].
Proof.
  induction e as [|c e IH]; [done|]. intros [Hc He]%plain_cons. cbn [split_on].
  case_match eqn:Heqc; [|by rewrite IH]. apply Ascii.eqb_eq in Heqc as ->. done.
Qed.

Lemma length_trim s : (String.length (trim_start_blanks s) ≤ String.length s)%nat.
Proof. induction s as [|c s IH]; cbn; [lia|]. case_match; cbn; lia. Qed.

(** ** The loop of [decode_login] *)

Section Login.
Context `{Base64}.

Lemma word_end_pos rest n : word_end rest = Some n → (2 ≤ n)%nat ∧ rest ≠ EmptyString.
Proof.
  unfold word_end. intros Hw. destruct (strip_prefix "=?" rest) eqn:Hp; [|done].
  cbn [mbind option_bind] in Hw. destruct (find_str "?" _); [|done].
  cbn [mbind option_bind] in Hw. destruct (find_str "?" _); [|done].
  cbn [mbind option_bind] in Hw. destruct (find_str "?=" _); [|done].
  injection Hw as <-. split; [lia|]. by intros ->.
Qed.

Lemma next_word_length s rest : next_word s = Some rest →
  (String.length rest ≤ String.length s)%nat.
Proof.
  unfold next_word. case_bool_decide; [by intros [= <-]|]. cbn zeta.
  destruct (_ || _); [done|]. intros [= <-]. apply length_trim.
Qed.

Lemma login_word_inv rest decoded rest' : login_word rest = Some (decoded, rest') →
  (String.length rest' < String.length rest)%nat ∧ ∃ word, word_decode word = Some decoded.
Proof.
  unfold login_word. intros Hw. destruct (word_end rest) as [n|] eqn:Hn; [|done].
  cbn [mbind option_bind] in Hw. destruct (75 <? _); [done|].
  destruct (word_decode _) as [d|] eqn:Hd; [|done]. cbn [mbind option_bind] in Hw.
  destruct (next_word _) as [r|] eqn:Hr; [|done]. injection Hw as <- <-.
  split; [|by eexists]. apply next_word_length in Hr. rewrite length_skip in Hr.
  apply word_end_pos in Hn as [Hn Hne]. destruct rest; [done|]. simpl in *. lia.
Qed.

Lemma login_words_fuel fuel rest result :
  (String.length rest < fuel)%nat → login_words fuel rest result ≠ None.
Proof.
  revert rest result. induction fuel as [|fuel IH]; intros rest result Hf; [lia|].
  simpl. case_bool_decide; [done|]. destruct (login_word rest) as [[d r]|] eqn:Hw; [|done].
  apply login_word_inv in Hw as [Hw _]. apply IH. lia.
Qed.

Lemma bind_some {A B} (f : A → option B) o b : o ≫= f = Some b → ∃ a, o = Some a ∧ f a = Some b.
Proof. destruct o; [eauto|done]. Qed.

Lemma q_decode_range text bs : q_decode text = Some bs → Forall (λ b, 0 <= b <= 255) bs.
Proof.
  revert bs. induction text as [text IH] using (induction_ltof1 _ (@length Z)). unfold ltof in IH.
  destruct text as [|b text]; cbn [q_decode]; [intros ? [= <-]; constructor|]. intros bs.
  destruct (b =? 95).
  { intros (l & Hl & ->)%fmap_Some. constructor; [lia|eapply IH; [|exact Hl]; simpl; lia]. }
  destruct (b =? 61).
  - destruct text as [|h [|l text]]; [done..|].
    intros (x & Hx & (y & Hy & (m & Hm & ->)%fmap_Some)%bind_some)%bind_some.
    constructor; [|eapply IH; [|exact Hm]; simpl; lia].
    unfold hex, in_range in *. repeat case_match; simplify_eq; lia.
  - destruct (in_range 33 b 126 && _) eqn:Hb; [|done]. intros (m & Hm & ->)%fmap_Some.
    constructor; [unfold in_range in *; lia|eapply IH; [|exact Hm]; simpl; lia].
Qed.

Lemma word_text_utf8 charset encoding text t :
  word_text charset encoding text = Some t → is_Some (utf8_decode (bytes t)).
Proof.
  unfold word_text. destruct (_ || _); [done|].
  intros (l & Hl & (c & Hc & [= <-])%bind_some)%bind_some.
  assert (Forall (λ b, 0 <= b <= 255) l) as Hr.
  { repeat case_match; [|by eapply q_decode_range|done].
    apply fmap_Some in Hl as (x & _ & ->). apply bytes_range. }
  rewrite bytes_of_bytes by done. by eexists.
Qed.

Lemma word_decode_utf8 word t : word_decode word = Some t → is_Some (utf8_decode (bytes t)).
Proof.
  unfold word_decode. intros (b & _ & (b' & _ & Hm)%bind_some)%bind_some.
  repeat case_match; simplify_eq. by eapply word_text_utf8.
Qed.

Lemma login_words_utf8 fuel rest result r :
  is_Some (utf8_decode (bytes result)) → login_words fuel rest result = Some (Some r) →
  is_Some (utf8_decode (bytes r)).
Proof.
  revert rest result. induction fuel as [|fuel IH]; intros rest result Hres; [done|].
  simpl. case_bool_decide; [by intros [= <-]|].
  destruct (login_word rest) as [[d rest']|] eqn:Hw; [|done].
  apply login_word_inv in Hw as [_ [word Hword]]. apply IH.
  apply word_decode_utf8 in Hword as [c Hc]. destruct Hres as [c0 Hc0].
  rewrite bytes_app. eexists. by apply utf8_decode_app.
Qed.

Lemma ascii_utf8 l : forallb (λ b, in_range 33 b 126) l = true → utf8_decode l = Some l.
Proof.
  induction l as [|b l IH]; [done|]. cbn. intros [Hb Hl]%andb_true_iff.
  unfold in_range in Hb. rewrite (proj2 (Z.ltb_lt b 128)) by lia. by rewrite IH.
Qed.

(** [decode_login] always decides: the fuel of its loop is the length of
    the header, and it never runs out. *)
Theorem decode_login_terminates rest :
  login_words (S (String.length rest)) rest EmptyString ≠ None.
Proof. apply login_words_fuel. lia. Qed.

(** An accepted login is a non-empty text of valid UTF-8 without a
    control character; a header that is not an encoded word is accepted as it
    is or not at all. *)
Theorem decode_login_clean input login : decode_login input = Some login →
  login ≠ EmptyString ∧ is_Some (utf8_decode (bytes login))
  ∧ existsb is_control (chars login) = false
  ∧ (starts_with "=?" input = false → login = input ∧ contains "=?" input = false).
Proof.
  unfold decode_login. destruct (starts_with "=?" input); cbn [negb].
  - intros (r & Hr & Hout)%bind_some. destruct (_ || _) eqn:Hbad; [done|].
    injection Hout as <-. apply orb_false_iff in Hbad as [Hne Hctl].
    apply bool_decide_eq_false in Hne. split_and!; [done| |done|done].
    destruct (login_words _ _ _) as [o|] eqn:Hw; [|done]. simpl in Hr. subst o.
    eapply login_words_utf8; [|exact Hw]. by eexists.
  - destruct (_ && _) eqn:Hok; [|done]. intros [= <-].
    apply andb_true_iff in Hok as [[Hne Hall]%andb_true_iff Hcon].
    apply negb_true_iff, bool_decide_eq_false in Hne. apply negb_true_iff in Hcon.
    pose proof (ascii_utf8 _ Hall) as Hu. split_and!; [done|by eexists| |done].
    unfold chars. rewrite Hu. simpl. clear -Hall.
    induction (bytes input) as [|b l IH]; [done|]. simpl in *.
    apply andb_true_iff in Hall as [Hb Hl]. rewrite IH by done.
    unfold is_control, in_range in *. lia.
Qed.

(** *** A [Q] encoder, to read back *)

Definition hex_digit (d : Z) : Z := if d <? 10 then 48 + d else 55 + d.
Definition q_encode (l : list Z) : list Z :=
  concat ((λ b, [61; hex_digit (b / 16); hex_digit (b mod 16)]) <$> l).
Definition q_word (login : string) : string :=
  "=?UTF-8?Q?" +:+ (of_bytes (q_encode (bytes login)) +:+ "?=").

Lemma hex_hex_digit d : 0 <= d < 16 → hex (hex_digit d) = Some d.
Proof.
  intros Hd. unfold hex_digit, hex, in_range.
  destruct (Z.ltb_spec d 10); repeat case_match; f_equal; lia.
Qed.
Lemma hex_digit_range d : 0 <= d < 16 → 48 <= hex_digit d <= 70 ∧ hex_digit d ≠ 63.
Proof. intros Hd. unfold hex_digit. destruct (Z.ltb_spec d 10); lia. Qed.

Lemma nibbles b : 0 <= b <= 255 → 0 <= b / 16 < 16 ∧ 0 <= b mod 16 < 16.
Proof. intros Hb. split; [split; [apply Z.div_pos; lia|apply Z.div_lt_upper_bound; lia]|apply Z.mod_pos_bound; lia]. Qed.

Lemma q_decode_encode l : Forall (λ b, 0 <= b <= 255) l → q_decode (q_encode l) = Some l.
Proof.
  induction 1 as [|b l Hb _ IH]; [done|]. destruct (nibbles b Hb) as [Hh Hl].
  change (q_encode (b :: l)) with (61 :: hex_digit (b / 16) :: hex_digit (b mod 16) :: q_encode l).
  cbn [q_decode]. rewrite (hex_hex_digit _ Hh). cbn. rewrite (hex_hex_digit _ Hl). cbn.
  rewrite IH. cbn. do 2 f_equal. rewrite (Z.div_mod b 16) at 3 by lia. lia.
Qed.

Lemma q_encode_range l : Forall (λ b, 0 <= b <= 255) l →
  Forall (λ b, 0 <= b <= 255 ∧ b ≠ 63) (q_encode l).
Proof.
  induction 1 as [|b l Hb _ IH]; [constructor|].
  destruct (nibbles b Hb) as [Hh%hex_digit_range Hl%hex_digit_range].
  change (q_encode (b :: l)) with (61 :: hex_digit (b / 16) :: hex_digit (b mod 16) :: q_encode l).
  repeat constructor; try done; lia.
Qed.
Lemma q_encode_length l : length (q_encode l) = (3 * length l)%nat.
Proof. induction l as [|b l IH]; [done|]. cbn in *. unfold q_encode in IH. lia. Qed.

(** An encoded word alone in the header. *)
Lemma word_end_single e : plain e = true →
  word_end ("=?UTF-8?Q?" +:+ (e +:+ "?=")) = Some (String.length e + 12)%nat.
Proof.
  intros He. unfold word_end. set (x := e +:+ "?=").
  change (strip_prefix "=?" ("=?UTF-8?Q?" +:+ x)) with (Some ("UTF-8?Q?" +:+ x)).
  cbn [mbind option_bind]. change (find_str "?" ("UTF-8?Q?" +:+ x)) with (Some 5%nat).
  cbn [mbind option_bind]. change (skip (5 + 2 + 1) ("=?UTF-8?Q?" +:+ x)) with ("Q?" +:+ x).
  change (find_str "?" ("Q?" +:+ x)) with (Some 1%nat). cbn [mbind option_bind].
  change (skip (1 + (5 + 2) + 2) ("=?UTF-8?Q?" +:+ x)) with x.
  unfold x. rewrite find_end by done. cbn [mbind option_bind]. f_equal. lia.
Qed.

Lemma word_decode_single e : plain e = true →
  word_decode ("=?UTF-8?Q?" +:+ (e +:+ "?=")) = word_text "UTF-8" "Q" e.
Proof.
  intros He. unfold word_decode. set (x := e +:+ "?=").
  change (strip_prefix "=?" ("=?UTF-8?Q?" +:+ x)) with (Some ("UTF-8?Q?" +:+ x)).
  cbn [mbind option_bind].
  assert (strip_suffix "?=" ("UTF-8?Q?" +:+ x) = Some ("UTF-8?Q?" +:+ e)) as ->.
  { unfold strip_suffix, x. change ("UTF-8?Q?" +:+ (e +:+ "?=")) with (("UTF-8?Q?" +:+ e) +:+ "?=").
    rewrite length_app_str. set (y := "UTF-8?Q?" +:+ e).
    replace (String.length y + String.length "?=" - String.length "?=")%nat with (String.length y)
      by (simpl; lia).
    rewrite skip_app, prefix_app, !bool_decide_true by (done || (simpl; lia)). done. }
  cbn [mbind option_bind].
  change (split_on (char_of 63) ("UTF-8?Q?" +:+ e)) with
    (match "Q" :: split_on (char_of 63) e with p :: ps => "UTF-8" :: p :: ps | [] => [] end).
  by rewrite split_plain.
Qed.

Lemma plain_of_bytes l : Forall (λ b, 0 <= b <= 255 ∧ b ≠ 63) l → plain (of_bytes l) = true.
Proof.
  intros Hl. unfold plain. rewrite bytes_of_bytes by (eapply Forall_impl; [exact Hl|]; naive_solver).
  apply forallb_Forall. eapply Forall_impl; [exact Hl|]. simpl. intros b [_ Hb].
  by apply negb_true_iff, Z.eqb_neq.
Qed.

Lemma of_bytes_length l : String.length (of_bytes l) = length l.
Proof. unfold of_bytes. induction l as [|b l IH]; [done|]. exact (f_equal S IH). Qed.

(** Reading back: the [Q]-encoded word of any printable login of at most
    21 bytes decodes to that login, whatever characters it has. *)
Theorem decode_login_roundtrip login :
  login ≠ EmptyString → len login <= 21 → is_Some (utf8_decode (bytes login)) →
  existsb is_control (chars login) = false → decode_login (q_word login) = Some login.
Proof.
  intros Hne Hlen [cs Hutf] Hctl.
  set (e := of_bytes (q_encode (bytes login))).
  assert (plain e = true) as He by (apply plain_of_bytes, q_encode_range, bytes_range).
  assert (String.length e = 3 * String.length login)%nat as Hl.
  { unfold e. by rewrite of_bytes_length, q_encode_length, length_bytes. }
  assert (bytes e = q_encode (bytes login)) as Hb.
  { apply bytes_of_bytes. eapply Forall_impl; [apply q_encode_range, bytes_range|]. naive_solver. }
  assert (word_text "UTF-8" "Q" e = Some login) as Htext.
  { unfold word_text. rewrite (bool_decide_false (e = EmptyString)).
    - change (negb (eq_ignore_ascii_case "UTF-8" "utf-8") || false) with false. cbn iota.
      change (eq_ignore_ascii_case "Q" "b") with false.
      change (eq_ignore_ascii_case "Q" "q") with true. cbn iota.
      rewrite Hb, q_decode_encode by apply bytes_range. cbn [mbind option_bind].
      rewrite Hutf. cbn [mbind option_bind]. by rewrite of_bytes_bytes.
    - intros Hnil. rewrite Hnil in Hl. destruct login; [done|]. simpl in Hl. lia. }
  assert (String.length (q_word login) = String.length e + 12)%nat as Hw.
  { unfold q_word. fold e. rewrite !length_app_str. simpl. lia. }
  assert (login_word (q_word login) = Some (login, EmptyString)) as Hword.
  { unfold login_word, q_word. fold e. rewrite word_end_single by done. cbn [mbind option_bind].
    unfold q_word in Hw. fold e in Hw. rewrite <-Hw.
    rewrite prefix_all, skip_all.
    destruct (Z.ltb_spec 75 (len ("=?UTF-8?Q?" +:+ (e +:+ "?=")))) as [Hlong|_].
    { unfold len in *. lia. }
    rewrite word_decode_single, Htext by done. done. }
  unfold decode_login. change (starts_with "=?" (q_word login)) with true. cbn [negb].
  rewrite Hw, Nat.add_comm. cbn [login_words Nat.add].
  rewrite bool_decide_false by (intros Hnil; rewrite Hnil in Hw; simpl in Hw; lia).
  rewrite Hword. cbn [login_words]. rewrite bool_decide_true by done.
  cbn [from_option id mbind option_bind]. change ("" +:+ login) with login.
  by rewrite bool_decide_false, Hctl by done.
Qed.
End Login.

(** ** [Guard::check] *)

Section Check.
Context `{Base64, Crypto, !CryptoLaws _, Http, !HttpLaws _}.

(** The conditions of [check], all but the rate. *)
Definition admissible (g : Guard) (method : string) (uri : Uri) (headers : HeaderMap) : Prop :=
  let origin_ok := one "origin" headers = Some g.(gd_origin) in
  Z.of_nat (length headers) <= 64
  ∧ foldr Z.add 0 (header_size <$> headers) <= 16384
  ∧ (∃ host, one "host" headers = Some host ∧ eq_ignore_ascii_case host g.(gd_host) = true)
  ∧ uri.(uri_has_authority) = false ∧ uri.(uri_has_scheme) = false
  ∧ (∃ secret, one "yzc-proxy-secret" headers = Some secret ∧ g.(gd_proxy_secret) = hash secret)
  ∧ (∃ text, one "yzc-peer-login" headers = Some text ∧ decode_login text = Some g.(gd_login))
  ∧ (method ≠ "GET" ∨ headers_contain "upgrade" headers = true ∨ uri.(uri_path) = "/ws" → origin_ok)
  ∧ (method = "GET" → starts_with "/api/" uri.(uri_path) = true →
       origin_ok ∨ headers_contain "origin" headers = false
                   ∧ one "sec-fetch-site" headers = Some "same-origin").

Definition same_but_buckets (g g' : Guard) : Prop :=
  g' = mkGuard g.(gd_host) g.(gd_login) g.(gd_proxy_secret) g.(gd_origin)
         g'.(gd_static_bucket) g'.(gd_api_bucket).

Definition charged (now : Z) (uri : Uri) (g : Guard) : bool * Guard :=
  if is_api uri.(uri_path)
  then let '(taken, b) := bucket_take now g.(gd_api_bucket) in (taken, with_api_bucket b g)
  else let '(taken, b) := bucket_take now g.(gd_static_bucket) in (taken, with_static_bucket b g).

(** [check] is its list of conditions: a request that meets them is
    charged to the bucket of its path and refused for the rate alone; any other
    request is refused for another reason, and no bucket changes. *)
Theorem guard_check_exact now method uri headers g :
  (admissible g method uri headers ∧
     guard_check now method uri headers g =
       (if (charged now uri g).1 then Ok tt else Err TOO_MANY_REQUESTS, (charged now uri g).2))
  ∨ (¬ admissible g method uri headers ∧
     ∃ status, guard_check now method uri headers g = (Err status, g)
       ∧ status ≠ TOO_MANY_REQUESTS).
Proof.
  set (m := guard_check now method uri headers). cut (wp m (λ r g',
    (admissible g method uri headers
     ∧ (r, g') = (if (charged now uri g).1 then Ok tt else Err TOO_MANY_REQUESTS, (charged now uri g).2))
    ∨ (¬ admissible g method uri headers ∧ ∃ status, (r, g') = (Err status, g) ∧ status ≠ TOO_MANY_REQUESTS)) g).
  { unfold wp. by rewrite <-surjective_pairing. }
  subst m. unfold guard_check. unfold id at 1.
  assert (∀ status, status ≠ TOO_MANY_REQUESTS → ¬ admissible g method uri headers →
    (admissible g method uri headers
     ∧ (Err status, g) = (if (charged now uri g).1 then Ok tt else Err TOO_MANY_REQUESTS, (charged now uri g).2))
    ∨ (¬ admissible g method uri headers
       ∧ ∃ s, (Err status : outcome Z unit, g) = (Err s, g) ∧ s ≠ TOO_MANY_REQUESTS)) as Hno by eauto.
  do 3 wp_step.
  wp_step; [apply Hno; [done|]; intros (Hc & Hs & _); unfold HEADER_COUNT, HEADER_LIMIT in *; lia|].
  apply orb_false_iff in Heqb as [Hcount%Z.ltb_ge Hsize%Z.ltb_ge].
  do 2 wp_step; [|apply Hno; [done|]; intros (_ & _ & (? & ? & _) & _); congruence].
  do 2 wp_step.
  { apply Hno; [done|]. intros (_ & _ & (? & Hh & Heq) & Ha & Hb & _).
    rewrite Heqo in Hh. injection Hh as <-. by rewrite Heq, Ha, Hb in Heqb. }
  apply orb_false_iff in Heqb as [[Hhost%negb_false_iff Haut]%orb_false_iff Hsch].
  do 2 wp_step; [|apply Hno; [done|]; intros (_ & _ & _ & _ & _ & (? & ? & _) & _); congruence].
  do 2 wp_step.
  { apply Hno; [done|]. intros (_ & _ & _ & _ & _ & (x & Hx & Heq) & _).
    rewrite Heqo0 in Hx. injection Hx as <-. apply negb_true_iff in Heqb.
    rewrite (proj2 (matches_iff _ _) Heq) in Heqb. done. }
  apply negb_false_iff, matches_iff in Heqb as Hsecret.
  do 2 wp_step; cycle 1.
  { apply Hno; [done|]. intros (_ & _ & _ & _ & _ & _ & (x & Hx & Heq) & _).
    rewrite Hx in Heqo1. simpl in Heqo1. congruence. }
  apply bind_some in Heqo1 as (text & Htext & Hlogin).
  do 2 wp_step.
  { apply Hno; [done|]. intros (_ & _ & _ & _ & _ & _ & (x & Hx & Heq) & _).
    apply negb_true_iff, bool_decide_eq_false in Heqb0. congruence. }
  apply negb_false_iff, bool_decide_eq_true in Heqb0 as ->. cbn zeta.
  do 2 wp_step.
  { apply Hno; [done|]. intros (_ & _ & _ & _ & _ & _ & _ & Hor & _).
    apply andb_true_iff in Heqb0 as [Hneed Hbad]. apply negb_true_iff, bool_decide_eq_false in Hbad.
    apply Hbad, Hor. rewrite !orb_true_iff, negb_true_iff, bool_decide_eq_false, bool_decide_eq_true in Hneed.
    tauto. }
  rename Heqb0 into Horigin. do 2 wp_step.
  { apply Hno; [done|]. intros (_ & _ & _ & _ & _ & _ & _ & _ & Hor).
    rewrite !andb_true_iff, orb_true_iff, !negb_true_iff, !bool_decide_eq_false,
      bool_decide_eq_true in Heqb0.
    destruct Heqb0 as [[[Hm Hapi] Hbad] Hsite]. destruct (Hor Hm Hapi) as [|[Hn Hs]]; [done|].
    destruct Hsite; congruence. }
  rename Heqb0 into Hsite. left. split.
  - split_and!; try done; eauto.
    + intros Hneed. apply andb_false_iff in Horigin as [Hn|Ho].
      * rewrite !orb_false_iff, negb_false_iff, bool_decide_eq_false, bool_decide_eq_true in Hn.
        destruct Hn as [[Hm Hu] Hw]. destruct Hneed as [|[|]]; congruence.
      * by apply negb_false_iff, bool_decide_eq_true in Ho.
    + intros Hm Hapi. rewrite Hm, Hapi in Hsite.
      destruct (decide (one "origin" headers = Some (gd_origin g))) as [|Hne]; [by left|right].
      rewrite (bool_decide_false _ Hne) in Hsite. simpl in Hsite.
      apply orb_false_iff in Hsite as [Hn Hs]. by apply negb_false_iff, bool_decide_eq_true in Hs.
  - unfold charged. destruct (is_api (uri_path uri)); destruct (bucket_take _ _) as [taken b];
      unfold wp, bind, modify, reject_if; destruct taken; reflexivity.
Qed.
End Check.

(** ** The rate *)

(** [n] requests to one bucket at [now]. *)
Fixpoint take_n (n : nat) (now : Z) (b : Bucket) : list bool * Bucket :=
  match n with
  | O => ([], b)
  | S n => let '(taken, b) := bucket_take now b in
           let '(l, b) := take_n n now b in (taken :: l, b)
  end.

Lemma bucket_take_shift now now' t u u' : now - u = now' - u' →
  bucket_take now (mkBucket t u) = ((bucket_take now' (mkBucket t u')).1,
    mkBucket (b_tokens (bucket_take now' (mkBucket t u')).2) now).
Proof.
  intros Hd. unfold bucket_take, refill. cbn [b_tokens b_updated]. rewrite Hd.
  by destruct (f64_lt _ _).
Qed.

Lemma take_n_shift n now now' t : take_n n now (mkBucket t now) =
  ((take_n n now' (mkBucket t now')).1, mkBucket (b_tokens (take_n n now' (mkBucket t now')).2) now).
Proof.
  revert t. induction n as [|n IH]; intros t; [done|]. cbn [take_n].
  rewrite (bucket_take_shift now now' t now now') by lia.
  destruct (bucket_take now' (mkBucket t now')) as [taken [t' u']] eqn:Hb. cbn [fst snd b_tokens].
  assert (u' = now') as -> by (unfold bucket_take in Hb; case_match; by simplify_eq).
  rewrite IH. by destruct (take_n n now' _).
Qed.

(** A full bucket lets sixty requests of one instant through and refuses the
    sixty-first; 100 ms later one more passes, and the one after is refused; the
    level used is never above the burst. *)
Theorem rate_limit now b :
  (take_n 61 now (mkBucket (f64_from RATE_BURST) now)).1 = replicate 60 true ++ [false]
  ∧ (let drained := (take_n 61 now (mkBucket (f64_from RATE_BURST) now)).2 in
     (take_n 2 (now + 100000000) drained).1 = [true; false])
  ∧ f64_lt (f64_from RATE_BURST) (refill now b) = false.
Proof.
  split_and!.
  - rewrite (take_n_shift _ now 0). vm_compute. reflexivity.
  - cbn zeta. rewrite (take_n_shift _ now 0). cbn [take_n snd].
    rewrite (bucket_take_shift (now + 100000000) 100000000 _ now 0) by lia.
    destruct (bucket_take 100000000 _) as [x [t u]] eqn:Hb. vm_compute in Hb. injection Hb as <- <- <-.
    cbn [fst snd b_tokens]. rewrite (bucket_take_shift _ 100000000 _ _ 100000000) by lia.
    vm_compute. reflexivity.
  - unfold refill. set (c := f64_from RATE_BURST). vm_compute in c. subst c.
    generalize (f64_add b.(b_tokens) (f64_mul (as_secs_f64 (Z.max 0 (now - b.(b_updated)))) RATE_PER_SECOND)).
    intros a. unfold f64_min. destruct a as [s|s| |s m e]; [by destruct s|by destruct s|reflexivity|].
    destruct (f64_lt _ (S754_finite s m e)) eqn:Hlt; [reflexivity|exact Hlt].
Qed.

(** ** Requests *)

Definition sim_guard : Guard :=
  mkGuard "host.ts.net" "ann@example" (hash "secret") "https://host.ts.net"
    (mkBucket (f64_from RATE_BURST) 0) (mkBucket (f64_from RATE_BURST) 0).
Definition sim_headers : HeaderMap :=
  [("host", "HOST.ts.net"); ("yzc-proxy-secret", "secret"); ("yzc-peer-login", "ann@example");
   ("sec-fetch-site", "same-origin")].
Definition sim_uri : Uri := mkUri "/api/devices" false false.

Lemma guard_check_exact_witness :
  (guard_check 5 "GET" sim_uri sim_headers sim_guard).1 = Ok tt
  ∧ ¬ admissible sim_guard "POST" sim_uri sim_headers.
Proof.
  split; [vm_compute; reflexivity|].
  destruct (guard_check_exact 5 "POST" sim_uri sim_headers sim_guard) as [[_ H]|[H _]]; [|exact H].
  exfalso. apply (f_equal fst) in H. vm_compute in H. discriminate H.
Defined.

Definition sim_login : string := of_bytes [195; 132; 110; 110].
Lemma decode_login_roundtrip_witness : decode_login (q_word sim_login) = Some sim_login.
Proof.
  apply (decode_login_roundtrip sim_login); [done|vm_compute; discriminate| |vm_compute; reflexivity].
  eexists. vm_compute. reflexivity.
Defined.

Lemma decode_login_clean_witness :
  decode_login "ann@example" = Some "ann@example" ∧ "ann@example" ≠ EmptyString.
Proof.
  split; [vm_compute; reflexivity|].
  apply (decode_login_clean "ann@example" "ann@example"). vm_compute. reflexivity.
Defined.
