(* ===== verification/Events.v ===== *)
(** * [admin.rs], the event queue

    One bounded queue of 64 events in front of stdout.  Ordinary events (write
    audits, open announcements, push traffic) need one of 48 audit permits
    first, so 16 slots are always left to lifecycle and tightening events; two
    pools of reservations bound what may be set aside before a host mutation. *)

From stdpp Require Import base gmap strings list.
From Stdlib Require Import ZArith Lia.
From S2P Require Import Prelude Rust Externals Crates Clock Devices Admin.

Definition EVENT_QUEUE_CAPACITY : nat := 64.
Definition AUDIT_SLOTS : nat := EVENT_QUEUE_CAPACITY - 16.
Definition BUCKET_RESERVATIONS : nat := 12.
Definition ANNOUNCEMENT_RESERVATIONS : nat := 4.

(** [written] is the writer's ACK channel of [emit]; [qe_audit] says the event
    holds an audit permit. *)
Record QueuedEvent := mkQueued {
  qe_event : Event;
  qe_written : bool;
  qe_audit : bool;
}.

Section EventSender.
Context `{Tokio}.

Record EventSender := mkEventSender {
  es_sender : Chan QueuedEvent;
  es_audit_slots : Sem;
  es_bucket_reservations : Sem;
  es_announcement_reservations : Sem;
}.

Inductive Pool := BucketPool | AnnouncementPool.
Definition pool_get (p : Pool) (s : EventSender) : Sem :=
  match p with
  | BucketPool => s.(es_bucket_reservations)
  | AnnouncementPool => s.(es_announcement_reservations)
  end.
Definition pool_set (p : Pool) (v : Sem) (s : EventSender) : EventSender :=
  match p with
  | BucketPool => mkEventSender s.(es_sender) s.(es_audit_slots) v
                    s.(es_announcement_reservations)
  | AnnouncementPool => mkEventSender s.(es_sender) s.(es_audit_slots)
                          s.(es_bucket_reservations) v
  end.
Definition with_chan (c : Chan QueuedEvent) (s : EventSender) : EventSender :=
  mkEventSender c s.(es_audit_slots) s.(es_bucket_reservations)
    s.(es_announcement_reservations).
Definition with_audit (a : Sem) (s : EventSender) : EventSender :=
  mkEventSender s.(es_sender) a s.(es_bucket_reservations) s.(es_announcement_reservations).

(** [EventSender::reserve]: the permits taken before a failed [?] are dropped. *)
Definition reserve (p : Pool) (s : EventSender) : bool * EventSender :=
  match sem_try_acquire (pool_get p s) with
  | None => (false, s)
  | Some reservation =>
      let s := pool_set p reservation s in
      match sem_try_acquire s.(es_audit_slots) with
      | None => (false, pool_set p (sem_release reservation) s)
      | Some audit =>
          let s := with_audit audit s in
          match chan_try_reserve s.(es_sender) with
          | None => (false, with_audit (sem_release audit)
                              (pool_set p (sem_release reservation) s))
          | Some c => (true, with_chan c s)
          end
      end
  end.
Definition reserve_bucket : EventSender → bool * EventSender := reserve BucketPool.
Definition reserve_announcement : EventSender → bool * EventSender := reserve AnnouncementPool.

(** [EventReservation::emit]: the queued event takes the audit permit over,
    the pool permit is dropped. *)
Definition reservation_emit (p : Pool) (event : Event) (s : EventSender) : EventSender :=
  let s := with_chan (chan_permit_send (mkQueued event false true) s.(es_sender)) s in
  pool_set p (sem_release (pool_get p s)) s.
(** Dropping an [EventReservation] unused. *)
Definition reservation_drop (p : Pool) (s : EventSender) : EventSender :=
  let s := with_chan (chan_permit_drop s.(es_sender)) s in
  let s := with_audit (sem_release s.(es_audit_slots)) s in
  pool_set p (sem_release (pool_get p s)) s.

Definition available (s : EventSender) : bool :=
  negb (chan_closed s.(es_sender)) && bool_decide (0 < chan_free s.(es_sender))
  && bool_decide (0 < sem_permits s.(es_audit_slots)).

(** The event classes of [try_emit]. *)
Definition ordinary (event : Event) : bool :=
  match event.(ev_body) with
  | EvAudit _ _ _ _ _ action _ _ _ _ =>
      negb (bool_decide (action ∈ ["terminal.release"; "full.close"; "expiry"; "revoke"]))
  | EvControlState _ _ _ _ _ _ _ open => open
  | EvFullState _ _ _ _ _ open => open
  | EvAuditDropped _ _ _ _ => true
  | EvPushSubscription _ _ _ _ => true
  | EvPushRequest _ _ => true
  | _ => false
  end.

(** [EventSender::try_emit] *)
Definition sender_try_emit (event : Event) (s : EventSender) : bool * EventSender :=
  if ordinary event then
    match sem_try_acquire s.(es_audit_slots) with
    | None => (false, s)
    | Some audit =>
        match chan_try_send (mkQueued event false true) s.(es_sender) with
        | Some c => (true, with_chan c (with_audit audit s))
        | None => (false, with_audit (sem_release audit) s)
        end
    end
  else
    match chan_try_send (mkQueued event false false) s.(es_sender) with
    | Some c => (true, with_chan c s)
    | None => (false, s)
    end.

(** [EventSender::emit] up to the enqueue; [None] while the queue is full or
    once it is closed.  The rest of [emit] waits for the writer's ACK. *)
Definition sender_emit (event : Event) (s : EventSender) : option EventSender :=
  (λ c, with_chan c s) <$> chan_try_send (mkQueued event true false) s.(es_sender).

(** One turn of the writer's loop.  The audit permit of the event is dropped
    after the write; a failed or timed-out write ends the task, which closes
    the queue. *)
Definition writer_write (s : EventSender) : option (QueuedEvent * EventSender) :=
  match chan_recv s.(es_sender) with
  | None => None
  | Some (q, c) =>
      let s := with_chan c s in
      Some (q, if q.(qe_audit) then with_audit (sem_release s.(es_audit_slots)) s else s)
  end.
Definition writer_fail (s : EventSender) : EventSender :=
  with_chan (chan_close s.(es_sender)) s.

(** The queue [spawn_writer] makes. *)
Definition new_event_sender : EventSender :=
  mkEventSender (chan_new EVENT_QUEUE_CAPACITY) (sem_new AUDIT_SLOTS)
    (sem_new BUCKET_RESERVATIONS) (sem_new ANNOUNCEMENT_RESERVATIONS).

(** ** The queue as a system

    [buckets] and [announcements] count the reservations that are out,
    [accepted] is every event enqueued and [written] every event written. *)
Record Queue := mkQueue {
  q_sender : EventSender;
  q_buckets : nat;
  q_announcements : nat;
  q_accepted : list Event;
  q_written : list Event;
}.
Definition pool_count (p : Pool) (q : Queue) : nat :=
  match p with BucketPool => q.(q_buckets) | AnnouncementPool => q.(q_announcements) end.
Definition pool_move (p : Pool) (n : nat) (q : Queue) (s : EventSender) (acc : list Event)
    : Queue :=
  match p with
  | BucketPool => mkQueue s n q.(q_announcements) acc q.(q_written)
  | AnnouncementPool => mkQueue s q.(q_buckets) n acc q.(q_written)
  end.
Definition queue_new : Queue := mkQueue new_event_sender 0 0 [] [].

Inductive queue_step : Queue → Queue → Prop :=
| step_try_emit q event ok s' :
    sender_try_emit event q.(q_sender) = (ok, s') →
    queue_step q (mkQueue s' q.(q_buckets) q.(q_announcements)
      (q.(q_accepted) ++ if ok then [event] else []) q.(q_written))
| step_emit q event s' :
    sender_emit event q.(q_sender) = Some s' →
    queue_step q (mkQueue s' q.(q_buckets) q.(q_announcements)
      (q.(q_accepted) ++ [event]) q.(q_written))
| step_reserve q p ok s' :
    reserve p q.(q_sender) = (ok, s') →
    queue_step q (pool_move p (pool_count p q + if ok then 1 else 0) q s' q.(q_accepted))
| step_reservation_emit q p n event :
    pool_count p q = S n →
    queue_step q (pool_move p n q (reservation_emit p event q.(q_sender))
      (q.(q_accepted) ++ [event]))
| step_reservation_drop q p n :
    pool_count p q = S n →
    queue_step q (pool_move p n q (reservation_drop p q.(q_sender)) q.(q_accepted))
| step_write q x s' :
    writer_write q.(q_sender) = Some (x, s') →
    queue_step q (mkQueue s' q.(q_buckets) q.(q_announcements) q.(q_accepted)
      (q.(q_written) ++ [x.(qe_event)])).

Inductive queue_reachable : Queue → Prop :=
| reachable_new : queue_reachable queue_new
| reachable_step q q' : queue_reachable q → queue_step q q' → queue_reachable q'.

Definition audited (q : Queue) : nat :=
  length (filter (λ x, x.(qe_audit) = true) (chan_queue q.(q_sender).(es_sender))).
Definition reserved (q : Queue) : nat := q.(q_buckets) + q.(q_announcements).

(** Where every permit is. *)
Record queue_wf (q : Queue) : Prop := {
  wf_slots : chan_free q.(q_sender).(es_sender) + reserved q
             + length (chan_queue q.(q_sender).(es_sender)) = EVENT_QUEUE_CAPACITY;
  wf_audit : sem_permits q.(q_sender).(es_audit_slots) + reserved q + audited q = AUDIT_SLOTS;
  wf_buckets : sem_permits q.(q_sender).(es_bucket_reservations) + q.(q_buckets)
               = BUCKET_RESERVATIONS;
  wf_announcements : sem_permits q.(q_sender).(es_announcement_reservations)
                     + q.(q_announcements) = ANNOUNCEMENT_RESERVATIONS;
  wf_fifo : q.(q_accepted)
            = q.(q_written) ++ (qe_event <$> chan_queue q.(q_sender).(es_sender));
  wf_class : Forall (λ x, x.(qe_audit) = true ∨ ordinary x.(qe_event) = false
                          ∨ x.(qe_written) = true)
                    (chan_queue q.(q_sender).(es_sender));
  wf_open : chan_closed q.(q_sender).(es_sender) = false;
}.
End EventSender.

Section EventQueue.
Context `{T : Tokio, !TokioLaws T}.

Lemma reserve_spec p s ok s' : reserve p s = (ok, s') →
  if ok
  then chan_queue (es_sender s') = chan_queue (es_sender s)
       ∧ chan_free (es_sender s) = S (chan_free (es_sender s'))
       ∧ chan_closed (es_sender s') = chan_closed (es_sender s)
       ∧ sem_permits (es_audit_slots s) = S (sem_permits (es_audit_slots s'))
       ∧ sem_permits (pool_get p s) = S (sem_permits (pool_get p s'))
       ∧ ∀ p', p' ≠ p → pool_get p' s' = pool_get p' s
  else es_sender s' = es_sender s
       ∧ sem_permits (es_audit_slots s') = sem_permits (es_audit_slots s)
       ∧ ∀ p', sem_permits (pool_get p' s') = sem_permits (pool_get p' s).
Proof.
  unfold reserve. intros Hr.
  destruct (sem_try_acquire (pool_get p s)) as [r|] eqn:Hp; [|by simplify_eq].
  apply sem_acquire_some in Hp.
  destruct (sem_try_acquire (es_audit_slots _)) as [a|] eqn:Ha.
  2: { simplify_eq. destruct p; simpl; (split; [done|]); (split; [done|]);
       intros []; simpl; rewrite ?sem_release_permits; done. }
  replace (es_audit_slots (pool_set p r s)) with (es_audit_slots s) in * by by destruct p.
  apply sem_acquire_some in Ha.
  destruct (chan_try_reserve _) as [c|] eqn:Hc; simplify_eq.
  - apply chan_reserve_some in Hc as (Hq & Hf & Hcl).
    destruct p; simpl in *; (repeat split); try congruence; intros []; simpl; congruence.
  - destruct p; simpl; (split; [done|]); rewrite ?sem_release_permits;
      (split; [done|]); intros []; simpl; rewrite ?sem_release_permits; done.
Qed.

Lemma try_emit_spec event s ok s' : sender_try_emit event s = (ok, s') →
  pool_get BucketPool s' = pool_get BucketPool s
  ∧ pool_get AnnouncementPool s' = pool_get AnnouncementPool s
  ∧ if ok
    then chan_queue (es_sender s') = chan_queue (es_sender s)
           ++ [mkQueued event false (ordinary event)]
         ∧ chan_free (es_sender s) = S (chan_free (es_sender s'))
         ∧ chan_closed (es_sender s') = chan_closed (es_sender s)
         ∧ sem_permits (es_audit_slots s)
           = sem_permits (es_audit_slots s') + (if ordinary event then 1 else 0)
    else es_sender s' = es_sender s
         ∧ sem_permits (es_audit_slots s') = sem_permits (es_audit_slots s).
Proof.
  unfold sender_try_emit. intros Hr. destruct (ordinary event).
  - destruct (sem_try_acquire (es_audit_slots s)) as [a|] eqn:Ha; [|by simplify_eq].
    apply sem_acquire_some in Ha. destruct (chan_try_send _ _) as [c|] eqn:Hc; simplify_eq.
    + apply chan_send_some in Hc as (? & ? & ?). simpl. repeat split; try done; lia.
    + simpl. rewrite sem_release_permits. done.
  - destruct (chan_try_send _ _) as [c|] eqn:Hc; simplify_eq; [|done].
    apply chan_send_some in Hc as (? & ? & ?). simpl. repeat split; try done; lia.
Qed.

Lemma audited_app (l : list QueuedEvent) x :
  length (filter (λ y, y.(qe_audit) = true) (l ++ [x]))
  = length (filter (λ y, y.(qe_audit) = true) l) + (if x.(qe_audit) then 1 else 0).
Proof.
  rewrite filter_app, length_app. f_equal. rewrite filter_cons.
  case_decide as Hx; [by rewrite Hx|]. destruct (qe_audit x); done.
Qed.

(** Counting goals by [lia], the log by reassociating, the classes of the
    queued events by cases on the new one. *)
Ltac wf_field :=
  unfold reserved, audited; simpl in *;
  rewrite ?audited_app, ?length_app, ?app_nil_r, ?sem_release_permits; simpl;
  try lia; try done; try congruence;
  try (match goal with Hf : q_accepted _ = _ |- _ => rewrite Hf end;
       rewrite ?fmap_app, ?app_assoc; done);
  try (apply Forall_app; split; [done|]; apply Forall_singleton; simpl;
       try match goal with |- context [ordinary ?e] => destruct (ordinary e) end; auto).

Lemma queue_step_wf q q' : queue_wf q → queue_step q q' → queue_wf q'.
Proof.
  intros [Hs Ha Hb Hn Hf Hc Ho] Hstep. unfold reserved, audited in *.
  destruct Hstep as [q e ok s' Hr|q e s' Hr|q p ok s' Hr|q p n e Hp|q p n Hp|q x s' Hr].
  - apply try_emit_spec in Hr as (Hp1 & Hp2 & Hr). simpl in Hp1, Hp2. destruct ok.
    + destruct Hr as (Hq & Hfr & Hcl & Hau). constructor; wf_field; rewrite ?Hq, ?Hp1, ?Hp2; wf_field.
    + destruct Hr as (Hq & Hau). constructor; wf_field; rewrite ?Hq, ?Hp1, ?Hp2; wf_field.
  - unfold sender_emit in Hr. destruct (chan_try_send _ _) as [c|] eqn:Hsend; [|done].
    injection Hr as <-. apply chan_send_some in Hsend as (Hq & Hfr & Hcl).
    constructor; wf_field; rewrite ?Hq; wf_field.
  - apply reserve_spec in Hr. destruct ok.
    + destruct Hr as (Hq & Hfr & Hcl & Hau & Hpo & Hother).
      destruct p;
        [pose proof (Hother AnnouncementPool ltac:(done))|pose proof (Hother BucketPool ltac:(done))];
        constructor; wf_field; rewrite ?Hq; wf_field.
    + destruct Hr as (Hq & Hau & Hpo).
      pose proof (Hpo BucketPool). pose proof (Hpo AnnouncementPool).
      destruct p; constructor; wf_field; rewrite ?Hq; wf_field.
  - destruct p; constructor; wf_field;
      rewrite ?chan_permit_send_queue, ?chan_permit_send_free, ?chan_permit_send_closed;
      wf_field.
  - destruct p; constructor; wf_field;
      rewrite ?chan_permit_drop_queue, ?chan_permit_drop_free, ?chan_permit_drop_closed;
      wf_field.
  - unfold writer_write in Hr. destruct (chan_recv _) as [[y c]|] eqn:Hrecv; [|done].
    injection Hr as -> <-. apply chan_recv_some in Hrecv as (Hq & Hfr & Hcl).
    rewrite Hq in *. apply Forall_cons in Hc as [_ Hc].
    rewrite filter_cons in Ha. destruct (qe_audit x) eqn:Hx;
      [rewrite decide_True in Ha by done|rewrite decide_False in Ha by done];
      constructor; wf_field; by rewrite Hf, <- app_assoc.
Qed.

Lemma queue_reachable_wf q : queue_reachable q → queue_wf q.
Proof.
  induction 1 as [|q q' _ IH Hstep]; [|by eapply queue_step_wf].
  constructor; unfold reserved, audited; simpl;
    rewrite ?chan_new_queue, ?chan_new_free, ?chan_new_open, ?sem_new_permits; simpl; done || lia.
Qed.

Lemma audited_split (l : list QueuedEvent) :
  length l = length (filter (λ x, x.(qe_audit) = true) l)
             + length (filter (λ x, x.(qe_audit) = false) l).
Proof.
  induction l as [|x l IH]; [done|]. rewrite !filter_cons. simpl.
  destruct (qe_audit x) eqn:Hx.
  - rewrite (decide_True (P := true = true)), (decide_False (P := true = false)) by done. simpl. lia.
  - rewrite (decide_False (P := false = true)), (decide_True (P := false = false)) by done. simpl. lia.
Qed.

(** Ordinary traffic cannot crowd out security events: in every state the
    queue can reach, an event that is not ordinary is refused only when at
    least 16 events that hold no audit permit are already waiting. *)
Theorem lifecycle_slots (q : Queue) (event : Event) :
  queue_reachable q → ordinary event = false →
  (sender_try_emit event q.(q_sender)).1 = false →
  16 <= length (filter (λ x, x.(qe_audit) = false) (chan_queue q.(q_sender).(es_sender))).
Proof.
  intros [Hs Ha _ _ _ _ Ho]%queue_reachable_wf He Hno.
  unfold sender_try_emit in Hno. rewrite He in Hno.
  destruct (chan_try_send _ _) as [c|] eqn:Hsend; [done|].
  apply chan_send_none in Hsend as [Hfree|Hcl]; [|congruence].
  pose proof (audited_split (chan_queue (es_sender (q_sender q)))).
  unfold audited, EVENT_QUEUE_CAPACITY, AUDIT_SLOTS, EVENT_QUEUE_CAPACITY in *. lia.
Qed.

(** The writer is faithful: what has been written is a prefix of what was
    accepted, in order, and the rest is exactly what is still queued; nothing
    is lost, duplicated or reordered between a successful [try_emit], [emit]
    or reservation and stdout. *)
Theorem queue_fifo (q : Queue) :
  queue_reachable q →
  q.(q_accepted) = q.(q_written) ++ (qe_event <$> chan_queue q.(q_sender).(es_sender)).
Proof. intros Hq. apply queue_reachable_wf in Hq as []. done. Qed.

Definition enqueue (event : Event) (q : Queue) : Queue :=
  let '(ok, s') := sender_try_emit event q.(q_sender) in
  mkQueue s' q.(q_buckets) q.(q_announcements)
    (q.(q_accepted) ++ if ok then [event] else []) q.(q_written).
Lemma enqueue_reachable event q : queue_reachable q → queue_reachable (enqueue event q).
Proof.
  intros Hq. eapply reachable_step; [done|]. unfold enqueue.
  destruct (sender_try_emit event (q_sender q)) eqn:He. by constructor.
Qed.
Lemma enqueue_n_reachable n event q :
  queue_reachable q → queue_reachable (Nat.iter n (enqueue event) q).
Proof. induction n; [done|]. intros. by apply enqueue_reachable, IHn. Qed.
End EventQueue.

(** The queue filled with 48 push requests and 16 [ready] events refuses a
    seventeenth; the forty-ninth push request was refused already. *)
Definition full_queue : Queue :=
  Nat.iter 16 (enqueue (ready 1)) (Nat.iter 49
    (enqueue (push_request [] (mkPushPayload "" "" "" None "" None))) queue_new).

Lemma lifecycle_slots_witness :
  (queue_reachable full_queue ∧ ordinary (device_revoked "d") = false ∧
   (sender_try_emit (device_revoked "d") (q_sender full_queue)).1 = false) ∧
  16 <= length (filter (λ x, x.(qe_audit) = false) (chan_queue (es_sender (q_sender full_queue)))).
Proof.
  assert (queue_reachable full_queue) as Hq.
  { do 2 apply enqueue_n_reachable. constructor. }
  split; [split; [exact Hq|split; vm_compute; reflexivity]|].
  apply (lifecycle_slots full_queue (device_revoked "d")); [exact Hq|reflexivity|].
  vm_compute. reflexivity.
Defined.

Lemma queue_fifo_witness :
  queue_reachable full_queue ∧
  q_accepted full_queue
  = q_written full_queue ++ (qe_event <$> chan_queue (es_sender (q_sender full_queue))).
Proof.
  assert (queue_reachable full_queue) as Hq.
  { do 2 apply enqueue_n_reachable. constructor. }
  split; [exact Hq|]. exact (queue_fifo full_queue Hq).
Defined.
