(* ===== verification/World.v ===== *)
(** * The world the gateway's handlers run in

    A handler reads the clock, draws entropy, iterates over [HashMap]s and
    offers events to the admin queue, now or in a slot reserved before.  [World] is
    the interface to all four;
    the components are proved against its laws, for every world, so for every
    order of iteration and for every interleaving of the writer.  [real_world]
    discharges the laws from [Clock.observe] and [Events.sender_try_emit]. *)
From stdpp Require Import base gmap strings list.
From Stdlib Require Import ZArith Lia.
From S2P Require Import Prelude Rust Externals Crates Clock Devices Admin Events.
Local Open Scope Z_scope.

Class World (W : Type) := {
  world_now : W → Timestamp * W;
  world_random : Z → W → option string * W;       (* [secrets::random::<N>] *)
  world_challenge : W → string * W;               (* [Challenge::new] *)
  world_emit : Event → W → bool * W;              (* [EventSender::try_emit] *)
  (* [reserve_bucket] and [reserve_announcement], and what becomes of a reservation *)
  world_reserve : Pool → W → bool * W;
  world_reserved_emit : Pool → Event → W → W;
  world_reserved_drop : Pool → W → W;
  world_available : W → bool;                     (* [EventSender::available] *)
  (* a [HashMap] is iterated in some order of its own *)
  world_order : ∀ {K A} `{Countable K}, gmap K A → W → list (K * A) * W;
  (* what has been observed: the last [now()], the events accepted so far *)
  world_time : W → Timestamp;
  world_log : W → list Event;
}.

Class WorldLaws (W : Type) `{!World W} : Prop := {
  now_monotone w : world_time w <= (world_now w).1;
  now_time w : world_time (world_now w).2 = (world_now w).1;
  now_log w : world_log (world_now w).2 = world_log w;
  random_len n w b : 0 <= n → (world_random n w).1 = Some b → len b = n;
  random_time n w : world_time (world_random n w).2 = world_time w;
  random_log n w : world_log (world_random n w).2 = world_log w;
  challenge_time w : world_time (world_challenge w).2 = world_time w;
  challenge_log w : world_log (world_challenge w).2 = world_log w;
  emit_time e w : world_time (world_emit e w).2 = world_time w;
  emit_log e w :
    world_log (world_emit e w).2 = world_log w ++ if (world_emit e w).1 then [e] else [];
  reserve_time p w : world_time (world_reserve p w).2 = world_time w;
  reserve_log p w : world_log (world_reserve p w).2 = world_log w;
  reserved_emit_time p e w : world_time (world_reserved_emit p e w) = world_time w;
  reserved_emit_log p e w : world_log (world_reserved_emit p e w) = world_log w ++ [e];
  reserved_drop_time p w : world_time (world_reserved_drop p w) = world_time w;
  reserved_drop_log p w : world_log (world_reserved_drop p w) = world_log w;
  order_perm K A `{Countable K} (m : gmap K A) w : (world_order m w).1 ≡ₚ map_to_list m;
  order_time K A `{Countable K} (m : gmap K A) w : world_time (world_order m w).2 = world_time w;
  order_log K A `{Countable K} (m : gmap K A) w : world_log (world_order m w).2 = world_log w;
}.

(** ** The operations, for a component with state [S] *)
Section Operations.
Context `{World W} {S E : Type}.

Definition lift {A} (f : W → A * W) : M (S * W) E A := λ '(s, w),
  let '(a, w) := f w in (Ok a, (s, w)).
Definition clock_read : M (S * W) E Timestamp := lift world_now.
Definition random (n : Z) : M (S * W) E (option string) := lift (world_random n).
Definition draw_challenge : M (S * W) E string := lift world_challenge.
Definition try_emit (e : Event) : M (S * W) E bool := lift (world_emit e).
Definition try_reserve (p : Pool) : M (S * W) E bool := lift (world_reserve p).
Definition emit_reserved (p : Pool) (e : Event) : M (S * W) E unit :=
  lift (λ w, (tt, world_reserved_emit p e w)).
Definition drop_reserved (p : Pool) : M (S * W) E unit := lift (λ w, (tt, world_reserved_drop p w)).
Definition events_available : M (S * W) E bool := gets (λ '(_, w), world_available w).
Definition iterate `{Countable K} {A} (m : gmap K A) : M (S * W) E (list (K * A)) :=
  lift (world_order m).

Definition get : M (S * W) E S := gets fst.
Definition update (f : S → S) : M (S * W) E unit := modify (λ '(s, w), (f s, w)).
End Operations.

(** [http::try_emit_event] *)
Definition QUEUE_UNAVAILABLE : Failure := (SERVICE_UNAVAILABLE, "Admin event queue unavailable").
Definition try_emit_event `{World W} {S} (e : Event) : M (S * W) Failure unit :=
  let! ok := try_emit e in
  reject_if (negb ok) QUEUE_UNAVAILABLE.

Section WorldRules.
Context `{World W, !WorldLaws W} {S E : Type}.
Implicit Types (s : S) (w : W).

Lemma wp_clock_read (Q : outcome E Timestamp → S * W → Prop) s w :
  (∀ t w', world_time w <= t → world_time w' = t → world_log w' = world_log w →
           Q (Ok t) (s, w')) →
  wp clock_read Q (s, w).
Proof.
  intros HQ. unfold wp, clock_read, lift.
  pose proof (now_monotone w). pose proof (now_time w). pose proof (now_log w).
  destruct (world_now w) as [t w']. by apply HQ.
Qed.

Lemma wp_random n (Q : outcome E (option string) → S * W → Prop) s w :
  0 <= n →
  (∀ o w', (∀ b, o = Some b → len b = n) →
           world_time w' = world_time w → world_log w' = world_log w → Q (Ok o) (s, w')) →
  wp (random n) Q (s, w).
Proof.
  intros Hn HQ. unfold wp, random, lift. pose proof (random_len n w) as Hl.
  pose proof (random_time n w). pose proof (random_log n w).
  destruct (world_random n w) as [o w']. apply HQ; eauto.
Qed.

Lemma wp_draw_challenge (Q : outcome E string → S * W → Prop) s w :
  (∀ b w', world_time w' = world_time w → world_log w' = world_log w → Q (Ok b) (s, w')) →
  wp draw_challenge Q (s, w).
Proof.
  intros HQ. unfold wp, draw_challenge, lift.
  pose proof (challenge_time w). pose proof (challenge_log w).
  destruct (world_challenge w) as [b w']. by apply HQ.
Qed.

Lemma wp_try_emit e (Q : outcome E bool → S * W → Prop) s w :
  (∀ ok w', world_time w' = world_time w →
            world_log w' = world_log w ++ (if ok : bool then [e] else []) →
            Q (Ok ok) (s, w')) →
  wp (try_emit e) Q (s, w).
Proof.
  intros HQ. unfold wp, try_emit, lift. pose proof (emit_time e w). pose proof (emit_log e w).
  destruct (world_emit e w) as [ok w']. by apply HQ.
Qed.

Lemma wp_try_reserve p (Q : outcome E bool → S * W → Prop) s w :
  (∀ ok w', world_time w' = world_time w → world_log w' = world_log w → Q (Ok ok) (s, w')) →
  wp (try_reserve p) Q (s, w).
Proof.
  intros HQ. unfold wp, try_reserve, lift. pose proof (reserve_time p w).
  pose proof (reserve_log p w). destruct (world_reserve p w) as [ok w']. by apply HQ.
Qed.
Lemma wp_emit_reserved p e (Q : outcome E unit → S * W → Prop) s w :
  (∀ w', world_time w' = world_time w → world_log w' = world_log w ++ [e] → Q (Ok tt) (s, w')) →
  wp (emit_reserved p e) Q (s, w).
Proof. intros HQ. apply HQ; [apply reserved_emit_time|apply reserved_emit_log]. Qed.
Lemma wp_drop_reserved p (Q : outcome E unit → S * W → Prop) s w :
  (∀ w', world_time w' = world_time w → world_log w' = world_log w → Q (Ok tt) (s, w')) →
  wp (drop_reserved p) Q (s, w).
Proof. intros HQ. apply HQ; [apply reserved_drop_time|apply reserved_drop_log]. Qed.

Lemma wp_iterate `{Countable K} {A} (m : gmap K A)
    (Q : outcome E (list (K * A)) → S * W → Prop) s w :
  (∀ l w', l ≡ₚ map_to_list m → world_time w' = world_time w →
           world_log w' = world_log w → Q (Ok l) (s, w')) →
  wp (iterate m) Q (s, w).
Proof.
  intros HQ. unfold wp, iterate, lift.
  pose proof (order_perm K A m w). pose proof (order_time K A m w).
  pose proof (order_log K A m w). destruct (world_order m w) as [l w']. by apply HQ.
Qed.

Lemma wp_events_available (Q : outcome E bool → S * W → Prop) s w :
  (∀ b, Q (Ok b) (s, w)) → wp events_available Q (s, w).
Proof. intros HQ. apply HQ. Qed.

Lemma wp_get (Q : outcome E S → S * W → Prop) s w : Q (Ok s) (s, w) → wp get Q (s, w).
Proof. done. Qed.

Lemma wp_update f (Q : outcome E unit → S * W → Prop) s w :
  Q (Ok tt) (f s, w) → wp (update f) Q (s, w).
Proof. done. Qed.

Lemma wp_try_emit_event e (Q : outcome Failure unit → S * W → Prop) s w :
  (∀ ok w', world_time w' = world_time w →
            world_log w' = world_log w ++ (if ok : bool then [e] else []) →
            if ok then Q (Ok tt) (s, w') else Q (Err QUEUE_UNAVAILABLE) (s, w')) →
  wp (try_emit_event e) Q (s, w).
Proof.
  intros HQ. unfold try_emit_event. apply wp_bind.
  pose proof (emit_time e w). pose proof (emit_log e w).
  unfold wp, try_emit, lift. destruct (world_emit e w) as [ok w'].
  specialize (HQ ok w'). apply wp_reject_if. destruct ok; by apply HQ.
Qed.
End WorldRules.

(** A step of a handler that runs in a world. *)
Ltac world_step :=
  first
    [ lazymatch goal with
      | |- wp clock_read _ _ => apply wp_clock_read; intros ?t ?w ?Ht ?Hw ?Hlog
      | |- wp (random _) _ _ => apply wp_random; [done|]; intros ?o ?w ?Hlen ?Hw ?Hlog
      | |- wp draw_challenge _ _ => apply wp_draw_challenge; intros ?b ?w ?Hw ?Hlog
      | |- wp (try_emit _) _ _ => apply wp_try_emit; intros ?ok ?w ?Hw ?Hlog
      | |- wp (try_emit_event _) _ _ =>
          apply wp_try_emit_event; intros [] ?w ?Hw ?Hlog
      | |- wp (try_reserve _) _ _ => apply wp_try_reserve; intros ?ok ?w ?Hw ?Hlog
      | |- wp (emit_reserved _ _) _ _ => apply wp_emit_reserved; intros ?w ?Hw ?Hlog
      | |- wp (drop_reserved _) _ _ => apply wp_drop_reserved; intros ?w ?Hw ?Hlog
      | |- wp events_available _ _ => apply wp_events_available; intros ?ok
      | |- wp (iterate _) _ _ => apply wp_iterate; intros ?l ?w ?Hperm ?Hw ?Hlog
      | |- wp get _ _ => apply wp_get
      | |- wp (update _) _ _ => apply wp_update
      end; cbn beta iota
    | wp_step ].
Ltac world_steps := repeat world_step.

(** ** A world to compute in *)

(** The clock gains [sim_tick] at every reading, the queue takes [sim_room]
    more events, entropy is the decimal text of a counter. *)
Record SimWorld := mkSim {
  sim_time : Z;
  sim_tick : nat;
  sim_room : nat;
  sim_seed : Z;
  sim_log : list Event;
}.

Definition sim_entropy (n : Z) (seed : Z) : string :=
  pad (Z.to_nat n) (String (char_of (1 + seed mod 255)) EmptyString).

#[export] Instance sim_world : World SimWorld := {|
  world_now := λ w, let t := sim_time w + Z.of_nat (sim_tick w) in
    (t, mkSim t (sim_tick w) (sim_room w) (sim_seed w) (sim_log w));
  world_random := λ n w, (Some (sim_entropy n (sim_seed w)),
    mkSim (sim_time w) (sim_tick w) (sim_room w) (sim_seed w + 1) (sim_log w));
  world_challenge := λ w, (sim_entropy 16 (sim_seed w),
    mkSim (sim_time w) (sim_tick w) (sim_room w) (sim_seed w + 1) (sim_log w));
  world_emit := λ e w, match sim_room w with
    | O => (false, w)
    | S n => (true, mkSim (sim_time w) (sim_tick w) n (sim_seed w) (sim_log w ++ [e]))
    end;
  world_reserve := λ _ w, match sim_room w with
    | O => (false, w)
    | S n => (true, mkSim (sim_time w) (sim_tick w) n (sim_seed w) (sim_log w))
    end;
  world_reserved_emit := λ _ e w,
    mkSim (sim_time w) (sim_tick w) (sim_room w) (sim_seed w) (sim_log w ++ [e]);
  world_reserved_drop := λ _ w,
    mkSim (sim_time w) (sim_tick w) (S (sim_room w)) (sim_seed w) (sim_log w);
  world_available := λ w, bool_decide (0 < sim_room w)%nat;
  world_order := λ K A _ _ m w, (map_to_list m, w);
  world_time := sim_time;
  world_log := sim_log;
|}.
#[export] Instance sim_world_laws : WorldLaws SimWorld.
Proof.
  constructor; intros; cbn in *; try done.
  - lia.
  - simplify_eq. unfold sim_entropy. rewrite len_pad. lia.
  - by destruct (sim_room w).
  - destruct (sim_room w); cbn; by rewrite ?app_nil_r.
  - by destruct (sim_room w).
  - by destruct (sim_room w).
Qed.

(** * The production world: [Clock] and [EventSender] behind the [World] interface

    Every theorem about a handler is proved for all worlds; this file shows the
    gateway's own clock and event queue are one.  The environment is arbitrary:
    what the two system clocks read, what the entropy source returns, how far
    the writer gets between two events, and in which order maps are iterated. *)
(** [Instant::elapsed] does not go back, [secrets::random::<N>] fills [N] bytes,
    a [HashMap] iterator visits every entry once. *)
Record Env := mkEnv {
  env_reading : nat → Z * Z;
  env_entropy : nat → Z → option string;
  env_challenge : nat → string;
  env_shuffle : ∀ A, nat → list A → list A;
  env_turns : nat → nat;
  env_elapsed_mono i j : (i <= j)%nat → (env_reading i).1 <= (env_reading j).1;
  env_entropy_len k n b : 0 <= n → env_entropy k n = Some b → len b = n;
  env_shuffle_perm A k l : env_shuffle A k l ≡ₚ l;
}.

Section RealWorld.
Context `{Tokio} (env : Env).

Record RealState := mkReal {
  rs_clock : Clock;
  rs_reads : nat;
  rs_sender : EventSender;
  rs_emits : nat;
  rs_draws : nat;
  rs_orders : nat;
  rs_time : Timestamp;
  rs_log : list Event;
}.

(** What was last shown is not above what any later reading will show. *)
Definition floor_ok (c : Clock) (reads : nat) (time : Timestamp) : Prop :=
  ∀ k, (reads <= k)%nat → time <= c.(wall) + (env_reading env k).1 + c.(skew).
Definition RealWorld : Type := { r : RealState | floor_ok r.(rs_clock) r.(rs_reads) r.(rs_time) }.

(** [Clock::now] on the [k]th reading of the system clocks *)
Definition read_clock (c : Clock) (k : nat) : Timestamp * Clock :=
  clock_now (env_reading env k).1 (env_reading env k).2 c.

Lemma floor_after_read c k time : floor_ok c k time →
  time <= (read_clock c k).1 ∧ floor_ok (read_clock c k).2 (S k) (read_clock c k).1.
Proof.
  intros Hf. pose proof (Hf k ltac:(lia)). unfold read_clock, clock_now, observe, after. simpl.
  split; [destruct (clock_system c); simpl; lia|].
  intros j Hj. simpl. pose proof (env_elapsed_mono env k j). unfold after. lia.
Qed.

(** Writer turns that happen before the next event is offered. *)
Fixpoint writer_turns (n : nat) (s : EventSender) : EventSender :=
  match n with
  | O => s
  | S n => match writer_write s with
           | Some (_, s) => writer_turns n s
           | None => s
           end
  end.

Definition real_now (w : RealWorld) : Timestamp * RealWorld :=
  let r := `w in
  let reading := read_clock r.(rs_clock) r.(rs_reads) in
  (reading.1, exist (λ r, floor_ok r.(rs_clock) r.(rs_reads) r.(rs_time))
    (mkReal reading.2 (S r.(rs_reads)) r.(rs_sender) r.(rs_emits) r.(rs_draws) r.(rs_orders)
      reading.1 r.(rs_log))
    (proj2 (floor_after_read _ _ _ (proj2_sig w)))).

Definition real_with (w : RealWorld) (sender : EventSender) (emits draws orders : nat)
    (log : list Event) : RealWorld :=
  let r := `w in
  exist (λ r, floor_ok r.(rs_clock) r.(rs_reads) r.(rs_time))
    (mkReal r.(rs_clock) r.(rs_reads) sender emits draws orders r.(rs_time) log) (proj2_sig w).

Definition real_random (n : Z) (w : RealWorld) : option string * RealWorld :=
  let r := `w in
  (env_entropy env r.(rs_draws) n,
   real_with w r.(rs_sender) r.(rs_emits) (S r.(rs_draws)) r.(rs_orders) r.(rs_log)).
Definition real_challenge (w : RealWorld) : string * RealWorld :=
  let r := `w in
  (env_challenge env r.(rs_draws),
   real_with w r.(rs_sender) r.(rs_emits) (S r.(rs_draws)) r.(rs_orders) r.(rs_log)).
Definition real_emit (e : Event) (w : RealWorld) : bool * RealWorld :=
  let r := `w in
  let '(ok, s) := sender_try_emit e (writer_turns (env_turns env r.(rs_emits)) r.(rs_sender)) in
  (ok, real_with w s (S r.(rs_emits)) r.(rs_draws) r.(rs_orders)
    (r.(rs_log) ++ if ok then [e] else [])).
(** A reservation is used or dropped once, by what holds it, so its pool has one
    out then. *)
Definition real_reserve (p : Pool) (w : RealWorld) : bool * RealWorld :=
  let r := `w in
  let '(ok, s) := reserve p (writer_turns (env_turns env r.(rs_emits)) r.(rs_sender)) in
  (ok, real_with w s (S r.(rs_emits)) r.(rs_draws) r.(rs_orders) r.(rs_log)).
Definition real_reserved_emit (p : Pool) (e : Event) (w : RealWorld) : RealWorld :=
  let r := `w in
  real_with w (reservation_emit p e (writer_turns (env_turns env r.(rs_emits)) r.(rs_sender)))
    (S r.(rs_emits)) r.(rs_draws) r.(rs_orders) (r.(rs_log) ++ [e]).
Definition real_reserved_drop (p : Pool) (w : RealWorld) : RealWorld :=
  let r := `w in
  real_with w (reservation_drop p (writer_turns (env_turns env r.(rs_emits)) r.(rs_sender)))
    (S r.(rs_emits)) r.(rs_draws) r.(rs_orders) r.(rs_log).
Definition real_order `{Countable K} {A} (m : gmap K A) (w : RealWorld)
    : list (K * A) * RealWorld :=
  let r := `w in
  (env_shuffle env _ r.(rs_orders) (map_to_list m),
   real_with w r.(rs_sender) r.(rs_emits) r.(rs_draws) (S r.(rs_orders)) r.(rs_log)).

#[global] Instance real_world : World RealWorld := {|
  world_now := real_now;
  world_random := real_random;
  world_challenge := real_challenge;
  world_emit := real_emit;
  world_reserve := real_reserve;
  world_available := λ w, available (rs_sender (`w));
  world_reserved_emit := real_reserved_emit;
  world_reserved_drop := real_reserved_drop;
  world_order := λ K A _ _, real_order;
  world_time := λ w, rs_time (`w);
  world_log := λ w, rs_log (`w);
|}.

(** Refinement: [Clock::now] and [EventSender::try_emit] keep the promises
    the handlers are proved against.  Time never goes back, an event counts
    as emitted exactly when [try_emit] says so, and nothing else touches
    either, for every behaviour of the system clocks, the entropy source, the
    writer task and the map iterators. *)
Theorem real_world_laws : WorldLaws RealWorld.
Proof.
  constructor; intros; cbn; try done.
  - apply (floor_after_read _ _ _ (proj2_sig w)).
  - match goal with Hb : (world_random _ _).1 = _ |- _ => exact (env_entropy_len env _ _ _ ltac:(done) Hb) end.
  - unfold real_emit. by destruct (sender_try_emit _ _).
  - unfold real_emit. by destruct (sender_try_emit _ _) as [[] ?].
  - unfold real_reserve. by destruct (reserve _ _).
  - unfold real_reserve. by destruct (reserve _ _).
  - apply env_shuffle_perm.
Qed.
End RealWorld.
