(* ===== verification/Pairing.v ===== *)
(** * [pairing.rs]: how a phone becomes a device

    A pairing is created on the desktop, claimed once by a phone that knows the
    secret of the QR code, compared by its short authentication string, decided
    on the desktop, and registers one passkey.  The table of pairings is behind
    one lock; every method below runs under it from its first read to its last
    write, except [status], which releases it while it waits. *)

From stdpp Require Import base gmap strings list.
From Stdlib Require Import ZArith Lia.
From S2P Require Import Prelude Rust Externals Clock Devices Admin Events World.

Local Open Scope Z_scope.

Definition INVALID : Failure := (FORBIDDEN, "Pairing request rejected").
Definition BUSY : Failure := (TOO_MANY_REQUESTS, "Pairing limit reached").
Definition TTL : Z := seconds 300.
Definition TICKET_TTL : Z := seconds 120.
Definition REGISTRATION_WINDOW : Z := seconds 600.
Definition MAX_LIVE : nat := 4.
Definition MAX_RECORDS : nat := 16.
(** [entropy] *)
Definition entropy : Failure := (SERVICE_UNAVAILABLE, "Pairing unavailable").

Record ClaimRequest := mkClaimRequest {
  cl_pairing_id : string;
  cl_secret : string;
  cl_device_label : string;
  cl_device_nonce : string;
}.
Record StatusRequest := mkStatusRequest { st_pairing_id : string; st_claim_token : string }.
Record ClaimResponse := mkClaimResponse {
  gateway_nonce : string; sas : string; claim_token : string }.

Inductive State := Pending | Approved | Rejected | Expired | Registering | Registered.
#[export] Instance state_eq_dec : EqDecision State.
Proof. solve_decision. Defined.

Record StatusResponse := mkStatusResponse {
  sr_state : State; registration_ticket : option string }.

Record Registration := mkRegistration {
  rg_pairing_id : string;
  rg_device_label : string;
  rg_add_to_device : option string;
  rg_started_at : Timestamp;
  rg_deadline : Timestamp;
}.
#[export] Instance registration_eq_dec : EqDecision Registration.
Proof. solve_decision. Defined.

Record Ticket := mkTicket { t_hash : string; t_until : Timestamp }.

(** ** The short authentication string *)

(** A loop of at most [p] rounds that stops at the first [inr]. *)
Fixpoint iter_until {A B} (p : positive) (f : A → A + B) (a : A) : A + B :=
  match p with
  | xH => f a
  | xO p => match iter_until p f a with
            | inl a => iter_until p f a
            | inr b => inr b
            end
  | xI p => match f a with
            | inl a => match iter_until p f a with
                       | inl a => iter_until p f a
                       | inr b => inr b
                       end
            | inr b => inr b
            end
  end.

(** [u32::to_be_bytes] *)
Definition to_be_bytes (n : Z) : string :=
  of_bytes [n / 16777216 mod 256; n / 65536 mod 256; n / 256 mod 256; n mod 256].

(** The inner loop: [result] grows by one digit per byte below 250. *)
Fixpoint sas_digits (digest : list Z) (result : list Z) : list Z + list Z :=
  match digest with
  | [] => inl result
  | b :: digest =>
      if b <? 250 then
        let result := result ++ [48 + b mod 10] in
        if bool_decide (length result = 6%nat) then inr result else sas_digits digest result
      else sas_digits digest result
  end.

Section Sas.
Context `{Crypto}.

Definition sas_digest (secret device_nonce gateway_nonce : string) (counter : Z) : list Z :=
  bytes (hmac_sha256 secret ("yz-sas-v1" +:+ device_nonce +:+ gateway_nonce +:+
    if counter =? 0 then "" else to_be_bytes counter)).

Definition sas_round (secret device_nonce gateway_nonce : string) (s : Z * list Z)
    : (Z * list Z) + list Z :=
  let '(counter, result) := s in
  match sas_digits (sas_digest secret device_nonce gateway_nonce counter) result with
  | inl result => inl (counter + 1, result)
  | inr result => inr result
  end.

(** [derive_sas]: [None] is the [unreachable!] after the last [u32] counter. *)
Definition derive_sas (secret device_nonce gateway_nonce : string) : option string :=
  match iter_until 4294967296 (sas_round secret device_nonce gateway_nonce) (0, []) with
  | inl _ => None
  | inr result => Some (of_bytes result)
  end.
End Sas.

(** ** One pairing *)

(** [Iterator::min_by_key]: the first of the least elements. *)
Definition min_by_key {A} (f : A → Z) (l : list A) : option A :=
  match l with
  | [] => None
  | x :: l => Some (foldl (λ best y, if f y <? f best then y else best) x l)
  end.

Section Pairing.
Context `{Base64, Crypto, Tokio, World W}.

(** [changed] counts the notifications of the watch channel; [polls] is the
    semaphore that admits one [status] call at a time. *)
Record Pairing := mkPairing {
  p_add_to_device : option string;
  p_secret : option string;
  p_secret_hash : string;
  p_claim_hash : option string;
  p_label : option string;
  p_failures : Z;
  p_state : State;
  p_until : Timestamp;
  p_changed : nat;
  p_polls : Sem;
  p_ticket : option Ticket;
  p_registration : option Registration;
  p_notification : option string;
}.
Definition set_secret v p := mkPairing p.(p_add_to_device) v p.(p_secret_hash)
  p.(p_claim_hash) p.(p_label) p.(p_failures) p.(p_state) p.(p_until) p.(p_changed)
  p.(p_polls) p.(p_ticket) p.(p_registration) p.(p_notification).
Definition set_claim_hash v p := mkPairing p.(p_add_to_device) p.(p_secret) p.(p_secret_hash)
  v p.(p_label) p.(p_failures) p.(p_state) p.(p_until) p.(p_changed) p.(p_polls) p.(p_ticket)
  p.(p_registration) p.(p_notification).
Definition set_label v p := mkPairing p.(p_add_to_device) p.(p_secret) p.(p_secret_hash)
  p.(p_claim_hash) v p.(p_failures) p.(p_state) p.(p_until) p.(p_changed) p.(p_polls)
  p.(p_ticket) p.(p_registration) p.(p_notification).
Definition set_failures v p := mkPairing p.(p_add_to_device) p.(p_secret) p.(p_secret_hash)
  p.(p_claim_hash) p.(p_label) v p.(p_state) p.(p_until) p.(p_changed) p.(p_polls)
  p.(p_ticket) p.(p_registration) p.(p_notification).
Definition set_state v p := mkPairing p.(p_add_to_device) p.(p_secret) p.(p_secret_hash)
  p.(p_claim_hash) p.(p_label) p.(p_failures) v p.(p_until) p.(p_changed) p.(p_polls)
  p.(p_ticket) p.(p_registration) p.(p_notification).
Definition set_until v p := mkPairing p.(p_add_to_device) p.(p_secret) p.(p_secret_hash)
  p.(p_claim_hash) p.(p_label) p.(p_failures) p.(p_state) v p.(p_changed) p.(p_polls)
  p.(p_ticket) p.(p_registration) p.(p_notification).
Definition set_changed v p := mkPairing p.(p_add_to_device) p.(p_secret) p.(p_secret_hash)
  p.(p_claim_hash) p.(p_label) p.(p_failures) p.(p_state) p.(p_until) v p.(p_polls)
  p.(p_ticket) p.(p_registration) p.(p_notification).
Definition set_polls v p := mkPairing p.(p_add_to_device) p.(p_secret) p.(p_secret_hash)
  p.(p_claim_hash) p.(p_label) p.(p_failures) p.(p_state) p.(p_until) p.(p_changed) v
  p.(p_ticket) p.(p_registration) p.(p_notification).
Definition set_ticket v p := mkPairing p.(p_add_to_device) p.(p_secret) p.(p_secret_hash)
  p.(p_claim_hash) p.(p_label) p.(p_failures) p.(p_state) p.(p_until) p.(p_changed)
  p.(p_polls) v p.(p_registration) p.(p_notification).
Definition set_registration v p := mkPairing p.(p_add_to_device) p.(p_secret)
  p.(p_secret_hash) p.(p_claim_hash) p.(p_label) p.(p_failures) p.(p_state) p.(p_until)
  p.(p_changed) p.(p_polls) p.(p_ticket) v p.(p_notification).
Definition set_notification v p := mkPairing p.(p_add_to_device) p.(p_secret)
  p.(p_secret_hash) p.(p_claim_hash) p.(p_label) p.(p_failures) p.(p_state) p.(p_until)
  p.(p_changed) p.(p_polls) p.(p_ticket) p.(p_registration) v.

Definition live (p : Pairing) : bool :=
  bool_decide (p.(p_state) ∈ [Pending; Approved; Registering]).

(** [Pairing::transition] *)
Definition transition (state : State) (p : Pairing) : Pairing :=
  let p := set_state state p in
  let p := if bool_decide (state = Registering) then p else set_registration None p in
  let p := if bool_decide (state = Approved) then p else set_ticket None p in
  let p := if bool_decide (state = Pending) then p else set_secret None p in
  set_changed (S p.(p_changed)) p.

(** [Pairing::expire] *)
Definition expiry (p : Pairing) : Timestamp :=
  match p.(p_registration) with Some r => r.(rg_deadline) | None => p.(p_until) end.
Definition expire (now : Timestamp) (p : Pairing) : Pairing :=
  if live p && (expiry p <=? now)
  then set_notification (Some "ttl") (transition Expired p)
  else p.

(** A method with [&mut self] on one entry, and access to clock and queue. *)
Abbreviation entry_m A := (M (Pairing * W) Failure A).

(** [Pairing::notify] *)
Definition notify (id : string) : entry_m unit :=
  let! p := get in
  match p.(p_notification) with
  | None => ret tt
  | Some reason =>
      let state := if bool_decide (p.(p_state) = Expired) then "expired" else "rejected" in
      try_emit_event (pairing_state id state reason);;
      update (set_notification None)
  end.

(** [Pairing::fail] *)
Definition fail (id : string) (second_claim : bool) : entry_m unit :=
  update (λ p, set_failures (saturating_add u8_max p.(p_failures) 1) p);;
  let! p := get in
  when ((5 <=? p.(p_failures)) || second_claim)
    (update (transition Rejected);;
     update (set_notification (Some (if second_claim then "second-claim" else "attempt-limit")));;
     notify id);;
  throw INVALID.

Definition expire_now : entry_m unit :=
  let! now := clock_read in update (expire now).

(** ** The table *)

Record Pairings := mkPairings {
  ps_entries : gmap string Pairing;
  ps_polls : Sem;
  ps_origin : string;
  ps_login : string;
}.
Definition set_entries (e : gmap string Pairing) (s : Pairings) : Pairings :=
  mkPairings e s.(ps_polls) s.(ps_origin) s.(ps_login).
Definition set_global_polls (g : Sem) (s : Pairings) : Pairings :=
  mkPairings s.(ps_entries) g s.(ps_origin) s.(ps_login).

Abbreviation table_m A := (M (Pairings * W) Failure A).

(** [Pairings::new] *)
Definition pairings_new (public_host login : string) : Pairings :=
  mkPairings ∅ (sem_new 8) ("https://" +:+ public_host) login.

(** [entries.get_mut(id).ok_or(INVALID)?] and the method run on that entry;
    what it wrote stays written when it fails. *)
Definition on_entry {A} (id : string) (m : entry_m A) : table_m A := λ '(s, w),
  match s.(ps_entries) !! id with
  | None => (Err INVALID, (s, w))
  | Some p => let '(r, (p, w)) := m (p, w) in
              (r, (set_entries (<[id := p]> s.(ps_entries)) s, w))
  end.

(** [Pairings::maintenance] *)
Definition pairings_maintenance : table_m unit :=
  let! s := get in
  let! entries := iterate s.(ps_entries) in
  for_each entries (λ '(id, _),
    let! _ := attempt (E := Failure) (on_entry id (expire_now;; notify id)) in ret tt).

Definition live_count (s : Pairings) : nat :=
  size (filter (λ '(_, p), live p = true) s.(ps_entries)).

(** The [Create] arm of [Pairings::command] *)
Definition pairing_create (path : string) (add_to_device : option string) : table_m AdminResult :=
  reject_if (match add_to_device with
             | Some id => negb (bool_decide (is_Some (decode 16 id)))
             | None => false
             end) INVALID;;
  reject_if (bool_decide (path = "lan")) (BAD_REQUEST, "LAN pairing not supported");;
  reject_if (negb (bool_decide (path = "tailscale"))) (BAD_REQUEST, "Invalid pairing path");;
  let! s := get in
  reject_if (bool_decide (MAX_LIVE ≤ live_count s)%nat) BUSY;;
  (if bool_decide (MAX_RECORDS ≤ size s.(ps_entries))%nat then
     let! entries := iterate s.(ps_entries) in
     let! oldest := ok_or BUSY (min_by_key (λ e, p_until e.2)
       (filter (λ e, live e.2 = false ∧ p_notification e.2 = None) entries)) in
     update (λ s, set_entries (delete oldest.1 s.(ps_entries)) s)
   else ret tt);;
  let! id_bytes := random 16 in
  let! id := ok_or entropy id_bytes in
  let id := encode id in
  let! secret_bytes := random 32 in
  let! secret := ok_or entropy secret_bytes in
  let! now := clock_read in
  let until := after now TTL in
  let! s := get in
  let url := s.(ps_origin) +:+ "/pair#p=" +:+ id +:+ "." +:+ encode secret in
  try_emit_event (pairing_created id url until);;
  update (λ s, set_entries (<[id := mkPairing add_to_device (Some secret) (hash secret)
    None None 0 Pending until 0 (sem_new 1) None None None]> s.(ps_entries)) s);;
  ret Applied.

(** [Pairings::decide] *)
Definition decide_entry (id : string) (state : State) (reason : string) (now : Timestamp)
    : entry_m AdminResult :=
  update (expire now);;
  let! p := get in
  reject_if (negb (live p)
             || (bool_decide (state = Approved)
                 && (negb (bool_decide (p.(p_state) = Pending))
                     || bool_decide (p.(p_claim_hash) = None)))) INVALID;;
  if bool_decide (state = Approved) then
    try_emit_event (pairing_state id "approved" reason);;
    update (set_until (after now REGISTRATION_WINDOW));;
    update (transition state);;
    ret Applied
  else
    update (transition state);;
    update (set_notification (Some reason));;
    let! r := attempt (E := Failure) (notify id) in
    match r with
    | inl _ => ret (NotificationDeferred
                      (if bool_decide (reason = "cancelled") then "pairing.cancel"
                       else "pairing.reject") id)
    | inr _ => ret Applied
    end.

(** [Pairings::command] *)
Definition pairings_command (command : PairingCommand) : table_m AdminResult :=
  pairings_maintenance;;
  let decide_as id state reason :=
    reject_if (negb (bool_decide (is_Some (decode 16 id)))) INVALID;;
    on_entry id (let! now := clock_read in decide_entry id state reason now) in
  match command with
  | PairingCreate _ path add_to_device => pairing_create path add_to_device
  | PairingApprove _ id => decide_as id Approved "approved"
  | PairingReject _ id => decide_as id Rejected "rejected"
  | PairingCancel _ id => decide_as id Rejected "cancelled"
  end.

(** [Pairings::claim] *)
Definition pairings_claim (request : ClaimRequest) (user_agent : string) : table_m ClaimResponse :=
  reject_if (negb (bool_decide (is_Some (decode 16 request.(cl_pairing_id))))
             || negb (valid_label request.(cl_device_label))
             || (256 <? len user_agent)
             || negb (forallb (λ b, in_range 32 b 126) (bytes user_agent))) INVALID;;
  let! device_nonce := ok_or INVALID (decode 32 request.(cl_device_nonce)) in
  let supplied := decode 32 request.(cl_secret) in
  let! s := get in
  let id := request.(cl_pairing_id) in
  on_entry id (
    expire_now;;
    notify id;;
    let! p := get in
    reject_if (negb (live p)) INVALID;;
    let equal := matches p.(p_secret_hash) (default (zeros 32) supplied) in
    when (bool_decide (is_Some p.(p_claim_hash))) (fail id true;; panic);;
    when (negb equal || bool_decide (supplied = None)) (fail id false;; panic);;
    let! gateway_nonce := random 32 in
    let! gateway_nonce := ok_or entropy gateway_nonce in
    let! token := random 32 in
    let! token := ok_or entropy token in
    let! secret := ok_or INVALID p.(p_secret) in
    let! sas := expect (derive_sas secret device_nonce gateway_nonce) in
    try_emit_event (pairing_claimed id request.(cl_device_label) sas s.(ps_login) user_agent);;
    update (set_claim_hash (Some (hash token)));;
    update (set_label (Some request.(cl_device_label)));;
    update (set_secret None);;
    ret (mkClaimResponse (encode gateway_nonce) sas (encode token))).

(** [Pairings::authenticate] *)
Definition pairing_authenticate (request : StatusRequest) : entry_m unit :=
  let! p := get in
  let token := decode 32 request.(st_claim_token) in
  let valid := matches (default (zeros 32) p.(p_claim_hash)) (default (zeros 32) token) in
  when (negb valid || bool_decide (token = None) || bool_decide (p.(p_claim_hash) = None))
    (when (live p) (fail request.(st_pairing_id) false);;
     throw INVALID).

(** [Pairings::status] up to the wait: both poll permits are held, the watch
    version and the deadline are what the wait compares against. *)
Definition status_begin (request : StatusRequest) : table_m (nat * Timestamp) :=
  let id := request.(st_pairing_id) in
  reject_if (negb (bool_decide (is_Some (decode 16 id)))) INVALID;;
  on_entry id (
    expire_now;;
    pairing_authenticate request;;
    let! p := get in
    let! pair := ok_or BUSY (sem_try_acquire p.(p_polls)) in
    update (set_polls pair));;
  let! s := get in
  match sem_try_acquire s.(ps_polls) with
  | None => let! _ := on_entry id (update (λ p, set_polls (sem_release p.(p_polls)) p)) in
            throw BUSY
  | Some global =>
      update (set_global_polls global);;
      on_entry id (let! p := get in ret (p.(p_changed), p.(p_until)))
  end.

(** When the wait between the two halves is over: the pairing is not pending
    any more, was notified, reached its deadline, or 25 seconds passed. *)
Definition status_ready (id : string) (seen : nat) (until now waited : Z) (s : Pairings) : bool :=
  match s.(ps_entries) !! id with
  | None => true
  | Some p => negb (bool_decide (p.(p_state) = Pending))
              || negb (bool_decide (p.(p_changed) = seen))
              || (until <=? now) || (seconds 25 <=? waited)
  end.

(** [Pairings::status] after the wait *)
Definition status_finish (request : StatusRequest) : table_m StatusResponse :=
  let id := request.(st_pairing_id) in
  on_entry id (
    expire_now;;
    pairing_authenticate request;;
    notify id;;
    let! p := get in
    let! ticket :=
      (if bool_decide (p.(p_state) = Approved) then
         let! ticket := random 32 in
         let! ticket := ok_or entropy ticket in
         let! now := clock_read in
         update (set_ticket (Some (mkTicket (hash ticket)
           (Z.min (after now TICKET_TTL) p.(p_until)))));;
         ret (Some (encode ticket))
       else ret None) in
    ret (mkStatusResponse p.(p_state) ticket)).

(** The poll permits are dropped when the call is over, however it ended. *)
Definition status_drop (id : string) (s : Pairings) : Pairings :=
  let s := set_global_polls (sem_release s.(ps_polls)) s in
  match s.(ps_entries) !! id with
  | Some p => set_entries (<[id := set_polls (sem_release p.(p_polls)) p]> s.(ps_entries)) s
  | None => s
  end.

(** [Pairings::status]; [wait] is what other tasks do until it is ready. *)
Definition pairings_status (wait : nat * Timestamp → Pairings * W → Pairings * W) (request : StatusRequest)
    : table_m StatusResponse :=
  let! subscribed := status_begin request in
  modify (wait subscribed);;
  let! r := attempt (status_finish request) in
  update (status_drop request.(st_pairing_id));;
  match r with inl e => throw e | inr response => ret response end.

(** [Pairings::consume_ticket] *)
Definition consume_ticket (pairing_id ticket : string) : table_m Registration :=
  let! supplied := ok_or INVALID (decode 32 ticket) in
  on_entry pairing_id (
    expire_now;;
    let! p := get in
    let! current := ok_or INVALID p.(p_ticket) in
    let equal := matches current.(t_hash) supplied in
    let! late := (if equal then let! now := clock_read in ret (current.(t_until) <=? now)
                  else ret false) in
    reject_if (negb equal || late || negb (bool_decide (p.(p_state) = Approved))) INVALID;;
    let! started_at := clock_read in
    let! label := ok_or INVALID p.(p_label) in
    let registration := mkRegistration pairing_id label p.(p_add_to_device) started_at
      (Z.min (after started_at TICKET_TTL) p.(p_until)) in
    update (set_registration (Some registration));;
    update (transition Registering);;
    ret registration).

(** [Pairings::retry_registration] *)
Definition retry_registration (registration : Registration) : table_m unit :=
  on_entry registration.(rg_pairing_id) (
    expire_now;;
    let! p := get in
    when (bool_decide (p.(p_state) = Registering)
          && bool_decide (p.(p_registration) = Some registration))
      (update (transition Approved))).

(** [Pairings::finish]: the checks before [commit] and the transition after
    it, under one lock ([commit] runs between them on the caller's state). *)
Definition finish_check (registration : Registration) : table_m unit :=
  on_entry registration.(rg_pairing_id) (
    expire_now;;
    let! p := get in
    let! current := ok_or INVALID p.(p_registration) in
    reject_if (negb (bool_decide (p.(p_state) = Registering))
               || negb (bool_decide (current.(rg_started_at) = registration.(rg_started_at)))
               || negb (bool_decide (current.(rg_deadline) = registration.(rg_deadline)))
               || negb (bool_decide (current.(rg_device_label) = registration.(rg_device_label)))
               || negb (bool_decide (current.(rg_add_to_device) = registration.(rg_add_to_device))))
      INVALID).
Definition finish_done (registration : Registration) : table_m unit :=
  on_entry registration.(rg_pairing_id) (update (transition Registered)).
Definition finish {St T} (table : ∀ A, table_m A → M St Failure A)
    (registration : Registration) (commit : M St Failure T) : M St Failure T :=
  table _ (finish_check registration);;
  let! result := commit in
  table _ (finish_done registration);;
  ret result.
End Pairing.
