(* ===== verification/PairingFacts.v ===== *)
(** * What the pairing table guarantees

    An invariant of every entry and of the table, kept by every method in any
    order and interleaving; the life cycle of a pairing as a preorder; and what
    each method did when it returned. *)
From stdpp Require Import base gmap strings list fin_maps fin_sets.
From Stdlib Require Import ZArith Lia.
From S2P Require Import Prelude Rust Externals Crates Clock Devices Admin Events World Pairing.
Local Open Scope Z_scope.

Arguments transition : simpl never.
Arguments live : simpl never.

Section Facts.
Context `{Base64, Crypto, Tokio, World W, !WorldLaws W}.
Implicit Types (p : Pairing) (w : W) (id : string).

(** ** Entries *)

Definition decided (s : State) : bool :=
  bool_decide (s ∈ [Approved; Registering; Registered]).

(** Secrets, tickets and registrations exist in one state each; a pairing past
    its approval was claimed; five failures end it. *)
Record entry_wf (p : Pairing) : Prop := {
  wf_ticket : is_Some p.(p_ticket) → p.(p_state) = Approved;
  wf_ticket_until t : p.(p_ticket) = Some t → t.(t_until) <= p.(p_until);
  wf_registration : is_Some p.(p_registration) ↔ p.(p_state) = Registering;
  wf_deadline r : p.(p_registration) = Some r → r.(rg_deadline) <= p.(p_until);
  wf_secret : is_Some p.(p_secret) ↔ p.(p_state) = Pending ∧ p.(p_claim_hash) = None;
  wf_secret_hash s : p.(p_secret) = Some s → p.(p_secret_hash) = hash s;
  wf_label : is_Some p.(p_claim_hash) ↔ is_Some p.(p_label);
  wf_claimed : decided p.(p_state) = true → is_Some p.(p_claim_hash);
  wf_failures : 0 <= p.(p_failures) <= u8_max;
  wf_attempts : live p = true → p.(p_failures) < 5;
  wf_notification : is_Some p.(p_notification) → live p = false;
}.

(** What no method undoes: a decision is final, a claim is never replaced, the
    secret's digest and the target device never change. *)
Record evolves (p p' : Pairing) : Prop := {
  ev_final : live p = false → p_state p' = p_state p;
  ev_claim h : p_claim_hash p = Some h → p_claim_hash p' = Some h;
  ev_label l : p_label p = Some l → p_label p' = Some l;
  ev_secret_hash : p_secret_hash p' = p_secret_hash p;
  ev_target : p_add_to_device p' = p_add_to_device p;
  ev_failures : p_failures p <= p_failures p';
  ev_pending : p_state p' = Pending → p_state p = Pending;
}.

#[export] Instance evolves_preorder : PreOrder evolves.
Proof.
  split; [intros p; constructor; auto; lia|].
  intros p1 p2 p3 [F1 C1 L1 S1 T1 A1 P1] [F2 C2 L2 S2 T2 A2 P2].
  constructor; auto; try congruence; try lia.
  intros Hl. rewrite F2, F1; auto. unfold live in *. by rewrite F1.
Qed.

(** What the desktop has been told by the time a pairing is claimed, and by
    the time it is approved. *)
Definition told_claim id (log : list Event) : Prop :=
  ∃ label sas login agent, pairing_claimed id label sas login agent ∈ log.
Definition told_approval id (log : list Event) : Prop :=
  pairing_state id "approved" "approved" ∈ log.

Record entry_inv id p w : Prop := {
  inv_wf : entry_wf p;
  inv_claim : is_Some p.(p_claim_hash) → told_claim id (world_log w);
  inv_approval : decided p.(p_state) = true → told_approval id (world_log w);
}.

Definition log_grows w w' : Prop := world_log w `prefix_of` world_log w'.
#[export] Instance log_grows_preorder : PreOrder log_grows.
Proof. split; unfold log_grows; [intros w; done|intros w1 w2 w3; apply PreOrder_Transitive]. Qed.

Record entry_rel id (s s' : Pairing * W) : Prop := {
  rel_inv : entry_inv id s'.1 s'.2;
  rel_evolves : evolves s.1 s'.1;
  rel_log : log_grows s.2 s'.2;
  rel_time : world_time s.2 <= world_time s'.2;
}.

Lemma entry_rel_refl id s : entry_inv id s.1 s.2 → entry_rel id s s.
Proof. intros. constructor; [done|reflexivity|reflexivity|lia]. Qed.

Lemma entry_rel_trans id s1 s2 s3 : entry_rel id s1 s2 → entry_rel id s2 s3 → entry_rel id s1 s3.
Proof.
  intros [_ E1 L1 T1] [I2 E2 L2 T2].
  constructor; [done|by etrans|by etrans|lia].
Qed.

Lemma told_claim_grows id w w' :
  log_grows w w' → told_claim id (world_log w) → told_claim id (world_log w').
Proof.
  intros [k Hk] (l & s & g & a & Hin). exists l, s, g, a. rewrite Hk. set_solver.
Qed.
Lemma told_approval_grows id w w' :
  log_grows w w' → told_approval id (world_log w) → told_approval id (world_log w').
Proof. intros [k Hk] Hin. unfold told_approval. rewrite Hk. set_solver. Qed.

Lemma entry_inv_grows id p w w' : log_grows w w' → entry_inv id p w → entry_inv id p w'.
Proof.
  intros Hl [Hwf Hc Ha].
  constructor; eauto using told_claim_grows, told_approval_grows.
Qed.

Lemma log_grows_same w w' : world_log w' = world_log w → log_grows w w'.
Proof. unfold log_grows. by intros ->. Qed.
Lemma log_grows_app w w' l : world_log w' = world_log w ++ l → log_grows w w'.
Proof. unfold log_grows. intros ->. by exists l. Qed.

(** *** The pure steps *)

Ltac state_cases p :=
  destruct p as [add secret shash chash label failures state until changed polls ticket reg notif];
  simpl in *.

Lemma transition_state s p : p_state (transition s p) = s.
Proof. unfold transition. repeat case_bool_decide; done. Qed.

Lemma live_states p :
  live p = true ↔ p_state p = Pending ∨ p_state p = Approved ∨ p_state p = Registering.
Proof. unfold live. destruct (p_state p); vm_compute; intuition discriminate. Qed.
Lemma dead_states p :
  live p = false ↔ p_state p = Rejected ∨ p_state p = Expired ∨ p_state p = Registered.
Proof. unfold live. destruct (p_state p); vm_compute; intuition discriminate. Qed.
Lemma decided_states s : decided s = true ↔ s = Approved ∨ s = Registering ∨ s = Registered.
Proof. destruct s; vm_compute; intuition discriminate. Qed.

Lemma end_state v s p : p_state (set_notification v (transition s p)) = s.
Proof. apply (transition_state s p). Qed.

(** Ending a pairing keeps what was learnt and drops every capability; the
    failure that ends it may be the fifth. *)
Lemma end_wf_failures s reason n p :
  s = Rejected ∨ s = Expired → 0 <= n <= u8_max → entry_wf p →
  entry_wf (set_notification (Some reason) (transition s (set_failures n p))).
Proof.
  intros Hs Hn [Ht Htu Hr Hd Hse Hsh Hl Hc Hf Ha Hno].
  assert (live (set_notification (Some reason) (transition s (set_failures n p))) = false) as Hdead.
  { apply dead_states. rewrite end_state. tauto. }
  state_cases p. unfold transition in *.
  destruct Hs as [-> | ->]; simpl in *; constructor; simpl; try done; try naive_solver;
    rewrite ?Hdead; try done; try (split; naive_solver); try lia.
Qed.

Lemma end_wf s reason p :
  s = Rejected ∨ s = Expired → entry_wf p →
  entry_wf (set_notification (Some reason) (transition s p)).
Proof.
  intros Hs Hp. pose proof (end_wf_failures s reason (p_failures p) p Hs) as Hw.
  replace (set_failures (p_failures p) p) with p in Hw by (by destruct p).
  apply Hw; [apply (wf_failures _ Hp)|done].
Qed.

Lemma end_evolves s reason p :
  s = Rejected ∨ s = Expired → live p = true →
  evolves p (set_notification (Some reason) (transition s p)).
Proof.
  intros Hs Hl. constructor; try (by rewrite Hl);
    state_cases p; unfold transition; destruct Hs as [-> | ->]; simpl; done || lia.
Qed.

Lemma end_dead v s p : s = Rejected ∨ s = Expired →
  live (set_notification v (transition s p)) = false.
Proof. intros Hs. apply dead_states. rewrite end_state. tauto. Qed.

Lemma end_claim v s p : p_claim_hash (set_notification v (transition s p)) = p_claim_hash p.
Proof. unfold transition. repeat case_bool_decide; done. Qed.

Lemma end_inv id s reason p w :
  s = Rejected ∨ s = Expired → entry_inv id p w →
  entry_inv id (set_notification (Some reason) (transition s p)) w.
Proof.
  intros Hs [Hwf Hc Ha]. constructor; [by apply end_wf|by rewrite end_claim|].
  rewrite end_state. by destruct Hs as [-> | ->].
Qed.

Lemma expire_cases now p :
  expire now p = p ∧ (live p = true → now < expiry p) ∨
  live p = true ∧ expiry p <= now ∧
    expire now p = set_notification (Some "ttl") (transition Expired p).
Proof.
  unfold expire. destruct (live p); simpl; [|left; done].
  destruct (Z.leb_spec (expiry p) now); [right; done|left; done].
Qed.

Lemma expire_rel id now p w w' :
  entry_inv id p w → world_log w' = world_log w → world_time w <= world_time w' →
  entry_rel id (p, w) (expire now p, w').
Proof.
  intros Hp Hl Ht. assert (log_grows w w') by by apply log_grows_same.
  destruct (expire_cases now p) as [[-> _]|(Hlive & _ & ->)]; constructor; simpl; try done.
  - by eapply entry_inv_grows.
  - apply end_inv; [by right|]. by eapply entry_inv_grows.
  - apply end_evolves; [by right|done].
Qed.

Lemma expire_live now p : live (expire now p) = true → expire now p = p ∧ now < expiry p.
Proof.
  destruct (expire_cases now p) as [[-> Hl]|(_ & _ & ->)]; [auto|].
  rewrite end_dead; [done|by right].
Qed.

Lemma notify_live p p' : entry_wf p → live p' = true →
  p' = set_notification None p ∨ p' = p → p' = p.
Proof.
  intros Hw Hl [-> | ->]; [|done]. destruct (p_notification p) as [n|] eqn:Hn.
  - assert (live p = false) as Hd by (apply (wf_notification _ Hw); eauto). by unfold live in *; simpl in *; rewrite Hd in Hl.
  - destruct p; simpl in *; by subst.
Qed.

Lemma expiry_until p : entry_wf p → expiry p <= p_until p.
Proof.
  intros Hw. unfold expiry. destruct (p_registration p) eqn:Hr; [by apply (wf_deadline _ Hw)|lia].
Qed.

(** A pairing that is live after [expire] and [notify] was not touched. *)
Lemma survived now p p' : entry_wf p → live p' = true →
  p' = set_notification None (expire now p) ∨ p' = expire now p →
  p' = p ∧ now < p_until p.
Proof.
  intros Hw Hl Hp.
  assert (live (expire now p) = true) as [Heq Hnow]%expire_live by (by destruct Hp as [-> | ->]).
  rewrite Heq in Hp. pose proof (expiry_until _ Hw).
  split; [by eapply notify_live|lia].
Qed.

(** Changing only the pending notification of an ended pairing. *)
Lemma forget_notification_rel id p w w' :
  entry_inv id p w → log_grows w w' → world_time w <= world_time w' →
  entry_rel id (p, w) (set_notification None p, w').
Proof.
  intros Hp Hg Ht. pose proof (entry_inv_grows _ _ _ _ Hg Hp) as [Hwf Hc Ha].
  constructor; simpl; [|constructor; simpl; auto; lia|done|done].
  constructor; [|done|done]. destruct Hwf. constructor; simpl; auto. by intros [].
Qed.

Lemma wp_expire_now id p w (Q : outcome Failure unit → Pairing * W → Prop) :
  entry_inv id p w →
  (∀ w', entry_rel id (p, w) (expire (world_time w') p, w') → world_log w' = world_log w →
         world_time w <= world_time w' →
         Q (Ok tt) (expire (world_time w') p, w')) →
  wp expire_now Q (p, w).
Proof.
  intros Hp HQ. unfold expire_now. world_steps. subst t. apply HQ; [|done|done].
  by apply expire_rel.
Qed.

(** [notify] clears the notification or fails and keeps it. *)
Lemma wp_notify id p w (Q : outcome Failure unit → Pairing * W → Prop) :
  entry_inv id p w →
  (∀ r p' w', entry_rel id (p, w) (p', w') →
     world_time w' = world_time w ∧ log_grows w w' →
     (r = Ok tt ∧ (p' = set_notification None p ∨ p' = p)
      ∨ r = Err QUEUE_UNAVAILABLE ∧ p' = p ∧ is_Some (p_notification p)) →
     Q r (p', w')) →
  wp (notify id) Q (p, w).
Proof.
  intros Hp HQ. unfold notify. world_steps.
  - apply HQ; [|split; [done|by eapply log_grows_app]|auto].
    apply forget_notification_rel; [done| |lia]. by eapply log_grows_app.
  - apply HQ; [|split; [done|by eapply log_grows_app]|naive_solver].
    apply (entry_rel_trans _ _ (p, w)).
    + by apply entry_rel_refl.
    + constructor; simpl; [|reflexivity| |lia];
        [eapply entry_inv_grows; [|done]|]; by eapply log_grows_app.
  - apply HQ; [by apply entry_rel_refl|done|auto].
Qed.

(** [fail]: one more failure; the fifth, or a second claim, rejects. *)
Definition after_failure (second : bool) p : Pairing :=
  let p := set_failures (saturating_add u8_max (p_failures p) 1) p in
  if (5 <=? p_failures p) || second
  then set_notification (Some (if second then "second-claim" else "attempt-limit"))
         (transition Rejected p)
  else p.

Lemma after_failure_rel id second p w :
  entry_inv id p w → live p = true → entry_rel id (p, w) (after_failure second p, w).
Proof.
  intros Hp Hl. unfold after_failure. set (p1 := set_failures _ p).
  pose proof (wf_failures _ (inv_wf _ _ _ Hp)) as Hf.
  pose proof (wf_attempts _ (inv_wf _ _ _ Hp) Hl) as Ha.
  assert (p_failures p1 = p_failures p + 1) as Hf1.
  { apply saturating_add_small. unfold u8_max. lia. }
  assert (evolves p p1) as He by (constructor; try done; lia).
  destruct ((5 <=? p_failures p1) || second) eqn:Hb.
  - destruct Hp as [Hwf Hc Ha']. constructor; simpl.
    + constructor; [|by rewrite end_claim|by rewrite end_state].
      apply end_wf_failures; [by left| |done]. fold p1.
      unfold p1 in Hf1. simpl in Hf1. rewrite Hf1. unfold u8_max. lia.
    + etrans; [exact He|]. by apply end_evolves; [left|].
    + reflexivity.
    + lia.
  - apply orb_false_iff in Hb as [Hb%Z.leb_gt _].
    destruct Hp as [[] Hc Ha']. constructor; simpl; [|done|reflexivity|lia].
    constructor; [|done|done]. unfold u8_max in *. subst p1.
    constructor; simpl in *; auto; rewrite Hf1; unfold u8_max; lia.
Qed.

(** *** The other transitions *)

(** A pure step on one entry: the fields one by one. *)
Ltac entry_step :=
  lazymatch goal with
  | Hinv : entry_inv _ ?p _ |- _ =>
      destruct Hinv as [[Ht Htu Hr Hd Hse Hsh Hlb Hc Hf Ha Hn] Htc Hta];
      try match goal with Hl : live p = true |- _ => specialize (Ha Hl) end;
      state_cases p; subst; unfold transition in *; simpl in *;
      constructor; simpl; [constructor; simpl; [constructor; simpl|..] |constructor; simpl|
        reflexivity|lia];
      unfold decided in *; simpl in *; try done; try naive_solver; try lia
  end.

Lemma approve_rel id p w now :
  entry_inv id p w → p_state p = Pending → is_Some (p_claim_hash p) →
  told_approval id (world_log w) → entry_rel id (p, w) (transition Approved (set_until now p), w).
Proof.
  intros Hinv Hp Hcl Htold. assert (live p = true) by (apply live_states; auto). entry_step.
Qed.

Lemma reject_rel id reason p w : entry_inv id p w → live p = true →
  entry_rel id (p, w) (set_notification (Some reason) (transition Rejected p), w).
Proof.
  intros Hinv Hl. constructor; simpl;
    [apply end_inv; auto|apply end_evolves; auto|reflexivity|lia].
Qed.

Lemma claim_rel id p w l token :
  entry_inv id p w → live p = true → is_Some (p_secret p) → told_claim id (world_log w) →
  entry_rel id (p, w)
    (set_secret None (set_label (Some l) (set_claim_hash (Some token) p)), w).
Proof.
  intros Hinv Hl Hs Htold. apply (wf_secret _ (inv_wf _ _ _ Hinv)) in Hs as [Hst Hno].
  entry_step.
Qed.

Lemma ticket_rel id p w h t :
  entry_inv id p w → p_state p = Approved → t <= p_until p →
  entry_rel id (p, w) (set_ticket (Some (mkTicket h t)) p, w).
Proof.
  intros Hinv Hst Ht'. assert (live p = true) by (apply live_states; auto). entry_step.
Qed.

Lemma consume_rel id p w r :
  entry_inv id p w → p_state p = Approved → rg_deadline r <= p_until p →
  entry_rel id (p, w) (transition Registering (set_registration (Some r) p), w).
Proof.
  intros Hinv Hst Ht'. assert (live p = true) by (apply live_states; auto). entry_step.
Qed.

Lemma retry_rel id p w :
  entry_inv id p w → p_state p = Registering → entry_rel id (p, w) (transition Approved p, w).
Proof.
  intros Hinv Hst. assert (live p = true) by (apply live_states; auto). entry_step.
Qed.

Lemma registered_rel id p w :
  entry_inv id p w → p_state p = Registering → entry_rel id (p, w) (transition Registered p, w).
Proof.
  intros Hinv Hst. assert (live p = true) by (apply live_states; auto). entry_step.
Qed.

Lemma polls_rel id p w g : entry_inv id p w → entry_rel id (p, w) (set_polls g p, w).
Proof. intros Hinv. entry_step. Qed.

(** *** Steps of a method, related to the entry it started from *)

Section From.
Context (id : string) (s0 : Pairing * W).
Implicit Types Q : outcome Failure unit → Pairing * W → Prop.

Lemma rel_world p w w' : entry_rel id s0 (p, w) →
  world_time w <= world_time w' → log_grows w w' → entry_rel id s0 (p, w').
Proof.
  intros [Hi He Hl Ht] Htime Hlog. simpl in *.
  constructor; simpl; [by eapply entry_inv_grows|done|by etrans|lia].
Qed.

Lemma rel_step p w p' w' : entry_rel id s0 (p, w) →
  (entry_inv id p w → entry_rel id (p, w) (p', w')) → entry_rel id s0 (p', w').
Proof. intros Hr Hs. eapply entry_rel_trans; [done|]. apply Hs, Hr. Qed.

Lemma from_expire_now Q p w :
  entry_rel id s0 (p, w) →
  (∀ w', entry_rel id s0 (expire (world_time w') p, w') → world_log w' = world_log w →
         world_time w <= world_time w' → Q (Ok tt) (expire (world_time w') p, w')) →
  wp expire_now Q (p, w).
Proof.
  intros Hr HQ. apply (wp_expire_now id); [apply Hr|]. intros w' Hw Hl Ht.
  apply HQ; [|done|done]. by eapply entry_rel_trans.
Qed.

Lemma from_notify Q p w :
  entry_rel id s0 (p, w) →
  (∀ r p' w', entry_rel id s0 (p', w') →
     world_time w' = world_time w ∧ log_grows w w' →
     (r = Ok tt ∧ (p' = set_notification None p ∨ p' = p)
      ∨ r = Err QUEUE_UNAVAILABLE ∧ p' = p ∧ is_Some (p_notification p)) →
     Q r (p', w')) →
  wp (notify id) Q (p, w).
Proof.
  intros Hr HQ. apply wp_notify; [apply Hr|]. intros r p' w' Hw Ht Hc.
  apply HQ; [|done|done]. by eapply entry_rel_trans.
Qed.

Lemma from_fail second Q p w :
  entry_rel id s0 (p, w) → live p = true →
  (∀ e p' w', entry_rel id s0 (p', w') →
     p' = after_failure second p ∨ p' = set_notification None (after_failure second p) →
     Q (Err e) (p', w')) →
  wp (fail id second) Q (p, w).
Proof.
  intros Hr Hl HQ.
  assert (entry_rel id s0 (after_failure second p, w)) as Hr'.
  { eapply rel_step; [done|]. intros. by apply after_failure_rel. }
  unfold fail. apply wp_bind, wp_update, wp_bind, wp_get.
  set (p1 := set_failures _ p). apply wp_bind, wp_when.
  assert (after_failure second p = if (5 <=? p_failures p1) || second then
    set_notification (Some (if second then "second-claim" else "attempt-limit"))
      (transition Rejected p1) else p1) as Heq by done.
  destruct ((5 <=? p_failures p1) || second).
  - apply wp_bind, wp_update, wp_bind, wp_update. rewrite <-Heq.
    apply from_notify; [done|]. intros r p' w' Hr'' _ [[-> [-> | ->]]|(-> & -> & _)].
    + apply wp_throw, HQ; auto.
    + apply wp_throw, HQ; auto.
    + apply HQ; auto.
  - rewrite <-Heq. apply wp_throw, HQ; auto.
Qed.

Lemma from_clock_read (Q : outcome Failure Timestamp → Pairing * W → Prop) p w :
  entry_rel id s0 (p, w) →
  (∀ w', entry_rel id s0 (p, w') → world_time w <= world_time w' →
         world_log w' = world_log w → Q (Ok (world_time w')) (p, w')) →
  wp clock_read Q (p, w).
Proof.
  intros Hr HQ. apply wp_clock_read. intros t w' Ht <- Hl. apply HQ; [|done|done].
  eapply rel_world; [done|done|by apply log_grows_same].
Qed.

Lemma from_random n (Q : outcome Failure (option string) → Pairing * W → Prop) p w :
  entry_rel id s0 (p, w) → 0 <= n →
  (∀ o w', entry_rel id s0 (p, w') → (∀ b, o = Some b → len b = n) →
           world_time w' = world_time w → world_log w' = world_log w → Q (Ok o) (p, w')) →
  wp (random n) Q (p, w).
Proof.
  intros Hr Hn HQ. apply wp_random; [done|]. intros o w' Hlen Ht Hl. apply HQ; auto.
  eapply rel_world; [done|lia|by apply log_grows_same].
Qed.

Lemma from_emit e (Q : outcome Failure unit → Pairing * W → Prop) p w :
  entry_rel id s0 (p, w) →
  (∀ w', entry_rel id s0 (p, w') → world_time w' = world_time w →
         world_log w' = world_log w ++ [e] → Q (Ok tt) (p, w')) →
  (∀ w', entry_rel id s0 (p, w') → world_time w' = world_time w →
         world_log w' = world_log w → Q (Err QUEUE_UNAVAILABLE) (p, w')) →
  wp (try_emit_event e) Q (p, w).
Proof.
  intros Hr HQ HQ'. apply wp_try_emit_event. intros [] w' Ht Hl.
  - apply HQ; [|done|done]. eapply rel_world; [done|lia|by eapply log_grows_app].
  - rewrite app_nil_r in Hl. apply HQ'; [|done|done].
    eapply rel_world; [done|lia|by apply log_grows_same].
Qed.
End From.
End Facts.

(** One step of a method of an entry, carrying its relation to the start. *)
Ltac from_step :=
  lazymatch goal with
  | Hr : entry_rel _ _ (?pp, ?ww) |- wp _ _ (?pp, ?ww) =>
      lazymatch goal with
      | |- wp expire_now _ _ =>
          eapply from_expire_now; [exact Hr|]; clear Hr; intros ?w Hr ?Hlog ?Htime
      | |- wp (notify _) _ _ =>
          eapply from_notify; [exact Hr|]; clear Hr; intros ?r ?p ?w Hr ?Htime ?Hcase
      | |- wp clock_read _ _ =>
          eapply from_clock_read; [exact Hr|]; clear Hr; intros ?w Hr ?Htime ?Hlog
      | |- wp (random _) _ _ =>
          eapply from_random; [exact Hr|done|]; clear Hr; intros ?o ?w Hr ?Hlen ?Htime ?Hlog
      | |- wp (try_emit_event _) _ _ =>
          eapply from_emit; [exact Hr| |]; clear Hr; intros ?w Hr ?Htime ?Hlog
      | |- wp get _ _ => apply wp_get
      | |- wp (update _) _ _ => apply wp_update
      | _ => wp_step
      end
  | |- wp get _ _ => apply wp_get
  | |- wp (update _) _ _ => apply wp_update
  | _ => wp_step
  end; cbn beta iota.
Ltac from_steps := repeat from_step.

(** * The pairing table as a state machine

    Every method keeps the invariant of the table and lets entries only evolve;
    rule induction over [pairing_step] extends both to any interleaving. *)
Section Table.
Context `{Base64, Crypto, Tokio, World W, !WorldLaws W}.
Implicit Types (p : Pairing) (w : W) (id : string) (s : Pairings).

(** ** The table *)

Record table_inv s w : Prop := {
  ti_entry id p : ps_entries s !! id = Some p → entry_inv id p w;
  ti_live : (live_count s ≤ MAX_LIVE)%nat;
  ti_size : (size (ps_entries s) ≤ MAX_RECORDS)%nat;
}.

(** [id] was announced as a new pairing between [w] and [w']. *)
Definition recreated id w w' : Prop :=
  ∃ l url until, world_log w' = world_log w ++ l ∧ pairing_created id url until ∈ l.

Definition entry_history (o o' : option Pairing) : Prop :=
  match o, o' with
  | Some p, Some p' => evolves p p'
  | None, Some _ => False
  | _, None => True
  end.

Record table_rel (t t' : Pairings * W) : Prop := {
  tr_inv : table_inv t'.1 t'.2;
  tr_log : log_grows t.2 t'.2;
  tr_time : world_time t.2 <= world_time t'.2;
  tr_const : ps_origin t'.1 = ps_origin t.1 ∧ ps_login t'.1 = ps_login t.1;
  tr_entry id : entry_history (ps_entries t.1 !! id) (ps_entries t'.1 !! id)
                ∨ recreated id t.2 t'.2;
}.

Lemma entry_history_refl o : entry_history o o.
Proof. by destruct o; simpl. Qed.

Lemma entry_history_trans o1 o2 o3 :
  entry_history o1 o2 → entry_history o2 o3 → entry_history o1 o3.
Proof. destruct o1, o2, o3; simpl; try done. intros. by etrans. Qed.

Lemma recreated_r id w1 w2 w3 : recreated id w1 w2 → log_grows w2 w3 → recreated id w1 w3.
Proof.
  intros (l & url & until & Hl & Hin) [k Hk]. exists (l ++ k), url, until.
  rewrite Hk, Hl, <-app_assoc. set_solver.
Qed.
Lemma recreated_l id w1 w2 w3 : log_grows w1 w2 → recreated id w2 w3 → recreated id w1 w3.
Proof.
  intros [k Hk] (l & url & until & Hl & Hin). exists (k ++ l), url, until.
  rewrite Hl, Hk, <-app_assoc. set_solver.
Qed.

Lemma table_rel_refl s w : table_inv s w → table_rel (s, w) (s, w).
Proof.
  intros. constructor; simpl; [done|reflexivity|lia|done|].
  left. apply entry_history_refl.
Qed.

Lemma table_rel_trans t1 t2 t3 : table_rel t1 t2 → table_rel t2 t3 → table_rel t1 t3.
Proof.
  intros [I1 L1 T1 [O1 G1] E1] [I2 L2 T2 [O2 G2] E2].
  constructor; [done|by etrans|lia|split; congruence|].
  intros id. destruct (E1 id) as [Ha|Ha]; [destruct (E2 id) as [Hb|Hb]|].
  - left. by eapply entry_history_trans.
  - right. by eapply recreated_l.
  - right. by eapply recreated_r.
Qed.

Lemma table_inv_grows s w w' : log_grows w w' → table_inv s w → table_inv s w'.
Proof. intros Hg [He Hl Hs]. constructor; eauto using entry_inv_grows. Qed.

Lemma table_rel_world t s w w' :
  table_rel t (s, w) → log_grows w w' → world_time w <= world_time w' → table_rel t (s, w').
Proof.
  intros Hr Hg Ht. eapply table_rel_trans; [done|].
  constructor; simpl; [|done|done|done|left; apply entry_history_refl].
  eapply table_inv_grows; [done|apply Hr].
Qed.

Lemma evolves_live p p' : evolves p p' → live p' = true → live p = true.
Proof.
  intros He Hl. destruct (live p) eqn:Hd; [done|].
  apply live_states in Hl. apply dead_states in Hd as Hd'. rewrite (ev_final _ _ He) in Hl; [|done].
  destruct Hl as [|[|]], Hd' as [|[|]]; congruence.
Qed.

Lemma table_rel_insert id p p' s w w' :
  table_inv s w → ps_entries s !! id = Some p → entry_rel id (p, w) (p', w') →
  table_rel (s, w) (set_entries (<[id := p']> (ps_entries s)) s, w').
Proof.
  intros [He Hl Hs] Hp [Hi Hev Hg Ht]. simpl in *. constructor; simpl; [|done|done|done|].
  - constructor; simpl.
    + intros i q. destruct (decide (i = id)) as [->|Hne].
      * rewrite lookup_insert, decide_True by done. by intros [= <-].
      * rewrite lookup_insert_ne by done. intros Hq. by eapply entry_inv_grows; [|apply He].
    + etrans; [|exact Hl]. apply (filter_size_update_le _ _ p); [done|]. by apply evolves_live.
    + rewrite map_size_insert_Some; [done|]. by eexists.
  - intros i. left. destruct (decide (i = id)) as [->|Hne].
    + rewrite lookup_insert, decide_True, Hp by done. done.
    + rewrite lookup_insert_ne by done. apply entry_history_refl.
Qed.

(** The rule for the methods that work on one entry. *)
Lemma from_on_entry {A} t id (m : M (Pairing * W) Failure A)
    (Q : outcome Failure A → Pairings * W → Prop) s w :
  table_rel t (s, w) →
  (ps_entries s !! id = None → Q (Err INVALID) (s, w)) →
  (∀ p, ps_entries s !! id = Some p → entry_rel id (p, w) (p, w) →
     wp m (λ r pw, entry_rel id (p, w) pw ∧
       (table_rel t (set_entries (<[id := pw.1]> (ps_entries s)) s, pw.2) →
        Q r (set_entries (<[id := pw.1]> (ps_entries s)) s, pw.2))) (p, w)) →
  wp (on_entry id m) Q (s, w).
Proof.
  intros Hr Hn Hs. unfold wp, on_entry. destruct (ps_entries s !! id) as [p|] eqn:Hp; [|by apply Hn].
  pose proof (ti_entry _ _ (tr_inv _ _ Hr) _ _ Hp) as Hi. simpl in Hi.
  specialize (Hs p eq_refl (entry_rel_refl id (p, w) Hi)). unfold wp in Hs.
  destruct (m (p, w)) as [r [p' w']]. simpl in *. destruct Hs as [Hrel HQ]. apply HQ.
  eapply table_rel_trans; [done|]. eapply table_rel_insert; [apply Hr|done|done].
Qed.

Lemma from_iterate t m (Q : outcome Failure (list (string * Pairing)) → Pairings * W → Prop) s w :
  table_rel t (s, w) →
  (∀ l w', table_rel t (s, w') → l ≡ₚ map_to_list m → world_log w' = world_log w →
           world_time w' = world_time w → Q (Ok l) (s, w')) →
  wp (iterate m) Q (s, w).
Proof.
  intros Hr HQ. apply wp_iterate. intros l w' Hp Ht Hl. apply HQ; auto.
  eapply table_rel_world; [done|by apply log_grows_same|lia].
Qed.

Lemma maintenance_spec t s w : table_rel t (s, w) →
  wp pairings_maintenance (λ r t', r = Ok tt ∧ table_rel t t') (s, w).
Proof.
  intros Hr. unfold pairings_maintenance. apply wp_bind, wp_get, wp_bind.
  eapply from_iterate; [done|]. intros l w' Hr' _ _ _.
  apply (wp_for_each _ _ (table_rel t)); [done| |done].
  intros [id p0] [s1 w1] _ Hr1. apply wp_bind, wp_attempt.
  eapply from_on_entry; [done|done|]. intros p _ Hp. from_steps. split; [done|].
  intros Hr3. destruct Hcase as [[-> _]|[-> _]]; by apply wp_ret.
Qed.

(** ** The methods *)

Lemma fail_live_pending p : is_Some (p_secret p) → entry_wf p → p_state p = Pending.
Proof. intros Hs Hw. by apply (wf_secret _ Hw) in Hs as [? _]. Qed.

(** What a claim that was answered did. *)
Record claimed (request : ClaimRequest) (user_agent : string) (login : string)
    (p : Pairing) w (p' : Pairing) w' (resp : ClaimResponse) : Prop := {
  cd_pending : p_state p = Pending ∧ p_claim_hash p = None;
  cd_label : valid_label request.(cl_device_label) = true;
  cd_secret : ∃ supplied secret nonce gateway,
    decode 32 request.(cl_secret) = Some supplied
    ∧ matches p.(p_secret_hash) supplied = true
    ∧ p.(p_secret) = Some secret
    ∧ decode 32 request.(cl_device_nonce) = Some nonce
    ∧ decode 32 resp.(gateway_nonce) = Some gateway
    ∧ derive_sas secret nonce gateway = Some resp.(sas);
  cd_token : ∃ token, decode 32 resp.(claim_token) = Some token
    ∧ p_claim_hash p' = Some (hash token);
  cd_state : p_state p' = Pending ∧ p_secret p' = None
    ∧ p_label p' = Some request.(cl_device_label) ∧ p_until p' = p_until p;
  cd_in_time : world_time w' < p_until p;
  cd_announced : ∃ l, world_log w' = world_log w ++ l ++
    [pairing_claimed request.(cl_pairing_id) request.(cl_device_label) resp.(sas)
       login user_agent];
}.

Lemma claim_spec `{!Base64Laws _} t request user_agent s w : table_rel t (s, w) →
  wp (pairings_claim request user_agent) (λ r t',
    (r = Panic → ∃ secret nonce gateway, derive_sas secret nonce gateway = None)
    ∧ table_rel t t'
    ∧ ∀ resp, r = Ok resp → ∃ p p',
        ps_entries s !! request.(cl_pairing_id) = Some p
        ∧ ps_entries t'.1 !! request.(cl_pairing_id) = Some p'
        ∧ claimed request user_agent (ps_login s) p w p' t'.2 resp) (s, w).
Proof.
  intros Hr. unfold pairings_claim.
  apply wp_bind, wp_reject_if. case_match eqn:Hreject; [done|].
  apply wp_bind, wp_ok_or. destruct (decode 32 _) as [device_nonce|] eqn:Hnonce; [|done].
  apply wp_bind, wp_get. cbn zeta.
  eapply from_on_entry; [done|done|]. intros p Hp Hrel.
  do 4 from_step. destruct Hcase as [[-> Heq]|(-> & -> & _)]; [|split; [exact Hrel|done]].
  do 4 from_step; [split; [exact Hrel|done]|].
  apply negb_false_iff in Heqb as Hlive.
  do 2 from_step.
  { apply wp_bind. eapply from_fail; [done|done|]. intros e p' w' Hrel' _. by split. }
  do 2 from_step.
  { apply wp_bind. eapply from_fail; [done|done|]. intros e p' w' Hrel' _. by split. }
  match goal with Hb : _ || _ = false |- _ => apply orb_false_iff in Hb as [Hmatch Hsup] end.
  destruct (decode 32 (cl_secret request)) as [supplied|] eqn:Hsupplied; [|done].
  do 4 from_step; [|split; [exact Hrel|done]]. do 4 from_step; [|split; [exact Hrel|done]].
  do 2 from_step; [|split; [exact Hrel|done]].
  do 2 from_step; [|split; [exact Hrel|by split; eauto]].
  do 2 from_step; [|split; [exact Hrel|done]].
  do 7 from_step.
  assert (p0 = p ∧ world_time w0 < p_until p) as [-> Hin].
  { eapply survived; [|done|done]. by eapply inv_wf, (ti_entry _ _ (tr_inv _ _ Hr)). }
  assert (entry_rel (cl_pairing_id request) (p, w)
    (set_secret None (set_label (Some (cl_device_label request))
      (set_claim_hash (Some (hash s1)) p)), w4)) as Hrel'.
  { eapply rel_step; [exact Hrel|]. intros Hinv. apply claim_rel; [done|done|by eexists|].
    do 4 eexists. rewrite Hlog2. apply elem_of_app. right. by left. }
  split; [exact Hrel'|]. intros Ht. split; [done|]. split; [exact Ht|].
  intros resp [= <-]. exists p. eexists. split; [done|]. split; [simpl; by simplify_map_eq|].
  repeat (apply orb_false_iff in Hreject as [Hreject ?]).
  repeat match goal with Hb : negb _ = false |- _ => apply negb_false_iff in Hb end.
  pose proof (wf_secret _ (inv_wf _ _ _ (ti_entry _ _ (tr_inv _ _ Hr) _ _ Hp))) as [Hpend _].
  subst. constructor; simpl.
  - apply Hpend. by eexists.
  - done.
  - exists supplied, s2, device_nonce, s0. repeat split; try done.
    apply decode_encode. by apply Hlen.
  - exists s1. split; [|done]. apply decode_encode. by apply Hlen0.
  - repeat split. apply Hpend. by eexists.
  - destruct Htime0. lia.
  - destruct Htime0 as [_ [k Hk]]. exists k. rewrite Hlog2, Hlog1, Hlog0, Hk, Hlog.
    by rewrite <-app_assoc.
Qed.

(** A claim that cannot be right: a claimed pairing, or another secret. *)
Definition well_formed_claim (request : ClaimRequest) (user_agent : string) : Prop :=
  is_Some (decode 16 request.(cl_pairing_id)) ∧ valid_label request.(cl_device_label) = true
  ∧ len user_agent <= 256 ∧ forallb (λ b, in_range 32 b 126) (bytes user_agent) = true
  ∧ is_Some (decode 32 request.(cl_device_nonce)).
Definition wrong_claim (request : ClaimRequest) p : Prop :=
  is_Some (p_claim_hash p)
  ∨ ∀ supplied, decode 32 request.(cl_secret) = Some supplied →
      matches (p_secret_hash p) supplied = false.

Lemma after_failure_true_dead p : live (after_failure true p) = false.
Proof. unfold after_failure. rewrite orb_true_r. apply end_dead. by left. Qed.

Lemma after_failure_false p : live (after_failure false p) = false
  ∨ p_failures (after_failure false p) = saturating_add u8_max (p_failures p) 1.
Proof.
  unfold after_failure. destruct (_ || _); [left; apply end_dead; by left|by right].
Qed.

Lemma wrong_claim_spec t request user_agent s w p :
  table_rel t (s, w) → well_formed_claim request user_agent →
  ps_entries s !! request.(cl_pairing_id) = Some p → wrong_claim request p →
  wp (pairings_claim request user_agent) (λ r t', ∃ e p',
    r = Err e ∧ ps_entries t'.1 !! request.(cl_pairing_id) = Some p'
    ∧ (live p' = false ∨ p_claim_hash p = None ∧ p_failures p' = p_failures p + 1)) (s, w).
Proof.
  intros Hr (Hid & Hlabel & Hlen & Hascii & [nonce Hnonce]) Hp Hwrong.
  unfold pairings_claim. rewrite Hlabel, Hascii, Hnonce, bool_decide_true by done.
  rewrite (proj2 (Z.ltb_ge 256 (len user_agent)) Hlen). cbn [negb orb].
  apply wp_bind, wp_reject_if. cbn iota. apply wp_bind, wp_ok_or. cbn iota.
  apply wp_bind, wp_get. cbn zeta.
  eapply from_on_entry; [done|by rewrite Hp|]. intros p0 Hp0 Hrel. rewrite Hp in Hp0. injection Hp0 as <-.
  assert (entry_inv (cl_pairing_id request) p w) as Hi by apply Hrel.
  assert (∀ e p' w', entry_rel (cl_pairing_id request) (p, w) (p', w') →
    (live p' = false ∨ p_claim_hash p = None ∧ p_failures p' = p_failures p + 1) →
    entry_rel (cl_pairing_id request) (p, w) (p', w') ∧
    (table_rel t (set_entries (<[cl_pairing_id request := p']> (ps_entries s)) s, w') →
     ∃ e' p'', (Err e : outcome Failure ClaimResponse) = Err e'
      ∧ (<[cl_pairing_id request := p']> (ps_entries s)) !! cl_pairing_id request = Some p''
      ∧ (live p'' = false ∨ p_claim_hash p = None ∧ p_failures p'' = p_failures p + 1)))
    as Hfin.
  { intros e p' w' Hrel' Hcase. split; [done|]. intros _. exists e, p'. by simplify_map_eq. }
  do 4 from_step. destruct Hcase as [[-> Heq]|(-> & -> & Hn)]; cycle 1.
  { apply Hfin; [exact Hrel|]. left. apply (wf_notification _ (inv_wf _ _ _ (rel_inv _ _ _ Hrel)) Hn). }
  do 3 from_step. from_step.
  { apply Hfin; [exact Hrel|]. left. by apply negb_true_iff. }
  apply negb_false_iff in Heqb.
  destruct (survived _ _ _ (inv_wf _ _ _ Hi) Heqb Heq) as [-> _].
  from_step. from_step.
  { from_step. eapply from_fail; [exact Hrel|done|]. intros e p' w' Hrel' Hp'.
    apply Hfin; [done|]. left. destruct Hp' as [-> | ->]; apply after_failure_true_dead. }
  apply bool_decide_eq_false in Heqb0.
  destruct Hwrong as [|Hwrong]; [done|]. from_step.
  assert (negb (matches (p_secret_hash p) (default (zeros 32) (decode 32 (cl_secret request))))
    || bool_decide (decode 32 (cl_secret request) = None) = true) as ->.
  { destruct (decode 32 (cl_secret request)); [|by rewrite orb_true_r]. simpl. by rewrite Hwrong. }
  unfold when. from_step. eapply from_fail; [exact Hrel|done|]. intros e p' w' Hrel' Hp'.
  apply Hfin; [done|].
  assert (saturating_add u8_max (p_failures p) 1 = p_failures p + 1) as Hsat.
  { apply saturating_add_small. pose proof (wf_attempts _ (inv_wf _ _ _ Hi) Heqb).
    unfold u8_max. lia. }
  rewrite <-Hsat. destruct (after_failure_false p) as [Hd|Hd].
  - left. by destruct Hp' as [-> | ->].
  - right. split; [by apply eq_None_not_Some|]. by destruct Hp' as [-> | ->].
Qed.

Lemma pairing_authenticate_spec request t0 p w (Q : outcome Failure unit → Pairing * W → Prop) :
  entry_rel request.(st_pairing_id) t0 (p, w) →
  (∀ e p' w', entry_rel request.(st_pairing_id) t0 (p', w') → Q (Err e) (p', w')) →
  (∀ token, decode 32 request.(st_claim_token) = Some token →
     is_Some (p_claim_hash p) → matches (default (zeros 32) (p_claim_hash p)) token = true →
     Q (Ok tt) (p, w)) →
  wp (pairing_authenticate request) Q (p, w).
Proof.
  intros Hr Herr Hok. unfold pairing_authenticate. from_step. from_step. cbn zeta.
  apply wp_when. case_match eqn:Hb.
  - from_step. apply wp_when. case_match.
    + eapply from_fail; [done|done|]. intros e p' w' Hr' _. by apply Herr.
    + from_step. by apply Herr.
  - repeat (apply orb_false_iff in Hb as [Hb ?]). apply negb_false_iff in Hb.
    destruct (decode 32 _) as [token|] eqn:Hd; [|done].
    apply (Hok token); [done| |done]. by destruct (p_claim_hash p).
Qed.

Lemma global_polls_rel t g s w : table_rel t (s, w) → table_rel t (set_global_polls g s, w).
Proof. by intros [[] ????]. Qed.

Lemma status_begin_spec t request s w : table_rel t (s, w) →
  wp (status_begin request) (λ r t', r ≠ Panic ∧ table_rel t t') (s, w).
Proof.
  intros Hr. unfold status_begin. cbn zeta. do 2 from_step; [done|].
  apply wp_bind. eapply from_on_entry; [done|done|]. intros p Hp Hrel.
  do 3 from_step. eapply pairing_authenticate_spec; [exact Hrel| |].
  { intros e p' w' Hrel'. by split. }
  intros token _ _ _. do 4 from_step; [|by split].
  from_step. split.
  { eapply rel_step; [exact Hrel|]. intros. by apply polls_rel. }
  clear Hrel. intros Hr'. apply wp_bind, wp_get. cbn [fst snd] in *.
  case_match.
  - apply wp_bind, wp_update.
    pose proof (global_polls_rel _ s1 _ _ Hr') as Hg.
    eapply from_on_entry; [exact Hg|by split|]. intros p2 _ Hrel.
    do 2 from_step. apply wp_ret. split; [exact Hrel|by split].
  - apply wp_bind. eapply from_on_entry; [done|done|]. intros p2 _ Hrel.
    from_step. split; [|by split]. eapply rel_step; [done|]. intros. by apply polls_rel.
Qed.

(** A ticket is only handed out for an approved pairing, and is the one the
    pairing will accept. *)
Lemma status_finish_spec `{!Base64Laws _} t request s w : table_rel t (s, w) →
  wp (status_finish request) (λ r t', r ≠ Panic ∧ table_rel t t' ∧
    ∀ resp, r = Ok resp → ∃ p', ps_entries t'.1 !! request.(st_pairing_id) = Some p'
      ∧ sr_state resp = p_state p'
      ∧ (∃ token h, decode 32 request.(st_claim_token) = Some token
          ∧ p_claim_hash p' = Some h ∧ matches h token = true)
      ∧ match registration_ticket resp with
        | Some text => p_state p' = Approved ∧ ∃ ticket until,
            decode 32 text = Some ticket ∧ p_ticket p' = Some (mkTicket (hash ticket) until)
            ∧ until <= p_until p' ∧ until <= world_time t'.2 + TICKET_TTL
        | None => p_state p' ≠ Approved
        end) (s, w).
Proof.
  intros Hr. unfold status_finish. cbn zeta.
  eapply from_on_entry; [done|done|]. intros p Hp Hrel.
  do 3 from_step. eapply pairing_authenticate_spec; [exact Hrel| |].
  { intros e p' w' Hrel'. by split. }
  intros token Htoken [h Hh] Hmatch. do 2 from_step.
  destruct Hcase as [[-> Heq]|(-> & -> & _)]; [|split; [exact Hrel|done]].
  rename p0 into p1. assert (p_claim_hash p1 = p_claim_hash (expire (world_time w0) p)) as Hch
    by (by destruct Heq as [-> | ->]).
  rewrite Hh in Hmatch. simpl in Hmatch.
  do 3 from_step. from_step.
  - do 4 from_step; [|by split]. do 3 from_step. do 3 from_step.
    apply bool_decide_eq_true in Heqb. split.
    { eapply rel_step; [exact Hrel|]. intros. apply ticket_rel; [done|done|lia]. }
    intros Ht. split; [done|]. split; [done|]. intros resp [= <-]. simpl.
    eexists. split; [by simplify_map_eq|]. split; [done|].
    split; [exists token, h; simpl; rewrite Hch; auto|]. split; [done|].
    subst. exists s0. eexists. split; [apply decode_encode; by apply Hlen|].
    split; [done|]. simpl. unfold after. lia.
  - apply bool_decide_eq_false in Heqb. do 2 from_step. split; [done|]. intros Ht.
    split; [done|]. split; [done|]. intros resp [= <-]. simpl.
    eexists. split; [by simplify_map_eq|]. split; [done|].
    split; [exists token, h; rewrite Hch; auto|done].
Qed.

Lemma status_drop_rel t id s w : table_rel t (s, w) → table_rel t (status_drop id s, w).
Proof.
  intros Hr. unfold status_drop. cbn zeta.
  pose proof (global_polls_rel t (sem_release (ps_polls s)) s w Hr) as Hg.
  change (ps_entries (set_global_polls (sem_release (ps_polls s)) s)) with (ps_entries s).
  destruct (ps_entries s !! id) as [p|] eqn:Hp; [|done].
  eapply table_rel_trans; [exact Hg|].
  apply (table_rel_insert id p _ (set_global_polls (sem_release (ps_polls s)) s) w w);
    [apply Hg|done|].
  apply polls_rel, (ti_entry _ _ (tr_inv _ _ Hg)), Hp.
Qed.

(** What a consumed ticket did: it was the current one and in time, and it is
    spent. *)
Record consumed (pairing_id ticket : string) (p : Pairing) w (p' : Pairing) w'
    (r : Registration) : Prop := {
  cs_state : p_state p = Approved ∧ p_state p' = Registering;
  cs_ticket : ∃ supplied current, decode 32 ticket = Some supplied
    ∧ p_ticket p = Some current ∧ matches current.(t_hash) supplied = true
    ∧ world_time w <= world_time w' ∧ world_time w < current.(t_until);
  cs_spent : p_ticket p' = None ∧ p_registration p' = Some r;
  cs_registration : r.(rg_pairing_id) = pairing_id ∧ p_label p = Some r.(rg_device_label)
    ∧ r.(rg_add_to_device) = p_add_to_device p ∧ r.(rg_started_at) = world_time w'
    ∧ r.(rg_deadline) = Z.min (after r.(rg_started_at) TICKET_TTL) (p_until p);
}.

Lemma consume_spec t pairing_id ticket s w : table_rel t (s, w) →
  wp (consume_ticket pairing_id ticket) (λ r t', r ≠ Panic ∧ table_rel t t' ∧
    ∀ reg, r = Ok reg → ∃ p p', ps_entries s !! pairing_id = Some p
      ∧ ps_entries t'.1 !! pairing_id = Some p' ∧ consumed pairing_id ticket p w p' t'.2 reg)
    (s, w).
Proof.
  intros Hr. unfold consume_ticket. do 2 from_step; [|done].
  eapply from_on_entry; [done|done|]. intros p Hp Hrel.
  do 5 from_step. from_step; [|by split]. cbn zeta. do 2 from_step; cycle 1.
  { do 3 from_step; [by split|done]. }
  do 3 from_step. do 2 from_step; [by split|]. do 2 from_step.
  do 2 from_step; [|by split]. do 5 from_step.
  repeat (apply orb_false_iff in Heqb0 as [Heqb0 ?]).
  match goal with Hs : negb _ = false, Hl : (_ <=? _) = false |- _ =>
    apply negb_false_iff, bool_decide_eq_true in Hs; apply Z.leb_gt in Hl end.
  assert (live (expire (world_time w0) p) = true) as [Heq _]%expire_live
    by (apply live_states; auto).
  rewrite Heq in *. split.
  { eapply rel_step; [exact Hrel|]. intros. apply consume_rel; [done|done|simpl; lia]. }
  intros Ht. split; [done|]. split; [done|]. intros reg [= <-].
  exists p. eexists. split; [done|]. split; [simpl; by simplify_map_eq|].
  constructor.
  - split; [done|apply transition_state].
  - do 2 eexists. split; [done|]. split; [done|]. split; [done|]. simpl. lia.
  - unfold transition. by repeat case_bool_decide.
  - repeat split; done.
Qed.

Lemma retry_spec t registration s w : table_rel t (s, w) →
  wp (retry_registration registration) (λ r t', r ≠ Panic ∧ table_rel t t') (s, w).
Proof.
  intros Hr. unfold retry_registration. eapply from_on_entry; [done|done|].
  intros p Hp Hrel. do 4 from_step. from_step; [|by split]. from_step. split; [|by split].
  apply andb_true_iff in Heqb as [Hs _]. apply bool_decide_eq_true in Hs.
  eapply rel_step; [exact Hrel|]. intros. by apply retry_rel.
Qed.

(** The registration the table holds is the one of the argument, in time. *)
Definition current_registration (registration : Registration) (o : option Pairing) : Prop :=
  ∃ p current, o = Some p ∧ p_state p = Registering ∧ p_registration p = Some current
    ∧ rg_started_at current = rg_started_at registration
    ∧ rg_deadline current = rg_deadline registration
    ∧ rg_device_label current = rg_device_label registration
    ∧ rg_add_to_device current = rg_add_to_device registration.

Lemma finish_check_spec t registration s w : table_rel t (s, w) →
  wp (finish_check registration) (λ r t', r ≠ Panic ∧ table_rel t t' ∧
    (∀ e, r = Err e → e = INVALID) ∧
    (r = Ok tt → ∃ p, ps_entries s !! rg_pairing_id registration = Some p
      ∧ t'.1 = s ∧ current_registration registration (Some p)
      ∧ world_time t'.2 < rg_deadline registration)) (s, w).
Proof.
  intros Hr. unfold finish_check. eapply from_on_entry; [done|by intros _; split_and!; naive_solver|].
  intros p Hp Hrel. do 5 from_step. from_step; [|split; [done|]; intros; split_and!; naive_solver].
  from_step; [split; [done|]; intros; split_and!; naive_solver|].
  split; [done|]. intros Ht. split; [done|]. split; [done|]. split; [done|]. intros _.
  repeat (apply orb_false_iff in Heqb as [Heqb ?]).
  repeat match goal with Hs : negb _ = false |- _ =>
    apply negb_false_iff, bool_decide_eq_true in Hs end.
  assert (live (expire (world_time w0) p) = true) as [Heq Hlt]%expire_live
    by (apply live_states; auto).
  rewrite Heq in *. unfold expiry in Hlt. rewrite Heqo in Hlt.
  exists p. split; [done|]. split; [simpl; rewrite insert_id by done; by destruct s|].
  split; [by exists p, r|simpl; lia].
Qed.

Lemma finish_done_spec t registration s w :
  table_rel t (s, w) → current_registration registration (ps_entries s !! rg_pairing_id registration) →
  wp (finish_done registration) (λ r t', r = Ok tt ∧ table_rel t t' ∧
    ∃ p', ps_entries t'.1 !! rg_pairing_id registration = Some p' ∧ p_state p' = Registered)
    (s, w).
Proof.
  intros Hr (p & current & Hp & Hst & _). unfold finish_done.
  eapply from_on_entry; [done|by rewrite Hp|]. intros p0 Hp0 Hrel. simplify_eq.
  from_step. split.
  { eapply rel_step; [exact Hrel|]. intros. by apply registered_rel. }
  intros Ht. split; [done|]. split; [done|].
  exists (transition Registered p). split; [simpl; by simplify_map_eq|apply transition_state].
Qed.

(** *** The commands of the desktop *)

Lemma decide_approve_spec id p w now t0
    (Q : outcome Failure AdminResult → Pairing * W → Prop) :
  entry_rel id t0 (p, w) →
  (∀ r p' w', r ≠ Panic → entry_rel id t0 (p', w') →
     (∀ res, r = Ok res → p_state p' = Approved ∧ p_state p = Pending
        ∧ is_Some (p_claim_hash p) ∧ now < p_until p
        ∧ p_until p' = after now REGISTRATION_WINDOW
        ∧ world_log w' = world_log w ++ [pairing_state id "approved" "approved"]) →
     Q r (p', w')) →
  wp (decide_entry id Approved "approved" now) Q (p, w).
Proof.
  intros Hr HQ. unfold decide_entry.
  assert (entry_rel id t0 (expire now p, w)) as Hr'.
  { eapply rel_step; [exact Hr|]. intros. by apply expire_rel. }
  do 5 from_step. from_step; [by apply HQ|].
  apply orb_false_iff in Heqb as [Hlive Hready]. apply negb_false_iff in Hlive.
  apply orb_false_iff in Hready as [Hpend Hclaim].
  apply negb_false_iff, bool_decide_eq_true in Hpend. apply bool_decide_eq_false in Hclaim.
  destruct (expire_live _ _ Hlive) as [Heq Hnow]. rewrite Heq in *. clear Heq Hlive.
  assert (is_Some (p_claim_hash p)) as Hsome by (by destruct (p_claim_hash p); [eexists|]).
  pose proof (expiry_until _ (inv_wf _ _ _ (rel_inv _ _ _ Hr))) as Hexp. simpl in Hexp.
  change (bool_decide (Approved = Approved)) with true. cbn iota.
  clear Hr. do 2 from_step; [|by apply HQ].
  apply wp_bind, wp_update, wp_bind, wp_update, wp_ret.
  apply HQ; [done| |].
  - eapply rel_step; [exact Hr'|]. intros. apply approve_rel; [done|done|done|].
    unfold told_approval. rewrite Hlog. apply elem_of_app. right. by left.
  - intros res _. split; [apply transition_state|]. split; [done|]. split; [done|].
    split; [lia|]. split; [|exact Hlog]. reflexivity.
Qed.

Lemma decide_reject_spec id reason p w now t0
    (Q : outcome Failure AdminResult → Pairing * W → Prop) :
  entry_rel id t0 (p, w) →
  (∀ r p' w', r ≠ Panic → entry_rel id t0 (p', w') →
     (∀ res, r = Ok res → p_state p' = Rejected ∧ live p = true) → Q r (p', w')) →
  wp (decide_entry id Rejected reason now) Q (p, w).
Proof.
  intros Hr HQ. unfold decide_entry.
  assert (entry_rel id t0 (expire now p, w)) as Hr'.
  { eapply rel_step; [exact Hr|]. intros. by apply expire_rel. }
  do 5 from_step. from_step; [by apply HQ|].
  apply orb_false_iff in Heqb as [Hlive _]. apply negb_false_iff in Hlive.
  destruct (expire_live _ _ Hlive) as [Heq Hnow]. rewrite Heq in *. clear Heq Hr.
  change (bool_decide (Rejected = Approved)) with false. cbn iota.
  assert (entry_rel id t0 (set_notification (Some reason) (transition Rejected p), w)) as Hr2.
  { eapply rel_step; [exact Hr'|]. intros. by apply reject_rel. }
  clear Hr'. apply wp_bind, wp_update, wp_bind, wp_update, wp_bind, wp_attempt.
  from_step. assert (p_state p0 = Rejected ∧ live p = true) as Hend.
  { split; [|done]. destruct Hcase as [[_ [-> | ->]]|(_ & -> & _)]; apply transition_state. }
  destruct Hcase as [[-> _]|[-> _]]; apply wp_ret, HQ; done.
Qed.

(** Eviction and insertion of [create]. *)
Lemma table_inv_delete s w id : table_inv s w → table_inv (set_entries (delete id (ps_entries s)) s) w.
Proof.
  intros [He Hl Hs]. constructor; simpl.
  - intros i p Hi. apply lookup_delete_Some in Hi as [_ Hi]. by apply He.
  - etrans; [|exact Hl]. apply filter_size_delete_le.
  - etrans; [|exact Hs]. apply map_size_delete_le.
Qed.

Lemma table_inv_insert s w id p : table_inv s w → entry_inv id p w →
  (live_count s < MAX_LIVE)%nat → (size (ps_entries s) < MAX_RECORDS)%nat →
  table_inv (set_entries (<[id := p]> (ps_entries s)) s) w.
Proof.
  intros [He Hl Hs] Hp Hlive Hsize. constructor; simpl.
  - intros i q Hi. apply lookup_insert_Some in Hi as [[<- <-]|[_ Hi]]; [done|by apply He].
  - etrans; [apply filter_size_insert_le|]. unfold live_count in Hlive. lia.
  - etrans; [apply map_size_insert_le|]. lia.
Qed.

Lemma min_by_key_elem {A} (f : A → Z) l x : min_by_key f l = Some x → x ∈ l.
Proof.
  destruct l as [|y l]; [done|]. simpl. intros [= <-].
  assert (∀ b, foldl (λ best z, if f z <? f best then z else best) b l ∈ b :: l) as H3; [|apply H3].
  induction l as [|z l IH]; intros b; simpl; [left|].
  specialize (IH (if f z <? f b then z else b)). destruct (f z <? f b); set_solver.
Qed.

(** The entry [create] writes. *)
Definition fresh add_to_device secret until : Pairing :=
  mkPairing add_to_device (Some secret) (hash secret) None None 0 Pending until 0 (sem_new 1)
    None None None.

Lemma fresh_inv id add secret until w : entry_inv id (fresh add secret until) w.
Proof.
  constructor; [|by intros []|done].
  constructor; simpl; try done; try naive_solver; unfold u8_max; lia.
Qed.

(** A created pairing is announced with its secret; the one it evicts was
    over and had told so. *)
Record created path add_to_device s w s' w' : Prop := {
  cr_path : path = "tailscale";
  cr_room : (live_count s < MAX_LIVE)%nat;
  cr_entry : ∃ id secret until l, until = world_time w' + TTL
    ∧ ps_entries s' !! id = Some (fresh add_to_device secret until)
    ∧ world_log w' = world_log w ++ l ++ [pairing_created id
        (ps_origin s +:+ "/pair#p=" +:+ id +:+ "." +:+ encode secret) until]
    ∧ len secret = 32
    ∧ ∀ i p, ps_entries s !! i = Some p → i ≠ id →
        ps_entries s' !! i = Some p ∨ live p = false ∧ p_notification p = None;
}.

Lemma evict_spec t s w (Q : outcome Failure unit → Pairings * W → Prop) :
  table_rel t (s, w) →
  (∀ r s' w', r ≠ Panic → table_rel t (s', w') → world_log w' = world_log w →
     (r = Ok tt → (size (ps_entries s') < MAX_RECORDS)%nat ∧ (live_count s' ≤ live_count s)%nat
        ∧ ps_origin s' = ps_origin s
        ∧ ∀ i p, ps_entries s !! i = Some p →
            ps_entries s' !! i = Some p ∨ live p = false ∧ p_notification p = None) →
     Q r (s', w')) →
  wp (if bool_decide (MAX_RECORDS ≤ size s.(ps_entries))%nat then
     let! entries := iterate s.(ps_entries) in
     let! oldest := ok_or BUSY (min_by_key (λ e, p_until e.2)
       (filter (λ e, live e.2 = false ∧ p_notification e.2 = None) entries)) in
     update (λ s, set_entries (delete oldest.1 s.(ps_entries)) s)
   else ret tt) Q (s, w).
Proof.
  intros Hr HQ. case_bool_decide as Hfull; cycle 1.
  { apply wp_ret, HQ; [done|done|done|]. intros _. split; [lia|]. auto. }
  apply wp_bind. eapply from_iterate; [done|]. intros l w' Hr' Hperm Hl Ht.
  apply wp_bind, wp_ok_or. destruct (min_by_key _ _) as [[id p]|] eqn:Hmin; [|by apply HQ].
  apply min_by_key_elem, list_elem_of_filter in Hmin as [[Hdead Hno] Hin].
  rewrite Hperm in Hin. apply elem_of_map_to_list in Hin. simpl in *.
  apply wp_update. simpl. apply HQ; [done| |done|].
  - eapply table_rel_trans; [exact Hr'|]. constructor; simpl; [|reflexivity|lia|done|].
    + apply table_inv_delete, Hr'.
    + intros i. left. destruct (decide (i = id)) as [->|Hne].
      * rewrite lookup_delete_eq. by rewrite Hin.
      * rewrite lookup_delete_ne by done. apply entry_history_refl.
  - intros _. split; [|split; [|split; [done|]]].
    + simpl. rewrite map_size_delete_Some by by eexists.
      pose proof (ti_size _ _ (tr_inv _ _ Hr')) as Hs. simpl in Hs. unfold MAX_RECORDS in *. lia.
    + apply filter_size_delete_le.
    + intros i q Hi. simpl. destruct (decide (i = id)) as [->|Hne]; [simplify_eq; auto|].
      left. by rewrite lookup_delete_ne.
Qed.

Lemma create_spec t path add_to_device s w : table_rel t (s, w) →
  wp (pairing_create path add_to_device) (λ r t', r ≠ Panic ∧ table_rel t t' ∧
    (r = Ok Applied → created path add_to_device s w t'.1 t'.2) ∧
    ∀ res, r = Ok res → res = Applied) (s, w).
Proof.
  intros Hr. unfold pairing_create.
  from_step. from_step; [done|]. from_step. from_step; [done|]. from_step. from_step; [done|].
  apply negb_false_iff, bool_decide_eq_true in Heqb1.
  do 3 from_step. from_step; [done|]. apply bool_decide_eq_false in Heqb2 as Hroom.
  apply wp_bind. eapply evict_spec; [exact Hr|]. intros r s1 w1 Hnp Hr1 Hl1 Hok.
  destruct r as [[]| |]; [|done|done]. destruct (Hok eq_refl) as (Hsize & Hlive & Horig & Hkept).
  apply wp_bind, wp_random; [done|]. intros o1 w2 _ Ht2 Hl2.
  assert (table_rel t (s1, w2)) as Hr2.
  { eapply table_rel_world; [exact Hr1|by apply log_grows_same|lia]. }
  do 2 from_step; [|done].
  apply wp_bind, wp_random; [done|]. intros o2 w3 Hlen Ht3 Hl3.
  assert (table_rel t (s1, w3)) as Hr3.
  { eapply table_rel_world; [exact Hr2|by apply log_grows_same|lia]. }
  do 2 from_step; [|done].
  apply wp_bind, wp_clock_read. intros now w4 Hle <- Hl4.
  assert (table_rel t (s1, w4)) as Hr4.
  { eapply table_rel_world; [exact Hr3|by apply log_grows_same|lia]. }
  do 2 from_step. cbn zeta. from_step. apply wp_try_emit_event. intros [] w5 Ht5 Hl5; cycle 1.
  { rewrite app_nil_r in Hl5. split; [done|]. split; [|done].
    eapply table_rel_world; [exact Hr4|by apply log_grows_same|lia]. }
  from_step. from_step. from_step. subst.
  set (p := mkPairing _ _ _ _ _ _ _ _ _ _ _ _ _).
  change p with (fresh add_to_device s2 (after (world_time w4) TTL)). clear p.
  split; [done|]. split; [|split; [|by intros ? [= <-]]].
  - eapply table_rel_trans; [exact Hr4|]. constructor; simpl; [|by eapply log_grows_app|lia|done|].
    + apply table_inv_insert; [|apply fresh_inv| |done].
      * eapply table_inv_grows; [by eapply log_grows_app|apply Hr4].
      * unfold MAX_LIVE in *. lia.
    + intros i. destruct (decide (i = encode s0)) as [->|Hne].
      * right. do 3 eexists. split; [exact Hl5|]. left.
      * left. rewrite lookup_insert_ne by done. apply entry_history_refl.
  - intros _. constructor; [done|lia|].
    exists (encode s0), s2, (after (world_time w4) TTL), [].
    split; [simpl; unfold after; lia|]. split; [simpl; by simplify_map_eq|].
    split; [simpl; rewrite Hl5, <-Horig; simpl; congruence|]. split; [by apply Hlen|].
    intros i q Hi Hne. simpl. rewrite lookup_insert_ne by done. by apply Hkept.
Qed.

Lemma pairing_command_spec t command s w : table_rel t (s, w) →
  wp (pairings_command command) (λ r t', r ≠ Panic ∧ table_rel t t') (s, w).
Proof.
  intros Hr. unfold pairings_command. apply wp_bind.
  eapply wp_mono; [by apply maintenance_spec|]. intros r [s1 w1] [-> Hr1].
  destruct command; cbn zeta.
  - eapply wp_mono; [by apply create_spec|]. by intros ? ? (? & ? & _).
  - from_step. from_step; [done|]. eapply from_on_entry; [done|done|]. intros p Hp Hrel.
    do 2 from_step. eapply decide_approve_spec; [exact Hrel|]. intros; split; [done|by split].
  - from_step. from_step; [done|]. eapply from_on_entry; [done|done|]. intros p Hp Hrel.
    do 2 from_step. eapply decide_reject_spec; [exact Hrel|]. intros; split; [done|by split].
  - from_step. from_step; [done|]. eapply from_on_entry; [done|done|]. intros p Hp Hrel.
    do 2 from_step. eapply decide_reject_spec; [exact Hrel|]. intros; split; [done|by split].
Qed.
End Table.
