(* ===== verification/PairingSpec.v ===== *)
(** * The short authentication string, the contract of pairing, and a computed run

    [derive_sas] is a double loop with an early exit; the reference is the first
    six usable bytes of the stream of digests, each taken modulo ten. *)
From stdpp Require Import base list strings gmap relations.
From Stdlib Require Import ZArith Lia.
From S2P Require Import Prelude Rust Externals Crates Clock Devices Admin Events World Pairing.
From S2P Require Import PairingFacts.
Local Open Scope Z_scope.

(** The usable bytes of a digest, as decimal digits. *)
Definition usable (digest : list Z) : list Z :=
  (λ b, 48 + b mod 10) <$> filter (λ b, b < 250) digest.

Lemma usable_cons b l :
  usable (b :: l) = (if b <? 250 then [48 + b mod 10] else []) ++ usable l.
Proof.
  unfold usable. rewrite filter_cons. case_decide as Hb.
  - by rewrite (proj2 (Z.ltb_lt _ _) Hb).
  - by rewrite (proj2 (Z.ltb_nlt _ _) Hb).
Qed.

(** Six digits are taken; fewer wait for the next digest. *)
Definition first_six {A} (a : A) (digits : list Z) : (A * list Z) + list Z :=
  if bool_decide (6 ≤ length digits)%nat then inr (take 6 digits) else inl (a, digits).

Lemma sas_digits_spec digest result : (length result < 6)%nat →
  sas_digits digest result =
    match first_six () (result ++ usable digest) with
    | inr six => inr six
    | inl (_, fewer) => inl fewer
    end.
Proof.
  revert result. induction digest as [|b digest IH]; intros result Hlen; simpl.
  { unfold usable. simpl. rewrite app_nil_r. unfold first_six. by rewrite bool_decide_false by lia. }
  rewrite usable_cons. destruct (b <? 250); [|by apply IH].
  rewrite app_assoc. case_bool_decide as Hfull.
  - unfold first_six. rewrite bool_decide_true by (rewrite length_app; lia).
    rewrite take_app_le by lia. by rewrite take_ge by lia.
  - apply IH. rewrite length_app in *. simpl in *. lia.
Qed.

(** The loop with a unary counter. *)
Fixpoint iter_nat {A B} (n : nat) (f : A → A + B) (a : A) : A + B :=
  match n with
  | O => inl a
  | S n => match f a with inl a => iter_nat n f a | inr b => inr b end
  end.

Lemma iter_nat_add {A B} n m (f : A → A + B) a :
  iter_nat (n + m) f a =
    match iter_nat n f a with inl a => iter_nat m f a | inr b => inr b end.
Proof. revert a. induction n as [|n IH]; intros a; simpl; [done|]. by destruct (f a). Qed.

Lemma iter_until_nat {A B} p (f : A → A + B) a : iter_until p f a = iter_nat (Pos.to_nat p) f a.
Proof.
  revert a. induction p as [p IH|p IH|]; intros a; cbn [iter_until].
  - rewrite Pos2Nat.inj_xI. cbn [iter_nat]. destruct (f a) as [b|]; [|done].
    rewrite IH. replace (2 * Pos.to_nat p)%nat with (Pos.to_nat p + Pos.to_nat p)%nat by lia.
    rewrite iter_nat_add. destruct (iter_nat _ f b); [by rewrite IH|done].
  - rewrite Pos2Nat.inj_xO, IH.
    replace (2 * Pos.to_nat p)%nat with (Pos.to_nat p + Pos.to_nat p)%nat by lia.
    rewrite iter_nat_add. destruct (iter_nat _ f a); [by rewrite IH|done].
  - simpl. by destruct (f a).
Qed.

Section Sas.
Context `{Crypto} (secret device_nonce gateway_nonce : string).

(** The digits of the first [n] digests from counter [c] on. *)
Fixpoint sas_stream (c : Z) (n : nat) : list Z :=
  match n with
  | O => []
  | S n => usable (sas_digest secret device_nonce gateway_nonce c) ++ sas_stream (c + 1) n
  end.

Lemma sas_rounds n c result : (length result < 6)%nat →
  iter_nat n (sas_round secret device_nonce gateway_nonce) (c, result)
  = first_six (c + Z.of_nat n) (result ++ sas_stream c n).
Proof.
  revert c result. induction n as [|n IH]; intros c result Hlen.
  { simpl. rewrite app_nil_r. unfold first_six. rewrite bool_decide_false by lia.
    do 2 f_equal. lia. }
  cbn [iter_nat sas_stream]. unfold sas_round at 1. rewrite sas_digits_spec by done.
  rewrite app_assoc. set (u := result ++ usable _). unfold first_six at 1.
  case_bool_decide as Hfull.
  - unfold first_six. rewrite bool_decide_true by (rewrite length_app; lia).
    by rewrite take_app_le.
  - rewrite IH by lia. unfold first_six. by replace (c + 1 + Z.of_nat n) with (c + Z.of_nat (S n)) by lia.
Qed.

Lemma sas_stream_add c n m : sas_stream c (n + m) = sas_stream c n ++ sas_stream (c + Z.of_nat n) m.
Proof.
  revert c. induction n as [|n IH]; intros c; cbn [sas_stream Nat.add app].
  - f_equal. lia.
  - rewrite IH, <-app_assoc. do 3 f_equal. lia.
Qed.

Lemma derive_sas_stream text :
  derive_sas secret device_nonce gateway_nonce = Some text ↔
  ∃ n, Z.of_nat n <= 2 ^ 32 ∧ (6 ≤ length (sas_stream 0 n))%nat
       ∧ text = of_bytes (take 6 (sas_stream 0 n)).
Proof.
  unfold derive_sas. rewrite iter_until_nat.
  set (total := Pos.to_nat 4294967296).
  assert (Z.of_nat total = 2 ^ 32) as Htotal by (unfold total; by rewrite positive_nat_Z).
  clearbody total. rewrite sas_rounds by (simpl; lia). rewrite app_nil_l.
  unfold first_six. split.
  - case_bool_decide as Hfull; [|done]. intros [= <-]. exists total. auto with lia.
  - intros (n & Hn & Hlen & ->).
    replace total with (n + (total - n))%nat by lia. rewrite sas_stream_add.
    rewrite bool_decide_true by (rewrite length_app; lia). by rewrite take_app_le.
Qed.

(** One digest with six usable bytes is enough. *)
Lemma derive_sas_total : (6 ≤ length (sas_stream 0 1))%nat →
  derive_sas secret device_nonce gateway_nonce ≠ None.
Proof.
  intros Hlen. rewrite (proj2 (derive_sas_stream (of_bytes (take 6 (sas_stream 0 1))))); [done|].
  by exists 1%nat.
Qed.
(** [derive_sas] is the first six usable bytes (those below 250) of the
    stream of digests, modulo ten, over at most 2^32 counters; it fails only when
    2^32 digests hold fewer than six; a digit never depends on how the digests
    were split. *)
Theorem derive_sas_reference text :
  derive_sas secret device_nonce gateway_nonce = Some text ↔
  ∃ n, Z.of_nat n <= 2 ^ 32 ∧ (6 ≤ length (sas_stream 0 n))%nat
       ∧ text = of_bytes (take 6 (sas_stream 0 n)).
Proof. apply derive_sas_stream. Qed.
End Sas.

(** No digit of the authentication string is more likely than another: of
    the 256 values of a byte, 25 give each digit and six are skipped. *)
Theorem sas_unbiased :
  Forall (λ d, length (filter (λ b, sas_digits [b] [] = inl [48 + d]) (seqZ 0 256)) = 25%nat)
    (seqZ 0 10)
  ∧ length (filter (λ b, sas_digits [b] [] = inl []) (seqZ 0 256)) = 6%nat.
Proof. split; [repeat constructor|]; vm_compute; done. Qed.

(** * The contract of pairing, over every interleaving

    [pairing_step] is one call of a method of [Pairings] (or a change of the
    world between two calls); the theorems quantify over its closure. *)
Section Spec.
Context `{Base64, !Base64Laws _, Crypto, !CryptoLaws _, Tokio, World W, !WorldLaws W}.
Implicit Types (p : Pairing) (w : W) (id : string) (s : Pairings) (t : Pairings * W).

(** What [finish]'s [commit] may do with the pairings: nothing. *)
Definition keeps_table {T} (commit : M (Pairings * W) Failure T) : Prop :=
  ∀ t, (commit t).2.1 = t.1 ∧ log_grows t.2 (commit t).2.2
       ∧ world_time t.2 <= world_time (commit t).2.2.

Inductive pairing_step : Pairings * W → Pairings * W → Prop :=
| step_command c t : pairing_step t (pairings_command c t).2
| step_maintenance t : pairing_step t (pairings_maintenance t).2
| step_claim request user_agent t : pairing_step t (pairings_claim request user_agent t).2
| step_status_begin request t : pairing_step t (status_begin request t).2
| step_status_finish request t : pairing_step t (status_finish request t).2
| step_status_drop id s w : pairing_step (s, w) (status_drop id s, w)
| step_consume id ticket t : pairing_step t (consume_ticket id ticket t).2
| step_retry registration t : pairing_step t (retry_registration registration t).2
| step_finish {T} registration (commit : M (Pairings * W) Failure T) t :
    keeps_table commit → pairing_step t (finish (λ _ m, m) registration commit t).2
| step_world s w w' : log_grows w w' → world_time w <= world_time w' →
    pairing_step (s, w) (s, w').

Definition reachable t : Prop :=
  ∃ host login w, rtc pairing_step (pairings_new host login, w) t.

(** ** [finish] *)

(** The commit runs exactly when the registration is the current one. *)
Lemma finish_spec {T} t registration (commit : M (Pairings * W) Failure T) s w :
  table_rel t (s, w) → keeps_table commit →
  wp (finish (λ _ m, m) registration commit) (λ r t',
    table_rel t t' ∧
    (∀ x, r = Ok x → ∃ w1 p', current_registration registration
          (ps_entries s !! rg_pairing_id registration)
        ∧ world_time w1 < rg_deadline registration
        ∧ (commit (s, w1)).1 = Ok x
        ∧ ps_entries t'.1 !! rg_pairing_id registration = Some p' ∧ p_state p' = Registered))
    (s, w).
Proof.
  intros Hr Hc. unfold finish. apply wp_bind.
  eapply wp_mono; [by apply finish_check_spec|]. intros r [s1 w1] (_ & Hr1 & _ & Hok).
  destruct r as [[]| |]; [|by split|by split].
  destruct (Hok eq_refl) as (p & Hp & [= ->] & Hcur & Htime). simpl in Htime.
  apply wp_bind. apply run_wp. intros r [s2 w2] Hrun.
  pose proof (Hc (s, w1)) as (Hs2 & Hl2 & Ht2). rewrite Hrun in Hs2, Hl2, Ht2. simpl in *. subst s2.
  assert (table_rel t (s, w2)) as Hr2 by by eapply table_rel_world.
  destruct r as [x| |]; [|by split|by split].
  apply wp_bind. eapply wp_mono; [apply finish_done_spec; [exact Hr2|by rewrite Hp]|].
  intros r [s3 w3] (-> & Hr3 & p' & Hp' & Hst). apply wp_ret. split; [done|].
  intros y [= <-]. exists w1, p'. rewrite Hp, Hrun. auto.
Qed.

Lemma step_table_rel t t' : table_inv t.1 t.2 → pairing_step t t' → table_rel t t'.
Proof.
  intros Hi Hstep. destruct t as [s w]. assert (table_rel (s, w) (s, w)) as Hr
    by by apply table_rel_refl.
  inversion Hstep; subst; try match goal with
    | |- table_rel ?t (?m ?t).2 => change (wp m (λ _ t', table_rel t t') t) end.
  - eapply wp_mono; [by apply pairing_command_spec|naive_solver].
  - eapply wp_mono; [by apply maintenance_spec|naive_solver].
  - eapply wp_mono; [by apply claim_spec|naive_solver].
  - eapply wp_mono; [by apply status_begin_spec|naive_solver].
  - eapply wp_mono; [by apply status_finish_spec|naive_solver].
  - by apply status_drop_rel.
  - eapply wp_mono; [by apply consume_spec|naive_solver].
  - eapply wp_mono; [by apply retry_spec|naive_solver].
  - eapply wp_mono; [by apply finish_spec|naive_solver].
  - by eapply table_rel_world.
Qed.

Lemma new_inv host login w : table_inv (pairings_new host login) w.
Proof.
  constructor; simpl; [by intros ??; rewrite lookup_empty|..]; unfold live_count; simpl;
    rewrite ?map_filter_empty, map_size_empty; lia.
Qed.

Lemma steps_table_rel t t' : table_inv t.1 t.2 → rtc pairing_step t t' → table_rel t t'.
Proof.
  intros Hi Hs. induction Hs as [[s w]|t1 t2 t3 H12 _ IH]; [by apply table_rel_refl|].
  apply step_table_rel in H12; [|done]. eapply table_rel_trans; [done|]. apply IH, H12.
Qed.

Lemma reachable_inv t : reachable t → table_inv t.1 t.2.
Proof. intros (h & l & w & Hs). eapply (steps_table_rel (_, w)), Hs. apply new_inv. Qed.

(** ** Properties *)

(** C14. Whatever is called, in any order and interleaving: at most four
    pairings are live and sixteen kept; a pairing that is past its approval was
    claimed, and the desktop was told of the claim (with the authentication
    string) and of the approval before; a ticket exists only while approved and
    a registration only while registering, neither outliving the pairing; the
    secret is forgotten once the pairing is claimed or over; a live pairing has
    fewer than five failures. *)
Theorem pairing_invariant t : reachable t →
  (live_count t.1 ≤ 4)%nat ∧ (size (ps_entries t.1) ≤ 16)%nat ∧
  ∀ id p, ps_entries t.1 !! id = Some p →
    (decided (p_state p) = true →
       is_Some (p_claim_hash p)
       ∧ (∃ label sas login agent, pairing_claimed id label sas login agent ∈ world_log t.2)
       ∧ pairing_state id "approved" "approved" ∈ world_log t.2)
    ∧ (∀ tk, p_ticket p = Some tk → p_state p = Approved ∧ t_until tk <= p_until p)
    ∧ (∀ r, p_registration p = Some r → p_state p = Registering ∧ rg_deadline r <= p_until p)
    ∧ (is_Some (p_secret p) ↔ p_state p = Pending ∧ p_claim_hash p = None)
    ∧ (live p = true → p_failures p < 5).
Proof.
  intros Hr. apply reachable_inv in Hr as [He Hl Hs]. split; [done|]. split; [done|].
  intros id p Hp. destruct (He id p Hp) as [[] Hc Ha]. split_and!; try done; try naive_solver.
Qed.

(** The life of a pairing only goes forward: as long as its id is not
    announced again as a new pairing, an entry that is over stays as it ended,
    a claim is never replaced or withdrawn, the secret's digest and the device it
    adds to never change, failures never go down and nothing becomes pending
    again. *)
Theorem pairing_history t t' id p :
  reachable t → rtc pairing_step t t' → ps_entries t.1 !! id = Some p →
  ¬ recreated id t.2 t'.2 →
  ∀ p', ps_entries t'.1 !! id = Some p' →
    (live p = false → p_state p' = p_state p)
    ∧ (∀ h, p_claim_hash p = Some h → p_claim_hash p' = Some h)
    ∧ p_secret_hash p' = p_secret_hash p ∧ p_add_to_device p' = p_add_to_device p
    ∧ p_failures p <= p_failures p' ∧ (p_state p' = Pending → p_state p = Pending).
Proof.
  intros Hr Hs Hp Hno p' Hp'. apply reachable_inv in Hr.
  apply steps_table_rel in Hs as [_ _ _ _ He]; [|done].
  destruct (He id) as [Hh|]; [|done]. rewrite Hp, Hp' in Hh. by destruct Hh.
Qed.

(** C39. A claim is answered only for a pending, unclaimed pairing in time, to
    a caller whose secret has the stored digest; the authentication string is
    derived from the secret the desktop showed, the device's nonce and the
    gateway's; it is announced to the desktop before the claim is recorded, and
    the recorded digest is the one of the token the answer carries. *)
Theorem claim_ok t request user_agent resp t' :
  reachable t → pairings_claim request user_agent t = (Ok resp, t') →
  ∃ p p' supplied secret nonce gateway token,
    ps_entries t.1 !! request.(cl_pairing_id) = Some p
    ∧ ps_entries t'.1 !! request.(cl_pairing_id) = Some p'
    ∧ p_state p = Pending ∧ p_claim_hash p = None ∧ world_time t'.2 < p_until p
    ∧ decode 32 request.(cl_secret) = Some supplied ∧ p_secret p = Some secret
    ∧ hash supplied = hash secret
    ∧ decode 32 request.(cl_device_nonce) = Some nonce
    ∧ decode 32 resp.(gateway_nonce) = Some gateway
    ∧ derive_sas secret nonce gateway = Some resp.(sas)
    ∧ decode 32 resp.(claim_token) = Some token
    ∧ p_claim_hash p' = Some (hash token) ∧ p_label p' = Some request.(cl_device_label)
    ∧ p_secret p' = None ∧ p_state p' = Pending
    ∧ last (world_log t'.2) = Some (pairing_claimed request.(cl_pairing_id)
        request.(cl_device_label) resp.(sas) (ps_login t.1) user_agent).
Proof.
  intros Hr%reachable_inv Hrun. destruct t as [s w].
  pose proof (wp_run _ _ _ _ _ (claim_spec (s, w) request user_agent s w
    (table_rel_refl _ _ Hr)) Hrun) as (_ & _ & Hok).
  destruct (Hok resp eq_refl) as (p & p' & Hp & Hp' & Hc).
  destruct Hc as [[Hs1 Hs2] _ (su & se & n & g & Hd1 & Hm & Hse & Hd2 & Hd3 & Hsas)
    (tk & Hd4 & Hc4) (Hp1 & Hp2 & Hp3 & _) Htime (l & Hl)].
  apply matches_iff in Hm.
  rewrite (wf_secret_hash _ (inv_wf _ _ _ (ti_entry _ _ Hr _ _ Hp)) _ Hse) in Hm.
  exists p, p', su, se, n, g, tk. split_and!; try done.
  by rewrite Hl, app_assoc, last_snoc.
Qed.

(** A pairing is claimed once: after a claim was answered, no later claim
    of that id is, whatever happens in between, unless the desktop creates a
    pairing of that very id again. *)
Theorem claimed_once t request user_agent resp t1 t2 request' user_agent' resp' :
  reachable t → pairings_claim request user_agent t = (Ok resp, t1) →
  rtc pairing_step t1 t2 → ¬ recreated request.(cl_pairing_id) t1.2 t2.2 →
  request'.(cl_pairing_id) = request.(cl_pairing_id) →
  (pairings_claim request' user_agent' t2).1 ≠ Ok resp'.
Proof.
  intros Hr%reachable_inv Hrun Hs Hno Hid Hok2. destruct t as [s w], t2 as [s2 w2].
  pose proof (wp_run _ _ _ _ _ (claim_spec (s, w) request user_agent s w
    (table_rel_refl _ _ Hr)) Hrun) as (_ & Hr1 & Hok).
  destruct (Hok resp eq_refl) as (p & p' & Hp & Hp' & Hc).
  destruct (cd_token _ _ _ _ _ _ _ _ Hc) as (tk & _ & Htk).
  pose proof (steps_table_rel _ _ (tr_inv _ _ Hr1) Hs) as Hr2'.
  pose proof (claim_spec (s2, w2) request' user_agent' s2 w2
    (table_rel_refl _ _ (tr_inv _ _ Hr2'))) as (_ & _ & Hok').
  destruct (Hok' resp' Hok2) as (q & q' & Hq & _ & Hc'). rewrite Hid in Hq.
  destruct (tr_entry _ _ Hr2' (cl_pairing_id request)) as [He|]; [|done]. simpl in He.
  rewrite Hp', Hq in He. apply ev_claim with (h := hash tk) in He; [|done].
  destruct (cd_pending _ _ _ _ _ _ _ _ Hc'). congruence.
Qed.

(** Guessing is bounded: a well-formed claim of a pairing that is claimed
    already, or with a secret of another digest, is refused and either ends the
    pairing or costs one of its five failures; a claim of a claimed pairing ends
    it at once. *)
Theorem wrong_claims_bounded t request user_agent p :
  reachable t → well_formed_claim request user_agent →
  ps_entries t.1 !! request.(cl_pairing_id) = Some p → wrong_claim request p →
  ∃ e p', (pairings_claim request user_agent t).1 = Err e
    ∧ ps_entries (pairings_claim request user_agent t).2.1 !! request.(cl_pairing_id) = Some p'
    ∧ (live p' = false
       ∨ p_claim_hash p = None ∧ p_failures p' = p_failures p + 1 ∧ p_failures p' < 5).
Proof.
  intros Hr%reachable_inv Hwf Hp Hw. destruct t as [s w].
  pose proof (table_rel_refl _ _ Hr) as Hrefl.
  pose proof (wrong_claim_spec (s, w) _ _ _ _ _ Hrefl Hwf Hp Hw) as (e & p' & He & Hp' & Hc).
  pose proof (claim_spec (s, w) request user_agent s w Hrefl) as (_ & Hr' & _).
  exists e, p'. split; [done|]. split; [done|].
  destruct (live p') eqn:Hl; [|by left]. destruct Hc as [|[Hn Hf]]; [done|]. right.
  split; [done|]. split; [done|].
  by apply (wf_attempts _ (inv_wf _ _ _ (ti_entry _ _ (tr_inv _ _ Hr') _ _ Hp'))).
Qed.

(** A registration ticket works once, in time, and only for an approved
    pairing: consuming it spends it, so consuming it again is refused in
    whatever world the second request runs. *)
Theorem ticket_single_use t id ticket registration t' :
  reachable t → consume_ticket id ticket t = (Ok registration, t') →
  (∃ p tk supplied, ps_entries t.1 !! id = Some p ∧ p_state p = Approved
     ∧ p_ticket p = Some tk ∧ decode 32 ticket = Some supplied ∧ t_hash tk = hash supplied
     ∧ world_time t.2 < t_until tk ∧ p_label p = Some (rg_device_label registration)
     ∧ rg_add_to_device registration = p_add_to_device p
     ∧ rg_deadline registration <= p_until p)
  ∧ (∀ w ticket', log_grows t'.2 w → world_time t'.2 <= world_time w →
       (consume_ticket id ticket' (t'.1, w)).1 = Err INVALID).
Proof.
  intros Hr%reachable_inv Hrun. destruct t as [s w0].
  pose proof (wp_run _ _ _ _ _ (consume_spec (s, w0) id ticket s w0
    (table_rel_refl _ _ Hr)) Hrun) as (_ & Hr' & Hok).
  destruct (Hok registration eq_refl) as (p & p' & Hp & Hp' & [[Hs1 Hs2]
    (su & cur & Hd & Ht & Hm & _ & Htime) [Hspent Hreg] (Hr1 & Hr2 & Hr3 & Hr4 & Hr5)]).
  apply matches_iff in Hm. split.
  { exists p, cur, su. rewrite Hr5. split_and!; try done. lia. }
  intros w ticket' Hg Hle. destruct t' as [s' w']. simpl in *.
  change (wp (consume_ticket id ticket') (λ r _, r = Err INVALID) (s', w)).
  unfold consume_ticket. apply wp_bind, wp_ok_or. destruct (decode 32 ticket') as [b|]; [|done].
  eapply (from_on_entry (s', w)); [|done|].
  { apply table_rel_refl. by eapply table_inv_grows; [|apply Hr']. }
  intros q Hq Hrel. rewrite Hp' in Hq. injection Hq as <-. do 4 from_step.
  assert (p_ticket (expire (world_time w1) p') = None) as ->.
  { destruct (expire_cases (world_time w1) p') as [[-> _]|(_ & _ & ->)]; [done|].
    unfold transition. by repeat case_bool_decide. }
  apply wp_bind, wp_ok_or. by split.
Qed.

(** A registration is committed once: [finish] runs the commit only when
    the registration is the pairing's current one and before its deadline; when
    it returns, the pairing is registered, and [finish] with any registration of
    that pairing then fails before its commit. *)
Theorem finish_commits_once {T} t registration (commit : M (Pairings * W) Failure T) x t' :
  reachable t → keeps_table commit →
  finish (λ _ m, m) registration commit t = (Ok x, t') →
  (∃ w, current_registration registration (ps_entries t.1 !! rg_pairing_id registration)
     ∧ world_time w < rg_deadline registration ∧ (commit (t.1, w)).1 = Ok x)
  ∧ (∃ p', ps_entries t'.1 !! rg_pairing_id registration = Some p' ∧ p_state p' = Registered)
  ∧ ∀ w registration' (commit' : M (Pairings * W) Failure T),
      rg_pairing_id registration' = rg_pairing_id registration →
      log_grows t'.2 w → world_time t'.2 <= world_time w →
      finish (λ _ m, m) registration' commit' (t'.1, w)
      = (Err INVALID, (finish_check registration' (t'.1, w)).2).
Proof.
  intros Hr%reachable_inv Hc Hrun. destruct t as [s w0].
  pose proof (wp_run _ _ _ _ _ (finish_spec (s, w0) registration commit s w0
    (table_rel_refl _ _ Hr) Hc) Hrun) as (Hr' & Hok).
  destruct (Hok x eq_refl) as (w1 & p' & Hcur & Htime & Hcommit & Hp' & Hst).
  split; [by exists w1|]. split; [by exists p'|].
  intros w registration' commit' Hid Hg Hle. destruct t' as [s' w']. cbn [fst snd] in *.
  assert (table_inv s' w) as Hinv by by eapply table_inv_grows; [|apply Hr'].
  pose proof (finish_check_spec (s', w) registration' s' w (table_rel_refl _ _ Hinv))
    as (Hnp & _ & Herr & Hcheck).
  unfold finish, bind at 1. destruct (finish_check registration' (s', w)) as [r [s2 w2]].
  destruct r as [[]|e|].
  - destruct (Hcheck eq_refl) as (q & Hq & _ & (q' & cur & [= <-] & Hq2 & _) & _).
    rewrite Hid, Hp' in Hq. simplify_eq. by rewrite Hst in Hq2.
  - by rewrite (Herr e eq_refl).
  - by destruct (Hnp eq_refl).
Qed.

(** [status] answers with the state of the pairing, to the holder of the
    claim token only; it hands out a ticket exactly when the pairing is approved,
    and the pairing accepts that ticket until 120 seconds later or its own end. *)
Theorem status_ticket t request resp t' :
  reachable t → status_finish request t = (Ok resp, t') →
  ∃ p token, ps_entries t'.1 !! request.(st_pairing_id) = Some p
    ∧ decode 32 request.(st_claim_token) = Some token ∧ p_claim_hash p = Some (hash token)
    ∧ sr_state resp = p_state p
    ∧ match registration_ticket resp with
      | Some text => p_state p = Approved ∧ ∃ ticket until,
          decode 32 text = Some ticket ∧ p_ticket p = Some (mkTicket (hash ticket) until)
          ∧ until <= p_until p ∧ until <= world_time t'.2 + TICKET_TTL
      | None => p_state p ≠ Approved
      end.
Proof.
  intros Hr%reachable_inv Hrun. destruct t as [s w0].
  pose proof (wp_run _ _ _ _ _ (status_finish_spec (s, w0) request s w0
    (table_rel_refl _ _ Hr)) Hrun) as (_ & _ & Hok).
  destruct (Hok resp eq_refl) as (p & Hp & Hst & (tk & h & Hd & Hh & Hm) & Hticket).
  apply matches_iff in Hm as ->. by exists p, tk.
Qed.

(** No call panics, whatever the table holds, unless the authentication
    string runs out of digests in a claim; a refused [finish] reports [INVALID]. *)
Theorem pairing_never_panics t : reachable t →
  (∀ c, (pairings_command c t).1 ≠ Panic) ∧ (pairings_maintenance t).1 = Ok tt
  ∧ (∀ request agent, (pairings_claim request agent t).1 = Panic →
       ∃ secret nonce gateway, derive_sas secret nonce gateway = None)
  ∧ (∀ request, (status_begin request t).1 ≠ Panic)
  ∧ (∀ request, (status_finish request t).1 ≠ Panic)
  ∧ (∀ id ticket, (consume_ticket id ticket t).1 ≠ Panic)
  ∧ (∀ registration, (retry_registration registration t).1 ≠ Panic
       ∧ (finish_check registration t).1 ≠ Panic).
Proof.
  intros Hr%reachable_inv. destruct t as [s w]. apply table_rel_refl in Hr.
  split_and!; intros.
  - by apply (pairing_command_spec (s, w)).
  - by apply (maintenance_spec (s, w)).
  - by eapply (claim_spec (s, w)).
  - by apply (status_begin_spec (s, w)).
  - by apply (status_finish_spec (s, w)).
  - by apply (consume_spec (s, w)).
  - split; [by apply (retry_spec (s, w))|by apply (finish_check_spec (s, w))].
Qed.
End Spec.

(** * One pairing from the QR code to the device, computed

    A concrete run of every method in the simulated world; the theorems of
    [PairingSpec] are applied along it. *)
Definition demo_world : SimWorld := mkSim 0 1 100 0 [].
Definition demo_id : string := "AQAAAAAAAAAAAAAAAAAAAA".
Definition demo_secret : string := "AgAAAAAAAAAAAAAAAAAAAAAAAAAAAAAAAAAAAAAAAAA".
Definition demo_token : string := "BAAAAAAAAAAAAAAAAAAAAAAAAAAAAAAAAAAAAAAAAAA".
Definition demo_ticket : string := "BQAAAAAAAAAAAAAAAAAAAAAAAAAAAAAAAAAAAAAAAAA".
Definition demo_claim : ClaimRequest :=
  mkClaimRequest demo_id demo_secret "Ann's phone" (encode (zeros 32)).
Definition demo_guess : ClaimRequest :=
  mkClaimRequest demo_id (encode (zeros 32)) "Ann's phone" (encode (zeros 32)).
Definition demo_status : StatusRequest := mkStatusRequest demo_id demo_token.
Definition demo_commit : M (Pairings * SimWorld) Failure unit := ret tt.

Definition demo_new : Pairings * SimWorld := (pairings_new "host.ts.net" "me@example", demo_world).
Definition demo_created := (pairings_command (PairingCreate 1 "tailscale" None) demo_new).2.
Definition demo_claimed := (pairings_claim demo_claim "Mozilla/5.0" demo_created).2.
Definition demo_approved := (pairings_command (PairingApprove 1 demo_id) demo_claimed).2.
Definition demo_polling := (status_begin demo_status demo_approved).2.
Definition demo_ticketed := (status_finish demo_status demo_polling).2.
Definition demo_consumed := (consume_ticket demo_id demo_ticket demo_ticketed).2.
Definition demo_registration : Registration :=
  match (consume_ticket demo_id demo_ticket demo_ticketed).1 with
  | Ok r => r
  | _ => mkRegistration "" "" None 0 0
  end.
Definition demo_registered := (finish (λ _ m, m) demo_registration demo_commit demo_consumed).2.

Lemma demo_keeps : keeps_table demo_commit.
Proof. intros [s w]. split; [done|]. split; [reflexivity|simpl; lia]. Qed.

Lemma demo_reachable_created : reachable demo_created.
Proof. do 3 eexists. apply rtc_once, step_command. Qed.
Lemma demo_reachable_claimed : reachable demo_claimed.
Proof. do 3 eexists. eapply rtc_l; [apply step_command|]. apply rtc_once, step_claim. Qed.
Lemma demo_steps_registered : rtc pairing_step demo_claimed demo_registered.
Proof.
  eapply rtc_l; [apply (step_command (PairingApprove 1 demo_id))|].
  eapply rtc_l; [apply step_status_begin|]. eapply rtc_l; [apply step_status_finish|].
  eapply rtc_l; [apply step_consume|]. apply rtc_once, step_finish, demo_keeps.
Qed.
Lemma demo_steps_polling : rtc pairing_step demo_claimed demo_polling.
Proof.
  eapply rtc_l; [apply (step_command (PairingApprove 1 demo_id))|].
  apply rtc_once, step_status_begin.
Qed.
Lemma reachable_steps `{Base64, Crypto, Tokio, World W} (t t' : Pairings * W) :
  reachable t → rtc pairing_step t t' → reachable t'.
Proof. intros (h & l & w & Hs) Hs'. exists h, l, w. by etrans. Qed.
Lemma demo_reachable_registered : reachable demo_registered.
Proof. eapply reachable_steps; [apply demo_reachable_claimed|apply demo_steps_registered]. Qed.
Lemma demo_reachable_polling : reachable demo_polling.
Proof. eapply reachable_steps; [apply demo_reachable_claimed|apply demo_steps_polling]. Qed.
Lemma demo_reachable_ticketed : reachable demo_ticketed.
Proof.
  eapply reachable_steps; [apply demo_reachable_polling|apply rtc_once, step_status_finish].
Qed.
Lemma demo_reachable_consumed : reachable demo_consumed.
Proof.
  eapply reachable_steps; [apply demo_reachable_ticketed|apply rtc_once, step_consume].
Qed.

(** A call and its result, from the two projections. *)
Lemma run_eq {St E A} (m : M St E A) s r : (m s).1 = r → m s = (r, (m s).2).
Proof. intros <-. by destruct (m s). Qed.

Example demo_flow :
  (sr_state <$> match (status_finish demo_status demo_polling).1 with Ok r => Some r | _ => None end)
    = Some Approved
  ∧ (p_state <$> ps_entries demo_registered.1 !! demo_id) = Some Registered.
Proof. vm_compute. done. Qed.

Lemma pairing_invariant_witness :
  reachable demo_registered ∧ (live_count demo_registered.1 ≤ 4)%nat.
Proof.
  split; [apply demo_reachable_registered|].
  apply (pairing_invariant demo_registered demo_reachable_registered).
Defined.

(** No pairing of that id is created on the way. *)
Lemma not_recreated id (w w' : SimWorld) :
  forallb (λ e, match ev_body e with EvPairingCreated i _ _ => negb (bool_decide (i = id)) | _ => true end)
    (drop (length (sim_log w)) (sim_log w')) = true → ¬ recreated id w w'.
Proof.
  intros Hall (l & url & until & Hl & Hin). change (sim_log w' = sim_log w ++ l) in Hl.
  rewrite Hl, drop_app_length in Hall. rewrite forallb_Forall, Forall_forall in Hall.
  specialize (Hall _ Hin). simpl in Hall. by rewrite bool_decide_true in Hall.
Qed.

Definition demo_entry (t : Pairings * SimWorld) : Pairing :=
  default (fresh None "" 0) (ps_entries t.1 !! demo_id).

Lemma pairing_history_witness :
  ps_entries demo_claimed.1 !! demo_id = Some (demo_entry demo_claimed)
  ∧ ps_entries demo_registered.1 !! demo_id = Some (demo_entry demo_registered)
  ∧ p_secret_hash (demo_entry demo_registered) = p_secret_hash (demo_entry demo_claimed).
Proof.
  split; [vm_compute; reflexivity|]. split; [vm_compute; reflexivity|].
  apply (pairing_history demo_claimed demo_registered demo_id (demo_entry demo_claimed)
    demo_reachable_claimed demo_steps_registered).
  - vm_compute. reflexivity.
  - apply not_recreated. vm_compute. reflexivity.
  - vm_compute. reflexivity.
Defined.

Definition demo_response : ClaimResponse :=
  mkClaimResponse "AwAAAAAAAAAAAAAAAAAAAAAAAAAAAAAAAAAAAAAAAAA" "125575" demo_token.
Lemma demo_claim_runs : pairings_claim demo_claim "Mozilla/5.0" demo_created = (Ok demo_response, demo_claimed).
Proof. apply run_eq. vm_compute. reflexivity. Qed.

Lemma claim_ok_witness :
  pairings_claim demo_claim "Mozilla/5.0" demo_created = (Ok demo_response, demo_claimed)
  ∧ ∃ p', ps_entries demo_claimed.1 !! demo_id = Some p' ∧ p_state p' = Pending.
Proof.
  split; [apply demo_claim_runs|].
  destruct (claim_ok demo_created demo_claim "Mozilla/5.0" demo_response demo_claimed
    demo_reachable_created demo_claim_runs)
    as (p & p' & ? & ? & ? & ? & ? & _ & Hp' & _ & _ & _ & _ & _ & _ & _ & _ & _ & _ & _
        & _ & _ & Hst & _).
  exists p'. split; [exact Hp'|exact Hst].
Defined.

Lemma claimed_once_witness :
  (pairings_claim demo_claim "Mozilla/5.0" demo_registered).1 ≠ Ok demo_response.
Proof.
  apply (claimed_once demo_created demo_claim "Mozilla/5.0" demo_response demo_claimed
    demo_registered demo_claim "Mozilla/5.0" demo_response
    demo_reachable_created demo_claim_runs demo_steps_registered); [|reflexivity].
  apply not_recreated. vm_compute. reflexivity.
Defined.

Lemma wrong_claims_bounded_witness :
  wrong_claim demo_guess (demo_entry demo_created)
  ∧ ∃ e, (pairings_claim demo_guess "Mozilla/5.0" demo_created).1 = Err e.
Proof.
  assert (wrong_claim demo_guess (demo_entry demo_created)) as Hw.
  { right. intros b Hb. vm_compute in Hb. injection Hb as <-. vm_compute. reflexivity. }
  split; [exact Hw|].
  destruct (wrong_claims_bounded demo_created demo_guess "Mozilla/5.0" (demo_entry demo_created)
    demo_reachable_created) as (e & _ & He & _); [|vm_compute; reflexivity|exact Hw|by exists e].
  repeat split; try (eexists; vm_compute; reflexivity); vm_compute; (reflexivity || discriminate).
Defined.

Lemma demo_consume_runs :
  consume_ticket demo_id demo_ticket demo_ticketed = (Ok demo_registration, demo_consumed).
Proof. unfold demo_consumed. apply run_eq. vm_compute. reflexivity. Qed.

Lemma ticket_single_use_witness :
  consume_ticket demo_id demo_ticket demo_ticketed = (Ok demo_registration, demo_consumed)
  ∧ (consume_ticket demo_id demo_ticket demo_consumed).1 = Err INVALID.
Proof.
  split; [apply demo_consume_runs|].
  rewrite (surjective_pairing demo_consumed).
  apply (proj2 (ticket_single_use demo_ticketed demo_id demo_ticket demo_registration
    demo_consumed demo_reachable_ticketed demo_consume_runs)); [reflexivity|apply Z.le_refl].
Defined.

Lemma demo_finish_runs :
  finish (λ _ m, m) demo_registration demo_commit demo_consumed = (Ok tt, demo_registered).
Proof. unfold demo_registered. apply run_eq. vm_compute. reflexivity. Qed.

Lemma finish_commits_once_witness :
  finish (λ _ m, m) demo_registration demo_commit demo_consumed = (Ok tt, demo_registered)
  ∧ ∃ p', ps_entries demo_registered.1 !! demo_id = Some p' ∧ p_state p' = Registered.
Proof.
  split; [apply demo_finish_runs|].
  apply (finish_commits_once demo_consumed demo_registration demo_commit tt demo_registered
    demo_reachable_consumed demo_keeps demo_finish_runs).
Defined.

Definition demo_status_response : StatusResponse := mkStatusResponse Approved (Some demo_ticket).
Lemma demo_status_runs :
  status_finish demo_status demo_polling = (Ok demo_status_response, demo_ticketed).
Proof. unfold demo_ticketed. apply run_eq. vm_compute. reflexivity. Qed.

Lemma status_ticket_witness :
  status_finish demo_status demo_polling = (Ok demo_status_response, demo_ticketed)
  ∧ ∃ p, ps_entries demo_ticketed.1 !! demo_id = Some p ∧ p_state p = Approved.
Proof.
  split; [apply demo_status_runs|].
  destruct (status_ticket demo_polling demo_status demo_status_response demo_ticketed
    demo_reachable_polling demo_status_runs) as (p & token & Hp & _ & _ & _ & Hst & _).
  exists p. split; [exact Hp|exact Hst].
Defined.

Lemma pairing_never_panics_witness :
  (status_finish demo_status demo_polling).1 ≠ Panic
  ∧ (consume_ticket demo_id demo_ticket demo_registered).1 ≠ Panic.
Proof.
  split; [apply (pairing_never_panics demo_polling demo_reachable_polling)|
          apply (pairing_never_panics demo_registered demo_reachable_registered)].
Defined.
