(* ===== verification/Webauthn.v ===== *)
(** * [webauthn.rs]: the relying party and the ceremonies in flight

    The cryptography is [webauthn_rp]'s; what is modelled is the policy put
    around it, what is stored of its results, and the pools of challenges. *)

From stdpp Require Import base gmap strings list.
From Stdlib Require Import ZArith Lia.
From S2P Require Import Prelude Rust Externals Clock Devices Admin Events World Pairing.

Local Open Scope Z_scope.

Definition REJECTED : Failure := (FORBIDDEN, "WebAuthn request rejected").
Definition UNAVAILABLE : Failure := (SERVICE_UNAVAILABLE, "Authentication unavailable").
Definition SCOPE_NOT_GRANTED : Failure := (FORBIDDEN, "Scope not granted").
Definition CHALLENGE_LIMIT : Failure := (TOO_MANY_REQUESTS, "Challenge limit reached").

(** ** The binding policy *)

Definition requires_unbacked (policy : PasskeyBinding) (scope : Scope) : bool :=
  bool_decide (policy = O1) || (bool_decide (policy = O2) && bool_decide (scope = Full)).
Definition backup_requirement (policy : PasskeyBinding) (scope : Scope) : BackupReq :=
  if requires_unbacked policy scope then BackupReqNotEligible else BackupReqNone.
Definition flags (backup : Backup) : bool * bool :=
  match backup with
  | BackupNotEligible => (false, false)
  | BackupEligible => (true, false)
  | BackupExists => (true, true)
  end.
Definition policy_accepts (policy : PasskeyBinding) (scope : Scope) (be bs : bool) : bool :=
  (negb bs || be) && (negb (requires_unbacked policy scope) || negb be).

Inductive AssertionFailure := Invalid | PolicyViolation | Rollback.
#[export] Instance assertion_failure_eq_dec : EqDecision AssertionFailure.
Proof. solve_decision. Defined.

(** [impl From<AuthCeremonyErr> for AssertionFailure] *)
Definition assertion_failure_from (error : AuthCeremonyErr) : AssertionFailure :=
  match error with
  | SignatureCounter => Rollback
  | OriginMismatch | CrossOrigin | TopOriginMismatch | RpIdHashMismatch
  | UserNotVerified | ErrBackupEligible | ErrBackupNotEligible | BackupDoesNotExist
  | ExtensionForbiddenHmacSecret | ExtensionHmacSecretForPrfIncapableCred => PolicyViolation
  | OtherAuthCeremonyErr _ => Invalid
  end.

Record VerifiedRegistration := mkVerifiedRegistration {
  vr_device_id : string; vr_record : CredentialRecord }.
Record VerifiedAssertion := mkVerifiedAssertion { va_sign_count : Z; va_backup_state : bool }.

(** [RpId::Domain(host)] is named by its host. *)
Record RelyingParty := mkRelyingParty { rp_host : string; rp_origin : string }.

Section RelyingParty.
Context `{Base64, Crypto, !Webauthn Transport, World W}.

Inductive AssertionState :=
| AssertLogin (state : LoginState)
| AssertElevation (state : ElevState).

(** [user] *)
Definition user (id : string) : option string :=
  b ← decode 16 id; if user_handle_ok b then Some b else None.

(** [descriptor] *)
Definition descriptor (record : CredentialRecord) : option (Descriptor Transport) :=
  b ← b64url_decode record.(cr_id);
  if credential_id_ok b then Some (mkDescriptor b record.(cr_transports)) else None.

(** [RelyingParty::new] *)
Definition relying_party_new (public_host : string) : option RelyingParty :=
  host ← head (split_on (char_of 58) public_host);
  if negb (valid_rp_id host) then None
  else if negb (ascii_domain_ok host) then None
  else Some (mkRelyingParty host ("https://" +:+ public_host)).

(** [RelyingParty::registration]; [challenge] is [Challenge::new()]. *)
Definition rp_registration (rp : RelyingParty) (device_id label : string)
    (existing : list CredentialRecord) (first : bool) (challenge : string)
    : Failure + (RegState * Value) :=
  match user device_id with
  | None => inl REJECTED
  | Some user_id =>
      if negb (username_ok "yuzora-companion") then inl UNAVAILABLE
      else
        let display_name := match nickname label with
                            | Some name => if bool_decide (name = label) then Some name else None
                            | None => None
                            end in
        match mapM descriptor (filter (λ c, cr_rp_id c = rp_host rp) existing) with
        | None => inl REJECTED
        | Some exclude =>
            let options := mkCreation rp.(rp_host) "yuzora-companion" user_id display_name
                             120000 exclude first in
            match start_registration options challenge with
            | None => inl UNAVAILABLE
            | Some r => inr r
            end
        end
  end.

(** [RelyingParty::login] *)
Definition rp_login (rp : RelyingParty) (challenge : string) : Failure + (LoginState * Value) :=
  match start_login rp.(rp_host) challenge with None => inl UNAVAILABLE | Some r => inr r end.

(** The credentials [elevation] lets answer. *)
Definition elevation_records (rp : RelyingParty) (records : list CredentialRecord)
    (policy : PasskeyBinding) (scope : Scope) : list CredentialRecord :=
  filter (λ c, cr_rp_id c = rp_host rp
    ∧ policy_accepts policy scope (cr_backup_eligible c) (cr_backup_state c) = true) records.

(** [RelyingParty::elevation] *)
Definition rp_elevation (rp : RelyingParty) (records : list CredentialRecord)
    (policy : PasskeyBinding) (scope : Scope) (challenge : string)
    : Failure + (ElevState * Value) :=
  match mapM descriptor (elevation_records rp records policy scope) with
  | None => inl REJECTED
  | Some allowed =>
      if negb (second_factor_ok rp.(rp_host) allowed) then inl REJECTED
      else match start_elevation rp.(rp_host) allowed challenge with
           | None => inl UNAVAILABLE
           | Some r => inr r
           end
  end.

(** [RelyingParty::verify_registration]: every failure is [REJECTED]. *)
Definition verify_registration (rp : RelyingParty) (server : RegState) (credential : Value)
    (policy : PasskeyBinding) : option VerifiedRegistration :=
  registered ← verify_reg server rp.(rp_host) credential
    (mkRegOpts rp.(rp_origin) (backup_requirement policy View));
  let dynamic := rg_dynamic registered in
  let '(be, bs) := flags dynamic.(dyn_backup) in
  if negb dynamic.(dyn_user_verified) || negb (policy_accepts policy View be bs) then None
  else
    state ← rg_static_state registered;
    Some (mkVerifiedRegistration (encode (rg_user_id registered))
      (mkCredential (encode (rg_id registered)) rp.(rp_host) (encode state) STATE_FORMAT
         dynamic.(dyn_sign_count) be bs (rg_transports registered))).

(** [RelyingParty::verify_assertion] *)
Definition verify_assertion (rp : RelyingParty) (server : AssertionState) (response : Value)
    (device_id : string) (record : CredentialRecord) (policy : PasskeyBinding) (scope : Scope)
    : AssertionFailure + VerifiedAssertion :=
  if negb (bool_decide (record.(cr_rp_id) = rp.(rp_host))) then inl Invalid
  else match user device_id, b64url_decode record.(cr_id), key_state record.(cr_public_key_state) with
  | Some user_id, Some id, Some state =>
      if negb (credential_id_ok id) then inl Invalid
      else
        let stored := mkDynamic true
          (if record.(cr_backup_state) then BackupExists
           else if record.(cr_backup_eligible) then BackupEligible else BackupNotEligible)
          record.(cr_sign_count) in
        if negb (authenticated_credential_ok id user_id state stored) then inl Invalid
        else
          let options := mkAuthOpts rp.(rp_origin)
            (if requires_unbacked policy scope then Some BackupReqNotEligible else None) in
          let result := match server with
            | AssertLogin server =>
                verify_login server rp.(rp_host) response id user_id state stored options
            | AssertElevation server =>
                verify_elev server rp.(rp_host) response id user_id state stored options
            end in
          match result with
          | None => inl Invalid
          | Some (inl error) => inl (assertion_failure_from error)
          | Some (inr dynamic) =>
              let '(be, bs) := flags dynamic.(dyn_backup) in
              if negb dynamic.(dyn_user_verified) || negb (policy_accepts policy scope be bs)
                 || negb (bool_decide (be = record.(cr_backup_eligible)))
              then inl PolicyViolation
              else inr (mkVerifiedAssertion dynamic.(dyn_sign_count) bs)
          end
  | _, _, _ => inl Invalid
  end.

(** ** Ceremonies *)

Inductive CeremonyKind :=
| CerRegistration (pairing : Registration) (device_id : string) (state : RegState)
| CerLogin (state : LoginState)
| CerElevation (session : string) (scope : Scope) (state : ElevState).
Record Ceremony := mkCeremony { c_until : Timestamp; c_kind : CeremonyKind }.
Record Ceremonies := mkCeremonies {
  cs_entries : gmap Challenge Ceremony;
  cs_elevation_limit : nat;
  cs_login_order : list Challenge;
}.
Definition set_ceremonies (e : gmap Challenge Ceremony) (s : Ceremonies) : Ceremonies :=
  mkCeremonies e s.(cs_elevation_limit) s.(cs_login_order).
Definition set_login_order (l : list Challenge) (s : Ceremonies) : Ceremonies :=
  mkCeremonies s.(cs_entries) s.(cs_elevation_limit) l.

Definition LOGIN_LIMIT : nat := 48.
Definition REGISTRATION_LIMIT : nat := 16.

Definition is_login (k : CeremonyKind) : bool := match k with CerLogin _ => true | _ => false end.
Definition is_elevation (k : CeremonyKind) : bool :=
  match k with CerElevation _ _ _ => true | _ => false end.
Definition is_registration (k : CeremonyKind) : bool :=
  match k with CerRegistration _ _ _ => true | _ => false end.
Definition elevation_of (session : string) (k : CeremonyKind) : bool :=
  match k with CerElevation old _ _ => bool_decide (old = session) | _ => false end.
Definition registration_of (pairing_id : string) (k : CeremonyKind) : bool :=
  match k with
  | CerRegistration pairing _ _ => bool_decide (pairing.(rg_pairing_id) = pairing_id)
  | _ => false
  end.
Definition kind_challenge (k : CeremonyKind) : Challenge :=
  match k with
  | CerRegistration _ _ state => reg_challenge state
  | CerLogin state => login_challenge state
  | CerElevation _ _ state => elev_challenge state
  end.

(** [entries.retain(..)] and [entries.values().filter(..).count()] *)
Definition retain (keep : Ceremony → bool) (s : Ceremonies) : Ceremonies :=
  set_ceremonies (filter (λ e, keep e.2 = true) s.(cs_entries)) s.
Definition count_kind (p : CeremonyKind → bool) (s : Ceremonies) : nat :=
  size (filter (λ e, p (c_kind e.2) = true) s.(cs_entries)).

(** [Ceremonies::new] *)
Definition ceremonies_new (max_devices : Z) : Ceremonies :=
  mkCeremonies ∅ (Z.to_nat max_devices * 4) [].

(** [Ceremonies::retain_sessions] *)
Definition retain_sessions (active : gset string) (s : Ceremonies) : Ceremonies :=
  retain (λ c, match c_kind c with
               | CerElevation session _ _ => bool_decide (session ∈ active)
               | _ => true
               end) s.

(** [Ceremonies::purge] *)
Definition purge (now : Timestamp) (s : Ceremonies) : Ceremonies :=
  let s := retain (λ c, now <? c_until c) s in
  set_login_order (filter (λ key, is_Some (s.(cs_entries) !! key)) s.(cs_login_order)) s.

(** [Ceremonies::insert] *)
Definition ceremonies_insert (ceremony : Ceremony) (now : Timestamp) : M Ceremonies Failure unit :=
  modify (purge now);;
  match c_kind ceremony with
  | CerLogin _ =>
      let! s := gets id in
      if bool_decide (LOGIN_LIMIT ≤ length s.(cs_login_order))%nat then
        let! oldest := expect (head s.(cs_login_order)) in
        modify (set_login_order (tail s.(cs_login_order)));;
        modify (λ s, set_ceremonies (delete oldest s.(cs_entries)) s)
      else ret tt
  | CerElevation session _ _ =>
      modify (retain (λ c, negb (elevation_of session (c_kind c))));;
      let! s := gets id in
      reject_if (bool_decide (s.(cs_elevation_limit) ≤ count_kind is_elevation s)%nat) CHALLENGE_LIMIT
  | CerRegistration pairing _ _ =>
      let! s := gets id in
      reject_if (bool_decide (REGISTRATION_LIMIT ≤ count_kind is_registration s)%nat
                 || negb (bool_decide (count_kind (registration_of pairing.(rg_pairing_id)) s = 0%nat)))
        CHALLENGE_LIMIT
  end;;
  let key := kind_challenge (c_kind ceremony) in
  when (is_login (c_kind ceremony))
    (modify (λ s, set_login_order (s.(cs_login_order) ++ [key]) s));;
  modify (λ s, set_ceremonies (<[key := ceremony]> s.(cs_entries)) s).

(** [Ceremonies::take_registration] *)
Definition take_registration (pairing_id : string) (response : Value) (now : Timestamp)
    : M Ceremonies Failure Ceremony :=
  modify (purge now);;
  let! key := ok_or REJECTED (registration_response_challenge response) in
  let! s := gets id in
  reject_if (match s.(cs_entries) !! key with
             | Some c => negb (registration_of pairing_id (c_kind c))
             | None => true
             end) REJECTED;;
  let! ceremony := ok_or REJECTED (s.(cs_entries) !! key) in
  modify (λ s, set_ceremonies (delete key s.(cs_entries)) s);;
  ret ceremony.

(** [Ceremonies::take_assertion] *)
Definition take_assertion (response : Value) (session : option (string * Scope)) (now : Timestamp)
    : M Ceremonies Failure Ceremony :=
  modify (purge now);;
  let! key := ok_or REJECTED (match session with
                              | Some _ => elevation_response_challenge response
                              | None => login_response_challenge response
                              end) in
  let! s := gets id in
  let! ceremony := ok_or REJECTED (s.(cs_entries) !! key) in
  let valid := match c_kind ceremony, session with
               | CerLogin _, None => true
               | CerElevation session scope _, Some (id, requested) =>
                   bool_decide (session = id) && bool_decide (scope = requested)
               | _, _ => false
               end in
  reject_if (negb valid) REJECTED;;
  modify (λ s, set_ceremonies (delete key s.(cs_entries)) s);;
  ret ceremony.
End RelyingParty.
