(* ===== verification/WebauthnFacts.v ===== *)
(** * What the ceremony pools guarantee *)

From stdpp Require Import base gmap strings list fin_maps fin_sets relations.
From Stdlib Require Import ZArith Lia.
From S2P Require Import Prelude Rust Externals Crates Clock Devices Admin Events World Pairing Webauthn.

Local Open Scope Z_scope.

Arguments retain : simpl never.
Arguments count_kind : simpl never.

Section Ceremonies.
Context `{Base64, Crypto, !Webauthn Transport}.
Implicit Types (s : Ceremonies) (c : Ceremony) (k : Challenge).

Record ceremonies_wf s : Prop := {
  cw_order : (length s.(cs_login_order) ≤ LOGIN_LIMIT)%nat;
  cw_login k c : s.(cs_entries) !! k = Some c → is_login (c_kind c) = true → k ∈ s.(cs_login_order);
  cw_elevation : (count_kind is_elevation s ≤ s.(cs_elevation_limit))%nat;
  cw_registration : (count_kind is_registration s ≤ REGISTRATION_LIMIT)%nat;
  cw_key k c : s.(cs_entries) !! k = Some c → kind_challenge (c_kind c) = k;
  cw_session session k k' c c' :
    s.(cs_entries) !! k = Some c → s.(cs_entries) !! k' = Some c' →
    elevation_of session (c_kind c) = true → elevation_of session (c_kind c') = true → k = k';
  cw_pairing pairing_id k k' c c' :
    s.(cs_entries) !! k = Some c → s.(cs_entries) !! k' = Some c' →
    registration_of pairing_id (c_kind c) = true →
    registration_of pairing_id (c_kind c') = true → k = k';
}.

(** Fewer entries, and the order still covers the logins. *)
Lemma shrink_wf s s' : ceremonies_wf s → s'.(cs_entries) ⊆ s.(cs_entries) →
  s'.(cs_elevation_limit) = s.(cs_elevation_limit) →
  (length s'.(cs_login_order) ≤ length s.(cs_login_order))%nat →
  (∀ k c, s'.(cs_entries) !! k = Some c → is_login (c_kind c) = true → k ∈ s'.(cs_login_order)) →
  ceremonies_wf s'.
Proof.
  intros [Ho Hl He Hr Hk Hs Hp] Hsub Hlim Hlen Hlog.
  assert (∀ k c, s'.(cs_entries) !! k = Some c → s.(cs_entries) !! k = Some c) as Hin
    by (intros k c; by apply map_subseteq_spec).
  assert (∀ p, count_kind p s' ≤ count_kind p s)%nat as Hcount.
  { intros p. apply map_subseteq_size, map_filter_subseteq_mono, Hsub. }
  constructor; eauto using Nat.le_trans; try lia.
  - rewrite Hlim. etrans; [apply Hcount|done].
Qed.

Lemma retain_wf keep s : ceremonies_wf s → ceremonies_wf (retain keep s).
Proof.
  intros Hs. apply (shrink_wf s); [done|apply map_filter_subseteq|done|done|].
  intros k c [Hk _]%map_lookup_filter_Some. by apply (cw_login _ Hs).
Qed.

Lemma purge_wf now s : ceremonies_wf s → ceremonies_wf (purge now s).
Proof.
  intros Hs. apply (shrink_wf s); [done|apply map_filter_subseteq|done|apply length_filter|].
  intros k c Hk Hl. apply list_elem_of_filter. split; [by eexists|].
  apply map_lookup_filter_Some in Hk as [Hk _]. by eapply (cw_login _ Hs).
Qed.

Lemma delete_wf k s : ceremonies_wf s → ceremonies_wf (set_ceremonies (delete k s.(cs_entries)) s).
Proof.
  intros Hs. apply (shrink_wf s); [done|apply delete_subseteq|done|done|].
  simpl. intros k' c [_ Hk]%lookup_delete_Some. by apply (cw_login _ Hs).
Qed.

(** The first login goes. *)
Lemma evict_wf s k l : ceremonies_wf s → s.(cs_login_order) = k :: l →
  ceremonies_wf (set_ceremonies (delete k s.(cs_entries)) (set_login_order l s)).
Proof.
  intros Hs Ho. apply (shrink_wf s); [done|apply delete_subseteq|done|rewrite Ho; simpl; lia|].
  simpl. intros k' c [Hne Hk]%lookup_delete_Some Hl.
  pose proof (cw_login _ Hs _ _ Hk Hl) as Hin. rewrite Ho in Hin. set_solver.
Qed.

Lemma count_insert p s k c :
  (count_kind p (set_ceremonies (<[k := c]> s.(cs_entries)) s)
   ≤ (if p (c_kind c) then S else id) (count_kind p s))%nat.
Proof.
  unfold count_kind. simpl. destruct (p (c_kind c)) eqn:Hp; [apply filter_size_insert_le|].
  rewrite map_filter_insert_False by (simpl; by rewrite Hp). apply filter_size_delete_le.
Qed.

(** What must hold before a ceremony is written. *)
Definition room_for (kind : CeremonyKind) s : Prop :=
  match kind with
  | CerLogin _ => (length s.(cs_login_order) < LOGIN_LIMIT)%nat
  | CerElevation session _ _ => (count_kind is_elevation s < s.(cs_elevation_limit))%nat
      ∧ ∀ k c, s.(cs_entries) !! k = Some c → elevation_of session (c_kind c) = false
  | CerRegistration pairing _ _ => (count_kind is_registration s < REGISTRATION_LIMIT)%nat
      ∧ ∀ k c, s.(cs_entries) !! k = Some c →
          registration_of pairing.(rg_pairing_id) (c_kind c) = false
  end.

Definition write_ceremony (c : Ceremony) s : Ceremonies :=
  let key := kind_challenge (c_kind c) in
  let s := if is_login (c_kind c) then set_login_order (s.(cs_login_order) ++ [key]) s else s in
  set_ceremonies (<[key := c]> s.(cs_entries)) s.

Lemma write_count p c s :
  (count_kind p (write_ceremony c s) ≤ (if p (c_kind c) then S else id) (count_kind p s))%nat.
Proof.
  etrans; [|apply (count_insert p s (kind_challenge (c_kind c)) c)].
  unfold write_ceremony. by destruct (is_login _).
Qed.

Lemma write_limit c s : (write_ceremony c s).(cs_elevation_limit) = s.(cs_elevation_limit).
Proof. unfold write_ceremony. by destruct (is_login _). Qed.

Lemma write_wf c s : ceremonies_wf s → room_for (c_kind c) s → ceremonies_wf (write_ceremony c s).
Proof.
  intros Hs Hroom. set (key := kind_challenge (c_kind c)).
  assert (∀ k c', (write_ceremony c s).(cs_entries) !! k = Some c' →
    k = key ∧ c' = c ∨ k ≠ key ∧ s.(cs_entries) !! k = Some c') as Hin.
  { intros k c'. unfold write_ceremony. destruct (is_login _); simpl; intros Hk;
      apply lookup_insert_Some in Hk as [[<- <-]|[? ?]]; auto. }
  constructor.
  - pose proof (cw_order _ Hs). unfold write_ceremony.
    destruct (c_kind c); simpl in *; rewrite ?length_app; simpl; lia.
  - intros k c' Hk Hl. assert (k = key ∨ k ∈ s.(cs_login_order)) as Hor.
    { destruct (Hin _ _ Hk) as [[-> _]|[_ Hk']]; [by left|right; by eapply (cw_login _ Hs)]. }
    unfold write_ceremony. destruct (is_login (c_kind c)) eqn:Hlc; simpl; [set_solver|].
    destruct (Hin _ _ Hk) as [[-> ->]|[_ Hk']]; [congruence|]. by eapply (cw_login _ Hs).
  - pose proof (cw_elevation _ Hs) as He. rewrite write_limit. etrans; [apply write_count|].
    destruct (c_kind c); simpl in *; unfold id; lia.
  - pose proof (cw_registration _ Hs) as He. etrans; [apply write_count|].
    destruct (c_kind c); simpl in *; unfold id; lia.
  - intros k c' Hk. destruct (Hin _ _ Hk) as [[-> ->]|[_ Hk']]; [done|by apply (cw_key _ Hs)].
  - intros session k k' c1 c2 H1 H2 E1 E2.
    destruct (Hin _ _ H1) as [[-> ->]|[_ H1']], (Hin _ _ H2) as [[-> ->]|[_ H2']]; [done| | |by eapply (cw_session _ Hs)];
      destruct (c_kind c) eqn:Hkc; simpl in *; try done;
      apply bool_decide_eq_true in E1 || apply bool_decide_eq_true in E2; subst;
      destruct Hroom as [_ Hr]; (apply Hr in H1' || apply Hr in H2'); congruence.
  - intros pid k k' c1 c2 H1 H2 E1 E2.
    destruct (Hin _ _ H1) as [[-> ->]|[_ H1']], (Hin _ _ H2) as [[-> ->]|[_ H2']]; [done| | |by eapply (cw_pairing _ Hs)];
      destruct (c_kind c) eqn:Hkc; simpl in *; try done;
      apply bool_decide_eq_true in E1 || apply bool_decide_eq_true in E2; subst;
      destruct Hroom as [_ Hr]; (apply Hr in H1' || apply Hr in H2'); congruence.
Qed.

(** Room is made for a login, an elevation replaces the session's own. *)
Definition make_room (c : Ceremony) s : Ceremonies :=
  match c_kind c with
  | CerLogin _ =>
      if bool_decide (LOGIN_LIMIT ≤ length s.(cs_login_order))%nat then
        match s.(cs_login_order) with
        | oldest :: rest => set_ceremonies (delete oldest s.(cs_entries)) (set_login_order rest s)
        | [] => s
        end
      else s
  | CerElevation session _ _ => retain (λ c, negb (elevation_of session (c_kind c))) s
  | CerRegistration _ _ _ => s
  end.

Lemma make_room_wf c s : ceremonies_wf s → ceremonies_wf (make_room c s).
Proof.
  intros Hs. unfold make_room. destruct (c_kind c); [done| |by apply retain_wf].
  case_bool_decide; [|done]. destruct (cs_login_order s) eqn:Ho; [done|]. by apply evict_wf.
Qed.

Lemma count_zero p s : count_kind p s = 0%nat →
  ∀ k c, s.(cs_entries) !! k = Some c → p (c_kind c) = false.
Proof.
  intros Hz k c Hk. apply map_size_empty_iff in Hz.
  destruct (p (c_kind c)) eqn:Hp; [|done].
  assert (filter (λ e : Challenge * Ceremony, p (c_kind e.2) = true) (cs_entries s) !! k = Some c) as Hf
    by (by apply map_lookup_filter_Some). by rewrite Hz, lookup_empty in Hf.
Qed.

Lemma insert_spec c now s : ceremonies_wf s →
  wp (ceremonies_insert c now) (λ r s', r ≠ Panic ∧ ceremonies_wf s'
    ∧ (r = Ok tt → s' = write_ceremony c (make_room c (purge now s)))
    ∧ (∀ e, r = Err e → e = CHALLENGE_LIMIT ∧ is_login (c_kind c) = false
                        ∧ s'.(cs_entries) ⊆ s.(cs_entries))) s.
Proof.
  intros Hs. unfold ceremonies_insert. wp_step. wp_step.
  pose proof (purge_wf now s Hs) as Hp. pose proof (make_room_wf c _ Hp) as Hr.
  assert ((purge now s).(cs_entries) ⊆ s.(cs_entries)) as Hsub by apply map_filter_subseteq.
  assert (∀ s', s' = make_room c (purge now s) → room_for (c_kind c) s' →
    wp (when (is_login (c_kind c))
          (modify (λ s, set_login_order (s.(cs_login_order) ++ [kind_challenge (c_kind c)]) s));;
        modify (λ s, set_ceremonies (<[kind_challenge (c_kind c) := c]> s.(cs_entries)) s))
      (λ r s', r ≠ Panic ∧ ceremonies_wf s'
        ∧ (r = Ok tt → s' = write_ceremony c (make_room c (purge now s)))
        ∧ (∀ e : Failure, r = Err e → e = CHALLENGE_LIMIT ∧ is_login (c_kind c) = false
                        ∧ s'.(cs_entries) ⊆ s.(cs_entries))) s') as Hwrite.
  { intros s' -> Hroom. pose proof (write_wf c _ Hr Hroom) as Hw.
    unfold write_ceremony in *. unfold when. destruct (is_login (c_kind c)); do 3 wp_step; done. }
  wp_step. destruct (c_kind c) as [pairing dev st|st|session sc st] eqn:Hk.
  - do 3 wp_step.
    + split; [done|]. split; [done|]. split; [done|]. intros e [= <-]. done.
    + apply Hwrite; [unfold make_room; by rewrite Hk|].
      apply orb_false_iff in Heqb as [Hc%bool_decide_eq_false Hz%negb_false_iff%bool_decide_eq_true].
      split; [unfold id in *; lia|]. by apply count_zero.
  - do 2 wp_step. unfold id in *. wp_step.
    + apply bool_decide_eq_true in Heqb as Hfull.
      destruct (cs_login_order (purge now s)) as [|k l] eqn:Ho; [unfold LOGIN_LIMIT in *; simpl in *; lia|].
      apply wp_bind, wp_expect. cbn [head hd_error]. do 3 wp_step.
      apply Hwrite; [unfold make_room; by rewrite Hk, Ho, Heqb|]. simpl.
      pose proof (cw_order _ Hp) as Hlen. rewrite Ho in Hlen. simpl in Hlen. lia.
    + wp_step. apply Hwrite; [unfold make_room; by rewrite Hk, Heqb|].
      apply bool_decide_eq_false in Heqb. unfold room_for. lia.
  - do 5 wp_step.
    + split; [done|]. split; [by apply retain_wf|]. split; [done|]. intros e [= <-].
      split; [done|]. split; [done|]. etrans; [apply map_filter_subseteq|done].
    + apply Hwrite; [unfold make_room; by rewrite Hk|].
      apply bool_decide_eq_false in Heqb. split; [unfold id in *; lia|].
      intros k c' [_ Hc']%map_lookup_filter_Some. by apply negb_true_iff.
Qed.

(** What a ceremony taken from the pools was, and what is left. *)
Definition taken key now s c s' : Prop :=
  s.(cs_entries) !! key = Some c ∧ now < c_until c
  ∧ s' = set_ceremonies (delete key (purge now s).(cs_entries)) (purge now s).

Lemma purge_lookup now s k c :
  (purge now s).(cs_entries) !! k = Some c ↔ s.(cs_entries) !! k = Some c ∧ now < c_until c.
Proof.
  unfold purge, retain. simpl. rewrite map_lookup_filter_Some. simpl. by rewrite Z.ltb_lt.
Qed.

Lemma take_registration_spec pairing_id response now s :
  wp (take_registration pairing_id response now) (λ r s', r ≠ Panic
    ∧ (∀ e, r = Err e → e = REJECTED ∧ s' = purge now s)
    ∧ (∀ c, r = Ok c → ∃ key, registration_response_challenge response = Some key
         ∧ taken key now s c s' ∧ registration_of pairing_id (c_kind c) = true)) s.
Proof.
  unfold take_registration.
  do 4 wp_step; [|split; [done|]; split; [by intros ? [= <-]|done]].
  do 4 wp_step; [split; [done|]; split; [by intros ? [= <-]|done]|].
  unfold id in *. do 2 wp_step; [|done]. do 3 wp_step. split; [done|]. split; [done|].
  intros c' [= <-]. apply negb_false_iff in Heqb.
  apply purge_lookup in Heqo0 as [Hk Ht]. by exists c.
Qed.

Lemma take_assertion_spec response session now s :
  wp (take_assertion response session now) (λ r s', r ≠ Panic
    ∧ (∀ e, r = Err e → e = REJECTED ∧ s' = purge now s)
    ∧ (∀ c, r = Ok c → ∃ key, taken key now s c s' ∧
         match session with
         | None => login_response_challenge response = Some key ∧ is_login (c_kind c) = true
         | Some (id, scope) => elevation_response_challenge response = Some key
             ∧ ∃ st, c_kind c = CerElevation id scope st
         end)) s.
Proof.
  unfold take_assertion.
  do 4 wp_step; [|split; [done|]; split; [by intros ? [= <-]|done]].
  do 4 wp_step; [|split; [done|]; split; [by intros ? [= <-]|done]].
  unfold id in *. cbn zeta. do 2 wp_step; [split; [done|]; split; [by intros ? [= <-]|done]|].
  do 3 wp_step. split; [done|]. split; [done|]. intros c1 [= <-].
  apply purge_lookup in Heqo0 as [Hk Ht]. exists c. split; [done|].
  apply negb_false_iff in Heqb. destruct session as [[id scope]|]; destruct (c_kind c0); try done.
  - split; [done|]. apply andb_true_iff in Heqb as [->%bool_decide_eq_true ->%bool_decide_eq_true].
    by eexists.
Qed.

(** One call of a method of [Ceremonies]. *)
Inductive ceremony_step : Ceremonies → Ceremonies → Prop :=
| step_insert c now s : ceremony_step s (ceremonies_insert c now s).2
| step_take_registration id response now s :
    ceremony_step s (take_registration id response now s).2
| step_take_assertion response session now s :
    ceremony_step s (take_assertion response session now s).2
| step_purge now s : ceremony_step s (purge now s)
| step_retain_sessions active s : ceremony_step s (retain_sessions active s).

Definition ceremonies_reachable (max_devices : Z) s : Prop :=
  rtc ceremony_step (ceremonies_new max_devices) s.

Lemma step_wf s s' : ceremonies_wf s → ceremony_step s s' → ceremonies_wf s'.
Proof.
  intros Hs Hstep. destruct Hstep as [c now s|id response now s|response session now s|now s|active s].
  - by apply insert_spec.
  - pose proof (take_registration_spec id response now s) as (Hp & He & Hok).
    destruct (take_registration id response now s) as [[c|e|] s']; simpl in *; [| |done].
    + destruct (Hok c eq_refl) as (key & _ & (_ & _ & ->) & _). by apply delete_wf, purge_wf.
    + destruct (He e eq_refl) as [_ ->]. by apply purge_wf.
  - pose proof (take_assertion_spec response session now s) as (Hp & He & Hok).
    destruct (take_assertion response session now s) as [[c|e|] s']; simpl in *; [| |done].
    + destruct (Hok c eq_refl) as (key & (_ & _ & ->) & _). by apply delete_wf, purge_wf.
    + destruct (He e eq_refl) as [_ ->]. by apply purge_wf.
  - by apply purge_wf.
  - by apply retain_wf.
Qed.

Lemma step_limit s s' : ceremony_step s s' → s'.(cs_elevation_limit) = s.(cs_elevation_limit).
Proof.
  intros Hstep. destruct Hstep as [c now s|id response now s|response session now s|now s|active s];
    try done.
  - unfold ceremonies_insert, bind, modify, gets, reject_if, when, expect, ret, throw, panic.
    destruct (c_kind c); repeat case_match; simplify_eq/=; done.
  - unfold take_registration, bind, modify, gets, reject_if, ok_or, ret, throw.
    repeat case_match; simplify_eq/=; done.
  - unfold take_assertion, bind, modify, gets, reject_if, ok_or, ret, throw.
    repeat case_match; simplify_eq/=; done.
Qed.

Lemma reachable_wf max_devices s : ceremonies_reachable max_devices s →
  ceremonies_wf s ∧ s.(cs_elevation_limit) = (Z.to_nat max_devices * 4)%nat.
Proof.
  intros Hs. assert (∀ s0, rtc ceremony_step s0 s → ceremonies_wf s0 →
    ceremonies_wf s ∧ s.(cs_elevation_limit) = s0.(cs_elevation_limit)) as Hind.
  { clear Hs. induction 1 as [s0|s0 s1 s2 H01 _ IH]; [done|]. intros Hw0.
    rewrite <-(step_limit _ _ H01). apply IH. by eapply step_wf. }
  apply (Hind _ Hs).
  constructor; simpl; try (intros *; by rewrite lookup_empty);
    unfold count_kind; simpl; rewrite ?map_filter_empty, ?map_size_empty; unfold LOGIN_LIMIT; lia.
Qed.

(** *** Properties *)

Lemma logins_bounded s : ceremonies_wf s → (count_kind is_login s ≤ LOGIN_LIMIT)%nat.
Proof.
  intros Hs. etrans; [|apply (cw_order _ Hs)]. etrans; [|apply size_list_to_set_le].
  unfold count_kind. rewrite <-size_dom. apply subseteq_size. intros k.
  rewrite elem_of_dom, elem_of_list_to_set. intros [c [Hk Hl]%map_lookup_filter_Some].
  by eapply (cw_login _ Hs).
Qed.

(** The pools of ceremonies are bounded and independent of the order of
    calls: at most 48 logins, 16 registrations and four elevations per permitted
    device are in flight, at most one elevation per session and one registration
    per pairing, each under its own challenge. *)
Theorem ceremony_pools max_devices s : ceremonies_reachable max_devices s →
  (count_kind is_login s ≤ 48)%nat ∧ (count_kind is_registration s ≤ 16)%nat
  ∧ (count_kind is_elevation s ≤ Z.to_nat max_devices * 4)%nat
  ∧ (∀ k c, s.(cs_entries) !! k = Some c → kind_challenge (c_kind c) = k)
  ∧ (∀ session k k' c c', s.(cs_entries) !! k = Some c → s.(cs_entries) !! k' = Some c' →
       elevation_of session (c_kind c) = true → elevation_of session (c_kind c') = true → k = k')
  ∧ (∀ id k k' c c', s.(cs_entries) !! k = Some c → s.(cs_entries) !! k' = Some c' →
       registration_of id (c_kind c) = true → registration_of id (c_kind c') = true → k = k').
Proof.
  intros [Hs Hl]%reachable_wf. rewrite <-Hl. split; [by apply logins_bounded|].
  destruct Hs. split_and!; eauto.
Qed.

(** A login never fails for room: past its deadline entries are dropped,
    and at 48 the oldest login goes, no other; registrations and elevations in
    time keep their place, unless they have the challenge of a login. *)
Theorem login_fifo max_devices s st until now : ceremonies_reachable max_devices s →
  let key := login_challenge st in
  let p := purge now s in
  ceremonies_insert (mkCeremony until (CerLogin st)) now s =
    (Ok tt, mkCeremonies
      (<[key := mkCeremony until (CerLogin st)]>
        (if bool_decide (48 ≤ length p.(cs_login_order))%nat
         then match p.(cs_login_order) with k :: _ => delete k p.(cs_entries) | [] => p.(cs_entries) end
         else p.(cs_entries)))
      s.(cs_elevation_limit)
      ((if bool_decide (48 ≤ length p.(cs_login_order))%nat
        then tail p.(cs_login_order) else p.(cs_login_order)) ++ [key])).
Proof.
  intros [Hs _]%reachable_wf key p.
  pose proof (insert_spec (mkCeremony until (CerLogin st)) now s Hs) as (Hp & _ & Hok & He).
  destruct (ceremonies_insert _ now s) as [[[]|e|] s']; cbn [fst snd] in *; [| |done].
  - rewrite (Hok eq_refl). f_equal. unfold write_ceremony, make_room. fold p.
    cbn [c_kind is_login kind_challenge].
    assert (cs_elevation_limit p = cs_elevation_limit s) as <- by done. clearbody p.
    unfold LOGIN_LIMIT. destruct p as [entries limit order]. simpl.
    case_bool_decide as Hb; [|done]. destruct order; [simpl in Hb; lia|done].
  - by destruct (He e eq_refl) as (_ & ? & _).
Qed.

(** A ceremony is used once and only for what it was started for: taking
    one needs its challenge, its kind, its session and scope (or its pairing) and
    its time; it is gone afterwards, so the same answer is refused again; and a
    refusal removes nothing that was still in time. *)
Theorem ceremony_single_use s response session now :
  (∀ c s', take_assertion response session now s = (Ok c, s') →
     (∃ key, s.(cs_entries) !! key = Some c ∧ now < c_until c ∧
        match session with
        | None => login_response_challenge response = Some key ∧ is_login (c_kind c) = true
        | Some (id, scope) => elevation_response_challenge response = Some key
            ∧ ∃ st, c_kind c = CerElevation id scope st
        end)
     ∧ ∀ later session', is_Some session' ↔ is_Some session →
         (take_assertion response session' later s').1 = Err REJECTED)
  ∧ (∀ e s', take_assertion response session now s = (Err e, s') →
       e = REJECTED ∧ ∀ k c, s'.(cs_entries) !! k = Some c ↔ s.(cs_entries) !! k = Some c ∧ now < c_until c).
Proof.
  split.
  - intros c s' Hrun. destruct (wp_run _ _ _ _ _ (take_assertion_spec response session now s) Hrun)
      as (_ & _ & Hok). destruct (Hok c eq_refl) as (key & (Hk & Ht & ->) & Hm).
    split; [by exists key|]. intros later session' Hsome.
    set (s' := set_ceremonies _ _).
    destruct (take_assertion_spec response session' later s') as (Hp & He & Hok').
    destruct (take_assertion response session' later s') as [[c'|e|] s2]; simpl in *;
      [|by destruct (He e eq_refl) as [-> _]|done].
    destruct (Hok' c' eq_refl) as (key' & (Hk' & _ & _) & Hm').
    assert (key' = key) as ->.
    { destruct session as [[? ?]|], session' as [[? ?]|].
      - destruct Hm as [Hm _], Hm' as [Hm' _]. congruence.
      - by destruct (proj2 Hsome) as [? ?]; [eexists|].
      - by destruct (proj1 Hsome) as [? ?]; [eexists|].
      - destruct Hm as [Hm _], Hm' as [Hm' _]. congruence. }
    simpl in Hk'. by rewrite lookup_delete_eq in Hk'.
  - intros e s' Hrun. destruct (wp_run _ _ _ _ _ (take_assertion_spec response session now s) Hrun)
      as (_ & He & _). destruct (He e eq_refl) as [-> ->]. split; [done|]. apply purge_lookup.
Qed.
End Ceremonies.

(** ** The policy around the library *)

Section Policy.
Context `{Base64, Crypto, !Webauthn Transport}.

(** A verified assertion satisfies the binding policy on the flags the
    authenticator signed, not on those stored: the credential is of this host, the
    user was verified, backup eligibility is the stored one, a binding that
    forbids backup admits no backed-up credential; and only a signature-counter
    error of the library is reported as a rollback. *)
Theorem assertion_policy rp server response device_id record policy scope :
  match verify_assertion rp server response device_id record policy scope with
  | inr v => cr_rp_id record = rp_host rp ∧ is_Some (key_state (cr_public_key_state record))
      ∧ (requires_unbacked policy scope = true →
           cr_backup_eligible record = false ∧ va_backup_state v = false)
      ∧ (va_backup_state v = true → cr_backup_eligible record = true)
  | inl Rollback => ∃ id user_id state stored options,
      match server with
      | AssertLogin server => verify_login server (rp_host rp) response id user_id state stored options
      | AssertElevation server => verify_elev server (rp_host rp) response id user_id state stored options
      end = Some (inl SignatureCounter)
      ∧ dyn_sign_count stored = cr_sign_count record
  | inl _ => True
  end.
Proof.
  unfold verify_assertion. destruct (bool_decide _) eqn:Hrp; [|done]. simpl.
  apply bool_decide_eq_true in Hrp.
  destruct (user device_id) as [user_id|], (b64url_decode (cr_id record)) as [id|],
    (key_state (cr_public_key_state record)) as [state|] eqn:Hkey; try done.
  destruct (negb (credential_id_ok id)); [done|]. cbn zeta.
  destruct (negb (authenticated_credential_ok _ _ _ _)); [done|].
  match goal with |- context [match ?m with None => inl Invalid | _ => _ end] =>
    destruct m as [[error|dynamic]|] eqn:Hverify end; [| |done].
  - destruct error; simpl; try done. do 5 eexists. destruct server; split; (exact Hverify || done).
  - destruct (flags (dyn_backup dynamic)) as [be bs] eqn:Hflags.
    destruct (_ || _) eqn:Hbad; [done|]. simpl.
    apply orb_false_iff in Hbad as [[_ Hpol%negb_false_iff]%orb_false_iff Hbe%negb_false_iff%bool_decide_eq_true].
    subst be. unfold policy_accepts in Hpol. apply andb_true_iff in Hpol as [Hbs Hun].
    split; [done|]. split; [by eexists|]. split.
    + intros Hreq. rewrite Hreq in Hun. destruct (cr_backup_eligible record); [done|].
      by destruct bs.
    + intros ->. by destruct (cr_backup_eligible record).
Qed.
End Policy.

(** ** Ceremonies, computed *)

Definition sim_login : CeremonyKind := CerLogin 7.
Definition sim_ceremonies : Ceremonies :=
  (ceremonies_insert (mkCeremony 100 sim_login) 0 (ceremonies_new 2)).2.
Lemma sim_ceremonies_reachable : ceremonies_reachable 2 sim_ceremonies.
Proof. apply rtc_once, step_insert. Qed.

Lemma ceremony_pools_witness :
  ceremonies_reachable 2 sim_ceremonies ∧ (count_kind is_login sim_ceremonies ≤ 48)%nat.
Proof.
  split; [apply sim_ceremonies_reachable|].
  apply (ceremony_pools 2 sim_ceremonies sim_ceremonies_reachable).
Defined.

Lemma login_fifo_witness :
  (ceremonies_insert (mkCeremony 200 (CerLogin 8)) 0 sim_ceremonies).1 = Ok tt.
Proof.
  exact (f_equal fst (login_fifo 2 sim_ceremonies 8 200 0
    sim_ceremonies_reachable)).
Defined.

Definition sim_answer : Value := VObject [("challenge", VNumber 7)].
Definition sim_spent : Ceremonies :=
  (take_assertion sim_answer None 5 sim_ceremonies).2.
Lemma ceremony_single_use_witness :
  take_assertion sim_answer None 5 sim_ceremonies = (Ok (mkCeremony 100 sim_login), sim_spent)
  ∧ (take_assertion sim_answer None 5 sim_spent).1 = Err REJECTED.
Proof.
  assert (take_assertion sim_answer None 5 sim_ceremonies = (Ok (mkCeremony 100 sim_login), sim_spent))
    as Hrun by (vm_compute; reflexivity).
  split; [exact Hrun|].
  apply (ceremony_single_use sim_ceremonies sim_answer None 5) in Hrun as [_ Hagain].
  by apply Hagain.
Defined.
