(* ===== verification/Session.v ===== *)
(** * [session.rs]: devices, sessions, elevations and peers

    One [Identity] behind one lock: every method below is one critical section.
    A method that returns an [Option] fails with [tt]. *)

From stdpp Require Import base gmap strings list sorting.
From Stdlib Require Import ZArith Lia.
From S2P Require Import Prelude Rust Externals Clock Devices Admin Events World Pairing Webauthn.

Local Open Scope Z_scope.

Definition COOKIE_NAME : string := "__Host-yzc".
Definition COOKIE_ATTRIBUTES : string := "Secure; HttpOnly; SameSite=Strict; Path=/".
Definition MAX_PEERS : nat := 16.
Definition SESSION_LIMIT : Failure := (SERVICE_UNAVAILABLE, "Session limit reached").
Definition INVALID_COMMAND : Failure := (BAD_REQUEST, "Invalid device command").

(** [trim_ascii] *)
Definition trim_ascii (s : string) : string :=
  of_bytes (rev (drop_while is_ascii_whitespace (rev (drop_while is_ascii_whitespace (bytes s))))).

(** [v[..i]] and [v[i + 1..]] at the first ['=']. *)
Definition cookie_split (text : string) : string * option string :=
  match find_str "=" text with
  | Some i => (prefix i text, Some (skip (S i) text))
  | None => (text, None)
  end.

Section Cookies.
Context `{Base64}.

Definition clear_cookie : string := COOKIE_NAME +:+ "=; " +:+ COOKIE_ATTRIBUTES +:+ "; Max-Age=0".
Definition session_cookie (id : string) : string :=
  COOKIE_NAME +:+ "=" +:+ encode id +:+ "; " +:+ COOKIE_ATTRIBUTES.

(** The loop of [cookie_id] over the pairs of all headers; the outer [None] is
    an early [return None]. *)
Fixpoint cookie_pairs (pairs : list string) (result : option string) : option (option string) :=
  match pairs with
  | [] => Some result
  | text :: pairs =>
      let '(name, value) := cookie_split (trim_ascii text) in
      if bool_decide (name = COOKIE_NAME) then
        if bool_decide (is_Some result) then None
        else value ← value; _ ← utf8_decode (bytes value); id ← decode 32 value;
             cookie_pairs pairs (Some id)
      else cookie_pairs pairs result
  end.
Definition cookie_id (headers : HeaderMap) : option string :=
  mjoin (cookie_pairs (headers_get_all "cookie" headers ≫= split_on (char_of 59)) None).
End Cookies.

Record AuthContext := mkAuthContext {
  ctx_session_id : string; ctx_device_id : string; ctx_rp_id : string }.
(** [invalidated] is the value of the watch channel. *)
Record Peer := mkPeer { peer_session : string; peer_device : string; peer_invalidated : bool }.
Record Session := mkSession {
  s_device_id : string;
  s_rp_id : string;
  s_created_at : Timestamp;
  s_last_seen : Timestamp;
  s_control_until : option Timestamp;
  s_full_until : option Timestamp;
  s_control_at : option Timestamp;
  s_full_at : option Timestamp;
  s_binding_hash : string;
}.
Definition set_last_seen t s := mkSession s.(s_device_id) s.(s_rp_id) s.(s_created_at) t
  s.(s_control_until) s.(s_full_until) s.(s_control_at) s.(s_full_at) s.(s_binding_hash).
Definition set_control until at_ s := mkSession s.(s_device_id) s.(s_rp_id) s.(s_created_at)
  s.(s_last_seen) (Some until) s.(s_full_until) (Some at_) s.(s_full_at) s.(s_binding_hash).
Definition set_full until at_ s := mkSession s.(s_device_id) s.(s_rp_id) s.(s_created_at)
  s.(s_last_seen) s.(s_control_until) (Some until) s.(s_control_at) (Some at_) s.(s_binding_hash).

Record Identity := mkIdentity {
  i_devices : gmap string Device;
  i_notifications : gmap string (option Device);
  i_sessions : gmap string Session;
  i_peers : gmap Z Peer;
  i_next_peer : Z;
  i_failures : gmap string Z;
  i_dirty_devices : gset string;
  i_policy : Policy;
}.
Definition set_devices v i := mkIdentity v i.(i_notifications) i.(i_sessions) i.(i_peers)
  i.(i_next_peer) i.(i_failures) i.(i_dirty_devices) i.(i_policy).
Definition set_notifications v i := mkIdentity i.(i_devices) v i.(i_sessions) i.(i_peers)
  i.(i_next_peer) i.(i_failures) i.(i_dirty_devices) i.(i_policy).
Definition set_sessions v i := mkIdentity i.(i_devices) i.(i_notifications) v i.(i_peers)
  i.(i_next_peer) i.(i_failures) i.(i_dirty_devices) i.(i_policy).
Definition set_peers v i := mkIdentity i.(i_devices) i.(i_notifications) i.(i_sessions) v
  i.(i_next_peer) i.(i_failures) i.(i_dirty_devices) i.(i_policy).
Definition set_next_peer v i := mkIdentity i.(i_devices) i.(i_notifications) i.(i_sessions)
  i.(i_peers) v i.(i_failures) i.(i_dirty_devices) i.(i_policy).
Definition set_failure_counts v i := mkIdentity i.(i_devices) i.(i_notifications) i.(i_sessions)
  i.(i_peers) i.(i_next_peer) v i.(i_dirty_devices) i.(i_policy).
Definition set_dirty v i := mkIdentity i.(i_devices) i.(i_notifications) i.(i_sessions)
  i.(i_peers) i.(i_next_peer) i.(i_failures) v i.(i_policy).

Inductive AssertionResult :=
| LoggedIn (session binding device_id : string)
| Elevated (until : Timestamp).

(** The first element that satisfies [p], changed in place. *)
Fixpoint update_first {A} (p : A → bool) (f : A → A) (l : list A) : option (list A) :=
  match l with
  | [] => None
  | x :: l => if p x then Some (f x :: l) else cons x <$> update_first p f l
  end.

Definition hours (n : Z) : Z := seconds (n * 3600).
Definition minutes (n : Z) : Z := seconds (n * 60).

(** [Identity::notification] *)
Definition notification (id : string) (device : option Device) : Event :=
  match device with
  | Some device => device_updated device
  | None => device_revoked id
  end.

(** ** The methods that touch neither clock nor queue *)

(** [Identity::session_limit] *)
Definition session_limit (i : Identity) : nat := (Z.to_nat i.(i_policy).(max_devices) * 4)%nat.

(** [Identity::invalidate_session] *)
Definition invalidate_session (id : string) (i : Identity) : Identity :=
  let i := set_sessions (delete id i.(i_sessions)) i in
  set_peers ((λ p, if bool_decide (peer_session p = id)
                   then mkPeer (peer_session p) (peer_device p) true else p) <$> i.(i_peers)) i.

(** The sessions that satisfy [p], each invalidated; the order is immaterial. *)
Definition invalidate_where (p : Session → bool) (i : Identity) : Identity :=
  foldr invalidate_session i (map_to_list (filter (λ e, p e.2 = true) i.(i_sessions))).*1.

(** [Identity::invalidate_device] *)
Definition invalidate_device (device : string) : Identity → Identity :=
  invalidate_where (λ s, bool_decide (s_device_id s = device)).

(** [Identity::active] *)
Definition active (i : Identity) (s : Session) (now : Timestamp) : bool :=
  (now <? i.(i_policy).(enable_until))
  && (now <? after (s_created_at s) (hours i.(i_policy).(view_absolute_hours)))
  && (now <? after (s_last_seen s) (minutes i.(i_policy).(view_idle_min)))
  && match i.(i_devices) !! s_device_id s with
     | Some d => negb (d_locked d)
                 && existsb (λ c, bool_decide (cr_rp_id c = s_rp_id s)) (d_credentials d)
     | None => false
     end.

(** [Identity::register_peer]: the error is the [None]. *)
Definition register_peer (ctx : AuthContext) (i : Identity) : option Z * Identity :=
  if bool_decide (MAX_PEERS ≤ size i.(i_peers))%nat
     || bool_decide (2 ≤ size (filter (λ e, peer_device e.2 = ctx.(ctx_device_id)) i.(i_peers)))%nat
  then (None, i)
  else
    let id := i.(i_next_peer) in
    match checked_add u64_max id 1 with
    | None => (None, i)
    | Some next =>
        let i := set_next_peer next i in
        (Some id, set_peers (<[id := mkPeer ctx.(ctx_session_id) ctx.(ctx_device_id) false]>
                               i.(i_peers)) i)
    end.
(** [Identity::unregister_peer] *)
Definition unregister_peer (id : Z) (i : Identity) : Identity :=
  set_peers (delete id i.(i_peers)) i.
(** [Identity::peer_list] *)
Definition peer_le (a b : PeerInfo) : Prop := pi_peer_id a <= pi_peer_id b.
#[export] Instance peer_le_dec a b : Decision (peer_le a b) := Z.le_dec _ _.
Definition peer_list (i : Identity) : list PeerInfo :=
  merge_sort peer_le
    ((λ e, mkPeerInfo e.1 (peer_device e.2)) <$> map_to_list i.(i_peers)).

(** [Identity::freshness_deadline], [Identity::logout], [Identity::registration_target] *)
Definition freshness_deadline (ctx : AuthContext) (scope : Scope) (i : Identity) : option Timestamp :=
  s ← i.(i_sessions) !! ctx.(ctx_session_id);
  at_ ← (match scope with Control => s_control_at s | Full => s_full_at s | View => None end);
  Some (after at_ (seconds 120)).
Definition logout : string → Identity → Identity := invalidate_session.
Definition registration_target (id : string) (i : Identity) : option Device :=
  d ← i.(i_devices) !! id;
  if negb (d_locked d) && bool_decide (length (d_credentials d) < 8)%nat then Some d else None.

Section Identity.
Context `{Base64, Crypto, Http, !Webauthn Transport, World W}.
Abbreviation identity_m E A := (M (Identity * W) E A).

(** [Identity::has_session_cookie] *)
Definition has_session_cookie (headers : HeaderMap) (i : Identity) : bool :=
  match cookie_id headers with
  | Some id => bool_decide (is_Some (i.(i_sessions) !! id))
  | None => false
  end.

(** [Identity::new] *)
Definition identity_new (devices : list Device) (policy : Policy) : string + Identity :=
  if negb (policy_valid policy)
     || (max_devices policy <? Z.of_nat (length devices))
     || negb (forallb device_valid devices)
  then inl "invalid-policy"
  else
    let table := foldl (λ m d, <[d_device_id d := d]> m) ∅ devices in
    if negb (bool_decide (size table = length devices)) then inl "invalid-devices"
    else inr (mkIdentity table ∅ ∅ ∅ 0 ∅ ∅ policy).

Section Methods.
Context {E : Type}.

(** [Identity::purge_expired] *)
Definition purge_expired : identity_m E unit :=
  let! now := clock_read in
  update (λ i, invalidate_where (λ s, negb (active i s now)) i).

(** [Identity::notify_snapshot] *)
Definition notify_snapshot (id : string) : identity_m E unit :=
  update (λ i, set_dirty (i.(i_dirty_devices) ∖ {[id]}) i);;
  let! i := get in
  match i.(i_devices) !! id with
  | None => ret tt
  | Some device =>
      update (λ i, set_notifications (<[id := Some device]> i.(i_notifications)) i);;
      let! ok := try_emit (notification id (Some device)) in
      when ok (update (λ i, set_notifications (delete id i.(i_notifications)) i))
  end.

(** [Identity::maintenance] *)
Definition identity_maintenance : identity_m E unit :=
  purge_expired;;
  let! i := get in
  update (set_dirty ∅);;
  let! dirty := iterate (gset_to_gmap tt i.(i_dirty_devices)) in
  for_each dirty (λ '(id, _), notify_snapshot id);;
  let! i := get in
  let! pending := iterate i.(i_notifications) in
  for_each pending (λ '(id, device),
    let! ok := try_emit (notification id device) in
    when ok (update (λ i, set_notifications (delete id i.(i_notifications)) i))).

(** [Identity::validate] *)
Definition validate (id rp_id : string) (scope : Scope) : identity_m E bool :=
  let! now := clock_read in
  let! i := get in
  match i.(i_sessions) !! id with
  | None => ret false
  | Some session =>
      if negb (active i session now) then update (invalidate_session id);; ret false
      else if negb (bool_decide (s_rp_id session = rp_id)) then ret false
      else
        let! device := expect (i.(i_devices) !! s_device_id session) in
        let granted := match scope with
          | View => true
          | Control => match g_control (d_grants device) with
                       | Some g => now <? cg_until g
                       | None => false
                       end
          | Full => full_session_enabled i.(i_policy) && g_full (d_grants device)
          end in
        let until := match scope with
          | Control => s_control_until session
          | Full => s_full_until session
          | View => None
          end in
        if negb granted
           || (negb (bool_decide (scope = View))
               && match until with Some until => until <=? now | None => true end)
        then ret false
        else
          update (λ i, set_sessions (<[id := set_last_seen now session]> i.(i_sessions)) i);;
          update (λ i, set_devices
            (<[s_device_id session := device_set_last_seen now device]> i.(i_devices)) i);;
          update (λ i, set_dirty (i.(i_dirty_devices) ∪ {[s_device_id session]}) i);;
          ret true
  end.

(** [Identity::revalidate] *)
Definition revalidate (ctx : AuthContext) (scope : Scope) : identity_m E bool :=
  let! i := get in
  match i.(i_sessions) !! ctx.(ctx_session_id) with
  | Some s => if bool_decide (s_device_id s = ctx.(ctx_device_id))
              then validate ctx.(ctx_session_id) ctx.(ctx_rp_id) scope else ret false
  | None => ret false
  end.

(** [Identity::active_session_ids] *)
Definition active_session_ids : identity_m E (gset string) :=
  purge_expired;;
  let! i := get in ret (dom i.(i_sessions)).

(** [Identity::can_elevate] *)
Definition can_elevate (ctx : AuthContext) (scope : Scope) : identity_m E bool :=
  let! now := clock_read in
  let! i := get in
  ret (match i.(i_devices) !! ctx.(ctx_device_id) with
       | Some d => negb (d_locked d) && match scope with
           | View => false
           | Control => match g_control (d_grants d) with Some g => now <? cg_until g | None => false end
           | Full => full_session_enabled i.(i_policy) && g_full (d_grants d)
           end
       | None => false
       end).

(** [Identity::assertion_owner] *)
Definition assertion_owner (response : Value) (rp_id : string) : identity_m E (option string) :=
  match value_get "rawId" response ≫= as_str with
  | None => ret None
  | Some id =>
      let! i := get in
      let! devices := iterate i.(i_devices) in
      ret (d_device_id ∘ snd <$> List.find
        (λ e, existsb (λ c, bool_decide (cr_id c = id) && bool_decide (cr_rp_id c = rp_id))
                (d_credentials e.2)) devices)
  end.

(** [Identity::assertion_failed] *)
Definition assertion_failed (id : string) (rollback : bool) : identity_m E unit :=
  let! i := get in
  match i.(i_devices) !! id with
  | None => ret tt
  | Some device =>
      if d_locked device then ret tt
      else
        let count := saturating_add u8_max (default 0 (i.(i_failures) !! id)) 1 in
        update (λ i, set_failure_counts (<[id := count]> i.(i_failures)) i);;
        when (rollback || (5 <=? count))
          (update (λ i, set_devices (<[id := device_set_locked true device]> i.(i_devices)) i);;
           update (invalidate_device id);;
           notify_snapshot id)
  end.

(** [Identity::assertion_verified] *)
Definition assertion_verified (id credential_id rp_id : string) (verified : VerifiedAssertion)
    : identity_m E unit :=
  let! i := get in
  let! device := expect (i.(i_devices) !! id) in
  let! credentials := expect (update_first
    (λ c, bool_decide (cr_id c = credential_id) && bool_decide (cr_rp_id c = rp_id))
    (λ c, mkCredential (cr_id c) (cr_rp_id c) (cr_public_key_state c) (cr_state_format c)
            (va_sign_count verified) (cr_backup_eligible c) (va_backup_state verified)
            (cr_transports c))
    (d_credentials device)) in
  let! now := clock_read in
  update (λ i, set_devices
    (<[id := device_set_last_seen now (device_set_credentials credentials device)]> i.(i_devices)) i);;
  update (λ i, set_failure_counts (delete id i.(i_failures)) i);;
  notify_snapshot id.
End Methods.

(** [Identity::authenticate] *)
Definition authenticate (headers : HeaderMap) (rp_id : string) (requested_scope : Scope)
    : identity_m unit AuthContext :=
  let! id := ok_or tt (cookie_id headers) in
  let bindings := headers_get_all "x-yzc-binding" headers in
  let! token := ok_or tt ((head bindings ≫= header_to_str) ≫= decode 32) in
  reject_if (bool_decide (1 < length bindings)%nat) tt;;
  let! i := get in
  let! session := ok_or tt (i.(i_sessions) !! id) in
  let! valid := (if matches (s_binding_hash session) token
                 then validate id rp_id View else ret false) in
  reject_if (negb valid) tt;;
  let! i := get in
  let! session := ok_or tt (i.(i_sessions) !! id) in
  ret (mkAuthContext id (s_device_id session) rp_id).

(** [Identity::elevate] *)
Definition elevate (ctx : AuthContext) (scope : Scope) : identity_m unit Timestamp :=
  let! valid := revalidate ctx View in
  reject_if (negb valid) tt;;
  let id := ctx.(ctx_session_id) in
  let! now := clock_read in
  let! i := get in
  let! session := ok_or tt (i.(i_sessions) !! id) in
  reject_if (negb (bool_decide (s_rp_id session = ctx.(ctx_rp_id))) || negb (active i session now)) tt;;
  let! device := ok_or tt (i.(i_devices) !! s_device_id session) in
  let! cap := ok_or tt (match scope with
    | View => None
    | Control => cg_until <$> g_control (d_grants device)
    | Full => if full_session_enabled i.(i_policy) && g_full (d_grants device)
              then Some (after now (seconds 900)) else None
    end) in
  let until := Z.min (Z.min (Z.min (after now (minutes i.(i_policy).(elevation_max_min))) cap)
    i.(i_policy).(enable_until))
    (after (s_created_at session) (hours i.(i_policy).(view_absolute_hours))) in
  reject_if (until <=? now) tt;;
  update (λ i, set_sessions (<[id := match scope with
    | Control => set_control until now session
    | Full => set_full until now session
    | View => session
    end]> i.(i_sessions)) i);;
  ret until.

(** [Identity::write_deadline] *)
Definition write_deadline (ctx : AuthContext) (scope : Scope) (fresh : bool) : identity_m unit Timestamp :=
  let! i := get in
  let! session := ok_or tt (i.(i_sessions) !! ctx.(ctx_session_id)) in
  let! '(at_, until) := ok_or tt (match scope with
    | Control => a ← s_control_at session; u ← s_control_until session; Some (a, u)
    | Full => a ← s_full_at session; u ← s_full_until session; Some (a, u)
    | View => None
    end) in
  let! late := (if fresh then let! now := clock_read in ret (after at_ (seconds 120) <? now)
                else ret false) in
  reject_if late tt;;
  ret until.

(** What a command makes of the device, whether that widens, and its name;
    [None] is an invalid command. *)
Definition command_id (command : DeviceCommand) : string :=
  match command with DeviceUpdate _ id _ _ | DeviceRevoke _ id | DeviceUnlock _ id => id end.
Definition command_change (command : DeviceCommand) (device : Device)
    : option (option Device * bool * string) :=
  match command with
  | DeviceUpdate _ _ None None => None
  | DeviceUpdate _ _ label grants =>
      device ← (match label with
                | Some label => if valid_label label then Some (device_set_label label device) else None
                | None => Some device
                end);
      match grants with
      | None => Some (Some device, false, "device.update")
      | Some grants =>
          let old := cg_until <$> g_control (d_grants device) in
          let new := cg_until <$> g_control grants in
          let tightening := option_lt new old || (negb (g_full grants) && g_full (d_grants device)) in
          let widening := option_lt old new || (g_full grants && negb (g_full (d_grants device))) in
          if tightening && widening then None
          else Some (Some (device_set_grants grants device), widening, "device.update")
      end
  | DeviceUnlock _ _ => Some (Some (device_set_locked false device), true, "device.unlock")
  | DeviceRevoke _ _ => Some (None, false, "device.revoke")
  end.
Definition clears_failures (command : DeviceCommand) : bool :=
  match command with DeviceUnlock _ _ | DeviceRevoke _ _ => true | DeviceUpdate _ _ _ _ => false end.

(** [Identity::command] *)
Definition identity_command (command : DeviceCommand) : identity_m Failure AdminResult :=
  let id := command_id command in
  reject_if (bool_decide (decode 16 id = None)) INVALID_COMMAND;;
  let! i := get in
  let! device := ok_or INVALID_COMMAND (i.(i_devices) !! id) in
  let! '(snapshot, widening, name) := ok_or INVALID_COMMAND (command_change command device) in
  when widening
    (reject_if (bool_decide (is_Some (i.(i_notifications) !! id))) QUEUE_UNAVAILABLE;;
     try_emit_event (notification id snapshot));;
  update (λ i, set_dirty (i.(i_dirty_devices) ∖ {[id]}) i);;
  when (clears_failures command)
    (update (λ i, set_failure_counts (delete id i.(i_failures)) i));;
  update (λ i, set_devices (match snapshot with
                            | Some device => <[id := device]> i.(i_devices)
                            | None => delete id i.(i_devices)
                            end) i);;
  update (invalidate_device id);;
  if widening then ret Applied
  else
    update (λ i, set_notifications (<[id := snapshot]> i.(i_notifications)) i);;
    let! ok := try_emit (notification id snapshot) in
    if ok : bool then
      update (λ i, set_notifications (delete id i.(i_notifications)) i);;
      ret Applied
    else ret (NotificationDeferred name id).

(** [Identity::register_verified] *)
Definition register_verified (pairing : Registration) (verified : VerifiedRegistration)
    : identity_m Failure string :=
  let id := vr_device_id verified in
  let record := vr_record verified in
  let! i := get in
  let! now := clock_read in
  let! late := (if i.(i_policy).(enable_until) <=? now then ret true
                else let! now := clock_read in ret (rg_deadline pairing <=? now)) in
  reject_if late REJECTED;;
  let! devices := iterate i.(i_devices) in
  reject_if (existsb (λ e, existsb (λ c, bool_decide (cr_id c = cr_id record)
                                      && bool_decide (cr_rp_id c = cr_rp_id record))
                             (d_credentials e.2)) devices) REJECTED;;
  let! device := (match rg_add_to_device pairing with
    | Some target =>
        reject_if (negb (bool_decide (target = id))) REJECTED;;
        reject_if (bool_decide (is_Some (i.(i_notifications) !! target))) QUEUE_UNAVAILABLE;;
        ok_or REJECTED (registration_target target i)
    | None =>
        reject_if (negb (bool_decide (size i.(i_notifications) = 0%nat))) QUEUE_UNAVAILABLE;;
        reject_if (bool_decide (Z.to_nat i.(i_policy).(max_devices) ≤ size i.(i_devices))%nat
                   || bool_decide (is_Some (i.(i_devices) !! id))) REJECTED;;
        let! now := clock_read in
        ret (mkDevice id (rg_device_label pairing) [] (mkGrants None false) false now now)
    end) in
  let device := device_set_credentials (d_credentials device ++ [record]) device in
  reject_if (negb (device_valid device)) REJECTED;;
  try_emit_event (if bool_decide (is_Some (rg_add_to_device pairing))
                  then device_updated device else device_registered device);;
  update (λ i, set_devices (<[id := device]> i.(i_devices)) i);;
  update (invalidate_device id);;
  ret id.

(** [Identity::issue_session] *)
Definition issue_session (device_id rp_id : string) : identity_m Failure (string * string) :=
  purge_expired;;
  let! i := get in
  let! now := clock_read in
  reject_if (i.(i_policy).(enable_until) <=? now) REJECTED;;
  let! binding := random 32 in
  let! binding := ok_or UNAVAILABLE binding in
  let! id := random 32 in
  let! id := ok_or UNAVAILABLE id in
  (if bool_decide (4 ≤ size (filter (λ e, s_device_id e.2 = device_id) i.(i_sessions)))%nat then
     let! sessions := iterate i.(i_sessions) in
     let! oldest := expect (min_by_key (λ e, s_created_at e.2)
                              (filter (λ e, s_device_id e.2 = device_id) sessions)) in
     update (invalidate_session oldest.1)
   else ret tt);;
  let! i := get in
  reject_if (bool_decide (session_limit i ≤ size i.(i_sessions))%nat) SESSION_LIMIT;;
  let! now := clock_read in
  update (λ i, set_sessions (<[id := mkSession device_id rp_id now now None None None None
                                        (hash binding)]> i.(i_sessions)) i);;
  ret (id, encode binding).

(** The credential an assertion is checked against. *)
Definition assertion_record (rp : RelyingParty) (response : Value) (device : Device)
    : option CredentialRecord :=
  List.find (λ c, bool_decide (cr_rp_id c = rp_host rp)
                  && bool_decide (Some (cr_id c) = value_get "rawId" response ≫= as_str))
    (d_credentials device).

(** The closure [verification] of [finish_assertion] *)
Definition assertion_verdict (rp : RelyingParty) (state : AssertionState) (response : Value)
    (id : string) (scope : Scope) (i : Identity) : AssertionFailure + VerifiedAssertion :=
  match i.(i_devices) !! id with
  | Some device =>
      if d_locked device then inl Invalid
      else match assertion_record rp response device with
           | Some record =>
               verify_assertion rp state response id record i.(i_policy).(passkey_binding) scope
           | None => inl Invalid
           end
  | None => inl Invalid
  end.

(** [Identity::finish_assertion] *)
Definition finish_assertion (rp : RelyingParty) (state : AssertionState) (response : Value)
    (ctx : option (AuthContext * Scope)) : identity_m Failure AssertionResult :=
  let! id := (match ctx with
    | Some (ctx, _) => ret ctx.(ctx_device_id)
    | None =>
        let! owner := assertion_owner response rp.(rp_host) in
        let! owner := ok_or REJECTED owner in
        let handle := as_str (value_index "userHandle" (value_index "response" response)) in
        reject_if (negb (bool_decide (handle = Some owner))) REJECTED;;
        ok_or REJECTED handle
    end) in
  let scope := match ctx with Some (_, scope) => scope | None => View end in
  let! i := get in
  match assertion_verdict rp state response id scope i with
  | inl error =>
      when (bool_decide (error = PolicyViolation) || bool_decide (error = Rollback))
        (assertion_failed id (bool_decide (error = Rollback)));;
      throw REJECTED
  | inr verified =>
      let! raw_id := ok_or REJECTED (as_str (value_index "rawId" response)) in
      assertion_verified id raw_id rp.(rp_host) verified;;
      match ctx with
      | Some (ctx, scope) =>
          let! until := map_err (λ _, SCOPE_NOT_GRANTED) (elevate ctx scope) in
          ret (Elevated until)
      | None =>
          let! '(session, binding) := issue_session id rp.(rp_host) in
          ret (LoggedIn session binding id)
      end
  end.
End Identity.
