(* ===== verification/SessionInv.v ===== *)
(** * The invariant of [Identity]

    [core_inv] is what holds between two critical sections, whatever the queue
    did; [replica_ok] relates the devices to what the desktop was told. *)

From stdpp Require Import base gmap strings list fin_maps fin_sets.
From Stdlib Require Import ZArith Lia.
From S2P Require Import Prelude Rust Externals Clock Devices Admin Events World Pairing Webauthn Session.

Local Open Scope Z_scope.

(** ** Invalidating sessions *)

Definition mark (l : list string) (p : Peer) : Peer :=
  mkPeer (peer_session p) (peer_device p)
    (peer_invalidated p || bool_decide (peer_session p ∈ l)).
Definition without (l : list string) (i : Identity) : Identity :=
  set_peers (mark l <$> i.(i_peers))
    (set_sessions (filter (λ e, e.1 ∉ l) i.(i_sessions)) i).

Lemma mark_nil p : mark [] p = p.
Proof. destruct p. unfold mark. simpl. f_equal. apply orb_false_r. Qed.

Lemma invalidate_list l i : foldr invalidate_session i l = without l i.
Proof.
  induction l as [|x l IH]; simpl.
  - unfold without. destruct i; unfold set_peers, set_sessions; simpl. f_equal.
    + apply map_eq. intros k. apply option_eq. intros s. rewrite map_lookup_filter_Some.
      simpl. set_solver.
    + rewrite <-(map_fmap_id i_peers) at 1. apply map_fmap_ext. intros k p _. by rewrite mark_nil.
  - rewrite IH. unfold invalidate_session, without, set_peers, set_sessions. simpl. f_equal.
    + apply map_eq. intros k. apply option_eq. intros s.
      rewrite lookup_delete_Some, !map_lookup_filter_Some. simpl. set_solver.
    + rewrite <-map_fmap_compose. apply map_fmap_ext. intros k p _. unfold mark. simpl.
      destruct (decide (peer_session p = x)) as [->|Hne].
      * rewrite !bool_decide_true by set_solver. by rewrite orb_true_r.
      * rewrite (bool_decide_false (peer_session p = x)) by done.
        do 2 f_equal. apply bool_decide_ext. set_solver.
Qed.

Definition peers_of (id : string) (i : Identity) : nat :=
  size (filter (λ e, peer_device e.2 = id) i.(i_peers)).

Section Where.
Context (p : Session → bool) (i : Identity).
Let removed := (map_to_list (filter (λ e, p e.2 = true) i.(i_sessions))).*1.

Lemma elem_of_removed sid : sid ∈ removed ↔ ∃ s, i.(i_sessions) !! sid = Some s ∧ p s = true.
Proof.
  unfold removed. rewrite list_elem_of_fmap. split.
  - intros ([k s] & -> & Hin). apply elem_of_map_to_list, map_lookup_filter_Some in Hin.
    by exists s.
  - intros (s & Hs & Hp). exists (sid, s). split; [done|].
    by apply elem_of_map_to_list, map_lookup_filter_Some.
Qed.

Lemma invalidate_where_eq : invalidate_where p i = without removed i.
Proof. apply invalidate_list. Qed.

Lemma where_session sid s :
  (invalidate_where p i).(i_sessions) !! sid = Some s ↔ i.(i_sessions) !! sid = Some s ∧ p s = false.
Proof.
  rewrite invalidate_where_eq. unfold without. simpl. rewrite map_lookup_filter_Some. simpl.
  rewrite elem_of_removed. split.
  - intros [Hs Hno]. split; [done|]. destruct (p s) eqn:Hp; [|done]. exfalso. eauto.
  - intros [Hs Hp]. split; [done|]. intros (s' & Hs' & Hp'). simplify_eq. congruence.
Qed.

Lemma where_peer n q :
  (invalidate_where p i).(i_peers) !! n = Some q →
  ∃ q0, i.(i_peers) !! n = Some q0 ∧ peer_session q = peer_session q0
    ∧ peer_device q = peer_device q0
    ∧ (peer_invalidated q = false → peer_invalidated q0 = false
       ∧ ∀ s, i.(i_sessions) !! peer_session q0 = Some s → p s = false).
Proof.
  rewrite invalidate_where_eq. unfold without. simpl. rewrite lookup_fmap_Some.
  intros (q0 & <- & Hq0). exists q0. split; [done|]. split; [done|]. split; [done|].
  simpl. intros [Hi Hno]%orb_false_iff. split; [done|]. intros s Hs.
  apply bool_decide_eq_false in Hno. rewrite elem_of_removed in Hno.
  destruct (p s) eqn:Hp; [|done]. exfalso. eauto.
Qed.

Lemma where_rest : let i' := invalidate_where p i in
  i'.(i_devices) = i.(i_devices) ∧ i'.(i_notifications) = i.(i_notifications)
  ∧ i'.(i_next_peer) = i.(i_next_peer) ∧ i'.(i_failures) = i.(i_failures)
  ∧ i'.(i_dirty_devices) = i.(i_dirty_devices) ∧ i'.(i_policy) = i.(i_policy)
  ∧ i'.(i_sessions) ⊆ i.(i_sessions).
Proof.
  cbn zeta. rewrite invalidate_where_eq. split_and!; try done. apply map_filter_subseteq.
Qed.

Lemma where_peer_count id : peers_of id (invalidate_where p i) = peers_of id i.
Proof.
  rewrite invalidate_where_eq. unfold peers_of, without. simpl.
  by rewrite map_filter_fmap, map_size_fmap.
Qed.
Lemma where_peer_size : size (invalidate_where p i).(i_peers) = size i.(i_peers).
Proof. rewrite invalidate_where_eq. unfold without. simpl. apply map_size_fmap. Qed.
End Where.

(** ** The core invariant *)

(** The elevation of a session is within the policy, the grant of its device and
    the session's own life. *)
Record session_ok (policy : Policy) (devices : gmap string Device) (s : Session) : Prop := {
  so_device : ∃ d, devices !! s_device_id s = Some d ∧ d_locked d = false
    ∧ (∃ c, c ∈ d_credentials d ∧ cr_rp_id c = s_rp_id s)
    ∧ (∀ u, s_control_until s = Some u → ∃ g, g_control (d_grants d) = Some g ∧ u <= cg_until g)
    ∧ (∀ u, s_full_until s = Some u → full_session_enabled policy = true ∧ g_full (d_grants d) = true);
  so_control u : s_control_until s = Some u → ∃ at_, s_control_at s = Some at_
    ∧ u <= enable_until policy ∧ u <= after (s_created_at s) (hours (view_absolute_hours policy))
    ∧ u <= after at_ (minutes (elevation_max_min policy));
  so_full u : s_full_until s = Some u → ∃ at_, s_full_at s = Some at_
    ∧ u <= enable_until policy ∧ u <= after (s_created_at s) (hours (view_absolute_hours policy))
    ∧ u <= after at_ (minutes (elevation_max_min policy)) ∧ u <= after at_ (seconds 900);
}.

Definition sessions_of (id : string) (i : Identity) : nat :=
  size (filter (λ e, s_device_id e.2 = id) i.(i_sessions)).

Record core_inv (i : Identity) : Prop := {
  ii_device_id id d : i.(i_devices) !! id = Some d → d_device_id d = id;
  ii_device_count : (size i.(i_devices) ≤ Z.to_nat i.(i_policy).(max_devices))%nat;
  ii_unique id id' d d' c c' :
    i.(i_devices) !! id = Some d → i.(i_devices) !! id' = Some d' →
    c ∈ d_credentials d → c' ∈ d_credentials d' → credential_key c = credential_key c' → id = id';
  ii_session sid s : i.(i_sessions) !! sid = Some s → session_ok i.(i_policy) i.(i_devices) s;
  ii_session_count : (size i.(i_sessions) ≤ session_limit i)%nat;
  ii_session_device id : (sessions_of id i ≤ 4)%nat;
  ii_peer_count : (size i.(i_peers) ≤ MAX_PEERS)%nat;
  ii_peer_device id : (peers_of id i ≤ 2)%nat;
  ii_peer_id n p : i.(i_peers) !! n = Some p → 0 <= n < i.(i_next_peer);
  ii_peer_live n p : i.(i_peers) !! n = Some p → peer_invalidated p = false →
    is_Some (i.(i_sessions) !! peer_session p);
  ii_failures id n : i.(i_failures) !! id = Some n → 0 <= n ∧
    ∃ d, i.(i_devices) !! id = Some d ∧ (n < 5 ∨ d_locked d = true);
  ii_next : 0 <= i.(i_next_peer);
}.

Lemma core_invalidate p i : core_inv i → core_inv (invalidate_where p i).
Proof.
  intros Hi. destruct (where_rest p i) as (Hd & Hn & Hnp & Hf & Hdi & Hpol & Hs).
  destruct Hi. constructor; rewrite ?Hd, ?Hf, ?Hnp, ?Hpol; eauto.
  - intros sid s [Hsid _]%where_session. eauto.
  - unfold session_limit in *. rewrite Hpol. etrans; [by apply map_subseteq_size|done].
  - intros id. etrans; [|apply (ii_session_device0 id)].
    by apply map_subseteq_size, map_filter_subseteq_mono.
  - rewrite where_peer_size. done.
  - intros id. etrans; [|apply (ii_peer_device0 id)].
    by rewrite where_peer_count.
  - intros n q (q0 & Hq0 & _)%where_peer. eauto.
  - intros n q (q0 & Hq0 & Hses & _ & Hlive)%where_peer Hinv. destruct (Hlive Hinv) as [Hinv0 Hkeep].
    destruct (ii_peer_live0 n q0 Hq0 Hinv0) as [s Hs0]. exists s. rewrite Hses.
    apply where_session. eauto.
Qed.

(** ** The other changes of the state *)

Lemma core_same i i' : core_inv i →
  i'.(i_devices) = i.(i_devices) → i'.(i_sessions) = i.(i_sessions) →
  i'.(i_peers) = i.(i_peers) → i'.(i_next_peer) = i.(i_next_peer) →
  i'.(i_failures) = i.(i_failures) → i'.(i_policy) = i.(i_policy) → core_inv i'.
Proof.
  intros Hi Hd Hs Hp Hn Hf Hpol. destruct i, i'; simpl in *; subst. destruct Hi. by constructor.
Qed.

(** The parts of a device that authorise. *)
Definition same_access (d d' : Device) : Prop :=
  d_device_id d' = d_device_id d ∧ d_locked d' = d_locked d ∧ d_grants d' = d_grants d
  ∧ credential_key <$> d_credentials d' = credential_key <$> d_credentials d.

Lemma same_access_credential d d' c : same_access d d' → c ∈ d_credentials d' →
  ∃ c0, c0 ∈ d_credentials d ∧ credential_key c0 = credential_key c.
Proof.
  intros (_ & _ & _ & Hk) Hc. apply (list_elem_of_fmap_2 credential_key) in Hc.
  rewrite Hk in Hc. apply list_elem_of_fmap in Hc as (c0 & Heq & Hin). eauto.
Qed.

Lemma same_access_sym d d' : same_access d d' → same_access d' d.
Proof. intros (? & ? & ? & ?). split_and!; done. Qed.

Lemma session_ok_device policy devices id d d' s :
  devices !! id = Some d → same_access d d' → session_ok policy devices s →
  session_ok policy (<[id := d']> devices) s.
Proof.
  intros Hd Hsame [(d0 & Hd0 & Hl & (c & Hc & Hrp) & Hg & Hf) Hct Hfu]. constructor; [|done|done].
  destruct (decide (s_device_id s = id)) as [Heq|Hne].
  - rewrite Heq in *. simplify_eq. exists d'. rewrite lookup_insert_eq. split; [done|].
    destruct (same_access_credential _ _ c (same_access_sym _ _ Hsame) Hc) as (c' & Hc' & Hk).
    destruct Hsame as (_ & -> & -> & _). split; [done|]. split; [|done].
    exists c'. split; [done|]. unfold credential_key in Hk. congruence.
  - exists d0. rewrite lookup_insert_ne by done. split; [done|]. split; [done|]. split; [by exists c|done].
Qed.

Lemma core_update_device id d d' i : core_inv i → i.(i_devices) !! id = Some d → same_access d d' →
  core_inv (set_devices (<[id := d']> i.(i_devices)) i).
Proof.
  intros [] Hd Hsame.
  assert (∀ k x, <[id := d']> (i_devices i) !! k = Some x →
    ∃ x0, i_devices i !! k = Some x0 ∧ same_access x0 x) as Hin.
  { intros k x. destruct (decide (k = id)) as [->|Hne].
    - rewrite lookup_insert_eq. intros [= <-]. by exists d.
    - rewrite lookup_insert_ne by done. intros Hx. exists x. by split. }
  constructor; simpl; try done.
  - intros k x Hx. destruct (Hin _ _ Hx) as (x0 & Hx0 & -> & _). eauto.
  - rewrite map_size_insert_Some; [done|by eexists].
  - intros k k' x x' c c' Hx Hx' Hc Hc' Hk.
    destruct (Hin _ _ Hx) as (x0 & Hx0 & Hs0), (Hin _ _ Hx') as (x1 & Hx1 & Hs1).
    destruct (same_access_credential _ _ _ Hs0 Hc) as (c0 & Hc0 & Hk0).
    destruct (same_access_credential _ _ _ Hs1 Hc') as (c1 & Hc1 & Hk1).
    eapply (ii_unique0 k k' x0 x1 c0 c1); try done. congruence.
  - intros sid s Hs. eapply session_ok_device; eauto.
  - intros k n Hn. destruct (ii_failures0 k n Hn) as (Hp & x & Hx & Hor). split; [done|].
    destruct (decide (k = id)) as [->|Hne].
    + simplify_eq. exists d'. rewrite lookup_insert_eq. destruct Hsame as (_ & -> & _). auto.
    + exists x. by rewrite lookup_insert_ne.
Qed.

Lemma core_update_session sid s s' i : core_inv i → i.(i_sessions) !! sid = Some s →
  s_device_id s' = s_device_id s → session_ok i.(i_policy) i.(i_devices) s' →
  core_inv (set_sessions (<[sid := s']> i.(i_sessions)) i).
Proof.
  intros [] Hs Hdev Hok. constructor; simpl; try done.
  - intros k x. destruct (decide (k = sid)) as [->|Hne].
    + rewrite lookup_insert_eq. by intros [= <-].
    + rewrite lookup_insert_ne by done. eauto.
  - unfold session_limit in *. simpl. rewrite map_size_insert_Some; [done|by eexists].
  - intros id. etrans; [|apply (ii_session_device0 id)]. unfold sessions_of. simpl.
    apply (filter_size_update_le _ _ s); [done|]. simpl. by rewrite Hdev.
  - intros n p Hp Hl. destruct (ii_peer_live0 n p Hp Hl) as [x Hx].
    destruct (decide (peer_session p = sid)) as [->|Hne].
    + rewrite lookup_insert_eq. by eexists.
    + rewrite lookup_insert_ne by done. by eexists.
Qed.

Lemma core_add_session sid s i : core_inv i → session_ok i.(i_policy) i.(i_devices) s →
  (size i.(i_sessions) < session_limit i)%nat → (sessions_of (s_device_id s) i < 4)%nat →
  core_inv (set_sessions (<[sid := s]> i.(i_sessions)) i).
Proof.
  intros [] Hok Hroom Hdev. constructor; simpl; try done.
  - intros k x. destruct (decide (k = sid)) as [->|Hne].
    + rewrite lookup_insert_eq. by intros [= <-].
    + rewrite lookup_insert_ne by done. eauto.
  - etrans; [apply map_size_insert_le|]. unfold session_limit in *. simpl. lia.
  - intros id. unfold sessions_of. simpl. destruct (decide (s_device_id s = id)) as [<-|Hne].
    + etrans; [apply filter_size_insert_le|]. unfold sessions_of in Hdev. lia.
    + rewrite map_filter_insert_False by done. etrans; [apply filter_size_delete_le|].
      apply (ii_session_device0 id).
  - intros n p Hp Hl. destruct (ii_peer_live0 n p Hp Hl) as [x Hx].
    destruct (decide (peer_session p = sid)) as [->|Hne].
    + rewrite lookup_insert_eq. by eexists.
    + rewrite lookup_insert_ne by done. by eexists.
Qed.

Lemma core_failures m i : core_inv i →
  (∀ id n, m !! id = Some n → i.(i_failures) !! id = Some n ∨
     0 <= n ∧ ∃ d, i.(i_devices) !! id = Some d ∧ (n < 5 ∨ d_locked d = true)) →
  core_inv (set_failure_counts m i).
Proof.
  intros [] Hm. constructor; simpl; try done.
  intros id n Hn. destruct (Hm id n Hn) as [Hold|]; [by apply ii_failures0|done].
Qed.

Lemma core_unregister n i : core_inv i → core_inv (unregister_peer n i).
Proof.
  intros []. unfold unregister_peer. constructor; simpl; try done.
  - etrans; [apply map_size_delete_le|done].
  - intros id. etrans; [|apply (ii_peer_device0 id)]. apply filter_size_delete_le.
  - intros k p [_ Hp]%lookup_delete_Some. eauto.
  - intros k p [_ Hp]%lookup_delete_Some. eauto.
Qed.

Lemma core_register ctx i r i' : core_inv i → is_Some (i.(i_sessions) !! ctx_session_id ctx) →
  register_peer ctx i = (r, i') → core_inv i'.
Proof.
  intros Hi Hs. unfold register_peer. destruct (_ || _) eqn:Hfull; [by intros [= _ <-]|].
  apply orb_false_iff in Hfull as [Hp%bool_decide_eq_false Hd%bool_decide_eq_false].
  unfold checked_add. destruct (_ <=? _) eqn:Hmax; [|by intros [= _ <-]]. intros [= _ <-].
  destruct Hi. constructor; simpl; try done.
  - etrans; [apply map_size_insert_le|]. unfold MAX_PEERS in *. lia.
  - intros id. unfold peers_of. simpl. destruct (decide (ctx_device_id ctx = id)) as [<-|Hne].
    + etrans; [apply filter_size_insert_le|]. lia.
    + rewrite map_filter_insert_False by done. etrans; [apply filter_size_delete_le|].
      apply (ii_peer_device0 id).
  - intros n q. destruct (decide (n = i_next_peer i)) as [->|Hne].
    + lia.
    + rewrite lookup_insert_ne by done. intros Hq%ii_peer_id0. lia.
  - intros n q. destruct (decide (n = i_next_peer i)) as [->|Hne].
    + rewrite lookup_insert_eq. by intros [= <-].
    + rewrite lookup_insert_ne by done. eauto.
  - lia.
Qed.

(** A device is replaced (or removed) and its sessions end. *)
Definition put_device (id : string) (o : option Device) (i : Identity) : Identity :=
  set_devices (match o with
               | Some d => <[id := d]> i.(i_devices)
               | None => delete id i.(i_devices)
               end) i.
Definition commit (id : string) (o : option Device) (i : Identity) : Identity :=
  invalidate_device id (put_device id o i).

Lemma commit_session id o i sid s :
  (commit id o i).(i_sessions) !! sid = Some s ↔ i.(i_sessions) !! sid = Some s ∧ s_device_id s ≠ id.
Proof.
  unfold commit, invalidate_device. rewrite where_session. simpl. by rewrite bool_decide_eq_false.
Qed.

Lemma core_commit id o i : core_inv i →
  (∀ d, o = Some d → d_device_id d = id
     ∧ (is_Some (i.(i_devices) !! id) ∨ (size i.(i_devices) < Z.to_nat i.(i_policy).(max_devices))%nat)
     ∧ (∀ id' d' c c', id' ≠ id → i.(i_devices) !! id' = Some d' → c ∈ d_credentials d →
          c' ∈ d_credentials d' → credential_key c ≠ credential_key c')
     ∧ (∀ n, i.(i_failures) !! id = Some n → n < 5 ∨ d_locked d = true)) →
  (o = None → i.(i_failures) !! id = None) →
  core_inv (commit id o i).
Proof.
  intros Hi Hsome Hnone.
  assert (∀ k x, (put_device id o i).(i_devices) !! k = Some x →
    k = id ∧ o = Some x ∨ k ≠ id ∧ i.(i_devices) !! k = Some x) as Hin.
  { intros k x. unfold put_device. destruct o as [d|]; simpl; intros Hx.
    - apply lookup_insert_Some in Hx as [[<- <-]|[? ?]]; auto.
    - apply lookup_delete_Some in Hx as [? ?]. auto. }
  assert (∀ k x, k ≠ id → i.(i_devices) !! k = Some x → (put_device id o i).(i_devices) !! k = Some x) as Hkeep.
  { intros k x Hne Hx. unfold put_device. destruct o; simpl; [by rewrite lookup_insert_ne|by rewrite lookup_delete_ne]. }
  pose proof (core_invalidate (λ s, bool_decide (s_device_id s = id)) i Hi) as Hinv.
  destruct (where_rest (λ s, bool_decide (s_device_id s = id)) i) as (Hd & _ & _ & Hf & _ & Hpol & _).
  assert (commit id o i = put_device id o (invalidate_where (λ s, bool_decide (s_device_id s = id)) i)) as ->.
  { unfold commit, invalidate_device. rewrite !invalidate_where_eq. unfold put_device.
    destruct o; reflexivity. }
  set (i0 := invalidate_where _ i) in *. unfold put_device in *. rewrite Hd in *.
  destruct Hinv. rewrite Hd, Hf, Hpol in *. constructor; simpl; try done.
  - intros k x Hx. destruct (Hin k x Hx) as [[-> Ho]|[_ Hx']]; [by apply Hsome|eauto].
  - rewrite Hpol. destruct o as [d|].
    + destruct (Hsome d eq_refl) as (_ & [Hex|Hroom] & _).
      * by rewrite map_size_insert_Some.
      * etrans; [apply map_size_insert_le|]. lia.
    + etrans; [apply map_size_delete_le|done].
  - intros k k' x x' c c' Hx Hx' Hc Hc' Hk.
    destruct (Hin k x Hx) as [[-> Ho]|[Hne Hx0]], (Hin k' x' Hx') as [[-> Ho']|[Hne' Hx0']]; [done| | |eauto].
    + destruct (Hsome x Ho) as (_ & _ & Hu & _). by destruct (Hu k' x' c c').
    + destruct (Hsome x' Ho') as (_ & _ & Hu & _). by destruct (Hu k x c' c).
  - intros sid s Hs. rewrite Hpol. pose proof (ii_session0 sid s Hs) as [(d & Hd' & Hrest) Hc' Hf'].
    apply where_session in Hs as [_ Hne%bool_decide_eq_false]. constructor; [|done|done].
    exists d. split; [by apply Hkeep|done].
  - intros k n Hn. rewrite Hf in Hn. destruct (ii_failures0 k n Hn) as (Hpos & d & Hd' & Hor). split; [done|].
    destruct (decide (k = id)) as [->|Hne]; [|exists d; split; [by apply Hkeep|done]].
    destruct o as [x|]; [|by rewrite Hnone in Hn].
    exists x. rewrite lookup_insert_eq. split; [done|]. by apply (Hsome x eq_refl).
Qed.

(** ** The desktop's copy of the devices

    [replica] replays what the desktop was told on the devices it had; a
    [last_seen] is refreshed without being announced at once, so devices are
    compared up to it. *)

Definition forget (d : Device) : Device := device_set_last_seen 0 d.
Definition replay (m : gmap string Device) (e : Event) : gmap string Device :=
  match ev_body e with
  | EvDeviceRegistered d | EvDeviceUpdated d => <[d_device_id d := d]> m
  | EvDeviceRevoked id => delete id m
  | _ => m
  end.
Definition replica (d0 : gmap string Device) (log : list Event) : gmap string Device :=
  foldl replay d0 log.
Definition device_event (e : Event) : bool :=
  match ev_body e with
  | EvDeviceRegistered _ | EvDeviceUpdated _ | EvDeviceRevoked _ => true
  | _ => false
  end.

(** A device is what the desktop has, or what it is about to be told. *)
Definition replica_at (d0 : gmap string Device) (i : Identity) (log : list Event) (id : string) : Prop :=
  forget <$> i.(i_devices) !! id =
  forget <$> match i.(i_notifications) !! id with Some o => o | None => replica d0 log !! id end.
Definition replica_ok d0 i log : Prop := ∀ id, replica_at d0 i log id.

Lemma replica_app d0 log l : replica d0 (log ++ l) = replica (replica d0 log) l.
Proof. apply foldl_app. Qed.

Lemma replica_other m l : Forall (λ e, device_event e = false) l → replica m l = m.
Proof.
  unfold replica. revert m. induction l as [|e l IH]; intros m; [done|]. simpl.
  intros [He Hl]%Forall_cons. rewrite IH by done. unfold device_event, replay in *. by case_match.
Qed.

Lemma forget_id d d' : forget d = forget d' → d_device_id d = d_device_id d'.
Proof. intros Heq. by apply (f_equal d_device_id) in Heq. Qed.
Lemma forget_touch t d : forget (device_set_last_seen t d) = forget d.
Proof. done. Qed.

Lemma replay_notification m id o k :
  (∀ d, o = Some d → d_device_id d = id) →
  replay m (notification id o) !! k = if decide (k = id) then o else m !! k.
Proof.
  intros Hid. destruct o as [d|]; unfold replay, notification; simpl.
  - rewrite (Hid d eq_refl). case_decide; subst; [apply lookup_insert_eq|by apply lookup_insert_ne].
  - case_decide; subst; [apply lookup_delete_eq|by apply lookup_delete_ne].
Qed.

(** A snapshot that is current is staged; a staged one is sent. *)
Lemma stage_replica d0 i log id o :
  (∀ k, k ≠ id → replica_at d0 i log k) → forget <$> o = forget <$> i.(i_devices) !! id →
  replica_ok d0 (set_notifications (<[id := o]> i.(i_notifications)) i) log.
Proof.
  intros Hi Ho k. unfold replica_at. simpl. destruct (decide (k = id)) as [->|Hne].
  - by rewrite lookup_insert_eq.
  - rewrite lookup_insert_ne by done. by apply Hi.
Qed.

Lemma send_replica d0 i log id o : core_inv i → replica_ok d0 i log →
  i.(i_notifications) !! id = Some o →
  replica_ok d0 (set_notifications (delete id i.(i_notifications)) i) (log ++ [notification id o]).
Proof.
  intros Hc Hi Ho k. pose proof (Hi id) as Hid. pose proof (Hi k) as Hk. unfold replica_at in *.
  simpl. rewrite replica_app. unfold replica at 1. simpl. rewrite Ho in Hid.
  assert (∀ d, o = Some d → d_device_id d = id) as Hdid.
  { intros d ->. destruct (i_devices i !! id) as [d'|] eqn:Hd; [|done]. simpl in Hid.
    rewrite <-(ii_device_id _ Hc _ _ Hd). apply (inj Some), forget_id in Hid. done. }
  rewrite replay_notification by done. destruct (decide (k = id)) as [->|Hne].
  - by rewrite lookup_delete_eq.
  - by rewrite lookup_delete_ne.
Qed.

Lemma log_replica d0 i log l : Forall (λ e, device_event e = false) l →
  replica_ok d0 i log → replica_ok d0 i (log ++ l).
Proof.
  intros Hl Hi k. specialize (Hi k). unfold replica_at in *. by rewrite replica_app, (replica_other _ l).
Qed.
