(* ===== verification/SessionOps.v ===== *)
(** * What every method of [Identity] keeps and does *)
From stdpp Require Import base gmap strings list fin_maps fin_sets.
From Stdlib Require Import ZArith Lia.
From S2P Require Import Prelude Rust Externals Clock Devices Admin Events World Pairing PairingFacts.
From S2P Require Import PairingFacts Webauthn WebauthnFacts Session SessionInv.
Local Open Scope Z_scope.

(** A loop whose invariant speaks of the items still to come. *)
Lemma wp_for_each_rest {St E A} (l : list A) (body : A → M St E unit) (I : list A → St → Prop)
    (Q : outcome E unit → St → Prop) s :
  I l s →
  (∀ x rest s, I (x :: rest) s →
     wp (body x) (λ (r : outcome E unit) s', r = Ok tt ∧ I rest s') s) →
  (∀ s, I [] s → Q (Ok tt) s) → wp (for_each l body) Q s.
Proof.
  intros Hs Hbody HQ. revert s Hs. induction l as [|x l IH]; intros s Hs; [by apply HQ|].
  simpl. apply wp_bind. eapply wp_mono; [by apply Hbody|]. intros r s' [-> Hs']. by apply IH.
Qed.

Lemma option_size_pos {K A} `{Countable K} (m : gmap K A) k : is_Some (m !! k) → size m ≠ 0%nat.
Proof. intros [x Hx] Hz. apply map_size_empty_iff in Hz. by rewrite Hz, lookup_empty in Hx. Qed.

Section Ops.
Context `{Base64, Crypto, Http, !Webauthn Transport, World W, !WorldLaws W}.
Context (d0 : gmap string Device).
Implicit Types (i : Identity) (w : W).

Record inv (t : Identity * W) : Prop := {
  inv_core : core_inv t.1;
  inv_replica : replica_ok d0 t.1 (world_log t.2);
}.

(** From [t] to [t']: nothing is unsaid, time goes on, the policy stays. *)
Record irel (t t' : Identity * W) : Prop := {
  ir_inv : inv t';
  ir_log : log_grows t.2 t'.2;
  ir_time : world_time t.2 <= world_time t'.2;
  ir_policy : t'.1.(i_policy) = t.1.(i_policy);
}.

Lemma irel_refl t : inv t → irel t t.
Proof. intros. constructor; [done|reflexivity|lia|done]. Qed.

(** The world moves without a device event. *)
Lemma irel_world t i w w' l : irel t (i, w) → world_log w' = world_log w ++ l →
  Forall (λ e, device_event e = false) l → world_time w <= world_time w' → irel t (i, w').
Proof.
  intros [[Hc Hr] Hl Ht Hp] Hlog Hall Htime. simpl in *. constructor; simpl; [|etrans; [done|by eexists]|lia|done].
  constructor; simpl; [done|]. rewrite Hlog. by apply log_replica.
Qed.
Lemma irel_quiet t i w w' : irel t (i, w) → world_log w' = world_log w →
  world_time w <= world_time w' → irel t (i, w').
Proof. intros Hr Hl Ht. apply (irel_world t i w w' []); [done|by rewrite app_nil_r|done|done]. Qed.

(** The identity changes silently. *)
Lemma irel_state t i i' w : irel t (i, w) → core_inv i' →
  (replica_ok d0 i (world_log w) → replica_ok d0 i' (world_log w)) →
  i'.(i_policy) = i.(i_policy) → irel t (i', w).
Proof. intros [[Hc Hr] Hl Ht Hp] Hc' Hr' Hp'. simpl in *. constructor; simpl; [constructor; auto|done|done|congruence]. Qed.

Lemma replica_invalidate p i log : replica_ok d0 i log → replica_ok d0 (invalidate_where p i) log.
Proof.
  destruct (where_rest p i) as (Hd & Hn & _). unfold replica_ok, replica_at. by rewrite Hd, Hn.
Qed.

Lemma irel_invalidate p t i w : irel t (i, w) → irel t (invalidate_where p i, w).
Proof.
  intros Hr. eapply irel_state; [done|apply core_invalidate, Hr|apply replica_invalidate|apply where_rest].
Qed.

(** Invalidating one session, whatever the id. *)
Lemma core_invalidate_session id i : core_inv i → core_inv (invalidate_session id i).
Proof.
  intros Hi. unfold invalidate_session. constructor; simpl; try apply Hi.
  - intros sid s [_ Hs]%lookup_delete_Some. by eapply (ii_session _ Hi).
  - etrans; [apply map_size_delete_le|apply (ii_session_count _ Hi)].
  - intros k. etrans; [|apply (ii_session_device _ Hi k)]. apply filter_size_delete_le.
  - rewrite map_size_fmap. apply (ii_peer_count _ Hi).
  - intros k. etrans; [|apply (ii_peer_device _ Hi k)]. unfold peers_of. simpl.
    rewrite map_filter_fmap, map_size_fmap. apply map_subseteq_size.
    apply map_filter_subseteq_ext. intros n p _. simpl. by case_bool_decide.
  - intros n q. rewrite lookup_fmap_Some. intros (p & <- & Hp). by eapply (ii_peer_id _ Hi).
  - intros n q. rewrite lookup_fmap_Some. intros (p & <- & Hp). case_bool_decide as Heq; simpl; [done|].
    intros Hl. rewrite lookup_delete_ne by done. by eapply (ii_peer_live _ Hi).
Qed.

Lemma irel_invalidate_session id t i w : irel t (i, w) → irel t (invalidate_session id i, w).
Proof. intros Hr. eapply irel_state; [done|apply core_invalidate_session, Hr|done|done]. Qed.

Section Specs.
Context {E : Type} (t : Identity * W).

Lemma from_now (Q : outcome E Timestamp → Identity * W → Prop) i w :
  irel t (i, w) →
  (∀ w', irel t (i, w') → world_time w <= world_time w' → world_log w' = world_log w →
         Q (Ok (world_time w')) (i, w')) →
  wp clock_read Q (i, w).
Proof.
  intros Hr HQ. apply wp_clock_read. intros now w' Ht <- Hl. apply HQ; [|done|done].
  by eapply irel_quiet.
Qed.

Lemma from_entropy n (Q : outcome E (option string) → Identity * W → Prop) i w :
  irel t (i, w) → 0 <= n →
  (∀ o w', irel t (i, w') → (∀ b, o = Some b → len b = n) → world_time w' = world_time w →
           world_log w' = world_log w → Q (Ok o) (i, w')) →
  wp (random n) Q (i, w).
Proof.
  intros Hr Hn HQ. apply wp_random; [done|]. intros o w' Hlen Ht Hl. apply HQ; auto.
  eapply irel_quiet; [done|done|lia].
Qed.

Lemma from_order `{Countable K} {A} (m : gmap K A)
    (Q : outcome E (list (K * A)) → Identity * W → Prop) i w :
  irel t (i, w) →
  (∀ l w', irel t (i, w') → l ≡ₚ map_to_list m → world_time w' = world_time w →
           world_log w' = world_log w → Q (Ok l) (i, w')) →
  wp (iterate m) Q (i, w).
Proof.
  intros Hr HQ. apply wp_iterate. intros l w' Hp Ht Hl. apply HQ; auto.
  eapply irel_quiet; [done|done|lia].
Qed.

Lemma purge_expired_spec (Q : outcome E unit → Identity * W → Prop) i w :
  irel t (i, w) →
  (∀ w', let i' := invalidate_where (λ s, negb (active i s (world_time w'))) i in
     irel t (i', w') → world_time w <= world_time w' → world_log w' = world_log w →
     Q (Ok tt) (i', w')) →
  wp purge_expired Q (i, w).
Proof.
  intros Hr HQ. unfold purge_expired. apply wp_bind. eapply from_now; [done|].
  intros w' Hr' Ht Hl. apply wp_update. apply HQ; [by apply irel_invalidate|done|done].
Qed.

(** Sending the pending notification of [id]. *)
Lemma send_spec id o (Q : outcome E unit → Identity * W → Prop) i w :
  irel t (i, w) → i.(i_notifications) !! id = Some o →
  (∀ i' w', irel t (i', w') → world_time w' = world_time w →
     i' = i ∧ world_log w' = world_log w
     ∨ i' = set_notifications (delete id i.(i_notifications)) i
       ∧ world_log w' = world_log w ++ [notification id o] →
     Q (Ok tt) (i', w')) →
  wp (let! ok := try_emit (notification id o) in
      when ok (update (λ i, set_notifications (delete id i.(i_notifications)) i))) Q (i, w).
Proof.
  intros Hr Ho HQ. apply wp_bind, wp_try_emit. intros [] w' Ht Hl; unfold when; cbn iota.
  - apply wp_update, HQ; [|done|by right]. destruct Hr as [[Hc Hr] Hlg Htm Hp]. simpl in *.
    constructor; simpl; [|etrans; [done|by eapply log_grows_app]|lia|done].
    constructor; simpl; [by eapply core_same|]. rewrite Hl. by apply send_replica.
  - rewrite app_nil_r in Hl. apply wp_ret, HQ; [|done|by left].
    eapply irel_quiet; [done|done|lia].
Qed.
End Specs.

(** The parts a notification does not touch. *)
Definition same_access_state i i' : Prop :=
  i'.(i_devices) = i.(i_devices) ∧ i'.(i_sessions) = i.(i_sessions)
  ∧ i'.(i_peers) = i.(i_peers) ∧ i'.(i_next_peer) = i.(i_next_peer)
  ∧ i'.(i_failures) = i.(i_failures) ∧ i'.(i_policy) = i.(i_policy).

(** [notify_snapshot] brings the desktop (or the queue to it) up to date with
    [id], even if it was not before. *)
Lemma notify_snapshot_spec {E} t id (Q : outcome E unit → Identity * W → Prop) i w :
  core_inv i → (∀ k, k ≠ id ∨ i.(i_devices) !! id = None → replica_at d0 i (world_log w) k) →
  log_grows t.2 w → world_time t.2 <= world_time w → i.(i_policy) = t.1.(i_policy) →
  (∀ i' w', irel t (i', w') → same_access_state i i' → world_time w' = world_time w →
     log_grows w w' →
     (∀ d, i.(i_devices) !! id = Some d →
        i'.(i_notifications) !! id = Some (Some d) ∨ world_log w' = world_log w ++ [device_updated d]) →
     Q (Ok tt) (i', w')) →
  wp (notify_snapshot id) Q (i, w).
Proof.
  intros Hc Hrep Hlg Htm Hpol HQ. unfold notify_snapshot. apply wp_bind, wp_update, wp_bind, wp_get.
  cbn [i_devices set_dirty]. destruct (i_devices i !! id) as [d|] eqn:Hd.
  - apply wp_bind, wp_update. set (i1 := set_notifications _ _).
    assert (irel t (i1, w)) as Hr1.
    { constructor; simpl; [constructor; simpl|done|done|done].
      - by eapply core_same.
      - apply (stage_replica d0 (set_dirty (i_dirty_devices i ∖ {[id]}) i)); simpl; [|by rewrite Hd].
        intros k Hne. apply Hrep. by left. }
    eapply send_spec; [exact Hr1|apply lookup_insert_eq|]. intros i' w' Hr' Ht' Hcase.
    apply HQ; [done| |done| |].
    + by destruct Hcase as [[-> _]|[-> _]].
    + destruct Hcase as [[_ Hl]|[_ Hl]]; [by apply log_grows_same|by eapply log_grows_app].
    + intros x [= <-]. destruct Hcase as [[-> _]|[-> ->]]; [left; apply lookup_insert_eq|by right].
  - apply wp_ret, HQ; [|done|done|reflexivity|by intros ?].
    constructor; simpl; [constructor; simpl|done|done|done].
    + by eapply core_same.
    + intros k. apply Hrep. by right.
Qed.

Lemma notify_snapshot_kept {E} t id (Q : outcome E unit → Identity * W → Prop) i w :
  irel t (i, w) →
  (∀ i' w', irel t (i', w') → same_access_state i i' → world_time w' = world_time w →
     log_grows w w' → Q (Ok tt) (i', w')) →
  wp (notify_snapshot id) Q (i, w).
Proof.
  intros [[Hc Hr] Hl Ht Hp] HQ. eapply notify_snapshot_spec; [done| |done|done|done|].
  - intros k _. apply Hr.
  - intros i' w' Hr' Hs Htime Hlg _. by apply HQ.
Qed.

Lemma maintenance_keeps {E} t i w : irel t (i, w) →
  wp (identity_maintenance (E := E)) (λ r t', r = Ok tt ∧ irel t t') (i, w).
Proof.
  intros Hr. unfold identity_maintenance. apply wp_bind.
  eapply purge_expired_spec; [done|]. intros w1 i1 Hr1 _ _.
  apply wp_bind, wp_get, wp_bind, wp_update.
  assert (irel t (set_dirty ∅ i1, w1)) as Hr2.
  { eapply irel_state; [done|eapply core_same; [apply Hr1|done..]|done|done]. }
  apply wp_bind. eapply from_order; [done|]. intros l w2 Hr3 _ _ _. apply wp_bind.
  apply (wp_for_each _ _ (irel t)); [done| |].
  { intros [id []] [i' w'] _ Hr'. eapply notify_snapshot_kept; [done|]. by intros. }
  intros [i2 w3] Hr4. apply wp_bind, wp_get, wp_bind. eapply from_order; [done|].
  intros pending w4 Hr5 Hperm _ _.
  apply (wp_for_each_rest _ _ (λ rest t', irel t t' ∧ NoDup rest.*1 ∧
    ∀ id o, (id, o) ∈ rest → i_notifications t'.1 !! id = Some o)).
  - split; [done|]. split; [rewrite Hperm; apply NoDup_fst_map_to_list|].
    intros id o Hin. rewrite Hperm in Hin. by apply elem_of_map_to_list in Hin.
  - intros [id o] rest [i' w'] (Hr' & Hnd & Hin). simpl in Hnd, Hin.
    apply NoDup_cons in Hnd as [Hni Hnd].
    eapply send_spec; [exact Hr'|apply Hin; left|]. intros i'' w'' Hr'' _ Hcase.
    split; [done|]. split; [done|]. split; [done|]. intros k ok Hk. simpl.
    destruct Hcase as [[-> _]|[-> _]]; simpl; [apply Hin; by right|].
    rewrite lookup_delete_ne; [apply Hin; by right|].
    intros ->. apply Hni, list_elem_of_fmap. by exists (k, ok).
  - intros [i' w'] [Hr' _]. by split.
Qed.

(** ** Authorisation *)

(** What [validate] grants, at [now]. *)
Definition authorised i (sid rp_id : string) (scope : Scope) (now : Timestamp) : Prop :=
  ∃ s d, i.(i_sessions) !! sid = Some s ∧ active i s now = true ∧ s_rp_id s = rp_id
    ∧ i.(i_devices) !! s_device_id s = Some d
    ∧ match scope with
      | View => True
      | Control => (∃ g, g_control (d_grants d) = Some g ∧ now < cg_until g)
                   ∧ ∃ u, s_control_until s = Some u ∧ now < u
      | Full => full_session_enabled i.(i_policy) = true ∧ g_full (d_grants d) = true
                ∧ ∃ u, s_full_until s = Some u ∧ now < u
      end.

Lemma active_spec i s now : active i s now = true ↔
  now < enable_until i.(i_policy)
  ∧ now < after (s_created_at s) (hours i.(i_policy).(view_absolute_hours))
  ∧ now < after (s_last_seen s) (minutes i.(i_policy).(view_idle_min))
  ∧ ∃ d, i.(i_devices) !! s_device_id s = Some d ∧ d_locked d = false
      ∧ ∃ c, c ∈ d_credentials d ∧ cr_rp_id c = s_rp_id s.
Proof.
  unfold active. rewrite !andb_true_iff, !Z.ltb_lt.
  destruct (i_devices i !! s_device_id s) as [d|].
  - rewrite andb_true_iff, negb_true_iff, existsb_exists. split.
    + intros [[[? ?] ?] [Hl (c & Hin & Hc%bool_decide_eq_true)]].
      split_and!; try done. exists d. split; [done|]. split; [done|]. exists c.
      split; [by apply list_elem_of_In|done].
    + intros (? & ? & ? & x & [= <-] & Hl & c & Hin & Hc). split_and!; try done.
      exists c. split; [by apply list_elem_of_In|by apply bool_decide_eq_true].
  - split; [by intros [_ ?]|]. by intros (_ & _ & _ & d & ? & _).
Qed.

Definition touched i sid s d now : Identity :=
  set_dirty (i.(i_dirty_devices) ∪ {[s_device_id s]})
    (set_devices (<[s_device_id s := device_set_last_seen now d]> i.(i_devices))
      (set_sessions (<[sid := set_last_seen now s]> i.(i_sessions)) i)).

Lemma session_ok_seen policy devices now s :
  session_ok policy devices s → session_ok policy devices (set_last_seen now s).
Proof. intros []. by constructor. Qed.

Lemma core_touched i sid s d now : core_inv i → i.(i_sessions) !! sid = Some s →
  i.(i_devices) !! s_device_id s = Some d → core_inv (touched i sid s d now).
Proof.
  intros Hi Hs Hd. unfold touched. set (i1 := set_devices _ _).
  apply (core_same i1); [|done..]. unfold i1.
  apply (core_update_device (s_device_id s) d _ (set_sessions (<[sid := set_last_seen now s]> i.(i_sessions)) i));
    [|done|by split_and!].
  eapply core_update_session; [done|done|done|]. apply session_ok_seen. by apply (ii_session _ Hi sid).
Qed.

Lemma replica_touched i sid s d now log : i.(i_devices) !! s_device_id s = Some d →
  replica_ok d0 i log → replica_ok d0 (touched i sid s d now) log.
Proof.
  intros Hd Hr k. specialize (Hr k). unfold replica_at in *. simpl.
  destruct (decide (k = s_device_id s)) as [->|Hne]; [|by rewrite lookup_insert_ne].
  rewrite lookup_insert_eq. rewrite Hd in Hr. done.
Qed.

(** What a refusal leaves: the session is dropped if it is no longer active. *)
Definition refused i sid now : Identity :=
  match i.(i_sessions) !! sid with
  | Some s => if active i s now then i else invalidate_session sid i
  | None => i
  end.
Lemma validate_spec {E} t sid rp_id scope (Q : outcome E bool → Identity * W → Prop) i w :
  irel t (i, w) →
  (∀ (b : bool) i' w', irel t (i', w') → world_time w <= world_time w' → world_log w' = world_log w →
     (b = true ↔ authorised i sid rp_id scope (world_time w')) →
     (b = true → ∃ s d, i.(i_sessions) !! sid = Some s ∧ i.(i_devices) !! s_device_id s = Some d
        ∧ i' = touched i sid s d (world_time w')) →
     (b = false → i' = refused i sid (world_time w')) →
     Q (Ok b) (i', w')) →
  wp (validate sid rp_id scope) Q (i, w).
Proof.
  intros Hr HQ. unfold validate. apply wp_bind. eapply from_now; [done|].
  intros w' Hr' Ht Hl. apply wp_bind, wp_get.
  destruct (i_sessions i !! sid) as [s|] eqn:Hs; cycle 1.
  { apply wp_ret, HQ; try done; [|unfold refused; by rewrite Hs].
    split; [done|]. intros (s & d & Hs' & _). congruence. }
  destruct (active i s (world_time w')) eqn:Hact; cbn [negb]; cycle 1.
  { apply wp_bind, wp_update, wp_ret, HQ; try done;
      [by apply irel_invalidate_session| |unfold refused; by rewrite Hs, Hact].
    split; [done|]. intros (s' & d & Hs' & Ha & _). simplify_eq. congruence. }
  assert (i = refused i sid (world_time w')) as Hkept by (unfold refused; by rewrite Hs, Hact).
  case_bool_decide as Hrp; cbn [negb]; cycle 1.
  { apply wp_ret, HQ; try done. split; [done|].
    intros (s' & d & Hs' & _ & Hrp' & _). simplify_eq. }
  apply active_spec in Hact as Hact'. destruct Hact' as (_ & _ & _ & d & Hd & _ & _).
  apply wp_bind, wp_expect. rewrite Hd. cbn zeta.
  match goal with |- wp (if ?b then _ else _) _ _ => destruct b eqn:Hb end.
  - apply wp_ret, HQ; try done. split; [done|].
    intros (s' & d' & Hs' & _ & _ & Hd' & Hscope). simplify_eq. exfalso.
    destruct scope; simpl in Hb; [done| |].
    + destruct Hscope as [(g & Hg & Hnow) (u & Hu & Hnow')]. rewrite Hg, Hu in Hb.
      apply orb_true_iff in Hb as [Hb|Hb]; simpl in Hb; rewrite ?negb_true_iff, ?Z.ltb_ge, ?Z.leb_le in Hb; lia.
    + destruct Hscope as (Hf & Hg & u & Hu & Hnow). rewrite Hf, Hg, Hu in Hb. simpl in Hb.
      apply Z.leb_le in Hb. lia.
  - do 3 (apply wp_bind, wp_update). apply wp_ret.
    apply (HQ true (touched i sid s d (world_time w'))); try done.
    + eapply irel_state; [exact Hr'|eapply core_touched; [apply Hr'|done|done]|
        by apply replica_touched|done].
    + split; [|done]. intros _. exists s, d. split_and!; try done.
      apply orb_false_iff in Hb as [Hg%negb_false_iff Hu]. destruct scope; [done| |].
      * destruct (g_control (d_grants d)) as [g|]; [|done]. apply Z.ltb_lt in Hg. simpl in Hu.
        destruct (s_control_until s) as [u|]; [|done]. apply Z.leb_gt in Hu. split; eauto.
      * apply andb_true_iff in Hg as [Hf Hg]. simpl in Hu.
        destruct (s_full_until s) as [u|]; [|done]. apply Z.leb_gt in Hu. split_and!; eauto.
    + intros _. exists s, d. by split_and!.
Qed.

Lemma revalidate_spec {E} t ctx scope (Q : outcome E bool → Identity * W → Prop) i w :
  irel t (i, w) →
  (∀ (b : bool) i' w', irel t (i', w') → world_time w <= world_time w' → world_log w' = world_log w →
     (b = true → authorised i ctx.(ctx_session_id) ctx.(ctx_rp_id) scope (world_time w')
        ∧ ∃ s d, i.(i_sessions) !! ctx.(ctx_session_id) = Some s
            ∧ s_device_id s = ctx.(ctx_device_id)
            ∧ i.(i_devices) !! s_device_id s = Some d
            ∧ i' = touched i ctx.(ctx_session_id) s d (world_time w')) →
     Q (Ok b) (i', w')) →
  wp (revalidate ctx scope) Q (i, w).
Proof.
  intros Hr HQ. unfold revalidate. apply wp_bind, wp_get.
  destruct (i_sessions i !! ctx_session_id ctx) as [s|] eqn:Hs; [|by apply wp_ret, HQ].
  case_bool_decide as Hdev; [|by apply wp_ret, HQ].
  eapply validate_spec; [exact Hr|]. intros b i' w' Hr' Ht Hl Hiff Htrue _. apply HQ; try done.
  intros Hb. split; [by apply Hiff|]. destruct (Htrue Hb) as (s' & d & Hs' & Hd & Hi').
  rewrite Hs in Hs'. injection Hs' as <-. exists s, d. by split_and!.
Qed.

(** What a granted elevation is worth. *)
Record elevated ctx scope (until : Timestamp) (i : Identity) w : Prop := {
  el_scope : scope ≠ View;
  el_future : world_time w < until;
  el_session : ∃ s d, i.(i_sessions) !! ctx.(ctx_session_id) = Some s
    ∧ i.(i_devices) !! s_device_id s = Some d ∧ d_locked d = false
    ∧ s_rp_id s = ctx.(ctx_rp_id)
    ∧ until <= world_time w + minutes i.(i_policy).(elevation_max_min)
    ∧ until <= enable_until i.(i_policy)
    ∧ until <= after (s_created_at s) (hours i.(i_policy).(view_absolute_hours))
    ∧ match scope with
      | View => False
      | Control => s_control_until s = Some until ∧ s_control_at s = Some (world_time w)
          ∧ ∃ g, g_control (d_grants d) = Some g ∧ until <= cg_until g
      | Full => s_full_until s = Some until ∧ s_full_at s = Some (world_time w)
          ∧ full_session_enabled i.(i_policy) = true ∧ g_full (d_grants d) = true
          ∧ until <= world_time w + seconds 900
      end;
}.

Lemma elevate_spec t ctx scope (Q : outcome unit Timestamp → Identity * W → Prop) i w :
  irel t (i, w) →
  (∀ r i' w', r ≠ Panic → irel t (i', w') → world_log w' = world_log w →
     (∀ until, r = Ok until → elevated ctx scope until i' w') → Q r (i', w')) →
  wp (elevate ctx scope) Q (i, w).
Proof.
  intros Hr HQ. unfold elevate. apply wp_bind. eapply revalidate_spec; [exact Hr|].
  intros b i1 w1 Hr1 _ Hl1 _. apply wp_bind, wp_reject_if. destruct b; cbn [negb]; [|by apply HQ].
  cbn zeta. apply wp_bind. eapply from_now; [exact Hr1|]. intros w2 Hr2 Ht2 Hl2.
  rewrite <-Hl1, <-Hl2 in *. clear Hr1 Ht2. apply wp_bind, wp_get.
  apply wp_bind, wp_ok_or. destruct (i_sessions i1 !! ctx_session_id ctx) as [s|] eqn:Hs; [|by apply HQ].
  apply wp_bind, wp_reject_if. destruct (_ || _) eqn:Hbad; [by apply HQ|].
  apply orb_false_iff in Hbad as [Hrp%negb_false_iff%bool_decide_eq_true Hact%negb_false_iff].
  apply active_spec in Hact as (_ & _ & _ & d & Hd & Hlock & _).
  apply wp_bind, wp_ok_or. rewrite Hd. apply wp_bind, wp_ok_or.
  pose proof (ii_session _ (inv_core _ (ir_inv _ _ Hr2)) _ _ Hs) as Hok. simpl in Hok.
  match goal with |- match ?c with _ => _ end => destruct c as [cap|] eqn:Hcap end; [|by apply HQ].
  set (until := Z.min _ _). apply wp_bind, wp_reject_if.
  destruct (Z.leb_spec until (world_time w2)) as [|Hfut]; [by apply HQ|].
  apply wp_bind, wp_update, wp_ret.
  set (s' := match scope with Control => _ | Full => _ | View => _ end).
  assert (s_device_id s' = s_device_id s ∧ s_rp_id s' = s_rp_id s ∧ s_created_at s' = s_created_at s)
    as (Hdev & Hrp' & Hcr) by (by destruct scope).
  assert (until <= cap ∧ until <= enable_until (i_policy i1)
    ∧ until <= after (s_created_at s) (hours (view_absolute_hours (i_policy i1)))
    ∧ until <= after (world_time w2) (minutes (elevation_max_min (i_policy i1)))) as (U1 & U2 & U3 & U4).
  { unfold until. lia. }
  assert (session_ok (i_policy i1) (i_devices i1) s') as Hok'.
  { destruct Hok as [(x & Hx & Hl & Hc & Hg & Hf) Hct Hfu]. rewrite Hd in Hx. injection Hx as <-.
    constructor; [exists d; rewrite Hdev, Hrp'; split; [done|]; split; [done|]; split; [done|]; split| |];
      destruct scope; simpl; try done; intros u [= <-].
    - destruct (g_control (d_grants d)) as [g|]; [|done]. simpl in Hcap. simplify_eq. eauto.
    - apply andb_true_iff. by destruct (_ && _).
    - exists (world_time w2). by split_and!.
    - exists (world_time w2). destruct (_ && _); [|done]. simplify_eq. by split_and!. }
  apply HQ; [done| |done|].
  - eapply irel_state; [exact Hr2|eapply core_update_session; [apply Hr2|exact Hs|done|done]|done|done].
  - intros u [= <-]. constructor; [by destruct scope|done|].
    exists s', d. simpl. rewrite lookup_insert_eq, Hdev, Hrp', Hcr. split_and!; try done.
    destruct scope; simpl; [done| |].
    + destruct (g_control (d_grants d)) as [g|]; [|done]. simpl in Hcap. simplify_eq. eauto.
    + destruct (full_session_enabled _ && _) eqn:Hfull; [|done]. apply andb_true_iff in Hfull as [? ?].
      simplify_eq. unfold after in U1. by split_and!.
Qed.
End Ops.

(** * Commands, lockout, registration and login: specifications *)
Section Commands.
Context `{Base64, Crypto, Http, !Webauthn Transport, World W, !WorldLaws W}.
Context (d0 : gmap string Device).
Implicit Types (i : Identity) (w : W).
Abbreviation inv := (inv d0).
Abbreviation irel := (irel d0).

(** ** Who a request is *)

Record authenticated (headers : HeaderMap) (rp_id : string) (ctx : AuthContext) i i' now : Prop := {
  au_cookie : cookie_id headers = Some ctx.(ctx_session_id);
  au_binding : ∃ text token s, headers_get_all "x-yzc-binding" headers = [text]
    ∧ (header_to_str text ≫= decode 32) = Some token
    ∧ i.(i_sessions) !! ctx.(ctx_session_id) = Some s
    ∧ matches (s_binding_hash s) token = true
    ∧ s_device_id s = ctx.(ctx_device_id);
  au_authorised : authorised i ctx.(ctx_session_id) rp_id View now;
  au_session : ∃ s, i'.(i_sessions) !! ctx.(ctx_session_id) = Some s
    ∧ s_device_id s = ctx.(ctx_device_id);
}.

Lemma authenticate_spec t headers rp_id scope (Q : outcome unit AuthContext → Identity * W → Prop) i w :
  irel t (i, w) →
  (∀ r i' w', r ≠ Panic → irel t (i', w') → world_log w' = world_log w →
     (∀ ctx, r = Ok ctx → ctx.(ctx_rp_id) = rp_id
        ∧ authenticated headers rp_id ctx i i' (world_time w')) → Q r (i', w')) →
  wp (authenticate headers rp_id scope) Q (i, w).
Proof.
  intros Hr HQ. unfold authenticate. apply wp_bind, wp_ok_or.
  destruct (cookie_id headers) as [sid|] eqn:Hcookie; [|by apply HQ]. cbn zeta.
  apply wp_bind, wp_ok_or.
  destruct ((head (headers_get_all "x-yzc-binding" headers) ≫= header_to_str) ≫= decode 32)
    as [token|] eqn:Htoken; [|by apply HQ].
  apply wp_bind, wp_reject_if. case_bool_decide as Hone; [by apply HQ|].
  apply wp_bind, wp_get, wp_bind, wp_ok_or.
  destruct (i_sessions i !! sid) as [s|] eqn:Hs; [|by apply HQ].
  apply wp_bind. destruct (matches _ _) eqn:Hm; cycle 1.
  { apply wp_ret, wp_bind, wp_reject_if. by apply HQ. }
  eapply validate_spec; [exact Hr|]. intros b i' w' Hr' _ Hl Hiff Htrue _.
  apply wp_bind, wp_reject_if. destruct b; cbn [negb]; [|by apply HQ].
  destruct (Htrue eq_refl) as (s' & d & Hs' & Hd & ->). rewrite Hs in Hs'. injection Hs' as <-.
  apply wp_bind, wp_get, wp_bind, wp_ok_or. simpl. rewrite lookup_insert_eq.
  apply wp_ret, HQ; [done|done|done|]. intros ctx [= <-]. split; [done|]. constructor; simpl.
  - done.
  - destruct (headers_get_all "x-yzc-binding" headers) as [|text [|]]; [done| |simpl in Hone; lia].
    exists text, token, s. by split_and!.
  - by apply Hiff.
  - eexists. by rewrite lookup_insert_eq.
Qed.

(** ** Device commands *)

Lemma command_change_id command d snapshot widening name :
  command_change command d = Some (snapshot, widening, name) →
  ∀ d', snapshot = Some d' → d_device_id d' = d_device_id d ∧ d_credentials d' = d_credentials d
    ∧ (clears_failures command = false → d_locked d' = d_locked d)
    ∧ d_created_at d' = d_created_at d ∧ d_last_seen d' = d_last_seen d.
Proof.
  unfold command_change. destruct command as [v id label grants|v id|v id]; cycle 1.
  { intros Hc d' ->. simplify_eq. }
  { intros Hc d' ->. simplify_eq/=. by split_and!. }
  intros Hc d' ->.
  assert (∃ d1, (match label with
                 | Some label => if valid_label label then Some (device_set_label label d) else None
                 | None => Some d end) = Some d1
    ∧ match grants with None => d' = d1 | Some g => d' = device_set_grants g d1 end)
    as (d1 & Hd1 & Hd').
  { assert (∀ d1, match grants with
        | None => Some (Some d1, false, "device.update")
        | Some g =>
            let old := cg_until <$> g_control (d_grants d1) in
            let new := cg_until <$> g_control g in
            let tightening := option_lt new old || (negb (g_full g) && g_full (d_grants d1)) in
            let widening := option_lt old new || (g_full g && negb (g_full (d_grants d1))) in
            if tightening && widening then None
            else Some (Some (device_set_grants g d1), widening, "device.update")
        end = Some (Some d', widening, name) →
        match grants with None => d' = d1 | Some g => d' = device_set_grants g d1 end) as Hg.
    { intros d1. destruct grants; [|by intros [= <-]]. cbn zeta.
      destruct (_ && _); [done|]. by intros [= <-]. }
    destruct label as [label|].
    - destruct (valid_label label) eqn:Hv; [|by destruct grants].
      exists (device_set_label label d). split; [done|]. apply Hg.
      destruct grants; exact Hc.
    - exists d. split; [done|]. apply Hg. destruct grants; [exact Hc|done]. }
  assert (d1 = d ∨ ∃ label, d1 = device_set_label label d) as Hor.
  { destruct label as [label|]; [destruct (valid_label label); [|done]|]; simplify_eq; eauto. }
  destruct Hor as [-> | [l ->]], grants as [g|]; subst; done.
Qed.

Lemma command_change_none command d widening name :
  command_change command d = Some (None, widening, name) →
  clears_failures command = true ∧ widening = false.
Proof.
  unfold command_change. destruct command as [v id [label|] [g|]|v id|v id]; cbn zeta; try done.
  - destruct (valid_label label); [|done]. cbn [mbind option_bind]. by destruct (_ && _).
  - by destruct (valid_label label).
  - cbn [mbind option_bind]. by destruct (_ && _).
  - by intros [= <- _].
Qed.

Definition command_done (command : DeviceCommand) snapshot widening name i i' : Prop :=
  let id := command_id command in
  ∃ d,
    i.(i_devices) !! id = Some d ∧ command_change command d = Some (snapshot, widening, name)
    ∧ i'.(i_devices) = (match snapshot with
                        | Some d' => <[id := d']> i.(i_devices)
                        | None => delete id i.(i_devices)
                        end)
    ∧ (∀ sid s, i'.(i_sessions) !! sid = Some s → s_device_id s ≠ id ∧ i.(i_sessions) !! sid = Some s)
    ∧ (∀ n p, i'.(i_peers) !! n = Some p → peer_invalidated p = false →
         ∃ s, i'.(i_sessions) !! peer_session p = Some s ∧ s_device_id s ≠ id).

(** The state after the commit of a command, before its notification. *)
Definition command_commit (command : DeviceCommand) (snapshot : option Device) i : Identity :=
  let id := command_id command in
  let i := set_dirty (i.(i_dirty_devices) ∖ {[id]}) i in
  let i := if clears_failures command then set_failure_counts (delete id i.(i_failures)) i else i in
  commit id snapshot i.

Lemma commit_frame id o i : (commit id o i).(i_notifications) = i.(i_notifications)
  ∧ (commit id o i).(i_policy) = i.(i_policy)
  ∧ (commit id o i).(i_devices) = (put_device id o i).(i_devices).
Proof.
  unfold commit, invalidate_device.
  destruct (where_rest (λ s, bool_decide (s_device_id s = id)) (put_device id o i))
    as (-> & -> & _ & _ & _ & -> & _). by destruct o.
Qed.

Lemma core_command_commit command d snapshot widening name i :
  core_inv i → i.(i_devices) !! command_id command = Some d →
  command_change command d = Some (snapshot, widening, name) →
  core_inv (command_commit command snapshot i).
Proof.
  intros Hi Hd Hchange. unfold command_commit. cbn zeta. set (id := command_id command) in *.
  pose proof (command_change_id _ _ _ _ _ Hchange) as Hid.
  assert (core_inv (if clears_failures command
    then set_failure_counts (delete id i.(i_failures)) (set_dirty (i.(i_dirty_devices) ∖ {[id]}) i)
    else set_dirty (i.(i_dirty_devices) ∖ {[id]}) i)) as Hi1.
  { assert (core_inv (set_dirty (i.(i_dirty_devices) ∖ {[id]}) i)) as Hi0 by by eapply core_same.
    destruct (clears_failures command); [|done]. apply core_failures; [done|].
    intros k n [_ Hn]%lookup_delete_Some. by left. }
  apply core_commit; [exact Hi1| |].
  - intros d' ->. destruct (Hid d' eq_refl) as (Hdid & Hcreds & Hlock & _).
    rewrite Hdid. split_and!.
    + by apply (ii_device_id _ Hi).
    + left. destruct (clears_failures command); simpl; by rewrite Hd.
    + intros id' x c c' Hne Hx Hc Hc' Hk. rewrite Hcreds in Hc. apply Hne.
      assert (i.(i_devices) !! id' = Some x) as Hx' by (by destruct (clears_failures command)).
      by apply (ii_unique _ Hi id' id x d c' c).
    + intros n Hn. destruct (clears_failures command) eqn:Hclear; simpl in Hn.
      * by rewrite lookup_delete_eq in Hn.
      * rewrite (Hlock eq_refl). destruct (ii_failures _ Hi id n Hn) as (_ & x & Hx & Hor). by simplify_eq.
  - intros ->. destruct (command_change_none _ _ _ _ Hchange) as [-> _]. apply lookup_delete_eq.
Qed.

Lemma command_commit_done command d snapshot widening name i i' :
  i.(i_devices) !! command_id command = Some d →
  command_change command d = Some (snapshot, widening, name) → core_inv i' →
  same_access_state (command_commit command snapshot i) i' → command_done command snapshot widening name i i'.
Proof.
  intros Hd Hchange Hi' (Hdev & Hses & Hpeer & _).
  unfold command_commit in *. cbn zeta in *.
  set (i1 := if clears_failures command then _ else _) in *.
  assert (i_devices i1 = i_devices i ∧ i_sessions i1 = i_sessions i) as [Hd1 Hs1]
    by (unfold i1; by destruct (clears_failures command)).
  exists d. split; [done|]. split; [done|].
  assert (∀ sid s, i'.(i_sessions) !! sid = Some s → s_device_id s ≠ command_id command ∧ i.(i_sessions) !! sid = Some s) as Hsess.
  { intros sid s. rewrite Hses, commit_session, Hs1. tauto. }
  split_and!; [|exact Hsess|].
  - rewrite Hdev. destruct (commit_frame (command_id command) snapshot i1) as (_ & _ & ->).
    unfold put_device. simpl. by rewrite Hd1.
  - intros n p Hp Hl. destruct (ii_peer_live _ Hi' n p Hp Hl) as [s Hs].
    exists s. split; [done|]. by apply (Hsess _ _ Hs).
Qed.
Lemma command_commit_frame command snapshot i :
  (command_commit command snapshot i).(i_notifications) = i.(i_notifications)
  ∧ (command_commit command snapshot i).(i_policy) = i.(i_policy)
  ∧ (∀ k, (command_commit command snapshot i).(i_devices) !! k
          = if decide (k = command_id command) then snapshot else i.(i_devices) !! k).
Proof.
  unfold command_commit. cbn zeta. set (i1 := if clears_failures command then _ else _).
  destruct (commit_frame (command_id command) snapshot i1) as (-> & -> & ->).
  assert (i_notifications i1 = i_notifications i ∧ i_policy i1 = i_policy i
    ∧ i_devices i1 = i_devices i) as (-> & -> & Hd) by (unfold i1; by destruct (clears_failures command)).
  split; [done|]. split; [done|]. intros k. unfold put_device. destruct snapshot; simpl; rewrite Hd.
  - case_decide; subst; [apply lookup_insert_eq|by apply lookup_insert_ne].
  - case_decide; subst; [apply lookup_delete_eq|by apply lookup_delete_ne].
Qed.

(** The updates between the announcement and the answer are one commit. *)
Lemma commit_steps {A} command snapshot (k : M (Identity * W) Failure A)
    (Q : outcome Failure A → Identity * W → Prop) i w :
  wp k Q (command_commit command snapshot i, w) →
  wp (update (λ i, set_dirty (i.(i_dirty_devices) ∖ {[command_id command]}) i);;
      when (clears_failures command)
        (update (λ i, set_failure_counts (delete (command_id command) i.(i_failures)) i));;
      update (λ i, set_devices (match snapshot with
                                | Some device => <[command_id command := device]> i.(i_devices)
                                | None => delete (command_id command) i.(i_devices)
                                end) i);;
      update (invalidate_device (command_id command));;
      k) Q (i, w).
Proof.
  intros Hk. apply wp_bind, wp_update, wp_bind. unfold when.
  destruct (clears_failures command) eqn:Hc; (apply wp_update || apply wp_ret);
    do 2 (apply wp_bind, wp_update); unfold command_commit in Hk; rewrite Hc in Hk;
    destruct snapshot; exact Hk.
Qed.

Lemma command_spec t command (Q : outcome Failure AdminResult → Identity * W → Prop) i w :
  irel t (i, w) →
  (∀ r i' w', r ≠ Panic → irel t (i', w') →
     (∀ e, r = Err e → i' = i ∧ world_log w' = world_log w) →
     (∀ res, r = Ok res → ∃ o widening name, command_done command o widening name i i' ∧
        (res = Applied ∧ i'.(i_notifications) !! command_id command = None
           ∧ world_log w' = world_log w ++ [notification (command_id command) o]
         ∨ res = NotificationDeferred name (command_id command) ∧ widening = false
           ∧ i'.(i_notifications) !! command_id command = Some o
           ∧ world_log w' = world_log w)) →
     Q r (i', w')) →
  wp (identity_command command) Q (i, w).
Proof.
  intros Hr HQ. unfold identity_command. cbn zeta. set (id := command_id command) in *.
  apply wp_bind, wp_reject_if. case_bool_decide; [by apply HQ|].
  apply wp_bind, wp_get, wp_bind, wp_ok_or.
  destruct (i_devices i !! id) as [d|] eqn:Hd; [|by apply HQ].
  apply wp_bind, wp_ok_or.
  destruct (command_change command d) as [[[snapshot widening] name]|] eqn:Hchange; [|by apply HQ].
  pose proof (inv_core _ _ (ir_inv _ _ _ Hr)) as Hcore. simpl in Hcore.
  pose proof (core_command_commit _ _ _ _ _ _ Hcore Hd Hchange) as Hcore'.
  destruct (command_commit_frame command snapshot i) as (Hn & Hpol & Hdev).
  assert (∀ d', snapshot = Some d' → d_device_id d' = id) as Hsnap.
  { intros d' Hs. destruct (command_change_id _ _ _ _ _ Hchange d' Hs) as [-> _].
    by apply (ii_device_id _ Hcore). }
  assert (∀ log k, k ≠ id → replica_ok d0 i log → replica_at d0 (command_commit command snapshot i) log k) as Hother.
  { intros log k Hne Hrep. unfold replica_at. rewrite Hn, Hdev, decide_False by done. apply Hrep. }
  apply wp_bind. unfold when at 1. destruct widening.
  - apply wp_bind, wp_reject_if. case_bool_decide as Hpend; [by apply HQ|].
    apply eq_None_not_Some in Hpend. apply wp_try_emit_event.
    intros [] w1 Ht1 Hl1; cycle 1.
    { rewrite app_nil_r in Hl1. apply HQ; [done| |by intros|done].
      eapply irel_quiet; [done|done|lia]. }
    apply commit_steps, wp_ret. apply HQ; [done| |done|].
    + destruct Hr as [[Hc Hrep] Hlg Htm Hp]. simpl in *.
      constructor; simpl; [|etrans; [done|by eapply log_grows_app]|lia|congruence].
      constructor; simpl; [done|]. rewrite Hl1. intros k. unfold replica_at.
      rewrite replica_app. unfold replica at 1. simpl. rewrite replay_notification by done.
      rewrite Hn, Hdev. fold id. specialize (Hrep k). unfold replica_at in Hrep.
      case_decide; subst; [by rewrite Hpend|done].
    + intros res [= <-]. exists snapshot, true, name. split; [by eapply command_commit_done|].
      left. by rewrite Hn.
  - apply wp_ret, commit_steps, wp_bind, wp_update. set (i1 := set_notifications _ _).
    assert (irel t (i1, w)) as Hr1.
    { destruct Hr as [[Hc Hrep] Hlg Htm Hp]. simpl in *. constructor; simpl; [|done|done|congruence].
      constructor; simpl; [by eapply core_same|]. apply stage_replica.
      - intros k Hne. by apply Hother.
      - rewrite Hdev. fold id. by rewrite decide_True. }
    assert (command_done command snapshot false name i i1) as Hdone.
    { eapply command_commit_done; [done|done| |done]. apply Hr1. }
    apply wp_bind, wp_try_emit. intros [] w1 Ht1 Hl1.
    + apply wp_bind, wp_update, wp_ret, HQ; [done| |done|].
      * destruct Hr1 as [[Hc Hrep] Hlg Htm Hp]. simpl in *.
        constructor; simpl; [|etrans; [done|by eapply log_grows_app]|lia|done].
        constructor; simpl; [by eapply core_same|]. rewrite Hl1.
        apply (send_replica d0 i1); [done|done|apply lookup_insert_eq].
      * intros res [= <-]. exists snapshot, false, name. split; [done|]. left. split; [done|].
        by split; [apply lookup_delete_eq|].
    + rewrite app_nil_r in Hl1. apply wp_ret, HQ; [done| |done|].
      * eapply irel_quiet; [done|done|lia].
      * intros res [= <-]. exists snapshot, false, name. split; [done|]. right. do 2 (split; [done|]).
        by split; [apply lookup_insert_eq|].
Qed.

(** ** Lockout *)

Lemma core_lock i id d : core_inv i → i.(i_devices) !! id = Some d →
  core_inv (commit id (Some (device_set_locked true d)) i).
Proof.
  intros Hi Hd. apply core_commit; [done| |done]. intros d' [= <-]. split_and!.
  - exact (ii_device_id _ Hi _ _ Hd).
  - left. by eexists.
  - intros id' x c c' Hne Hx Hc Hc' Hk. apply Hne. by apply (ii_unique _ Hi id' id x d c' c).
  - by right.
Qed.

Lemma assertion_failed_spec {E} t id rollback (Q : outcome E unit → Identity * W → Prop) i w :
  irel t (i, w) →
  (∀ i' w', irel t (i', w') → world_time w' = world_time w →
     (∀ d, i.(i_devices) !! id = Some d → d_locked d = false →
        let n := default 0 (i.(i_failures) !! id) + 1 in
        (rollback = true ∨ 5 <= n →
           i'.(i_devices) !! id = Some (device_set_locked true d)
           ∧ (∀ sid s, i'.(i_sessions) !! sid = Some s → s_device_id s ≠ id))
        ∧ (rollback = false ∧ n < 5 → i'.(i_failures) !! id = Some n ∧ i'.(i_devices) = i.(i_devices)
           ∧ i'.(i_sessions) = i.(i_sessions))) →
     Q (Ok tt) (i', w')) →
  wp (assertion_failed id rollback) Q (i, w).
Proof.
  intros Hr HQ. pose proof (inv_core _ _ (ir_inv _ _ _ Hr)) as Hcore. simpl in Hcore.
  unfold assertion_failed. apply wp_bind, wp_get.
  destruct (i_devices i !! id) as [d|] eqn:Hd; [|by apply wp_ret, HQ].
  destruct (d_locked d) eqn:Hlock; [by apply wp_ret, HQ; [| |intros x [= <-]; congruence]|].
  cbn zeta. set (n := saturating_add u8_max (default 0 (i_failures i !! id)) 1).
  assert (0 <= default 0 (i_failures i !! id) < 5) as Hrange.
  { destruct (i_failures i !! id) as [m|] eqn:Hm; simpl; [|lia].
    destruct (ii_failures _ Hcore id m Hm) as (? & x & Hx & [?|Hl]); [lia|]. simplify_eq. congruence. }
  assert (n = default 0 (i_failures i !! id) + 1) as Hn.
  { apply saturating_add_small. unfold u8_max. lia. }
  apply wp_bind, wp_update, wp_when. rewrite Hn. destruct (rollback || _) eqn:Hover.
  - set (i1 := set_failure_counts _ i).
    apply wp_bind, wp_update, wp_bind, wp_update.
    set (d' := device_set_locked true d).
    change (invalidate_device id (set_devices (<[id := d']> (i_devices i1)) i1))
      with (commit id (Some d') i1).
    assert (core_inv (commit id (Some d') i1)) as Hc1.
    { assert (commit id (Some d') i1 = set_failure_counts (i_failures i1) (commit id (Some d') i)) as ->.
      { unfold commit, invalidate_device. rewrite !invalidate_where_eq. reflexivity. }
      apply core_failures; [by apply core_lock|]. intros k m Hm. simpl in Hm.
      destruct (commit_frame id (Some d') i) as (_ & _ & Hdev).
      assert (i_failures (commit id (Some d') i) = i_failures i) as Hf.
      { unfold commit, invalidate_device. by destruct (where_rest (λ s, bool_decide (s_device_id s = id))
          (put_device id (Some d') i)) as (_ & _ & _ & -> & _). }
      rewrite Hf, Hdev. destruct (decide (k = id)) as [->|Hne].
      - right. rewrite lookup_insert_eq in Hm. injection Hm as <-. split; [lia|].
        exists d'. split; [apply lookup_insert_eq|by right].
      - left. by rewrite lookup_insert_ne in Hm. }
    destruct (commit_frame id (Some d') i1) as (Hnot & Hpol & Hdev).
    eapply notify_snapshot_spec; [exact Hc1| |apply Hr|apply Hr|rewrite Hpol; apply Hr|].
    + intros k [Hne|Hnone]; unfold replica_at; rewrite Hnot, Hdev in *; simpl in *.
      * rewrite lookup_insert_ne by done. apply Hr.
      * by rewrite lookup_insert_eq in Hnone.
    + intros i' w' Hr' (Hdv & Hss & _) Ht' _ _. apply HQ; [done|done|].
      intros x [= <-] _. split; [|intros [-> Hlt]; simpl in Hover; lia].
      intros _. rewrite Hdv, Hdev, Hss. split; [simpl; apply lookup_insert_eq|].
      intros sid s Hs%commit_session. by destruct Hs.
  - apply orb_false_iff in Hover as [-> Hlt%Z.leb_gt]. apply HQ; [|done|].
    + eapply irel_state; [exact Hr| |done|done]. apply core_failures; [done|].
      intros k m Hm. destruct (decide (k = id)) as [->|Hne].
      * right. rewrite lookup_insert_eq in Hm. injection Hm as <-. split; [lia|].
        exists d. split; [done|left; lia].
      * left. by rewrite lookup_insert_ne in Hm.
    + intros x [= <-] _. split; [intros [?|?]; [done|lia]|]. intros _.
      split; [simpl; apply lookup_insert_eq|done].
Qed.
End Commands.
