(* ===== verification/SessionLogin.v ===== *)
(** * Registration, login and elevation: specifications *)

From stdpp Require Import base gmap strings list fin_maps fin_sets.
From Stdlib Require Import ZArith Lia.
From S2P Require Import Prelude Rust Externals Clock Devices Admin Events World.
From S2P Require Import Pairing PairingFacts Webauthn WebauthnFacts.
From S2P Require Import Session SessionInv SessionOps.

Local Open Scope Z_scope.

Lemma update_first_keys {A B} (p : A → bool) (f : A → A) (key : A → B) l l' :
  (∀ x, key (f x) = key x) → update_first p f l = Some l' → key <$> l' = key <$> l.
Proof.
  intros Hf. revert l'. induction l as [|x l IH]; intros l'; [done|]. simpl.
  destruct (p x); [intros [= <-]; simpl; by rewrite Hf|].
  intros (l0 & Hl0 & ->)%fmap_Some. rewrite !fmap_cons. f_equal. by apply IH.
Qed.
Lemma update_first_some {A} (p : A → bool) (f : A → A) l x :
  x ∈ l → p x = true → is_Some (update_first p f l).
Proof.
  induction l as [|y l IH]; intros Hin Hp; [by apply not_elem_of_nil in Hin|]. simpl.
  destruct (p y) eqn:Hy; [by eexists|]. apply elem_of_cons in Hin as [->|Hin]; [congruence|].
  destruct (IH Hin Hp) as [l' ->]. by eexists.
Qed.
Lemma min_by_key_some {A} (f : A → Z) l x : x ∈ l → is_Some (min_by_key f l).
Proof. destruct l; [by intros ?%not_elem_of_nil|by eexists]. Qed.

Section Login.
Context `{Base64, Crypto, Http, !Webauthn Transport, World W, !WorldLaws W}.
Context (d0 : gmap string Device).
Implicit Types (i : Identity) (w : W).
Abbreviation irel := (irel d0).

(** ** A verified assertion *)

Lemma assertion_verified_spec {E} t id cid rp_id verified
    (Q : outcome E unit → Identity * W → Prop) i w d c :
  irel t (i, w) → i.(i_devices) !! id = Some d → c ∈ d_credentials d →
  cr_id c = cid → cr_rp_id c = rp_id →
  (∀ i' w' d', irel t (i', w') → world_time w <= world_time w' →
     i'.(i_devices) !! id = Some d' → same_access d d' →
     i'.(i_sessions) = i.(i_sessions) → i'.(i_failures) !! id = None → Q (Ok tt) (i', w')) →
  wp (assertion_verified id cid rp_id verified) Q (i, w).
Proof.
  intros Hr Hd Hc Hcid Hrp HQ. pose proof (inv_core _ _ (ir_inv _ _ _ Hr)) as Hcore. simpl in Hcore.
  unfold assertion_verified. apply wp_bind, wp_get, wp_bind, wp_expect. rewrite Hd.
  set (p := λ c, bool_decide (cr_id c = cid) && bool_decide (cr_rp_id c = rp_id)).
  set (f := λ c, mkCredential _ _ _ _ _ _ _ _).
  assert (is_Some (update_first p f (d_credentials d))) as [creds Hcreds].
  { eapply update_first_some; [exact Hc|]. unfold p. by rewrite !bool_decide_true. }
  apply wp_bind, wp_expect. rewrite Hcreds. apply wp_bind. eapply from_now; [exact Hr|].
  intros w1 Hr1 Ht1 Hl1. set (d' := device_set_last_seen (world_time w1) (device_set_credentials creds d)).
  assert (same_access d d') as Hsame.
  { split_and!; try done. simpl. by eapply update_first_keys; [|exact Hcreds]. }
  apply wp_bind, wp_update, wp_bind, wp_update.
  set (i1 := set_devices _ i). set (i2 := set_failure_counts _ i1).
  assert (core_inv i2) as Hc2.
  { apply core_failures; [by eapply core_update_device|]. intros k n [_ Hn]%lookup_delete_Some. by left. }
  eapply (notify_snapshot_spec d0 t); [exact Hc2| |apply Hr1|apply Hr1|apply Hr1|].
  - intros k [Hne|Hnone]; unfold replica_at; simpl in *.
    + rewrite lookup_insert_ne by done. apply Hr1.
    + by rewrite lookup_insert_eq in Hnone.
  - intros i' w' Hr' (Hdv & Hss & _ & _ & Hf & _) Ht' _ _.
    apply (HQ i' w' d'); [done|lia| |done|by rewrite Hss|].
    + rewrite Hdv. simpl. apply lookup_insert_eq.
    + rewrite Hf. simpl. apply lookup_delete_eq.
Qed.

(** ** A new session *)

Definition fresh_session device_id rp_id now binding : Session :=
  mkSession device_id rp_id now now None None None None (hash binding).

Lemma sessions_of_delete id sid s i : i.(i_sessions) !! sid = Some s → s_device_id s = id →
  sessions_of id (invalidate_session sid i) = Nat.pred (sessions_of id i).
Proof.
  intros Hs Hd. unfold sessions_of, invalidate_session. simpl.
  rewrite map_filter_delete, map_size_delete_Some; [done|].
  exists s. by apply map_lookup_filter_Some.
Qed.

Lemma issue_session_spec t id rp_id (Q : outcome Failure (string * string) → Identity * W → Prop) i w d :
  irel t (i, w) → i.(i_devices) !! id = Some d → d_locked d = false →
  (∃ c, c ∈ d_credentials d ∧ cr_rp_id c = rp_id) →
  (∀ r i' w', r ≠ Panic → irel t (i', w') → world_time w <= world_time w' →
     (∀ sid binding, r = Ok (sid, binding) → ∃ b, len b = 32 ∧ len sid = 32 ∧ binding = encode b
        ∧ i'.(i_sessions) !! sid = Some (fresh_session id rp_id (world_time w') b)) →
     Q r (i', w')) →
  wp (issue_session id rp_id) Q (i, w).
Proof.
  intros Hr Hd Hlock Hcred HQ. unfold issue_session. apply wp_bind.
  eapply (purge_expired_spec d0 t); [exact Hr|]. intros w1 i1 Hr1 Ht1 Hl1.
  assert (i_devices i1 = i_devices i) as Hd1 by apply where_rest.
  apply wp_bind, wp_get, wp_bind. eapply from_now; [exact Hr1|]. intros w2 Hr2 Ht2 Hl2.
  apply wp_bind, wp_reject_if. destruct (_ <=? _); [by apply HQ; [| |lia|]|].
  apply wp_bind. eapply from_entropy; [exact Hr2|done|]. intros o1 w3 Hr3 Hlen1 Ht3 Hl3.
  apply wp_bind, wp_ok_or. destruct o1 as [b|]; [|by apply HQ; [| |lia|]].
  apply wp_bind. eapply from_entropy; [exact Hr3|done|]. intros o2 w4 Hr4 Hlen2 Ht4 Hl4.
  apply wp_bind, wp_ok_or. destruct o2 as [sid|]; [|by apply HQ; [| |lia|]].
  apply wp_bind.
  assert (∀ i2 w5, irel t (i2, w5) → world_time w <= world_time w5 → i_devices i2 = i_devices i →
    (sessions_of id i2 < 4)%nat →
    wp (let! i := get in
        reject_if (bool_decide (session_limit i ≤ size i.(i_sessions))%nat) SESSION_LIMIT;;
        let! now := clock_read in
        update (λ i, set_sessions (<[sid := mkSession id rp_id now now None None None None
                                        (hash b)]> i.(i_sessions)) i);;
        ret (sid, encode b)) Q (i2, w5)) as Hinsert.
  { intros i2 w5 Hr5 Ht5 Hd2 Hfew. apply wp_bind, wp_get, wp_bind, wp_reject_if.
    case_bool_decide as Hfull; [by apply HQ|].
    apply wp_bind. eapply from_now; [exact Hr5|]. intros w6 Hr6 Ht6 Hl6.
    apply wp_bind, wp_update, wp_ret. apply HQ; [done| |lia|].
    - eapply irel_state; [exact Hr6| |done|done]. apply core_add_session; [apply Hr6| |lia|done].
      constructor; simpl; [|done|done]. exists d. rewrite Hd2. by split_and!.
    - intros ? ? [= <- <-]. exists b. simpl. rewrite lookup_insert_eq. split_and!; auto. }
  case_bool_decide as Hfour; cycle 1.
  { apply wp_ret. apply Hinsert; [done|lia|done|]. unfold sessions_of. lia. }
  apply wp_bind. eapply from_order; [exact Hr4|]. intros l w5 Hr5 Hperm Ht5 Hl5.
  apply wp_bind, wp_expect.
  assert (∀ sid s, (sid, s) ∈ filter (λ e : string * Session, s_device_id e.2 = id) l ↔
    i_sessions i1 !! sid = Some s ∧ s_device_id s = id) as Hin.
  { intros k s. rewrite list_elem_of_filter, Hperm, elem_of_map_to_list. simpl. tauto. }
  destruct (min_by_key _ _) as [[old s]|] eqn:Hmin; cycle 1.
  { exfalso. assert (∃ k s, filter (λ e : string * Session, s_device_id e.2 = id) (i_sessions i1) !! k = Some s)
      as (k & s & Hks).
    { apply map_choose. intros Hz. rewrite Hz, map_size_empty in Hfour. lia. }
    apply map_lookup_filter_Some, Hin in Hks.
    destruct (min_by_key_some (λ e, s_created_at e.2) _ _ Hks) as [? Hm]. congruence. }
  apply min_by_key_elem, Hin in Hmin as [Hs Hsd]. apply wp_update. simpl.
  apply Hinsert; [by apply irel_invalidate_session|lia|done|].
  rewrite (sessions_of_delete id old s) by done.
  pose proof (ii_session_device _ (inv_core _ _ (ir_inv _ _ _ Hr5)) id) as Hle. simpl in Hle. lia.
Qed.

(** ** Registration *)

Record registered (pairing : Registration) (verified : VerifiedRegistration) (id : string) i w i' w' : Prop := {
  re_id : id = vr_device_id verified;
  re_time : world_time w < i.(i_policy).(enable_until) ∧ world_time w < rg_deadline pairing;
  re_device : ∃ d, i'.(i_devices) = <[id := d]> i.(i_devices) ∧ device_valid d = true
    ∧ last (d_credentials d) = Some (vr_record verified)
    ∧ match rg_add_to_device pairing with
      | Some target => target = id ∧ ∃ old, i.(i_devices) !! id = Some old ∧ d_locked old = false
          ∧ d = device_set_credentials (d_credentials old ++ [vr_record verified]) old
      | None => i.(i_devices) !! id = None ∧ (size i.(i_devices) < Z.to_nat i.(i_policy).(max_devices))%nat
          ∧ i.(i_notifications) = ∅ ∧ d_credentials d = [vr_record verified]
          ∧ d_label d = rg_device_label pairing ∧ d_grants d = mkGrants None false ∧ d_locked d = false
      end;
  re_new : ∀ k x c, i.(i_devices) !! k = Some x → c ∈ d_credentials x →
    credential_key c ≠ credential_key (vr_record verified);
  re_announced : ∃ d, last (world_log w') = Some (if bool_decide (is_Some (rg_add_to_device pairing))
                                                 then device_updated d else device_registered d)
    ∧ i'.(i_devices) !! id = Some d;
  re_sessions : ∀ sid s, i'.(i_sessions) !! sid = Some s → s_device_id s ≠ id;
}.

Lemma announce_commit t i w id d e w' :
  irel t (i, w) → i.(i_notifications) !! id = None → d_device_id d = id →
  core_inv (commit id (Some d) i) →
  (e = device_updated d ∨ e = device_registered d) →
  world_time w' = world_time w → world_log w' = world_log w ++ [e] →
  irel t (commit id (Some d) i, w').
Proof.
  intros [[Hc Hrep] Hlg Htm Hp] Hno Hid Hcore He Ht Hl. simpl in *.
  destruct (commit_frame id (Some d) i) as (Hn & Hpol & Hdev).
  constructor; simpl; [|etrans; [done|by eexists]|lia|congruence].
  constructor; simpl; [done|]. rewrite Hl. intros k. unfold replica_at.
  rewrite replica_app. unfold replica at 1. simpl. rewrite Hn, Hdev. simpl.
  assert (replay (replica d0 (world_log w)) e = <[id := d]> (replica d0 (world_log w))) as ->.
  { destruct He as [-> | ->]; unfold replay; simpl; by rewrite Hid. }
  specialize (Hrep k). unfold replica_at in Hrep. destruct (decide (k = id)) as [->|Hne].
  - by rewrite Hno, !lookup_insert_eq.
  - by rewrite !lookup_insert_ne by done.
Qed.

Lemma new_credential l i record : l ≡ₚ map_to_list i.(i_devices) →
  existsb (λ e : string * Device, existsb (λ c, bool_decide (cr_id c = cr_id record)
            && bool_decide (cr_rp_id c = cr_rp_id record)) (d_credentials e.2)) l = false →
  ∀ k x c, i.(i_devices) !! k = Some x → c ∈ d_credentials x → credential_key c ≠ credential_key record.
Proof.
  intros Hperm Hno k x c Hx Hc Hk. unfold credential_key in Hk. injection Hk as Hrp Hid.
  assert (existsb (λ e : string * Device, existsb (λ c, bool_decide (cr_id c = cr_id record)
            && bool_decide (cr_rp_id c = cr_rp_id record)) (d_credentials e.2)) l = true); [|congruence].
  apply existsb_exists. exists (k, x). split.
  - apply list_elem_of_In. rewrite Hperm. by apply elem_of_map_to_list.
  - apply existsb_exists. exists c. split; [by apply list_elem_of_In|]. by rewrite !bool_decide_true.
Qed.

Lemma core_registered i id d old record : core_inv i → d_device_id d = id →
  (∀ k x c, i.(i_devices) !! k = Some x → c ∈ d_credentials x → credential_key c ≠ credential_key record) →
  (match old with
   | Some o => i.(i_devices) !! id = Some o ∧ d_locked o = false
       ∧ d_credentials d = d_credentials o ++ [record] ∧ d_locked d = d_locked o
   | None => i.(i_devices) !! id = None ∧ (size i.(i_devices) < Z.to_nat i.(i_policy).(max_devices))%nat
       ∧ d_credentials d = [record]
   end) →
  core_inv (commit id (Some d) i).
Proof.
  intros Hi Hid Hnew Hold. apply core_commit; [done| |done]. intros d' [= <-].
  assert (∀ c, c ∈ d_credentials d → c = record ∨
    ∃ o, i_devices i !! id = Some o ∧ c ∈ d_credentials o) as Hcred.
  { intros c Hc. destruct old as [o|]; destruct Hold as (Ho & ? & Hcr & _) || destruct Hold as (Ho & ? & Hcr);
      rewrite Hcr in Hc; [apply elem_of_app in Hc as [|Hc%list_elem_of_singleton]; eauto|].
    apply list_elem_of_singleton in Hc. by left. }
  split; [done|]. split; [|split].
  - destruct old as [o|]; [left; destruct Hold as [-> _]; by eexists|right; apply Hold].
  - intros id' x c c' Hne Hx Hc Hc' Hk. destruct (Hcred c Hc) as [->|(o & Ho & Hco)].
    + by apply (Hnew id' x c').
    + apply Hne. by apply (ii_unique _ Hi id' id x o c' c).
  - intros n Hn. destruct (ii_failures _ Hi id n Hn) as (_ & x & Hx & Hor).
    destruct old as [o|]; [|destruct Hold; congruence].
    destruct Hold as (Ho & Hl & _ & ->). simplify_eq. destruct Hor; [by left|congruence].
Qed.

Lemma register_verified_spec t pairing verified (Q : outcome Failure string → Identity * W → Prop) i w :
  irel t (i, w) →
  (∀ r i' w', r ≠ Panic → irel t (i', w') →
     (∀ e, r = Err e → i' = i ∧ world_log w' = world_log w) →
     (∀ id, r = Ok id → registered pairing verified id i w i' w') → Q r (i', w')) →
  wp (register_verified pairing verified) Q (i, w).
Proof.
  intros Hr HQ. pose proof (inv_core _ _ (ir_inv _ _ _ Hr)) as Hcore. simpl in Hcore.
  unfold register_verified. cbn zeta. set (id := vr_device_id verified). set (record := vr_record verified).
  apply wp_bind, wp_get, wp_bind. eapply from_now; [exact Hr|]. intros w1 Hr1 Ht1 Hl1.
  apply wp_bind. destruct (Z.leb_spec (enable_until (i_policy i)) (world_time w1)) as [|Hen].
  { apply wp_ret, wp_bind, wp_reject_if. by apply HQ. }
  apply wp_bind. eapply from_now; [exact Hr1|]. intros w2 Hr2 Ht2 Hl2.
  apply wp_ret, wp_bind, wp_reject_if.
  destruct (Z.leb_spec (rg_deadline pairing) (world_time w2)) as [|Hdl].
  { apply HQ; try done. intros _ _. split; [done|congruence]. }
  apply wp_bind. eapply from_order; [exact Hr2|]. intros l w3 Hr3 Hperm Ht3 Hl3.
  assert (world_log w3 = world_log w) as Hlog by congruence. clear Hr1 Hr2 Hl1 Hl2 Hl3.
  apply wp_bind, wp_reject_if. destruct (existsb _ l) eqn:Hex; [by apply HQ|].
  pose proof (new_credential l i record Hperm Hex) as Hnew. clear Hex Hperm.
  apply wp_bind.
  assert (∀ device old w4, irel t (i, w4) → world_log w4 = world_log w →
    d_device_id device = id → i_notifications i !! id = None →
    (match rg_add_to_device pairing, old with
     | Some target, Some o => target = id ∧ i_devices i !! id = Some o ∧ d_locked o = false ∧ device = o
     | None, None => i_devices i !! id = None ∧ (size (i_devices i) < Z.to_nat (max_devices (i_policy i)))%nat
         ∧ i_notifications i = ∅ ∧ d_credentials device = [] ∧ d_label device = rg_device_label pairing
         ∧ d_grants device = mkGrants None false ∧ d_locked device = false
     | _, _ => False
     end) →
    wp (let device := device_set_credentials (d_credentials device ++ [record]) device in
        reject_if (negb (device_valid device)) REJECTED;;
        try_emit_event (if bool_decide (is_Some (rg_add_to_device pairing))
                        then device_updated device else device_registered device);;
        update (λ i, set_devices (<[id := device]> i.(i_devices)) i);;
        update (invalidate_device id);;
        ret id) Q (i, w4)) as Hwrite.
  { intros device old w4 Hr4 Hl4 Hid Hno Hold. cbn zeta.
    set (d := device_set_credentials (d_credentials device ++ [record]) device).
    apply wp_bind, wp_reject_if. destruct (device_valid d) eqn:Hvalid; cbn [negb]; [|by apply HQ].
    apply wp_bind, wp_try_emit_event. set (ev := if bool_decide _ then _ else _).
    intros [] w5 Ht5 Hl5; cycle 1.
    { rewrite app_nil_r in Hl5. apply HQ; [done| |by intros; split; congruence|done].
      eapply irel_quiet; [exact Hr4|done|lia]. }
    apply wp_bind, wp_update, wp_bind, wp_update, wp_ret.
    change (invalidate_device id (set_devices (<[id := d]> (i_devices i)) i)) with (commit id (Some d) i).
    destruct (commit_frame id (Some d) i) as (_ & _ & Hdev).
    apply HQ; [done| |done|].
    - eapply announce_commit; [exact Hr4|done|done| | |done|exact Hl5].
      + apply (core_registered i id d old record); [done|done|done|].
        destruct (rg_add_to_device pairing), old; try done.
        * destruct Hold as (_ & Ho & Hlk & ->). by split_and!.
        * destruct Hold as (Ho & Hsz & _ & Hcr & _). split_and!; try done. simpl. by rewrite Hcr.
      + unfold ev. case_bool_decide; auto.
    - intros ? [= <-]. constructor.
      + done.
      + lia.
      + exists d. rewrite Hdev. split; [done|]. split; [done|].
        split; [simpl; apply last_snoc|].
        destruct (rg_add_to_device pairing), old; try done.
        * destruct Hold as (-> & Ho & Hlk & ->). split; [done|]. eauto.
        * destruct Hold as (Ho & Hsz & Hnot & Hcr & Hlb & Hg & Hlk). split_and!; try done. simpl. by rewrite Hcr.
      + exact Hnew.
      + exists d. rewrite Hl5, last_snoc. split; [done|]. rewrite Hdev. simpl. apply lookup_insert_eq.
      + intros sid s Hs%commit_session. apply Hs. }
  destruct (rg_add_to_device pairing) as [target|] eqn:Htarget.
  - apply wp_bind, wp_reject_if. destruct (bool_decide (target = id)) eqn:Heq; cbn [negb]; [|by apply HQ].
    apply bool_decide_eq_true in Heq. apply wp_bind, wp_reject_if.
    destruct (bool_decide (is_Some (i_notifications i !! target))) eqn:Hpend; [by apply HQ|].
    apply bool_decide_eq_false, eq_None_not_Some in Hpend. apply wp_ok_or.
    destruct (registration_target target i) as [o|] eqn:Ht; [|by apply HQ].
    unfold registration_target in Ht. destruct (i_devices i !! target) as [o'|] eqn:Ho; [|done].
    simpl in Ht. destruct (negb (d_locked o') && _) eqn:Hok; [|done]. injection Ht as ->.
    apply andb_true_iff in Hok as [Hlk%negb_true_iff _]. subst target.
    apply (Hwrite o (Some o)); [done|done| |done|by split_and!].
    by apply (ii_device_id _ Hcore).
  - apply wp_bind, wp_reject_if.
    destruct (bool_decide (size (i_notifications i) = 0%nat)) eqn:Hempty; cbn [negb]; [|by apply HQ].
    apply bool_decide_eq_true, map_size_empty_iff in Hempty.
    apply wp_bind, wp_reject_if. destruct (_ || _) eqn:Hfull; [by apply HQ|].
    apply orb_false_iff in Hfull as [Hsz%bool_decide_eq_false Hno%bool_decide_eq_false].
    apply eq_None_not_Some in Hno. apply wp_bind. eapply from_now; [exact Hr3|].
    intros w4 Hr4 Ht4 Hl4. apply wp_ret. apply (Hwrite _ None); try done; [congruence| |].
    + by rewrite Hempty, lookup_empty.
    + split_and!; try done. lia.
Qed.

(** ** The end of an assertion *)

(** The assertion was verified for the device [id] with its credential [c]. *)
Record verified_for (rp : RelyingParty) state response id scope i (v : VerifiedAssertion) : Prop := {
  vf_record : ∃ d c, i.(i_devices) !! id = Some d ∧ d_locked d = false ∧ c ∈ d_credentials d
    ∧ cr_rp_id c = rp_host rp
    ∧ value_get "rawId" response ≫= as_str = Some (cr_id c)
    ∧ verify_assertion rp state response id c i.(i_policy).(passkey_binding) scope = inr v;
}.

Lemma verdict_verified rp state response id scope i v :
  assertion_verdict rp state response id scope i = inr v → verified_for rp state response id scope i v.
Proof.
  unfold assertion_verdict. destruct (i_devices i !! id) as [d|] eqn:Hd; [|done].
  destruct (d_locked d) eqn:Hl; [done|].
  destruct (assertion_record rp response d) as [c|] eqn:Hc; [|done]. intros Hv.
  apply List.find_some in Hc as [Hin [Hrp Hid]%andb_true_iff].
  apply bool_decide_eq_true in Hrp, Hid. constructor. exists d, c.
  split_and!; try done. by apply list_elem_of_In.
Qed.

Lemma verdict_unlocked rp state response id scope i e :
  assertion_verdict rp state response id scope i = inl e → e ≠ Invalid →
  ∃ d, i.(i_devices) !! id = Some d ∧ d_locked d = false.
Proof.
  unfold assertion_verdict. destruct (i_devices i !! id) as [d|]; [|by intros [= <-]].
  destruct (d_locked d) eqn:Hl; [by intros [= <-]|]. eauto.
Qed.

(** [value["rawId"]] and [value.get("rawId")] read the same string. *)
Lemma raw_id_index response raw :
  value_get "rawId" response ≫= as_str = Some raw → as_str (value_index "rawId" response) = Some raw.
Proof. unfold value_index. by destruct (value_get "rawId" response). Qed.

Lemma assertion_owner_spec {E} t response host (Q : outcome E (option string) → Identity * W → Prop) i w :
  irel t (i, w) →
  (∀ o w', irel t (i, w') → world_time w' = world_time w → world_log w' = world_log w →
     (∀ id, o = Some id → ∃ d c, i.(i_devices) !! id = Some d ∧ c ∈ d_credentials d
        ∧ cr_rp_id c = host ∧ value_get "rawId" response ≫= as_str = Some (cr_id c)) →
     Q (Ok o) (i, w')) →
  wp (assertion_owner response host) Q (i, w).
Proof.
  intros Hr HQ. unfold assertion_owner.
  destruct (value_get "rawId" response ≫= as_str) as [raw|]; [|by apply wp_ret, HQ].
  apply wp_bind, wp_get, wp_bind. eapply from_order; [exact Hr|]. intros l w1 Hr1 Hperm Ht Hl.
  apply wp_ret, HQ; [done|done|done|]. intros id (e & He & ->)%fmap_Some. simpl.
  apply List.find_some in He as [Hin Hex]. apply list_elem_of_In in Hin. rewrite Hperm in Hin.
  destruct e as [k d]. apply elem_of_map_to_list in Hin. simpl in *.
  apply existsb_exists in Hex as (c & Hc & [Hcid Hrp]%andb_true_iff).
  apply bool_decide_eq_true in Hcid, Hrp. subst.
  rewrite (ii_device_id _ (inv_core _ _ (ir_inv _ _ _ Hr)) k d Hin).
  exists d, c. split_and!; try done. by apply list_elem_of_In.
Qed.

(** What a call of [finish_assertion] means. *)
Record assertion_finished (rp : RelyingParty) state response (ctx : option (AuthContext * Scope))
    (r : outcome Failure AssertionResult) i (w : W) i' w' : Prop := {
  af_login sid binding id : r = Ok (LoggedIn sid binding id) →
    ctx = None ∧ (∃ v, verified_for rp state response id View i v)
    ∧ as_str (value_index "userHandle" (value_index "response" response)) = Some id
    ∧ ∃ b now, len b = 32 ∧ len sid = 32 ∧ binding = encode b ∧ world_time w <= now <= world_time w'
        ∧ i'.(i_sessions) !! sid = Some (fresh_session id (rp_host rp) now b);
  af_elevated until : r = Ok (Elevated until) →
    ∃ c scope, ctx = Some (c, scope)
    ∧ (∃ v, verified_for rp state response c.(ctx_device_id) scope i v)
    ∧ elevated c scope until i' w';
  af_rollback c scope : ctx = Some (c, scope) →
    assertion_verdict rp state response c.(ctx_device_id) scope i = inl Rollback →
    r = Err REJECTED
    ∧ (∃ d, i'.(i_devices) !! c.(ctx_device_id) = Some d ∧ d_locked d = true)
    ∧ ∀ sid s, i'.(i_sessions) !! sid = Some s → s_device_id s ≠ c.(ctx_device_id);
  af_invalid c scope : ctx = Some (c, scope) →
    assertion_verdict rp state response c.(ctx_device_id) scope i = inl Invalid →
    r = Err REJECTED ∧ i' = i ∧ world_log w' = world_log w;
}.

Lemma finish_verdict t rp state response id scope ctx i w
    (Q : outcome Failure AssertionResult → Identity * W → Prop) :
  irel t (i, w) →
  match ctx with
  | Some (c, sc) => id = c.(ctx_device_id) ∧ scope = sc
  | None => scope = View ∧ as_str (value_index "userHandle" (value_index "response" response)) = Some id
  end →
  (∀ r i' w', r ≠ Panic → irel t (i', w') →
     assertion_finished rp state response ctx r i w i' w' → Q r (i', w')) →
  wp (match assertion_verdict rp state response id scope i with
      | inl error =>
          when (bool_decide (error = PolicyViolation) || bool_decide (error = Rollback))
            (assertion_failed id (bool_decide (error = Rollback)));;
          throw REJECTED
      | inr verified =>
          let! raw_id := ok_or REJECTED (as_str (value_index "rawId" response)) in
          assertion_verified id raw_id rp.(rp_host) verified;;
          match ctx with
          | Some (ctx, scope) =>
              let! until := map_err (λ _, SCOPE_NOT_GRANTED) (elevate ctx scope) in
              ret (Elevated until)
          | None =>
              let! '(session, binding) := issue_session id rp.(rp_host) in
              ret (LoggedIn session binding id)
          end
      end) Q (i, w).
Proof.
  intros Hr Hctx HQ. destruct (assertion_verdict rp state response id scope i) as [e|v] eqn:Hv.
  - apply wp_bind, wp_when. destruct (_ || _) eqn:Hlate.
    + eapply assertion_failed_spec; [exact Hr|]. intros i' w' Hr' Ht Hlock. apply wp_throw.
      apply HQ; [done|done|]. constructor; [done|done| |]; intros c sc ->; destruct Hctx as [-> ->];
        rewrite Hv; intros [= ->]; [|done]. split; [done|].
      destruct (verdict_unlocked _ _ _ _ _ _ _ Hv) as (d & Hd & Hl); [done|].
      destruct (Hlock d Hd Hl) as [Hyes _]. destruct Hyes as [Hd' Hs]; [by left|].
      split; [|exact Hs]. exists (device_set_locked true d). by split.
    + apply wp_throw, HQ; [done|done|].
      constructor; [done|done| |]; intros c sc ->; destruct Hctx as [-> ->]; rewrite Hv; intros [= ->];
        [done|by split_and!].
  - apply verdict_verified in Hv as Hvf. pose proof Hvf as [(d & c & Hd & Hlk & Hc & Hrp & Hraw & _)].
    apply wp_bind, wp_ok_or. rewrite (raw_id_index _ _ Hraw).
    apply wp_bind. eapply assertion_verified_spec; [exact Hr|exact Hd|exact Hc|done|done|].
    intros i1 w1 d1 Hr1 Ht1 Hd1 Hsame Hs1 _. destruct ctx as [[c' sc]|].
    + destruct Hctx as [-> ->]. apply wp_bind, wp_map_err. eapply elevate_spec; [exact Hr1|].
      intros r i' w' Hnp Hr' _ Hel. destruct r as [until| |]; [|by apply HQ; [| |constructor; try done; intros ?? [= <- <-]; rewrite Hv]|done].
      apply wp_ret, HQ; [done|done|]. constructor; [done| | |].
      * intros u [= <-]. exists c', sc. split; [done|]. split; [by exists v|]. by apply Hel.
      * intros ?? [= <- <-]. by rewrite Hv.
      * intros ?? [= <- <-]. by rewrite Hv.
    + destruct Hctx as [-> Hhandle]. apply wp_bind. eapply issue_session_spec; [exact Hr1|exact Hd1| | |].
      * destruct Hsame as (_ & -> & _). done.
      * destruct (same_access_credential d1 d c (same_access_sym _ _ Hsame) Hc) as (c1 & Hc1 & Hk).
        exists c1. split; [done|]. unfold credential_key in Hk. congruence.
      * intros r i' w' Hnp Hr' Ht' Hok. destruct r as [[sid b]| |]; [|by apply HQ|done].
        apply wp_ret, HQ; [done|done|]. constructor; [|done..].
        intros ? ? ? [= <- <- <-]. split; [done|]. split; [by exists v|]. split; [done|].
        destruct (Hok _ _ eq_refl) as (b' & Hb & Hsid & -> & Hses).
        exists b', (world_time w'). split_and!; try done; lia.
Qed.

Lemma finish_assertion_spec t rp state response ctx
    (Q : outcome Failure AssertionResult → Identity * W → Prop) i w :
  irel t (i, w) →
  (∀ r i' w', r ≠ Panic → irel t (i', w') →
     assertion_finished rp state response ctx r i w i' w' → Q r (i', w')) →
  wp (finish_assertion rp state response ctx) Q (i, w).
Proof.
  intros Hr HQ. unfold finish_assertion. apply wp_bind. destruct ctx as [[c scope]|].
  - apply wp_ret. cbn zeta. apply wp_bind, wp_get. 
    eapply (finish_verdict t rp state response _ scope (Some (c, scope))); [exact Hr|done|done].
  - apply wp_bind. eapply assertion_owner_spec; [exact Hr|]. intros o w1 Hr1 Ht1 _ _.
    apply wp_bind, wp_ok_or. destruct o as [id|]; [|by apply HQ]. cbn zeta.
    apply wp_bind, wp_reject_if. case_bool_decide as Hh; cbn [negb]; [|by apply HQ].
    apply wp_ok_or. rewrite Hh. apply wp_bind, wp_get.
    eapply (finish_verdict t rp state response id View None); [exact Hr1|done|].
    intros r i' w' Hnp Hr' [Hl He Hrb Hin]. apply HQ; [done|done|]. constructor.
    + intros ? ? ? Hok. destruct (Hl _ _ _ Hok) as (? & ? & ? & b & now & ? & ? & ? & ? & ?).
      split_and!; try done. exists b, now. split_and!; try done; lia.
    + intros u Hok. destruct (He u Hok) as (? & ? & ? & _). done.
    + done.
    + done.
Qed.
End Login.
