(* ===== verification/Authorize.v ===== *)
(** * [Gateway::with_authorized]: every write of a client

    [gateway.rs] runs a write under the lock of the identity, after three checks
    that are made in the same critical section. *)

From stdpp Require Import base gmap strings list fin_maps fin_sets.
From Stdlib Require Import ZArith Lia.
From S2P Require Import Prelude Rust Externals Clock Devices Admin Events World.
From S2P Require Import Pairing PairingFacts Webauthn WebauthnFacts.
From S2P Require Import Session SessionInv SessionOps.

Local Open Scope Z_scope.

Definition AUTHENTICATION_REQUIRED : Failure := (UNAUTHORIZED, "Authentication required").
Definition ELEVATION_REQUIRED : Failure := (FORBIDDEN, "Elevation required").

Section Definitions.
Context `{Base64, Crypto, Http, !Webauthn Transport, World W}.

(** [Gateway::with_authorized]; [host] is the gateway's own [rp_id]. *)
Definition with_authorized {T} (host : string) (ctx : AuthContext) (scope : Scope)
    (write : M (Identity * W) Failure T) : M (Identity * W) Failure T :=
  let! valid := (if negb (bool_decide (ctx.(ctx_rp_id) = host)) then ret false
                 else revalidate ctx View) in
  reject_if (negb valid) AUTHENTICATION_REQUIRED;;
  let! able := (if bool_decide (scope = View) then ret true else can_elevate ctx scope) in
  reject_if (negb able) SCOPE_NOT_GRANTED;;
  let! valid := revalidate ctx scope in
  reject_if (negb valid) ELEVATION_REQUIRED;;
  write.

(** [identity.register_peer(&ctx)] as a write *)
Definition peer_registration (ctx : AuthContext) : M (Identity * W) Failure (option Z) :=
  let! i := get in
  update (λ _, (register_peer ctx i).2);;
  ret (register_peer ctx i).1.

(** [Gateway::logout] *)
Definition gateway_logout (host : string) (ctx : AuthContext) : M (Identity * W) Failure unit :=
  with_authorized host ctx View (update (logout ctx.(ctx_session_id))).
End Definitions.

Section Facts.
Context `{Base64, Crypto, Http, !Webauthn Transport, World W, !WorldLaws W}.
Context (d0 : gmap string Device).
Implicit Types (i : Identity) (w : W).
Abbreviation irel := (irel d0).

(** [i1] is [i0] after [ctx] was found authorised in it at [now]. *)
Record admitted (host : string) ctx scope i0 i1 (now : Timestamp) : Prop := {
  ad_host : ctx.(ctx_rp_id) = host;
  ad_authorised : authorised i0 ctx.(ctx_session_id) host scope now;
  ad_session : ∃ s d, i0.(i_sessions) !! ctx.(ctx_session_id) = Some s
    ∧ s_device_id s = ctx.(ctx_device_id) ∧ i0.(i_devices) !! ctx.(ctx_device_id) = Some d
    ∧ i1 = touched i0 ctx.(ctx_session_id) s d now;
}.

(** [i0] is [i] after [ctx] was first recognised in it, at [now]. *)
Record recognised (host : string) ctx i i0 (now : Timestamp) : Prop := {
  rc_authorised : authorised i ctx.(ctx_session_id) host View now;
  rc_session : ∃ s d, i.(i_sessions) !! ctx.(ctx_session_id) = Some s
    ∧ s_device_id s = ctx.(ctx_device_id) ∧ i.(i_devices) !! ctx.(ctx_device_id) = Some d
    ∧ i0 = touched i ctx.(ctx_session_id) s d now;
}.

Lemma admitted_session host ctx scope i0 i1 now :
  admitted host ctx scope i0 i1 now → is_Some (i1.(i_sessions) !! ctx.(ctx_session_id)).
Proof. intros [_ _ (s & d & _ & _ & _ & ->)]. simpl. rewrite lookup_insert_eq. by eexists. Qed.

Lemma can_elevate_spec {E} t ctx scope (Q : outcome E bool → Identity * W → Prop) i w :
  irel t (i, w) →
  (∀ (b : bool) w', irel t (i, w') → world_time w <= world_time w' → world_log w' = world_log w →
     (b = true → scope ≠ View ∧ ∃ d, i.(i_devices) !! ctx.(ctx_device_id) = Some d ∧ d_locked d = false
        ∧ match scope with
          | View => False
          | Control => ∃ g, g_control (d_grants d) = Some g ∧ world_time w' < cg_until g
          | Full => full_session_enabled i.(i_policy) = true ∧ g_full (d_grants d) = true
          end) → Q (Ok b) (i, w')) →
  wp (can_elevate ctx scope) Q (i, w).
Proof.
  intros Hr HQ. unfold can_elevate. apply wp_bind. eapply from_now; [exact Hr|].
  intros w' Hr' Ht Hl. apply wp_bind, wp_get, wp_ret, HQ; [done|done|done|].
  destruct (i_devices i !! ctx_device_id ctx) as [d|]; [|done].
  intros [Hlock%negb_true_iff Hs]%andb_true_iff. destruct scope; [done| |]; (split; [done|]);
    exists d; split; [done| |done|]; (split; [done|]).
  - destruct (g_control (d_grants d)) as [g|]; [|done]. apply Z.ltb_lt in Hs. eauto.
  - by apply andb_true_iff in Hs.
Qed.

Lemma with_authorized_spec {T} t host ctx scope write (Q : outcome Failure T → Identity * W → Prop) i w :
  irel t (i, w) →
  (∀ e i' w', irel t (i', w') → world_log w' = world_log w → Q (Err e) (i', w')) →
  (∀ now i0 i1 w1, irel t (i1, w1) → world_log w1 = world_log w →
     world_time w <= now → now <= world_time w1 →
     recognised host ctx i i0 now → admitted host ctx scope i0 i1 (world_time w1) →
     wp write Q (i1, w1)) →
  wp (with_authorized host ctx scope write) Q (i, w).
Proof.
  intros Hr Herr HQ. unfold with_authorized. apply wp_bind.
  case_bool_decide as Hhost; cbn [negb]; [|by apply wp_ret, wp_bind, wp_reject_if, Herr].
  eapply revalidate_spec; [exact Hr|]. intros b i1 w1 Hr1 Ht1 Hl1 Hfirst.
  apply wp_bind, wp_reject_if. destruct b; cbn [negb]; [|by apply Herr].
  assert (recognised host ctx i i1 (world_time w1)) as Hrec.
  { destruct (Hfirst eq_refl) as (Hauth & s & d & Hs & Hdev & Hd & Hi1). constructor; [by rewrite <-Hhost|].
    exists s, d. rewrite <-Hdev. by split_and!. }
  apply wp_bind. assert (∀ w2, irel t (i1, w2) → world_log w2 = world_log w →
    world_time w1 <= world_time w2 →
    wp (let! valid := revalidate ctx scope in
        reject_if (negb valid) ELEVATION_REQUIRED;; write) Q (i1, w2)) as Hrest.
  { intros w2 Hr2 Hl2 Ht2. apply wp_bind. eapply revalidate_spec; [exact Hr2|].
    intros b i3 w3 Hr3 Ht3 Hl3 Hok. apply wp_bind, wp_reject_if. destruct b; cbn [negb]; cycle 1.
    { apply Herr; [done|congruence]. }
    destruct (Hok eq_refl) as (Hauth & s & d & Hs & Hdev & Hd & Hi3).
    apply (HQ (world_time w1) i1 i3 w3); [done|congruence|lia|lia|done|]. constructor; [done|by rewrite <-Hhost|].
    exists s, d. rewrite <-Hdev. by split_and!. }
  case_bool_decide as Hview.
  - apply wp_ret, wp_bind, wp_reject_if. apply Hrest; (done || lia).
  - eapply can_elevate_spec; [exact Hr1|]. intros b w2 Hr2 Ht2 Hl2 _.
    apply wp_bind, wp_reject_if. destruct b; cbn [negb]; [apply Hrest|apply Herr];
      (done || congruence || lia).
Qed.

Lemma peer_registration_spec t ctx (Q : outcome Failure (option Z) → Identity * W → Prop) i w :
  irel t (i, w) → is_Some (i.(i_sessions) !! ctx.(ctx_session_id)) →
  (∀ r i', register_peer ctx i = (r, i') → irel t (i', w) → Q (Ok r) (i', w)) →
  wp (peer_registration ctx) Q (i, w).
Proof.
  intros Hr Hs HQ. unfold peer_registration. apply wp_bind, wp_get, wp_bind, wp_update, wp_ret.
  destruct (register_peer ctx i) as [r i'] eqn:Heq. simpl. apply HQ; [done|].
  pose proof (core_register ctx i r i' (inv_core _ _ (ir_inv _ _ _ Hr)) Hs Heq) as Hc.
  unfold register_peer in Heq. repeat case_match; injection Heq as <- <-; (done || by eapply irel_state).
Qed.
End Facts.
