(* ===== verification/SessionSpec.v ===== *)
(** * The contract of [Identity], over every interleaving

    [identity_step] is one critical section of the identity's lock, or a change
    of the world between two of them; the theorems quantify over its closure. *)

From stdpp Require Import base gmap strings list fin_maps fin_sets relations.
From Stdlib Require Import ZArith Lia.
From S2P Require Import Prelude Rust Externals Clock Devices Admin Events World.
From S2P Require Import Pairing PairingFacts Webauthn WebauthnFacts.
From S2P Require Import Session SessionInv SessionOps SessionLogin Authorize.

Local Open Scope Z_scope.

Section Steps.
Context `{Base64, Crypto, Http, !Webauthn Transport, World W}.

Inductive identity_step : Identity * W → Identity * W → Prop :=
| istep_command c t : identity_step t (identity_command c t).2
| istep_maintenance t : identity_step t (identity_maintenance (E := Failure) t).2
| istep_authenticate headers host scope t : identity_step t (authenticate headers host scope t).2
| istep_revalidate ctx scope t : identity_step t (revalidate (E := Failure) ctx scope t).2
| istep_can_elevate ctx scope t : identity_step t (can_elevate (E := Failure) ctx scope t).2
| istep_active_ids t : identity_step t (active_session_ids (E := Failure) t).2
| istep_finish rp state response ctx t :
    identity_step t (finish_assertion rp state response ctx t).2
| istep_register pairing verified t : identity_step t (register_verified pairing verified t).2
| istep_peer host ctx t :
    identity_step t (with_authorized host ctx View (peer_registration ctx) t).2
| istep_logout host ctx t : identity_step t (gateway_logout host ctx t).2
| istep_deadline host ctx scope fresh t :
    identity_step t (with_authorized host ctx scope
                       (map_err (λ _, SCOPE_NOT_GRANTED) (write_deadline ctx scope fresh)) t).2
| istep_unregister n i w : identity_step (i, w) (unregister_peer n i, w)
| istep_world i w w' l : world_log w' = world_log w ++ l → Forall (λ e, device_event e = false) l →
    world_time w <= world_time w' → identity_step (i, w) (i, w').

(** The gateway starts from the devices of the init frame; [d0] is the desktop's copy. *)
Definition started (d0 : gmap string Device) (t : Identity * W) : Prop :=
  ∃ fields devices policy i,
    deserialize_devices fields = Some devices ∧ identity_new devices policy = inr i
    ∧ t.1 = i ∧ d0 = i_devices i ∧ Forall (λ e, device_event e = false) (world_log t.2).

Definition identity_reachable (d0 : gmap string Device) (t : Identity * W) : Prop :=
  ∃ t0, started d0 t0 ∧ rtc identity_step t0 t.
End Steps.

(** ** The devices the desktop sends *)

Lemma size_list_to_set_nodup `{Countable A} (l : list A) :
  size (list_to_set l : gset A) = length l → NoDup l.
Proof.
  induction l as [|x l IH]; [constructor|]. cbn [list_to_set]. intros Hs.
  assert (size (list_to_set l : gset A) ≤ length l)%nat as Hle.
  { clear. induction l as [|y l IH]; cbn [list_to_set length]; [rewrite size_empty; lia|].
    rewrite size_union_alt, size_singleton.
    assert (size (list_to_set l ∖ {[y]} : gset A) ≤ size (list_to_set l : gset A))%nat
      by (apply subseteq_size; set_solver). lia. }
  destruct (decide (x ∈ (list_to_set l : gset A))) as [Hin|Hni].
  - exfalso. replace ({[x]} ∪ list_to_set l : gset A) with (list_to_set l : gset A) in Hs by set_solver.
    simpl in Hs. lia.
  - rewrite size_union, size_singleton in Hs by set_solver. constructor.
    + by rewrite elem_of_list_to_set in Hni.
    + apply IH. simpl in Hs. lia.
Qed.

Lemma flat_nodup {A B} (f : A → list B) (l : list A) x y b :
  NoDup (l ≫= f) → x ∈ l → y ∈ l → b ∈ f x → b ∈ f y → x = y.
Proof.
  induction l as [|z l IH]; [by intros _ ?%not_elem_of_nil|]. csimpl.
  intros (_ & Hdis & Hl)%NoDup_app Hx Hy Hbx Hby.
  apply elem_of_cons in Hx as [->|Hx], Hy as [->|Hy]; [done| | |by apply IH].
  - exfalso. apply (Hdis b); [done|]. apply list_elem_of_bind. eauto.
  - exfalso. apply (Hdis b); [done|]. apply list_elem_of_bind. eauto.
Qed.

Section Table.
Context `{Base64, Crypto, Http, !Webauthn Transport, World W}.

Lemma device_table devices k d :
  foldl (λ m d, <[d_device_id d := d]> m) (∅ : gmap string Device) devices !! k = Some d →
  d ∈ devices ∧ d_device_id d = k.
Proof.
  assert (∀ m : gmap string Device, (∀ k d, m !! k = Some d → d_device_id d = k) →
    foldl (λ m d, <[d_device_id d := d]> m) m devices !! k = Some d →
    (d ∈ devices ∨ m !! k = Some d) ∧ d_device_id d = k) as Hgen.
  { induction devices as [|x devices IH]; simpl; intros m Hm Hk; [split; eauto|].
    destruct (IH (<[d_device_id x := x]> m)) as [Hin Hid]; [|done|].
    - intros k' d' [[<- <-]|[_ ?]]%lookup_insert_Some; eauto.
    - split; [|done]. destruct Hin as [|[[_ <-]|[_ ?]]%lookup_insert_Some]; set_solver. }
  intros Hk. destruct (Hgen ∅) as [[?|?] ?]; [|done|done|]; [by intros ??; rewrite lookup_empty|].
  by rewrite lookup_empty in *.
Qed.

Lemma deserialized_unique fields devices :
  deserialize_devices fields = Some devices →
  NoDup (devices ≫= λ v, credential_key <$> d_credentials v).
Proof.
  unfold deserialize_devices. case_match; [|done]. destruct (_ || _) eqn:Hbad; [done|].
  intros [= <-]. apply orb_false_iff in Hbad as [_ Hb%negb_false_iff%bool_decide_eq_true].
  apply size_list_to_set_nodup. rewrite Hb. by rewrite length_flat_credentials.
Qed.

Lemma identity_new_inv fields devices policy i :
  deserialize_devices fields = Some devices → identity_new devices policy = inr i →
  core_inv i ∧ i_notifications i = ∅ ∧ policy_valid policy = true ∧ i_policy i = policy.
Proof.
  intros Hde. apply deserialized_unique in Hde as Hnd. unfold identity_new.
  destruct (_ || _) eqn:Hpol; [done|].
  apply orb_false_iff in Hpol as [[Hv%negb_false_iff Hmax]%orb_false_iff _].
  apply Z.ltb_ge in Hmax. destruct (negb _) eqn:Hsize; [done|].
  apply negb_false_iff, bool_decide_eq_true in Hsize. intros [= <-]. simpl.
  split; [|done]. constructor; simpl;
    try (by intros *; rewrite lookup_empty); unfold sessions_of, peers_of, session_limit; simpl;
    rewrite ?map_filter_empty, ?map_size_empty; try (intros; lia).
  - intros id d Hd. by apply device_table in Hd as [_ ?].
  - intros id id' d d' c c' [Hin <-]%device_table [Hin' <-]%device_table Hc Hc' Hk.
    f_equal. apply (flat_nodup _ devices d d' (credential_key c) Hnd Hin Hin').
    + by apply list_elem_of_fmap_2.
    + rewrite Hk. by apply list_elem_of_fmap_2.
  - intros id. rewrite map_filter_empty, map_size_empty. lia.
  - intros id. rewrite map_filter_empty, map_size_empty. lia.
Qed.
End Table.

(** ** Every step keeps the invariant *)

Section Reach.
Context `{Base64, Crypto, Http, !Webauthn Transport, World W, !WorldLaws W}.
Context (d0 : gmap string Device).
Implicit Types (i : Identity) (w : W) (t : Identity * W).
Abbreviation inv := (inv d0).
Abbreviation irel := (irel d0).

Lemma irel_trans t1 t2 t3 : irel t1 t2 → irel t2 t3 → irel t1 t3.
Proof. intros [] []. constructor; [done|by etrans|lia|congruence]. Qed.

Lemma write_deadline_spec t ctx scope fresh (Q : outcome unit Timestamp → Identity * W → Prop) i w :
  irel t (i, w) →
  (∀ r w', r ≠ Panic → irel t (i, w') → world_log w' = world_log w → world_time w <= world_time w' →
     (∀ until, r = Ok until → ∃ s, i.(i_sessions) !! ctx.(ctx_session_id) = Some s ∧
        match scope with
        | View => False
        | Control => s_control_until s = Some until ∧ ∃ a, s_control_at s = Some a
            ∧ (fresh = true → world_time w' <= after a (seconds 120))
        | Full => s_full_until s = Some until ∧ ∃ a, s_full_at s = Some a
            ∧ (fresh = true → world_time w' <= after a (seconds 120))
        end) → Q r (i, w')) →
  wp (write_deadline ctx scope fresh) Q (i, w).
Proof.
  intros Hr HQ. unfold write_deadline. apply wp_bind, wp_get, wp_bind, wp_ok_or.
  destruct (i_sessions i !! ctx_session_id ctx) as [s|] eqn:Hs; [|by apply HQ].
  apply wp_bind, wp_ok_or.
  match goal with |- match ?c with _ => _ end => destruct c as [[a u]|] eqn:Hc end; [|by apply HQ].
  assert (∀ w' : W, (fresh = true → world_time w' <= after a (seconds 120)) →
    match scope with
    | View => False
    | Control => s_control_until s = Some u ∧ ∃ a, s_control_at s = Some a
        ∧ (fresh = true → world_time w' <= after a (seconds 120))
    | Full => s_full_until s = Some u ∧ ∃ a, s_full_at s = Some a
        ∧ (fresh = true → world_time w' <= after a (seconds 120))
    end) as Hres.
  { intros w' Hfresh. destruct scope; [done| |]; simpl in Hc.
    - destruct (s_control_at s), (s_control_until s); simplify_eq/=. eauto.
    - destruct (s_full_at s), (s_full_until s); simplify_eq/=. eauto. }
  apply wp_bind. destruct fresh.
  - apply wp_bind. eapply from_now; [exact Hr|]. intros w1 Hr1 Ht1 Hl1.
    apply wp_ret, wp_bind, wp_reject_if. destruct (Z.ltb_spec (after a (seconds 120)) (world_time w1)).
    { by apply HQ. }
    apply wp_ret, HQ; try done. intros u' [= <-]. exists s. split; [done|]. by apply Hres.
  - apply wp_ret, wp_bind, wp_reject_if, wp_ret, HQ; try done.
    intros u' [= <-]. exists s. split; [done|]. by apply Hres.
Qed.

Lemma istep_irel t t' : inv t → identity_step t t' → irel t t'.
Proof.
  intros Hi Hstep. destruct t as [i w]. pose proof (irel_refl d0 _ Hi) as Hr.
  inversion Hstep; subst; try match goal with
    | |- irel ?t (?m ?t).2 => change (wp m (λ _ t', irel t t') t) end.
  - eapply command_spec; [exact Hr|]. by intros.
  - eapply wp_mono; [by apply maintenance_keeps|]. by intros ?? [].
  - eapply authenticate_spec; [exact Hr|]. by intros.
  - eapply revalidate_spec; [exact Hr|]. by intros.
  - eapply can_elevate_spec; [exact Hr|]. by intros.
  - unfold active_session_ids. apply wp_bind. eapply purge_expired_spec; [exact Hr|].
    intros w' i' Hr' _ _. by apply wp_bind, wp_get, wp_ret.
  - eapply finish_assertion_spec; [exact Hr|]. by intros.
  - eapply register_verified_spec; [exact Hr|]. by intros.
  - eapply with_authorized_spec; [exact Hr|by intros|]. intros now i0 i1 w1 Hr1 _ _ _ _ Had.
    eapply peer_registration_spec; [exact Hr1|by eapply admitted_session|]. by intros.
  - eapply with_authorized_spec; [exact Hr|by intros|]. intros now i0 i1 w1 Hr1 _ _ _ _ Had.
    apply wp_update. by apply irel_invalidate_session.
  - eapply with_authorized_spec; [exact Hr|by intros|]. intros now i0 i1 w1 Hr1 _ _ _ _ Had.
    apply wp_map_err. eapply write_deadline_spec; [exact Hr1|]. intros [] w' ? Hr' _ _ _; done.
  - eapply irel_state; [exact Hr|apply core_unregister, Hi|done|done].
  - by eapply irel_world.
Qed.

Lemma isteps_irel t t' : inv t → rtc identity_step t t' → irel t t'.
Proof.
  intros Hi Hs. induction Hs as [t|t1 t2 t3 H12 _ IH]; [by apply irel_refl|].
  apply istep_irel in H12; [|done]. eapply irel_trans; [done|]. apply IH, H12.
Qed.

Lemma started_inv t : started d0 t → inv t.
Proof.
  intros (fields & devices & policy & i & Hde & Hnew & Ht & -> & Hlog). destruct t as [i' w]. simpl in Ht. subst i'.
  destruct (identity_new_inv _ _ _ _ Hde Hnew) as (Hc & Hn & _). constructor; simpl; [done|].
  intros k. unfold replica_at. simpl. rewrite Hn, lookup_empty.
  by rewrite replica_other.
Qed.

Lemma identity_reachable_inv t : identity_reachable d0 t → inv t.
Proof. intros (t0 & Ht0 & Hs). eapply ir_inv, isteps_irel; [|exact Hs]. by apply started_inv. Qed.
End Reach.
