(* ===== verification/SessionProps.v ===== *)
(** * What the identity promises: the theorems

    Each is stated over [identity_reachable]: any sequence of calls, from the
    devices of the init frame, with the clock, the queue and the order of the
    maps free. *)
From stdpp Require Import base gmap strings list fin_maps fin_sets relations.
From Stdlib Require Import ZArith Lia.
From S2P Require Import Prelude Rust Externals Crates Clock Devices Admin Events World Pairing.
From S2P Require Import PairingFacts PairingSpec Webauthn WebauthnFacts Session.
From S2P Require Import SessionInv SessionOps SessionLogin Authorize SessionSpec.
Local Open Scope Z_scope.

Section Props.
Context `{Base64, Crypto, Http, !Webauthn Transport, World W, !WorldLaws W}.
Implicit Types (i : Identity) (w : W) (t : Identity * W).

(** C5. Whatever is called, in any order: sessions and peers stay within their
    limits; every session belongs to an unlocked device that still has a passkey
    for its host; no elevation outlives the device's grant, the policy, the
    session or the elevation limit, and a full elevation exists only where the
    policy and the grant allow it; a peer that was not told to close has a live
    session; five failures never leave a device unlocked; no passkey belongs to
    two devices. *)
Theorem identity_invariant (d0 : gmap string Device) t : identity_reachable d0 t →
  let i := t.1 in
  (size i.(i_sessions) ≤ session_limit i)%nat ∧ (size i.(i_peers) ≤ MAX_PEERS)%nat
  ∧ (∀ id, (size (filter (λ e, s_device_id e.2 = id) i.(i_sessions)) ≤ 4)%nat
           ∧ (size (filter (λ e, peer_device e.2 = id) i.(i_peers)) ≤ 2)%nat)
  ∧ (∀ sid s, i.(i_sessions) !! sid = Some s →
       ∃ d, i.(i_devices) !! s_device_id s = Some d ∧ d_locked d = false
       ∧ (∃ c, c ∈ d_credentials d ∧ cr_rp_id c = s_rp_id s)
       ∧ (∀ u, s_control_until s = Some u → ∃ g, g_control (d_grants d) = Some g ∧ u <= cg_until g
            ∧ u <= enable_until i.(i_policy)
            ∧ u <= after (s_created_at s) (hours (view_absolute_hours i.(i_policy)))
            ∧ ∃ a, s_control_at s = Some a ∧ u <= after a (minutes (elevation_max_min i.(i_policy))))
       ∧ (∀ u, s_full_until s = Some u → full_session_enabled i.(i_policy) = true
            ∧ g_full (d_grants d) = true ∧ u <= enable_until i.(i_policy)
            ∧ u <= after (s_created_at s) (hours (view_absolute_hours i.(i_policy)))
            ∧ ∃ a, s_full_at s = Some a ∧ u <= after a (minutes (elevation_max_min i.(i_policy)))
                 ∧ u <= after a (seconds 900)))
  ∧ (∀ n p, i.(i_peers) !! n = Some p → peer_invalidated p = false →
       is_Some (i.(i_sessions) !! peer_session p))
  ∧ (∀ id n, i.(i_failures) !! id = Some n → 5 <= n →
       ∃ d, i.(i_devices) !! id = Some d ∧ d_locked d = true)
  ∧ ∀ id id' d d' c c', i.(i_devices) !! id = Some d → i.(i_devices) !! id' = Some d' →
      c ∈ d_credentials d → c' ∈ d_credentials d' → credential_key c = credential_key c' → id = id'.
Proof.
  intros Hr. apply identity_reachable_inv in Hr as [Hc _]. cbn zeta.
  split; [apply Hc|]. split; [apply Hc|]. split; [intros id; split; apply Hc|].
  split; [|split; [apply Hc|split; [|apply Hc]]].
  - intros sid s Hs. destruct (ii_session _ Hc sid s Hs) as [(d & Hd & Hl & Hcr & Hcon & Hfull) Hc1 Hf1].
    exists d. split_and!; try done.
    + intros u Hu. destruct (Hcon u Hu) as (g & Hg & Hle). destruct (Hc1 u Hu) as (a & ? & ? & ? & ?). eauto 10.
    + intros u Hu. destruct (Hfull u Hu). destruct (Hf1 u Hu) as (a & ? & ? & ? & ? & ?). eauto 10.
  - intros id n Hn Hge. destruct (ii_failures _ Hc id n Hn) as (_ & d & Hd & [?|?]); [lia|eauto].
Qed.

(** C6. The desktop's copy of the devices, built from the events it was sent, is
    at every moment the gateway's own table up to the time of last use, except
    for devices with a pending notification, and that notification carries the
    current state: no change is ever lost. *)
Theorem desktop_replica (d0 : gmap string Device) t : identity_reachable d0 t → ∀ id,
  forget <$> t.1.(i_devices) !! id =
  forget <$> match t.1.(i_notifications) !! id with
             | Some pending => pending
             | None => replica d0 (world_log t.2) !! id
             end.
Proof. intros Hr. apply (identity_reachable_inv _ _ Hr). Qed.

(** C13. [validate] answers, and grants exactly when the session is active, for
    that host, and the scope is granted to the device and elevated in the
    session.  A grant only notes the use of the session and its device; a refusal
    drops the session if it is no longer active at that moment, and otherwise
    changes nothing; no event is sent. *)
Theorem validate_exact (d0 : gmap string Device) t sid host scope : identity_reachable d0 t →
  ∃ b i' w', validate (E := Failure) sid host scope t = (Ok b, (i', w'))
    ∧ world_time t.2 <= world_time w' ∧ world_log w' = world_log t.2
    ∧ (b = true ↔ authorised t.1 sid host scope (world_time w'))
    ∧ (b = true → ∃ s d, t.1.(i_sessions) !! sid = Some s ∧ t.1.(i_devices) !! s_device_id s = Some d
         ∧ i' = touched t.1 sid s d (world_time w'))
    ∧ (b = false → i' = match t.1.(i_sessions) !! sid with
                        | Some s => if active t.1 s (world_time w') then t.1 else invalidate_session sid t.1
                        | None => t.1
                        end).
Proof.
  intros Hr. apply identity_reachable_inv in Hr as Hi. destruct t as [i w].
  destruct (wp_result (validate (E := Failure) sid host scope)
    (λ r t', ∃ b, r = Ok b ∧ world_time w <= world_time t'.2 ∧ world_log t'.2 = world_log w
       ∧ (b = true ↔ authorised i sid host scope (world_time t'.2))
       ∧ (b = true → ∃ s d, i.(i_sessions) !! sid = Some s ∧ i.(i_devices) !! s_device_id s = Some d
            ∧ t'.1 = touched i sid s d (world_time t'.2))
       ∧ (b = false → t'.1 = refused i sid (world_time t'.2))) (i, w)) as (r & [i' w'] & Hrun & b & -> & Hok).
  - eapply validate_spec; [by apply irel_refl|]. intros b i' w' _ Ht Hl Hiff Hyes Hno. by exists b.
  - by exists b, i', w'.
Qed.

(** C12. A write runs only for an authorised caller, and under the lock it was
    authorised in.  When [with_authorized] returns the result of the write, the
    caller's session was first valid for viewing in the state [with_authorized] was
    called in, then, noted as used and nothing else changed, authorised for the
    scope at the moment the write started: active, of this host, of the caller's
    device, with the scope granted and elevated.  The write ran in that very state,
    but for the second note of the use. *)
Theorem with_authorized_sound {T} (d0 : gmap string Device) t host ctx scope (write : M (Identity * W) Failure T) x t' :
  identity_reachable d0 t → with_authorized host ctx scope write t = (Ok x, t') →
  ∃ s d first w1, t.1.(i_sessions) !! ctx.(ctx_session_id) = Some s
    ∧ s_device_id s = ctx.(ctx_device_id) ∧ t.1.(i_devices) !! ctx.(ctx_device_id) = Some d
    ∧ ctx.(ctx_rp_id) = host ∧ world_time t.2 <= first <= world_time w1 ∧ world_log w1 = world_log t.2
    ∧ authorised t.1 ctx.(ctx_session_id) host View first
    ∧ let i0 := touched t.1 ctx.(ctx_session_id) s d first in
      authorised i0 ctx.(ctx_session_id) host scope (world_time w1)
    ∧ write (touched i0 ctx.(ctx_session_id) (set_last_seen first s) (device_set_last_seen first d)
               (world_time w1), w1) = (Ok x, t').
Proof.
  intros Hr%identity_reachable_inv. destruct t as [i w]. revert x t'.
  enough (wp (with_authorized host ctx scope write) (λ r t', ∀ x, r = Ok x →
    ∃ s d first w1, i.(i_sessions) !! ctx.(ctx_session_id) = Some s
    ∧ s_device_id s = ctx.(ctx_device_id) ∧ i.(i_devices) !! ctx.(ctx_device_id) = Some d
    ∧ ctx.(ctx_rp_id) = host ∧ world_time w <= first <= world_time w1 ∧ world_log w1 = world_log w
    ∧ authorised i ctx.(ctx_session_id) host View first
    ∧ let i0 := touched i ctx.(ctx_session_id) s d first in
      authorised i0 ctx.(ctx_session_id) host scope (world_time w1)
    ∧ write (touched i0 ctx.(ctx_session_id) (set_last_seen first s) (device_set_last_seen first d)
               (world_time w1), w1) = (Ok x, t')) (i, w)) as Hwp.
  { intros x t' Hrun. by apply (wp_run _ _ _ _ _ Hwp Hrun). }
  eapply with_authorized_spec; [by apply irel_refl|done|].
  intros first i0 i1 w1 _ Hl Ht Ht1 [Hf (s & d & Hs & Hdev & Hd & ->)] [Hh Ha (s' & d' & Hs' & _ & Hd' & ->)].
  unfold touched in Hs', Hd'. simpl in Hs', Hd'. rewrite lookup_insert_eq in Hs'.
  rewrite Hdev, lookup_insert_eq in Hd'. injection Hs' as <-. injection Hd' as <-.
  apply run_wp. intros r t' Hrun x ->. by exists s, d, first, w1.
Qed.

(** [authenticate] recognises a request only by the session cookie and the
    binding token together: exactly one session cookie, exactly one binding
    header whose digest is the session's, a session that is valid for this host;
    the context it returns is that session and its device. *)
Theorem authenticate_sound (d0 : gmap string Device) t headers host scope ctx t' :
  identity_reachable d0 t → authenticate headers host scope t = (Ok ctx, t') →
  cookie_id headers = Some ctx.(ctx_session_id) ∧ ctx.(ctx_rp_id) = host
  ∧ (∃ text token s, headers_get_all "x-yzc-binding" headers = [text]
       ∧ header_to_str text ≫= decode 32 = Some token
       ∧ t.1.(i_sessions) !! ctx.(ctx_session_id) = Some s
       ∧ matches (s_binding_hash s) token = true ∧ s_device_id s = ctx.(ctx_device_id))
  ∧ authorised t.1 ctx.(ctx_session_id) host View (world_time t'.2).
Proof.
  intros Hr%identity_reachable_inv Hrun. destruct t as [i w].
  enough (wp (authenticate headers host scope) (λ r t', ∀ ctx, r = Ok ctx → ctx_rp_id ctx = host
    ∧ authenticated headers host ctx i t'.1 (world_time t'.2)) (i, w)) as Hwp.
  { destruct (wp_run _ _ _ _ _ Hwp Hrun ctx eq_refl) as [Hh []]. by split_and!. }
  eapply authenticate_spec; [by apply irel_refl|]. intros r i' w' _ _ _ Hok. exact Hok.
Qed.

(** C15. A device command is all or nothing.  An error changes nothing and sends
    nothing.  Success means the device is the commanded one (or gone), every
    session of it is gone and every peer of those sessions was told to close; a
    change that was accepted by the queue is the only event sent and carries the
    device as it now is, with nothing left pending; one that was not, which is never
    a widening one (a grant raised, an unlock), is pending with the device as it now
    is, and the answer says so. *)
Theorem command_atomic (d0 : gmap string Device) t command :
  identity_reachable d0 t →
  match (identity_command command t).1 with
  | Panic => False
  | Err _ => (identity_command command t).2.1 = t.1
      ∧ world_log (identity_command command t).2.2 = world_log t.2
  | Ok res =>
      let i := t.1 in
      let id := command_id command in
      let t' := (identity_command command t).2 in
      ∃ d o widening name, i.(i_devices) !! id = Some d
      ∧ command_change command d = Some (o, widening, name)
      ∧ t'.1.(i_devices) = partial_alter (λ _, o) id i.(i_devices)
      ∧ (∀ sid s, t'.1.(i_sessions) !! sid = Some s →
           s_device_id s ≠ id ∧ i.(i_sessions) !! sid = Some s)
      ∧ (∀ n p, t'.1.(i_peers) !! n = Some p → peer_invalidated p = false →
           ∃ s, t'.1.(i_sessions) !! peer_session p = Some s ∧ s_device_id s ≠ id)
      ∧ (res = Applied ∧ t'.1.(i_notifications) !! id = None
           ∧ world_log t'.2 = world_log t.2 ++ [notification id o]
         ∨ res = NotificationDeferred name id ∧ widening = false
           ∧ t'.1.(i_notifications) !! id = Some o ∧ world_log t'.2 = world_log t.2)
  end.
Proof.
  intros Hr%identity_reachable_inv. destruct t as [i w].
  destruct (wp_result (identity_command command) (λ r t', r ≠ Panic ∧ (∀ e, r = Err e → t'.1 = i ∧ world_log t'.2 = world_log w)
      ∧ ∀ res, r = Ok res → ∃ o widening name, command_done command o widening name i t'.1
        ∧ (res = Applied ∧ t'.1.(i_notifications) !! command_id command = None
             ∧ world_log t'.2 = world_log w ++ [notification (command_id command) o]
           ∨ res = NotificationDeferred name (command_id command) ∧ widening = false
             ∧ t'.1.(i_notifications) !! command_id command = Some o
             ∧ world_log t'.2 = world_log w)) (i, w)) as (r & [i' w'] & -> & Hnp & Herr & Hok).
  { eapply command_spec; [by apply irel_refl|]. by intros. }
  simpl in *. destruct r as [res|e|]; [|by eapply Herr|done].
  destruct (Hok res eq_refl) as (o & wd & name & (d & Hd & Hch & Hdev & Hses & Hp) & Hres).
  exists d, o, wd, name. split_and!; try done. rewrite Hdev. by destruct o.
Qed.

(** C16. Revocation and tightening cannot be refused: for a known device, a valid
    command that does not widen succeeds whatever the state of the event queue. *)
Theorem tightening_never_refused (d0 : gmap string Device) t command d o name :
  identity_reachable d0 t → is_Some (decode 16 (command_id command)) →
  t.1.(i_devices) !! command_id command = Some d →
  command_change command d = Some (o, false, name) →
  ∃ res, (identity_command command t).1 = Ok res.
Proof.
  intros Hr [b Hb] Hd Hch. destruct t as [i w]. simpl in Hd.
  change (wp (identity_command command) (λ r _, ∃ res, r = Ok res) (i, w)).
  unfold identity_command. cbn zeta. apply wp_bind, wp_reject_if.
  rewrite Hb, bool_decide_false by done. apply wp_bind, wp_get, wp_bind, wp_ok_or. rewrite Hd.
  apply wp_bind, wp_ok_or. rewrite Hch. apply wp_bind, wp_ret. apply commit_steps.
  apply wp_bind, wp_update, wp_bind, wp_try_emit. intros [] w' _ _.
  - apply wp_bind, wp_update, wp_ret. eauto.
  - apply wp_ret. eauto.
Qed.

(** Lockout: a fifth failure in a row, or one rollback of a signature
    counter, locks the device and ends every session of it; a failure before the
    fifth is counted and nothing else. *)
Theorem lockout (d0 : gmap string Device) t id rollback d :
  identity_reachable d0 t → t.1.(i_devices) !! id = Some d → d_locked d = false →
  let n := default 0 (t.1.(i_failures) !! id) + 1 in
  ∃ i' w', assertion_failed (E := Failure) id rollback t = (Ok tt, (i', w'))
    ∧ (rollback = true ∨ 5 <= n →
         i'.(i_devices) !! id = Some (device_set_locked true d)
         ∧ ∀ sid s, i'.(i_sessions) !! sid = Some s → s_device_id s ≠ id)
    ∧ (rollback = false ∧ n < 5 →
         i'.(i_failures) !! id = Some n ∧ i'.(i_devices) = t.1.(i_devices)
         ∧ i'.(i_sessions) = t.1.(i_sessions)).
Proof.
  intros Hr%identity_reachable_inv Hd Hl. destruct t as [i w]. simpl in *.
  destruct (wp_result (assertion_failed (E := Failure) id rollback) (λ r t', r = Ok tt ∧
    let n := default 0 (i.(i_failures) !! id) + 1 in
    (rollback = true ∨ 5 <= n →
         t'.1.(i_devices) !! id = Some (device_set_locked true d)
         ∧ ∀ sid s, t'.1.(i_sessions) !! sid = Some s → s_device_id s ≠ id)
    ∧ (rollback = false ∧ n < 5 →
         t'.1.(i_failures) !! id = Some n ∧ t'.1.(i_devices) = i.(i_devices)
         ∧ t'.1.(i_sessions) = i.(i_sessions))) (i, w))
    as (r & [i' w'] & Hrun & -> & Hq); [|exists i', w'; split; [exact Hrun|exact Hq]].
  eapply assertion_failed_spec; [by apply irel_refl|]. intros i' w' _ _ Hq. split; [done|].
  by apply Hq.
Qed.

(** Finishing an assertion.  A login creates a session only for the owner of
    a credential of this host whose assertion was verified and who is named by
    the user handle, and the binding token it returns is the one whose digest the
    session keeps; an elevation is granted only after a verified assertion of the
    session's own device and within every cap; a rollback locks the device. *)
Theorem assertion_outcome (d0 : gmap string Device) t rp state response ctx r t' :
  identity_reachable d0 t → finish_assertion rp state response ctx t = (r, t') →
  r ≠ Panic ∧ assertion_finished rp state response ctx r t.1 t.2 t'.1 t'.2.
Proof.
  intros Hr%identity_reachable_inv Hrun. destruct t as [i w].
  enough (wp (finish_assertion rp state response ctx)
    (λ r t', r ≠ Panic ∧ assertion_finished rp state response ctx r i w t'.1 t'.2) (i, w)) as Hwp
    by apply (wp_run _ _ _ _ _ Hwp Hrun).
  eapply finish_assertion_spec; [by apply irel_refl|]. by intros.
Qed.

(** A registration either changes nothing or adds exactly its credential,
    announced to the desktop before: in time, with a credential no device has,
    to the unlocked device it was made for or as a new device without any grant,
    within the device limit; the sessions of the device end. *)
Theorem registration_commits (d0 : gmap string Device) t pairing verified r t' :
  identity_reachable d0 t → register_verified pairing verified t = (r, t') →
  match r with
  | Panic => False
  | Err _ => t'.1 = t.1 ∧ world_log t'.2 = world_log t.2
  | Ok id => registered pairing verified id t.1 t.2 t'.1 t'.2
  end.
Proof.
  intros Hr%identity_reachable_inv Hrun. destruct t as [i w].
  enough (wp (register_verified pairing verified) (λ r t', match r with
    | Panic => False
    | Err _ => t'.1 = i ∧ world_log t'.2 = world_log w
    | Ok id => registered pairing verified id i w t'.1 t'.2
    end) (i, w)) as Hwp by apply (wp_run _ _ _ _ _ Hwp Hrun).
  eapply register_verified_spec; [by apply irel_refl|].
  intros [id|e|] i' w' Hnp _ Herr Hok; [by apply Hok|by eapply Herr|done].
Qed.
End Props.

(** * One device, from login to revocation, computed

    A concrete run of the identity in the simulated world; the theorems of
    [SessionProps] are applied along it. *)
Definition demo_device_id : string := encode (zeros 16).
Definition demo_credential : CredentialRecord :=
  mkCredential (encode (zeros 4)) "host.ts.net" (encode (zeros 4)) STATE_FORMAT 1 false false [].
Definition demo_device : Device :=
  mkDevice demo_device_id "Ann's phone" [demo_credential]
    (mkGrants (Some (mkControlGrant (seconds 500))) false) false 0 0.
Definition demo_policy : Policy := mkPolicy (seconds 1000) 30 12 15 true 8 O1.
Definition demo_identity : Identity :=
  match identity_new [demo_device] demo_policy with
  | inr i => i
  | inl _ => mkIdentity ∅ ∅ ∅ ∅ 0 ∅ ∅ demo_policy
  end.
Definition demo_rp : RelyingParty := mkRelyingParty "host.ts.net" "https://host.ts.net".
Definition demo_answer : Value := VObject
  [("rawId", VString (encode (zeros 4)));
   ("response", VObject [("userHandle", VString demo_device_id)])].

Definition demo_t0 : Identity * SimWorld := (demo_identity, demo_world).
Definition demo_login := finish_assertion demo_rp (AssertLogin (1 : Z)) demo_answer None.
Definition demo_t1 := (demo_login demo_t0).2.
Definition demo_session : string := sim_entropy 32 1.
Definition demo_binding : string := encode (sim_entropy 32 0).
Definition demo_ctx : AuthContext := mkAuthContext demo_session demo_device_id "host.ts.net".
Definition demo_elevation_state : AssertionState := AssertElevation (1 : Z).
Definition demo_elevation :=
  finish_assertion demo_rp demo_elevation_state demo_answer (Some (demo_ctx, Control)).
Definition demo_t2 := (demo_elevation demo_t1).2.
Definition demo_peer := with_authorized "host.ts.net" demo_ctx View (peer_registration demo_ctx).
Definition demo_t3 := (demo_peer demo_t2).2.
Definition demo_revoke : DeviceCommand := DeviceRevoke 7 demo_device_id.

Lemma demo_started : started (i_devices demo_identity) demo_t0.
Proof.
  exists [demo_device], [demo_device], demo_policy, demo_identity.
  split_and!; [vm_compute; reflexivity..|constructor].
Qed.

Lemma demo_step1 : identity_step demo_t0 demo_t1.
Proof. unfold demo_t1, demo_login. apply istep_finish. Qed.
Lemma demo_step2 : identity_step demo_t1 demo_t2.
Proof. unfold demo_t2, demo_elevation. apply istep_finish. Qed.
Lemma demo_step3 : identity_step demo_t2 demo_t3.
Proof. unfold demo_t3, demo_peer. apply istep_peer. Qed.

Lemma demo_reachable0 : identity_reachable (i_devices demo_identity) demo_t0.
Proof. exists demo_t0. split; [exact demo_started|apply rtc_refl]. Qed.
Lemma demo_reachable1 : identity_reachable (i_devices demo_identity) demo_t1.
Proof. exists demo_t0. split; [exact demo_started|]. exact (rtc_once _ _ demo_step1). Qed.
Lemma demo_reachable2 : identity_reachable (i_devices demo_identity) demo_t2.
Proof.
  exists demo_t0. split; [exact demo_started|].
  exact (rtc_l _ _ _ _ demo_step1 (rtc_once _ _ demo_step2)).
Qed.
Lemma demo_reachable3 : identity_reachable (i_devices demo_identity) demo_t3.
Proof.
  exists demo_t0. split; [exact demo_started|].
  exact (rtc_l _ _ _ _ demo_step1 (rtc_l _ _ _ _ demo_step2 (rtc_once _ _ demo_step3))).
Qed.

Definition demo_headers : HeaderMap :=
  [("cookie", "theme=dark; __Host-yzc=" +:+ encode demo_session); ("x-yzc-binding", demo_binding)].
Definition demo_registration2 : Registration :=
  mkRegistration "pairing" "Ann's phone" (Some demo_device_id) 0 (seconds 100).
Definition demo_second : VerifiedRegistration :=
  mkVerifiedRegistration demo_device_id
    (mkCredential (encode (zeros 5)) "host.ts.net" (encode (zeros 4)) STATE_FORMAT 0 false false []).

Example demo_runs :
  (demo_login demo_t0).1 = Ok (LoggedIn demo_session demo_binding demo_device_id)
  ∧ (demo_elevation demo_t1).1 = Ok (Elevated (seconds 500))
  ∧ (demo_peer demo_t2).1 = Ok (Some 0).
Proof. vm_compute. split_and!; reflexivity. Qed.

Lemma identity_invariant_witness :
  identity_reachable (i_devices demo_identity) demo_t3 ∧ (size (i_peers demo_t3.1) ≤ 16)%nat.
Proof.
  split; [exact demo_reachable3|].
  exact (proj1 (proj2 (identity_invariant _ demo_t3 demo_reachable3))).
Defined.

Lemma desktop_replica_witness :
  identity_reachable (i_devices demo_identity) demo_t3
  ∧ forget <$> i_devices demo_t3.1 !! demo_device_id =
    forget <$> match i_notifications demo_t3.1 !! demo_device_id with
               | Some pending => pending
               | None => replica (i_devices demo_identity) (world_log demo_t3.2) !! demo_device_id
               end.
Proof. split; [exact demo_reachable3|]. exact (desktop_replica _ demo_t3 demo_reachable3 demo_device_id). Defined.

Lemma validate_exact_witness :
  identity_reachable (i_devices demo_identity) demo_t3
  ∧ ∃ b i' w', validate (E := Failure) demo_session "host.ts.net" Control demo_t3 = (Ok b, (i', w'))
      ∧ (b = true ↔ authorised demo_t3.1 demo_session "host.ts.net" Control (world_time w')).
Proof.
  split; [exact demo_reachable3|].
  destruct (validate_exact _ demo_t3 demo_session "host.ts.net" Control demo_reachable3)
    as (b & i' & w' & Hrun & _ & _ & Hiff & _).
  exists b, i', w'. split; [exact Hrun|exact Hiff].
Defined.

Lemma demo_peer_run : demo_peer demo_t2 = (Ok (Some 0), demo_t3).
Proof. unfold demo_t3. apply run_eq. vm_compute. reflexivity. Qed.

Lemma with_authorized_sound_witness :
  demo_peer demo_t2 = (Ok (Some 0), demo_t3)
  ∧ ∃ now, authorised demo_t2.1 demo_session "host.ts.net" View now.
Proof.
  split; [exact demo_peer_run|].
  destruct (with_authorized_sound _ demo_t2 "host.ts.net" demo_ctx View (peer_registration demo_ctx)
    (Some 0) demo_t3 demo_reachable2 demo_peer_run) as (s & d & first & w1 & _ & _ & _ & _ & _ & _ & Ha & _).
  exists first. exact Ha.
Defined.

Definition demo_request := authenticate demo_headers "host.ts.net" View.
Lemma demo_request_run : demo_request demo_t3 = (Ok demo_ctx, (demo_request demo_t3).2).
Proof. apply run_eq. vm_compute. reflexivity. Qed.
Lemma authenticate_sound_witness :
  demo_request demo_t3 = (Ok demo_ctx, (demo_request demo_t3).2)
  ∧ cookie_id demo_headers = Some demo_session.
Proof.
  split; [exact demo_request_run|].
  exact (proj1 (authenticate_sound _ demo_t3 demo_headers "host.ts.net" View demo_ctx _
    demo_reachable3 demo_request_run)).
Defined.

Definition demo_revoked := identity_command demo_revoke demo_t3.
Lemma demo_revoked_run : demo_revoked.1 = Ok Applied.
Proof. vm_compute. reflexivity. Qed.
Lemma command_atomic_witness :
  demo_revoked.1 = Ok Applied
  ∧ ∀ sid s, i_sessions demo_revoked.2.1 !! sid = Some s → s_device_id s ≠ demo_device_id.
Proof.
  split; [exact demo_revoked_run|].
  pose proof (command_atomic _ demo_t3 demo_revoke demo_reachable3) as Hc.
  fold demo_revoked in Hc. rewrite demo_revoked_run in Hc.
  destruct Hc as (d & o & wd & name & _ & _ & _ & Hs & _). intros sid s Hsid. exact (proj1 (Hs sid s Hsid)).
Defined.

(** The same revocation when the queue has no room: still done. *)
Definition no_room (t : Identity * SimWorld) : Identity * SimWorld :=
  (t.1, mkSim (sim_time t.2) 1 0 5 (sim_log t.2)).
Lemma no_room_step t : identity_step t (no_room t).
Proof.
  destruct t as [i w]. apply (istep_world _ _ _ []); simpl; [by rewrite app_nil_r|constructor|lia].
Qed.
Definition demo_full : Identity * SimWorld := no_room demo_t3.
Lemma demo_reachable_full : identity_reachable (i_devices demo_identity) demo_full.
Proof.
  destruct demo_reachable3 as (t0 & Ht0 & Hs). exists t0. split; [exact Ht0|].
  exact (rtc_r _ _ _ Hs (no_room_step demo_t3)).
Qed.
Definition demo_kept : Device :=
  default demo_device (i_devices demo_full.1 !! demo_device_id).
Lemma tightening_never_refused_witness :
  sim_room demo_full.2 = 0%nat ∧ ∃ res, (identity_command demo_revoke demo_full).1 = Ok res.
Proof.
  split; [reflexivity|].
  eapply (tightening_never_refused _ demo_full demo_revoke demo_kept None "device.revoke" demo_reachable_full).
  - exists (zeros 16). vm_compute. reflexivity.
  - vm_compute. reflexivity.
  - reflexivity.
Defined.

Lemma lockout_witness :
  i_devices demo_full.1 !! demo_device_id = Some demo_kept
  ∧ ∃ i' w', assertion_failed (E := Failure) demo_device_id true demo_full = (Ok tt, (i', w'))
      ∧ i_devices i' !! demo_device_id = Some (device_set_locked true demo_kept).
Proof.
  assert (i_devices demo_full.1 !! demo_device_id = Some demo_kept) as Hd by (vm_compute; reflexivity).
  assert (d_locked demo_kept = false) as Hl by (vm_compute; reflexivity).
  split; [exact Hd|].
  destruct (lockout _ demo_full demo_device_id true demo_kept demo_reachable_full Hd Hl)
    as (i' & w' & Hrun & Hyes & _).
  exists i', w'. split; [exact Hrun|]. exact (proj1 (Hyes (or_introl eq_refl))).
Defined.

Lemma demo_elevation_run : demo_elevation demo_t1 = (Ok (Elevated (seconds 500)), demo_t2).
Proof. unfold demo_t2. apply run_eq. vm_compute. reflexivity. Qed.
Lemma assertion_outcome_witness :
  demo_elevation demo_t1 = (Ok (Elevated (seconds 500)), demo_t2)
  ∧ elevated demo_ctx Control (seconds 500) demo_t2.1 demo_t2.2.
Proof.
  split; [exact demo_elevation_run|].
  destruct (assertion_outcome _ demo_t1 demo_rp demo_elevation_state demo_answer
    (Some (demo_ctx, Control)) (Ok (Elevated (seconds 500))) demo_t2 demo_reachable1 demo_elevation_run) as [_ [_ He _ _]].
  destruct (He (seconds 500) eq_refl) as (c & scope & Hc & _ & Hel). injection Hc as <- <-. exact Hel.
Defined.

Definition demo_enrol := register_verified demo_registration2 demo_second.
Lemma demo_enrol_run : demo_enrol demo_t0 = (Ok demo_device_id, (demo_enrol demo_t0).2).
Proof. apply run_eq. vm_compute. reflexivity. Qed.
Lemma registration_commits_witness :
  demo_enrol demo_t0 = (Ok demo_device_id, (demo_enrol demo_t0).2)
  ∧ registered demo_registration2 demo_second demo_device_id demo_t0.1 demo_t0.2
      (demo_enrol demo_t0).2.1 (demo_enrol demo_t0).2.2.
Proof.
  split; [exact demo_enrol_run|].
  exact (registration_commits _ demo_t0 demo_registration2 demo_second
    (Ok demo_device_id) (demo_enrol demo_t0).2 demo_reachable0 demo_enrol_run).
Defined.

(** ** A wall clock that went back

    A device registered at second 50 by an earlier run, and a gateway that starts
    at second 0: the first login records a last use before the creation, which is
    what [Device::valid] rejects on the next start. *)

Definition early_device : Device :=
  mkDevice demo_device_id "Ann's phone" [demo_credential]
    (mkGrants (Some (mkControlGrant (seconds 500))) false) false (seconds 50) (seconds 60).
Definition early_identity : Identity :=
  match identity_new [early_device] demo_policy with
  | inr i => i
  | inl _ => demo_identity
  end.
Lemma last_seen_before_creation :
  device_valid early_device = true
  ∧ deserialize_devices [early_device] = Some [early_device]
  ∧ (device_valid <$> i_devices (demo_login (early_identity, demo_world)).2.1 !! demo_device_id) = Some false.
Proof. vm_compute. split_and!; reflexivity. Qed.
