(* ===== verification/StoreProps.v ===== *)
(** * The stored devices: what the desktop relies on

    Its rules are the gateway's, what the gateway writes reads back, its own edits do
    what the gateway would do, and memory and file agree. *)

From stdpp Require Import base gmap strings list.
From Stdlib Require Import ZArith Lia.
From S2P Require Import Prelude Rust Externals Crates Files Clock Devices DeviceJson Store.
From S2P Require Import Store Admin EventJson Events World Pairing Webauthn Session SessionInv SessionOps.
From S2P Require Import SessionOps SessionProps.

Local Open Scope Z_scope.

(** ** [companion_commands.rs]: the frames of device commands *)
Section Frames.
Context (rfc3339 : Timestamp → string).
(** [companion_device_update], [companion_device_unlock], [companion_device_revoke] *)
Definition command_frame (c : DeviceCommand) : Value :=
  match c with
  | DeviceUpdate _ id label grants =>
      VObject [("type", VString "device.update"); ("deviceId", VString id);
               ("label", or_null VString label); ("grants", or_null (grants_value rfc3339) grants)]
  | DeviceUnlock _ id => VObject [("type", VString "device.unlock"); ("deviceId", VString id)]
  | DeviceRevoke _ id => VObject [("type", VString "device.revoke"); ("deviceId", VString id)]
  end.
(** What they check first *)
Definition command_checked (c : DeviceCommand) : bool :=
  match c with DeviceUpdate _ _ (Some label) _ => Rules.valid_label label | _ => true end.
Definition command_dated (parse : string → option (Z * Z * Timestamp)) (c : DeviceCommand) : Prop :=
  match c with DeviceUpdate _ _ _ (Some g) => grants_dated parse rfc3339 g | _ => True end.
End Frames.

(** The table that a list of devices stands for *)
Definition table (ds : list Device) : gmap string Device := list_to_map ((λ d, (d_device_id d, d)) <$> ds).

Section Lists.
Context (parse : string → option (Z * Z * Timestamp)) (rfc3339 : Timestamp → string).
Abbreviation device_value := (device_value rfc3339).
Implicit Types (d : Device) (ds : list Device).

Lemma device_id_value d : d_device_id d ≠ "" → device_id (device_value d) = Some (d_device_id d).
Proof. intros Hd. unfold device_id, DeviceJson.device_value. read_object. by rewrite bool_decide_false. Qed.
Lemma table_cons d ds : table (d :: ds) = <[d_device_id d := d]> (table ds).
Proof. reflexivity. Qed.
Lemma table_none ds id : id ∉ (d_device_id <$> ds) → table ds !! id = None.
Proof. intros Hid. apply not_elem_of_list_to_map. by rewrite <- list_fmap_compose. Qed.

Abbreviation named ds := (Forall (λ d, d_device_id d ≠ "") ds).

Lemma find_value ds id d : named ds → table ds !! id = Some d →
  List.find (λ v, bool_decide (device_id v = Some id)) (device_value <$> ds) = Some (device_value d) ∧ d_device_id d = id.
Proof.
  intros Hn. induction Hn as [|d' ds Hd' _ IH]; [done|]. rewrite fmap_cons, table_cons. cbn [List.find].
  rewrite device_id_value by done. intros Ht. case_bool_decide as Hid.
  - injection Hid as <-. rewrite lookup_insert_eq in Ht. by injection Ht as ->.
  - apply IH. rewrite lookup_insert_ne in Ht; [done|congruence].
Qed.
Lemma replace_value ds id d d' : named ds → NoDup (d_device_id <$> ds) → table ds !! id = Some d → d_device_id d' = id →
  ∃ ds', replace_first id (device_value d') (device_value <$> ds) = Some (device_value <$> ds')
    ∧ table ds' = <[id := d']> (table ds) ∧ d_device_id <$> ds' = d_device_id <$> ds
    ∧ ∀ x, x ∈ ds' → x = d' ∨ x ∈ ds.
Proof.
  intros Hn Hnd Ht Hid. revert Ht. induction Hn as [|d0 ds Hd0 _ IH]; [done|]. rewrite fmap_cons, NoDup_cons in Hnd.
  destruct Hnd as [Hd0' Hnd]. rewrite table_cons, (fmap_cons device_value). cbn [replace_first].
  rewrite device_id_value by done. intros Ht. case_bool_decide as Heq.
  - injection Heq as Heq. exists (d' :: ds). split; [done|]. rewrite table_cons, Hid, Heq, insert_insert_eq. split; [done|].
    rewrite !fmap_cons, Hid, Heq. split; [done|]. intros x [->|Hx]%elem_of_cons; [by left|]. right. by right.
  - assert (d_device_id d0 ≠ id) as Hne by congruence. rewrite lookup_insert_ne in Ht by done.
    destruct (IH Hnd Ht) as (ds' & Hr & Ht' & Hids & Hin). exists (d0 :: ds'). rewrite Hr. split; [done|].
    rewrite table_cons, Ht', insert_insert_ne by done. split; [done|]. rewrite !fmap_cons, Hids. split; [done|].
    intros x [->|Hx]%elem_of_cons; [right; left|]. destruct (Hin x Hx); [by left|]. right. by right.
Qed.
Lemma remove_value ds id : named ds → NoDup (d_device_id <$> ds) →
  ∃ ds', List.filter (λ v, negb (bool_decide (device_id v = Some id))) (device_value <$> ds) = device_value <$> ds'
    ∧ table ds' = delete id (table ds) ∧ NoDup (d_device_id <$> ds') ∧ ∀ x, x ∈ ds' → x ∈ ds.
Proof.
  intros Hn Hnd. induction Hn as [|d0 ds Hd0 _ IH].
  { exists []. split; [done|]. split; [unfold table; simpl; by rewrite delete_empty|]. split; [constructor|done]. }
  rewrite fmap_cons, NoDup_cons in Hnd. destruct Hnd as [Hd0' Hnd]. destruct (IH Hnd) as (ds' & Hf & Ht & Hnd' & Hin).
  rewrite table_cons, (fmap_cons device_value). cbn [List.filter]. rewrite device_id_value by done. case_bool_decide as Heq; cbn [negb].
  - injection Heq as Heq. exists ds'. split; [done|]. rewrite Heq, delete_insert_eq. split; [done|]. split; [done|].
    intros x Hx. right. by apply Hin.
  - assert (d_device_id d0 ≠ id) by congruence. exists (d0 :: ds'). rewrite Hf. split; [done|].
    rewrite table_cons, Ht, delete_insert_ne by done. split; [done|]. split.
    + rewrite fmap_cons, NoDup_cons. split; [|done]. intros (x & Hx & Hx')%list_elem_of_fmap. apply Hd0'. rewrite Hx.
      apply list_elem_of_fmap_2. by apply Hin.
    + intros x [->|Hx]%elem_of_cons; [left|]. right. by apply Hin.
Qed.
End Lists.

(** ** One command, here and in the gateway *)
Section Changes.
Context (parse : string → option (Z * Z * Timestamp)) (rfc3339 : Timestamp → string).
Abbreviation device_value := (device_value rfc3339).
Abbreviation grants_value := (grants_value rfc3339).

Lemma grants_until_value g : grants_dated parse rfc3339 g → grants_until parse (grants_value g) = cg_until <$> g_control g.
Proof.
  unfold grants_dated, grants_until, DeviceJson.grants_value. destruct g as [[[until]|] full]; cbn [g_control g_full cg_until]; intros Hg.
  - unfold control_value, timestamp_value, dated in *. cbn [cg_until] in *. read_object.
    unfold timestamp_deserialize in Hg. destruct (negb _); [done|].
    destruct (parse (rfc3339 until)) as [[[o n] t]|]; [|done].
    destruct (negb (o =? 0) || (1000000000 <=? n)); [done|]. by injection Hg as ->.
  - by read_object.
Qed.
Lemma grants_full_value g : grants_full (grants_value g) = g_full g.
Proof. unfold grants_full, DeviceJson.grants_value. by read_object. Qed.
Lemma mixed_value old new : grants_dated parse rfc3339 old → grants_dated parse rfc3339 new →
  mixed parse (grants_value old) (grants_value new) =
  (option_lt (cg_until <$> g_control new) (cg_until <$> g_control old) || (negb (g_full new) && g_full old))
  && (option_lt (cg_until <$> g_control old) (cg_until <$> g_control new) || (g_full new && negb (g_full old))).
Proof. intros Ho Hn. unfold mixed. by rewrite !grants_until_value, !grants_full_value. Qed.

Lemma set_label l d : value_set "label" (VString l) (device_value d) = Some (device_value (device_set_label l d)).
Proof. reflexivity. Qed.
Lemma set_grants g d : value_set "grants" (grants_value g) (device_value d) = Some (device_value (device_set_grants g d)).
Proof. reflexivity. Qed.
Lemma set_locked b d : value_set "locked" (VBool b) (device_value d) = Some (device_value (device_set_locked b d)).
Proof. reflexivity. Qed.
Lemma device_grants d : value_index "grants" (device_value d) = grants_value (d_grants d).
Proof. unfold DeviceJson.device_value. by read_object. Qed.

Definition revokes (c : DeviceCommand) : bool := match c with DeviceRevoke _ _ => true | _ => false end.
Lemma apply_change_value c d : command_dated rfc3339 parse c → grants_dated parse rfc3339 (d_grants d) →
  command_checked c = true → revokes c = false →
  match command_change c d with
  | None => ∃ e, apply_change parse (command_frame rfc3339 c) (device_value d) = inl e
  | Some (Some d', _, _) => apply_change parse (command_frame rfc3339 c) (device_value d) = inr (Some (device_value d'))
  | Some (None, _, _) => False
  end.
Proof.
  intros Hc Hd Hl Hr. unfold apply_change, present. rewrite device_grants. destruct c as [v id label grants|v id|v id]; [| |].
  - unfold command_frame. read_object. cbn [value_is]. unfold value_is. cbn [as_str].
    rewrite (bool_decide_true (Some "device.update" = Some "device.update")) by done.
    assert (∀ A (f : A → Value) (o : option A), (∀ a, is_null (f a) = false) →
      (if is_null (or_null f o) then None else Some (or_null f o)) = f <$> o) as Hnull.
    { intros A f [a|] Hf; cbn; [by rewrite Hf|done]. }
    rewrite !Hnull by done. cbn [command_change]. destruct label as [label|], grants as [grants|].
    + cbn [command_checked] in Hl. rewrite label_same in Hl. rewrite Hl.
      cbn [fmap option_fmap option_map mbind option_bind command_dated] in *. rewrite mixed_value by done.
      cbn [andb bool_decide]. rewrite bool_decide_false by done. cbn [andb].
      cbn [d_grants device_set_label].
      match goal with |- context [if ?b then inl _ else _] => destruct b end; [by eauto|].
      unfold set_present. rewrite set_label. cbn [mbind option_bind]. by rewrite set_grants.
    + cbn [command_checked] in Hl. rewrite label_same in Hl. rewrite Hl.
      cbn [fmap option_fmap option_map mbind option_bind] in *. rewrite bool_decide_false by done. cbn [andb].
      unfold set_present. by rewrite set_label.
    + cbn [fmap option_fmap option_map mbind option_bind command_dated] in *. rewrite mixed_value by done.
      rewrite !bool_decide_true, bool_decide_false by done. cbn [andb].
      match goal with |- context [if ?b then inl _ else _] => destruct b end; [by eauto|].
      unfold set_present. cbn [mbind option_bind]. by rewrite set_grants.
    + by eauto.
  - done.
  - unfold command_frame. read_object. unfold value_is. cbn [as_str command_change].
    rewrite bool_decide_false by done. rewrite bool_decide_true by done. by rewrite set_locked.
Qed.
End Changes.

(** ** The rules *)
Section Rules.
Context `{Base64, Crypto, !Webauthn Transport} (parse : string → option (Z * Z * Timestamp)) (rfc3339 : Timestamp → string).
Hypothesis utc_offset : ∀ s o n t, utc_shape (bytes s) = true → parse s = Some (o, n, t) → o = 0.

(** What both sides ask of the devices of a list. *)
Definition list_rest (ds : list Device) : Prop :=
  (length ds ≤ 64)%nat ∧ Forall device_rest ds ∧ NoDup (d_device_id <$> ds) ∧ NoDup (ds ≫= keys_of).
Definition keys_parse (ds : list Device) : Prop := Forall (λ d, Forall (λ c, key_ok c = true) (d_credentials d)) ds.

(** The desktop insists on a [control] in the grants. *)
Lemma device_from_shown v seen r : Rules.device_from parse seen v = Some r → control_shown v = true.
Proof.
  unfold Rules.device_from. destruct seen as [ids creds]. destruct (negb _); [done|]. intros Hr.
  apply bind_Some in Hr as (i & _ & Hr). destruct (negb _); [done|].
  destruct (_ && Rules.valid_grants parse (value_index "grants" v) && _ && _) eqn:Hok; [|done].
  rewrite !andb_true_iff in Hok. destruct Hok as [[[_ Hg] _] _]. unfold control_shown, has_control.
  unfold Rules.valid_grants in Hg. destruct (value_index "grants" v) as [| | | | |o]; try done. cbn [as_object value_get] in *.
  destruct (assoc "control" o) as [c|]; [by rewrite bool_decide_true by eauto|]. by rewrite andb_false_r in Hg.
Qed.
Lemma devices_from_shown vs seen :
  is_Some (Rules.devices_from parse seen vs) → Forall (λ v, control_shown v = true) vs.
Proof.
  revert seen. induction vs as [|v vs IH]; intros seen Hr; [constructor|]. cbn [Rules.devices_from] in Hr.
  destruct (Rules.device_from parse seen v) as [seen'|] eqn:Hv; [|by destruct Hr]. cbn [mbind option_bind] in Hr.
  constructor; [by eapply device_from_shown|by eapply IH].
Qed.

Lemma valid_devices_spec vs : Forall (λ v, value_wf v = true) vs →
  Rules.valid_devices parse vs = true ↔
  Forall (λ v, control_shown v = true) vs ∧ ∃ ds, mapM (device_of parse) vs = Some ds ∧ list_rest ds.
Proof.
  intros Hwf. unfold Rules.valid_devices, list_rest. rewrite andb_true_iff, !bool_decide_eq_true. split.
  - intros [Hlen Hfrom]. pose proof (devices_from_shown _ _ Hfrom) as Hc. split; [done|].
    apply (devices_same parse utc_offset) in Hfrom as (ds & Hds & Hr & Hi & Hk & _); [|done..].
    exists ds. by rewrite <- (length_mapM _ _ _ Hds).
  - intros (Hc & ds & Hds & Hlen & Hr & Hi & Hk). rewrite (length_mapM _ _ _ Hds). split; [done|].
    apply (devices_same parse utc_offset); [done..|]. exists ds. repeat (split; [done|]).
    apply Forall_forall. intros d _. split; [set_solver|]. intros c _. set_solver.
Qed.
Lemma read_devices_spec vs : is_Some (read_devices parse vs) ↔
  ∃ ds, mapM (device_of parse) vs = Some ds ∧ list_rest ds ∧ keys_parse ds.
Proof.
  unfold read_devices, list_rest, keys_parse. split.
  - intros [ds' Hds']. apply bind_Some in Hds' as (ds & Hds & (-> & Hlen & Hv & Hi & Hk)%deserialize_spec).
    exists ds. split; [done|]. rewrite Forall_forall in Hv. split.
    + repeat (split; [done|]). split; [|done]. apply Forall_forall. intros d Hd. by apply device_valid_rest, Hv.
    + apply Forall_forall. intros d Hd. by apply device_valid_rest, Hv.
  - intros (ds & Hds & (Hlen & Hr & Hi & Hk) & Hkeys). rewrite Hds. cbn [mbind option_bind]. exists ds.
    apply deserialize_spec. repeat (split; [done|]). split; [|done]. rewrite Forall_forall in Hr, Hkeys |- *.
    intros d Hd. apply device_valid_rest. auto.
Qed.

(** C21. What the desktop's check of a stored list and the gateway's reading of an init
    frame have in common, and where they differ, for any list of JSON values whose
    objects name no key twice.  The list passes the desktop's check exactly when it
    parses as devices that satisfy the rules and every [grants] shows a [control];
    the gateway takes it exactly when it parses as devices that satisfy the very same
    rules and it can parse every key state, which the desktop does not look at.  So a
    list the desktop lets through is refused by the gateway only for a key state it
    cannot parse, and a list the gateway takes is set aside by the desktop only for
    grants without a [control]. *)
Theorem store_rules vs : Forall (λ v, value_wf v = true) vs →
  let shown := Forall (λ v, control_shown v = true) vs in
  (Rules.valid_devices parse vs = true ↔ shown ∧ ∃ ds, mapM (device_of parse) vs = Some ds ∧ list_rest ds)
  ∧ (is_Some (read_devices parse vs) ↔ ∃ ds, mapM (device_of parse) vs = Some ds ∧ list_rest ds ∧ keys_parse ds)
  ∧ (Rules.valid_devices parse vs = true → ∃ ds, mapM (device_of parse) vs = Some ds
       ∧ (is_Some (read_devices parse vs) ↔ keys_parse ds))
  ∧ (is_Some (read_devices parse vs) → Rules.valid_devices parse vs = true ↔ shown).
Proof.
  intros Hwf shown. pose proof (valid_devices_spec vs Hwf) as Hv. pose proof (read_devices_spec vs) as Hr.
  split; [exact Hv|]. split; [exact Hr|]. split.
  - intros (_ & ds & Hds & Hrest)%Hv. exists ds. split; [done|]. rewrite Hr, Hds. split.
    + by intros (ds' & [= <-] & _ & Hk).
    + intros Hk. by exists ds.
  - intros (ds & Hds & Hrest & _)%Hr. rewrite Hv. split; [by intros [? _]|]. intros Hs. split; [done|]. by exists ds.
Qed.

Lemma device_value_wf d : value_wf (device_value rfc3339 d) = true ∧ control_shown (device_value rfc3339 d) = true.
Proof.
  assert (value_wf (VArray (credential_value <$> d_credentials d)) = true) as Hcs.
  { cbn [value_wf]. apply forallb_Forall, Forall_fmap, Forall_true. intros c.
    assert (value_wf (VArray ((λ t, VString (transport_name t)) <$> cr_transports c)) = true) as Hts.
    { cbn [value_wf]. by apply forallb_Forall, Forall_fmap, Forall_true. }
    unfold compose, credential_value. cbn [value_wf forallb snd] in *. by rewrite Hts. }
  split.
  - unfold device_value. cbn [value_wf forallb snd] in *. rewrite Hcs. unfold grants_value.
    by destruct (g_control (d_grants d)).
  - unfold control_shown, has_control. rewrite device_grants. unfold grants_value. read_object. by rewrite bool_decide_true.
Qed.

(** The devices of a gateway, once written as it writes them, pass the desktop's
    check and are read back as they were. *)
Theorem devices_roundtrip ds :
  deserialize_devices ds = Some ds →
  Forall (device_dated parse rfc3339) ds → Forall (λ d, Forall counted (d_credentials d)) ds →
  Rules.valid_devices parse (device_value rfc3339 <$> ds) = true
  ∧ read_devices parse (device_value rfc3339 <$> ds) = Some ds.
Proof.
  intros Hds Hdated Hcounted. pose proof (devices_read parse rfc3339 ds Hdated Hcounted) as Hread.
  unfold read_devices. rewrite Hread. split; [|done].
  apply valid_devices_spec; [by apply Forall_fmap, Forall_true; intros d; apply device_value_wf|].
  split; [by apply Forall_fmap, Forall_true; intros d; apply device_value_wf|].
  apply deserialize_spec in Hds as (_ & Hlen & Hv & Hi & Hk). exists ds. repeat (split; [done|]). split; [|done].
  eapply Forall_impl; [exact Hv|]. by intros d [Hd _]%device_valid_rest.
Qed.
End Rules.

(** ** Edits *)
Section Edits.
Context `{Base64, Fs D, !FsLaws H0} (windows : bool).
Context (parse : string → option (Z * Z * Timestamp)) (rfc3339 : Timestamp → string).
Context (from_slice : string → option DevicesFile) (to_vec_pretty : DevicesFile → string + string).
Abbreviation device_value := (device_value rfc3339).
Implicit Types (s : Devices * D) (ds : list Device).

(** C8. An edit of the desktop's does to the stored devices what the same command does to
    the gateway's: it is refused, without effect, when the gateway would refuse it;
    otherwise the file gets the very devices the gateway would have, or the write
    failed and memory is as before. *)
Theorem edits_agree c s ds d :
  ds_devices s.1 = device_value <$> ds → Forall (λ d, d_device_id d ≠ "") ds → NoDup (d_device_id <$> ds) →
  table ds !! command_id c = Some d → grants_dated parse rfc3339 (d_grants d) → command_dated rfc3339 parse c →
  command_checked c = true →
  wp (devices_apply windows parse to_vec_pretty (command_frame rfc3339 c)) (λ r s',
    match command_change c d with
    | None => s' = s ∧ ∃ e, r = Err e
    | Some (snapshot, _, _) => ∃ ds',
        table ds' = match snapshot with
                    | Some d' => <[command_id c := d']> (table ds)
                    | None => delete (command_id c) (table ds)
                    end
        ∧ committed to_vec_pretty (device_value <$> ds') s r s'
    end) s.
Proof.
  intros Hs Hn Hnd Ht Hdg Hcg Hl. unfold devices_apply.
  assert (as_str (value_index "deviceId" (command_frame rfc3339 c)) = Some (command_id c)) as ->
    by (destruct c; unfold command_frame; by read_object).
  apply wp_bind, wp_ok_or.
  assert (value_is (value_index "type" (command_frame rfc3339 c)) "device.revoke" = revokes c) as ->
    by (destruct c; unfold command_frame; by read_object).
  destruct (revokes c) eqn:Hr.
  { eapply wp_mono; [apply remove_spec|]. intros r s' Hc. destruct c; try done. cbn [command_change].
    rewrite Hs in Hc. destruct (remove_value rfc3339 ds (command_id (DeviceRevoke v device_id)) Hn Hnd) as (ds' & Hf & Ht' & _).
    rewrite Hf in Hc. by exists ds'. }
  apply wp_bind, wp_gets, wp_bind, wp_ok_or. rewrite Hs.
  destruct (find_value rfc3339 ds (command_id c) d Hn Ht) as [-> Hid].
  pose proof (apply_change_value parse rfc3339 c d Hcg Hdg Hl Hr) as Ha.
  destruct (command_change c d) as [[[[d'|] w] n]|] eqn:Hch; [|done|].
  - rewrite Ha. apply wp_bind, wp_expect. destruct (command_change_id _ _ _ _ _ Hch d' eq_refl) as [Hsame _].
    assert (d_device_id d' = command_id c) as Hid' by congruence.
    eapply wp_mono; [apply (upsert_spec _ _ (command_id c))|].
    { rewrite <- Hid'. apply device_id_value. rewrite Hid', <- Hid. rewrite Forall_forall in Hn. apply Hn.
      apply elem_of_list_to_map_2 in Ht. apply list_elem_of_fmap in Ht as (x & [= _ ->] & Hx). done. }
    intros r s' Hc. rewrite Hs in Hc.
    destruct (replace_value rfc3339 ds (command_id c) d d' Hn Hnd Ht Hid') as (ds' & Hre & Ht' & _). rewrite Hre in Hc.
    by exists ds'.
  - destruct Ha as [e ->]. apply wp_throw. eauto.
Qed.

Hypothesis reads_back : ∀ f b, to_vec_pretty f = inr b → from_slice (b +:+ newline) = Some f.

(** C20. Memory follows disk.  An edit that succeeds leaves in memory the list the edit
    asks for, and on disk the file of exactly that list; the next load finds it, unless
    the file cannot be read: it gives memory back when the list passes the check of a
    load, and sets the file aside as corrupt when it does not, which the edit itself
    did not check.  An edit that fails leaves memory as it was, and the file either as
    it was or with the list it asked for, whole (the directory entry could not be
    synchronized).  No edit panics or touches another file but the temporary one. *)
Theorem memory_follows_disk e s dir : ds_path s.1 = (dir, DEVICES_FILE) →
  wp (run_edit windows parse to_vec_pretty e) (λ r s',
    (∀ q, q ≠ (dir, DEVICES_FILE) → q ≠ tmp_of (dir, DEVICES_FILE) → fs_file s'.2 q = fs_file s.2 q) ∧
    match r with
    | Ok _ => edit_next parse e (ds_devices s.1) = Some (ds_devices s'.1) ∧ ds_path s'.1 = ds_path s.1
        ∧ stored_as to_vec_pretty (ds_devices s'.1) (fs_file s'.2 (dir, DEVICES_FILE))
        ∧ wp (devices_load parse from_slice dir) (λ r _,
            r = (if Rules.valid_devices parse (ds_devices s'.1) then Ok s'.1 else Err "companion-store-corrupt")
            ∨ ∃ text, r = Err ("companion-store-unreadable: " +:+ text)) s'.2
    | Err _ => s'.1 = s.1
        ∧ (fs_file s'.2 (dir, DEVICES_FILE) = fs_file s.2 (dir, DEVICES_FILE)
           ∨ ∃ next, edit_next parse e (ds_devices s.1) = Some next
               ∧ stored_as to_vec_pretty next (fs_file s'.2 (dir, DEVICES_FILE)))
    | Panic => False
    end) s.
Proof.
  intros Hp. eapply wp_mono; [apply edit_spec|]. intros r s' Hr.
  destruct (edit_next parse e (ds_devices s.1)) as [next|]; [|destruct Hr as [-> [err ->]]; by auto].
  destruct Hr as [Hq Hr]. rewrite Hp in Hq, Hr. split; [done|]. destruct r as [|err|]; [| |done].
  - destruct Hr as [Hs' Hst]. rewrite Hs'. cbn [ds_devices ds_path]. split; [done|]. split; [done|]. split; [done|].
    eapply wp_mono; [by eapply load_spec|]. by intros r s1 [_ ?].
  - destruct Hr as [Hs' Hst]. split; [done|]. destruct Hst; eauto.
Qed.
End Edits.

(** ** The demo device on a disk, computed *)
Definition demo_values : list Value := [device_value sim_rfc3339 demo_device].
Lemma demo_dated : Forall (device_dated sim_parse_rfc3339 sim_rfc3339) [demo_device].
Proof. constructor; [|constructor]. by repeat split; vm_compute. Qed.
Lemma demo_accepted : deserialize_devices [demo_device] = Some [demo_device].
Proof. vm_cast_no_check (eq_refl (Some [demo_device])). Qed.

Lemma store_rules_witness :
  Rules.valid_devices sim_parse_rfc3339 demo_values = true
  ∧ mapM (device_of sim_parse_rfc3339) demo_values = Some [demo_device] ∧ list_rest [demo_device]
  ∧ is_Some (read_devices sim_parse_rfc3339 demo_values).
Proof.
  assert (Rules.valid_devices sim_parse_rfc3339 demo_values = true) as Hv by (vm_compute; reflexivity).
  assert (mapM (device_of sim_parse_rfc3339) demo_values = Some [demo_device]) as Hd by (vm_compute; reflexivity).
  destruct (store_rules sim_parse_rfc3339 sim_utc_offset demo_values) as (Hvalid & Hread & _ & _).
  { constructor; [vm_compute; reflexivity|constructor]. }
  destruct (proj1 Hvalid Hv) as (_ & ds & Hds & Hrest). rewrite Hd in Hds. injection Hds as <-.
  split; [exact Hv|]. split; [exact Hd|]. split; [exact Hrest|]. apply Hread. exists [demo_device].
  split; [exact Hd|]. split; [exact Hrest|]. constructor; [|constructor]. constructor; [vm_compute; reflexivity|constructor].
Defined.
Lemma devices_roundtrip_witness :
  deserialize_devices [demo_device] = Some [demo_device]
  ∧ Rules.valid_devices sim_parse_rfc3339 (device_value sim_rfc3339 <$> [demo_device]) = true
  ∧ read_devices sim_parse_rfc3339 (device_value sim_rfc3339 <$> [demo_device]) = Some [demo_device].
Proof.
  split; [exact demo_accepted|]. apply (devices_roundtrip sim_parse_rfc3339 sim_rfc3339 sim_utc_offset); [exact demo_accepted|exact demo_dated|].
  constructor; [|constructor]. constructor; [|constructor]. unfold counted. split; vm_compute; discriminate.
Defined.

(** The text of a file, by the encoding of [SimFiles] *)
Definition sim_file_text (f : DevicesFile) : string + string := inr (sim_text (df_version f, df_devices f)).
Definition sim_file_parse (s : string) : option DevicesFile := (λ f, mkDevicesFile f.1 f.2) <$> sim_parse s.
Lemma sim_file_reads f b : sim_file_text f = inr b → sim_file_parse (b +:+ newline) = Some f.
Proof. intros [= <-]. unfold sim_file_parse. rewrite sim_parse_text. by destruct f. Qed.

Definition demo_path : string * string := ("/data", DEVICES_FILE).
Definition demo_store : Devices * SimFs := (mkDevices demo_path demo_values, mkSimFs ∅ []).
Definition demo_update : DeviceCommand :=
  DeviceUpdate 1 demo_device_id (Some "Ann's tablet") (Some (mkGrants (Some (mkControlGrant (seconds 900))) true)).
Lemma edits_agree_witness :
  ∃ ds' s', devices_apply false sim_parse_rfc3339 sim_file_text (command_frame sim_rfc3339 demo_update) demo_store = (Ok tt, s')
    ∧ ds_devices s'.1 = device_value sim_rfc3339 <$> ds'
    ∧ table ds' !! demo_device_id = (d ← (command_change demo_update demo_device); d.1.1).
Proof.
  assert (wp (devices_apply false sim_parse_rfc3339 sim_file_text (command_frame sim_rfc3339 demo_update)) (λ r s',
    match command_change demo_update demo_device with
    | None => s' = demo_store ∧ ∃ e, r = Err e
    | Some (snapshot, _, _) => ∃ ds',
        table ds' = match snapshot with
                    | Some d' => <[command_id demo_update := d']> (table [demo_device])
                    | None => delete (command_id demo_update) (table [demo_device])
                    end
        ∧ committed sim_file_text (device_value sim_rfc3339 <$> ds') demo_store r s'
    end) demo_store) as Hwp.
  { apply (edits_agree false sim_parse_rfc3339 sim_rfc3339 sim_file_text demo_update demo_store [demo_device] demo_device).
    - reflexivity.
    - constructor; [by vm_compute|constructor].
    - apply NoDup_singleton.
    - vm_compute. reflexivity.
    - by vm_compute.
    - by vm_compute.
    - vm_compute. reflexivity. }
  unfold wp in Hwp.
  destruct (devices_apply false sim_parse_rfc3339 sim_file_text (command_frame sim_rfc3339 demo_update) demo_store) as [r s'] eqn:Hrun.
  assert ((r, s').1 = Ok tt) as Hr by (rewrite <- Hrun; vm_compute; reflexivity). cbn in Hr. subst r.
  cbn [fst snd] in Hwp. destruct (command_change demo_update demo_device) as [[[snapshot w] n]|] eqn:Hc; [|by destruct Hwp as [_ [e He]]].
  destruct Hwp as (ds' & Ht & _ & Hs' & _). exists ds', s'. split; [done|]. split; [by rewrite Hs'|]. rewrite Ht. cbn.
  destruct snapshot as [d'|]; [by rewrite lookup_insert_eq|by rewrite lookup_delete_eq].
Defined.
Lemma memory_follows_disk_witness :
  ∃ s', run_edit false sim_parse_rfc3339 sim_file_text (Remove demo_device_id) demo_store = (Ok tt, s')
    ∧ ds_devices s'.1 = []
    ∧ stored_as sim_file_text [] (fs_file s'.2 demo_path)
    ∧ wp (devices_load sim_parse_rfc3339 sim_file_parse "/data") (λ r _,
        r = Ok s'.1 ∨ ∃ text, r = Err ("companion-store-unreadable: " +:+ text)) s'.2.
Proof.
  pose proof (memory_follows_disk false sim_parse_rfc3339 sim_file_parse sim_file_text sim_file_reads
    (Remove demo_device_id) demo_store "/data" eq_refl) as Hwp. unfold wp at 1 in Hwp.
  destruct (run_edit false sim_parse_rfc3339 sim_file_text (Remove demo_device_id) demo_store) as [r s'] eqn:Hrun.
  assert ((r, s').1 = Ok tt) as Hr by (rewrite <- Hrun; vm_compute; reflexivity). cbn in Hr. subst r.
  assert (ds_devices (Ok (E := string) tt, s').2.1 = []) as Hs' by (rewrite <- Hrun; vm_compute; reflexivity). cbn in Hs'.
  destruct Hwp as (_ & _ & _ & Hst & Hload). cbn [fst snd] in Hst, Hload. rewrite Hs' in Hst, Hload.
  exists s'. split; [done|]. split; [exact Hs'|]. split; [exact Hst|exact Hload].
Defined.

(** Grants without a [control] at all, which serde takes for no control, do not pass
    the desktop's check: the difference [store_rules] states. *)
Lemma stricter_without_control parse : let v := VObject [("full", VBool false)] in
  Rules.valid_grants parse v = false ∧ grants_of parse v = Some (mkGrants None false).
Proof. by split. Qed.
