(* ===== verification/SupervisionProps.v ===== *)
(** * The supervisor as a whole

    What holds of every state the supervisor can get into, with its tasks and the
    handlers that hold the store's lock in any order. *)

From stdpp Require Import base gmap strings list relations.
From Stdlib Require Import ZArith Lia.
From S2P Require Import Prelude Rust Externals Crates Clock Files Devices DeviceJson Store Admin EventJson.
From S2P Require Import Pairing Webauthn Events World Session SessionInv SessionOps SessionSpec SessionProps StoreProps Supervisor SupervisionFacts.

Local Open Scope Z_scope.

(** ** Tasks *)

Definition spawns (l : list Task) : list Task := List.filter is_spawning l.
Definition expected_of (t : Task) : Z :=
  match t with TaskSpawn expected _ | TaskInstall expected _ _ => expected | _ => 0 end.
Lemma spawns_app l l' : spawns (l ++ l') = spawns l ++ spawns l'.
Proof. apply List.filter_app. Qed.
Lemma spawns_sublist l l' : l `sublist_of` l' → spawns l `sublist_of` spawns l'.
Proof.
  induction 1 as [|t l l' _ IH|t l l' _ IH]; [done|..]; cbn; destruct (is_spawning t); first [done|by constructor].
Qed.
Lemma spawns_none l : existsb is_spawning l = false → spawns l = [].
Proof. induction l as [|t l IH]; [done|]. cbn. by destruct (is_spawning t). Qed.
Lemma spawns_elem t l : t ∈ spawns l ↔ t ∈ l ∧ is_spawning t = true.
Proof. unfold spawns. by rewrite !list_elem_of_In, List.filter_In. Qed.
(** The only spawning task, taken out *)
Lemma spawns_delete k t l : l !! k = Some t → is_spawning t = true → (length (spawns l) ≤ 1)%nat →
  spawns l = [t] ∧ spawns (delete k l) = [].
Proof.
  intros Hk Ht. assert (∀ x, spawns (t :: x) = t :: spawns x) as Hc by (intros x; unfold spawns; cbn; by rewrite Ht).
  rewrite <- (take_drop_middle l k t Hk) at 1 2. rewrite delete_take_drop, !spawns_app, Hc, length_app. cbn [length].
  intros Hl. by destruct (spawns (take k l)), (spawns (drop (S k) l)); cbn in Hl; try lia.
Qed.

Section System.
Context `{Base64, Fs D, !FsLaws H0, DesktopPush P} (windows : bool).
Context (parse : string → option (Z * Z * Timestamp)).
Context (from_slice : string → option DevicesFile) (to_vec_pretty : DevicesFile → string + string).
Context (dir : string).
Hypothesis reads_back : ∀ f b, to_vec_pretty f = inr b → from_slice (b +:+ newline) = Some f.
Abbreviation Mgr := (Manager D P).
Abbreviation System := (Sys D P).
Abbreviation act := (act windows parse from_slice to_vec_pretty dir).
Abbreviation file_holds := (file_holds from_slice dir).
Abbreviation agrees := (agrees from_slice dir).
Abbreviation store_path := (store_path dir).
Implicit Types (m : Mgr) (s : System).
Abbreviation inner s := (mg_inner (sy_mgr s)).

(** ** Kinds of steps *)

(** A step that touches neither the store nor the lock, and starts nothing *)
Record calm_step s s' : Prop := {
  cs_calm Q : calm (sy_readers s) Q (sy_mgr s) (sy_mgr s');
  cs_readers : sy_readers s' = sy_readers s;
  cs_hold : sy_hold s' = sy_hold s;
  cs_spawns : spawns (sy_tasks s') `sublist_of` spawns (sy_tasks s);
}.
(** A file was read. *)
Definition read_step s s' : Prop :=
  ∃ d, s' = with_mgr (set_disk d (sy_mgr s)) s ∧ fs_file d (devices_path dir) = fs_file (mg_disk (sy_mgr s)) (devices_path dir).
Inductive step_kind (a : Action P) s s' : Prop :=
| kind_calm : calm_step s s' → step_kind a s s'
| kind_lock g p : sy_hold s = None → s' = with_hold (Some (g, p)) s →
    match p with OnEvent _ => g ∈ sy_readers s | OnEdit _ => spawns (sy_tasks s) = [] | _ => False end → step_kind a s s'
| kind_start expected init m : start (sy_mgr s) = (inr expected, m) → ops_free s = true →
    s' = spawn_task (TaskSpawn expected init) (with_mgr m s) → step_kind a s s'
| kind_load k late expected init ds s1 : a = ActTask k late → sy_tasks s !! k = Some (TaskSpawn expected init) →
    read_step (with_tasks (delete k (sy_tasks s)) s) s1 →
    ds_path ds = devices_path dir → file_holds (ds_devices ds) (mg_disk (sy_mgr s1)) →
    s' = spawn_task (TaskInstall expected init ds) s1 → step_kind a s s'
| kind_unloaded k expected init s1 : sy_tasks s !! k = Some (TaskSpawn expected init) →
    read_step (with_tasks (delete k (sy_tasks s)) s) s1 → calm_step s1 s' → step_kind a s s'
| kind_install k expected init ds frame m : sy_tasks s !! k = Some (TaskInstall expected init ds) → sy_hold s = None →
    spawn_install expected init ds frame (sy_mgr s) = Some m →
    s' = spawn_task (TaskWatchdog (expected + 1))
      (mkSys m None (delete k (sy_tasks s)) (sy_readers s ++ [expected + 1]) (sy_next s) (sy_edited s)) → step_kind a s s'
| kind_hold : act ActHold s = Some s' → is_Some (sy_hold s) → step_kind a s s'.

#[local] Instance calm_step_refl : Reflexive calm_step.
Proof. intros s. by constructor. Qed.
#[local] Instance calm_step_trans : Transitive calm_step.
Proof.
  intros s1 s2 s3 [H2 H3 H4 H5] [H6 H7 H8 H9]. constructor; try congruence; [|by etrans].
  intros Q. etrans; [apply H2|]. rewrite <- H3. apply H6.
Qed.
Lemma calm_mgr m s : (∀ Q, calm (sy_readers s) Q (sy_mgr s) m) → calm_step s (with_mgr m s).
Proof. intros Hc. by constructor. Qed.
Lemma calm_task t s : is_spawning t = false → calm_step s (spawn_task t s).
Proof. intros Ht. constructor; try done. cbn. rewrite spawns_app. cbn. by rewrite Ht, app_nil_r. Qed.
Lemma calm_kill_task kill s : calm_step s (kill_task kill s).
Proof. destruct kill; [by apply calm_task|done]. Qed.
Lemma calm_delete k s : calm_step s (with_tasks (delete k (sy_tasks s)) s).
Proof. constructor; try done. apply spawns_sublist, sublist_delete. Qed.

(** What [sy_next] and [sy_edited] are does not matter. *)
Lemma calm_count m h l r n e n' e' s : s = mkSys m h l r n e → calm_step s (mkSys m h l r n' e').
Proof. by intros ->. Qed.

Record sys_inv s : Prop := {
  si_inner : inner_inv (sy_readers s) (inner s);
  si_path : store_path (sy_mgr s);
  si_spawns : (length (spawns (sy_tasks s)) ≤ 1)%nat;
  si_expected t : t ∈ spawns (sy_tasks s) → expected_of t <= in_generation (inner s) ∧ expected_of t ∉ sy_readers s;
  si_loaded expected init ds : TaskInstall expected init ds ∈ spawns (sy_tasks s) → ds_path ds = devices_path dir;
  si_edit g p : sy_hold s = Some (g, p) → is_edit p = true →
    spawns (sy_tasks s) = [] ∧ match p with OnEditing _ => in_process (inner s) = None | _ => True end;
  si_reader g p : sy_hold s = Some (g, p) → is_edit p = false → g ∈ sy_readers s;
  si_saved g p : sy_hold s = Some (g, p) → match p with
    | OnSaved event id (inr _) _ => id = event_id event ∧ agrees (sy_mgr s)
        ∧ ∃ ds, mg_store (sy_mgr s) = Some ds ∧ persisted event (ds_devices ds)
    | OnApplied _ (inr _) => agrees (sy_mgr s)
    | _ => True
    end;
}.

Lemma run_task_kind k t late s s' : sys_inv s → sy_tasks s !! k = Some t →
  run_task parse from_slice dir t late (with_tasks (delete k (sy_tasks s)) s) = Some s' → step_kind (ActTask k late) s s'.
Proof.
  intros Hi Hk. pose proof (calm_delete k s) as Hd. set (s0 := with_tasks _ s) in *.
  assert (∀ s1, calm_step s0 s1 → step_kind (ActTask k late) s s1) as Hcalm by by intros s1 Hs1; apply kind_calm; etrans.
  destruct t as [expected init|expected init ds|g e|g|g|g kill|g|i|g]; cbn [run_task].
  - assert (is_spawning (TaskSpawn expected init) = true) as Hsp by done.
    assert (TaskSpawn expected init ∈ spawns (sy_tasks s)) as Hin.
    { apply spawns_elem. split; [by eapply list_elem_of_lookup_2|done]. }
    pose proof (load_keeps parse from_slice dir (mg_disk (sy_mgr s0))) as Hl. unfold wp in Hl.
    destruct (devices_load _ _ _ _) as [[ds|code|] d]; cbn [fst snd] in Hl; [..|done]; destruct Hl as [Hf Hr]; intros [= <-].
    + destruct Hr as [Hp Hh]. eapply (kind_load _ _ _ k late expected init ds _ eq_refl Hk); [by eexists|done..].
    + eapply (kind_unloaded _ _ _ k expected init _ Hk); [by eexists|].
      apply (calm_mgr _ (with_mgr (set_disk d (sy_mgr s0)) s0)). intros Q. apply calm_spawn_failed.
      by destruct (si_expected _ Hi _ Hin).
  - destruct late.
    { intros [= <-]. apply Hcalm, calm_mgr. intros Q. apply calm_spawn_failed.
      apply (si_expected _ Hi (TaskInstall expected init ds)), spawns_elem. split; [by eapply list_elem_of_lookup_2|done]. }
    case_bool_decide as Hh; [done|]. destruct (value_set _ _ _) as [frame|]; [|done].
    destruct (spawn_install _ _ _ _ _) as [m|] eqn:Hs; intros [= <-]; [|by apply Hcalm].
    eapply (kind_install _ _ _ k); [done| |done..]. by destruct (sy_hold s0) eqn:?; [destruct Hh|].
  - intros [= <-]. apply Hcalm. set (s1 := with_mgr _ s0).
    assert (calm_step s0 s1) as Hm1 by (apply calm_mgr; intros Q; apply calm_emits).
    destruct (ef_expiring e); [etrans; [|by apply calm_task]|]; (etrans; [exact Hm1|apply calm_kill_task]).
  - intros [= <-]. apply Hcalm, calm_mgr. intros Q. by apply calm_says.
  - intros [= <-]. apply Hcalm, calm_mgr. intros Q. apply calm_shutdown.
  - intros [= <-]. apply Hcalm, calm_mgr. intros Q. destruct late; [apply calm_kill|done].
  - destruct late.
    + destruct (request_timeout g (sy_mgr s0)) as [kill m] eqn:Hr. intros [= <-]. apply Hcalm.
      etrans; [|apply calm_kill_task]. apply calm_mgr. intros Q.
      pose proof (calm_timeout (sy_readers s0) Q g (sy_mgr s0)) as Hc. by rewrite Hr in Hc.
    + case_bool_decide; [|done]. intros [= <-]. by apply Hcalm.
  - intros [= <-]. apply Hcalm, calm_mgr. intros Q. apply calm_unwait.
  - destruct (watchdog g (sy_mgr s0)) as [kill m] eqn:Hr. intros [= <-]. apply Hcalm.
    etrans; [|apply calm_kill_task]. apply calm_mgr. intros Q.
    pose proof (calm_watchdog (sy_readers s0) Q g (sy_mgr s0)) as Hc. by rewrite Hr in Hc.
Qed.

Lemma act_kind a s s' : sys_inv s → act a s = Some s' → step_kind a s s'.
Proof.
  intros Hi. destruct a as [init| |code| |frame|frame want| |frame|g event| |g|p|before|k late]; cbn [Supervisor.act].
  - destruct (ops_free s) eqn:Ho; [|done]. cbn [negb]. destruct (start (sy_mgr s)) as [[e|expected] m] eqn:Hs; intros [= <-].
    + by apply kind_calm.
    + by eapply kind_start.
  - destruct (stop (sy_mgr s)) as [[exited kill] m] eqn:Hs. intros [= <-]. apply kind_calm.
    assert (calm_step s (with_mgr m s)) as Hc.
    { apply calm_mgr. intros Q. pose proof (calm_stop (sy_readers s) Q (sy_mgr s)) as Hc. by rewrite Hs in Hc. }
    destruct exited; [|done]. etrans; [exact Hc|by apply calm_task].
  - destruct (fail code (sy_mgr s)) as [kill m] eqn:Hs. intros [= <-]. apply kind_calm.
    etrans; [|apply calm_kill_task]. apply calm_mgr. intros Q.
    pose proof (calm_fail (sy_readers s) Q code (sy_mgr s)) as Hc. by rewrite Hs in Hc.
  - intros [= <-]. apply kind_calm, calm_mgr. intros Q. apply calm_clear.
  - intros [= <-]. apply kind_calm, calm_mgr. intros Q. apply calm_notify.
  - destruct (existsb is_request _); [done|]. destruct (request _ _ _ _) as [[e|g] m] eqn:Hs; intros [= <-]; apply kind_calm; [done|].
    etrans; [|by apply calm_task]. etrans; [|by apply (calm_count _ _ _ _ (sy_next s) (sy_edited s))].
    apply (calm_mgr m). intros Q. pose proof (calm_request (sy_readers s) Q frame want (sy_next s) (sy_mgr s)) as Hc. by rewrite Hs in Hc.
  - destruct (peers _ _) as [[e|i] m] eqn:Hs; intros [= <-]; apply kind_calm.
    + apply calm_mgr. intros Q. pose proof (calm_peers (sy_readers s) Q (sy_next s) (sy_mgr s)) as Hc. by rewrite Hs in Hc.
    + etrans; [|by apply calm_task]. etrans; [|by apply (calm_count _ _ _ _ (sy_next s) (sy_edited s))].
      apply (calm_mgr m). intros Q. pose proof (calm_peers (sy_readers s) Q (sy_next s) (sy_mgr s)) as Hc. by rewrite Hs in Hc.
  - destruct (_ || _) eqn:Hc; [done|]. intros [= <-].
    apply orb_false_iff in Hc as [Hh%bool_decide_eq_false Ho%negb_false_iff]. eapply kind_lock; [|done|].
    + by apply eq_None_not_Some.
    + apply andb_true_iff in Ho as [Ho%negb_true_iff _]. by apply spawns_none.
  - destruct (_ || _) eqn:Hc; [done|]. intros [= <-].
    apply orb_false_iff in Hc as [Hh%bool_decide_eq_false Hg%negb_false_iff%bool_decide_eq_true].
    eapply kind_lock; [|done|done]. by apply eq_None_not_Some.
  - intros Ha. apply kind_hold; [exact Ha|]. by destruct (sy_hold s).
  - case_bool_decide as Hg; [|done]. intros [= <-]. apply kind_calm, calm_mgr. intros Q. apply calm_exit; [done|apply Hi].
  - intros [= <-]. apply kind_calm, calm_mgr. intros Q. apply calm_push.
  - intros [= <-]. apply kind_calm, calm_mgr. intros Q. apply calm_push_init.
  - destruct (sy_tasks s !! k) as [t|] eqn:Hk; [|done]. by apply run_task_kind.
Qed.

(** ** Each kind keeps the invariant *)
Lemma inv_calm s s' : sys_inv s → calm_step s s' → sys_inv s'.
Proof.
  intros [Hi Hp Hl He Hld Hed Hrd Hsv] [Hc Hr Hh Ht]. destruct (Hc (λ _ _, True)) as [Cs Cd Ci Cp _ Cg _].
  assert (∀ t, t ∈ spawns (sy_tasks s') → t ∈ spawns (sy_tasks s)) as Hin.
  { intros t Hx. by eapply elem_of_sublist. }
  constructor; rewrite ?Hr, ?Hh.
  - by apply Ci.
  - intros ds. rewrite Cs. apply Hp.
  - apply sublist_length in Ht. lia.
  - intros t Hx%Hin. destruct (He t Hx). split; [lia|done].
  - intros expected init ds Hx%Hin. by eapply Hld.
  - intros g p Hg Hx. destruct (Hed g p Hg Hx) as [Hsp Hpr]. split.
    + rewrite Hsp in Ht. by apply sublist_nil_r in Ht.
    + destruct p; try done. destruct (in_process (inner s')) eqn:Hp'; [|done]. by destruct (Cp Hi); rewrite ?Hp'.
  - exact Hrd.
  - intros g p Hg. specialize (Hsv g p Hg). unfold SupervisionFacts.agrees in *. by rewrite Cs, Cd.
Qed.
Lemma agrees_read d m : fs_file d (devices_path dir) = fs_file (mg_disk m) (devices_path dir) →
  agrees m → agrees (set_disk d m).
Proof. intros Hd (ds & Hs & Hh). exists ds. split; [exact Hs|]. by eapply file_holds_same. Qed.
Lemma inv_read s s' : sys_inv s → read_step s s' → sys_inv s'.
Proof.
  intros [Hi Hp Hl He Hld Hed Hrd Hsv] (d & -> & Hd). constructor; try done.
  intros g p Hg. specialize (Hsv g p Hg). destruct p as [| |event id [] un| | |event []| | | | | |]; try done.
  - destruct Hsv as (? & ? & ?). split; [done|]. split; [by apply agrees_read|done].
  - by apply agrees_read.
Qed.
Lemma inv_lock g p s : sys_inv s →
  match p with OnEvent _ => g ∈ sy_readers s | OnEdit _ => spawns (sy_tasks s) = [] | _ => False end →
  sys_inv (with_hold (Some (g, p)) s).
Proof.
  intros [Hi Hp Hl He Hld Hed Hrd Hsv] Hg. constructor; try done; intros g' p' [= <- <-]; by destruct p.
Qed.
Lemma start_inner m expected m' readers : start m = (inr expected, m') → inner_inv readers (mg_inner m) →
  inner_inv readers (mg_inner m') ∧ mg_store m' = mg_store m ∧ mg_disk m' = mg_disk m
  ∧ in_generation (mg_inner m') = expected ∧ in_generation (mg_inner m) = expected
  ∧ in_process (mg_inner m) = None ∧ in_process (mg_inner m') = None ∧ expected ∉ readers ∧ mg_did m' = mg_did m ++ [DidEmit (status_event Starting)].
Proof.
  unfold start. destruct (_ || _) eqn:Hc; [done|]. intros [= <- <-] Hi.
  apply orb_false_iff in Hc as [Hp%bool_decide_eq_false _]. apply eq_None_not_Some in Hp.
  pose proof Hi as [H2 H3 H4 H5 H6]. destruct (H4 Hp) as (? & ? & _). split; [by constructor|].
  repeat split; try done. intros Hin. by apply H6 in Hin.
Qed.
Lemma free_lock s g p : ops_free s = true → sy_hold s = Some (g, p) → is_edit p = false.
Proof. unfold ops_free. intros [_ Ho]%andb_true_iff Hh. rewrite Hh in Ho. by apply negb_true_iff. Qed.
Lemma free_spawns s : ops_free s = true → spawns (sy_tasks s) = [].
Proof. unfold ops_free. intros [Ho%negb_true_iff _]%andb_true_iff. by apply spawns_none. Qed.
Lemma inv_start s expected init m : sys_inv s → start (sy_mgr s) = (inr expected, m) → ops_free s = true →
  sys_inv (spawn_task (TaskSpawn expected init) (with_mgr m s)).
Proof.
  intros [Hi Hp Hl He Hld Hed Hrd Hsv] Hs Ho.
  destruct (start_inner _ _ _ _ Hs Hi) as (Hi' & Hst & Hd & Hg' & Hg & Hpr & Hpr' & Hnr & _).
  assert (spawns (sy_tasks s ++ [TaskSpawn expected init]) = [TaskSpawn expected init]) as Hsp.
  { rewrite spawns_app, (free_spawns s Ho). done. }
  constructor; cbn -[spawns]; rewrite ?Hsp; try done.
  - intros ds. rewrite Hst. apply Hp.
  - intros t ->%list_elem_of_singleton. cbn. rewrite Hg'. split; [lia|done].
  - by intros ? ? ? [=]%list_elem_of_singleton.
  - intros g p Hh Hx. by rewrite (free_lock s g p Ho Hh) in Hx.
  - intros g p Hh. specialize (Hsv g p Hh). unfold SupervisionFacts.agrees in *. by rewrite Hst, Hd.
Qed.
Lemma inv_load s k expected init ds s1 : sys_inv s → sy_tasks s !! k = Some (TaskSpawn expected init) →
  read_step (with_tasks (delete k (sy_tasks s)) s) s1 → ds_path ds = devices_path dir →
  sys_inv (spawn_task (TaskInstall expected init ds) s1).
Proof.
  intros Hi Hk Hr Hds. destruct (spawns_delete k _ _ Hk eq_refl (si_spawns _ Hi)) as [Hall Hsp].
  destruct (si_expected _ Hi (TaskSpawn expected init)) as [Hg Hnr]; [rewrite Hall; by constructor|].
  pose proof (inv_read _ _ (inv_calm _ _ Hi (calm_delete k s)) Hr) as [Hi1 Hp1 Hl1 He1 Hld1 Hed1 Hrd1 Hsv1].
  destruct Hr as (d & -> & Hd). cbn in Hi1, Hp1, Hrd1, Hsv1, Hed1.
  assert (spawns (delete k (sy_tasks s) ++ [TaskInstall expected init ds]) = [TaskInstall expected init ds]) as Hsp'.
  { rewrite spawns_app, Hsp. done. }
  constructor; cbn -[spawns]; rewrite ?Hsp'; try done.
  - by intros t ->%list_elem_of_singleton.
  - by intros ? ? ? [= -> -> ->]%list_elem_of_singleton.
  - intros g p Hh Hx. destruct (si_edit _ Hi g p Hh Hx) as [Hn _]. by rewrite Hall in Hn.
Qed.
Lemma install_inner expected init ds frame m m' readers : spawn_install expected init ds frame m = Some m' →
  inner_inv readers (mg_inner m) → inner_inv (readers ++ [expected + 1]) (mg_inner m')
  ∧ mg_store m' = Some ds ∧ mg_disk m' = mg_disk m ∧ in_generation (mg_inner m) = expected
  ∧ in_generation (mg_inner m') = expected + 1 ∧ in_process (mg_inner m') ≠ None
  ∧ mg_did m' = mg_did m ++ [DidSend (expected + 1) frame].
Proof.
  unfold spawn_install. destruct (_ || _) eqn:Hc; [done|]. intros [= <-] [H2 H3 H4 H5 H6].
  apply orb_false_iff in Hc as [Hg%negb_false_iff%bool_decide_eq_true Hs%negb_false_iff%bool_decide_eq_true].
  split; [constructor; cbn; rewrite ?Hg, ?Hs; try done|by repeat split; cbn; rewrite ?Hg].
  - apply Forall_app. split; [|by repeat constructor]. eapply Forall_impl; [exact H5|]. cbn. lia.
  - split; [|done]. intros _. apply elem_of_app. right. by constructor.
Qed.
Lemma inv_install s k expected init ds frame m : sys_inv s → sy_tasks s !! k = Some (TaskInstall expected init ds) →
  sy_hold s = None → spawn_install expected init ds frame (sy_mgr s) = Some m →
  sys_inv (spawn_task (TaskWatchdog (expected + 1))
    (mkSys m None (delete k (sy_tasks s)) (sy_readers s ++ [expected + 1]) (sy_next s) (sy_edited s))).
Proof.
  intros Hi Hk Hh Hs. destruct (spawns_delete k _ _ Hk eq_refl (si_spawns _ Hi)) as [Hall Hsp].
  destruct (install_inner _ _ _ _ _ _ _ Hs (si_inner _ Hi)) as (Hi' & Hst & Hd & Hg & Hg' & Hpr & _).
  assert (spawns (delete k (sy_tasks s) ++ [TaskWatchdog (expected + 1)]) = []) as Hsp' by by rewrite spawns_app, Hsp.
  constructor; cbn -[spawns]; rewrite ?Hsp'; try done; try (by intros; set_solver); try lia.
  - intros ds'. rewrite Hst. intros [= <-]. eapply (si_loaded _ Hi). rewrite Hall. by constructor.
Qed.

(** ** The handler that holds the lock *)
Abbreviation hold := (hold windows parse from_slice to_vec_pretty dir).
Definition held_state g (r : outcome Empty_set Turn) m s : option System :=
  match r with
  | Ok (Keep q) => Some (with_hold (Some (g, q)) (with_mgr m s))
  | Ok (Release e) => Some (spawn_task (TaskAfter g e) (with_hold None (with_mgr m s)))
  | Ok (Edited frame r) => Some (mkSys m None (sy_tasks s) (sy_readers s) (sy_next s) (sy_edited s ++ [(frame, r)]))
  | Err _ | Panic => None
  end.
Lemma act_hold s g p : sy_hold s = Some (g, p) →
  act ActHold s = held_state g (hold g p (sy_mgr s)).1 (hold g p (sy_mgr s)).2 s.
Proof. intros Hh. cbn [Supervisor.act]. rewrite Hh. by destruct (hold g p (sy_mgr s)) as [[[]| |] m']. Qed.

Lemma inv_next g p q s : sys_inv s → sy_hold s = Some (g, p) → is_edit q = is_edit p →
  match q with
  | OnSaved event id (inr _) _ => id = event_id event ∧ agrees (sy_mgr s)
      ∧ ∃ ds, mg_store (sy_mgr s) = Some ds ∧ persisted event (ds_devices ds)
  | OnApplied _ (inr _) => agrees (sy_mgr s)
  | OnEditing _ => in_process (inner s) = None
  | _ => True
  end → sys_inv (with_hold (Some (g, q)) s).
Proof.
  intros [Hi Hp Hl He Hld Hed Hrd Hsv] Hh He' Hq. constructor; try done; cbn.
  - intros g' q' [= <- <-] Hx. rewrite He' in Hx. destruct (Hed g p Hh Hx) as [Hn _]. by destruct q.
  - intros g' q' [= <- <-] Hx. rewrite He' in Hx. by eapply Hrd.
  - intros g' q' [= <- <-]. by destruct q.
Qed.
Lemma inv_free n e s : sys_inv s → sys_inv (mkSys (sy_mgr s) None (sy_tasks s) (sy_readers s) n e).
Proof. intros [Hi Hp Hl He Hld Hed Hrd Hsv]. by constructor. Qed.
Lemma inv_stored m g p s : sys_inv s → sy_hold s = Some (g, p) → is_saved p = false → stored dir (sy_mgr s) m →
  sys_inv (with_mgr m s).
Proof.
  intros [Hi Hp Hl He Hld Hed Hrd Hsv] Hh Hp' (Hin & Hd & Hs). constructor; try done; cbn; rewrite ?Hin; try done.
  intros g' p' Hh'. rewrite Hh in Hh'. injection Hh' as <- <-. by destruct p.
Qed.
Lemma calm_held g p s : sy_hold s = Some (g, p) → is_change p = false →
  held parse (sy_readers s) g p (sy_mgr s) (hold g p (sy_mgr s)).1 (hold g p (sy_mgr s)).2.
Proof. intros Hh Hc. by apply hold_calm. Qed.

(** The invariant does not depend on what was said. *)
Lemma inv_calm' Q m s : sys_inv s → calm (sy_readers s) Q (sy_mgr s) m → sys_inv (with_mgr m s).
Proof.
  intros Hi [Hs Hd Hc Hp Hl Hg _]. set (m' := mkManager (mg_inner m) (mg_store m) (mg_disk m) (mg_push m) (mg_did (sy_mgr s))).
  assert (sys_inv (with_mgr m' s)) as [H2 H3 H4 H5 H6 H7 H8 H9].
  { apply (inv_calm s); [done|]. apply calm_mgr. intros Q'. by constructor; try done; apply says_same. }
  by constructor.
Qed.
Lemma inv_hold s s' : sys_inv s → act ActHold s = Some s' → is_Some (sy_hold s) → sys_inv s'.
Proof.
  intros Hi Ha [[g p] Hh]. rewrite (act_hold s g p Hh) in Ha. destruct (is_change p) eqn:Hc.
  - destruct p as [|event| | |event frame| | | | | | |frame]; try done.
    + destruct (hold_device windows parse from_slice to_vec_pretty dir reads_back g event _ (si_path _ Hi)) as (Hst & saved & un & Hr & Hok).
      rewrite Hr in Ha. injection Ha as <-. eapply inv_next; [by eapply inv_stored|exact Hh|done|].
      destruct saved as [|[]]; [done|]. destruct (Hok eq_refl). by split.
    + destruct (hold_apply windows parse from_slice to_vec_pretty dir reads_back g event frame _ (si_path _ Hi)) as (Hst & saved & Hr & Hok).
      rewrite Hr in Ha. injection Ha as <-. eapply inv_next; [by eapply inv_stored|exact Hh|done|].
      destruct saved as [|[]]; [done|]. by destruct (Hok eq_refl).
    + pose proof (hold_editing windows parse from_slice to_vec_pretty dir g frame (λ _ _, True) (sy_mgr s)) as Hw.
      unfold wp in Hw. destruct (hold g (OnEditing frame) (sy_mgr s)) as [r m']. destruct Hw as (Hin & Hst & _ & r' & Hr).
      cbn in Hr. subst r. injection Ha as <-. destruct Hi as [H2 H3 H4 H5 H6 H7 H8 H9]. cbn in Hin, Hst.
      constructor; cbn; rewrite ?Hin; try done. intros ds. rewrite Hst. apply H3.
  - destruct (calm_held g p s Hh Hc) as [Hcalm Ht]. pose proof (inv_calm' _ _ _ Hi Hcalm) as Hi'.
    destruct (hold g p (sy_mgr s)).1 as [[q|e|frame r]|[]|]; cbn in Ha, Ht; try done; injection Ha as <-.
    + destruct Ht as (_ & He & Hns & Hpr & _). eapply inv_next; [exact Hi'|exact Hh|exact He|]. by destruct q.
    + apply (inv_calm (with_hold None (with_mgr (hold g p (sy_mgr s)).2 s))); [|by apply calm_task].
      by apply (inv_free (sy_next s) (sy_edited s)) in Hi'.
    + by apply (inv_free (sy_next s) (sy_edited s ++ [(frame, r)])) in Hi'.
Qed.

Lemma inv_step a s s' : sys_inv s → act a s = Some s' → sys_inv s'.
Proof.
  intros Hi Ha. destruct (act_kind a s s' Hi Ha) as [Hc|g p Hh -> Hg|? ? ? Hs Ho ->|? ? ? ? ? ? _ Hk Hr Hd _ ->|? ? ? ? Hk Hr Hc|? ? ? ? ? ? Hk Hh Hs ->|Hha Hh].
  - by eapply inv_calm.
  - by apply inv_lock.
  - by apply inv_start.
  - by eapply inv_load.
  - eapply inv_calm; [|exact Hc]. eapply inv_read; [|exact Hr]. by eapply inv_calm, calm_delete.
  - by eapply inv_install.
  - by eapply inv_hold.
Qed.
Lemma inv_reachable s : sup_reachable windows parse from_slice to_vec_pretty dir s → sys_inv s.
Proof.
  intros (d & p & Hr). remember (sup_start d p) as s0 eqn:Hs0. assert (sys_inv s0) as Hi.
  { subst. constructor; cbn; [|done|lia|set_solver|set_solver|done..].
    constructor; cbn; try done. split; [by intros []|set_solver]. }
  clear Hs0. induction Hr as [|s1 s2 s3 [a Ha] _ IH]; [done|]. by apply IH, (inv_step a s1).
Qed.

(** ** What is on disk *)

(** A start reads the file while no handler holds the store's lock. *)
Definition reads_alone (a : Action P) s : bool :=
  match a with
  | ActTask k _ => match sy_tasks s !! k with
                   | Some (TaskSpawn _ _) => bool_decide (sy_hold s = None)
                   | _ => true
                   end
  | _ => true
  end.
Definition alone_step s s' : Prop := ∃ a, reads_alone a s = true ∧ act a s = Some s'.
(** Such a schedule, computed *)
Fixpoint acts_alone (l : list (Action P)) s : option System :=
  match l with
  | [] => Some s
  | a :: l => if reads_alone a s then s ← act a s; acts_alone l s else None
  end.
Lemma acts_alone_rtc l s s' : acts_alone l s = Some s' →
  rtc alone_step s s' ∧ acts windows parse from_slice to_vec_pretty dir l s = Some s'.
Proof.
  revert s. induction l as [|a l IH]; intros s; cbn [acts_alone acts]; [by intros [= ->]|].
  destruct (reads_alone a s) eqn:Hal; [|done]. intros (s1 & Hs1 & Hs)%bind_Some. destruct (IH s1 Hs) as [Hr Hl].
  rewrite Hs1. split; [|exact Hl]. eapply rtc_l; [by exists a|exact Hr].
Qed.

Record disk_inv s : Prop := {
  di_loaded expected init ds : TaskInstall expected init ds ∈ spawns (sy_tasks s) → in_generation (inner s) = expected →
    file_holds (ds_devices ds) (mg_disk (sy_mgr s)) ∧ match sy_hold s with None | Some (_, OnEvent _) => True | _ => False end;
  di_live : live (inner s) → agrees (sy_mgr s) ∨ ∃ g p, sy_hold s = Some (g, p) ∧ is_failing p = true;
}.

Lemma disk_calm s s' : sys_inv s → disk_inv s → calm_step s s' → disk_inv s'.
Proof.
  intros Hi [Hld Hlv] [Hc Hr Hh Ht]. destruct (Hc (λ _ _, True)) as [Cs Cd _ _ Cl Cg _]. constructor.
  - intros expected init ds Hin Hg. rewrite Cd, Hh. assert (TaskInstall expected init ds ∈ spawns (sy_tasks s)) as Hin' by by eapply elem_of_sublist.
    apply (Hld _ _ _ Hin'). destruct (si_expected _ Hi _ Hin') as [Hle _]. cbn in Hle. lia.
  - intros Hl. unfold SupervisionFacts.agrees. rewrite Cs, Cd, Hh. by apply Hlv, Cl, Hl; apply Hi.
Qed.
Lemma disk_read s s' : disk_inv s → read_step s s' → disk_inv s'.
Proof.
  intros [Hld Hlv] (d & -> & Hd). constructor; cbn.
  - intros expected init ds Hin Hg. destruct (Hld _ _ _ Hin Hg). split; [by eapply file_holds_same|done].
  - intros Hl. destruct (Hlv Hl); [left; by apply agrees_read|by right].
Qed.
(** The phase of the handler: it is not past its check when a start is under way. *)
Lemma loaded_phase g p s expected init ds : sys_inv s → disk_inv s → sy_hold s = Some (g, p) →
  TaskInstall expected init ds ∈ spawns (sy_tasks s) → in_generation (inner s) = expected →
  (∃ event, p = OnEvent event) ∧ in_generation (inner s) ≠ g.
Proof.
  intros Hi [Hld _] Hh Hin Hg. destruct (Hld _ _ _ Hin Hg) as [_ Hp]. rewrite Hh in Hp. destruct p; try done.
  split; [by eexists|]. destruct (si_expected _ Hi _ Hin) as [_ Hnr]. cbn in Hnr. intros Hg'. destruct Hnr.
  rewrite <- Hg, Hg'. by eapply (si_reader _ Hi).
Qed.
Lemma disk_held_calm g p s s' : sys_inv s → disk_inv s → sy_hold s = Some (g, p) → is_change p = false →
  act ActHold s = Some s' → disk_inv s'.
Proof.
  intros Hi Hd Hh Hc Ha. rewrite (act_hold s g p Hh) in Ha.
  destruct (calm_held g p s Hh Hc) as [[Cs Cd _ _ Cl Cg _] Ht].
  destruct (hold g p (sy_mgr s)) as [r m']. cbn [fst snd] in *.
  assert (∀ expected init ds, TaskInstall expected init ds ∈ spawns (sy_tasks s) → in_generation (mg_inner m') = expected →
    in_generation (inner s) = expected ∧ file_holds (ds_devices ds) (mg_disk m')) as Hload.
  { intros expected init ds Hin Hg. assert (in_generation (inner s) = expected) as Hg'.
    { destruct (si_expected _ Hi _ Hin) as [Hle _]. cbn in Hle. lia. }
    split; [exact Hg'|]. rewrite Cd. by destruct (di_loaded _ Hd _ _ _ Hin Hg'). }
  assert (live (mg_inner m') → agrees m' ∨ is_failing p = true) as Hlive.
  { intros Hl. destruct (di_live _ Hd (Cl (si_inner _ Hi) Hl)) as [Hag|(g' & p' & Hh' & Hf)].
    - left. unfold SupervisionFacts.agrees. by rewrite Cs, Cd.
    - rewrite Hh in Hh'. injection Hh' as <- <-. by right. }
  destruct r as [[q|e|frame r]|[]|]; cbn in Ha, Ht; try done; injection Ha as <-; constructor; cbn -[spawns].
  - intros expected init ds Hin Hg. destruct (Hload _ _ _ Hin Hg) as [Hg' Hf].
    destruct (loaded_phase g p s _ _ _ Hi Hd Hh Hin Hg') as [[event ->] Hne]. destruct Ht as (_ & _ & _ & _ & Hgm). congruence.
  - intros Hl. destruct Ht as (Hrk & _). destruct (Hlive Hl) as [|Hf]; [by left|].
    exfalso. assert (rank p = 1)%nat as Hp by by destruct p as [| |? ? [] ?| | |? []| | | | | |]. rewrite Hp in Hrk. destruct q; cbn in Hrk; lia.
  - rewrite spawns_app, app_nil_r. intros expected init ds Hin Hg. split; [|done]. by destruct (Hload _ _ _ Hin Hg).
  - intros Hl. destruct Ht as [_ Hf]. destruct (Hlive Hl) as [|Hp]; [by left|by destruct (Hf Hp)].
  - intros expected init ds Hin Hg. split; [|done]. by destruct (Hload _ _ _ Hin Hg).
  - intros Hl. destruct (Hlive Hl) as [|Hp]; [by left|]. by destruct p as [| |? ? [] ?| | |? []| | | | | |].
Qed.
Lemma disk_held_change g p s s' : sys_inv s → disk_inv s → sy_hold s = Some (g, p) → is_change p = true →
  act ActHold s = Some s' → disk_inv s'.
Proof.
  intros Hi Hd Hh Hc Ha. rewrite (act_hold s g p Hh) in Ha.
  assert (∀ q m, (∀ event, p ≠ OnEvent event) → stored dir (sy_mgr s) m → (is_failing q = false → agrees m) →
    disk_inv (with_hold (Some (g, q)) (with_mgr m s))) as Hk.
  { intros q m Hp (Hin & _ & _) Hag. constructor; cbn.
    - intros expected init ds Ht. rewrite Hin. intros Hg.
      destruct (loaded_phase g p s _ _ _ Hi Hd Hh Ht Hg) as [[event ->] _]. by destruct (Hp event).
    - intros _. destruct (is_failing q) eqn:Hq; [right; eauto|by left; apply Hag]. }
  destruct p as [|event| | |event frame| | | | | | |frame]; try done.
  - destruct (hold_device windows parse from_slice to_vec_pretty dir reads_back g event _ (si_path _ Hi)) as (Hst & saved & un & Hr & Hok).
    rewrite Hr in Ha. injection Ha as <-. apply Hk; [done..|]. destruct saved as [|[]]; [done|]. intros _. by destruct (Hok eq_refl).
  - destruct (hold_apply windows parse from_slice to_vec_pretty dir reads_back g event frame _ (si_path _ Hi)) as (Hst & saved & Hr & Hok).
    rewrite Hr in Ha. injection Ha as <-. apply Hk; [done..|]. destruct saved as [|[]]; [done|]. intros _. by destruct (Hok eq_refl).
  - pose proof (hold_editing windows parse from_slice to_vec_pretty dir g frame (λ _ _, True) (sy_mgr s)) as Hw.
    unfold wp in Hw. destruct (hold g (OnEditing frame) (sy_mgr s)) as [r m']. destruct Hw as (Hin & _ & _ & r' & Hr).
    cbn in Hr. subst r. injection Ha as <-. destruct (si_edit _ Hi g _ Hh eq_refl) as [Hsp Hpr]. cbn in Hin.
    constructor; cbn -[spawns]; rewrite ?Hsp, ?Hin; [by intros ? ? ? Hx%elem_of_nil|]. by intros [Hx _].
Qed.
Lemma disk_step a s s' : sys_inv s → disk_inv s → reads_alone a s = true → act a s = Some s' → disk_inv s'.
Proof.
  intros Hi Hd Hal Ha.
  destruct (act_kind a s s' Hi Ha) as [Hc|g p Hh -> Hg|expected init m Hs Ho ->|k late expected init ds s1 -> Hk Hr Hp Hf ->|k expected init s1 Hk Hr Hc|k expected init ds frame m Hk Hh Hs ->|Hha [[g p] Hh]].
  - by eapply disk_calm.
  - destruct Hd as [Hld Hlv]. constructor; cbn -[spawns].
    + intros expected init ds Hin Hgen. destruct (Hld _ _ _ Hin Hgen) as [Hf _]. split; [exact Hf|].
      destruct p; try done. rewrite Hg in Hin. by apply elem_of_nil in Hin.
    + intros Hl. left. destruct (Hlv Hl) as [|(? & ? & Hh' & _)]; [done|by rewrite Hh in Hh'].
  - destruct (start_inner _ _ _ _ Hs (si_inner _ Hi)) as (_ & Hst & Hdk & _ & _ & _ & Hpr & _ & _).
    constructor; cbn -[spawns]; [|by intros [Hx _]]. rewrite spawns_app, (free_spawns s Ho).
    by intros ? ? ? [=]%list_elem_of_singleton.
  - cbn in Hal. rewrite Hk in Hal. apply bool_decide_eq_true in Hal.
    destruct (spawns_delete k _ _ Hk eq_refl (si_spawns _ Hi)) as [_ Hsp].
    pose proof (disk_read _ _ (disk_calm _ _ Hi Hd (calm_delete k s)) Hr) as [_ Hlv].
    destruct Hr as (d & -> & Hdk). constructor; cbn -[spawns]; [|exact Hlv].
    rewrite spawns_app, Hsp, Hal. by intros ? ? ? [= -> -> ->]%list_elem_of_singleton _.
  - pose proof (inv_calm _ _ Hi (calm_delete k s)) as Hi1. pose proof (disk_calm _ _ Hi Hd (calm_delete k s)) as Hd1.
    eapply disk_calm; [by eapply inv_read|by eapply disk_read|exact Hc].
  - destruct (spawns_delete k _ _ Hk eq_refl (si_spawns _ Hi)) as [Hall Hsp].
    destruct (install_inner _ _ _ _ _ _ _ Hs (si_inner _ Hi)) as (_ & Hst & Hdk & Hg & _).
    destruct (di_loaded _ Hd expected init ds) as [Hf _]; [rewrite Hall; by constructor|done|].
    constructor; cbn -[spawns]; [rewrite spawns_app, Hsp; by intros ? ? ? Hx%elem_of_nil|].
    intros _. left. exists ds. split; [exact Hst|]. by rewrite Hdk.
  - destruct (is_change p) eqn:Hc; [by eapply disk_held_change|by eapply disk_held_calm].
Qed.
Lemma disk_reachable d p s : rtc alone_step (sup_start d p) s → sys_inv s ∧ disk_inv s.
Proof.
  intros Hr. remember (sup_start d p) as s0 eqn:Hs0. assert (sys_inv s0 ∧ disk_inv s0) as Hi.
  { split; [apply inv_reachable; exists d, p; by subst|]. subst. constructor; cbn; [by intros ? ? ? Hx%elem_of_nil|by intros [Hx _]]. }
  clear Hs0. induction Hr as [|s1 s2 s3 (a & Hal & Ha) _ IH]; [done|]. destruct Hi as [Hi Hd].
  apply IH. split; [by eapply inv_step|by eapply disk_step].
Qed.

(** ** What callers are told *)
Lemma says_mono (Q Q' : Z → Value → Prop) m m' : (∀ r event, Q r event → Q' r event) → says Q m m' → says Q' m m'.
Proof. intros HQ (l & Hl & Hq). exists l. split; [done|]. intros r event Hin. by apply HQ, Hq. Qed.
(** Only a handler answers with success. *)
Definition answered s s' (r : Z) (event : Value) : Prop :=
  ∃ g p, sy_hold s = Some (g, p) ∧ answers parse p (sy_mgr s) r event
  ∧ mg_store (sy_mgr s') = mg_store (sy_mgr s) ∧ mg_disk (sy_mgr s') = mg_disk (sy_mgr s).
Lemma step_says a s s' : sys_inv s → act a s = Some s' → says (answered s s') (sy_mgr s) (sy_mgr s').
Proof.
  intros Hi Ha.
  destruct (act_kind a s s' Hi Ha) as [Hc|g p Hh -> Hg|expected init m Hs Ho ->|k late expected init ds s1 _ Hk Hr Hp Hf ->|k expected init s1 Hk Hr Hc|k expected init ds frame m Hk Hh Hs ->|Hha [[g p] Hh]].
  - apply (cs_calm _ _ Hc).
  - done.
  - destruct (start_inner _ _ _ _ Hs (si_inner _ Hi)) as (_ & _ & _ & _ & _ & _ & _ & _ & Hdid). by eapply says_did.
  - destruct Hr as (d & -> & _). by apply says_same.
  - destruct Hr as (d & -> & _). etrans; [|apply (cs_calm _ _ Hc)]. by apply says_same.
  - destruct (install_inner _ _ _ _ _ _ _ Hs (si_inner _ Hi)) as (_ & _ & _ & _ & _ & _ & Hdid). by eapply says_did.
  - rewrite (act_hold s g p Hh) in Hha. destruct (is_change p) eqn:Hc.
    + destruct p as [|event| | |event frame| | | | | | |frame]; try done.
      * destruct (hold_device windows parse from_slice to_vec_pretty dir reads_back g event _ (si_path _ Hi)) as ((_ & Hd & _) & saved & un & Hr & _).
        rewrite Hr in Hha. injection Hha as <-. by apply says_same.
      * destruct (hold_apply windows parse from_slice to_vec_pretty dir reads_back g event frame _ (si_path _ Hi)) as ((_ & Hd & _) & saved & Hr & _).
        rewrite Hr in Hha. injection Hha as <-. by apply says_same.
      * pose proof (hold_editing windows parse from_slice to_vec_pretty dir g frame (answered s s') (sy_mgr s)) as Hw.
        unfold wp in Hw. destruct (hold g (OnEditing frame) (sy_mgr s)) as [r m']. destruct Hw as (_ & _ & Hsays & r' & Hr).
        cbn in Hr. subst r. by injection Hha as <-.
    + destruct (calm_held g p s Hh Hc) as [[Cs Cd _ _ _ _ Csays] Ht].
      assert (mg_store (sy_mgr s') = mg_store (hold g p (sy_mgr s)).2 ∧ mg_disk (sy_mgr s') = mg_disk (hold g p (sy_mgr s)).2
        ∧ mg_did (sy_mgr s') = mg_did (hold g p (sy_mgr s)).2) as (Es & Ed & Edid).
      { by destruct (hold g p (sy_mgr s)).1 as [[q|e|frame r]|[]|]; cbn in Hha, Ht; try done; injection Hha as <-. }
      apply (says_mono (answers parse p (sy_mgr s))).
      * intros r event Hq. exists g, p. by rewrite Es, Ed, Cs, Cd.
      * destruct Csays as (l & Hl & Hq). exists l. by rewrite Edid.
Qed.

(** ** Properties *)

(** C18. The supervisor is never in a contradictory state, whatever its tasks, its callers
    and the gateway do in whatever order.  It says "running" only while there is a
    process that said "ready" on the configured port; a request or a listing of peers
    waits only while there is a process; the only reader that is listened to is that of
    the process there is; and a process was told to end, or halted, exactly when the
    status says so. *)
Theorem supervisor_consistent s : sup_reachable windows parse from_slice to_vec_pretty dir s →
  let i := inner s in
  (∀ port, in_status i = Running port → in_process i ≠ None ∧ in_ready i = true
     ∧ ∀ q, in_port i = Some q → port = q mod 65536)
  ∧ (in_process i = None → in_pending i = None ∧ in_peer_waits i = ∅)
  ∧ (in_process i ≠ None ↔ in_generation i ∈ sy_readers s)
  ∧ (in_process i ≠ None → in_terminal i = match in_status i with
       | Stopping => Some Disabled
       | Failed code => Some (Failed code)
       | _ => None
       end)
  ∧ (in_process i ≠ None ∨ in_status i ≠ Stopping).
Proof.
  intros Hr i. destruct (inv_reachable s Hr) as [[H2 H3 H4 H5 H6] _ _ _ _ _ _ _]. fold i in H2, H3, H4, H5, H6.
  repeat split.
  - intros Hp. destruct (H4 Hp) as (_ & _ & Hs). by rewrite H7 in Hs.
  - by destruct (H2 _ H7).
  - destruct (H2 _ H7) as [_ Hq]. exact Hq.
  - by destruct (H4 H7).
  - by destruct (H4 H7) as (_ & ? & _).
  - apply H6.
  - apply H6.
  - intros Hp. by destruct (H3 Hp).
  - destruct (in_process i) eqn:Hp; [by left|]. right. intros Hs. destruct (H4 eq_refl) as (_ & _ & Hn). by rewrite Hs in Hn.
Qed.

(** C19. A handler always gets to its end: whatever the event or the edit, it drops the
    store's lock after at most four sections, and never panics with the lock held. *)
Theorem handler_finishes s : sup_reachable windows parse from_slice to_vec_pretty dir s →
  ∃ n s', (n ≤ 4)%nat ∧ acts windows parse from_slice to_vec_pretty dir (replicate n ActHold) s = Some s' ∧ sy_hold s' = None.
Proof.
  intros Hr. apply inv_reachable in Hr.
  assert (∀ n s, sys_inv s → (∀ g p, sy_hold s = Some (g, p) → (rank p ≤ n)%nat) → ∃ k s', (k ≤ n)%nat
    ∧ acts windows parse from_slice to_vec_pretty dir (replicate k ActHold) s = Some s' ∧ sy_hold s' = None) as Hn.
  2: { apply (Hn 4%nat s Hr). intros g p _. by destruct p; cbn; lia. }
  clear s Hr. induction n as [|n IH]; intros s Hi Hrk.
  { exists 0%nat, s. split; [done|]. split; [done|]. destruct (sy_hold s) as [[g p]|] eqn:Hh; [|done].
    specialize (Hrk g p eq_refl). destruct p; cbn in Hrk; lia. }
  destruct (sy_hold s) as [[g p]|] eqn:Hh; [|by exists 0%nat, s; repeat split; [lia|]].
  specialize (Hrk g p eq_refl). assert (∃ s1, act ActHold s = Some s1 ∧ ∀ g' q, sy_hold s1 = Some (g', q) → (rank q < rank p)%nat) as (s1 & Ha & Hq).
  { rewrite (act_hold s g p Hh). destruct (is_change p) eqn:Hc.
    - destruct p as [|event| | |event frame| | | | | | |frame]; try done.
      + destruct (hold_device windows parse from_slice to_vec_pretty dir reads_back g event _ (si_path _ Hi)) as (_ & saved & un & Hr & _).
        rewrite Hr. eexists. split; [done|]. intros g' q [= <- <-]. cbn. lia.
      + destruct (hold_apply windows parse from_slice to_vec_pretty dir reads_back g event frame _ (si_path _ Hi)) as (_ & saved & Hr & _).
        rewrite Hr. eexists. split; [done|]. intros g' q [= <- <-]. cbn. lia.
      + destruct (hold_editing windows parse from_slice to_vec_pretty dir g frame (λ _ _, True) (sy_mgr s)) as (_ & _ & _ & r' & Hr).
        rewrite Hr. by eexists.
    - destruct (calm_held g p s Hh Hc) as [_ Ht]. destruct (hold g p (sy_mgr s)).1 as [[q|e|frame r]|[]|]; cbn in Ht; try done.
      + eexists. split; [done|]. intros g' q' [= <- <-]. by destruct Ht.
      + by eexists.
      + by eexists. }
  destruct (IH s1) as (k & s' & Hk & Hacts & Hd); [by eapply inv_step|intros g' q Hh'; specialize (Hq _ _ Hh'); lia|].
  exists (S k), s'. split; [lia|]. split; [|done]. cbn [replicate acts]. by rewrite Ha.
Qed.

(** C9. A device command is reported done only once it is on disk: when its caller is
    answered with success, the file holds just the list the supervisor keeps, and,
    unless the gateway deferred its report, that list shows what the reported event
    says, an event that is about the command's device and reflects the command. *)
Theorem reply_persisted a s s' reply event : sup_reachable windows parse from_slice to_vec_pretty dir s →
  act a s = Some s' →
  DidReply reply (inr event) ∈ drop (length (mg_did (sy_mgr s))) (mg_did (sy_mgr s')) →
  ∃ pd, in_pending (inner s) = Some pd ∧ pn_reply pd = reply ∧
  match pn_want pd with
  | WantDevice id kind frame => ∃ ds, mg_store (sy_mgr s') = Some ds ∧ file_holds (ds_devices ds) (mg_disk (sy_mgr s')) ∧
      (is_Some (deferred_frame event (pn_want pd))
       ∨ event_id event = Some id ∧ event_kind event = kind ∧ persisted event (ds_devices ds)
         ∧ (kind = "device.updated" → reflects parse frame (value_index "device" event) = true))
  | _ => True
  end.
Proof.
  intros Hr Ha Hin. apply inv_reachable in Hr. destruct (step_says a s s' Hr Ha) as (l & Hl & Hq).
  rewrite Hl, drop_app_length in Hin. destruct (Hq _ _ Hin) as (g & p & Hh & (pd & Hp & Hrep & Hw) & Es & Ed).
  exists pd. split; [exact Hp|]. split; [exact Hrep|]. destruct (pn_want pd) as [|id kind|id kind frame]; [done..|].
  pose proof (si_saved _ Hr g p Hh) as Hsv. rewrite Es, Ed.
  destruct p as [| |e i [] un| | |e []| | | | | |]; try done.
  - destruct Hw as (-> & Hid & Hk & Hrf). destruct Hsv as (-> & (ds & Hs & Hf) & (ds' & Hs' & Hps)).
    rewrite Hs in Hs'. injection Hs' as <-. exists ds. split; [exact Hs|]. split; [exact Hf|]. right.
    pose proof Hps as (id' & Hid' & _). split; [by rewrite Hid, Hid'|]. done.
  - destruct Hw as [-> Hdf]. destruct Hsv as (ds & Hs & Hf). exists ds. split; [exact Hs|]. split; [exact Hf|]. by left.
Qed.

(** C17. While a gateway is starting or running and no event is being handled, the file
    holds exactly the list in memory, which is the one a next start would send: as long
    as no start reads the file in the middle of a handler of an earlier process. *)
Theorem store_agrees d p s : rtc alone_step (sup_start d p) s → live (inner s) → sy_hold s = None →
  ∃ ds, mg_store (sy_mgr s) = Some ds ∧ file_holds (ds_devices ds) (mg_disk (sy_mgr s)).
Proof.
  intros Hr Hl Hh. destruct (disk_reachable d p s Hr) as [_ Hd].
  destruct (di_live _ Hd Hl) as [Hag|(? & ? & Hh' & _)]; [exact Hag|by rewrite Hh in Hh'].
Qed.
End System.

(** ** The child's stderr *)
Lemma drain_spec cap chunks fuel : (0 < cap)%nat → Forall (λ c, c ≠ []) chunks → (length (concat chunks) < fuel)%nat →
  drain fuel cap (reader_new (Some <$> chunks)) = (λ l, take_record (take cap l)) <$> lines_from [] (concat chunks).
Proof.
  intros Hcap. revert chunks. induction fuel as [|fuel IH]; intros chunks Hne Hf; [lia|]. cbn [drain].
  assert (cut cap [] [] false) as Hcut by by split; [by destruct cap|rewrite bool_decide_false by (cbn; lia)].
  pose proof (reader_next_spec cap Hcap [] [] false chunks Hne Hcut) as [Hs Hend]. rewrite lines_position.
  unfold record_next, reader_new. cbn [rr_reader rr_record rr_skipping]. destruct (position _ (concat chunks)) as [n|] eqn:Hp.
  - destruct Hs as (rest & Hr & Hc & ->). rewrite <- Hc, fmap_cons. f_equal. apply IH; [exact Hr|].
    destruct (position_some _ _ _ Hp) as [Hn _]. rewrite Hc, length_drop. lia.
  - specialize (Hend eq_refl). destruct (reader_next _ _ _ _) as [r reader]. cbn [fst snd] in *. subst.
    rewrite app_nil_l. case_bool_decide; [done|]. cbn [fmap list_fmap]. f_equal. by destruct fuel.
Qed.
Lemma drop_returns_length l : (length (drop_returns l) ≤ length l)%nat.
Proof.
  induction l as [|b l IH]; [done|]. assert (drop_returns (b :: l) = drop_returns l ∨ drop_returns (b :: l) = b :: l) as Hd.
  { destruct b as [|b|b]; try (by right). cbn. repeat (destruct b as [b|b|]; try (by right); try (by left)). }
  destruct Hd as [-> | ->]; cbn; lia.
Qed.
(** C32. However the bytes of a child's stderr arrive, its records are its lines, each cut at
    [cap] bytes and without the carriage returns at its end, and the last one even without a
    newline; the loop ends with the stream. *)
Theorem records_exact cap chunks fuel : (0 < cap)%nat → Forall (λ c, c ≠ []) chunks →
  (length (concat chunks) < fuel)%nat →
  drain fuel cap (reader_new (Some <$> chunks)) = (λ l, take_record (take cap l)) <$> lines_from [] (concat chunks)
  ∧ Forall (λ record, (length record ≤ cap)%nat) (drain fuel cap (reader_new (Some <$> chunks))).
Proof.
  intros Hcap Hne Hf. rewrite drain_spec by done. split; [done|]. apply Forall_fmap, Forall_true. intros l. cbn.
  unfold take_record. rewrite length_reverse. etrans; [apply drop_returns_length|]. rewrite length_reverse, length_take. lia.
Qed.
Lemma records_exact_witness : let chunks := [[104; 105; 13]; [10; 120; 120]; [120; 120; 10; 121]] in
  drain 11 3 (reader_new (Some <$> chunks)) = [[104; 105]; [120; 120; 120]; [121]]
  ∧ Forall (λ record, (length record ≤ 3)%nat) (drain 11 3 (reader_new (Some <$> chunks))).
Proof.
  intros chunks. assert (Forall (λ c : list Z, c ≠ []) chunks) as Hne by (repeat constructor; done).
  assert (0 < 3)%nat as Hcap by lia. assert (length (concat chunks) < 11)%nat as Hf by (cbn; lia).
  destruct (records_exact 3 chunks 11 Hcap Hne Hf) as [-> Hl]. split; [vm_compute; reflexivity|exact Hl].
Defined.

(** ** The gateway and the desktop *)
Section Follows.
Context `{Base64, Fs D, !FsLaws H0} (windows : bool) (rfc3339 : Timestamp → string).
Context (from_slice : string → option DevicesFile) (to_vec_pretty : DevicesFile → string + string) (dir : string).
Hypothesis reads_back : ∀ f b, to_vec_pretty f = inr b → from_slice (b +:+ newline) = Some f.
Abbreviation file_holds := (file_holds from_slice dir).
Abbreviation device_value := (device_value rfc3339).
Abbreviation event_value := (event_value rfc3339).
Abbreviation named ds := (Forall (λ d, d_device_id d ≠ "") ds).
Implicit Types (ds : list Device) (e : Event) (s : Devices * D).



Context `{!Crypto, !Http, !Webauthn Transport, World W, !WorldLaws W}.
End Follows.

(** ** A desktop that computes *)

(** No notifications *)
#[local] Instance no_push : DesktopPush unit := {|
  push_forget := λ _ p, (false, p);
  push_unsubscribe := λ _ _ p, (false, p);
  push_subscription := λ _ _ p, (false, p);
  push_listing := λ _, VArray [];
  push_event := λ _, VNull;
  push_request := λ _ _ p, (false, p);
|}.
Abbreviation demo_act := (act false sim_parse_rfc3339 sim_file_parse sim_file_text "/data").
Abbreviation demo_acts := (acts false sim_parse_rfc3339 sim_file_parse sim_file_text "/data").
Abbreviation demo_reachable := (sup_reachable false sim_parse_rfc3339 sim_file_parse sim_file_text "/data").
(** The demo device is on disk. *)
Definition demo_disk : SimFs :=
  mkSimFs {[ demo_path := sim_text (VERSION, demo_values) +:+ newline ]} [].
Definition demo_init : Value :=
  VObject [("v", VNumber 1); ("listeners", VObject [("loopback", VObject [("port", VNumber 7411)])])].
Definition demo_ready : Value :=
  VObject [("type", VString "ready"); ("ports", VObject [("loopback", VNumber 7411)])].
Definition revoke_frame : Value := VObject [("v", VNumber 1); ("type", VString "device.revoke"); ("deviceId", VString demo_device_id)].
Definition revoked_event : Value := VObject [("type", VString "device.revoked"); ("deviceId", VString demo_device_id)].
Definition booted : list (Action unit) :=
  [ActStart demo_init; ActTask 0 false; ActTask 0 false; ActEvent 1 demo_ready; ActHold; ActHold].
Definition demo_want : Want := WantDevice demo_device_id "device.revoked" revoke_frame.
(** The command was sent, its event is in the hands of the handler. *)
Definition revoking : list (Action unit) :=
  booted ++ [ActRequest revoke_frame demo_want; ActEvent 1 revoked_event; ActHold; ActHold].
Definition demo_start : Sys SimFs unit := sup_start demo_disk tt.
Definition demo_state (l : list (Action unit)) : Sys SimFs unit := default demo_start (demo_acts l demo_start).
Lemma demo_boots l : match demo_acts l demo_start with Some _ => true | None => false end = true → demo_reachable (demo_state l).
Proof.
  intros Hp. exists demo_disk, tt. unfold demo_state. destruct (demo_acts l demo_start) as [s|] eqn:Hl; [|done].
  by eapply acts_rtc.
Qed.
Lemma demo_alone l :
  match acts_alone false sim_parse_rfc3339 sim_file_parse sim_file_text "/data" l demo_start with Some _ => true | None => false end = true →
  rtc (alone_step false sim_parse_rfc3339 sim_file_parse sim_file_text "/data") demo_start (demo_state l).
Proof.
  unfold demo_state. destruct (acts_alone _ _ _ _ _ l demo_start) as [s|] eqn:Hl; [|done]. intros _.
  apply acts_alone_rtc in Hl as [Hr ->]. exact Hr.
Qed.

Lemma supervisor_consistent_witness : let s := demo_state booted in
  demo_reachable s ∧ in_status (mg_inner (sy_mgr s)) = Running 7411
  ∧ in_process (mg_inner (sy_mgr s)) ≠ None ∧ in_generation (mg_inner (sy_mgr s)) ∈ sy_readers s.
Proof.
  intros s. assert (demo_reachable s) as Hr by (apply demo_boots; vm_compute; reflexivity).
  assert (in_status (mg_inner (sy_mgr s)) = Running 7411) as Hs by (vm_compute; reflexivity).
  destruct (supervisor_consistent false sim_parse_rfc3339 sim_file_parse sim_file_text "/data" sim_file_reads s Hr) as (Hrun & _ & Hread & _).
  destruct (Hrun _ Hs) as [Hp _]. split; [exact Hr|]. split; [exact Hs|]. split; [exact Hp|by apply Hread].
Defined.
Lemma handler_finishes_witness : let s := demo_state revoking in
  demo_reachable s ∧ is_Some (sy_hold s)
  ∧ ∃ n s', (n ≤ 4)%nat ∧ demo_acts (replicate n ActHold) s = Some s' ∧ sy_hold s' = None.
Proof.
  intros s. assert (demo_reachable s) as Hr by (apply demo_boots; vm_compute; reflexivity).
  split; [exact Hr|]. split; [vm_compute; by eexists|].
  exact (handler_finishes false sim_parse_rfc3339 sim_file_parse sim_file_text "/data" sim_file_reads s Hr).
Defined.
Lemma reply_persisted_witness : let s' := demo_state (revoking ++ [ActHold]) in
  DidReply 0 (inr revoked_event) ∈ mg_did (sy_mgr s')
  ∧ ∃ ds, mg_store (sy_mgr s') = Some ds ∧ file_holds sim_file_parse "/data" (ds_devices ds) (mg_disk (sy_mgr s')).
Proof.
  intros s'. set (s := demo_state revoking).
  assert (demo_reachable s) as Hr by (apply demo_boots; vm_compute; reflexivity).
  assert (demo_act ActHold s = Some s') as Ha by (vm_compute; reflexivity).
  assert (drop (length (mg_did (sy_mgr s))) (mg_did (sy_mgr s')) = [DidReply 0 (inr revoked_event)]) as Hd by (vm_compute; reflexivity).
  assert (DidReply 0 (inr revoked_event) ∈ drop (length (mg_did (sy_mgr s))) (mg_did (sy_mgr s'))) as Hin by (rewrite Hd; constructor).
  split; [rewrite <- (take_drop (length (mg_did (sy_mgr s))) (mg_did (sy_mgr s'))); apply elem_of_app; right; exact Hin|].
  destruct (reply_persisted false sim_parse_rfc3339 sim_file_parse sim_file_text "/data" sim_file_reads ActHold s s' 0 revoked_event Hr Ha Hin)
    as (pd & Hp & _ & Hw).
  assert (in_pending (mg_inner (sy_mgr s)) = Some (mkPending demo_want 0)) as Hp' by (vm_compute; reflexivity).
  assert (Some pd = Some (mkPending demo_want 0)) as Heq by (rewrite <- Hp; exact Hp'). injection Heq as ->. clear Hp Hp'.
  destruct Hw as (ds & Hs & Hf & _). exists ds. split; [exact Hs|exact Hf].
Defined.
Lemma store_agrees_witness : let s := demo_state booted in live (mg_inner (sy_mgr s))
  ∧ ∃ ds, mg_store (sy_mgr s) = Some ds ∧ file_holds sim_file_parse "/data" (ds_devices ds) (mg_disk (sy_mgr s)).
Proof.
  intros s. assert (live (mg_inner (sy_mgr s))) as Hl by (vm_compute; by split).
  split; [exact Hl|]. apply (store_agrees false sim_parse_rfc3339 sim_file_parse sim_file_text "/data" sim_file_reads demo_disk tt s).
  - apply demo_alone. vm_compute. reflexivity.
  - exact Hl.
  - vm_compute. reflexivity.
Defined.

Abbreviation on_file := (file_holds sim_file_parse "/data").
Definition file_list (d : SimFs) : option (list Value) :=
  v ← (fs_file d demo_path ≫= sim_file_parse); if df_version v =? VERSION then Some (df_devices v) else None.
Lemma file_list_holds l d : file_list d = Some l → on_file l d.
Proof.
  unfold file_list. intros (v & (b & Hb & Hv)%bind_Some & Hl)%bind_Some. destruct (df_version v =? VERSION) eqn:He; [|done].
  injection Hl as <-. right. exists b, v. split; [exact Hb|]. split; [exact Hv|]. split; [lia|done].
Qed.

(** ** Two orders of events *)

(** A handler is past its check and about to write when its process ends; the next
    start reads the file, then the handler writes it and the start goes on. *)
Definition crossing : list (Action unit) :=
  booted ++ [ActEvent 1 revoked_event; ActHold; ActExit 1; ActStart demo_init; ActTask 2 false; ActHold; ActHold; ActTask 2 false].
Definition sent_devices (x : Did) : option (Z * Value) :=
  match x with DidSend g frame => Some (g, value_index "devices" frame) | _ => None end.
Lemma revocation_lost : let s := demo_state crossing in
  demo_reachable s ∧ live (mg_inner (sy_mgr s)) ∧ sy_hold s = None ∧ on_file [] (mg_disk (sy_mgr s))
  ∧ ds_devices <$> mg_store (sy_mgr s) = Some demo_values
  ∧ (last (mg_did (sy_mgr s)) ≫= sent_devices) = Some (3, VArray demo_values).
Proof.
  intros s. split; [apply demo_boots; vm_compute; reflexivity|]. split; [vm_compute; by split|].
  split; [vm_compute; reflexivity|]. split; [apply file_list_holds; vm_compute; reflexivity|].
  split; vm_compute; reflexivity.
Qed.

(** What a halted gateway says is dropped; once it is also stopped, it is acted on. *)
Definition halting : list (Action unit) := booted ++ [ActFail "companion-node-stopped"].
Definition saying : list (Action unit) := [ActEvent 1 revoked_event; ActHold; ActHold].
Lemma halted_heard :
  in_status (mg_inner (sy_mgr (demo_state halting))) = Failed "companion-node-stopped"
  ∧ (let s := demo_state (halting ++ take 2 saying) in
     demo_reachable s ∧ sy_hold s = None ∧ on_file demo_values (mg_disk (sy_mgr s)))
  ∧ (let s := demo_state (halting ++ [ActStop] ++ saying) in demo_reachable s ∧ on_file [] (mg_disk (sy_mgr s))).
Proof.
  split; [vm_compute; reflexivity|]. split; (split; [apply demo_boots; vm_compute; reflexivity|]).
  - split; [vm_compute; reflexivity|apply file_list_holds; vm_compute; reflexivity].
  - apply file_list_holds. vm_compute. reflexivity.
Qed.
