(* ===== verification/Gateway.v ===== *)
(** * [gateway.rs] and [gateway_auth.rs]: the ceremonies over HTTP

    One state with three locks: pairings, identity, ceremonies.  A handler is a
    sequence of critical sections; between two of them [other n] is whatever the
    rest of the gateway does ([n] numbers the place), so each definition below is
    the handler under every interleaving.  [inner] is the same for a place where
    the lock of the pairings is held. *)

From stdpp Require Import base gmap strings list fin_maps fin_sets relations.
From Stdlib Require Import ZArith Lia.
From S2P Require Import Prelude Rust Externals Clock Devices Admin Events World.
From S2P Require Import Pairing Webauthn Session Authorize.

Local Open Scope Z_scope.

(** The bodies of the requests ([webauthn.rs]) *)
Record RegistrationOptions := mkRegistrationOptions { ro_pairing_id : string; ro_ticket : string }.
Record RegistrationFinish := mkRegistrationFinish { rf_pairing_id : string; rf_credential : Value }.
Record LoginFinish := mkLoginFinish { lf_credential : Value }.
Record ElevationOptions := mkElevationOptions { eo_scope : Scope }.
Record ElevationFinish := mkElevationFinish { ef_scope : Scope; ef_credential : Value }.

Section Gateway.
Context `{Base64, Crypto, Http, Tokio, !Webauthn Transport, World W}.

(** The fields of [Gateway] behind a lock, and the constant ones. *)
Record Gw := mkGw {
  gw_pairings : Pairings;
  gw_identity : Identity;
  gw_ceremonies : Ceremonies;
}.
Record GwConfig := mkGwConfig { gc_rp_id : string; gc_rp : RelyingParty; gc_policy : Policy }.

Abbreviation gateway_m E A := (M (Gw * W) E A).

(** One critical section of each lock. *)
Definition in_pairings {E A} (m : M (Pairings * W) E A) : gateway_m E A :=
  zoom (λ '(g, w), (gw_pairings g, w))
       (λ '(p, w) '(g, _), (mkGw p (gw_identity g) (gw_ceremonies g), w)) m.
Definition in_identity {E A} (m : M (Identity * W) E A) : gateway_m E A :=
  zoom (λ '(g, w), (gw_identity g, w))
       (λ '(i, w) '(g, _), (mkGw (gw_pairings g) i (gw_ceremonies g), w)) m.
Definition in_ceremonies {E A} (m : M Ceremonies E A) : gateway_m E A :=
  zoom (λ '(g, _), gw_ceremonies g)
       (λ c '(g, w), (mkGw (gw_pairings g) (gw_identity g) c, w)) m.

Section Handlers.
Context (config : GwConfig) (other inner : nat → Gw * W → Gw * W).
Let rp := gc_rp config.
Let binding := passkey_binding (gc_policy config).
Definition elsewhere {E} (n : nat) : gateway_m E unit := modify (other n).

(** [Gateway::authenticate] *)
Definition gateway_authenticate (headers : HeaderMap) (scope : Scope) : gateway_m unit AuthContext :=
  in_identity (authenticate headers (gc_rp_id config) scope).

(** [Gateway::with_authorized] *)
Definition authorized {T} (ctx : AuthContext) (scope : Scope)
    (write : M (Identity * W) Failure T) : gateway_m Failure T :=
  in_identity (with_authorized (gc_rp_id config) ctx scope write).

(** [Gateway::outcome] *)
Definition outcome_event {E} (ceremony : string) (success : bool) (device_id : option string)
    : gateway_m E unit :=
  let! _ := try_emit (auth_outcome ceremony (if success then "succeeded" else "rejected") device_id) in
  ret tt.

(** What [registration_options] does once the ticket is consumed. *)
Definition registration_prepare (pairing : Registration) : gateway_m Failure Value :=
  let! '(id, existing) := (match rg_add_to_device pairing with
    | Some target =>
        let! device := in_identity (let! i := get in ok_or REJECTED (registration_target target i)) in
        ret (target, d_credentials device)
    | None =>
        let! b := random 16 in
        let! b := ok_or UNAVAILABLE b in
        ret (encode b, [])
    end) in
  elsewhere 1;;
  let! challenge := draw_challenge in
  let! '(state, options) := (match rp_registration rp id (rg_device_label pairing) existing
      (bool_decide (rg_add_to_device pairing = None)) challenge with
    | inl e => throw e
    | inr r => ret r
    end) in
  let! now := clock_read in
  in_ceremonies (ceremonies_insert
    (mkCeremony (rg_deadline pairing) (CerRegistration pairing id state)) now);;
  ret options.

(** [Gateway::registration_options] *)
Definition registration_options (request : RegistrationOptions) : gateway_m Failure Value :=
  let! pairing := in_pairings (consume_ticket request.(ro_pairing_id) request.(ro_ticket)) in
  elsewhere 0;;
  let! result := attempt (registration_prepare pairing) in
  match result with
  | inl e =>
      elsewhere 2;;
      in_pairings (retry_registration pairing);;
      throw e
  | inr options => ret options
  end.

(** [Pairings::finish] with the commit of [registration_finish] *)
Definition registration_commit (pairing : Registration) (verified : VerifiedRegistration)
    : gateway_m Failure string :=
  finish (λ _ m, in_pairings m) pairing
    (modify (inner 0);;
     let! id := in_identity (register_verified pairing verified) in
     modify (inner 1);;
     ret id).

(** The closure of [registration_finish] *)
Definition registration_verify (request : RegistrationFinish) : gateway_m Failure string :=
  let! now := clock_read in
  let! ceremony := in_ceremonies
    (take_registration request.(rf_pairing_id) request.(rf_credential) now) in
  elsewhere 0;;
  match c_kind ceremony with
  | CerRegistration pairing _ state =>
      let! verified := ok_or REJECTED (verify_registration rp state request.(rf_credential) binding) in
      registration_commit pairing verified
  | _ => throw REJECTED
  end.

(** [Gateway::registration_finish] *)
Definition registration_finish (request : RegistrationFinish) : gateway_m Failure Value :=
  let! result := attempt (registration_verify request) in
  elsewhere 1;;
  match result with
  | inl e => outcome_event "registration" false None;; throw e
  | inr id =>
      outcome_event "registration" true (Some id);;
      ret (VObject [("deviceId", VString id)])
  end.

(** [self.clock.now().after(120 s).min(self.policy.enable_until)] *)
Definition assertion_deadline {E} : gateway_m E Timestamp :=
  let! now := clock_read in
  ret (Z.min (after now (seconds 120)) (enable_until (gc_policy config))).

(** [Gateway::login_options] *)
Definition login_options : gateway_m Failure Value :=
  let! challenge := draw_challenge in
  let! '(state, options) := (match rp_login rp challenge with inl e => throw e | inr r => ret r end) in
  elsewhere 0;;
  let! until := assertion_deadline in
  let! now := clock_read in
  in_ceremonies (ceremonies_insert (mkCeremony until (CerLogin state)) now);;
  ret options.

(** [Gateway::login_finish] *)
Definition login_finish (request : LoginFinish) : gateway_m Failure AssertionResult :=
  let! now := clock_read in
  let! ceremony := attempt (E' := Failure) (in_ceremonies (take_assertion request.(lf_credential) None now)) in
  elsewhere 0;;
  let! result := attempt (match ceremony with
    | inr (mkCeremony _ (CerLogin state)) =>
        in_identity (finish_assertion rp (AssertLogin state) request.(lf_credential) None)
    | _ => throw REJECTED
    end) in
  match result with
  | inl e => outcome_event "login" false None;; throw e
  | inr r =>
      outcome_event "login" true
        (match r with LoggedIn _ _ device_id => Some device_id | Elevated _ => None end);;
      ret r
  end.

(** The part of [elevation_options] that needs the identity alone. *)
Definition elevation_prepare (ctx : AuthContext) (scope : Scope)
    : M (Identity * W) Failure (ElevState * Value * gset string) :=
  let! valid := (if negb (bool_decide (ctx.(ctx_rp_id) = gc_rp_id config)) then ret false
                 else revalidate ctx View) in
  reject_if (negb valid) AUTHENTICATION_REQUIRED;;
  let! able := can_elevate ctx scope in
  reject_if (negb able) SCOPE_NOT_GRANTED;;
  let! i := get in
  let! device := ok_or REJECTED (i.(i_devices) !! ctx.(ctx_device_id)) in
  let! challenge := draw_challenge in
  let! '(state, options) := (match rp_elevation rp (d_credentials device) binding scope challenge with
    | inl e => throw e
    | inr r => ret r
    end) in
  let! active := active_session_ids in
  ret (state, options, active).

(** [Gateway::elevation_options]; the identity stays locked throughout. *)
Definition elevation_options (ctx : AuthContext) (request : ElevationOptions) : gateway_m Failure Value :=
  let! '(state, options, active) := in_identity (elevation_prepare ctx request.(eo_scope)) in
  in_ceremonies (modify (retain_sessions active));;
  let! until := assertion_deadline in
  let! now := clock_read in
  in_ceremonies (ceremonies_insert
    (mkCeremony until (CerElevation ctx.(ctx_session_id) request.(eo_scope) state)) now);;
  ret options.

(** The write of [elevation_finish] *)
Definition elevation_write (ctx : AuthContext) (request : ElevationFinish)
    (ceremony : Failure + Ceremony) : M (Identity * W) Failure Timestamp :=
  let! able := can_elevate ctx request.(ef_scope) in
  reject_if (negb able) SCOPE_NOT_GRANTED;;
  let! state := (match ceremony with
    | inr (mkCeremony _ (CerElevation _ _ state)) => ret state
    | _ => throw REJECTED
    end) in
  let! result := finish_assertion rp (AssertElevation state) request.(ef_credential)
                   (Some (ctx, request.(ef_scope))) in
  match result with Elevated until => ret until | LoggedIn _ _ _ => throw REJECTED end.

(** [Gateway::elevation_finish]; the answer is the JSON of scope and deadline. *)
Definition elevation_finish (ctx : AuthContext) (request : ElevationFinish)
    : gateway_m Failure (Scope * Timestamp) :=
  let! now := clock_read in
  let! ceremony := attempt (E' := Failure) (in_ceremonies
    (take_assertion request.(ef_credential) (Some (ctx.(ctx_session_id), request.(ef_scope))) now)) in
  elsewhere 0;;
  let! result := attempt (authorized ctx View (elevation_write ctx request ceremony)) in
  elsewhere 1;;
  match result with
  | inl e => outcome_event "elevation" false None;; throw e
  | inr until =>
      outcome_event "elevation" true (Some ctx.(ctx_device_id));;
      ret (request.(ef_scope), until)
  end.

(** [Gateway::logout] *)
Definition logout_session (ctx : AuthContext) : gateway_m Failure unit :=
  in_identity (gateway_logout (gc_rp_id config) ctx).
End Handlers.
End Gateway.
