(* ===== verification/GatewayFacts.v ===== *)
(** * The gateway's handlers refine interleaved critical sections

    [gw_step] is one critical section of one lock; every handler is a sequence of
    them, whatever runs in between, so the invariants of the three components hold
    of the whole gateway. *)
From stdpp Require Import base gmap strings list fin_maps fin_sets relations.
From Stdlib Require Import ZArith Lia.
From S2P Require Import Prelude Steps Rust Externals Clock Devices Admin Events World Pairing.
From S2P Require Import PairingFacts PairingSpec Webauthn WebauthnFacts Session.
From S2P Require Import SessionInv SessionOps SessionLogin Authorize SessionSpec.
From S2P Require Import Gateway.
Local Open Scope Z_scope.

(** ** Methods that announce no device *)

Create HintDb quiet discriminated.

Section Quiet.
Context `{World W, !WorldLaws W}.

(** [w'] comes after [w], and the desktop heard of no device in between. *)
Record quiet_world (w w' : W) : Prop := {
  qw_log : ∃ l, world_log w' = world_log w ++ l ∧ Forall (λ e, device_event e = false) l;
  qw_time : world_time w <= world_time w';
}.
#[export] Instance quiet_world_preorder : PreOrder quiet_world.
Proof.
  split.
  - intros w. constructor; [exists []; by rewrite app_nil_r|lia].
  - intros w1 w2 w3 [(l1 & H1 & F1) T1] [(l2 & H2 & F2) T2]. constructor; [|lia].
    exists (l1 ++ l2). rewrite H2, H1, app_assoc. split; [done|by apply Forall_app].
Qed.
Lemma quiet_same w w' : world_log w' = world_log w → world_time w <= world_time w' → quiet_world w w'.
Proof. intros Hl Ht. constructor; [exists []; by rewrite app_nil_r|done]. Qed.

Definition quiet {S E A} (m : M (S * W) E A) : Prop := ∀ s w, quiet_world w (m (s, w)).2.2.

Context {S E : Type}.

Lemma quiet_wp {A} (m : M (S * W) E A) :
  (∀ s w, wp m (λ _ t, quiet_world w t.2) (s, w)) → quiet m.
Proof. intros Hm s w. apply (Hm s w). Qed.
Lemma quiet_ret {A} (a : A) : quiet (ret a : M (S * W) E A).
Proof. intros s w. reflexivity. Qed.
Lemma quiet_throw {A} (e : E) : quiet (throw e : M (S * W) E A).
Proof. intros s w. reflexivity. Qed.
Lemma quiet_panic {A} : quiet (panic : M (S * W) E A).
Proof. intros s w. reflexivity. Qed.
Lemma quiet_ok_or {A} (e : E) (o : option A) : quiet (ok_or e o : M (S * W) E A).
Proof. by destruct o; intros s w. Qed.
Lemma quiet_expect {A} (o : option A) : quiet (expect o : M (S * W) E A).
Proof. by destruct o; intros s w. Qed.
Lemma quiet_reject_if b (e : E) : quiet (reject_if b e : M (S * W) E unit).
Proof. by destruct b; intros s w. Qed.
Lemma quiet_get : quiet (get : M (S * W) E S).
Proof. intros s w. reflexivity. Qed.
Lemma quiet_update f : quiet (update f : M (S * W) E unit).
Proof. intros s w. reflexivity. Qed.
Lemma quiet_bind {A B} (m : M (S * W) E A) (k : A → M (S * W) E B) :
  quiet m → (∀ a, quiet (k a)) → quiet (bind m k).
Proof.
  intros Hm Hk s w. specialize (Hm s w). unfold bind. destruct (m (s, w)) as [[a|e|] [s' w']]; [|done..].
  etrans; [exact Hm|apply Hk].
Qed.
Lemma quiet_when b (m : M (S * W) E unit) : quiet m → quiet (when b m).
Proof. intros Hm. destruct b; [done|apply quiet_ret]. Qed.
Lemma quiet_for_each {A} (l : list A) (body : A → M (S * W) E unit) :
  (∀ x, quiet (body x)) → quiet (for_each l body).
Proof. intros Hb. induction l as [|x l IH]; [apply quiet_ret|by apply quiet_bind]. Qed.
Lemma quiet_clock : quiet (clock_read : M (S * W) E Timestamp).
Proof. apply quiet_wp. intros s w. apply wp_clock_read. intros t w' Ht <- Hl. by apply quiet_same. Qed.
Lemma quiet_random n : 0 <= n → quiet (random n : M (S * W) E (option string)).
Proof.
  intros Hn. apply quiet_wp. intros s w. apply wp_random; [done|]. intros o w' _ Ht Hl.
  apply quiet_same; [done|simpl; lia].
Qed.
Lemma quiet_iterate `{Countable K} {A} (m : gmap K A) : quiet (iterate m : M (S * W) E (list (K * A))).
Proof.
  apply quiet_wp. intros s w. apply wp_iterate. intros l w' _ Ht Hl. apply quiet_same; [done|simpl; lia].
Qed.
Lemma quiet_try_emit e : device_event e = false → quiet (try_emit e : M (S * W) E bool).
Proof.
  intros He. apply quiet_wp. intros s w. apply wp_try_emit. intros ok w' Ht Hl. constructor; [|simpl; lia].
  eexists. split; [exact Hl|]. destruct ok; auto.
Qed.
End Quiet.

Lemma quiet_try_emit_event `{World W, !WorldLaws W} {S} e : device_event e = false →
  quiet (try_emit_event e : M (S * W) Failure unit).
Proof. intros He. apply quiet_bind; [by apply quiet_try_emit|]. intros. apply quiet_reject_if. Qed.
Lemma quiet_attempt `{World W, !WorldLaws W} {S E E' A} (m : M (S * W) E' A) :
  quiet m → quiet (attempt m : M (S * W) E (E' + A)).
Proof. intros Hm s w. specialize (Hm s w). unfold attempt. by destruct (m (s, w)) as [[a|e|] t]. Qed.
Lemma quiet_on_entry `{World W, !WorldLaws W, Tokio} {A} id (m : M (Pairing * W) Failure A) :
  quiet m → quiet (on_entry id m).
Proof.
  intros Hm s w. unfold on_entry. destruct (ps_entries s !! id) as [p|]; [|reflexivity].
  specialize (Hm p w). by destruct (m (p, w)) as [r [p' w']].
Qed.

#[export] Hint Resolve quiet_ret quiet_throw quiet_panic quiet_ok_or quiet_expect quiet_reject_if quiet_get
  quiet_update quiet_when quiet_for_each quiet_clock quiet_iterate quiet_try_emit quiet_try_emit_event
  quiet_attempt quiet_on_entry : quiet.
#[export] Hint Extern 1 (quiet (random _)) => apply quiet_random; done : quiet.
#[export] Hint Extern 2 (device_event _ = false) => reflexivity : quiet.
#[export] Hint Extern 1 (quiet (bind _ _)) => apply quiet_bind; [|intros ?] : quiet.
#[export] Hint Extern 3 (∀ _, quiet _) => intros ? : quiet.
#[export] Hint Extern 3 (quiet (if ?b then _ else _)) => destruct b : quiet.
#[export] Hint Extern 3 (quiet (match ?x with _ => _ end)) => destruct x : quiet.
Ltac quiet_auto := cbn zeta; eauto 120 with quiet nocore.

Section PairingQuiet.
Context `{Base64, Crypto, Tokio, World W, !WorldLaws W}.

Lemma quiet_expire_now : quiet expire_now.
Proof. unfold expire_now. quiet_auto. Qed.
Lemma quiet_notify id : quiet (notify id).
Proof. unfold notify. quiet_auto. Qed.
Hint Resolve quiet_expire_now quiet_notify : quiet.
Lemma quiet_fail id b : quiet (fail id b).
Proof. unfold fail. quiet_auto. Qed.
Hint Resolve quiet_fail : quiet.
Lemma quiet_consume id ticket : quiet (consume_ticket id ticket).
Proof. unfold consume_ticket. quiet_auto. Qed.
Lemma quiet_retry registration : quiet (retry_registration registration).
Proof. unfold retry_registration. quiet_auto. Qed.
Lemma quiet_finish_check registration : quiet (finish_check registration).
Proof. unfold finish_check. quiet_auto. Qed.
Lemma quiet_finish_done registration : quiet (finish_done registration).
Proof. unfold finish_done. quiet_auto. Qed.
Lemma quiet_maintenance : quiet pairings_maintenance.
Proof. unfold pairings_maintenance. quiet_auto. Qed.
Lemma quiet_status_finish request : quiet (status_finish request).
Proof. unfold status_finish, pairing_authenticate. quiet_auto. Qed.
Lemma quiet_claim request agent : quiet (pairings_claim request agent).
Proof. unfold pairings_claim. quiet_auto. Qed.
Lemma quiet_status_begin request : quiet (status_begin request).
Proof. unfold status_begin, pairing_authenticate. quiet_auto. Qed.
Lemma quiet_command c : quiet (pairings_command c).
Proof. unfold pairings_command, pairing_create, decide_entry. pose proof quiet_maintenance. quiet_auto. Qed.
End PairingQuiet.

(** ** The step relation *)

Section Steps.
Context `{Base64, !Base64Laws _, Crypto, !CryptoLaws _, Http, Tokio, !Webauthn Transport, World W, !WorldLaws W}.
Implicit Types (g : Gw) (w : W).

(** One call of a method of [Pairings] that takes its lock alone. *)
Inductive pairing_call : Pairings * W → Pairings * W → Prop :=
| call_command c t : pairing_call t (pairings_command c t).2
| call_maintenance t : pairing_call t (pairings_maintenance t).2
| call_claim request user_agent t : pairing_call t (pairings_claim request user_agent t).2
| call_status_begin request t : pairing_call t (status_begin request t).2
| call_status_finish request t : pairing_call t (status_finish request t).2
| call_status_drop id s w : pairing_call (s, w) (status_drop id s, w)
| call_consume id ticket t : pairing_call t (consume_ticket id ticket t).2
| call_retry registration t : pairing_call t (retry_registration registration t).2.

(** What can run while the pairings are locked by another task. *)
Inductive free_step : Gw * W → Gw * W → Prop :=
| free_identity p i w i' w' c : identity_step (i, w) (i', w') →
    free_step (mkGw p i c, w) (mkGw p i' c, w')
| free_ceremony p i w c c' : ceremony_step c c' → free_step (mkGw p i c, w) (mkGw p i c', w).

Inductive gw_step : Gw * W → Gw * W → Prop :=
| gs_free t t' : free_step t t' → gw_step t t'
| gs_pairing p w p' w' i c : pairing_call (p, w) (p', w') → gw_step (mkGw p i c, w) (mkGw p' i c, w')
| gs_register inner pairing verified t :
    (∀ n t, rtc free_step t (inner n t)) →
    gw_step t (registration_commit inner pairing verified t).2.

(** ** The invariant *)

Record gw_inv (d0 : gmap string Device) t : Prop := {
  gi_pairings : table_inv (gw_pairings t.1) t.2;
  gi_identity : inv d0 (gw_identity t.1, t.2);
  gi_ceremonies : ceremonies_wf (gw_ceremonies t.1);
}.

Lemma pairing_call_step t t' : pairing_call t t' → pairing_step t t' ∧ quiet_world t.2 t'.2.
Proof.
  intros Hc. split; [destruct Hc; constructor|].
  destruct Hc as [c [p w]|[p w]|r a [p w]|r [p w]|r [p w]|id p w|id ti [p w]|reg [p w]].
  - exact (quiet_command c p w).
  - exact (quiet_maintenance p w).
  - exact (quiet_claim r a p w).
  - exact (quiet_status_begin r p w).
  - exact (quiet_status_finish r p w).
  - reflexivity.
  - exact (quiet_consume id ti p w).
  - exact (quiet_retry reg p w).
Qed.

Lemma inv_quiet d0 i w w' : inv d0 (i, w) → quiet_world w w' → inv d0 (i, w').
Proof.
  intros Hi [(l & Hl & Hq) Ht]. eapply ir_inv, irel_world; [by apply irel_refl|exact Hl|exact Hq|exact Ht].
Qed.

Lemma free_inv d0 t t' : gw_inv d0 t → free_step t t' →
  gw_inv d0 t' ∧ gw_pairings t'.1 = gw_pairings t.1 ∧ log_grows t.2 t'.2
  ∧ world_time t.2 <= world_time t'.2.
Proof.
  intros [Hp Hi Hc] Hs. destruct Hs as [p i w i' w' c Hs|p i w c c' Hs]; simpl in *.
  - apply (istep_irel d0) in Hs as [Hi' Hl Ht _]; [|done]. simpl in *.
    split; [|done]. constructor; simpl; [by eapply table_inv_grows|done|done].
  - split; [|split; [done|split; [reflexivity|lia]]]. constructor; simpl; [done..|by eapply step_wf].
Qed.

Lemma frees_inv d0 t t' : gw_inv d0 t → rtc free_step t t' →
  gw_inv d0 t' ∧ gw_pairings t'.1 = gw_pairings t.1 ∧ log_grows t.2 t'.2
  ∧ world_time t.2 <= world_time t'.2.
Proof.
  intros Hi Hs. induction Hs as [t|t1 t2 t3 H12 _ IH]; [split; [done|split; [done|split; [reflexivity|lia]]]|].
  destruct (free_inv _ _ _ Hi H12) as (Hi2 & Hp2 & Hl2 & Ht2).
  destruct (IH Hi2) as (Hi3 & Hp3 & Hl3 & Ht3).
  split; [done|]. split; [congruence|]. split; [by etrans|lia].
Qed.
End Steps.

(** * The gateway as a whole, under every interleaving

    [serve] is one request of the HTTP interface; whatever the other tasks do in
    between its critical sections, it is a sequence of [gw_step]s. *)
Section Serve.
Context `{Base64, !Base64Laws _, Crypto, !CryptoLaws _, Http, Tokio, !Webauthn Transport, World W, !WorldLaws W}.

(** ** The identity alone *)

Abbreviation ialong := (along identity_step).

(** The world moves quietly and the state stays. *)
Lemma along_world {S E A} (m : M (S * W) E A) : quiet m → (∀ s w, (m (s, w)).2.1 = s) →
  ∀ s w, ∃ w', (m (s, w)).2 = (s, w') ∧ quiet_world w w'.
Proof.
  intros Hq Hs s w. exists (m (s, w)).2.2. split; [|apply Hq]. rewrite <-(Hs s w) at 2. by destruct (m (s, w)).2.
Qed.
Lemma quiet_istep i w w' : quiet_world w w' → identity_step (i, w) (i, w').
Proof. intros [(l & Hl & Hq) Ht]. by eapply istep_world. Qed.

Lemma lift_still {S E A} (f : W → A * W) s w : ((lift f : M (S * W) E A) (s, w)).2.1 = s.
Proof. unfold lift. by destruct (f w). Qed.

Lemma ialong_world {E A} (m : M (Identity * W) E A) : quiet m → (∀ i w, (m (i, w)).2.1 = i) → ialong m.
Proof.
  intros Hq Hs. apply along_once. intros [i w].
  destruct (along_world m Hq Hs i w) as (w' & -> & Hw). by apply quiet_istep.
Qed.
Lemma ialong_get {E} : ialong (get : M (Identity * W) E Identity).
Proof. by apply along_still. Qed.
Lemma quiet_challenge {S E} : quiet (draw_challenge : M (S * W) E string).
Proof.
  apply quiet_wp. intros s w. apply wp_draw_challenge. intros b w' Ht Hl.
  apply quiet_same; [done|simpl; lia].
Qed.
Lemma ialong_challenge : ialong (draw_challenge : M (Identity * W) Failure string).
Proof. apply ialong_world; [apply quiet_challenge|intros; apply lift_still]. Qed.
Lemma ialong_revalidate ctx scope : ialong (revalidate (E := Failure) ctx scope).
Proof. apply along_once. intros. apply istep_revalidate. Qed.
Lemma ialong_can_elevate ctx scope : ialong (can_elevate (E := Failure) ctx scope).
Proof. apply along_once. intros. apply istep_can_elevate. Qed.
Lemma ialong_active_ids : ialong (active_session_ids (E := Failure)).
Proof. apply along_once. intros. apply istep_active_ids. Qed.
Lemma ialong_finish rp state response ctx : ialong (finish_assertion rp state response ctx).
Proof. apply along_once. intros. apply istep_finish. Qed.
Lemma ialong_authenticate headers host scope : ialong (authenticate headers host scope).
Proof. apply along_once. intros. apply istep_authenticate. Qed.
Lemma ialong_register pairing verified : ialong (register_verified pairing verified).
Proof. apply along_once. intros. apply istep_register. Qed.
Lemma ialong_logout host ctx : ialong (gateway_logout host ctx).
Proof. apply along_once. intros. apply istep_logout. Qed.
Hint Resolve ialong_get ialong_challenge ialong_revalidate ialong_can_elevate ialong_active_ids
  ialong_finish ialong_authenticate ialong_register ialong_logout : stepping.

Lemma ialong_authorized {T} host ctx scope (write : M (Identity * W) Failure T) :
  ialong write → ialong (with_authorized host ctx scope write).
Proof. intros Hw. unfold with_authorized. along_auto. Qed.
Lemma ialong_elevation_prepare config ctx scope : ialong (elevation_prepare config ctx scope).
Proof. unfold elevation_prepare. along_auto. Qed.
Lemma ialong_elevation_write config ctx request ceremony :
  ialong (elevation_write config ctx request ceremony).
Proof. unfold elevation_write. along_auto. Qed.
Hint Resolve ialong_authorized ialong_elevation_prepare ialong_elevation_write : stepping.

(** ** The whole *)

Abbreviation galong := (along gw_step).

Lemma galong_identity {E A} (m : M (Identity * W) E A) : ialong m → galong (in_identity m).
Proof.
  intros Hm [[p i c] w]. specialize (Hm (i, w)). unfold in_identity, zoom. simpl.
  destruct (m (i, w)) as [r t']. simpl in *.
  assert (∀ t, rtc identity_step t t' → rtc gw_step (mkGw p t.1 c, t.2) (mkGw p t'.1 c, t'.2)) as Hgen.
  { clear. intros t Hs. induction Hs as [t|[i1 w1] [i2 w2] t3 H12 _ IH]; [done|].
    eapply rtc_l; [|exact IH]. by apply gs_free, free_identity. }
  destruct t' as [i' w']. apply (Hgen (i, w) Hm).
Qed.
Lemma galong_ceremonies {E A} (m : M Ceremonies E A) :
  (∀ c, ceremony_step c (m c).2) → galong (in_ceremonies m : M (Gw * W) E A).
Proof.
  intros Hm. apply along_once. intros [[p i c] w]. specialize (Hm c). unfold in_ceremonies, zoom. simpl.
  destruct (m c) as [r c']. by apply gs_free, free_ceremony.
Qed.
Lemma galong_pairings {A} (m : M (Pairings * W) Failure A) :
  (∀ t, pairing_call t (m t).2) → galong (in_pairings m).
Proof.
  intros Hm. apply along_once. intros [[p i c] w]. specialize (Hm (p, w)). unfold in_pairings, zoom. simpl.
  destruct (m (p, w)) as [r [p' w']]. by apply gs_pairing.
Qed.
Lemma galong_world {E A} (m : M (Gw * W) E A) : quiet m → (∀ g w, (m (g, w)).2.1 = g) → galong m.
Proof.
  intros Hq Hs. apply along_once. intros [[p i c] w].
  destruct (along_world m Hq Hs (mkGw p i c) w) as (w' & -> & Hw).
  apply gs_free, free_identity. by apply quiet_istep.
Qed.
Lemma galong_clock {E} : galong (clock_read : M (Gw * W) E Timestamp).
Proof. apply galong_world; [apply quiet_clock|intros; apply lift_still]. Qed.
Lemma galong_random : galong (random 16 : M (Gw * W) Failure _).
Proof. apply galong_world; [by apply quiet_random|intros; apply lift_still]. Qed.
Lemma galong_challenge : galong (draw_challenge : M (Gw * W) Failure string).
Proof. apply galong_world; [apply quiet_challenge|intros; apply lift_still]. Qed.
Lemma galong_outcome {E} ceremony success device_id :
  galong (outcome_event ceremony success device_id : M (Gw * W) E unit).
Proof.
  apply along_bind; [|intros; apply along_ret].
  apply galong_world; [by apply quiet_try_emit|intros; apply lift_still].
Qed.
Hint Resolve galong_clock galong_random galong_challenge galong_outcome : stepping.
Hint Extern 2 (along gw_step (in_identity _)) => apply galong_identity : stepping.

Section Interleaved.
Context (config : GwConfig) (other inner : nat → Gw * W → Gw * W).
(** The other tasks only run the gateway's own critical sections; while this one
    holds the pairings they cannot touch those. *)
Hypothesis others : ∀ n t, rtc gw_step t (other n t).
Hypothesis inners : ∀ n t, rtc free_step t (inner n t).

Lemma galong_elsewhere {E} n : galong (elsewhere other n : M (Gw * W) E unit).
Proof. apply along_modify, others. Qed.
Lemma galong_commit pairing verified : galong (registration_commit inner pairing verified).
Proof. apply along_once. intros t. by apply gs_register. Qed.
Lemma galong_insert c now : galong (in_ceremonies (ceremonies_insert c now) : M (Gw * W) _ _).
Proof. apply galong_ceremonies. intros. apply step_insert. Qed.
Lemma galong_take_registration id response now :
  galong (in_ceremonies (take_registration id response now) : M (Gw * W) _ _).
Proof. apply galong_ceremonies. intros. apply step_take_registration. Qed.
Lemma galong_take_assertion response session now :
  galong (in_ceremonies (take_assertion response session now) : M (Gw * W) _ _).
Proof. apply galong_ceremonies. intros. apply step_take_assertion. Qed.
Lemma galong_retain {E} active :
  galong (in_ceremonies (modify (retain_sessions active)) : M (Gw * W) E unit).
Proof. apply galong_ceremonies. intros. apply step_retain_sessions. Qed.
Lemma galong_consume id ticket : galong (in_pairings (consume_ticket id ticket)).
Proof. apply galong_pairings. intros. apply call_consume. Qed.
Lemma galong_retry registration : galong (in_pairings (retry_registration registration)).
Proof. apply galong_pairings. intros. apply call_retry. Qed.
Hint Resolve galong_elsewhere galong_commit galong_insert galong_take_registration
  galong_take_assertion galong_retain galong_consume galong_retry : stepping.

Lemma galong_registration_options request : galong (registration_options config other request).
Proof. unfold registration_options, registration_prepare. along_auto. Qed.
Lemma galong_registration_finish request : galong (registration_finish config other inner request).
Proof. unfold registration_finish, registration_verify. along_auto. Qed.
Lemma galong_login_options : galong (login_options config other).
Proof. unfold login_options, assertion_deadline. along_auto. Qed.
Lemma galong_login_finish request : galong (login_finish config other request).
Proof. unfold login_finish. along_auto. Qed.
Lemma galong_elevation_options ctx request : galong (elevation_options config ctx request).
Proof. unfold elevation_options, assertion_deadline. along_auto. Qed.
Lemma galong_elevation_finish ctx request : galong (elevation_finish config other ctx request).
Proof. unfold elevation_finish, authorized. along_auto. Qed.
Lemma galong_logout ctx : galong (logout_session config ctx).
Proof. unfold logout_session. along_auto. Qed.

(** ** Requests *)

Inductive Request :=
| ReqClaim (request : ClaimRequest) (user_agent : string)
| ReqRegistrationOptions (request : RegistrationOptions)
| ReqRegistrationFinish (request : RegistrationFinish)
| ReqLoginOptions
| ReqLoginFinish (request : LoginFinish)
| ReqElevationOptions (headers : HeaderMap) (request : ElevationOptions)
| ReqElevationFinish (headers : HeaderMap) (request : ElevationFinish)
| ReqLogout (headers : HeaderMap).

(** The session routes of [http.rs]: [authenticate], then [with_authorized] with
    an empty write, then the handler. *)
Definition session_route {A} (headers : HeaderMap) (handler : AuthContext → M (Gw * W) Failure A)
    : M (Gw * W) Failure A :=
  let! ctx := map_err (λ _, AUTHENTICATION_REQUIRED) (gateway_authenticate config headers View) in
  elsewhere other 100;;
  authorized config ctx View (ret tt);;
  elsewhere other 101;;
  handler ctx.

Definition serve (request : Request) : M (Gw * W) Failure unit :=
  match request with
  | ReqClaim request user_agent => in_pairings (pairings_claim request user_agent);; ret tt
  | ReqRegistrationOptions request => registration_options config other request;; ret tt
  | ReqRegistrationFinish request => registration_finish config other inner request;; ret tt
  | ReqLoginOptions => login_options config other;; ret tt
  | ReqLoginFinish request => login_finish config other request;; ret tt
  | ReqElevationOptions headers request =>
      session_route headers (λ ctx, elevation_options config ctx request);; ret tt
  | ReqElevationFinish headers request =>
      session_route headers (λ ctx, elevation_finish config other ctx request);; ret tt
  | ReqLogout headers => session_route headers (logout_session config)
  end.

Lemma galong_session_route {A} headers (handler : AuthContext → M (Gw * W) Failure A) :
  (∀ ctx, galong (handler ctx)) → galong (session_route headers handler).
Proof. intros Hh. unfold session_route, gateway_authenticate, authorized. along_auto. Qed.
Lemma galong_claim request user_agent : galong (in_pairings (pairings_claim request user_agent)).
Proof. apply galong_pairings. intros. apply call_claim. Qed.
Hint Resolve galong_claim galong_registration_options galong_registration_finish galong_login_options
  galong_login_finish galong_elevation_options galong_elevation_finish galong_logout
  galong_session_route : stepping.

Lemma galong_serve request : galong (serve request).
Proof. unfold serve. along_auto. Qed.
End Interleaved.

(** ** The invariant of the whole *)

Lemma zoom_pairings_wp {E A} (m : M (Pairings * W) E A) (Q : outcome E A → Gw * W → Prop) p i c w :
  wp m (λ r t, Q r (mkGw t.1 i c, t.2)) (p, w) → wp (in_pairings m) Q (mkGw p i c, w).
Proof. intros Hm. apply wp_zoom. eapply wp_mono; [exact Hm|]. by intros r [p' w']. Qed.
Lemma zoom_identity_wp {E A} (m : M (Identity * W) E A) (Q : outcome E A → Gw * W → Prop) p i c w :
  wp m (λ r t, Q r (mkGw p t.1 c, t.2)) (i, w) → wp (in_identity m) Q (mkGw p i c, w).
Proof. intros Hm. apply wp_zoom. eapply wp_mono; [exact Hm|]. by intros r [i' w']. Qed.

Context (d0 : gmap string Device).
Abbreviation gw_inv := (gw_inv d0).

(** What a committed registration went through: the pairing was still the one being
    registered, the device entered the identity as it was after [finish_check], and
    the pairing is [Registered] at the end. *)
Record registration_committed (inner : nat → Gw * W → Gw * W) pairing verified id (t t' : Gw * W) : Prop := {
  cm_current : current_registration pairing (ps_entries (gw_pairings t.1) !! rg_pairing_id pairing);
  cm_device : ∃ checked added, in_pairings (finish_check pairing) t = (Ok tt, checked)
    ∧ in_identity (register_verified pairing verified) (inner 0%nat checked) = (Ok id, added)
    ∧ registered pairing verified id
        (gw_identity (inner 0%nat checked).1) (inner 0%nat checked).2 (gw_identity added.1) added.2
    ∧ gw_identity t'.1 = gw_identity (inner 1%nat added).1;
  cm_done : ∃ p, ps_entries (gw_pairings t'.1) !! rg_pairing_id pairing = Some p ∧ p_state p = Registered;
}.

(** The commit of a registration, with what it establishes. *)
Lemma commit_spec inner pairing verified t :
  gw_inv t → (∀ n t, rtc free_step t (inner n t)) →
  wp (registration_commit inner pairing verified) (λ r t', r ≠ Panic ∧ gw_inv t' ∧ world_time t.2 <= world_time t'.2 ∧
    ∀ id, r = Ok id → registration_committed inner pairing verified id t t') t.
Proof.
  intros Hi Hin. destruct t as [[p i c] w]. unfold registration_commit, finish.
  apply wp_bind, zoom_pairings_wp. pose proof (quiet_finish_check pairing p w) as Hquiet.
  pose proof (finish_check_spec (p, w) pairing p w (table_rel_refl _ _ (gi_pairings _ _ Hi))) as Hspec.
  apply run_wp. intros r [p1 w1] Hrun. rewrite Hrun in Hquiet.
  pose proof (wp_run _ _ _ _ _ Hspec Hrun) as (Hnp1 & Hr1 & _ & Hok). simpl in *.
  assert (gw_inv (mkGw p1 i c, w1)) as Hi1.
  { constructor; simpl; [apply Hr1|eapply inv_quiet; [apply Hi|exact Hquiet]|apply Hi]. }
  pose proof (qw_time _ _ Hquiet) as Ht1. simpl in Ht1.
  destruct r as [[]| |]; [|by split_and!|by split_and!].
  destruct (Hok eq_refl) as (e & He & -> & Hcur & Hlate).
  assert (in_pairings (finish_check pairing) (mkGw p i c, w) = (Ok tt, (mkGw p i c, w1))) as Hchecked.
  { unfold in_pairings, zoom. simpl. by rewrite Hrun. }
  apply wp_bind, wp_bind, wp_modify. pose proof (Hin 0%nat (mkGw p i c, w1)) as Hfree.
  destruct (inner 0%nat (mkGw p i c, w1)) as [[p2 i2 c2] w2] eqn:Hin0.
  destruct (frees_inv _ _ _ Hi1 Hfree) as (Hi2 & Hp2 & Hl2 & Ht2). simpl in Hp2, Hl2, Ht2. subst p2.
  apply wp_bind, zoom_identity_wp, run_wp. intros r [i3 w3] Hrun3.
  assert (in_identity (register_verified pairing verified) (mkGw p i2 c2, w2) = (r, (mkGw p i3 c2, w3))) as Hadded.
  { unfold in_identity, zoom. simpl. by rewrite Hrun3. }
  assert (wp (register_verified pairing verified) (λ r t, r ≠ Panic ∧ irel d0 (i2, w2) t
    ∧ ∀ id, r = Ok id → registered pairing verified id i2 w2 t.1 t.2) (i2, w2)) as Hspec3.
  { eapply register_verified_spec; [apply irel_refl, Hi2|]. by intros. }
  destruct (wp_run _ _ _ _ _ Hspec3 Hrun3) as (Hnp & [Hi3 Hl3 Ht3 _] & Hreg). simpl in *.
  assert (gw_inv (mkGw p i3 c2, w3)) as Hi3'.
  { constructor; simpl; [eapply table_inv_grows; [exact Hl3|apply Hi2]|done|apply Hi2]. }
  destruct r as [id| |]; [|split_and!; [done|done|simpl; lia|done]|done]. specialize (Hreg id eq_refl).
  apply wp_bind, wp_modify. pose proof (Hin 1%nat (mkGw p i3 c2, w3)) as Hfree'.
  destruct (inner 1%nat (mkGw p i3 c2, w3)) as [[p4 i4 c4] w4] eqn:Hin1.
  destruct (frees_inv _ _ _ Hi3' Hfree') as (Hi4 & Hp4 & Hl4 & Ht4). simpl in Hp4, Hl4, Ht4. subst p4.
  apply wp_ret, wp_bind, zoom_pairings_wp. pose proof (quiet_finish_done pairing p w4) as Hquiet'.
  assert (current_registration pairing (ps_entries p !! rg_pairing_id pairing)) as Hcur' by by rewrite He.
  pose proof (finish_done_spec (p, w4) pairing p w4 (table_rel_refl _ _ (gi_pairings _ _ Hi4)) Hcur') as Hspec'.
  apply run_wp. intros r [p5 w5] Hrun'. rewrite Hrun' in Hquiet'.
  pose proof (wp_run _ _ _ _ _ Hspec' Hrun') as (-> & Hr5 & q & Hq & Hst). simpl in *.
  apply wp_ret. split; [done|]. split.
  - constructor; simpl; [apply Hr5|eapply inv_quiet; [apply Hi4|exact Hquiet']|apply Hi4].
  - pose proof (qw_time _ _ Hquiet') as Ht5. simpl in *. split; [lia|].
    intros ? [= <-]. constructor; [done| |by exists q].
    exists (mkGw p i c, w1), (mkGw p i3 c2, w3). rewrite Hin0, Hin1. by split_and!.
Qed.

Lemma gw_step_spec t t' : gw_inv t → gw_step t t' → gw_inv t' ∧ world_time t.2 <= world_time t'.2.
Proof.
  intros Hi Hs. destruct Hs as [t t' Hs|p w p' w' i c Hs|inner pairing verified t Hin].
  - by destruct (free_inv _ _ _ Hi Hs) as (? & _ & _ & ?).
  - apply pairing_call_step in Hs as [Hs Hq]. apply step_table_rel in Hs; [|apply Hi].
    split; [|apply Hq]. constructor; simpl; [apply Hs|eapply inv_quiet; [apply Hi|exact Hq]|apply Hi].
  - by destruct (commit_spec inner pairing verified t Hi Hin) as (_ & ? & ? & _).
Qed.
Lemma gw_steps_spec t t' : gw_inv t → rtc gw_step t t' → gw_inv t' ∧ world_time t.2 <= world_time t'.2.
Proof.
  intros Hi Hs. induction Hs as [t|t1 t2 t3 H12 _ IH]; [split; [done|lia]|].
  destruct (gw_step_spec _ _ Hi H12) as [Hi2 Ht2]. destruct (IH Hi2) as [Hi3 Ht3]. split; [done|lia].
Qed.
Lemma gw_step_inv t t' : gw_inv t → gw_step t t' → gw_inv t'.
Proof. intros Hi Hs. by apply (gw_step_spec _ _ Hi Hs). Qed.
Lemma gw_steps_inv t t' : gw_inv t → rtc gw_step t t' → gw_inv t'.
Proof. intros Hi Hs. by apply (gw_steps_spec _ _ Hi Hs). Qed.

(** [Gateway::new]: the tables are empty but for the devices of the init frame. *)
Definition gateway_started (t : Gw * W) : Prop :=
  (∃ host login, gw_pairings t.1 = pairings_new host login)
  ∧ started d0 (gw_identity t.1, t.2)
  ∧ gw_ceremonies t.1 = ceremonies_new (max_devices (i_policy (gw_identity t.1))).
Definition gateway_reachable (t : Gw * W) : Prop :=
  ∃ t0, gateway_started t0 ∧ rtc gw_step t0 t.

Lemma gateway_reachable_inv t : gateway_reachable t → gw_inv t.
Proof.
  intros (t0 & ((host & login & Hp) & Hi & Hc) & Hs). eapply gw_steps_inv, Hs. constructor.
  - rewrite Hp. apply new_inv.
  - by apply started_inv.
  - rewrite Hc. eapply (reachable_wf (max_devices (i_policy (gw_identity t0.1)))). apply rtc_refl.
Qed.
End Serve.
