(* ===== verification/GatewayProps.v ===== *)
(** * What the gateway promises, end to end

    The theorems follow one request through the three components, with the other
    tasks running between its critical sections. *)
From stdpp Require Import base gmap strings list fin_maps fin_sets relations.
From Stdlib Require Import ZArith Lia.
From S2P Require Import Prelude Steps Rust Externals Crates Clock Devices Admin Events World Pairing.
From S2P Require Import PairingFacts PairingSpec Webauthn WebauthnFacts.
From S2P Require Import Session SessionInv SessionOps SessionLogin Authorize.
From S2P Require Import SessionSpec SessionProps Gateway GatewayFacts.
Local Open Scope Z_scope.

Section Props.
Context `{Base64, !Base64Laws _, Crypto, !CryptoLaws _, Http, Tokio, !Webauthn Transport, World W, !WorldLaws W}.
Context (d0 : gmap string Device) (config : GwConfig) (other inner : nat → Gw * W → Gw * W).

Lemma zoom_ceremonies_wp {E A} (m : M Ceremonies E A) (Q : outcome E A → Gw * W → Prop) p i c w :
  wp m (λ r c', Q r (mkGw p i c', w)) c → wp (in_ceremonies m) Q (mkGw p i c, w).
Proof. intros Hm. apply wp_zoom. exact Hm. Qed.

(** What a task may rely on at a place where the others ran. *)
Lemma elsewhere_wp {E} n (Q : outcome E unit → Gw * W → Prop) t :
  (∀ n t, rtc gw_step t (other n t)) → gw_inv d0 t →
  (∀ t', gw_inv d0 t' → Q (Ok tt) t') → wp (elsewhere other n) Q t.
Proof.
  intros Ho Hi HQ. apply wp_modify, HQ. eapply gw_steps_inv; [exact Hi|apply Ho].
Qed.

Lemma clock_wp {E} (Q : outcome E Timestamp → Gw * W → Prop) g w :
  gw_inv d0 (g, w) →
  (∀ w', gw_inv d0 (g, w') → world_time w <= world_time w' →
     (clock_read : M (Gw * W) E Timestamp) (g, w) = (Ok (world_time w'), (g, w')) →
     Q (Ok (world_time w')) (g, w')) →
  wp clock_read Q (g, w).
Proof.
  intros Hi HQ. apply run_wp. intros r t' Hrun.
  assert (wp (clock_read : M (Gw * W) E Timestamp) (λ r t', r = Ok (world_time t'.2) ∧ t'.1 = g
    ∧ world_time w <= world_time t'.2 ∧ world_log t'.2 = world_log w) (g, w)) as Hspec.
  { apply wp_clock_read. by intros now w' Ht <- Hl. }
  destruct (wp_run _ _ _ _ _ Hspec Hrun) as (-> & Hg & Ht & Hl). destruct t' as [g' w']. simpl in *. subst g'.
  apply HQ; [|done|exact Hrun].
  assert (quiet_world w w') as Hq by by apply quiet_same.
  destruct Hi as [Hp Hid Hc]. constructor; simpl in *; [|by eapply inv_quiet|done].
  eapply table_inv_grows; [|exact Hp]. destruct Hq as [(l & Hq & _) _]. by eapply log_grows_app.
Qed.

Hypothesis others : ∀ n t, rtc gw_step t (other n t).
Hypothesis inners : ∀ n t, rtc free_step t (inner n t).

(** [m] is run at the time the clock shows and answers the ceremony [c]: the first
    two critical sections of a finishing handler. *)
Definition took (m : Timestamp → M Ceremonies Failure Ceremony) (t : Gw * W) c (t1 : Gw * W) : Prop :=
  (let! now := clock_read in in_ceremonies (m now)) t = (Ok c, t1).

Lemma took_run (m : Timestamp → M Ceremonies Failure Ceremony) p i c w w1 ce c' :
  (clock_read : M (Gw * W) Failure Timestamp) (mkGw p i c, w) = (Ok (world_time w1), (mkGw p i c, w1)) →
  m (world_time w1) c = (Ok ce, c') → took m (mkGw p i c, w) ce (mkGw p i c', w1).
Proof. intros Hc Hm. unfold took, bind. rewrite Hc. unfold in_ceremonies, zoom. simpl. by rewrite Hm. Qed.

(** Taking a ceremony, at the start of a finishing handler. *)
Lemma take_assertion_wp session response (Q : outcome Failure (Failure + Ceremony) → Gw * W → Prop) p i c w now :
  gw_inv d0 (mkGw p i c, w) →
  (∀ e t', gw_inv d0 t' → Q (Ok (inl e)) t') →
  (∀ key ce c', gw_inv d0 (mkGw p i c', w) → take_assertion response session now c = (Ok ce, c') →
     taken key now c ce c' →
     match session with
     | None => login_response_challenge response = Some key ∧ is_login (c_kind ce) = true
     | Some (id, scope) => elevation_response_challenge response = Some key
         ∧ ∃ st, c_kind ce = CerElevation id scope st
     end → Q (Ok (inr ce)) (mkGw p i c', w)) →
  wp (attempt (E' := Failure) (in_ceremonies (take_assertion response session now))) Q (mkGw p i c, w).
Proof.
  intros Hi Herr Hok. apply wp_attempt, zoom_ceremonies_wp.
  apply run_wp. intros r c' Hrun.
  pose proof (wp_run _ _ _ _ _ (take_assertion_spec response session now c) Hrun) as (Hnp & _ & Hspec).
  assert (gw_inv d0 (mkGw p i c', w)) as Hi'.
  { destruct Hi as [Hp Hid Hc]. constructor; simpl in *; [done..|].
    pose proof (step_wf c _ Hc (step_take_assertion response session now c)) as Hwf. by rewrite Hrun in Hwf. }
  destruct r as [ce|e|]; [|by apply Herr|done].
  destruct (Hspec ce eq_refl) as (key & Ht & Hkey). by eapply Hok.
Qed.

Lemma inv_world g w w' : gw_inv d0 (g, w) → quiet_world w w' → gw_inv d0 (g, w').
Proof.
  intros [Hp Hid Hc] Hq. constructor; simpl in *; [|by eapply inv_quiet|done].
  eapply table_inv_grows; [|exact Hp]. destruct Hq as [(l & Hl & _) _]. by eapply log_grows_app.
Qed.

Lemma outcome_wp {E} ceremony success device_id (Q : outcome E unit → Gw * W → Prop) g w :
  gw_inv d0 (g, w) → (∀ w', gw_inv d0 (g, w') → quiet_world w w' → Q (Ok tt) (g, w')) →
  wp (outcome_event ceremony success device_id) Q (g, w).
Proof.
  intros Hi HQ. apply wp_bind, wp_try_emit. intros ok w' Ht Hl. apply wp_ret.
  assert (quiet_world w w') as Hq.
  { constructor; [|lia]. eexists. split; [exact Hl|]. destruct ok; auto. }
  apply HQ; [by eapply inv_world|done].
Qed.

(** A rejected ceremony only sends the informational event. *)
Lemma rejected_wp {A} ceremony e (Q : outcome Failure A → Gw * W → Prop) t :
  gw_inv d0 t → (∀ t', gw_inv d0 t' → Q (Err e) t') →
  wp (outcome_event ceremony false None;; throw e) Q t.
Proof.
  intros Hi HQ. destruct t as [g w]. apply wp_bind, outcome_wp; [done|]. intros w' Hi' _.
  apply wp_throw. by apply HQ.
Qed.

(** A method of the identity that keeps its invariant keeps the gateway's. *)
Lemma identity_inv p i c w i' w' : gw_inv d0 (mkGw p i c, w) → SessionOps.irel d0 (i, w) (i', w') →
  gw_inv d0 (mkGw p i' c, w').
Proof.
  intros [Hp Hid Hc] [Hi' Hl _ _]. constructor; simpl in *; [|done..]. by eapply table_inv_grows.
Qed.

(** A login: the challenge answered was an open, unexpired login ceremony, and it
    is gone once the handler took it. *)
Definition login_challenged (request : LoginFinish) (t t1 : Gw * W) st : Prop :=
  ∃ key until, login_response_challenge request.(lf_credential) = Some key
  ∧ cs_entries (gw_ceremonies t.1) !! key = Some (mkCeremony until (CerLogin st))
  ∧ world_time t.2 <= world_time t1.2 < until
  ∧ cs_entries (gw_ceremonies t1.1) !! key = None
  ∧ took (take_assertion request.(lf_credential) None) t (mkCeremony until (CerLogin st)) t1.

(** What a login went through: the assertion was verified against the identity as
    it was when the handler got its lock, and the session was written there. *)
Definition login_went (request : LoginFinish) (t : Gw * W) sid binding id (t' : Gw * W) : Prop :=
  ∃ st t1 t2, login_challenged request t t1 st
  ∧ (∃ v, verified_for (gc_rp config) (AssertLogin st) request.(lf_credential) id View
            (gw_identity (other 0%nat t1).1) v)
  ∧ in_identity (finish_assertion (gc_rp config) (AssertLogin st) request.(lf_credential) None)
      (other 0%nat t1) = (Ok (LoggedIn sid binding id), t2)
  ∧ t'.1 = t2.1
  ∧ ∃ b now, binding = encode b ∧ len b = 32 ∧ len sid = 32
    ∧ world_time (other 0%nat t1).2 <= now <= world_time t'.2
    ∧ (gw_identity t'.1).(i_sessions) !! sid = Some (fresh_session id (rp_host (gc_rp config)) now b).

Lemma login_spec request t : gw_inv d0 t →
  wp (login_finish config other request) (λ r t', gw_inv d0 t' ∧ r ≠ Panic ∧
    ∀ sid binding id, r = Ok (LoggedIn sid binding id) → login_went request t sid binding id t') t.
Proof.
  intros Hi. destruct t as [[p i c] w]. unfold login_finish.
  apply wp_bind. eapply clock_wp; [exact Hi|]. intros w1 Hi1 Ht1 Hclock.
  apply wp_bind. eapply take_assertion_wp; [exact Hi1| |].
  - intros e t2 Hi2. apply wp_bind. eapply elsewhere_wp; [exact others|exact Hi2|]. intros t3 Hi3.
    apply wp_bind, wp_attempt, wp_throw. by apply rejected_wp.
  - intros key [until kind] c' Hi2 Htake (Hk & Hlate & Hc') [Hch Hkind].
    destruct kind as [|st|]; try done. pose proof (took_run _ _ _ _ _ _ _ _ Hclock Htake) as Htook.
    assert (login_challenged request (mkGw p i c, w) (mkGw p i c', w1) st) as Hopen.
    { exists key, until. split_and!; try done. rewrite Hc'. apply lookup_delete_eq. }
    apply wp_bind, wp_modify. pose proof (gw_steps_inv d0 _ _ Hi2 (others 0%nat _)) as Hi3.
    destruct (other 0%nat (mkGw p i c', w1)) as [[p3 i3 c3] w3] eqn:Hother.
    apply wp_bind, wp_attempt, zoom_identity_wp, run_wp. intros r [i4 w4] Hrun.
    assert (wp (finish_assertion (gc_rp config) (AssertLogin st) request.(lf_credential) None) (λ r t,
      r ≠ Panic ∧ SessionOps.irel d0 (i3, w3) t ∧ assertion_finished (gc_rp config) (AssertLogin st)
        request.(lf_credential) None r i3 w3 t.1 t.2) (i3, w3)) as Hspec.
    { eapply finish_assertion_spec; [apply irel_refl, Hi3|]. by intros. }
    destruct (wp_run _ _ _ _ _ Hspec Hrun) as (Hnp & Hr4 & Hfin).
    pose proof (identity_inv _ _ _ _ _ _ Hi3 Hr4) as Hi4.
    destruct r as [res|e|]; [|by apply rejected_wp|done].
    apply wp_bind, outcome_wp; [exact Hi4|]. intros w5 Hi5 Hq. apply wp_ret.
    split; [done|]. split; [done|]. intros sid b id [= ->].
    destruct (af_login _ _ _ _ _ _ _ _ _ Hfin _ _ _ eq_refl)
      as (_ & Hv & _ & b' & now & Hb & Hsid & -> & Hnow & Hs).
    exists st, (mkGw p i c', w1), (mkGw p3 i4 c3, w4). rewrite Hother.
    split; [exact Hopen|]. split; [exact Hv|]. split.
    { unfold in_identity, zoom. cbn [gw_identity]. by rewrite Hrun. }
    split; [done|]. exists b', now. pose proof (qw_time _ _ Hq). simpl in *. split_and!; (done || lia).
Qed.

(** An elevation: the challenge was an open, unexpired elevation ceremony of this
    very session and scope, and it is gone once the handler took it. *)
Definition elevation_challenged (ctx : AuthContext) (request : ElevationFinish) (t t1 : Gw * W) ceremony st : Prop :=
  ∃ key until, elevation_response_challenge request.(ef_credential) = Some key
  ∧ ceremony = mkCeremony until (CerElevation ctx.(ctx_session_id) request.(ef_scope) st)
  ∧ cs_entries (gw_ceremonies t.1) !! key = Some ceremony
  ∧ world_time t.2 <= world_time t1.2 < until
  ∧ cs_entries (gw_ceremonies t1.1) !! key = None
  ∧ took (take_assertion request.(ef_credential) (Some (ctx.(ctx_session_id), request.(ef_scope)))) t ceremony t1.

(** The grant, from the state the handler found when it got the identity's lock: the
    session was authorised in it, the assertion was verified against it, and the
    elevation written is within every cap of the device and policy it left. *)
Definition elevation_granted (ctx : AuthContext) (request : ElevationFinish) (ceremony : Ceremony) st until
    (before t' : Gw * W) : Prop :=
  ∃ t2, authorized config ctx View (elevation_write config ctx request (inr ceremony)) before = (Ok until, t2)
  ∧ (∃ first now i0 i1, world_time before.2 <= first <= now
       ∧ recognised (gc_rp_id config) ctx (gw_identity before.1) i0 first
       ∧ admitted (gc_rp_id config) ctx View i0 i1 now)
  ∧ (∃ v, verified_for (gc_rp config) (AssertElevation st) request.(ef_credential) ctx.(ctx_device_id)
            request.(ef_scope) (gw_identity before.1) v)
  ∧ elevated ctx request.(ef_scope) until (gw_identity t2.1) t2.2
  ∧ (gw_identity t2.1).(i_policy) = (gw_identity before.1).(i_policy)
  ∧ t'.1 = (other 1%nat t2).1.

Lemma verified_touched rp state response id scope i sid s d now v :
  (i_devices i) !! s_device_id s = Some d →
  verified_for rp state response id scope (touched i sid s d now) v → verified_for rp state response id scope i v.
Proof.
  intros Hd [(d' & c & Hd' & Hlock & Hc & Hrest)]. unfold touched in Hd'. simpl in Hd'.
  constructor. apply lookup_insert_Some in Hd' as [[<- <-]|[_ Hd']]; [exists d|exists d']; exists c;
    by split_and!; try apply Hrest.
Qed.

Lemma elevation_write_spec t ctx request ceremony (Q : outcome Failure Timestamp → Identity * W → Prop) i w :
  SessionOps.irel d0 t (i, w) →
  (∀ r i' w', r ≠ Panic → SessionOps.irel d0 t (i', w') →
     (∀ until, r = Ok until → ∃ u s st v, ceremony = inr (mkCeremony u (CerElevation s request.(ef_scope) st))
        ∧ verified_for (gc_rp config) (AssertElevation st) request.(ef_credential) ctx.(ctx_device_id)
            request.(ef_scope) i v
        ∧ elevated ctx request.(ef_scope) until i' w') → Q r (i', w')) →
  (∀ u s sc st, ceremony = inr (mkCeremony u (CerElevation s sc st)) → sc = request.(ef_scope)) →
  wp (elevation_write config ctx request ceremony) Q (i, w).
Proof.
  intros Hr HQ Hscope. unfold elevation_write. apply wp_bind. eapply can_elevate_spec; [exact Hr|].
  intros able w1 Hr1 _ _ _. apply wp_bind, wp_reject_if. destruct able; cbn [negb]; [|by apply HQ].
  apply wp_bind. destruct ceremony as [e|[u [pairing id st|st|s sc st]]];
    try (by apply wp_throw, HQ). specialize (Hscope u s sc st eq_refl) as ->.
  apply wp_ret, wp_bind. eapply finish_assertion_spec; [exact Hr1|].
  intros r i' w' Hnp Hr' Hfin. destruct r as [[ses b id|until]|e|]; [|apply wp_ret|by apply HQ|done].
  - by apply wp_throw, HQ.
  - apply HQ; [done|done|]. intros ? [= <-].
    destruct (af_elevated _ _ _ _ _ _ _ _ _ Hfin until eq_refl) as (c & scope & [= <- <-] & [v Hv] & Hel).
    by exists u, s, st, v.
Qed.

(** The critical section of the grant. *)
Lemma elevation_section ctx request ceremony before : gw_inv d0 before →
  (∀ u s sc st, ceremony = inr (mkCeremony u (CerElevation s sc st)) → sc = request.(ef_scope)) →
  wp (authorized config ctx View (elevation_write config ctx request ceremony)) (λ r t2,
    r ≠ Panic ∧ gw_inv d0 t2 ∧ ∀ until, r = Ok until →
      ∃ u s st, ceremony = inr (mkCeremony u (CerElevation s request.(ef_scope) st))
      ∧ (∃ first now i0 i1, world_time before.2 <= first <= now
           ∧ recognised (gc_rp_id config) ctx (gw_identity before.1) i0 first
           ∧ admitted (gc_rp_id config) ctx View i0 i1 now)
      ∧ (∃ v, verified_for (gc_rp config) (AssertElevation st) request.(ef_credential) ctx.(ctx_device_id)
                request.(ef_scope) (gw_identity before.1) v)
      ∧ elevated ctx request.(ef_scope) until (gw_identity t2.1) t2.2
      ∧ (gw_identity t2.1).(i_policy) = (gw_identity before.1).(i_policy)) before.
Proof.
  intros Hi Hscope. destruct before as [[p i c] w]. apply zoom_identity_wp.
  eapply with_authorized_spec; [apply irel_refl, Hi| |].
  - intros e i' w' Hr' _. split; [done|]. split; [by eapply identity_inv|done].
  - intros first i0 i1 w1 Hr1 _ Hf Hn Hrec Had. eapply elevation_write_spec; [exact Hr1| |exact Hscope].
    intros r i' w' Hnp Hr' Hok. split; [done|]. split; [by eapply identity_inv|]. intros u0 ->.
    destruct (Hok u0 eq_refl) as (u & s & st & v & Hcer & Hv & Hel). exists u, s, st.
    split; [exact Hcer|]. split; [by exists first, (world_time w1), i0, i1|]. split; [|split; [exact Hel|]].
    + exists v. destruct Hrec as [_ (s0 & d & _ & Hs0 & Hd & ->)], Had as [_ _ (s1 & d1 & _ & Hs1 & Hd1 & ->)].
      eapply verified_touched; [by rewrite Hs0|]. eapply verified_touched; [|exact Hv]. by rewrite Hs1.
    + destruct Hr' as [_ _ _ Hp]. exact Hp.
Qed.

(** From the ceremony taken to the answer. *)
Lemma elevation_rest ctx request ceremony t : gw_inv d0 t →
  (∀ u s sc st, ceremony = inr (mkCeremony u (CerElevation s sc st)) → sc = request.(ef_scope)) →
  wp (elsewhere other 0;;
      let! result := attempt (authorized config ctx View (elevation_write config ctx request ceremony)) in
      elsewhere other 1;;
      match result with
      | inl e => outcome_event "elevation" false None;; throw e
      | inr until =>
          outcome_event "elevation" true (Some ctx.(ctx_device_id));; ret (request.(ef_scope), until)
      end) (λ r t', gw_inv d0 t' ∧ r ≠ Panic ∧
    ∀ scope until, r = Ok (scope, until) → scope = request.(ef_scope) ∧
      ∃ c u s st, ceremony = inr c ∧ c = mkCeremony u (CerElevation s request.(ef_scope) st)
        ∧ elevation_granted ctx request c st until (other 0%nat t) t') t.
Proof.
  intros Hi Hscope. apply wp_bind, wp_modify. pose proof (gw_steps_inv d0 _ _ Hi (others 0%nat _)) as Hi0.
  apply wp_bind, wp_attempt, run_wp. intros r t2 Hrun.
  destruct (wp_run _ _ _ _ _ (elevation_section ctx request ceremony _ Hi0 Hscope) Hrun) as (Hnp & Hi2 & Hok).
  pose proof (gw_steps_inv d0 _ _ Hi2 (others 1%nat _)) as Hi3.
  destruct r as [until|e|]; [| |done]; apply wp_bind, wp_modify; [|by apply rejected_wp].
  destruct (other 1%nat t2) as [g w2] eqn:Hother. apply wp_bind, outcome_wp; [exact Hi3|]. intros w3 Hi4 _.
  apply wp_ret. split; [done|]. split; [done|]. intros ? ? [= <- <-]. split; [done|].
  destruct (Hok until eq_refl) as (u & s & st & -> & Hrest & Hv & Hel & Hp).
  eexists _, u, s, st.
  split; [done|]. split; [done|]. exists t2. rewrite Hother. by split_and!.
Qed.

Lemma elevation_spec ctx request t : gw_inv d0 t →
  wp (elevation_finish config other ctx request) (λ r t', gw_inv d0 t' ∧ r ≠ Panic ∧
    ∀ scope until, r = Ok (scope, until) → scope = request.(ef_scope)
      ∧ ∃ st ceremony t1, elevation_challenged ctx request t t1 ceremony st
        ∧ elevation_granted ctx request ceremony st until (other 0%nat t1) t') t.
Proof.
  intros Hi. destruct t as [[p i c] w]. unfold elevation_finish.
  apply wp_bind. eapply clock_wp; [exact Hi|]. intros w1 Hi1 Ht1 Hclock.
  apply wp_bind. eapply take_assertion_wp; [exact Hi1| |].
  - intros e t2 Hi2. eapply wp_mono; [by apply elevation_rest|]. intros r t' (? & ? & Hok).
    split_and!; [done..|]. intros scope until Hr. by destruct (Hok scope until Hr) as (_ & ? & ? & ? & ? & ? & _).
  - intros key [until kind] c' Hi2 Htake (Hk & Hlate & Hc') [Hch [st Hkind]]. simpl in Hkind. subst kind.
    pose proof (took_run _ _ _ _ _ _ _ _ Hclock Htake) as Htook.
    eapply wp_mono; [apply elevation_rest; [exact Hi2|by intros ? ? ? ? [= <- <- <- <-]]|].
    intros r t' (? & ? & Hok). split_and!; [done..|]. intros scope u Hr.
    destruct (Hok scope u Hr) as (-> & ce & u' & s & st' & [= <-] & [= <- <- <-] & Hgr).
    split; [done|]. eexists st, _, (mkGw p i c', w1). split; [|exact Hgr].
    exists key, until. split_and!; try done. rewrite Hc'. apply lookup_delete_eq.
Qed.

(** A registration: the challenge was an open, unexpired ceremony of that pairing,
    and it is gone once the handler took it. *)
Definition registration_challenged (request : RegistrationFinish) (t t1 : Gw * W) pairing st : Prop :=
  ∃ key until device, registration_response_challenge request.(rf_credential) = Some key
  ∧ cs_entries (gw_ceremonies t.1) !! key
    = Some (mkCeremony until (CerRegistration pairing device st))
  ∧ world_time t.2 <= world_time t1.2 < until ∧ rg_pairing_id pairing = request.(rf_pairing_id)
  ∧ cs_entries (gw_ceremonies t1.1) !! key = None
  ∧ took (take_registration request.(rf_pairing_id) request.(rf_credential)) t
      (mkCeremony until (CerRegistration pairing device st)) t1.

(** What a finished registration went through, up to the end of its commit. *)
Definition registration_went (request : RegistrationFinish) (t : Gw * W) (id : string) (t2 : Gw * W) : Prop :=
  ∃ pairing st verified t1, registration_challenged request t t1 pairing st
  ∧ verify_registration (gc_rp config) st request.(rf_credential)
      (passkey_binding (gc_policy config)) = Some verified
  ∧ registration_commit inner pairing verified (other 0%nat t1) = (Ok id, t2)
  ∧ registration_committed inner pairing verified id (other 0%nat t1) t2.

Lemma registration_verify_spec request t : gw_inv d0 t →
  wp (registration_verify config other inner request) (λ r t', gw_inv d0 t' ∧
    ∀ id, r = Ok id → registration_went request t id t') t.
Proof.
  intros Hi. destruct t as [[p i c] w]. unfold registration_verify.
  apply wp_bind. eapply clock_wp; [exact Hi|]. intros w1 Hi1 Ht1 Hclock.
  apply wp_bind, zoom_ceremonies_wp. apply run_wp. intros r c' Hrun.
  pose proof (wp_run _ _ _ _ _ (take_registration_spec _ _ _ c) Hrun) as (_ & _ & Hspec).
  assert (gw_inv d0 (mkGw p i c', w1)) as Hi2.
  { destruct Hi1 as [Hp Hid Hc]. constructor; simpl in *; [done..|].
    pose proof (step_wf c _ Hc (step_take_registration (rf_pairing_id request) (rf_credential request)
      (world_time w1) c)) as Hwf. by rewrite Hrun in Hwf. }
  destruct r as [[until kind]|e|]; [|by split|by split].
  destruct (Hspec _ eq_refl) as (key & Hch & (Hk & Hlate & Hc') & Hof). simpl in Hlate, Hof.
  pose proof (took_run (take_registration (rf_pairing_id request) (rf_credential request)) _ _ _ _ _ _ _
    Hclock Hrun) as Htook.
  apply wp_bind, wp_modify. pose proof (gw_steps_inv d0 _ _ Hi2 (others 0%nat _)) as Hi3. cbn [c_kind].
  destruct kind as [pairing device st|st|s sc st]; [|done..]. simpl in Hof. apply bool_decide_eq_true in Hof.
  apply wp_bind, wp_ok_or. destruct (verify_registration _ _ _ _) as [verified|] eqn:Hv; [|by split].
  apply run_wp. intros r t4 Hcommit.
  destruct (wp_run _ _ _ _ _ (commit_spec d0 inner pairing verified _ Hi3 inners) Hcommit) as (_ & Hi4 & _ & Hok).
  split; [done|]. intros id ->. exists pairing, st, verified, (mkGw p i c', w1). split.
  { exists key, until, device. split_and!; try done. rewrite Hc'. apply lookup_delete_eq. }
  split; [done|]. split; [exact Hcommit|]. by apply Hok.
Qed.

Lemma registration_spec request t : gw_inv d0 t →
  wp (registration_finish config other inner request) (λ r t', gw_inv d0 t' ∧
    ∀ v, r = Ok v → ∃ id t2, v = VObject [("deviceId", VString id)]
      ∧ registration_went request t id t2 ∧ t'.1 = (other 1%nat t2).1) t.
Proof.
  intros Hi. unfold registration_finish. apply wp_bind, wp_attempt.
  eapply wp_mono; [by apply registration_verify_spec|]. intros r t1 [Hi1 Hok].
  pose proof (gw_steps_inv d0 _ _ Hi1 (others 1%nat _)) as Hi2.
  destruct r as [id|e|]; [| |by split]; apply wp_bind, wp_modify; [|by apply rejected_wp].
  destruct (other 1%nat t1) as [g w] eqn:Hother.
  apply wp_bind, outcome_wp; [exact Hi2|]. intros w3 Hi3 _. apply wp_ret. split; [done|].
  intros ? [= <-]. exists id, t1. rewrite Hother. split; [done|]. split; [by apply Hok|done].
Qed.

(** ** The theorems *)

(** C1. The gateway as a whole.  Whatever request is served, and whatever the other
    tasks do between its critical sections, the gateway goes from reachable state
    to reachable state, and every reachable state satisfies the invariants of its
    three components at once: the limits on pairings, sessions and ceremonies, the
    elevations within their grants, and a desktop that knows every device or is
    about to be told. *)
Theorem gateway_invariant request t : gateway_reachable d0 t →
  let t' := (serve config other inner request t).2 in
  gateway_reachable d0 t'
  ∧ (live_count (gw_pairings t'.1) ≤ 4)%nat
  ∧ (size (gw_identity t'.1).(i_sessions) ≤ session_limit (gw_identity t'.1))%nat
  ∧ (count_kind is_registration (gw_ceremonies t'.1) ≤ 16)%nat
  ∧ (∀ sid s, (gw_identity t'.1).(i_sessions) !! sid = Some s →
       session_ok (gw_identity t'.1).(i_policy) (gw_identity t'.1).(i_devices) s)
  ∧ ∀ id, (gw_identity t'.1).(i_notifications) !! id = None →
       forget <$> (gw_identity t'.1).(i_devices) !! id = forget <$> replica d0 (world_log t'.2) !! id.
Proof.
  intros (t0 & Ht0 & Hs) t'.
  assert (gateway_reachable d0 t') as Hr.
  { exists t0. split; [done|]. etrans; [exact Hs|]. by apply galong_serve. }
  split; [exact Hr|]. apply gateway_reachable_inv in Hr as [Hp [Hc Hrep] Hce].
  split; [apply Hp|]. split; [apply Hc|]. split; [apply Hce|]. split; [apply Hc|].
  intros id Hno. specialize (Hrep id). unfold replica_at in Hrep. simpl in Hrep. by rewrite Hno in Hrep.
Qed.

(** C3. Registration, end to end.  A device id is answered only when the credential
    answered an open, unexpired challenge of that very pairing, which the handler
    took ([t1]) so that it is open no more, and the library verified it for this host
    under the binding policy.  The commit ran from the state the handler then found
    ([other 0 t1]): there the pairing was the one being registered; the device was
    added, with the verified credential, to the identity as the handler found it
    after that check; and when the commit ended ([t2]) the pairing was registered.
    The answer is that of the state [t2], up to what the other tasks did since. *)
Theorem registration_end_to_end request t v t' :
  gateway_reachable d0 t → registration_finish config other inner request t = (Ok v, t') →
  ∃ id pairing st verified t1 t2, v = VObject [("deviceId", VString id)]
    ∧ registration_challenged request t t1 pairing st
    ∧ verify_registration (gc_rp config) st request.(rf_credential)
        (passkey_binding (gc_policy config)) = Some verified
    ∧ registration_commit inner pairing verified (other 0%nat t1) = (Ok id, t2)
    ∧ current_registration pairing
        (ps_entries (gw_pairings (other 0%nat t1).1) !! rg_pairing_id pairing)
    ∧ (∃ checked added, in_pairings (finish_check pairing) (other 0%nat t1) = (Ok tt, checked)
         ∧ in_identity (register_verified pairing verified) (inner 0%nat checked) = (Ok id, added)
         ∧ registered pairing verified id (gw_identity (inner 0%nat checked).1) (inner 0%nat checked).2
             (gw_identity added.1) added.2
         ∧ gw_identity t2.1 = gw_identity (inner 1%nat added).1)
    ∧ (∃ p, ps_entries (gw_pairings t2.1) !! rg_pairing_id pairing = Some p ∧ p_state p = Registered)
    ∧ t'.1 = (other 1%nat t2).1.
Proof.
  intros Hr%gateway_reachable_inv Hrun.
  destruct (wp_run _ _ _ _ _ (registration_spec request t Hr) Hrun) as [_ Hok].
  destruct (Hok v eq_refl) as (id & t2 & -> & (pairing & st & verified & t1 & Hch & Hv & Hc & []) & Ht).
  exists id, pairing, st, verified, t1, t2. by split_and!.
Qed.

(** C2. Login, end to end.  A session is issued only when the response answered an
    open, unexpired login challenge, which the handler took ([t1]) so that it is open
    no more.  The assertion was verified with a credential of the named device,
    unlocked, in the identity as the handler found it when it got its lock
    ([other 0 t1]); the code's own [finish_assertion] ran from that state, and left
    the final one.  There the session of the cookie is that device's, for this host,
    issued at a time between the two, without any elevation, and keeps the digest of
    the binding token that is returned. *)
Theorem login_end_to_end request t sid binding id t' :
  gateway_reachable d0 t → login_finish config other request t = (Ok (LoggedIn sid binding id), t') →
  ∃ st t1 t2, login_challenged request t t1 st
    ∧ (∃ v, verified_for (gc_rp config) (AssertLogin st) request.(lf_credential) id View
              (gw_identity (other 0%nat t1).1) v)
    ∧ in_identity (finish_assertion (gc_rp config) (AssertLogin st) request.(lf_credential) None)
        (other 0%nat t1) = (Ok (LoggedIn sid binding id), t2)
    ∧ t'.1 = t2.1
    ∧ ∃ b now, binding = encode b ∧ len b = 32 ∧ len sid = 32
      ∧ world_time (other 0%nat t1).2 <= now <= world_time t'.2
      ∧ (gw_identity t'.1).(i_sessions) !! sid = Some (fresh_session id (rp_host (gc_rp config)) now b).
Proof.
  intros Hr%gateway_reachable_inv Hrun.
  destruct (wp_run _ _ _ _ _ (login_spec request t Hr) Hrun) as (_ & _ & Hok). by apply Hok.
Qed.

(** C4. Elevation, end to end.  A scope is granted only for the scope asked, and only
    when the response answered an open, unexpired challenge of this very session and
    scope, which the handler took ([t1]) so that it is open no more.  In the state the
    handler found when it got the identity's lock ([before], that is [other 0 t1]) the
    session was authorised, twice, for this host, and the assertion was verified with
    a credential of its device, unlocked, in that very table.  The write ran from that
    state and left [t2], where the elevation of the session ends at the answered time,
    within the device's grant, the policy's limits (the policy [before] had) and the
    session's life.  The final state is [t2] up to what the other tasks did since. *)
Theorem elevation_end_to_end ctx request t scope until t' :
  gateway_reachable d0 t → elevation_finish config other ctx request t = (Ok (scope, until), t') →
  scope = request.(ef_scope) ∧ ctx.(ctx_rp_id) = gc_rp_id config
  ∧ ∃ st ceremony t1 t2, elevation_challenged ctx request t t1 ceremony st
    ∧ let before := other 0%nat t1 in
      authorized config ctx View (elevation_write config ctx request (inr ceremony)) before = (Ok until, t2)
    ∧ (∃ first now i0 i1, world_time before.2 <= first <= now
         ∧ recognised (gc_rp_id config) ctx (gw_identity before.1) i0 first
         ∧ admitted (gc_rp_id config) ctx View i0 i1 now)
    ∧ (∃ v, verified_for (gc_rp config) (AssertElevation st) request.(ef_credential) ctx.(ctx_device_id)
              scope (gw_identity before.1) v)
    ∧ elevated ctx scope until (gw_identity t2.1) t2.2
    ∧ (gw_identity t2.1).(i_policy) = (gw_identity before.1).(i_policy)
    ∧ t'.1 = (other 1%nat t2).1.
Proof.
  intros Hr%gateway_reachable_inv Hrun.
  destruct (wp_run _ _ _ _ _ (elevation_spec ctx request t Hr) Hrun) as (_ & _ & Hok).
  destruct (Hok _ _ eq_refl) as (-> & st & ceremony & t1 & Hch & t2 & Hw & Hrec & Hv & Hel & Hp & Ht).
  split; [done|]. split; [by destruct Hrec as (? & ? & ? & ? & _ & _ & [])|].
  exists st, ceremony, t1, t2. by split_and!.
Qed.
End Props.

(** * A phone, from the QR code to an elevated session, computed

    The whole gateway in the simulated world; the theorems of [GatewayProps] are
    applied along the run. *)
Definition phone_config : GwConfig := mkGwConfig "host.ts.net" demo_rp demo_policy.
Definition nobody (_ : nat) (t : Gw * SimWorld) : Gw * SimWorld := t.
Lemma nobody_steps (n : nat) t : rtc gw_step t (nobody n t).
Proof. apply rtc_refl. Qed.
Lemma nobody_free (n : nat) t : rtc free_step t (nobody n t).
Proof. apply rtc_refl. Qed.

Definition phone_t0 : Gw * SimWorld :=
  (mkGw (pairings_new "host.ts.net" "me@example") demo_identity (ceremonies_new 8), demo_world).
Definition phone_create := in_pairings (pairings_command (PairingCreate 1 "tailscale" None)).
Definition phone_t1 := (phone_create phone_t0).2.
Definition phone_claim := in_pairings (pairings_claim demo_claim "Mozilla/5.0").
Definition phone_t2 := (phone_claim phone_t1).2.
Definition phone_approve := in_pairings (pairings_command (PairingApprove 1 demo_id)).
Definition phone_t3 := (phone_approve phone_t2).2.
Definition phone_poll := in_pairings (status_begin demo_status).
Definition phone_t4 := (phone_poll phone_t3).2.
Definition phone_answer := in_pairings (status_finish demo_status).
Definition phone_t5 := (phone_answer phone_t4).2.
Definition phone_options :=
  registration_options phone_config nobody (mkRegistrationOptions demo_id demo_ticket).
Definition phone_t6 := (phone_options phone_t5).2.
Definition phone_registration : RegistrationFinish := mkRegistrationFinish demo_id
  (VObject [("challenge", VNumber 9304595970494411110326649421962412032)]).
Definition phone_register := registration_finish phone_config nobody nobody phone_registration.
Definition phone_t7 := (phone_register phone_t6).2.
Definition phone_login_options := login_options phone_config nobody.
Definition phone_t8 := (phone_login_options phone_t7).2.
Definition phone_assertion (challenge : Z) : Value := VObject
  [("challenge", VNumber challenge); ("rawId", VString (encode (zeros 4)));
   ("response", VObject [("userHandle", VString demo_device_id)])].
Definition phone_login_answer : LoginFinish :=
  mkLoginFinish (phone_assertion 10633823966279326983230456482242756608).
Definition phone_login := login_finish phone_config nobody phone_login_answer.
Definition phone_t9 := (phone_login phone_t8).2.
Definition phone_session : string := sim_entropy 32 9.
Definition phone_ctx : AuthContext := mkAuthContext phone_session demo_device_id "host.ts.net".
Definition phone_elevation_options :=
  elevation_options phone_config phone_ctx (mkElevationOptions Control).
Definition phone_t10 := (phone_elevation_options phone_t9).2.
Definition phone_elevation_answer : ElevationFinish :=
  mkElevationFinish Control (phone_assertion 14621507953634074601941877663083790336).
Definition phone_elevate := elevation_finish phone_config nobody phone_ctx phone_elevation_answer.
Definition phone_headers : HeaderMap :=
  [("cookie", "__Host-yzc=" +:+ encode phone_session); ("x-yzc-binding", encode (sim_entropy 32 8))].

(** ** Every state of the run is reachable *)

Lemma phone_steps {E A} (m : M (Gw * SimWorld) E A) t :
  gateway_reachable (i_devices demo_identity) t → along gw_step m →
  gateway_reachable (i_devices demo_identity) (m t).2.
Proof. intros (t0 & Ht0 & Hs) Hm. exists t0. split; [exact Ht0|]. etrans; [exact Hs|apply Hm]. Qed.
Lemma phone_call {A} (m : M (Pairings * SimWorld) Failure A) t :
  gateway_reachable (i_devices demo_identity) t → (∀ t, pairing_call t (m t).2) →
  gateway_reachable (i_devices demo_identity) (in_pairings m t).2.
Proof. intros Hr Hm. apply phone_steps; [exact Hr|]. by apply galong_pairings. Qed.

Lemma phone_reachable0 : gateway_reachable (i_devices demo_identity) phone_t0.
Proof.
  exists phone_t0. split; [|apply rtc_refl].
  split; [by exists "host.ts.net", "me@example"|]. split; [exact demo_started|]. reflexivity.
Qed.
Lemma phone_reachable5 : gateway_reachable (i_devices demo_identity) phone_t5.
Proof.
  unfold phone_t5, phone_answer. apply phone_call; [|intros; apply call_status_finish].
  unfold phone_t4, phone_poll. apply phone_call; [|intros; apply call_status_begin].
  unfold phone_t3, phone_approve. apply phone_call; [|intros; apply call_command].
  unfold phone_t2, phone_claim. apply phone_call; [|intros; apply call_claim].
  unfold phone_t1, phone_create. apply phone_call; [|intros; apply call_command].
  exact phone_reachable0.
Qed.
Lemma phone_reachable6 : gateway_reachable (i_devices demo_identity) phone_t6.
Proof.
  unfold phone_t6, phone_options. apply phone_steps; [exact phone_reachable5|].
  exact (galong_registration_options phone_config nobody nobody_steps _).
Qed.
Lemma phone_reachable8 : gateway_reachable (i_devices demo_identity) phone_t8.
Proof.
  unfold phone_t8, phone_login_options. apply phone_steps; [|exact (galong_login_options phone_config nobody nobody_steps)].
  unfold phone_t7, phone_register. apply phone_steps; [exact phone_reachable6|].
  exact (galong_registration_finish phone_config nobody nobody nobody_steps nobody_free _).
Qed.
Lemma phone_reachable10 : gateway_reachable (i_devices demo_identity) phone_t10.
Proof.
  unfold phone_t10, phone_elevation_options. apply phone_steps; [|exact (galong_elevation_options phone_config _ _)].
  unfold phone_t9, phone_login. apply phone_steps; [exact phone_reachable8|].
  exact (galong_login_finish phone_config nobody nobody_steps _).
Qed.

(** ** The theorems along the run *)

Lemma gateway_invariant_witness :
  gateway_reachable (i_devices demo_identity) phone_t10
  ∧ gateway_reachable (i_devices demo_identity)
      (serve phone_config nobody nobody (ReqElevationFinish phone_headers phone_elevation_answer) phone_t10).2.
Proof.
  split; [exact phone_reachable10|].
  exact (proj1 (gateway_invariant (i_devices demo_identity) phone_config nobody nobody nobody_steps nobody_free
    (ReqElevationFinish phone_headers phone_elevation_answer) phone_t10 phone_reachable10)).
Defined.

Definition phone_device : Value := VObject [("deviceId", VString "BgAAAAAAAAAAAAAAAAAAAA")].
Lemma phone_register_run : phone_register phone_t6 = (Ok phone_device, (phone_register phone_t6).2).
Proof. apply run_eq. vm_compute. reflexivity. Qed.
Lemma registration_end_to_end_witness :
  phone_register phone_t6 = (Ok phone_device, (phone_register phone_t6).2)
  ∧ ∃ t1 pairing st, registration_challenged phone_registration phone_t6 t1 pairing st.
Proof.
  split; [exact phone_register_run|].
  destruct (registration_end_to_end (i_devices demo_identity) phone_config nobody nobody nobody_steps nobody_free
    phone_registration phone_t6 phone_device (phone_register phone_t6).2 phone_reachable6 phone_register_run)
    as (id & pairing & st & v & t1 & t2 & _ & Hch & _).
  exists t1, pairing, st. exact Hch.
Defined.

Definition phone_logged : AssertionResult :=
  LoggedIn phone_session (encode (sim_entropy 32 8)) demo_device_id.
Lemma phone_login_run : phone_login phone_t8 = (Ok phone_logged, phone_t9).
Proof. unfold phone_t9. apply run_eq. vm_compute. reflexivity. Qed.
Lemma login_end_to_end_witness :
  phone_login phone_t8 = (Ok phone_logged, phone_t9)
  ∧ ∃ t1 st, login_challenged phone_login_answer phone_t8 t1 st.
Proof.
  split; [exact phone_login_run|].
  destruct (login_end_to_end (i_devices demo_identity) phone_config nobody nobody_steps
    phone_login_answer phone_t8 phone_session (encode (sim_entropy 32 8)) demo_device_id phone_t9
    phone_reachable8 phone_login_run) as (st & t1 & t2 & Hch & _).
  exists t1, st. exact Hch.
Defined.

Lemma phone_elevate_run :
  phone_elevate phone_t10 = (Ok (Control, seconds 500), (phone_elevate phone_t10).2).
Proof. apply run_eq. vm_compute. reflexivity. Qed.
Lemma elevation_end_to_end_witness :
  phone_elevate phone_t10 = (Ok (Control, seconds 500), (phone_elevate phone_t10).2)
  ∧ ∃ t1 c st, elevation_challenged phone_ctx phone_elevation_answer phone_t10 t1 c st.
Proof.
  split; [exact phone_elevate_run|].
  destruct (elevation_end_to_end (i_devices demo_identity) phone_config nobody nobody_steps phone_ctx
    phone_elevation_answer phone_t10 Control (seconds 500) (phone_elevate phone_t10).2
    phone_reachable10 phone_elevate_run) as (_ & _ & st & c & t1 & t2 & Hch & _).
  exists t1, c, st. exact Hch.
Defined.
