(* ===== verification/WriteAudit.v ===== *)
(** * [audit.rs]: the audit of writes and the streams that are open

    A loosening write is refused when its audit cannot be queued ([admit],
    [reserve_announcement]); a tightening one is never refused, and what the queue
    does not take is kept in [Deferred], at most 64 bundles of it, or counted. *)

From stdpp Require Import base gmap strings list sorting pretty.
From Stdlib Require Import ZArith Lia.
From S2P Require Import Prelude Steps Rust Externals Clock Devices Admin Events World.

Local Open Scope Z_scope.

(** ** [Deferred] *)

Record Dropped := mkDropped {
  dr_lost : Z;
  dr_lost_tightening : Z;
  dr_rejected_omitted : Z;
  dr_since : Timestamp;
}.
Record Deferred := mkDeferred {
  df_pending : gmap Z (string * list Event);
  df_dropped : option Dropped;
}.
Definition deferred_default : Deferred := mkDeferred ∅ None.
Definition set_pending v d := mkDeferred v d.(df_dropped).
Definition set_dropped v d := mkDeferred d.(df_pending) v.

(** [Deferred::pending_for] *)
Definition pending_for (device : string) (d : Deferred) : bool :=
  existsb (λ e, bool_decide (e.2.1 = device)) (map_to_list d.(df_pending)).

(** [Deferred::counts]: the record, made if there is none; the update through the
    reference it returns is [f]. *)
Definition counts (now : Timestamp) (f : Dropped → Dropped) (d : Deferred) : Deferred :=
  set_dropped (Some (f (default (mkDropped 0 0 0 now) d.(df_dropped)))) d.

(** [Deferred::lost], [Deferred::lost_tightening], [Deferred::rejected_omitted] *)
Definition deferred_lost (count : Z) (now : Timestamp) : Deferred → Deferred :=
  counts now (λ r, mkDropped (saturating_add u64_max r.(dr_lost) count)
    r.(dr_lost_tightening) r.(dr_rejected_omitted) r.(dr_since)).
Definition lost_tightening (count : Z) (now : Timestamp) (d : Deferred) : Deferred :=
  counts now (λ r, mkDropped r.(dr_lost)
    (saturating_add u64_max r.(dr_lost_tightening) count) r.(dr_rejected_omitted) r.(dr_since))
    (deferred_lost count now d).
Definition rejected_omitted (now : Timestamp) : Deferred → Deferred :=
  counts now (λ r, mkDropped r.(dr_lost) r.(dr_lost_tightening)
    (saturating_add u64_max r.(dr_rejected_omitted) 1) r.(dr_since)).

(** [Deferred::retain] *)
Definition MAX_PENDING : nat := 64.
Definition retain (key : Z) (device : string) (events : list Event) (now : Timestamp)
    (d : Deferred) : Deferred :=
  if bool_decide (size d.(df_pending) < MAX_PENDING)%nat
     || bool_decide (is_Some (d.(df_pending) !! key))
  then
    let old := d.(df_pending) !! key in
    let d := set_pending (<[key := (device, events)]> d.(df_pending)) d in
    match old with
    | Some (_, old) => lost_tightening (Z.of_nat (length old)) now d
    | None => d
    end
  else lost_tightening (Z.of_nat (length events)) now d.

(** ** The shared state

    [Audits] is what the gateway and the process share: the deferred audit, the
    open streams, the counters of rejections (an [Arc] per peer; a handle holds a
    reference to one) and the next stream key. *)
Record Rejections := mkRejections { rj_count : Z; rj_next : option Timestamp }.
Definition rejections_default : Rejections := mkRejections 0 None.
Record LiveStream := mkLiveStream {
  ls_device : string;
  ls_peer_id : Z;
  ls_session : string;
  ls_target : option string;
  ls_scope : Scope;
}.
Record Audits := mkAudits {
  as_deferred : Deferred;
  as_live : gmap Z LiveStream;
  as_rejections : gmap nat Rejections;
  as_next : Z;
}.
Definition audits_new : Audits := mkAudits deferred_default ∅ ∅ 1.
Definition set_deferred v a := mkAudits v a.(as_live) a.(as_rejections) a.(as_next).
Definition set_live v a := mkAudits a.(as_deferred) v a.(as_rejections) a.(as_next).
Definition set_rejections v a := mkAudits a.(as_deferred) a.(as_live) v a.(as_next).
Definition set_next v a := mkAudits a.(as_deferred) a.(as_live) a.(as_rejections) v.

(** [live_list]: a [BTreeMap] iterates in the order of its keys. *)
Definition key_le (a b : Z * LiveStream) : Prop := a.1 <= b.1.
#[export] Instance key_le_dec a b : Decision (key_le a b) := Z.le_dec _ _.
Definition live_list (live : gmap Z LiveStream) : list StreamInfo :=
  (λ e, mkStreamInfo (pretty e.1) (ls_device e.2) (ls_peer_id e.2) (ls_session e.2)
          (ls_scope e.2) (ls_target e.2))
  <$> merge_sort key_le (map_to_list live).

(** A handle on one stream. *)
Record Audit := mkAudit {
  au_device : string;
  au_peer_id : Z;
  au_session : string;
  au_target : option string;
  au_scope : Scope;
  au_key : Z;
  au_rejections : nat;
}.

Section Audit.
Context `{World W}.
Abbreviation audit_m E A := (M (Audits * W) E A).

(** One critical section of the lock of the deferred audit. *)
Definition in_deferred {E A} (m : M (Deferred * W) E A) : audit_m E A :=
  zoom (λ '(a, w), (as_deferred a, w)) (λ '(d, w) '(a, _), (set_deferred d a, w)) m.

(** [while let Some(event) = events.first()]: what is left of the bundle. *)
Fixpoint emit_while {S E} (events : list Event) : M (S * W) E (list Event) :=
  match events with
  | [] => ret []
  | event :: rest =>
      let! ok := try_emit event in
      if ok then emit_while rest else ret events
  end.

(** [Deferred::flush] *)
Definition flush {E} : M (Deferred * W) E unit :=
  let! d := get in
  let! bundles := iterate d.(df_pending) in
  for_each bundles (λ '(key, (device, events)),
    let! events := emit_while events in
    update (λ d, set_pending (if bool_decide (events = []) then delete key d.(df_pending)
                              else <[key := (device, events)]> d.(df_pending)) d));;
  let! d := get in
  match d.(df_dropped) with
  | None => ret tt
  | Some r =>
      let! ok := try_emit (audit_dropped r.(dr_lost) r.(dr_lost_tightening)
                             r.(dr_rejected_omitted) r.(dr_since)) in
      when ok (update (set_dropped None))
  end.

(** An ordinary event that found the queue full is counted, never retried. *)
Definition count_lost {E} (now : Timestamp) : audit_m E unit :=
  in_deferred (update (deferred_lost 1 now)).

(** [git_read] *)
Definition git_read {E} (device : string) (peer_id : Z) (session workspace_id method : string)
    : audit_m E unit :=
  let! now := clock_read in
  let! ok := try_emit (audit device peer_id View "git.read" session (Some workspace_id)
                         (VObject [("method", VString method)]) now) in
  when (negb ok) (count_lost now).

(** [event_lost] *)
Definition event_lost {E} : audit_m E unit :=
  let! now := clock_read in
  count_lost now.

(** [Audit::new]: the key is unique in the process. *)
Definition audit_new {E} (device : string) (peer_id : Z) (scope : Scope) (session : string)
    (target : option string) (rejections : nat) : audit_m E Audit :=
  let! a := get in
  let! next := expect (checked_add u64_max a.(as_next) 1) in
  update (set_next next);;
  ret (mkAudit device peer_id session target scope a.(as_next) rejections).

(** [Audit::event] *)
Definition audit_event {S E} (u : Audit) (action : string) (summary : Value)
    : M (S * W) E Event :=
  let! now := clock_read in
  ret (audit u.(au_device) u.(au_peer_id) u.(au_scope) action u.(au_session) u.(au_target)
         summary now).

(** [Audit::admit] *)
Definition admit_write {S} (u : Audit) (action : string) (summary : Value) : M (S * W) string unit :=
  let! event := audit_event u action summary in
  let! ok := try_emit event in
  reject_if (negb ok) "audit-unavailable".

(** [Audit::state] *)
Definition stream_state (u : Audit) (open takeover : bool) : Event :=
  let seq := if open then 1 else 2 in
  if bool_decide (u.(au_scope) = Full)
  then full_state u.(au_device) u.(au_peer_id) (pretty u.(au_key)) seq u.(au_session) open
  else control_state u.(au_device) u.(au_peer_id) (pretty u.(au_key)) seq u.(au_session)
         (default "" u.(au_target)) takeover open.

(** The methods below take two locks in turn; [other] is what the rest of the
    gateway does in between. *)
Section Methods.
Context (other : Audits * W → Audits * W).
Definition meanwhile {E} : audit_m E unit := modify other.

(** [Audit::announce], into the slot reserved before *)
Definition announce {E} (u : Audit) (takeover : bool) : audit_m E unit :=
  update (λ a, set_live (<[u.(au_key) :=
    mkLiveStream u.(au_device) u.(au_peer_id) u.(au_session) u.(au_target) u.(au_scope)]>
    a.(as_live)) a);;
  meanwhile;;
  emit_reserved AnnouncementPool (stream_state u true takeover).

(** [Audit::reserve_announcement] *)
Definition reserve_announced (u : Audit) : audit_m string unit :=
  in_deferred (
    let! d := get in
    reject_if (pending_for u.(au_device) d) "audit-unavailable";;
    let! ok := try_reserve AnnouncementPool in
    reject_if (negb ok) "audit-unavailable").

(** The shape of [stalled], [cancelled] and [open_failed]. *)
Definition emit_or_count {E} (u : Audit) (action : string) (summary : Value) : audit_m E unit :=
  let! event := audit_event u action summary in
  let! ok := try_emit event in
  meanwhile;;
  when (negb ok) (
    in_deferred (
      let! now := clock_read in
      update (deferred_lost 1 now))).

(** [Audit::stalled], [Audit::cancelled], [Audit::open_failed] *)
Definition stalled {E} (u : Audit) (phase : string) : audit_m E unit :=
  emit_or_count u "herdr-io-stalled"
    (VObject [("phase", VString phase); ("reason", VString "stream-stalled")]).
Definition cancelled {E} (u : Audit) (input : bool) (outcome : string) : audit_m E unit :=
  emit_or_count u (if input then "input.cancelled" else "write.cancelled")
    (VObject [("outcome", VString outcome)]).
Definition open_failed {E} (u : Audit) (reason : string) : audit_m E unit :=
  emit_or_count u "open.failed" (VObject [("reason", VString reason)]).

(** The summary of [Audit::rejected], under the lock of the peer's counter. *)
Definition set_rejection (u : Audit) (r : Rejections) (a : Audits) : Audits :=
  set_rejections (<[u.(au_rejections) := r]> a.(as_rejections)) a.
Definition rejection_summary {E} (u : Audit) (now : Timestamp) : audit_m E unit :=
  let! a := get in
  let r := default rejections_default (a.(as_rejections) !! u.(au_rejections)) in
  let count := saturating_add u64_max r.(rj_count) 1 in
  if match r.(rj_next) with None => true | Some next => next <=? now end then
    let next := Some (after now (seconds 10)) in
    update (set_rejection u (mkRejections count next));;
    let! event := audit_event u "write.rejected" (VObject [("count", VNumber count)]) in
    let! ok := try_emit event in
    when ok (update (set_rejection u (mkRejections 0 next)))
  else update (set_rejection u (mkRejections count r.(rj_next))).

(** [Audit::rejected] *)
Definition rejected {E} (u : Audit) : audit_m E unit :=
  let! now := clock_read in
  in_deferred (update (rejected_omitted now));;
  meanwhile;;
  rejection_summary u now.

(** [Audit::tightened] *)
Definition tightened_action (u : Audit) (reason : string) : string :=
  if bool_decide (reason = "elevation-expired") then "expiry"
  else if bool_decide (reason = "session-invalid") then "revoke"
  else if bool_decide (u.(au_scope) = Full) then "full.close"
  else "terminal.release".
Definition tighten {E} (u : Audit) (events : list Event) : M (Deferred * W) E unit :=
  let! rest := emit_while events in
  when (negb (bool_decide (rest = []))) (
    let! now := clock_read in
    update (retain u.(au_key) u.(au_device) rest now)).
Definition tightened {E} (u : Audit) (reason : string) (announced : bool) : audit_m E unit :=
  let! event := audit_event u (tightened_action u reason) (VObject [("reason", VString reason)]) in
  when announced (update (λ a, set_live (delete u.(au_key) a.(as_live)) a));;
  meanwhile;;
  in_deferred (tighten u (event :: if announced then [stream_state u false false] else [])).
End Methods.
End Audit.
