(* ===== verification/AuditProps.v ===== *)
(** * What becomes of an audit event, and what the desktop can rely on

    [audit_step] is one critical section of [WriteAudit]; a run is labelled with the
    bundles of tightening events handed to [tightened].  [accounted] says where
    each of them is: in the queue, pending, or in a counter the desktop is told. *)
From stdpp Require Import base gmap strings list sorting pretty relations.
From Stdlib Require Import ZArith Lia.
From S2P Require Import Prelude Steps Rust Externals Crates Clock Devices Admin Events World.
From S2P Require Import WriteAudit.
Local Open Scope Z_scope.

(** ** Counting *)

Definition sum_lengths {A B} (f : A → list B) (l : list A) : Z :=
  foldr (λ x n, Z.of_nat (length (f x)) + n) 0 l.

Lemma sum_lengths_app {A B} (f : A → list B) l k :
  sum_lengths f (l ++ k) = sum_lengths f l + sum_lengths f k.
Proof. induction l as [|x l IH]; simpl; lia. Qed.
Lemma sum_lengths_nonneg {A B} (f : A → list B) l : 0 <= sum_lengths f l.
Proof. induction l as [|x l IH]; simpl; lia. Qed.
Lemma sum_lengths_le {A B} (f g : A → list B) l :
  (∀ x, x ∈ l → (length (f x) <= length (g x))%nat) → sum_lengths f l <= sum_lengths g l.
Proof.
  induction l as [|x l IH]; intros Hl; simpl; [lia|].
  pose proof (Hl x ltac:(left)). specialize (IH (λ y Hy, Hl y ltac:(by right))). lia.
Qed.
Lemma sum_lengths_ext {A B} (f g : A → list B) l :
  (∀ x, x ∈ l → f x = g x) → sum_lengths f l = sum_lengths g l.
Proof.
  induction l as [|x l IH]; intros Hl; simpl; [done|].
  rewrite (Hl x) by left. rewrite IH; [done|]. intros y Hy. apply Hl. by right.
Qed.

(** What the desktop is told of lost tightening events, and what is yet to tell. *)
Definition reported (e : Event) : Z :=
  match ev_body e with EvAuditDropped _ n _ _ => n | _ => 0 end.
Definition reports (log : list Event) : Z := foldr (λ e n, reported e + n) 0 log.
Definition unreported (d : Deferred) : Z :=
  match d.(df_dropped) with Some r => r.(dr_lost_tightening) | None => 0 end.
Definition drop_report (e : Event) : bool :=
  match ev_body e with EvAuditDropped _ _ _ _ => true | _ => false end.

Lemma reports_app l k : reports (l ++ k) = reports l + reports k.
Proof. induction l as [|e l IH]; simpl; lia. Qed.
Lemma reports_dropped a b c since : reports [audit_dropped a b c since] = b.
Proof. unfold reports, reported. simpl. lia. Qed.
Lemma reports_quiet l : Forall (λ e, drop_report e = false) l → reports l = 0.
Proof.
  induction 1 as [|e l He _ IH]; simpl; [done|]. rewrite IH. unfold reported, drop_report in *.
  by destruct (ev_body e).
Qed.

(** The events of the bundles, none of which is a report itself. *)
Definition bundle_event (e : Event) : Prop := drop_report e = false.

Section AuditSteps.
Context `{World W, !WorldLaws W}.

(** ** Critical sections *)

Inductive audit_step : list (Audit * list Event) → Audits * W → Audits * W → Prop :=
| aud_flush (E : Type) t : audit_step [] t (in_deferred (E := E) flush t).2
| aud_tighten (E : Type) u events t : events ≠ [] → Forall bundle_event events →
    audit_step [(u, events)] t (in_deferred (E := E) (tighten u events) t).2
| aud_lost (E : Type) now t : audit_step [] t (count_lost (E := E) now t).2
| aud_omitted (E : Type) now t : audit_step [] t (in_deferred (E := E) (update (rejected_omitted now)) t).2
| aud_reserve u t : audit_step [] t (reserve_announced u t).2
| aud_summary (E : Type) u now t : audit_step [] t (rejection_summary (E := E) u now t).2
| aud_live live a w : audit_step [] (a, w) (set_live live a, w)
| aud_new n a w : audit_step [] (a, w) (set_next n a, w)
(** anything else in the process: the queue, the clock, the writer *)
| aud_world a w w' l : world_log w' = world_log w ++ l → Forall bundle_event l →
    world_time w <= world_time w' → audit_step [] (a, w) (a, w').

Inductive audit_run : list (Audit * list Event) → Audits * W → Audits * W → Prop :=
| run_refl t : audit_run [] t t
| run_step l k t1 t2 t3 : audit_run l t1 t2 → audit_step k t2 t3 → audit_run (l ++ k) t1 t3.

Lemma audit_run_once l t t' : audit_step l t t' → audit_run l t t'.
Proof. intros Hs. apply (run_step [] l t t t' (run_refl t) Hs). Qed.
Lemma audit_run_trans l k t1 t2 t3 :
  audit_run l t1 t2 → audit_run k t2 t3 → audit_run (l ++ k) t1 t3.
Proof.
  intros H1 H2. revert H1. induction H2 as [|k k' t t' t'' _ IH Hs]; intros H1; [by rewrite app_nil_r|].
  rewrite app_assoc. eapply run_step; [by apply IH|exact Hs].
Qed.

(** ** The accounts *)

Definition sent_of (key : Z) (emitted : list (Z * Event)) : list Event :=
  (filter (λ x, x.1 = key) emitted).*2.
Definition tag (key : Z) (l : list Event) : list (Z * Event) := pair key <$> l.
Definition pending_of (key : Z) (d : Deferred) : list Event :=
  match d.(df_pending) !! key with Some (_, events) => events | None => [] end.

Record accounts (produced : list (Audit * list Event)) (emitted : list (Z * Event))
    (lost : Z → list Event) (d : Deferred) (log : list Event) : Prop := {
  ac_size : (size d.(df_pending) <= MAX_PENDING)%nat;
  ac_sent : emitted.*2 `sublist_of` log;
  ac_split u events : (u, events) ∈ produced →
    events = sent_of (au_key u) emitted ++ pending_of (au_key u) d ++ lost (au_key u);
  ac_device key device events : d.(df_pending) !! key = Some (device, events) →
    ∃ u events', (u, events') ∈ produced ∧ au_key u = key ∧ au_device u = device;
  ac_fresh x : x ∈ emitted → ∃ u events, (u, events) ∈ produced ∧ au_key u = x.1;
  ac_events u events : (u, events) ∈ produced → Forall bundle_event events;
  ac_lost : sum_lengths (λ b, lost (au_key b.1)) produced = reports log + unreported d;
  ac_reports : 0 <= reports log;
  ac_unreported : 0 <= unreported d;
}.

Lemma sent_of_app key emitted emitted' :
  sent_of key (emitted ++ emitted') = sent_of key emitted ++ sent_of key emitted'.
Proof. unfold sent_of. by rewrite filter_app, fmap_app. Qed.
Lemma sent_of_pair key key' l :
  sent_of key (tag key' l) = if decide (key = key') then l else [].
Proof.
  unfold sent_of, tag. induction l as [|e l IH]; [by case_decide|]. csimpl. rewrite filter_cons. simpl.
  case_decide; case_decide; simplify_eq; csimpl; [by f_equal|done].
Qed.
Lemma sent_of_none key emitted : (∀ x, x ∈ emitted → x.1 ≠ key) → sent_of key emitted = [].
Proof.
  unfold sent_of. induction emitted as [|x l IH]; intros Hx; [done|]. rewrite filter_cons_False.
  - apply IH. intros y Hy. apply Hx. by right.
  - apply Hx. by left.
Qed.
Lemma snd_pair key (l : list Event) : (tag key l).*2 = l.
Proof. unfold tag. induction l as [|e l IH]; [done|]. csimpl. by f_equal. Qed.

(** [emit_while] sends a prefix of the bundle, in order. *)
Lemma emit_while_spec {S E} (events : list Event) (s : S) (w : W) :
  wp (emit_while (E := E) events) (λ r t, ∃ sent rest w', r = Ok rest ∧ t = (s, w')
    ∧ events = sent ++ rest ∧ world_log w' = world_log w ++ sent
    ∧ world_time w' = world_time w) (s, w).
Proof.
  revert w. induction events as [|e events IH]; intros w; simpl.
  { apply wp_ret. exists [], [], w. by rewrite (app_nil_r (world_log w)). }
  apply wp_bind, wp_try_emit. intros ok w' Ht Hl. destruct ok.
  - eapply wp_mono; [apply (IH w')|]. intros r t (sent & rest & w2 & -> & -> & -> & Hl2 & Ht2).
    exists (e :: sent), rest, w2. do 3 (split; [done|]). split; [|lia].
    by rewrite Hl2, Hl, <-app_assoc.
  - apply wp_ret. exists [], (e :: events), w'. by rewrite Hl, app_nil_r.
Qed.

(** A bundle, or what was left of one, goes out up to [rest]. *)
Lemma accounts_sent produced emitted lost d log key device sent rest :
  accounts produced emitted lost d log →
  d.(df_pending) !! key = Some (device, sent ++ rest) →
  accounts produced (emitted ++ tag key sent) lost
    (set_pending (if bool_decide (rest = []) then delete key d.(df_pending)
                  else <[key := (device, rest)]> d.(df_pending)) d) (log ++ sent).
Proof.
  intros [Hs Hse Hsp Hd Hf He Hl Hr Hu] Hk.
  assert (Forall bundle_event sent) as Hsent.
  { destruct (Hd _ _ _ Hk) as (u & ev & Hin & <- & _). pose proof (He _ _ Hin) as Hev.
    rewrite (Hsp _ _ Hin) in Hev. unfold pending_of in Hev. rewrite Hk in Hev.
    by apply Forall_app in Hev as [_ [[? _]%Forall_app _]%Forall_app]. }
  assert (∀ key', pending_of key' d =
    (if decide (key' = key) then sent else []) ++
    pending_of key' (set_pending (if bool_decide (rest = []) then delete key d.(df_pending)
      else <[key := (device, rest)]> d.(df_pending)) d)) as Hpend.
  { intros key'. unfold pending_of. simpl. case_decide; simplify_eq.
    - rewrite Hk. case_bool_decide as Hrest; [by rewrite Hrest, lookup_delete_eq|].
      by rewrite lookup_insert_eq.
    - case_bool_decide; [by rewrite lookup_delete_ne|by rewrite lookup_insert_ne]. }
  constructor; simpl.
  - case_bool_decide; [etrans; [apply map_size_delete_le|done]|].
    by rewrite map_size_insert_Some by eauto.
  - rewrite fmap_app, snd_pair. by apply sublist_app.
  - intros u events Hin. rewrite (Hsp _ _ Hin), sent_of_app, sent_of_pair, <-!app_assoc. f_equal.
    rewrite (Hpend (au_key u)) at 1. by rewrite <-app_assoc.
  - intros key' device' events' Hlook. case_bool_decide.
    + apply lookup_delete_Some in Hlook as [_ Hlook]. by eapply Hd.
    + apply lookup_insert_Some in Hlook as [[-> [= <- <-]]|[_ Hlook]]; by eapply Hd.
  - intros x [Hx|Hx]%elem_of_app; [by apply Hf|].
    apply list_elem_of_fmap in Hx as (e & -> & _). simpl.
    destruct (Hd _ _ _ Hk) as (u & ev & Hin & ? & _). eauto.
  - done.
  - rewrite reports_app, (reports_quiet sent Hsent). unfold unreported in *. simpl. lia.
  - rewrite reports_app, (reports_quiet sent Hsent). lia.
  - done.
Qed.

(** The desktop's log grows by events that are no reports. *)
Lemma accounts_log produced emitted lost d log l :
  accounts produced emitted lost d log → Forall bundle_event l →
  accounts produced emitted lost d (log ++ l).
Proof.
  intros [Hs Hse Hsp Hd Hf He Hl Hr Hu] Hq. constructor; try done.
  - by apply sublist_inserts_r.
  - rewrite reports_app, (reports_quiet l Hq). lia.
  - rewrite reports_app, (reports_quiet l Hq). lia.
Qed.

(** Only the counters move, and not the one of tightening events. *)
Lemma accounts_counts produced emitted lost d d' log :
  accounts produced emitted lost d log → df_pending d' = df_pending d → unreported d' = unreported d →
  accounts produced emitted lost d' log.
Proof.
  intros [Hs Hse Hsp Hd Hf He Hl Hr Hu] Hp Hn. constructor; try done; rewrite ?Hp, ?Hn; try done.
  intros u events Hin. unfold pending_of. rewrite Hp. by apply Hsp.
Qed.

(** ** Every critical section keeps the accounts *)

Definition accounted (produced : list (Audit * list Event)) (d : Deferred) (w : W) : Prop :=
  ∃ emitted lost, accounts produced emitted lost d (world_log w).

Definition flush_one {E} (b : Z * (string * list Event)) : M (Deferred * W) E unit :=
  let '(key, (device, events)) := b in
  let! events := emit_while events in
  update (λ d, set_pending (if bool_decide (events = []) then delete key d.(df_pending)
                            else <[key := (device, events)]> d.(df_pending)) d).

Lemma flush_bundles {E} produced lost (bundles : list (Z * (string * list Event))) :
  ∀ emitted d w, NoDup bundles.*1 → (∀ b, b ∈ bundles → d.(df_pending) !! b.1 = Some b.2) →
  accounts produced emitted lost d (world_log w) →
  wp (for_each (E := E) bundles flush_one) (λ r t, r = Ok tt ∧ world_time t.2 = world_time w
    ∧ ∃ emitted, accounts produced emitted lost t.1 (world_log t.2)) (d, w).
Proof.
  induction bundles as [|[key [device events]] bundles IH]; intros emitted d w Hnd Hin Ha.
  { apply wp_ret. eauto. }
  csimpl in Hnd. apply NoDup_cons in Hnd as [Hkey Hnd]. cbn [for_each].
  apply wp_bind, wp_bind. eapply wp_mono; [apply emit_while_spec|].
  intros r t (sent & rest & w' & -> & -> & -> & Hl & Ht). apply wp_update.
  pose proof (Hin _ ltac:(left)) as Hk. simpl in Hk.
  pose proof (accounts_sent _ _ _ _ _ _ _ _ _ Ha Hk) as Ha'. rewrite <-Hl in Ha'.
  eapply wp_mono; [eapply IH; [exact Hnd| |exact Ha']|].
  - intros b Hb. simpl. assert (b.1 ≠ key) by (intros <-; apply Hkey, list_elem_of_fmap; eauto).
    case_bool_decide; rewrite ?lookup_delete_ne, ?lookup_insert_ne by done; apply Hin; by right.
  - intros r t (-> & Ht' & Hex). split_and!; [done|by rewrite Ht'|done].
Qed.

Lemma flush_spec {E} produced d w :
  accounted produced d w →
  wp (flush (E := E)) (λ r t, r = Ok tt ∧ world_time t.2 = world_time w
    ∧ accounted produced t.1 t.2) (d, w).
Proof.
  intros (emitted & lost & Ha). unfold flush. apply wp_bind, wp_get, wp_bind, wp_iterate.
  intros bundles w1 Hperm Ht1 Hl1. rewrite <-Hl1 in Ha. apply wp_bind.
  eapply wp_mono; [apply (flush_bundles produced lost bundles emitted)|].
  { rewrite Hperm. apply NoDup_fst_map_to_list. }
  { intros [k v] Hb. rewrite Hperm in Hb. by apply elem_of_map_to_list in Hb. }
  { exact Ha. }
  intros r [d2 w2] (-> & Ht2 & emitted' & Ha'). simpl in *.
  apply wp_bind, wp_get. destruct (df_dropped d2) as [rec|] eqn:Hrec.
  2: { apply wp_ret. split_and!; [done|simpl; congruence|by exists emitted', lost]. }
  apply wp_bind, wp_try_emit. intros ok w3 Ht3 Hl3. apply wp_when. destruct ok.
  - apply wp_update. split_and!; [done|simpl; congruence|]. exists emitted', lost. simpl. rewrite Hl3.
    destruct Ha' as [Hs Hse Hsp Hd Hf He Hlo Hr Hu]. unfold unreported in *. rewrite Hrec in *.
    constructor; try done; simpl.
    + by apply sublist_inserts_r.
    + rewrite reports_app, reports_dropped. change (unreported (set_dropped None d2)) with 0. lia.
    + rewrite reports_app, reports_dropped. lia.
  - rewrite app_nil_r in Hl3. split_and!; [done|simpl; congruence|]. exists emitted', lost. simpl; by rewrite Hl3.
Qed.

(** What [retain] does with a bundle whose key is new. *)
Lemma retain_fresh key device events now d : d.(df_pending) !! key = None →
  retain key device events now d =
    if bool_decide (size d.(df_pending) < MAX_PENDING)%nat
    then set_pending (<[key := (device, events)]> d.(df_pending)) d
    else lost_tightening (Z.of_nat (length events)) now d.
Proof.
  intros Hk. unfold retain. rewrite Hk. rewrite (bool_decide_eq_false_2 (is_Some None)), orb_false_r.
  - by case_bool_decide.
  - by intros [? ?].
Qed.

Lemma unreported_lost n now d : 0 <= n → 0 <= unreported d → unreported d + n <= u64_max →
  unreported (lost_tightening n now d) = unreported d + n.
Proof.
  intros Hn Hu Hmax. unfold lost_tightening, deferred_lost, counts, unreported in *.
  destruct (df_dropped d); simpl in *; apply saturating_add_small; lia.
Qed.

Definition NoDup_keys (produced : list (Audit * list Event)) : Prop :=
  NoDup ((λ b, au_key b.1) <$> produced).

Lemma keys_fresh produced u events : NoDup_keys (produced ++ [(u, events)]) →
  ∀ u' events', (u', events') ∈ produced → au_key u' ≠ au_key u.
Proof.
  unfold NoDup_keys. rewrite fmap_app, NoDup_app. intros (_ & Hd & _) u' events' Hin Heq.
  apply (Hd (au_key u')); [apply list_elem_of_fmap; by exists (u', events')|].
  rewrite Heq. by left.
Qed.

(** A new bundle: [sent] goes out, the rest is kept as [keep] or lost as [gone]. *)
Lemma accounts_produced produced emitted lost d log u sent keep gone d' :
  accounts produced emitted lost d log → NoDup_keys (produced ++ [(u, sent ++ keep ++ gone)]) →
  Forall bundle_event (sent ++ keep ++ gone) →
  (size d'.(df_pending) <= MAX_PENDING)%nat →
  df_pending d' = (if bool_decide (keep = []) then d.(df_pending)
                   else <[au_key u := (au_device u, keep)]> d.(df_pending)) →
  unreported d' = unreported d + Z.of_nat (length gone) →
  accounts (produced ++ [(u, sent ++ keep ++ gone)]) (emitted ++ tag (au_key u) sent)
    (λ k, if decide (k = au_key u) then gone else lost k) d' (log ++ sent).
Proof.
  intros [Hs Hse Hsp Hd Hf He Hl Hr Hu] Hnd Hev Hsize Hp Hn.
  pose proof (keys_fresh _ _ _ Hnd) as Hfresh.
  assert (reports (log ++ sent) = reports log) as Hrep.
  { rewrite reports_app, (reports_quiet sent); [lia|]. by apply Forall_app in Hev as [? _]. }
  assert (d.(df_pending) !! au_key u = None) as Hnone.
  { destruct (_ !! au_key u) as [[dev ev]|] eqn:Hk; [|done].
    destruct (Hd _ _ _ Hk) as (u' & ev' & Hin & Heq & _). by apply Hfresh in Hin. }
  assert (∀ k, pending_of k d' = if decide (k = au_key u) then keep else pending_of k d) as Hpend.
  { intros k. unfold pending_of. rewrite Hp. case_bool_decide as Hk; case_decide as Heq; subst;
      [by rewrite Hnone|done|by rewrite lookup_insert_eq|by rewrite lookup_insert_ne]. }
  constructor; try done.
  - rewrite fmap_app, snd_pair. by apply sublist_app.
  - intros u' events [Hin|Hin]%elem_of_app.
    + pose proof (Hfresh _ _ Hin) as Hne.
      rewrite sent_of_app, sent_of_pair, Hpend, !decide_False, app_nil_r by done. by apply Hsp.
    + apply list_elem_of_singleton in Hin as [= -> ->].
      rewrite sent_of_app, sent_of_pair, Hpend, !decide_True by done.
      rewrite sent_of_none; [done|]. intros x Hx Heq. destruct (Hf _ Hx) as (u' & ev & Hin & Hk).
      apply Hfresh in Hin. congruence.
  - intros k device events Hk. rewrite Hp in Hk. case_bool_decide.
    + destruct (Hd _ _ _ Hk) as (u' & ev & Hin & Hrest). exists u', ev.
      split; [apply elem_of_app; by left|done].
    + apply lookup_insert_Some in Hk as [[<- [= <- <-]]|[_ Hk]].
      * eexists u, _. split; [apply elem_of_app; right; by left|done].
      * destruct (Hd _ _ _ Hk) as (u' & ev & Hin & Hrest). exists u', ev.
        split; [apply elem_of_app; by left|done].
  - intros x [Hx|Hx]%elem_of_app.
    + destruct (Hf _ Hx) as (u' & ev & Hin & Hk). exists u', ev. split; [apply elem_of_app; by left|done].
    + apply list_elem_of_fmap in Hx as (e & -> & _). eexists u, _.
      split; [apply elem_of_app; right; by left|done].
  - intros u' events [Hin|Hin]%elem_of_app; [by eapply He|].
    by apply list_elem_of_singleton in Hin as [= -> ->].
  - rewrite sum_lengths_app, Hrep, Hn. simpl. rewrite decide_True by done.
    rewrite (sum_lengths_ext _ (λ b, lost (au_key b.1))); [lia|].
    intros [u' ev] Hin. simpl. rewrite decide_False; [done|]. by apply Hfresh in Hin.
  - by rewrite Hrep.
  - lia.
Qed.

Lemma accounts_bound produced emitted lost d log :
  accounts produced emitted lost d log → unreported d <= sum_lengths snd produced.
Proof.
  intros [Hs Hse Hsp Hd Hf He Hl Hr Hu].
  enough (sum_lengths (λ b, lost (au_key b.1)) produced <= sum_lengths snd produced) by lia.
  apply sum_lengths_le. intros [u events] Hin. simpl. rewrite (Hsp _ _ Hin), !length_app. lia.
Qed.

Lemma tighten_spec {E} produced u events d w :
  accounted produced d w → NoDup_keys (produced ++ [(u, events)]) → Forall bundle_event events →
  sum_lengths snd (produced ++ [(u, events)]) <= u64_max →
  wp (tighten (E := E) u events) (λ r t, r = Ok tt ∧ accounted (produced ++ [(u, events)]) t.1 t.2)
    (d, w).
Proof.
  intros (emitted & lost & Ha) Hnd Hev Hmax. unfold tighten. apply wp_bind.
  eapply wp_mono; [apply emit_while_spec|]. intros r t (sent & rest & w1 & -> & -> & -> & Hl1 & _).
  pose proof (accounts_bound _ _ _ _ _ Ha) as Hbound.
  rewrite sum_lengths_app in Hmax. simpl in Hmax. rewrite length_app in Hmax.
  apply wp_when. case_bool_decide as Hrest; simpl.
  { subst rest. split; [done|]. do 2 eexists. simpl. rewrite Hl1.
    apply (accounts_produced _ _ _ _ _ u sent [] [] d Ha); [done..|apply Ha|done|simpl; lia]. }
  apply wp_bind, wp_clock_read. intros t w2 _ _ Hl2. apply wp_update. split; [done|].
  assert (d.(df_pending) !! au_key u = None) as Hnone.
  { destruct (_ !! au_key u) as [[dev ev]|] eqn:Hk; [|done].
    destruct (ac_device _ _ _ _ _ Ha _ _ _ Hk) as (u' & ev' & Hin & Heq & _).
    by eapply keys_fresh in Hin; [|exact Hnd]. }
  rewrite (retain_fresh _ _ _ _ _ Hnone). case_bool_decide as Hsize;
    do 2 eexists; simpl; rewrite Hl2, Hl1.
  - assert (rest = rest ++ []) as Hnil by by rewrite app_nil_r. rewrite Hnil in Hnd, Hev |- * at 1.
    refine (accounts_produced _ _ _ _ _ u sent rest [] _ Ha Hnd Hev _ _ _); simpl.
    + rewrite map_size_insert_None by done. lia.
    + by rewrite bool_decide_eq_false_2.
    + unfold unreported. simpl. lia.
  - refine (accounts_produced _ _ _ _ _ u sent [] rest _ Ha Hnd Hev _ _ _); [apply Ha|done|].
    apply unreported_lost; [lia|apply Ha|lia].
Qed.

(** The counters other than that of tightening events. *)
Lemma unreported_counts now f d :
  (∀ r, dr_lost_tightening (f r) = dr_lost_tightening r) → unreported (counts now f d) = unreported d.
Proof. intros Hf. unfold unreported, counts. simpl. rewrite Hf. by destruct (df_dropped d). Qed.

Lemma accounted_counts produced now f d w :
  (∀ r, dr_lost_tightening (f r) = dr_lost_tightening r) →
  accounted produced d w → accounted produced (counts now f d) w.
Proof.
  intros Hf (emitted & lost & Ha). exists emitted, lost. eapply accounts_counts; [exact Ha|done|].
  by apply unreported_counts.
Qed.

Lemma accounted_log produced d w w' l :
  accounted produced d w → world_log w' = world_log w ++ l → Forall bundle_event l →
  accounted produced d w'.
Proof.
  intros (emitted & lost & Ha) Hw Hl. exists emitted, lost. rewrite Hw. by apply accounts_log.
Qed.
Lemma accounted_same produced d w w' :
  accounted produced d w → world_log w' = world_log w → accounted produced d w'.
Proof.
  intros Ha Hl. eapply accounted_log; [exact Ha|by rewrite app_nil_r|constructor].
Qed.

Lemma summary_world {E} u now a w :
  wp (rejection_summary (E := E) u now) (λ _ t, as_deferred t.1 = as_deferred a
    ∧ ∃ l, world_log t.2 = world_log w ++ l ∧ Forall bundle_event l) (a, w).
Proof.
  unfold rejection_summary. apply wp_bind, wp_get. cbn zeta.
  match goal with |- context [if ?b then _ else _] => destruct b end; cycle 1.
  { apply wp_update. split; [done|]. exists []. by rewrite app_nil_r. }
  apply wp_bind, wp_update, wp_bind, wp_bind, wp_clock_read. intros t w1 _ _ Hl1. apply wp_ret.
  apply wp_bind, wp_try_emit. intros ok w2 _ Hl2. apply wp_when.
  destruct ok; [apply wp_update|]; (split; [done|]); simpl; rewrite Hl2, Hl1;
    eexists; (split; [done|]); repeat constructor.
Qed.

Lemma deferred_wp {E A} (m : M (Deferred * W) E A) (Q : Deferred → W → Prop) t :
  wp m (λ _ t', Q t'.1 t'.2) (as_deferred t.1, t.2) →
  Q (as_deferred (in_deferred m t).2.1) (in_deferred m t).2.2.
Proof.
  destruct t as [a w]. unfold wp, in_deferred, zoom. simpl. by destruct (m (as_deferred a, w)) as [r [d w']].
Qed.

Lemma audit_step_accounted produced l t t' :
  accounted produced (as_deferred t.1) t.2 → audit_step l t t' →
  NoDup_keys (produced ++ l) → sum_lengths snd (produced ++ l) <= u64_max →
  accounted (produced ++ l) (as_deferred t'.1) t'.2.
Proof.
  intros Ha Hs Hnd Hmax.
  destruct Hs as [E t|E u events t Hne Hev|E now t|E now t|u t|E u now t|live a w|n a w|a w w' l Hlog Hq Ht];
    rewrite ?app_nil_r.
  - apply (deferred_wp _ (accounted produced)). eapply wp_mono; [by apply flush_spec|]. by intros r t' (_ & _ & ?).
  - apply (deferred_wp _ (accounted (produced ++ [(u, events)]))).
    eapply wp_mono; [by apply tighten_spec|]. by intros r t' (_ & ?).
  - apply (deferred_wp _ (accounted produced)). apply wp_update. by apply accounted_counts.
  - apply (deferred_wp _ (accounted produced)). apply wp_update. by apply accounted_counts.
  - apply (deferred_wp _ (accounted produced)). apply wp_bind, wp_get, wp_bind, wp_reject_if.
    destruct (pending_for _ _); [done|]. apply wp_bind, wp_try_reserve. intros ok w' _ Hl.
    apply wp_reject_if. destruct ok; simpl; by eapply accounted_same.
  - destruct t as [a w]. destruct (summary_world (E := E) u now a w) as (Hd & l & Hl & Hq).
    rewrite Hd. by eapply accounted_log.
  - done.
  - done.
  - by eapply accounted_log.
Qed.

Lemma sum_lengths_prefix (l k : list (Audit * list Event)) : sum_lengths snd l <= sum_lengths snd (l ++ k).
Proof. rewrite sum_lengths_app. pose proof (sum_lengths_nonneg snd k). lia. Qed.

Lemma NoDup_keys_prefix l k : NoDup_keys (l ++ k) → NoDup_keys l.
Proof. unfold NoDup_keys. rewrite fmap_app, NoDup_app. by intros (? & _). Qed.

Lemma audit_run_accounted w0 produced t :
  reports (world_log w0) = 0 → audit_run produced (audits_new, w0) t → NoDup_keys produced →
  sum_lengths snd produced <= u64_max → accounted produced (as_deferred t.1) t.2.
Proof.
  intros H0 Hrun. remember (audits_new, w0) as t0 eqn:Ht0. induction Hrun as [t|l k t1 t2 t3 _ IH Hs];
    subst; intros Hnd Hmax.
  - exists [], (λ _, []). constructor; simpl;
      [rewrite map_size_empty; unfold MAX_PENDING; lia|apply sublist_nil_l|set_solver|
       intros; by simplify_map_eq|set_solver|set_solver|by rewrite H0|lia|done].
  - eapply audit_step_accounted; [|exact Hs|done|done]. apply IH; [done|by eapply NoDup_keys_prefix|].
    etrans; [apply sum_lengths_prefix|exact Hmax].
Qed.

(** ** The methods are runs of critical sections *)

Definition any_step (t t' : Audits * W) : Prop := ∃ l, audit_step l t t'.

Lemma any_steps_run t t' : rtc any_step t t' ↔ ∃ l, audit_run l t t'.
Proof.
  split.
  - intros Hs. induction Hs as [t|t1 t2 t3 [l Hl] _ [k Hk]]; [exists []; constructor|].
    exists (l ++ k). eapply audit_run_trans; [by apply audit_run_once|exact Hk].
  - intros [l Hl]. induction Hl as [t|l k t1 t2 t3 _ IH Hs]; [done|].
    eapply rtc_r; [exact IH|by exists k].
Qed.

Abbreviation aalong := (along any_step).

Lemma aalong_world {E A} (m : M (Audits * W) E A) :
  (∀ a w, wp m (λ _ t, t.1 = a ∧ world_time w <= world_time t.2
    ∧ ∃ l, world_log t.2 = world_log w ++ l ∧ Forall bundle_event l) (a, w)) → aalong m.
Proof.
  intros Hm. apply along_once. intros [a w]. destruct (Hm a w) as (Ha & Ht & l & Hl & Hq).
  exists []. destruct (m (a, w)) as [r [a' w']]. simpl in *. subst. by eapply aud_world.
Qed.
Lemma aalong_clock {E} : aalong (clock_read : M (Audits * W) E Timestamp).
Proof.
  apply aalong_world. intros a w. apply wp_clock_read. intros t w' Ht <- Hl.
  split_and!; [done|done|]. exists []. by rewrite app_nil_r.
Qed.
Lemma aalong_emit {E} e : bundle_event e → aalong (try_emit e : M (Audits * W) E bool).
Proof.
  intros He. apply aalong_world. intros a w. apply wp_try_emit. intros ok w' Ht Hl.
  split_and!; [done|simpl; lia|]. eexists. split; [exact Hl|]. by destruct ok; repeat constructor.
Qed.
Lemma aalong_emit_reserved {E} p e : bundle_event e → aalong (emit_reserved p e : M (Audits * W) E unit).
Proof.
  intros He. apply aalong_world. intros a w. apply wp_emit_reserved. intros w' Ht Hl.
  split_and!; [done|simpl; lia|]. eexists. split; [exact Hl|]. by repeat constructor.
Qed.
Lemma aalong_lost {E} now : aalong (count_lost now : M (Audits * W) E unit).
Proof. apply along_once. intros t. exists []. apply (aud_lost _ now t). Qed.
Lemma aalong_omitted {E} now : aalong (in_deferred (update (rejected_omitted now)) : M (Audits * W) E unit).
Proof. apply along_once. intros t. exists []. apply (aud_omitted _ now t). Qed.
Lemma aalong_live {E} f : aalong (update (λ a, set_live (f (as_live a)) a) : M (Audits * W) E unit).
Proof. apply along_once. intros [a w]. exists []. apply (aud_live (f (as_live a))). Qed.
Lemma aalong_get {E} : aalong (get : M (Audits * W) E Audits).
Proof. by apply along_still. Qed.
Lemma aalong_event {E A} u action summary (k : Event → M (Audits * W) E A) :
  (∀ event, bundle_event event → aalong (k event)) → aalong (bind (audit_event u action summary) k).
Proof.
  intros Hk t. pose proof (aalong_clock (E := E) t) as Hc. unfold audit_event, bind.
  destruct (clock_read t) as [[at_|e|] t']; [|done..]. etrans; [exact Hc|by apply Hk].
Qed.

(** A counter that is moved at the time the clock shows under the lock. *)
Lemma aalong_count {E} :
  aalong (in_deferred (let! now := clock_read in update (deferred_lost 1 now))
          : M (Audits * W) E unit).
Proof.
  intros [a w]. unfold in_deferred, zoom, bind, clock_read, lift. simpl.
  pose proof (now_monotone w). pose proof (now_time w). pose proof (now_log w).
  destruct (world_now w) as [now w']. simpl in *. eapply (rtc_l _ _ (a, w')).
  - exists []. apply (aud_world a w w' []); [by rewrite app_nil_r|constructor|lia].
  - apply rtc_once. exists []. apply (aud_lost E now (a, w')).
Qed.
Lemma aalong_summary {E} u now : aalong (rejection_summary u now : M (Audits * W) E unit).
Proof. apply along_once. intros t. exists []. apply (aud_summary _ u now t). Qed.
Lemma aalong_tighten {E} u events : events ≠ [] → Forall bundle_event events →
  aalong (in_deferred (tighten u events) : M (Audits * W) E unit).
Proof. intros Hne He. apply along_once. intros t. exists [(u, events)]. by apply aud_tighten. Qed.
Lemma aalong_flush {E} : aalong (in_deferred flush : M (Audits * W) E unit).
Proof. apply along_once. intros t. exists []. apply (aud_flush _ t). Qed.
Lemma aalong_reserve u : aalong (reserve_announced u).
Proof. apply along_once. intros t. exists []. apply (aud_reserve u t). Qed.
Lemma bundle_state u open takeover : bundle_event (stream_state u open takeover).
Proof. unfold stream_state. by destruct (bool_decide (au_scope u = Full)). Qed.
Lemma bundle_audit device peer scope action session target summary at_ :
  bundle_event (audit device peer scope action session target summary at_).
Proof. done. Qed.
Hint Resolve aalong_clock aalong_emit aalong_emit_reserved aalong_lost aalong_omitted aalong_live
  aalong_get aalong_count aalong_summary aalong_flush aalong_reserve bundle_state bundle_audit
  : stepping.

#[local] Hint Extern 0 (aalong (bind (audit_event _ _ _) _)) => apply aalong_event; intros ? ? : stepping.

Lemma aalong_new {E} device peer scope session target rejections :
  aalong (audit_new (E := E) device peer scope session target rejections).
Proof.
  intros [a w]. unfold audit_new, bind, get, gets, expect. simpl.
  destruct (checked_add _ _ _) as [n|]; [|done]. apply rtc_once. exists []. apply (aud_new n a w).
Qed.
Lemma aalong_read {E} device peer session workspace method :
  aalong (git_read (E := E) device peer session workspace method).
Proof. unfold git_read. along_auto. Qed.
Lemma aalong_event_lost {E} : aalong (event_lost (E := E)).
Proof. unfold event_lost. along_auto. Qed.
Lemma aalong_admit u action summary : aalong (admit_write (S := Audits) u action summary).
Proof. unfold admit_write. along_auto. Qed.

Section Others.
Context (other : Audits * W → Audits * W) (others : ∀ t, rtc any_step t (other t)).

Lemma aalong_meanwhile {E} : aalong (meanwhile other : M (Audits * W) E unit).
Proof. by apply along_modify. Qed.
Hint Resolve aalong_meanwhile : stepping.

Lemma aalong_announce {E} u takeover : aalong (announce (E := E) other u takeover).
Proof. unfold announce. along_auto. Qed.
Lemma aalong_emit_or_count {E} u action summary :
  aalong (emit_or_count (E := E) other u action summary).
Proof. unfold emit_or_count. along_auto. Qed.
Lemma aalong_rejected {E} u : aalong (rejected (E := E) other u).
Proof. unfold rejected. along_auto. Qed.

(** The bundle of [tightened], stamped [at_]. *)
Definition tightening (u : Audit) (reason : string) (announced : bool) (at_ : Timestamp) : list Event :=
  audit u.(au_device) u.(au_peer_id) u.(au_scope) (tightened_action u reason) u.(au_session)
    u.(au_target) (VObject [("reason", VString reason)]) at_
  :: if announced then [stream_state u false false] else [].

Lemma bundle_tightening u reason announced at_ : Forall bundle_event (tightening u reason announced at_).
Proof. unfold tightening. destruct announced; repeat constructor; apply bundle_state. Qed.

(** A tightening is the run of others, then its own labelled section. *)
Lemma tightened_run {E} u reason announced t :
  ∃ at_ l, audit_run (l ++ [(u, tightening u reason announced at_)]) t
    (tightened (E := E) other u reason announced t).2.
Proof.
  destruct t as [a w]. unfold tightened, audit_event, bind at 2, clock_read, lift. simpl.
  pose proof (now_monotone w) as Ht. pose proof (now_time w) as Hw. pose proof (now_log w) as Hl.
  unfold bind at 1. destruct (world_now w) as [at_ w1]. simpl in *. exists at_.
  assert (rtc any_step (a, w) (if announced then set_live (delete (au_key u) (as_live a)) a else a, w1))
    as Hpre.
  { eapply (rtc_l _ _ (a, w1)).
    - exists []. apply (aud_world a w w1 []); [by rewrite app_nil_r|constructor|lia].
    - destruct announced; [|done]. apply rtc_once. exists []. apply aud_live. }
  set (a1 := if announced then _ else a) in *.
  assert (((when announced (update (λ a, set_live (delete (au_key u) (as_live a)) a))
    : M (Audits * W) E unit) (a, w1)) = (Ok tt, (a1, w1))) as Hwhen by by destruct announced.
  unfold bind at 1. rewrite Hwhen. unfold bind, meanwhile, modify. cbn beta iota zeta.
  assert (rtc any_step (a, w) (other (a1, w1))) as [l Hrun]%any_steps_run
    by (etrans; [exact Hpre|apply others]).
  exists l.
  eapply audit_run_trans; [exact Hrun|]. apply audit_run_once.
  apply (aud_tighten _ u (tightening u reason announced at_)); [done|apply bundle_tightening].
Qed.
End Others.
End AuditSteps.

(** * The audit: what the desktop can rely on *)
Section AuditProps.
Context `{World W, !WorldLaws W}.

(** C34. No tightening event is lost in silence.  In every run of the gateway's
    audit, each bundle handed to [tightened] (a revocation, an expiry, a closed
    stream) splits in order into what the queue accepted, what is pending and
    what was given up; the accepted parts are in the desktop's log in order, at
    most 64 bundles are pending, and the number of events given up is exactly
    what [audit.dropped] reported plus what it has yet to report. *)
Theorem tightening_accounted w0 produced t :
  reports (world_log w0) = 0 → audit_run produced (audits_new, w0) t → NoDup_keys produced →
  sum_lengths snd produced <= u64_max →
  ∃ emitted lost,
    emitted.*2 `sublist_of` world_log t.2
    ∧ (∀ u events, (u, events) ∈ produced → events = sent_of (au_key u) emitted
        ++ pending_of (au_key u) (as_deferred t.1) ++ lost (au_key u))
    ∧ (size (df_pending (as_deferred t.1)) <= MAX_PENDING)%nat
    ∧ sum_lengths (λ b, lost (au_key b.1)) produced
      = reports (world_log t.2) + unreported (as_deferred t.1).
Proof.
  intros H0 Hrun Hnd Hmax.
  destruct (audit_run_accounted _ _ _ H0 Hrun Hnd Hmax) as (emitted & lost & []). by exists emitted, lost.
Qed.

(** ** Announcements *)

Lemma pending_for_false device d key events :
  pending_for device d = false → df_pending d !! key = Some (device, events) → False.
Proof.
  intros Hp Hk. unfold pending_for in Hp. apply not_true_iff_false in Hp. apply Hp.
  apply existsb_exists. exists (key, (device, events)). split.
  - apply list_elem_of_In. by apply elem_of_map_to_list.
  - by apply bool_decide_eq_true_2.
Qed.

(** A new stream is announced only after the device's past is: when the
    announcement of an open got its slot, nothing of that device is pending, so
    every earlier tightening of the device is in the desktop's log already, but
    for events that are counted as given up. *)
Theorem announcement_waits w0 produced t u :
  reports (world_log w0) = 0 → audit_run produced (audits_new, w0) t → NoDup_keys produced →
  sum_lengths snd produced <= u64_max →
  (reserve_announced u t).1 = Ok tt →
  ∃ emitted lost,
    emitted.*2 `sublist_of` world_log t.2
    ∧ (∀ u' events, (u', events) ∈ produced → au_device u' = au_device u →
        events = sent_of (au_key u') emitted ++ lost (au_key u'))
    ∧ sum_lengths (λ b, lost (au_key b.1)) produced
      = reports (world_log t.2) + unreported (as_deferred t.1).
Proof.
  intros H0 Hrun Hnd Hmax Hok.
  destruct (audit_run_accounted _ _ _ H0 Hrun Hnd Hmax) as (emitted & lost & [Hs Hse Hsp Hd Hf He Hl Hr Hu]).
  exists emitted, lost. split_and!; [done| |done]. intros u' events Hin Hdev.
  assert (pending_for (au_device u) (as_deferred t.1) = false) as Hp.
  { destruct t as [a w]. unfold reserve_announced, in_deferred, zoom, bind, get, gets in Hok. simpl in Hok.
    by destruct (pending_for _ _). }
  rewrite (Hsp _ _ Hin) at 1. f_equal. unfold pending_of.
  destruct (df_pending _ !! au_key u') as [[dev ev]|] eqn:Hk; [|done].
  destruct (Hd _ _ _ Hk) as (u2 & ev2 & Hin2 & Hkey & <-).
  assert (u2 = u') as ->.
  { assert ((u2, ev2) = (u', events)) as [= -> _]; [|done].
    unfold NoDup_keys in Hnd. apply list_elem_of_lookup in Hin as [i Hi].
    apply list_elem_of_lookup in Hin2 as [j Hj].
    assert (i = j) as ->; [|congruence].
    apply (NoDup_lookup _ i j (au_key u') Hnd); rewrite list_lookup_fmap.
    - by rewrite Hi.
    - rewrite Hj. simpl. by rewrite Hkey. }
  rewrite Hdev in Hk. by destruct (pending_for_false _ _ _ _ Hp Hk).
Qed.

(** ** Rejected writes *)

Definition is_summary (e : Event) : bool :=
  match ev_body e with
  | EvAudit _ _ _ _ _ action _ _ _ _ => bool_decide (action = "write.rejected")
  | _ => false
  end.
Definition summary_count (e : Event) : Z :=
  match ev_body e with
  | EvAudit _ _ _ _ _ _ _ _ summary _ =>
      match value_get "count" summary with Some (VNumber n) => n | _ => 0 end
  | _ => 0
  end.
Definition summaries (log : list Event) : list Event := filter (λ e, is_summary e = true) log.
Definition summed (log : list Event) : Z := foldr (λ e n, summary_count e + n) 0 (summaries log).

(** The rest of the gateway, as one peer's counter sees it: it does not touch
    that counter and sends none of its summaries. *)
Definition foreign (r : nat) (t t' : Audits * W) : Prop :=
  as_rejections t'.1 !! r = as_rejections t.1 !! r ∧ world_time t.2 <= world_time t'.2
  ∧ ∃ l, world_log t'.2 = world_log t.2 ++ l ∧ summaries l = [].

Definition counter (r : nat) (a : Audits) : Rejections :=
  default rejections_default (as_rejections a !! r).

Lemma summaries_app l k : summaries (l ++ k) = summaries l ++ summaries k.
Proof. apply filter_app. Qed.
Lemma summed_app l k : summed (l ++ k) = summed l + summed k.
Proof.
  unfold summed. rewrite summaries_app. induction (summaries l) as [|e l' IH]; simpl; lia.
Qed.

(** Where the counter stands after [n] rejections since [start]. *)
Record tally (r : nat) (start : Timestamp) (log0 : list Event) (n : Z) (t : Audits * W) : Prop := {
  ta_log : ∃ l, world_log t.2 = log0 ++ l ∧ summed l + rj_count (counter r t.1) = n
    ∧ (match rj_next (counter r t.1) with
       | None => summaries l = []
       | Some next => seconds 10 * Z.of_nat (length (summaries l)) <= next - start
                      ∧ next - seconds 10 <= world_time t.2
       end);
  ta_count : 0 <= rj_count (counter r t.1) <= n;
  ta_time : start <= world_time t.2;
}.

Lemma tally_foreign r start log0 n t t' : tally r start log0 n t → foreign r t t' → tally r start log0 n t'.
Proof.
  intros [(l & Hl & Hsum & Hnext) Hc Ht] (Hr & Htime & l' & Hl' & Hs).
  assert (counter r t'.1 = counter r t.1) as Hcr by (unfold counter; by rewrite Hr).
  constructor; rewrite ?Hcr; [|done|lia]. exists (l ++ l'). split; [by rewrite Hl', Hl, app_assoc|].
  rewrite summed_app, summaries_app, Hs, app_nil_r. unfold summed at 2. rewrite Hs. simpl.
  split; [lia|]. destruct (rj_next _); [lia|done].
Qed.
Lemma foreign_quiet r a w a' w' l : as_rejections a' !! r = as_rejections a !! r →
  world_time w <= world_time w' → world_log w' = world_log w ++ l → summaries l = [] →
  foreign r (a, w) (a', w').
Proof. intros. split_and!; [done..|by exists l]. Qed.

Lemma counter_set u v a : counter (au_rejections u) (set_rejection u v a) = v.
Proof. unfold counter, set_rejection. simpl. by rewrite lookup_insert_eq. Qed.
Lemma counter_set_again u v v' a :
  counter (au_rejections u) (set_rejection u v' (set_rejection u v a)) = v'.
Proof. apply counter_set. Qed.
Lemma summary_event u n at_ :
  let e := audit (au_device u) (au_peer_id u) (au_scope u) "write.rejected" (au_session u)
             (au_target u) (VObject [("count", VNumber n)]) at_ in
  summed [e] = n ∧ summaries [e] = [e].
Proof.
  intros e. assert (summaries [e] = [e]) as He by done. split; [|done].
  unfold summed. rewrite He. cbn. rewrite bool_decide_eq_true_2 by done. lia.
Qed.

Lemma tally_summary {E} start log0 n u now a w :
  tally (au_rejections u) start log0 n (a, w) → n < u64_max → start <= now <= world_time w →
  wp (rejection_summary (E := E) u now)
    (λ o t, o = Ok tt ∧ tally (au_rejections u) start log0 (n + 1) t) (a, w).
Proof.
  intros [(l & Hl & Hsum & Hnext) Hc Ht] Hn Hnow. simpl in *. unfold rejection_summary.
  apply wp_bind, wp_get. cbn zeta. fold (counter (au_rejections u) a).
  rewrite saturating_add_small by lia. destruct (counter (au_rejections u) a) as [count next] eqn:Hr.
  simpl in *. set (due := match next with None => true | Some _ => _ end).
  assert (due = true → seconds 10 * Z.of_nat (length (summaries l)) <= now - start) as Hdue.
  { subst due. destruct next as [nx|]; [intros Hle%Z.leb_le; lia|]. rewrite Hnext. simpl. unfold seconds. lia. }
  destruct due eqn:Hd; cycle 1.
  { apply wp_update. split; [done|]. constructor; simpl; rewrite ?counter_set; simpl; [|lia|done].
    exists l. split; [done|]. split; [lia|]. by destruct next. }
  specialize (Hdue eq_refl). apply wp_bind, wp_update, wp_bind, wp_bind, wp_clock_read.
  intros at_ w1 Ht1 <- Hl1. apply wp_ret. apply wp_bind, wp_try_emit. intros ok w2 Ht2 Hl2.
  destruct (summary_event u (count + 1) (world_time w1)) as [Hone Hself].
  assert (seconds 10 * Z.of_nat (S (length (summaries l))) <= after now (seconds 10) - start) as Hgap
    by (unfold after, seconds in *; lia).
  apply wp_when. destruct ok.
  - apply wp_update. split; [done|]. constructor; simpl; rewrite ?counter_set_again; simpl; [|lia|lia].
    eexists. split; [by rewrite Hl2, Hl1, Hl, <-app_assoc|].
    rewrite summed_app, summaries_app, Hself, length_app, Hone. simpl. split; [lia|].
    unfold after in *. split; [|lia]. rewrite Nat.add_1_r. lia.
  - split; [done|]. constructor; simpl; rewrite ?counter_set; simpl; [|lia|lia].
    exists l. split; [by rewrite Hl2, Hl1, app_nil_r|]. split; [lia|].
    unfold after, seconds in *. split; lia.
Qed.

(** The rejections of one peer, one after the other. *)
Definition reject_all {E} (calls : list (Audit * (Audits * W → Audits * W))) : M (Audits * W) E unit :=
  for_each calls (λ '(u, other), rejected other u).

Lemma tally_rejected {E} r start log0 n u other t :
  tally r start log0 n t → au_rejections u = r → n < u64_max → (∀ t, foreign r t (other t)) →
  wp (rejected (E := E) other u) (λ o t', o = Ok tt ∧ tally r start log0 (n + 1) t') t.
Proof.
  intros Hta <- Hn Hother. destruct t as [a w]. unfold rejected. apply wp_bind, wp_clock_read.
  intros now w1 Ht1 Hw1 Hl1. apply wp_bind, wp_zoom, wp_update, wp_bind, wp_modify.
  set (a1 := set_deferred _ a).
  assert (tally (au_rejections u) start log0 n (a1, w1)) as Hta1.
  { eapply tally_foreign; [exact Hta|]. apply (foreign_quiet _ _ _ _ _ []); [done|lia|by rewrite app_nil_r|done]. }
  pose proof (Hother (a1, w1)) as Hf. pose proof (tally_foreign _ _ _ _ _ _ Hta1 Hf) as Hta2.
  destruct Hf as (_ & Htime & _). simpl in Htime. destruct (other (a1, w1)) as [a2 w2]. simpl in Htime.
  apply tally_summary; [done|done|]. pose proof (ta_time _ _ _ _ _ Hta). simpl in *. lia.
Qed.

(** Rejected writes cost the desktop little and are all accounted for.
    Whatever else the gateway does in between, after any number of rejections of
    one peer the counts of its summaries in the log and the count that is still
    held add up to that number, and [k] summaries took at least [k - 1] times ten
    seconds. *)
Theorem rejections_accounted r calls a w t :
  counter r a = rejections_default → Z.of_nat (length calls) < u64_max →
  (∀ u other, (u, other) ∈ calls → au_rejections u = r ∧ ∀ t, foreign r t (other t)) →
  reject_all (E := unit) calls (a, w) = (Ok tt, t) →
  ∃ l, world_log t.2 = world_log w ++ l
    ∧ summed l + rj_count (counter r t.1) = Z.of_nat (length calls)
    ∧ seconds 10 * (Z.of_nat (length (summaries l)) - 1) <= world_time t.2 - world_time w.
Proof.
  intros Hr Hlen Hcalls Hrun.
  assert (∀ n t0, tally r (world_time w) (world_log w) n t0 → n + Z.of_nat (length calls) < u64_max →
    wp (reject_all (E := unit) calls)
      (λ o t, tally r (world_time w) (world_log w) (n + Z.of_nat (length calls)) t) t0) as Hall.
  { clear Hrun Hlen. induction calls as [|[u other] calls IH]; intros n t0 Hta Hn.
    - apply wp_ret. by rewrite Z.add_0_r.
    - apply wp_bind. destruct (Hcalls u other ltac:(left)) as [Hu Ho].
      eapply wp_mono; [apply (tally_rejected _ _ _ _ _ _ _ Hta Hu)|]; [simpl in Hn; lia|done|].
      intros o t1 [-> Hta1]. cbn [length] in *.
      replace (n + Z.of_nat (S (length calls))) with (n + 1 + Z.of_nat (length calls)) in * by lia.
      apply IH; [|done|done]. intros u' other' Hin. apply Hcalls. by right. }
  assert (tally r (world_time w) (world_log w) 0 (a, w)) as H0.
  { constructor; simpl; rewrite ?Hr; simpl; [|lia|lia]. exists []. by rewrite app_nil_r. }
  pose proof (wp_run _ _ _ _ _ (Hall 0 (a, w) H0 ltac:(lia)) Hrun) as [(l & Hl & Hsum & Hnext) _ Ht].
  exists l. split_and!; [done|lia|]. destruct (rj_next _) as [nx|]; [lia|].
  rewrite Hnext. simpl. unfold seconds in *. lia.
Qed.
End AuditProps.

(** ** One stream, computed *)

Definition demo_handle : Audit := mkAudit "phone" 7 "work" (Some "w:p") Control 1 0.
Definition demo_room (n : nat) (log : list Event) : SimWorld := mkSim 100 0 n 0 log.
Definition demo_bundle : list Event := tightening demo_handle "session-invalid" true 100.

(** The queue takes one event of two, then the writer makes room and the rest is
    flushed. *)
Definition demo_closed : Audits * SimWorld :=
  (in_deferred (E := unit) (tighten demo_handle demo_bundle) (audits_new, demo_room 1 [])).2.
Definition demo_relieved : Audits * SimWorld :=
  (demo_closed.1, demo_room 5 (sim_log demo_closed.2)).
Definition demo_flushed : Audits * SimWorld := (in_deferred (E := unit) flush demo_relieved).2.

Lemma demo_closed_run : audit_run [(demo_handle, demo_bundle)] (audits_new, demo_room 1 []) demo_closed.
Proof. apply audit_run_once. apply (aud_tighten unit); [done|apply bundle_tightening]. Qed.
Lemma demo_flushed_run : audit_run [(demo_handle, demo_bundle)] (audits_new, demo_room 1 []) demo_flushed.
Proof.
  change [(demo_handle, demo_bundle)] with (([(demo_handle, demo_bundle)] ++ []) ++ []).
  eapply run_step; [eapply run_step; [exact demo_closed_run|]|apply (aud_flush unit)].
  apply (aud_world demo_closed.1 demo_closed.2 _ []); [by rewrite app_nil_r|constructor|done].
Qed.

Lemma tightening_accounted_witness :
  let t := demo_closed in
  pending_of 1 (as_deferred t.1) = drop 1 demo_bundle ∧
  ∃ emitted lost,
    emitted.*2 `sublist_of` world_log t.2
    ∧ (∀ u events, (u, events) ∈ [(demo_handle, demo_bundle)] → events = sent_of (au_key u) emitted
        ++ pending_of (au_key u) (as_deferred t.1) ++ lost (au_key u))
    ∧ (size (df_pending (as_deferred t.1)) <= MAX_PENDING)%nat
    ∧ sum_lengths (λ b : Audit * list Event, lost (au_key b.1)) [(demo_handle, demo_bundle)]
      = reports (world_log t.2) + unreported (as_deferred t.1).
Proof.
  split; [vm_compute; reflexivity|].
  apply (tightening_accounted (demo_room 1 []) [(demo_handle, demo_bundle)] demo_closed);
    [reflexivity|exact demo_closed_run|repeat constructor; set_solver|vm_compute; discriminate].
Defined.

Lemma announcement_waits_witness :
  let t := demo_flushed in
  (reserve_announced demo_handle demo_closed).1 = Err "audit-unavailable"
  ∧ (reserve_announced demo_handle t).1 = Ok tt
  ∧ ∃ emitted lost,
    emitted.*2 `sublist_of` world_log t.2
    ∧ (∀ u' events, (u', events) ∈ [(demo_handle, demo_bundle)] →
        au_device u' = au_device demo_handle → events = sent_of (au_key u') emitted ++ lost (au_key u'))
    ∧ sum_lengths (λ b : Audit * list Event, lost (au_key b.1)) [(demo_handle, demo_bundle)]
      = reports (world_log t.2) + unreported (as_deferred t.1).
Proof.
  split; [vm_compute; reflexivity|]. split; [vm_compute; reflexivity|].
  apply (announcement_waits (demo_room 1 []) [(demo_handle, demo_bundle)] demo_flushed demo_handle);
    [reflexivity|exact demo_flushed_run|repeat constructor; set_solver|vm_compute; discriminate
    |vm_compute; reflexivity].
Defined.

(** Three rejections within ten seconds: one summary of one, two still held. *)
Definition demo_calls : list (Audit * (Audits * SimWorld → Audits * SimWorld)) :=
  [(demo_handle, id); (demo_handle, id); (demo_handle, id)].
Definition demo_rejected : Audits * SimWorld :=
  (reject_all (E := unit) demo_calls (audits_new, demo_room 5 [])).2.

Lemma rejections_accounted_witness :
  (length (summaries (sim_log demo_rejected.2)), rj_count (counter 0 demo_rejected.1)) = (1%nat, 2)
  ∧ ∃ l, world_log demo_rejected.2 = world_log (demo_room 5 []) ++ l
    ∧ summed l + rj_count (counter 0 demo_rejected.1) = Z.of_nat (length demo_calls)
    ∧ seconds 10 * (Z.of_nat (length (summaries l)) - 1)
      <= world_time demo_rejected.2 - world_time (demo_room 5 []).
Proof.
  split; [vm_compute; reflexivity|].
  apply (rejections_accounted 0 demo_calls audits_new (demo_room 5 []) demo_rejected);
    [reflexivity|reflexivity| |vm_compute; reflexivity].
  intros u other Hin. assert (u = demo_handle ∧ other = id) as [-> ->] by (unfold demo_calls in Hin; set_solver).
  split; [reflexivity|]. intros t. split_and!; [done|done|]. exists []. by rewrite app_nil_r.
Defined.
