(* ===== verification/Jobs.v ===== *)
(** * [herdr_jobs.rs]: the bounded executor of the host's blocking calls

    Calls run on threads of their own under two sets of permits, one global and
    one per device; a host resource holds one of 128 permits from its reservation
    until the host has released it, at most two releases at a time. *)
From stdpp Require Import base gmap strings list.
From Stdlib Require Import ZArith Lia.
From S2P Require Import Prelude Rust Externals Crates Session.
Local Open Scope Z_scope.

Definition MAX_CALLS : nat := 4.
Definition MAX_RESOURCES : nat := MAX_PEERS * 8.
Definition WRITE_SLOTS : nat := 2.
Definition CLEANUP_SLOTS : nat := 2.
Definition device_slots (write : bool) : nat := if write then 1 else 2.

(** [herdr::Resource] *)
Inductive Resource := Observe (id : string) | EventsOf (id : string).
#[export] Instance resource_eq_dec : EqDecision Resource.
Proof. solve_decision. Defined.

(** What a task of the [JoinSet] is doing.  The permits it holds follow from it:
    a call holds a slot and one of its device, a cleanup the permit of its
    resource and, while it runs, a cleanup slot.  [full] is the device whose
    full-session permit the cleanup carries. *)
Inductive Task :=
| Call (device : string) (write : bool)
| CleanupWaiting (resource : Resource) (full : option string)
| CleanupRunning (resource : Resource) (full : option string)
| Finished.

Section Jobs.
Context `{Tokio}.

(** A device's semaphore with the strong count of its [Arc]; the map holds it
    weakly, so it is gone at 0. *)
Record DeviceSem := mkDeviceSem { ds_sem : Sem; ds_strong : nat }.

Record Jobs := mkJobs {
  jb_slots : Sem;
  jb_write_slots : Sem;
  jb_cleanup_slots : Sem;
  jb_devices : gmap (string * bool) DeviceSem;
  jb_resources : Sem;
  jb_tasks : list Task;
}.
Definition set_slots (write : bool) (v : Sem) (j : Jobs) : Jobs :=
  if write
  then mkJobs j.(jb_slots) v j.(jb_cleanup_slots) j.(jb_devices) j.(jb_resources) j.(jb_tasks)
  else mkJobs v j.(jb_write_slots) j.(jb_cleanup_slots) j.(jb_devices) j.(jb_resources) j.(jb_tasks).
Definition get_slots (write : bool) (j : Jobs) : Sem :=
  if write then j.(jb_write_slots) else j.(jb_slots).
Definition set_cleanup_slots v j := mkJobs j.(jb_slots) j.(jb_write_slots) v j.(jb_devices)
  j.(jb_resources) j.(jb_tasks).
Definition set_job_devices v j := mkJobs j.(jb_slots) j.(jb_write_slots) j.(jb_cleanup_slots) v
  j.(jb_resources) j.(jb_tasks).
Definition set_resources v j := mkJobs j.(jb_slots) j.(jb_write_slots) j.(jb_cleanup_slots)
  j.(jb_devices) v j.(jb_tasks).
Definition set_tasks v j := mkJobs j.(jb_slots) j.(jb_write_slots) j.(jb_cleanup_slots)
  j.(jb_devices) j.(jb_resources) v.

(** [Jobs::new] *)
Definition jobs_new : Jobs := mkJobs (sem_new MAX_CALLS) (sem_new WRITE_SLOTS)
  (sem_new CLEANUP_SLOTS) ∅ (sem_new MAX_RESOURCES) [].

(** [while tasks.try_join_next().is_some() {}] *)
Definition finished (t : Task) : bool := match t with Finished => true | _ => false end.
Definition reap (j : Jobs) : Jobs :=
  set_tasks (List.filter (λ t, negb (finished t)) j.(jb_tasks)) j.
Definition spawn (t : Task) (j : Jobs) : Jobs :=
  let j := reap j in set_tasks (j.(jb_tasks) ++ [t]) j.

(** The device's semaphore: the one in the map if someone still holds it. *)
Definition device_entry (key : string * bool) : M Jobs string DeviceSem :=
  modify (λ j, set_job_devices (filter (λ e, (0 < ds_strong e.2)%nat) j.(jb_devices)) j);;
  let! j := gets id in
  match j.(jb_devices) !! key with
  | Some d => ret d
  | None => ret (mkDeviceSem (sem_new (device_slots key.2)) 0)
  end.
Definition put_device (key : string * bool) (d : DeviceSem) : M Jobs string unit :=
  modify (λ j, set_job_devices (<[key := d]> j.(jb_devices)) j).

(** [Jobs::submit_device].  A refused call drops the permit it took and its [Arc]
    of the device's semaphore, which leaves the entry as it was found. *)
Definition submit_device (device : string) (write : bool) : M Jobs string unit :=
  let key := (device, write) in
  let! d := device_entry key in
  put_device key d;;
  let! permit := ok_or "busy" (sem_try_acquire d.(ds_sem)) in
  let! j := gets id in
  match sem_try_acquire (get_slots write j) with
  | None =>
      put_device key (mkDeviceSem (sem_release permit) d.(ds_strong));;
      throw "busy"
  | Some slots =>
      put_device key (mkDeviceSem permit (S d.(ds_strong)));;
      modify (set_slots write slots);;
      modify (spawn (Call device write))
  end.

(** The end of a call: both permits go back, then the result is sent. *)
Definition call_done (device : string) (write : bool) (j : Jobs) : Jobs :=
  let j := set_slots write (sem_release (get_slots write j)) j in
  match j.(jb_devices) !! (device, write) with
  | Some d => set_job_devices (<[(device, write) :=
                mkDeviceSem (sem_release d.(ds_sem)) (pred d.(ds_strong))]> j.(jb_devices)) j
  | None => j
  end.

(** [Jobs::reserve], and the drop of the permit it gives. *)
Definition reserve_resource : M Jobs string unit :=
  let! j := gets id in
  let! r := ok_or "busy" (sem_try_acquire j.(jb_resources)) in
  modify (set_resources r).
Definition drop_resource_permit (j : Jobs) : Jobs :=
  set_resources (sem_release j.(jb_resources)) j.

(** [Jobs::release] *)
Definition release (resource : Resource) (full : option string) : Jobs → Jobs :=
  spawn (CleanupWaiting resource full).

(** The cleanup's thread, from [acquire_owned] to the drop of its permits; the
    timeout of ten seconds only reports, it does not cancel. *)
Definition cleanup_begin (j : Jobs) : option Jobs :=
  (λ s, set_cleanup_slots s j) <$> sem_try_acquire j.(jb_cleanup_slots).
Definition cleanup_finish (j : Jobs) : Jobs :=
  drop_resource_permit (set_cleanup_slots (sem_release j.(jb_cleanup_slots)) j).

(** [Jobs::drain] returns at a turn of its loop that finds no task. *)
Definition drained (j : Jobs) : bool := bool_decide (jb_tasks (reap j) = []).

(** ** [Lease] *)

Record Lease := mkLease { le_resource : option Resource; le_full : option string }.
(** [Lease::new], [Lease::hold_full]; [Lease::id] panics once it is released. *)
Definition lease_new (resource : Resource) : Lease := mkLease (Some resource) None.
Definition hold_full (device : string) (l : Lease) : Lease := mkLease l.(le_resource) (Some device).
Definition lease_id (l : Lease) : outcome unit string :=
  match l.(le_resource) with
  | Some (Observe id) | Some (EventsOf id) => Ok id
  | None => Panic
  end.

(** [Drop for Lease] *)
Definition lease_drop (l : Lease) (j : Jobs) : Jobs :=
  match l.(le_resource) with
  | Some resource => release resource l.(le_full) j
  | None => j
  end.

(** [Lease::release_now]: the host is called here, then [self] is dropped with
    nothing left to release. *)
Definition release_now (l : Lease) (j : Jobs) : option Resource * Jobs :=
  match l.(le_resource) with
  | Some resource =>
      (Some resource, lease_drop (mkLease None l.(le_full)) (drop_resource_permit j))
  | None => (None, lease_drop l j)
  end.

(** ** The executor as a system

    [js_reserved] permits are out without a resource, [js_leases] are alive,
    [js_opened] is what the host opened and [js_released] what it was told to
    release. *)
Record JobSys := mkJobSys {
  js_jobs : Jobs;
  js_reserved : nat;
  js_leases : list Lease;
  js_opened : list Resource;
  js_released : list Resource;
}.
Definition with_jobs (j : Jobs) (s : JobSys) : JobSys :=
  mkJobSys j s.(js_reserved) s.(js_leases) s.(js_opened) s.(js_released).
Definition at_task (i : nat) (t : Task) (j : Jobs) : Jobs :=
  set_tasks (<[i := t]> j.(jb_tasks)) j.

Inductive job_step : JobSys → JobSys → Prop :=
| job_submit s device write :
    job_step s (with_jobs (submit_device device write s.(js_jobs)).2 s)
| job_call_done s i device write :
    jb_tasks s.(js_jobs) !! i = Some (Call device write) →
    job_step s (with_jobs (call_done device write (at_task i Finished s.(js_jobs))) s)
| job_reserve s j :
    reserve_resource s.(js_jobs) = (Ok tt, j) →
    job_step s (mkJobSys j (S s.(js_reserved)) s.(js_leases) s.(js_opened) s.(js_released))
| job_unreserve s n :
    s.(js_reserved) = S n →
    job_step s (mkJobSys (drop_resource_permit s.(js_jobs)) n s.(js_leases) s.(js_opened) s.(js_released))
| job_open s n resource full :
    s.(js_reserved) = S n →
    job_step s (mkJobSys s.(js_jobs) n (mkLease (Some resource) full :: s.(js_leases))
      (resource :: s.(js_opened)) s.(js_released))
| job_drop s i l :
    s.(js_leases) !! i = Some l →
    job_step s (mkJobSys (lease_drop l s.(js_jobs)) s.(js_reserved) (delete i s.(js_leases))
      s.(js_opened) s.(js_released))
| job_release_now s i l resource j :
    s.(js_leases) !! i = Some l → release_now l s.(js_jobs) = (resource, j) →
    job_step s (mkJobSys j s.(js_reserved) (delete i s.(js_leases))
      s.(js_opened) (option_list resource ++ s.(js_released)))
| job_cleanup_begin s i resource full j :
    jb_tasks s.(js_jobs) !! i = Some (CleanupWaiting resource full) →
    cleanup_begin s.(js_jobs) = Some j →
    job_step s (with_jobs (at_task i (CleanupRunning resource full) j) s)
| job_cleanup_finish s i resource full :
    jb_tasks s.(js_jobs) !! i = Some (CleanupRunning resource full) →
    job_step s (mkJobSys (cleanup_finish (at_task i Finished s.(js_jobs))) s.(js_reserved)
      s.(js_leases) s.(js_opened) (resource :: s.(js_released)))
| job_reap s : job_step s (with_jobs (reap s.(js_jobs)) s).

Inductive jobs_reachable : JobSys → Prop :=
| jobs_start : jobs_reachable (mkJobSys jobs_new 0 [] [] [])
| jobs_next s s' : jobs_reachable s → job_step s s' → jobs_reachable s'.
End Jobs.

Local Close Scope Z_scope.

(** * The executor's permits, and what becomes of a host resource

    Every permit of [Jobs.v] is accounted for by the tasks and the leases, so the
    limits on calls hold, and a resource the host opened is held by exactly one
    lease or cleanup until the host is told to release it, once. *)
(** ** Tasks *)

Definition is_call (write : bool) (t : Task) : bool :=
  match t with Call _ w => bool_decide (w = write) | _ => false end.
Definition is_call_of (key : string * bool) (t : Task) : bool :=
  match t with Call d w => bool_decide ((d, w) = key) | _ => false end.
Definition is_cleaning (t : Task) : bool :=
  match t with CleanupRunning _ _ => true | _ => false end.
Definition cleanup_of (t : Task) : option Resource :=
  match t with CleanupWaiting r _ | CleanupRunning r _ => Some r | _ => None end.
Definition count (p : Task → bool) (l : list Task) : nat :=
  length (omap (λ t, if p t then Some tt else None) l).
Definition cleanups (l : list Task) : list Resource := omap cleanup_of l.
Definition held (l : list Lease) : list Resource := omap le_resource l.

#[export] Instance count_permutation p : Proper (Permutation ==> eq) (count p).
Proof. intros l k Hl. unfold count. by rewrite Hl. Qed.
#[export] Instance cleanups_permutation : Proper (Permutation ==> Permutation) cleanups.
Proof. intros l k Hl. unfold cleanups. by rewrite Hl. Qed.
#[export] Instance held_permutation : Proper (Permutation ==> Permutation) held.
Proof. intros l k Hl. unfold held. by rewrite Hl. Qed.

Lemma count_cons p t l : count p (t :: l) = ((if p t then 1 else 0) + count p l)%nat.
Proof. unfold count. simpl. by destruct (p t). Qed.
Lemma cleanups_cons t l : cleanups (t :: l) = option_list (cleanup_of t) ++ cleanups l.
Proof. unfold cleanups. simpl. by destruct (cleanup_of t). Qed.
Lemma held_cons x l : held (x :: l) = option_list (le_resource x) ++ held l.
Proof. unfold held. simpl. by destruct (le_resource x). Qed.

(** A task that changes, the others as they are. *)
Lemma task_split {A} i (x : A) l : l !! i = Some x →
  ∃ rest, l ≡ₚ x :: rest ∧ ∀ y, <[i := y]> l ≡ₚ y :: rest.
Proof.
  revert i. induction l as [|z l IH]; intros [|i] Hi; simplify_eq/=; [by exists l|].
  destruct (IH i Hi) as (rest & Hl & Hy). exists (z :: rest). split; [by rewrite Hl, Permutation_swap|].
  intros y. by rewrite (Hy y), Permutation_swap.
Qed.

Definition running (l : list Task) : list Task := List.filter (λ t, negb (finished t)) l.
Lemma count_running p l : p Finished = false → count p (running l) = count p l.
Proof.
  intros Hp. induction l as [|t l IH]; [done|]. rewrite count_cons. simpl.
  destruct t; simpl; rewrite ?count_cons, IH; [done..|]. by rewrite Hp.
Qed.
Lemma cleanups_running l : cleanups (running l) = cleanups l.
Proof.
  induction l as [|t l IH]; [done|]. rewrite cleanups_cons.
  destruct t; simpl; rewrite ?cleanups_cons; simpl; by rewrite IH.
Qed.

Section JobsFacts.
Context `{T : Tokio, !TokioLaws T}.

Definition slot_limit (write : bool) : nat := if write then WRITE_SLOTS else MAX_CALLS.

(** Every permit is held by a task, a lease or a reservation. *)
Record jobs_wf (s : JobSys) : Prop := {
  jw_slots write : sem_permits (get_slots write s.(js_jobs)) + count (is_call write) (jb_tasks s.(js_jobs))
                   = slot_limit write;
  jw_cleanup : sem_permits (jb_cleanup_slots s.(js_jobs)) + count is_cleaning (jb_tasks s.(js_jobs))
               = CLEANUP_SLOTS;
  jw_resources : sem_permits (jb_resources s.(js_jobs)) + s.(js_reserved) + length s.(js_leases)
                 + length (cleanups (jb_tasks s.(js_jobs))) = MAX_RESOURCES;
  jw_devices key : match jb_devices s.(js_jobs) !! key with
                   | Some d => ds_strong d = count (is_call_of key) (jb_tasks s.(js_jobs))
                               ∧ sem_permits (ds_sem d) + ds_strong d = device_slots key.2
                   | None => count (is_call_of key) (jb_tasks s.(js_jobs)) = 0
                   end;
  jw_live : Forall (λ l, is_Some (le_resource l)) s.(js_leases);
  jw_opened : s.(js_opened) ≡ₚ held s.(js_leases) ++ cleanups (jb_tasks s.(js_jobs)) ++ s.(js_released);
}.

Lemma jobs_new_wf : jobs_wf (mkJobSys jobs_new 0 [] [] []).
Proof.
  constructor; simpl; rewrite ?sem_new_permits; try done.
  intros []; simpl; by rewrite sem_new_permits.
Qed.

(** ** Submitting a call *)

(** What [submit_device] does, on every path. *)
Lemma submit_spec device write j :
  let key := (device, write) in
  let devices := filter (λ e, 0 < ds_strong e.2) j.(jb_devices) in
  let d := default (mkDeviceSem (sem_new (device_slots write)) 0) (devices !! key) in
  match sem_try_acquire (ds_sem d), sem_try_acquire (get_slots write j) with
  | Some permit, Some slots =>
      submit_device device write j
      = (Ok tt, spawn (Call device write) (set_slots write slots
           (set_job_devices (<[key := mkDeviceSem permit (S (ds_strong d))]> devices) j)))
  | Some permit, None =>
      submit_device device write j
      = (Err "busy", set_job_devices (<[key := mkDeviceSem (sem_release permit) (ds_strong d)]> devices) j)
  | None, _ => submit_device device write j = (Err "busy", set_job_devices (<[key := d]> devices) j)
  end.
Proof.
  intros key devices d. unfold submit_device, device_entry, put_device, bind, modify, gets.
  subst key. cbn. fold devices. subst d.
  destruct (devices !! (device, write)) as [d|] eqn:Hk; cbn;
    (destruct (sem_try_acquire (ds_sem _)) as [permit|] eqn:Hp || destruct (sem_try_acquire (sem_new _)) as [permit|] eqn:Hp);
    cbn; try done;
    destruct (sem_try_acquire (get_slots write j)) eqn:Hs; destruct write; cbn in *;
    rewrite ?Hs; cbn; unfold set_job_devices; cbn; rewrite ?insert_insert_eq; done.
Qed.

(** ** Every step keeps the permits accounted for *)

Lemma count_spawn p t j : p Finished = false →
  count p (jb_tasks (spawn t j)) = ((if p t then 1 else 0) + count p (jb_tasks j))%nat.
Proof.
  intros Hp. unfold spawn. simpl. fold (running (jb_tasks j)).
  rewrite <-Permutation_cons_append, count_cons. by rewrite count_running.
Qed.
Lemma cleanups_spawn t j :
  cleanups (jb_tasks (spawn t j)) ≡ₚ option_list (cleanup_of t) ++ cleanups (jb_tasks j).
Proof.
  unfold spawn. simpl. fold (running (jb_tasks j)).
  by rewrite <-Permutation_cons_append, cleanups_cons, cleanups_running.
Qed.

(** The invariant of the devices alone. *)
Definition devices_wf (devices : gmap (string * bool) DeviceSem) (tasks : list Task) : Prop :=
  ∀ key, match devices !! key with
         | Some d => ds_strong d = count (is_call_of key) tasks
                     ∧ sem_permits (ds_sem d) + ds_strong d = device_slots key.2
         | None => count (is_call_of key) tasks = 0
         end.

Lemma devices_purge devices tasks : devices_wf devices tasks →
  devices_wf (filter (λ e, 0 < ds_strong e.2) devices) tasks.
Proof.
  intros Hd key. specialize (Hd key).
  destruct (filter _ devices !! key) as [d|] eqn:Hk.
  - apply map_lookup_filter_Some in Hk as [Hk _]. by rewrite Hk in Hd.
  - apply map_lookup_filter_None in Hk as [Hk|Hk]; [by rewrite Hk in Hd|].
    destruct (devices !! key) as [d|]; [|done]. specialize (Hk d eq_refl). simpl in Hk. lia.
Qed.
Lemma devices_default devices tasks device write : devices_wf devices tasks →
  let d := default (mkDeviceSem (sem_new (device_slots write)) 0) (devices !! (device, write)) in
  ds_strong d = count (is_call_of (device, write)) tasks
  ∧ sem_permits (ds_sem d) + ds_strong d = device_slots write.
Proof.
  intros Hd. specialize (Hd (device, write)). destruct (devices !! _); simpl in *; [done|].
  rewrite sem_new_permits. lia.
Qed.
Lemma devices_put devices tasks key d : devices_wf devices tasks →
  ds_strong d = count (is_call_of key) tasks →
  sem_permits (ds_sem d) + ds_strong d = device_slots key.2 →
  devices_wf (<[key := d]> devices) tasks.
Proof.
  intros Hd Hs Hp key'. destruct (decide (key' = key)) as [->|Hne].
  - by rewrite lookup_insert_eq.
  - rewrite lookup_insert_ne by done. apply Hd.
Qed.
Lemma devices_call devices tasks device write d : devices_wf devices tasks →
  ds_strong d = S (count (is_call_of (device, write)) tasks) →
  sem_permits (ds_sem d) + ds_strong d = device_slots write →
  devices_wf (<[(device, write) := d]> devices) (Call device write :: tasks).
Proof.
  intros Hd Hs Hp key. rewrite count_cons. simpl. case_bool_decide as Hk; subst.
  - by rewrite lookup_insert_eq.
  - rewrite lookup_insert_ne by done. apply Hd.
Qed.
Lemma devices_perm devices tasks tasks' :
  (∀ key, count (is_call_of key) tasks' = count (is_call_of key) tasks) →
  devices_wf devices tasks → devices_wf devices tasks'.
Proof. intros Hc Hd key. rewrite Hc. apply Hd. Qed.

Lemma get_slots_other write write' v j :
  get_slots write' (set_slots write v j) = if bool_decide (write = write') then v else get_slots write' j.
Proof. by destruct write, write'. Qed.

Lemma submit_wf s device write : jobs_wf s → jobs_wf (with_jobs (submit_device device write s.(js_jobs)).2 s).
Proof.
  intros [Hs Hc Hr Hd Hl Ho]. destruct s as [j n leases opened released]. simpl in *.
  pose proof (submit_spec device write j) as Hspec. cbn zeta in Hspec.
  pose proof (devices_purge _ _ Hd) as Hpd. pose proof (devices_default _ _ device write Hpd) as [Hst Hpe].
  cbn zeta in Hst, Hpe. set (devices := filter _ (jb_devices j)) in *.
  set (d := default _ _) in *. clearbody d devices. destruct (sem_try_acquire (ds_sem _)) as [permit|] eqn:Hacq.
  2: { rewrite Hspec. constructor; simpl; try done. by apply devices_put. }
  apply sem_acquire_some in Hacq. destruct (sem_try_acquire (get_slots write j)) as [slots|] eqn:Hglob.
  2: { rewrite Hspec. constructor; simpl; try done.
       apply devices_put; simpl; [done|exact Hst|rewrite sem_release_permits; lia]. }
  apply sem_acquire_some in Hglob. rewrite Hspec. unfold with_jobs. cbn [snd].
  assert (∀ p, p Finished = false → ∀ v devices', count p (jb_tasks (spawn (Call device write)
    (set_slots write v (set_job_devices devices' j)))) = count p (Call device write :: jb_tasks j)) as Hcount.
  { intros p Hp v devices'. rewrite count_spawn, count_cons by done. by destruct write. }
  constructor; cbn [js_jobs js_leases js_opened js_released js_reserved].
  - intros w. specialize (Hs w). rewrite Hcount, count_cons by done. simpl.
    destruct write, w; simpl in *; lia.
  - rewrite Hcount, count_cons by done. by destruct write.
  - rewrite cleanups_spawn. by destruct write.
  - assert (devices_wf (<[(device, write) := mkDeviceSem permit (S (ds_strong d))]> devices)
      (Call device write :: jb_tasks j)) as Hdev by (apply devices_call; simpl; [done|lia|lia]).
    intros key. specialize (Hdev key). rewrite Hcount by done. by destruct write.
  - done.
  - rewrite cleanups_spawn. simpl. by destruct write.
Qed.

(** A task that ends or moves on, with its counts. *)
Lemma tasks_at i x y l : l !! i = Some x →
  (∀ p, (count p (<[i := y]> l) + (if p x then 1 else 0) = count p l + (if p y then 1 else 0))%nat)
  ∧ option_list (cleanup_of x) ++ cleanups (<[i := y]> l) ≡ₚ option_list (cleanup_of y) ++ cleanups l.
Proof.
  intros Hi. destruct (task_split i x l Hi) as (rest & Hl & Hy). split.
  - intros p. rewrite (Hy y), Hl, !count_cons. lia.
  - rewrite (Hy y), Hl, !cleanups_cons, !app_assoc, (Permutation_app_comm (option_list _)). done.
Qed.

Lemma call_done_wf s i device write : jobs_wf s →
  jb_tasks s.(js_jobs) !! i = Some (Call device write) →
  jobs_wf (with_jobs (call_done device write (at_task i Finished s.(js_jobs))) s).
Proof.
  intros [Hs Hc Hr Hd Hl Ho] Hi. destruct s as [j n leases opened released]. simpl in *.
  destruct (tasks_at i _ Finished _ Hi) as [Hcount Hclean]. simpl in Hclean.
  pose proof (Hcount (is_call_of (device, write))) as Hkey. simpl in Hkey.
  rewrite bool_decide_eq_true_2 in Hkey by done. pose proof (Hd (device, write)) as Hentry.
  destruct (jb_devices j !! (device, write)) as [d|] eqn:Hlook; [|lia]. destruct Hentry as [Hst Hpe].
  assert (devices_wf (<[(device, write) := mkDeviceSem (sem_release (ds_sem d)) (pred (ds_strong d))]>
    (jb_devices j)) (<[i := Finished]> (jb_tasks j))) as Hdev.
  { intros key. pose proof (Hcount (is_call_of key)) as Hk. simpl in Hk. case_bool_decide; subst.
    - rewrite lookup_insert_eq. simpl in *. rewrite sem_release_permits. lia.
    - rewrite lookup_insert_ne by done. replace (count _ _) with (count (is_call_of key) (jb_tasks j)) by lia.
      apply Hd. }
  assert (call_done device write (at_task i Finished j) = set_job_devices
    (<[(device, write) := mkDeviceSem (sem_release (ds_sem d)) (pred (ds_strong d))]> (jb_devices j))
    (set_slots write (sem_release (get_slots write j)) (at_task i Finished j))) as ->.
  { unfold call_done. destruct write; simpl in *; by rewrite Hlook. }
  constructor; simpl.
  - intros w. specialize (Hs w). specialize (Hcount (is_call w)). simpl in Hcount.
    destruct write, w; simpl in *; rewrite ?sem_release_permits; lia.
  - specialize (Hcount is_cleaning). simpl in Hcount. destruct write; simpl; lia.
  - destruct write; simpl; by rewrite Hclean.
  - destruct write; exact Hdev.
  - done.
  - destruct write; simpl; by rewrite Hclean.
Qed.

Lemma lease_at i l (leases : list Lease) : leases !! i = Some l →
  held leases ≡ₚ option_list (le_resource l) ++ held (delete i leases)
  ∧ length leases = S (length (delete i leases)).
Proof.
  intros Hi. pose proof (delete_Permutation _ _ _ Hi) as Hp. split.
  - by rewrite Hp at 1; rewrite held_cons.
  - by rewrite Hp at 1.
Qed.

Lemma drop_wf s i l : jobs_wf s → s.(js_leases) !! i = Some l →
  jobs_wf (mkJobSys (lease_drop l s.(js_jobs)) s.(js_reserved) (delete i s.(js_leases))
    s.(js_opened) s.(js_released)).
Proof.
  intros [Hs Hc Hr Hd Hl Ho] Hi. destruct s as [j n leases opened released]. simpl in *.
  destruct (lease_at _ _ _ Hi) as (Hheld & Hlen).
  pose proof (Forall_lookup_1 _ _ _ _ Hl Hi) as [resource Hres]. rewrite Hres in Hheld.
  unfold lease_drop, release. rewrite Hres. constructor; cbn [js_jobs js_leases js_opened js_released js_reserved].
  - intros w. rewrite count_spawn by done. apply Hs.
  - by rewrite count_spawn.
  - rewrite cleanups_spawn. simpl in *. lia.
  - intros key. rewrite count_spawn by done. apply Hd.
  - by apply Forall_delete.
  - rewrite cleanups_spawn, Ho, Hheld. simpl. by rewrite Permutation_middle.
Qed.

Lemma release_now_wf s i l resource j : jobs_wf s → s.(js_leases) !! i = Some l →
  release_now l s.(js_jobs) = (resource, j) →
  jobs_wf (mkJobSys j s.(js_reserved) (delete i s.(js_leases)) s.(js_opened)
    (option_list resource ++ s.(js_released))).
Proof.
  intros [Hs Hc Hr Hd Hl Ho] Hi. destruct s as [j0 n leases opened released]. simpl in *.
  destruct (lease_at _ _ _ Hi) as (Hheld & Hlen).
  pose proof (Forall_lookup_1 _ _ _ _ Hl Hi) as [r Hres]. rewrite Hres in Hheld.
  unfold release_now. rewrite Hres. intros [= <- <-]. constructor; simpl; try done.
  - rewrite sem_release_permits. lia.
  - by apply Forall_delete.
  - rewrite Ho, Hheld. simpl. by rewrite !Permutation_middle.
Qed.

Lemma cleanup_begin_wf s i resource full j : jobs_wf s →
  jb_tasks s.(js_jobs) !! i = Some (CleanupWaiting resource full) →
  cleanup_begin s.(js_jobs) = Some j →
  jobs_wf (with_jobs (at_task i (CleanupRunning resource full) j) s).
Proof.
  intros [Hs Hc Hr Hd Hl Ho] Hi. destruct s as [j0 n leases opened released]. simpl in *.
  unfold cleanup_begin. destruct (sem_try_acquire _) as [v|] eqn:Hv; [|done]. intros [= <-].
  apply sem_acquire_some in Hv.
  destruct (tasks_at i _ (CleanupRunning resource full) _ Hi) as [Hcount Hclean]. simpl in Hclean.
  apply Permutation_cons_inv in Hclean.
  constructor; simpl; rewrite ?Hclean; try done.
  - intros w. specialize (Hcount (is_call w)). simpl in Hcount. specialize (Hs w). destruct w; simpl in *; lia.
  - specialize (Hcount is_cleaning). simpl in Hcount. lia.
  - intros key. specialize (Hcount (is_call_of key)). simpl in Hcount.
    replace (count _ _) with (count (is_call_of key) (jb_tasks j0)) by lia. apply Hd.
Qed.

Lemma cleanup_finish_wf s i resource full : jobs_wf s →
  jb_tasks s.(js_jobs) !! i = Some (CleanupRunning resource full) →
  jobs_wf (mkJobSys (cleanup_finish (at_task i Finished s.(js_jobs))) s.(js_reserved)
    s.(js_leases) s.(js_opened) (resource :: s.(js_released))).
Proof.
  intros [Hs Hc Hr Hd Hl Ho] Hi. destruct s as [j n leases opened released]. simpl in *.
  destruct (tasks_at i _ Finished _ Hi) as [Hcount Hclean]. simpl in Hclean.
  constructor; simpl; rewrite ?sem_release_permits; try done.
  - intros w. specialize (Hcount (is_call w)). simpl in Hcount. specialize (Hs w). destruct w; simpl in *; lia.
  - specialize (Hcount is_cleaning). simpl in Hcount. lia.
  - rewrite <-Hclean in Hr. simpl in Hr. lia.
  - intros key. specialize (Hcount (is_call_of key)). simpl in Hcount.
    replace (count _ _) with (count (is_call_of key) (jb_tasks j)) by lia. apply Hd.
  - rewrite Ho, <-Hclean. simpl. by rewrite Permutation_middle.
Qed.

Lemma reap_wf s : jobs_wf s → jobs_wf (with_jobs (reap s.(js_jobs)) s).
Proof.
  intros [Hs Hc Hr Hd Hl Ho]. destruct s as [j n leases opened released]. simpl in *.
  constructor; simpl; fold (running (jb_tasks j)); rewrite ?cleanups_running; try done.
  - intros w. rewrite count_running by done. specialize (Hs w). by destruct w.
  - by rewrite count_running.
  - intros key. rewrite count_running by done. apply Hd.
Qed.

Lemma job_step_wf s s' : jobs_wf s → job_step s s' → jobs_wf s'.
Proof.
  intros Hwf Hstep. destruct Hstep as [s device write|s i device write Hi|s j Hr|s n Hn|s n resource full Hn
    |s i l Hi|s i l resource j Hi Hr|s i resource full j Hi Hj|s i resource full Hi|s].
  - by apply submit_wf.
  - by eapply call_done_wf.
  - unfold reserve_resource, bind, gets in Hr. cbn in Hr.
    destruct (sem_try_acquire (jb_resources (js_jobs s))) as [v|] eqn:Hv; [|done]. injection Hr as <-.
    apply sem_acquire_some in Hv. destruct Hwf as [Hs Hc Hres Hd Hl Ho].
    constructor; simpl; [by intros w; specialize (Hs w); destruct w|done|lia|done..].
  - destruct Hwf as [Hs Hc Hres Hd Hl Ho].
    constructor; simpl; [by intros w; specialize (Hs w); destruct w|done|rewrite sem_release_permits; lia|done..].
  - destruct Hwf as [Hs Hc Hres Hd Hl Ho].
    constructor; simpl; [done|done|lia|done|by constructor|by rewrite Ho].
  - by apply drop_wf.
  - by eapply release_now_wf.
  - by eapply cleanup_begin_wf.
  - by eapply cleanup_finish_wf.
  - by apply reap_wf.
Qed.
Lemma jobs_reachable_wf s : jobs_reachable s → jobs_wf s.
Proof. induction 1; [apply jobs_new_wf|by eapply job_step_wf]. Qed.

(** ** What the executor promises *)

(** C35. The limits of the executor hold in every state it can reach: at most
    four reading and two writing calls run, at most two and one of a device, at
    most two releases run and at most 128 resources are reserved, leased or being
    released; and each resource the host ever opened is in exactly one place: a
    lease, a cleanup, or released. *)
Theorem jobs_bounded (s : JobSys) :
  jobs_reachable s →
  (∀ write, count (is_call write) (jb_tasks s.(js_jobs)) <= slot_limit write)
  ∧ (∀ key, count (is_call_of key) (jb_tasks s.(js_jobs)) <= device_slots key.2)
  ∧ count is_cleaning (jb_tasks s.(js_jobs)) <= CLEANUP_SLOTS
  ∧ s.(js_reserved) + length s.(js_leases) + length (cleanups (jb_tasks s.(js_jobs))) <= MAX_RESOURCES
  ∧ s.(js_opened) ≡ₚ held s.(js_leases) ++ cleanups (jb_tasks s.(js_jobs)) ++ s.(js_released).
Proof.
  intros [Hs Hc Hr Hd Hl Ho]%jobs_reachable_wf. split_and!; [| |lia|lia|done].
  - intros write. specialize (Hs write). lia.
  - intros key. specialize (Hd key). destruct (_ !! key); [lia|]. rewrite Hd. lia.
Qed.

(** A call is refused only at a limit: [submit_device] accepts it exactly when
    the device and the executor have a slot of its kind left, and a refusal
    starts nothing. *)
Theorem submit_exact (s : JobSys) device write :
  jobs_reachable s →
  let r := submit_device device write s.(js_jobs) in
  (r.1 = Ok tt ↔ count (is_call_of (device, write)) (jb_tasks s.(js_jobs)) < device_slots write
                 ∧ count (is_call write) (jb_tasks s.(js_jobs)) < slot_limit write)
  ∧ (r.1 = Ok tt ∨ r.1 = Err "busy" ∧ jb_tasks r.2 = jb_tasks s.(js_jobs)).
Proof.
  intros [Hs Hc Hr Hd Hl Ho]%jobs_reachable_wf r. pose proof (submit_spec device write s.(js_jobs)) as Hspec.
  cbn zeta in Hspec. fold r in Hspec.
  pose proof (devices_default _ _ device write (devices_purge _ _ Hd)) as [Hst Hpe]. cbn zeta in Hst, Hpe.
  specialize (Hs write). set (d := default _ _) in *. clearbody d r.
  destruct (sem_try_acquire (ds_sem d)) as [permit|] eqn:Hacq.
  - apply sem_acquire_some in Hacq. destruct (sem_try_acquire (get_slots _ _)) as [slots|] eqn:Hg; subst r; simpl.
    + apply sem_acquire_some in Hg. split; [|by left]. split; [lia|done].
    + apply sem_acquire_none in Hg. split; [|by right]. split; [done|lia].
  - apply sem_acquire_none in Hacq. subst r. simpl. split; [|by right]. split; [done|lia].
Qed.

(** When [drain] returns, the executor is idle: every slot is free, and what
    the host opened is either leased or has been released. *)
Theorem drained_idle (s : JobSys) :
  jobs_reachable s → drained s.(js_jobs) = true →
  (∀ write, sem_permits (get_slots write s.(js_jobs)) = slot_limit write)
  ∧ sem_permits (jb_cleanup_slots s.(js_jobs)) = CLEANUP_SLOTS
  ∧ sem_permits (jb_resources s.(js_jobs)) + s.(js_reserved) + length s.(js_leases) = MAX_RESOURCES
  ∧ s.(js_opened) ≡ₚ held s.(js_leases) ++ s.(js_released).
Proof.
  intros [Hs Hc Hr Hd Hl Ho]%jobs_reachable_wf Hdr%bool_decide_eq_true.
  change (running (jb_tasks (js_jobs s)) = []) in Hdr.
  assert (∀ p, p Finished = false → count p (jb_tasks (js_jobs s)) = 0) as Hcount.
  { intros p Hp. by rewrite <-count_running, Hdr. }
  rewrite <-cleanups_running, Hdr in Hr, Ho. simpl in *. rewrite Hcount in Hc by done.
  split_and!; [|lia|lia|done]. intros write. specialize (Hs write). rewrite Hcount in Hs by done. lia.
Qed.
End JobsFacts.

(** ** A phone's three reads, computed *)

Definition demo_jobs_start : JobSys := mkJobSys jobs_new 0 [] [] [].
Definition demo_submit (s : JobSys) : JobSys :=
  with_jobs (submit_device "phone" false s.(js_jobs)).2 s.
Definition demo_jobs : JobSys := demo_submit (demo_submit demo_jobs_start).

Lemma demo_jobs_reachable : jobs_reachable demo_jobs.
Proof. do 2 (eapply jobs_next; [|apply job_submit]). constructor. Qed.

Lemma jobs_bounded_witness :
  count (is_call false) (jb_tasks demo_jobs.(js_jobs)) = 2
  ∧ count (is_call false) (jb_tasks demo_jobs.(js_jobs)) <= slot_limit false.
Proof.
  split; [vm_compute; reflexivity|]. exact (proj1 (jobs_bounded demo_jobs demo_jobs_reachable) false).
Defined.

Lemma submit_exact_witness :
  (submit_device "phone" false demo_jobs.(js_jobs)).1 = Err "busy"
  ∧ ((submit_device "tablet" false demo_jobs.(js_jobs)).1 = Ok tt
     ↔ count (is_call_of ("tablet", false)) (jb_tasks demo_jobs.(js_jobs)) < device_slots false
       ∧ count (is_call false) (jb_tasks demo_jobs.(js_jobs)) < slot_limit false).
Proof.
  split; [vm_compute; reflexivity|].
  exact (proj1 (submit_exact demo_jobs "tablet" false demo_jobs_reachable)).
Defined.

(** One resource, opened, dropped, released. *)
Definition demo_leased : JobSys :=
  mkJobSys (reserve_resource jobs_new).2 0 [mkLease (Some (Observe "s")) None] [Observe "s"] [].
Definition demo_cleaning : JobSys :=
  mkJobSys (lease_drop (mkLease (Some (Observe "s")) None) demo_leased.(js_jobs)) 0 [] [Observe "s"] [].
Definition demo_begun : Jobs := default jobs_new (cleanup_begin demo_cleaning.(js_jobs)).
Definition demo_released : JobSys :=
  mkJobSys (cleanup_finish (at_task 0 Finished (at_task 0 (CleanupRunning (Observe "s") None) demo_begun)))
    0 [] [Observe "s"] [Observe "s"].

Lemma demo_released_reachable : jobs_reachable demo_released.
Proof.
  assert (jobs_reachable demo_leased) as H1.
  { set (s1 := mkJobSys (reserve_resource jobs_new).2 1 [] [] []).
    apply (jobs_next s1); [|exact (job_open s1 0 (Observe "s") None eq_refl)].
    apply (jobs_next demo_jobs_start); [constructor|].
    apply (job_reserve demo_jobs_start). vm_compute. reflexivity. }
  assert (jobs_reachable demo_cleaning) as H2.
  { eapply jobs_next; [exact H1|]. apply (job_drop demo_leased 0). reflexivity. }
  eapply jobs_next; [eapply jobs_next; [exact H2|]|].
  - apply (job_cleanup_begin demo_cleaning 0 (Observe "s") None demo_begun); vm_compute; reflexivity.
  - apply (job_cleanup_finish (with_jobs (at_task 0 (CleanupRunning (Observe "s") None) demo_begun) demo_cleaning)
      0 (Observe "s") None). vm_compute. reflexivity.
Qed.

Lemma drained_idle_witness :
  drained demo_released.(js_jobs) = true
  ∧ sem_permits (jb_resources demo_released.(js_jobs)) + 0 + 0 = MAX_RESOURCES
  ∧ js_opened demo_released ≡ₚ held (js_leases demo_released) ++ js_released demo_released.
Proof.
  split; [vm_compute; reflexivity|].
  exact (proj2 (proj2 (drained_idle demo_released demo_released_reachable ltac:(vm_compute; reflexivity)))).
Defined.
