(* ===== verification/Herdr.v ===== *)
(** * [herdr.rs]: the closed boundary to the terminal host

    Only allowlisted, running sessions are reached, and a snapshot leaves as an
    explicit projection.  The host behind [HerdrPort] is a parameter: any state,
    any answers. *)

From stdpp Require Import base gmap strings list.
From Stdlib Require Import ZArith Lia.
From S2P Require Import Prelude Rust Externals.

Local Open Scope Z_scope.

Definition SNAPSHOT_BYTES : Z := 2 * 1024 * 1024.

(** The fields of the host's [HerdrNamedSession] the gateway reads. *)
Record NamedSession := mkNamedSession { ns_name : string; ns_default : bool; ns_running : bool }.

(** [trait HerdrPort], the calls the reads make. *)
Class HerdrPort (P : Type) := {
  port_sessions : M P string (list NamedSession);
  port_snapshot : string → M P string Value;
}.

(** [clean_environment], on the names of the environment's variables *)
Definition to_ascii_upper (s : string) : string :=
  of_bytes ((λ b, if is_ascii_lowercase b then b - 32 else b) <$> bytes s).
Definition clean_environment (names : list string) : option string :=
  if existsb (λ name, starts_with "HERDR_" (to_ascii_upper name)) names
  then Some "herdr-environment" else None.

(** [host_error] *)
Definition host_error (error : string) : string :=
  if starts_with "tooLarge:" error then "payload-too-large"
  else if starts_with "agent_blocked:" error then "agent-blocked"
  else if starts_with "ioTimeout:" error then "stream-stalled"
  else "herdr-unavailable".

(** [valid_id] *)
Definition valid_id (value : string) : bool :=
  negb (bool_decide (value = EmptyString))
  && (len value <=? 128)
  && bool_decide (trim_chars (chars value) = chars value)
  && negb (starts_with "-" value)
  && negb (existsb is_control (chars value)).

(** ** Reading a snapshot *)

(** A JSON string is a UTF-8 string; [json!] of an [Option] is [null] for [None]. *)
Definition opt_string (o : option string) : Value :=
  match o with Some s => VString s | None => VNull end.
Definition text (value : Value) (key : string) : option string := as_str (value_index key value).
Definition status (value : Value) : string :=
  match as_str value with
  | Some s => if bool_decide (s ∈ ["idle"; "working"; "blocked"; "done"]) then s else "unknown"
  | None => "unknown"
  end.
Definition array (value : Value) (key : string) : list Value :=
  default [] (as_array (value_index key value)).
Definition u16_of (v : Value) : option Z :=
  n ← as_u64 v; if n <=? 65535 then Some n else None.

(** [Iterator::reduce] *)
Definition reduce {A} (f : A → A → A) (l : list A) : option A :=
  match l with [] => None | x :: l => Some (foldl f x l) end.

(** [rect_for] *)
Definition rect_of (p : Value) : option (Z * Z) :=
  cols ← u16_of (value_index "width" (value_index "rect" p));
  rows ← u16_of (value_index "height" (value_index "rect" p));
  Some (cols, rows).
Definition rect_for (snapshot : Value) (pane : string) : option (Z * Z) :=
  reduce (λ a b, (Z.max a.1 b.1, Z.max a.2 b.2))
    (omap rect_of (List.filter (λ p, value_is (value_index "pane_id" p) pane)
      (array snapshot "layouts" ≫= λ layout, array layout "panes"))).

(** [pane_ids] *)
Definition pane_ids (snapshot : Value) : list string :=
  List.filter valid_id (omap (λ p, text p "pane_id") (array snapshot "panes")).

(** [observe_geometry] *)
Definition observe_geometry (snapshot : Value) (target : string) : string + (string * Z * Z) :=
  match List.find (λ p, value_is (value_index "pane_id" p) target
                        || value_is (value_index "terminal_id" p) target) (array snapshot "panes") with
  | None => inl "target-not-found"
  | Some pane =>
      match text pane "pane_id" with
      | Some id =>
          if negb (valid_id id) then inl "target-not-found"
          else match rect_for snapshot id with
               | Some (cols, rows) =>
                   if (0 <? cols) && (0 <? rows) then inr (id, cols, rows)
                   else inl "geometry-unavailable"
               | None => inl "geometry-unavailable"
               end
      | None => inl "target-not-found"
      end
  end.

(** [normalize_snapshot] *)
Definition normal_workspace (w : Value) : Value := VObject
  [("id", opt_string (text w "workspace_id")); ("label", opt_string (text w "label"));
   ("status", VString (status (value_index "agent_status" w)))].
Definition normal_tab (t : Value) : Value := VObject
  [("id", opt_string (text t "tab_id")); ("workspaceId", opt_string (text t "workspace_id"));
   ("label", opt_string (text t "label"))].
Definition normal_pane (raw p : Value) : Value :=
  let rect := id ← text p "pane_id"; rect_for raw id in
  VObject
  [("id", opt_string (text p "pane_id")); ("tabId", opt_string (text p "tab_id"));
   ("workspaceId", opt_string (text p "workspace_id"));
   ("status", VString (status (value_index "agent_status" p)));
   ("label", opt_string (text p "label"));
   ("layout", match rect with
              | Some (cols, rows) => VObject [("cols", VNumber cols); ("rows", VNumber rows)]
              | None => VNull
              end)].
Definition normal_agent (a : Value) : Value := VObject
  [("paneId", opt_string (text a "pane_id")); ("name", opt_string (text a "name"));
   ("agent", opt_string (match text a "display_agent" with
                         | Some s => Some s | None => text a "agent" end));
   ("status", VString (status (value_index "agent_status" a)))].
Definition normal_value (session : string) (raw : Value) : Value := VObject
  [("session", VString session);
   ("workspaces", VArray (normal_workspace <$> array raw "workspaces"));
   ("tabs", VArray (normal_tab <$> array raw "tabs"));
   ("panes", VArray (normal_pane raw <$> array raw "panes"));
   ("agents", VArray (normal_agent <$> array raw "agents"))].
Definition normalize_snapshot `{Json} (session : string) (raw : Value) : string + Value :=
  let value := normal_value session raw in
  match json_to_vec value with
  | None => inl "herdr-unavailable"
  | Some b => if SNAPSHOT_BYTES <? len b then inl "payload-too-large" else inr value
  end.

(** [closed_reason] *)
Definition closed_reason (reason : option string) : string :=
  match reason with
  | Some s =>
      if bool_decide (s = "terminal attach taken over") then "taken-over"
      else if bool_decide (s = "server is shutting down") then "session-stopped"
      else if starts_with "terminal attach failed: " s
              && ends_with " already has an attached client; retry with --takeover" s
      then "owned-elsewhere" else "stream-closed"
  | None => "stream-closed"
  end.

(** ** [Reads] *)
Section Reads.
Context `{HerdrPort P, Json} (allowlist : gset string).

(** [Reads::sessions] *)
Definition reads_sessions : M P string Value :=
  if bool_decide (allowlist = ∅) then ret (VObject [("sessions", VArray [])])
  else
    let! sessions := port_sessions in
    ret (VObject [("sessions", VArray
      ((λ s, VObject [("name", VString (ns_name s)); ("default", VBool (ns_default s))])
       <$> List.filter (λ s, ns_running s && valid_id (ns_name s)
                             && bool_decide (ns_name s ∈ allowlist)) sessions))]).

(** [Reads::running] *)
Definition session_running (session : string) : M P string unit :=
  reject_if (negb (valid_id session) || negb (bool_decide (session ∈ allowlist))) "session-not-allowed";;
  let! sessions := port_sessions in
  let! named := ok_or "session-stopped" (List.find (λ s, bool_decide (ns_name s = session)) sessions) in
  reject_if (negb (ns_running named)) "session-stopped";;
  reject_if (bool_decide (session = "live")
    && match (match List.find ns_default sessions with Some s => Some s | None => head sessions end) with
       | None => true
       | Some s => negb (bool_decide (ns_name s = session))
       end) "session-not-allowed".

(** [Reads::after_error] *)
Definition after_error (session error : string) : M P string string :=
  let! r := attempt (E' := string) (session_running session) in
  match r with
  | inl e => if bool_decide (e = "session-stopped") then ret "session-stopped" else ret error
  | inr _ => ret error
  end.

(** [Reads::snapshot] *)
Definition reads_snapshot (session : string) : M P string Value :=
  session_running session;;
  let! raw := attempt (E' := string) (port_snapshot session) in
  match raw with
  | inl e => let! e := after_error session e in throw e
  | inr raw => match normalize_snapshot session raw with inl e => throw e | inr v => ret v end
  end.
End Reads.

Example valid_id_pane : valid_id "w:p" = true.
Proof. reflexivity. Qed.
Example valid_id_option : valid_id "--help" = false.
Proof. reflexivity. Qed.
Example closed_reason_owned : closed_reason (Some
  "terminal attach failed: pane 3 already has an attached client; retry with --takeover") = "owned-elsewhere".
Proof. reflexivity. Qed.
