(* ===== verification/HerdrFacts.v ===== *)
(** * The host boundary keeps its promises *)

From stdpp Require Import base gmap strings list.
From Stdlib Require Import ZArith Lia.
From S2P Require Import Prelude Rust Externals Crates Herdr.

Local Open Scope Z_scope.

(** ** Which session is reached *)
Section Sessions.
Context `{HerdrPort P, Json} (allowlist : gset string).

(** What [running] establishes of the host's answer. *)
Definition session_ok (session : string) (sessions : list NamedSession) : Prop :=
  (∃ s, List.find (λ s, bool_decide (ns_name s = session)) sessions = Some s ∧ ns_running s = true)
  ∧ (session = "live" → ∃ s, match List.find ns_default sessions with
       | Some s => Some s | None => head sessions end = Some s ∧ ns_name s = session).

Lemma running_spec session p :
  wp (session_running allowlist session) (λ r p',
    ((valid_id session = false ∨ session ∉ allowlist) ∧ r = Err "session-not-allowed" ∧ p' = p)
    ∨ (valid_id session = true ∧ session ∈ allowlist ∧ p' = (port_sessions p).2 ∧
       ∀ u, r = Ok u → ∃ sessions, (port_sessions p).1 = Ok sessions ∧ session_ok session sessions)) p.
Proof.
  unfold session_running. apply wp_bind, wp_reject_if. destruct (valid_id session) eqn:Hv; simpl; [|by left; auto].
  case_bool_decide as Hin; simpl; [|by left; auto]. apply wp_bind, run_wp. intros r p' Hr. rewrite Hr. simpl.
  assert (∀ r' : outcome string unit, (∀ u, r' = Ok u → ∃ sessions, r = Ok sessions ∧ session_ok session sessions) →
    (true = false ∨ session ∉ allowlist) ∧ r' = Err "session-not-allowed" ∧ p' = p ∨
    true = true ∧ session ∈ allowlist ∧ p' = p' ∧
      ∀ u, r' = Ok u → ∃ sessions, r = Ok sessions ∧ session_ok session sessions) as Hright
    by (intros r' Hr'; right; auto).
  destruct r as [sessions|e|]; [|by apply Hright..].
  apply wp_bind, wp_ok_or. destruct (List.find _ sessions) as [s|] eqn:Hf; [|by apply Hright].
  apply wp_bind, wp_reject_if. destruct (ns_running s) eqn:Hrun; simpl; [|by apply Hright].
  apply wp_reject_if. case_bool_decide as Hlive; simpl.
  - destruct (match List.find ns_default sessions with Some s => Some s | None => head sessions end)
      as [s'|] eqn:Hd; [|by apply Hright].
    case_bool_decide as Hname; simpl; [|by apply Hright].
    apply Hright. intros _ _. exists sessions. split; [done|]. split; [by eauto|]. intros _. by exists s'.
  - apply Hright. intros _ _. exists sessions. split; [done|]. split; [by eauto|]. by intros.
Qed.

(** A snapshot is only of an allowed session that runs.  When
    [Reads::snapshot] answers, the session is allowlisted and well formed, the
    host listed it as running (and [live] is the default session itself, not an
    alias of another), and the answer is the projection of what the host returned
    for that session, within two megabytes; a session that is not allowed never
    reaches the host. *)
Theorem snapshot_guarded session p :
  (valid_id session = false ∨ session ∉ allowlist →
    reads_snapshot allowlist session p = (Err "session-not-allowed", p))
  ∧ ∀ v p', reads_snapshot allowlist session p = (Ok v, p') →
    valid_id session = true ∧ session ∈ allowlist
    ∧ (∃ sessions, (port_sessions p).1 = Ok sessions ∧ session_ok session sessions)
    ∧ ∃ raw b, port_snapshot session (port_sessions p).2 = (Ok raw, p')
      ∧ v = normal_value session raw ∧ json_to_vec v = Some b ∧ len b <= SNAPSHOT_BYTES.
Proof.
  pose proof (running_spec session p) as Hrun. unfold wp in Hrun.
  unfold reads_snapshot, bind. destruct (session_running allowlist session p) as [r p1]. simpl in Hrun.
  split.
  - intros Hno. destruct Hrun as [(_ & -> & ->)|(Hv & Hin & _)]; [done|]. destruct Hno; congruence || done.
  - intros v p' Hr. destruct r as [u| |]; [|done..].
    destruct Hrun as [(_ & ? & _)|(Hv & Hin & -> & Hok)]; [done|]. specialize (Hok u eq_refl).
    split_and!; [done..|]. unfold attempt in Hr.
    destruct (port_snapshot session (port_sessions p).2) as [[raw|e|] p2] eqn:Hsnap; [|
      by destruct (after_error allowlist session e p2) as [[]]|done].
    unfold normalize_snapshot in Hr. destruct (json_to_vec _) as [b|] eqn:Hj; [|done].
    destruct (SNAPSHOT_BYTES <? len b) eqn:Hlen; [done|]. injection Hr as <- <-. apply Z.ltb_ge in Hlen.
    by exists raw, b.
Qed.
End Sessions.

(** ** What a snapshot reveals *)

Fixpoint strings_of (v : Value) : list string :=
  match v with
  | VString s => [s]
  | VArray l => foldr (λ v acc, strings_of v ++ acc) [] l
  | VObject l => foldr (λ e acc, strings_of e.2 ++ acc) [] l
  | _ => []
  end.
Definition STATUSES : list string := ["idle"; "working"; "blocked"; "done"; "unknown"].
Definition texts (keys : list string) (v : Value) : list string :=
  keys ≫= λ k, option_list (text v k).
(** The texts of the host's snapshot that a phone may see. *)
Definition visible (raw : Value) : list string :=
  (array raw "workspaces" ≫= texts ["workspace_id"; "label"])
  ++ (array raw "tabs" ≫= texts ["tab_id"; "workspace_id"; "label"])
  ++ (array raw "panes" ≫= texts ["pane_id"; "tab_id"; "workspace_id"; "label"])
  ++ (array raw "agents" ≫= texts ["pane_id"; "name"; "display_agent"; "agent"]).

Lemma strings_of_list {A} (f : A → Value) (l : list A) s :
  s ∈ strings_of (VArray (f <$> l)) → ∃ x, x ∈ l ∧ s ∈ strings_of (f x).
Proof.
  induction l as [|x l IH]; csimpl; [by intros ?%elem_of_nil|].
  intros [Hs|Hs]%elem_of_app; [exists x; split; [by left|done]|].
  destruct (IH Hs) as (y & ? & ?). exists y. split; [by right|done].
Qed.
Lemma strings_opt o s : s ∈ strings_of (opt_string o) ↔ s ∈ option_list o.
Proof. by destruct o. Qed.
Lemma status_known v : status v ∈ STATUSES.
Proof.
  unfold status, STATUSES. destruct (as_str v) as [s|]; [case_bool_decide; set_solver|set_solver].
Qed.

Ltac projected Hs :=
  cbn -[opt_string status text rect_for] in Hs; unfold texts; cbn -[text];
  repeat first [rewrite elem_of_app in Hs | rewrite strings_opt in Hs | rewrite elem_of_cons in Hs
               | rewrite elem_of_nil in Hs]; rewrite ?elem_of_app;
  repeat match type of Hs with
         | _ ∨ _ => destruct Hs as [Hs|Hs]
         | False => destruct Hs
         end;
  try (left; rewrite Hs; apply status_known);
  try (right; tauto).

Lemma strings_workspace w s : s ∈ strings_of (normal_workspace w) →
  s ∈ STATUSES ∨ s ∈ texts ["workspace_id"; "label"] w.
Proof. intros Hs. projected Hs. Qed.
Lemma strings_tab t s : s ∈ strings_of (normal_tab t) →
  s ∈ STATUSES ∨ s ∈ texts ["tab_id"; "workspace_id"; "label"] t.
Proof. intros Hs. projected Hs. Qed.
Lemma strings_pane raw p s : s ∈ strings_of (normal_pane raw p) →
  s ∈ STATUSES ∨ s ∈ texts ["pane_id"; "tab_id"; "workspace_id"; "label"] p.
Proof.
  intros Hs. projected Hs. destruct (text p "pane_id") as [id|]; simpl in Hs; [|by apply elem_of_nil in Hs].
  destruct (rect_for raw id) as [[cols rows]|]; simpl in Hs; by apply elem_of_nil in Hs.
Qed.
Lemma strings_agent a s : s ∈ strings_of (normal_agent a) →
  s ∈ STATUSES ∨ s ∈ texts ["pane_id"; "name"; "display_agent"; "agent"] a.
Proof. intros Hs. projected Hs. destruct (text a "display_agent"); tauto. Qed.

(** The strings of one of the lists. *)
Lemma strings_each (f : Value → Value) keys l s :
  (∀ x, s ∈ strings_of (f x) → s ∈ STATUSES ∨ s ∈ texts keys x) →
  s ∈ strings_of (VArray (f <$> l)) → s ∈ STATUSES ∨ s ∈ l ≫= texts keys.
Proof.
  intros Hf (x & Hx & Hs)%strings_of_list. destruct (Hf x Hs) as [?|?]; [by left|right].
  apply list_elem_of_bind. eauto.
Qed.

(** The projection leaks nothing else.  Every text in a normalized snapshot is
    the session's name, one of the five status words, or one of the listed texts
    of the host's snapshot: no path, command, title or other field of it. *)
Theorem snapshot_projection session raw s :
  s ∈ strings_of (normal_value session raw) →
  s = session ∨ s ∈ STATUSES ∨ s ∈ visible raw.
Proof.
  unfold normal_value. intros Hs.
  change (s ∈ strings_of (VString session) ++ strings_of (VArray (normal_workspace <$> array raw "workspaces"))
    ++ strings_of (VArray (normal_tab <$> array raw "tabs"))
    ++ strings_of (VArray (normal_pane raw <$> array raw "panes"))
    ++ strings_of (VArray (normal_agent <$> array raw "agents")) ++ []) in Hs.
  unfold visible. rewrite !elem_of_app in *. destruct Hs as [Hs|[Hs|[Hs|[Hs|[Hs|Hs]]]]].
  - left. by apply list_elem_of_singleton in Hs.
  - apply (strings_each _ _ _ _ (λ w, strings_workspace w s)) in Hs. tauto.
  - apply (strings_each _ _ _ _ (λ w, strings_tab w s)) in Hs. tauto.
  - apply (strings_each _ _ _ _ (λ w, strings_pane raw w s)) in Hs. tauto.
  - apply (strings_each _ _ _ _ (λ w, strings_agent w s)) in Hs. tauto.
  - by apply elem_of_nil in Hs.
Qed.

(** ** The size of an observed pane *)

Lemma u16_of_range v n : u16_of v = Some n → 0 <= n <= 65535.
Proof.
  unfold u16_of, as_u64. destruct v as [| |m| | |]; simpl; try done.
  destruct (in_range 0 m u64_max) eqn:Hr; simpl; [|done]. destruct (m <=? 65535) eqn:Hm; [|done].
  intros [= <-]. unfold in_range in Hr. lia.
Qed.
Lemma rect_of_range p c r : rect_of p = Some (c, r) → 0 <= c <= 65535 ∧ 0 <= r <= 65535.
Proof.
  unfold rect_of. destruct (u16_of (value_index "width" _)) as [c'|] eqn:Hc; simpl; [|done].
  destruct (u16_of (value_index "height" _)) as [r'|] eqn:Hr; simpl; [|done]. intros [= <- <-].
  split; by eapply u16_of_range.
Qed.

(** The maximum in both dimensions. *)
Lemma reduce_max (l : list (Z * Z)) m :
  reduce (λ a b, (Z.max a.1 b.1, Z.max a.2 b.2)) l = Some m →
  (∀ x, x ∈ l → x.1 <= m.1 ∧ x.2 <= m.2) ∧ (∃ x, x ∈ l ∧ x.1 = m.1) ∧ (∃ x, x ∈ l ∧ x.2 = m.2).
Proof.
  destruct l as [|x l]; [done|]. simpl. intros [= <-]. revert x. induction l as [|y l IH]; intros x; simpl.
  - split; [by intros z ->%list_elem_of_singleton|]. split; exists x; (split; [left|done]).
  - destruct (IH (Z.max x.1 y.1, Z.max x.2 y.2)) as (Hmax & (a & Ha & Ha1) & (b & Hb & Hb2)). simpl in *.
    pose proof (Hmax (Z.max x.1 y.1, Z.max x.2 y.2) ltac:(left)) as Hxy. simpl in Hxy.
    assert (∀ z, z ∈ (Z.max x.1 y.1, Z.max x.2 y.2) :: l → z = (Z.max x.1 y.1, Z.max x.2 y.2) ∨ z ∈ x :: y :: l)
      as Hsub by set_solver.
    split_and!.
    + intros z [->|[->|Hz]%elem_of_cons]%elem_of_cons; [lia..|]. apply Hmax. by right.
    + destruct (Hsub a Ha) as [->|Hin]; [|by exists a]. simpl in *.
      destruct (Z.max_spec x.1 y.1) as [[_ E]|[_ E]]; rewrite E in *; [exists y|exists x]; split; try done; set_solver.
    + destruct (Hsub b Hb) as [->|Hin]; [|by exists b]. simpl in *.
      destruct (Z.max_spec x.2 y.2) as [[_ E]|[_ E]]; rewrite E in *; [exists y|exists x]; split; try done; set_solver.
Qed.

(** A terminal is only opened at a size the layout has.  What
    [observe_geometry] answers is a well-formed pane of the snapshot that the
    target names, with positive dimensions of 16 bits that are the largest width
    and the largest height the layouts show it with. *)
Theorem geometry_sound snapshot target id cols rows :
  observe_geometry snapshot target = inr (id, cols, rows) →
  valid_id id = true
  ∧ (∃ p, p ∈ array snapshot "panes" ∧ text p "pane_id" = Some id
     ∧ (text p "pane_id" = Some target ∨ text p "terminal_id" = Some target))
  ∧ 0 < cols <= 65535 ∧ 0 < rows <= 65535
  ∧ (∀ layout p c r, layout ∈ array snapshot "layouts" → p ∈ array layout "panes" →
      text p "pane_id" = Some id → rect_of p = Some (c, r) → c <= cols ∧ r <= rows).
Proof.
  unfold observe_geometry. destruct (List.find _ _) as [pane|] eqn:Hfind; [|done].
  destruct (text pane "pane_id") as [id'|] eqn:Hid; [|done].
  destruct (valid_id id') eqn:Hv; simpl; [|done].
  destruct (rect_for snapshot id') as [[c r]|] eqn:Hrect; [|done].
  destruct ((0 <? c) && (0 <? r)) eqn:Hpos; [|done]. intros [= <- <- <-].
  apply List.find_some in Hfind as [Hin Hname]. apply list_elem_of_In in Hin.
  unfold rect_for in Hrect. apply reduce_max in Hrect as (Hmax & (x & Hx & Hx1) & (y & Hy & Hy2)).
  split_and!; [done| |lia| |lia| |].
  - exists pane. split; [done|]. split; [done|]. unfold value_is, text in *.
    apply orb_true_iff in Hname as [Hn%bool_decide_eq_true|Hn%bool_decide_eq_true]; [by left|by right].
  - apply list_elem_of_omap in Hx as (p & _ & Hp). destruct x. apply rect_of_range in Hp. simpl in *. lia.
  - apply list_elem_of_omap in Hy as (p & _ & Hp). destruct y. apply rect_of_range in Hp. simpl in *. lia.
  - intros layout p c' r' Hl Hp Hpid Hr. apply (Hmax (c', r')). apply list_elem_of_omap. exists p. split; [|done].
    apply list_elem_of_In, List.filter_In. split.
    + apply list_elem_of_In, list_elem_of_bind. eauto.
    + unfold value_is, text in *. by apply bool_decide_eq_true.
Qed.

(** ** A host with one running session, computed *)

Definition demo_snapshot : Value := VObject
  [("panes", VArray [VObject [("pane_id", VString "w:p"); ("cwd", VString "/home/ann");
                              ("agent_status", VString "busy")]]);
   ("layouts", VArray [VObject [("panes", VArray
     [VObject [("pane_id", VString "w:p");
               ("rect", VObject [("width", VNumber 80); ("height", VNumber 24)])]])]])].
Definition demo_port : HerdrPort unit := {|
  port_sessions := ret [mkNamedSession "work" true true];
  port_snapshot := λ _, ret demo_snapshot;
|}.

Lemma snapshot_guarded_witness :
  reads_snapshot (H := demo_port) {["work"]} "other" () = (Err "session-not-allowed", ())
  ∧ ∃ v, reads_snapshot (H := demo_port) {["work"]} "work" () = (Ok v, ()) ∧ "work" ∈ ({["work"]} : gset string).
Proof.
  split.
  - apply (snapshot_guarded (H := demo_port) {["work"]} "other" ()). right. set_solver.
  - exists (normal_value "work" demo_snapshot). split; [vm_compute; reflexivity|].
    apply (proj2 (snapshot_guarded (H := demo_port) {["work"]} "work" ())
      (normal_value "work" demo_snapshot) ()). vm_compute. reflexivity.
Defined.

Lemma snapshot_projection_witness :
  "w:p" ∈ strings_of (normal_value "work" demo_snapshot)
  ∧ ("w:p" = "work" ∨ "w:p" ∈ STATUSES ∨ "w:p" ∈ visible demo_snapshot).
Proof.
  assert ("w:p" ∈ strings_of (normal_value "work" demo_snapshot)) as Hin.
  { apply (bool_decide_unpack ("w:p" ∈ strings_of (normal_value "work" demo_snapshot))). vm_compute. exact I. }
  split; [exact Hin|]. exact (snapshot_projection "work" demo_snapshot "w:p" Hin).
Defined.

Lemma geometry_sound_witness :
  observe_geometry demo_snapshot "w:p" = inr ("w:p", 80, 24) ∧ 0 < 80 <= 65535 ∧ 0 < 24 <= 65535.
Proof.
  assert (observe_geometry demo_snapshot "w:p" = inr ("w:p", 80, 24)) as Hg by (vm_compute; reflexivity).
  split; [exact Hg|]. destruct (geometry_sound _ _ _ _ _ Hg) as (_ & _ & Hc & Hr & _). by split.
Defined.
