(* ===== verification/Push.v ===== *)
(** * [push.rs]: which devices may be pushed to, and when

    The gateway never sends a push: it keeps the endpoint ids the desktop stored,
    follows the agents of the allowlisted sessions, and asks the desktop for one
    push when an agent becomes blocked or done. *)
From stdpp Require Import base gmap strings list sorting fin_maps fin_sets.
From Stdlib Require Import ZArith Lia.
From S2P Require Import Prelude Rust Externals Crates Clock Devices Admin Events World Session.
From S2P Require Import WriteAudit Herdr.
Local Open Scope Z_scope.

Definition ENDPOINT_BYTES : Z := 2048.
Definition PUSH_SERVICES : list string :=
  ["push.apple.com"; "fcm.googleapis.com"; "updates.push.services.mozilla.com"; "notify.windows.com"].
Definition MAX_DEVICES : nat := 64.
Definition MAX_ENDPOINTS : nat := 4.
Definition LABEL_CHARS : nat := 128.

(** ** Endpoints *)

(** The piece before the first ['/'] or ['?']. *)
Fixpoint host_of (s : string) : string :=
  match s with
  | EmptyString => EmptyString
  | String c s => if (byte c =? 47) || (byte c =? 63) then EmptyString else String c (host_of s)
  end.

(** [endpoint_ok] *)
Definition is_ascii_graphic (b : Z) : bool := in_range 33 b 126.
Definition endpoint_ok (endpoint : string) : bool :=
  match strip_prefix "https://" endpoint with
  | None => false
  | Some rest =>
      if (ENDPOINT_BYTES <? len endpoint)
         || negb (forallb is_ascii_graphic (bytes endpoint))
         || existsb (λ b, (b =? 35) || (b =? 92)) (bytes endpoint)
      then false
      else
        let host := host_of rest in
        valid_rp_id host
        && existsb (λ service, bool_decide (host = service)
             || match strip_suffix service host with
                | Some prefix => ends_with "." prefix
                | None => false
                end) PUSH_SERVICES
  end.

Section Endpoints.
Context `{Base64, Crypto}.

(** [endpoint_id] *)
Definition endpoint_id (endpoint : string) : string := encode (hash endpoint).

(** [point_ok] *)
Definition point_ok (value : string) : bool :=
  match decode 65 value with
  | Some point => bool_decide (head (bytes point) = Some 4)
  | None => false
  end.

(** [stored]: the loop over the list, with the map built so far. *)
Fixpoint stored_from (devices : gmap string (gset string)) (l : list PushDevice)
    : option (gmap string (gset string)) :=
  match l with
  | [] => Some devices
  | d :: l =>
      if negb (bool_decide (1 ≤ length d.(pd_endpoints) ≤ MAX_ENDPOINTS)%nat)
         || negb (forallb (λ id, bool_decide (is_Some (decode 32 id))) d.(pd_endpoints))
         || bool_decide (is_Some (devices !! d.(pd_device_id)))
      then None
      else stored_from (<[d.(pd_device_id) := list_to_set d.(pd_endpoints)]> devices) l
  end.
Definition stored (l : list PushDevice) : option (gmap string (gset string)) :=
  if bool_decide (MAX_DEVICES < length l)%nat then None else stored_from ∅ l.

(** ** [Push] *)

(** [pu_acks] are the requests that wait, [pu_answers] what was sent to the
    waiting end of each; the sessions are only iterated to start their watchers. *)
Record Push := mkPush {
  pu_vapid : option string;
  pu_sessions : gset string;
  pu_devices : gmap string (gset string);
  pu_active : bool;
  pu_acks : gset Z;
  pu_answers : gmap Z bool;
  pu_next_request : Z;
}.
Definition set_push_devices v p := mkPush p.(pu_vapid) p.(pu_sessions) v
  (negb (bool_decide (v = ∅))) p.(pu_acks) p.(pu_answers) p.(pu_next_request).
Definition set_acks v p := mkPush p.(pu_vapid) p.(pu_sessions) p.(pu_devices) p.(pu_active)
  v p.(pu_answers) p.(pu_next_request).
Definition set_answers v p := mkPush p.(pu_vapid) p.(pu_sessions) p.(pu_devices) p.(pu_active)
  p.(pu_acks) v p.(pu_next_request).
Definition set_next_request v p := mkPush p.(pu_vapid) p.(pu_sessions) p.(pu_devices) p.(pu_active)
  p.(pu_acks) p.(pu_answers) v.

Definition keep_known (known : string → bool) (m : gmap string (gset string)) : gmap string (gset string) :=
  filter (λ e, known e.1 = true) m.

(** [Push::new] *)
Definition push_new (init : Init) : string + Push :=
  let sessions := list_to_set (List.filter valid_id init.(session_allowlist)) in
  let made vapid devices :=
    mkPush vapid sessions devices (negb (bool_decide (devices = ∅))) ∅ ∅ 1 in
  match init.(init_push) with
  | None => inr (made None ∅)
  | Some push =>
      match stored push.(pi_devices) with
      | None => inl "invalid-push"
      | Some devices =>
          if negb (point_ok push.(vapid_public_key)) then inl "invalid-push"
          else inr (made (Some push.(vapid_public_key))
            (keep_known (λ id, existsb (λ d, bool_decide (d_device_id d = id)) init.(init_devices)) devices))
      end
  end.

(** [Push::available], [Push::hello] *)
Definition push_available (p : Push) : bool := bool_decide (is_Some p.(pu_vapid)).
Definition push_hello (p : Push) : Value :=
  match p.(pu_vapid) with
  | Some key => VObject [("vapidPublicKey", VString key)]
  | None => VNull
  end.

(** [Push::replace] *)
Definition push_replace (l : list PushDevice) (known : string → bool) (p : Push) : bool * Push :=
  match stored l with
  | None => (false, p)
  | Some devices =>
      if negb (push_available p) then (false, p)
      else (true, set_push_devices (keep_known known devices) p)
  end.

(** [Push::remove] *)
Definition push_remove (id : string) (p : Push) : Push :=
  match p.(pu_devices) !! id with
  | Some _ => set_push_devices (delete id p.(pu_devices)) p
  | None => p
  end.

(** [Push::ack] *)
Definition push_ack (request : Z) (stored : bool) (p : Push) : Push :=
  if bool_decide (request ∈ p.(pu_acks))
  then set_answers (<[request := stored]> p.(pu_answers)) (set_acks (p.(pu_acks) ∖ {[request]}) p)
  else p.
End Endpoints.

(** ** The RPCs *)

Record SubscribeParams := mkSubscribeParams {
  sbp_endpoint : string; sbp_p256dh : string; sbp_auth : string }.

Section Calls.
Context `{Base64, Crypto, World W}.
(** The derived [Deserialize] of [SubscribeParams] *)
Context (parse_subscribe : Value → option SubscribeParams).

(** [subscription] *)
Definition subscription (params : Value) : option Subscription :=
  s ← parse_subscribe params;
  if negb (bool_decide (is_Some (as_object (value_index "keys" params))))
     || negb (endpoint_ok s.(sbp_endpoint))
     || negb (point_ok s.(sbp_p256dh))
     || bool_decide (decode 16 s.(sbp_auth) = None)
  then None
  else Some (mkSubscription s.(sbp_endpoint) s.(sbp_p256dh) s.(sbp_auth)).

(** [endpoint_param], [status_endpoint], [unsubscribe_endpoint]; the error is
    ["invalid-params"]. *)
Definition endpoint_param (endpoint : Value) : option string :=
  s ← as_str endpoint; if len s <=? ENDPOINT_BYTES then Some s else None.
Definition status_endpoint (params : Value) : option (option string) :=
  if is_null params then Some None
  else
    object ← as_object params;
    if bool_decide ((if bool_decide (is_Some (assoc "endpoint" object)) then 1 else 0) < length object)%nat
    then None
    else match assoc "endpoint" object with
         | None | Some VNull => Some None
         | Some endpoint => Some <$> endpoint_param endpoint
         end.
Definition unsubscribe_endpoint (params : Value) : option string :=
  object ← as_object params;
  if bool_decide (length object = 1%nat)
  then endpoint ← assoc "endpoint" object; endpoint_param endpoint
  else None.

(** [Push::subscribe] up to the future it returns: the request it waits for. *)
Definition subscribe_begin (device : string) (params : Value) : M (Push * W) string Z :=
  let! p := get in
  reject_if (negb (push_available p)) "push-unavailable";;
  let! s := ok_or "invalid-params" (subscription params) in
  let request := p.(pu_next_request) in
  update (set_next_request ((request + 1) mod (u64_max + 1)));;
  (* a channel of its own *)
  update (λ p, set_answers (delete request p.(pu_answers)) (set_acks (p.(pu_acks) ∪ {[request]}) p));;
  let! ok := try_emit (push_subscription device s request) in
  if ok then ret request
  else
    update (λ p, set_acks (p.(pu_acks) ∖ {[request]}) p);;
    throw "busy".

(** The future: the answer, or none in time. *)
Definition subscribe_finish (request : Z) : M (Push * W) string Value :=
  let! p := get in
  update (λ p, set_acks (p.(pu_acks) ∖ {[request]}) p);;
  match p.(pu_answers) !! request with
  | Some true => ret (VObject [("subscribed", VBool true)])
  | Some false => throw "push-store-failed"
  | None => throw "push-unconfirmed"
  end.

(** [Push::call] *)
Definition push_call (device method : string) (params : Value) : M (Push * W) string Value :=
  let! p := get in
  if bool_decide (method = "push.status") then
    let! endpoint := ok_or "invalid-params" (status_endpoint params) in
    let subscribed := match endpoint with
      | Some endpoint => match p.(pu_devices) !! device with
                         | Some ids => bool_decide (endpoint_id endpoint ∈ ids)
                         | None => false
                         end
      | None => false
      end in
    ret (VObject [("available", VBool (push_available p)); ("subscribed", VBool subscribed)])
  else if bool_decide (method = "push.unsubscribe") then
    reject_if (negb (push_available p)) "push-unavailable";;
    let! endpoint := ok_or "invalid-params" (unsubscribe_endpoint params) in
    let! ok := try_emit (push_unsubscription device (endpoint_id endpoint)) in
    reject_if (negb ok) "busy";;
    ret (VObject [("subscribed", VBool false)])
  else throw "unknown-method".
End Calls.

(** ** What the watcher knows of a session *)

Definition status_name (s : string) : string :=
  if bool_decide (s ∈ ["idle"; "working"; "blocked"; "done"]) then s else "unknown".

Record Notice := mkNotice {
  no_kind : string;
  no_pane : string;
  no_workspace : option string;
  no_title : string;
  no_space : option string;
}.
(** [Notice::payload] *)
Definition notice_payload (session : string) (n : Notice) : PushPayload :=
  mkPushPayload n.(no_kind) session n.(no_pane) n.(no_workspace) n.(no_title) n.(no_space).

Record Pane := mkPane {
  pn_status : string;
  pn_workspace : option string;
  pn_title : string;
  pn_space : option string;
}.
Definition set_pane_status v p := mkPane v p.(pn_workspace) p.(pn_title) p.(pn_space).

(** The closure [text] of [Pane::read]: trimmed, not empty, 128 characters. *)
Definition label_text (value : Value) : option string :=
  s ← as_str value;
  let trimmed := trim_chars (chars s) in
  if bool_decide (trimmed = []) then None else Some (of_chars (take LABEL_CHARS trimmed)).
Definition or_else {A} (a b : option A) : option A := match a with Some _ => a | None => b end.

(** [Pane::read] *)
Definition pane_read (snapshot pane : Value) (id : string) : Pane :=
  let agent := List.find (λ a, value_is (value_index "paneId" a) id) (array snapshot "agents") in
  let workspace := text pane "workspaceId" in
  mkPane
    (status_name (default "" (text pane "status")))
    workspace
    (default id (or_else
      (a ← agent; or_else (label_text (value_index "name" a)) (label_text (value_index "agent" a)))
      (label_text (value_index "label" pane))))
    (w ← workspace;
     space ← List.find (λ s, value_is (value_index "id" s) w) (array snapshot "workspaces");
     label_text (value_index "label" space)).

(** [Pane::notice] *)
Definition pane_notice (id : string) (p : Pane) : option Notice :=
  if bool_decide (p.(pn_status) ∈ ["blocked"; "done"])
  then Some (mkNotice p.(pn_status) id p.(pn_workspace) p.(pn_title) p.(pn_space)) else None.

Abbreviation Seen := (gmap string Pane).

(** [Seen::snapshot]: the loop, with the notices and the new panes so far. *)
Definition pane_id (pane : Value) : option string :=
  id ← text pane "id"; if valid_id id then Some id else None.
Fixpoint seen_panes (seen : Seen) (snapshot : Value) (l : list Value)
    (acc : list Notice * Seen) : list Notice * Seen :=
  match l with
  | [] => acc
  | pane :: l =>
      match pane_id pane with
      | None => seen_panes seen snapshot l acc
      | Some id =>
          let now := pane_read snapshot pane id in
          let changed := match seen !! id with
                         | Some before => negb (bool_decide (pn_status before = pn_status now))
                         | None => false
                         end in
          seen_panes seen snapshot l
            (acc.1 ++ (if changed then option_list (pane_notice id now) else []), <[id := now]> acc.2)
      end
  end.
Definition seen_snapshot (snapshot : Value) (seen : Seen) : list Notice * Seen :=
  seen_panes seen snapshot (array snapshot "panes") ([], ∅).

(** [Seen::status] *)
Definition seen_status (id new : string) (seen : Seen) : option Notice * Seen :=
  match seen !! id with
  | None => (None, seen)
  | Some pane =>
      let now := set_pane_status new pane in
      (if bool_decide (pn_status pane = new) then None else pane_notice id now, <[id := now]> seen)
  end.

(** The host's subscription events, as far as [Signal::of] looks at them. *)
Inductive SubscriptionEvent :=
| SubStatus (pane_id agent_status : string)
| SubExited (pane_id : string)
| SubTopology (kind : string)
| SubDisconnected
| SubError
| SubOther.
Inductive Signal :=
| SigStatus (pane status : string)
| SigExited (pane : string)
| SigTopology
| SigDown.
Definition signal_of (event : SubscriptionEvent) : option Signal :=
  match event with
  | SubStatus pane s => Some (SigStatus pane (status_name s))
  | SubExited pane => Some (SigExited pane)
  | SubTopology kind => if bool_decide (kind = "pane.updated") then None else Some SigTopology
  | SubDisconnected | SubError => Some SigDown
  | SubOther => None
  end.

(** ** Waiting after a failure *)

Record Pace := mkPace { settle : Z; first : Z; longest : Z }.
Definition PACE_DEFAULT : Pace := mkPace 500000000 (seconds 5) (seconds 60).
Record Backoff := mkBackoff { bo_pace : Pace; bo_delay : Z; bo_healthy_since : option Z }.
Definition backoff_new (pace : Pace) : Backoff := mkBackoff pace pace.(first) None.
(** [Backoff::up] *)
Definition backoff_up (began : Z) (b : Backoff) : Backoff :=
  mkBackoff b.(bo_pace) b.(bo_delay) (Some (default began b.(bo_healthy_since))).
(** [Backoff::after]; a difference of [Instant]s saturates at zero. *)
Definition backoff_after (now : Z) (b : Backoff) : Z * Backoff :=
  let earned := match b.(bo_healthy_since) with
                | Some since => b.(bo_pace).(longest) <=? Z.max 0 (now - since)
                | None => false
                end in
  let wait := if earned then b.(bo_pace).(first) else b.(bo_delay) in
  (wait, mkBackoff b.(bo_pace) (Z.min (wait * 2) b.(bo_pace).(longest)) None).

(** ** Asking for a push *)

Section Notify.
Context `{World W}.

(** The parts of the gateway a notice needs. *)
Record Notifier := mkNotifier {
  nt_push : Push;
  nt_identity : Identity;
  nt_audits : Audits;
}.

(** [targets]: a [BTreeMap] lists its keys in their order. *)
Definition targets (n : Notifier) : list string :=
  List.filter (λ id, match i_devices (nt_identity n) !! id with
                     | Some device => negb (d_locked device)
                     | None => false
                     end)
    (merge_sort String.le (map_to_list (pu_devices (nt_push n))).*1).

(** [notify] *)
Definition in_audits {E A} (m : M (Audits * W) E A) : M (Notifier * W) E A :=
  zoom (λ '(n, w), (nt_audits n, w))
       (λ '(a, w) '(n, _), (mkNotifier (nt_push n) (nt_identity n) a, w)) m.
Definition notify {E} (session : string) (notices : list Notice) : M (Notifier * W) E unit :=
  for_each notices (λ notice,
    let! n := get in
    let devices := targets n in
    if bool_decide (devices = []) then ret tt
    else
      let! ok := try_emit (push_request devices (notice_payload session notice)) in
      when (negb ok) (in_audits event_lost)).

(** ** One cycle of a watcher

    [fetch] and [subscribe] run on the executor; what they return is an input:
    the two snapshots ([None] for a failure), whether the subscription took
    effect, and the signals until its channel closes. *)
Inductive End := EndTopology | EndFailed (up : bool).

Abbreviation watch_m A := (M ((Seen * Notifier) * W) End A).
Definition watch_notify (session : string) (notices : list Notice) : watch_m unit :=
  zoom (λ '((_, n), w), (n, w)) (λ '(n, w) '((seen, _), _), ((seen, n), w)) (notify session notices).
Definition observe_snapshot (session : string) (snapshot : Value) : watch_m unit :=
  let! s := get in
  let '(notices, seen) := seen_snapshot snapshot s.1 in
  update (λ s, (seen, s.2));;
  watch_notify session notices.

(** [pane_ids] of this file: the set of the panes of a normalized snapshot. *)
Definition pane_set (snapshot : Value) : gset string :=
  list_to_set (omap pane_id (array snapshot "panes")).

Definition on_signal (session : string) (signal : Signal) : watch_m unit :=
  match signal with
  | SigStatus pane status =>
      let! s := get in
      let '(notice, seen) := seen_status pane status s.1 in
      update (λ s, (seen, s.2));;
      watch_notify session (option_list notice)
  | SigExited pane => update (λ s, (delete pane s.1, s.2))
  | SigTopology => throw EndTopology
  | SigDown => throw (EndFailed true)
  end.

(** [cycle]; its result is thrown. *)
Definition cycle (session : string) (snapshot : option Value) (subscribed : bool)
    (again : option Value) (signals : list Signal) : watch_m unit :=
  match snapshot with
  | None => throw (EndFailed false)
  | Some snapshot =>
      observe_snapshot session snapshot;;
      reject_if (negb subscribed) (EndFailed false);;
      (match again with
       | Some now =>
           observe_snapshot session now;;
           reject_if (negb (bool_decide (pane_set now = pane_set snapshot))) EndTopology
       | None => ret tt
       end);;
      for_each signals (on_signal session);;
      throw (EndFailed true)
  end.

(** The loop of [watch_session] after a cycle that [began] at one reading of the
    monotonic clock and ended at another: the pause, and the new backoff. *)
Definition watch_pause (pace : Pace) (began ended : Z) (e : End) (b : Backoff) : Z * Backoff :=
  match e with
  | EndTopology => (pace.(settle), backoff_up began b)
  | EndFailed up => backoff_after ended (if up then backoff_up began b else b)
  end.
End Notify.

Example endpoint_apple : endpoint_ok "https://web.push.apple.com/QGuQyavXutnM" = true.
Proof. reflexivity. Qed.
Example endpoint_suffix : endpoint_ok "https://evilpush.apple.com/x" = false.
Proof. reflexivity. Qed.
Example endpoint_user : endpoint_ok "https://fcm.googleapis.com@evil.example/x" = false.
Proof. reflexivity. Qed.

(** * Pushes: endpoints, the stored set, subscriptions, notices, pauses *)
(** ** Where the desktop may send to *)

Lemma host_of_split s : ∃ rest, s = host_of s +:+ rest
  ∧ (rest = EmptyString ∨ ∃ c rest', rest = String c rest' ∧ (byte c = 47 ∨ byte c = 63)).
Proof.
  induction s as [|c s IH]; simpl; [exists EmptyString; auto|].
  destruct ((byte c =? 47) || (byte c =? 63)) eqn:Hc.
  - exists (String c s). split; [done|]. right. exists c, s. split; [done|]. lia.
  - destruct IH as (rest & Hs & Hr). exists rest. split; [|done]. exact (f_equal (String c) Hs).
Qed.

(** C40. The desktop is only ever asked to send to a push service.  An accepted
    endpoint is [https://], then a well-formed host name that is one of the four
    services or a subdomain of one (so neither user information nor a port), then
    nothing or a path or query. *)
Theorem endpoint_sound endpoint :
  endpoint_ok endpoint = true →
  ∃ host rest, endpoint = "https://" +:+ host +:+ rest
    ∧ (rest = EmptyString ∨ ∃ c rest', rest = String c rest' ∧ (byte c = 47 ∨ byte c = 63))
    ∧ valid_rp_id host = true
    ∧ (∃ service, service ∈ PUSH_SERVICES ∧ (host = service ∨ ∃ sub, host = sub +:+ "." +:+ service)).
Proof.
  unfold endpoint_ok. destruct (strip_prefix "https://" endpoint) as [r|] eqn:Hp; [|done].
  destruct (_ || _); [done|]. intros [Hv Hs]%andb_true_iff.
  destruct (host_of_split r) as (rest & Hr & Hrest). exists (host_of r), rest.
  split_and!; [|done|done|].
  - rewrite (strip_prefix_app _ _ _ Hp). by rewrite <-Hr.
  - apply existsb_exists in Hs as (service & Hin%list_elem_of_In & Hs). exists service. split; [done|].
    apply orb_true_iff in Hs as [Hs%bool_decide_eq_true|Hs]; [by left|right].
    destruct (strip_suffix service (host_of r)) as [sub|] eqn:Hsuf; [|done].
    apply strip_suffix_app in Hsuf. unfold ends_with in Hs. apply bool_decide_eq_true in Hs as [sub' Hdot].
    apply strip_suffix_app in Hdot. exists sub'. by rewrite Hsuf, Hdot, append_assoc.
Qed.

(** ** The stored set *)
Section Stored.
Context `{Base64, Crypto, World W, !WorldLaws W}.

Definition endpoints_ok (ids : gset string) : Prop :=
  (1 <= size ids <= MAX_ENDPOINTS)%nat ∧ ∀ id, id ∈ ids → is_Some (decode 32 id).
Definition devices_ok (m : gmap string (gset string)) : Prop :=
  (size m <= MAX_DEVICES)%nat ∧ map_Forall (λ _, endpoints_ok) m.

Lemma stored_from_ok l : ∀ m m', map_Forall (λ _, endpoints_ok) m → stored_from m l = Some m' →
  map_Forall (λ _, endpoints_ok) m' ∧ size m' = (size m + length l)%nat.
Proof.
  induction l as [|d l IH]; intros m m' Hm; simpl; [intros [= <-]; split; [done|lia]|].
  destruct (bool_decide (1 ≤ _ ≤ _)%nat) eqn:Hn; [|done]. apply bool_decide_eq_true in Hn.
  destruct (forallb _ _) eqn:Hall; [|done]. case_bool_decide as Hd; [done|]. simpl.
  apply eq_None_not_Some in Hd. intros Hs. apply IH in Hs as [Hok Hsize].
  - split; [done|]. rewrite map_size_insert_None in Hsize by done. simpl in *. lia.
  - apply map_Forall_insert_2; [|done]. split.
    + pose proof (size_list_to_set_le (pd_endpoints d)). split; [|lia].
      destruct (pd_endpoints d) as [|e es]; [simpl in Hn; lia|].
      destruct (decide (size (list_to_set (e :: es) : gset string) = 0%nat)) as [Hz|]; [|lia].
      apply size_empty_inv in Hz. set_solver.
    + intros id Hin%elem_of_list_to_set. apply forallb_Forall in Hall.
      eapply Forall_forall in Hall; [|exact Hin]. by apply bool_decide_eq_true in Hall.
Qed.
Lemma stored_ok l m : stored l = Some m → devices_ok m.
Proof.
  unfold stored. case_bool_decide as Hl; [done|]. intros Hs.
  apply stored_from_ok in Hs as [Hok Hsize]; [|apply map_Forall_empty]. rewrite map_size_empty in Hsize.
  split; [lia|done].
Qed.

Record push_wf (p : Push) : Prop := {
  pw_devices : devices_ok p.(pu_devices);
  pw_active : p.(pu_active) = true ↔ p.(pu_devices) ≠ ∅;
  pw_available : p.(pu_vapid) = None → p.(pu_devices) = ∅;
}.

Lemma devices_subset m m' : m' ⊆ m → devices_ok m → devices_ok m'.
Proof.
  intros Hs [Hn Hm]. split; [by etrans; [apply map_subseteq_size|]|].
  by eapply map_Forall_subseteq_iff in Hm as ? || (intros k ids Hk; eapply Hm; by eapply lookup_weaken).
Qed.
Lemma active_iff (m : gmap string (gset string)) : negb (bool_decide (m = ∅)) = true ↔ m ≠ ∅.
Proof. rewrite negb_true_iff, bool_decide_eq_false. done. Qed.
Lemma set_push_devices_wf m p : push_wf p → devices_ok m → (p.(pu_vapid) = None → m = ∅) →
  push_wf (set_push_devices m p).
Proof. intros Hp Hm Hv. constructor; simpl; [done|apply active_iff|done]. Qed.
Lemma push_new_wf init p : push_new init = inr p → push_wf p.
Proof.
  unfold push_new. destruct (init_push init) as [push|]; cycle 1.
  { intros [= <-]. constructor; simpl; [|apply active_iff|done]. split; [by rewrite map_size_empty; unfold MAX_DEVICES; lia|apply map_Forall_empty]. }
  destruct (stored _) as [m|] eqn:Hs; [|done]. apply stored_ok in Hs.
  destruct (point_ok _); [|done]. intros [= <-]. constructor; simpl; [|apply active_iff|done].
  eapply devices_subset, Hs. apply map_filter_subseteq.
Qed.
Lemma push_replace_wf l known p : push_wf p → push_wf (push_replace l known p).2.
Proof.
  intros Hp. unfold push_replace. destruct (stored l) as [m|] eqn:Hs; [|done]. apply stored_ok in Hs.
  unfold push_available. case_bool_decide as Hv; [|done]. simpl. apply set_push_devices_wf; [done| |].
  - eapply devices_subset, Hs. apply map_filter_subseteq.
  - intros Hn. rewrite Hn in Hv. by destruct Hv.
Qed.
Lemma push_remove_wf id p : push_wf p → push_wf (push_remove id p).
Proof.
  intros Hp. unfold push_remove. destruct (pu_devices p !! id) as [ids|] eqn:Hk; [|done].
  apply set_push_devices_wf; [done| |].
  - eapply devices_subset, Hp. apply delete_subseteq.
  - intros Hn. rewrite (pw_available _ Hp Hn). apply delete_empty.
Qed.

Lemma push_wf_same p p' : pu_devices p' = pu_devices p → pu_active p' = pu_active p →
  pu_vapid p' = pu_vapid p → push_wf p → push_wf p'.
Proof. intros Hd Ha Hv []. constructor; by rewrite ?Hd, ?Ha, ?Hv. Qed.

(** ** Subscriptions are confirmed *)

Context (parse_subscribe : Value → option SubscribeParams).

(** What happens to the pending requests, with what the desktop said. *)
Inductive PushLabel := LSubscribed (request : Z) | LAck (request : Z) (stored : bool).

Inductive push_step : option PushLabel → Push * W → Push * W → Prop :=
| ps_subscribe device params p w request t :
    subscribe_begin parse_subscribe device params (p, w) = (Ok request, t) →
    push_step (Some (LSubscribed request)) (p, w) t
| ps_refused device params p w e t :
    subscribe_begin parse_subscribe device params (p, w) = (Err e, t) →
    push_step None (p, w) t
| ps_ack request stored p w : push_step (Some (LAck request stored)) (p, w) (push_ack request stored p, w)
| ps_finish request p w : push_step None (p, w) (subscribe_finish request (p, w)).2
| ps_call device method params p w : push_step None (p, w) (push_call device method params (p, w)).2
| ps_replace l known p w : push_step None (p, w) ((push_replace l known p).2, w)
| ps_remove id p w : push_step None (p, w) (push_remove id p, w)
| ps_world p w w' : push_step None (p, w) (p, w').

Inductive push_run (t0 : Push * W) : list PushLabel → Push * W → Prop :=
| pr_refl : push_run t0 [] t0
| pr_step l k t t' : push_run t0 l t → push_step k t t' → push_run t0 (l ++ option_list k) t'.

(** Answers are the desktop's, to the request that has their number now. *)
Definition answered (l : list PushLabel) (p : Push) : Prop :=
  ∀ request b, p.(pu_answers) !! request = Some b →
    ∃ before after, l = before ++ LAck request b :: after ∧ LSubscribed request ∉ after.

Lemma begin_spec device params p w :
  wp (subscribe_begin parse_subscribe device params) (λ r t,
    pu_devices t.1 = pu_devices p ∧ pu_active t.1 = pu_active p ∧ pu_vapid t.1 = pu_vapid p
    ∧ match r with
      | Ok request => pu_answers t.1 = delete request (pu_answers p) ∧ request = pu_next_request p
      | Err _ => pu_answers t.1 ⊆ pu_answers p
      | Panic => False
      end) (p, w).
Proof.
  unfold subscribe_begin. apply wp_bind, wp_get, wp_bind, wp_reject_if.
  destruct (negb _); [done|]. apply wp_bind, wp_ok_or. destruct (subscription _ _) as [s|]; [|done].
  cbn zeta. apply wp_bind, wp_update, wp_bind, wp_update, wp_bind, wp_try_emit. intros ok w' _ _.
  destruct ok; [by apply wp_ret|]. apply wp_bind, wp_update, wp_throw. simpl.
  split_and!; [done..|apply delete_subseteq].
Qed.
Lemma subscribe_finish_spec request p w :
  wp (subscribe_finish request) (λ (r : outcome string Value) (t : Push * W), pu_devices t.1 = pu_devices p ∧ pu_active t.1 = pu_active p
    ∧ pu_vapid t.1 = pu_vapid p ∧ pu_answers t.1 = pu_answers p
    ∧ (∀ v, r = Ok v → pu_answers p !! request = Some true ∧ v = VObject [("subscribed", VBool true)])) (p, w).
Proof.
  unfold subscribe_finish. apply wp_bind, wp_get, wp_bind, wp_update.
  destruct (pu_answers p !! request) as [[]|] eqn:Ha; [apply wp_ret|apply wp_throw..]; split_and!; try done.
  by intros v [= <-].
Qed.
Lemma call_spec device method params p w :
  wp (push_call device method params) (λ _ (t : Push * W), t.1 = p) (p, w).
Proof.
  unfold push_call. apply wp_bind, wp_get. case_bool_decide.
  { apply wp_bind, wp_ok_or. destruct (status_endpoint params); [by apply wp_ret|done]. }
  case_bool_decide; [|by apply wp_throw]. apply wp_bind, wp_reject_if. destruct (negb _); [done|].
  apply wp_bind, wp_ok_or. destruct (unsubscribe_endpoint params); [|done].
  apply wp_bind, wp_try_emit. intros ok w' _ _. apply wp_bind, wp_reject_if. by destruct ok.
Qed.

Lemma answered_app l k p p' : answered l p → pu_answers p' ⊆ pu_answers p →
  (∀ request, LSubscribed request ∈ k → pu_answers p' !! request = None) → answered (l ++ k) p'.
Proof.
  intros Ha Hs Hk request b Hb. destruct (Ha request b) as (before & after & -> & Hno).
  { by eapply lookup_weaken. }
  exists before, (after ++ k). rewrite <-app_assoc. split; [done|].
  intros [Hin|Hin]%elem_of_app; [done|]. apply Hk in Hin. congruence.
Qed.

Lemma push_step_keeps k t t' l : push_wf t.1 → answered l t.1 → push_step k t t' →
  push_wf t'.1 ∧ answered (l ++ option_list k) t'.1.
Proof.
  intros Hw Ha Hs.
  destruct Hs as [device params p w request t Hr|device params p w e t Hr|request b p w|request p w
    |device method params p w|devices known p w|id p w|p w w']; simpl in *.
  - destruct (wp_run _ _ _ _ _ (begin_spec device params p w) Hr) as (Hd & Hac & Hv & Han & _). split.
    + by eapply push_wf_same.
    + eapply answered_app; [exact Ha|rewrite Han; apply delete_subseteq|].
      intros r [= ->]%list_elem_of_singleton. rewrite Han. apply lookup_delete_eq.
  - destruct (wp_run _ _ _ _ _ (begin_spec device params p w) Hr) as (Hd & Hac & Hv & Han). split.
    + by eapply push_wf_same.
    + eapply answered_app; [exact Ha|exact Han|]. by intros r ?%elem_of_nil.
  - unfold push_ack. case_bool_decide; simpl.
    + split; [destruct Hw; by constructor|]. intros r b' Hb. simpl in Hb.
      apply lookup_insert_Some in Hb as [[<- <-]|[Hne Hb]].
      * exists l, []. split; [done|]. by intros ?%elem_of_nil.
      * destruct (Ha r b' Hb) as (before & after & -> & Hno). exists before, (after ++ [LAck request b]).
        rewrite <-app_assoc. split; [done|]. set_solver.
    + split; [done|]. eapply answered_app; [exact Ha|done|]. set_solver.
  - pose proof (subscribe_finish_spec request p w) as (Hd & Hac & Hv & Han & _). split.
    + by eapply push_wf_same.
    + eapply answered_app; [exact Ha|by rewrite Han|]. set_solver.
  - pose proof (call_spec device method params p w) as Hc. unfold wp in Hc. rewrite Hc.
    split; [done|]. by rewrite app_nil_r.
  - split; [by apply push_replace_wf|]. rewrite app_nil_r. unfold push_replace.
    destruct (stored _); [|done]. by destruct (push_available p).
  - split; [by apply push_remove_wf|]. rewrite app_nil_r. unfold push_remove. by destruct (_ !! id).
  - by rewrite app_nil_r.
Qed.

Lemma push_run_keeps init p0 w0 l t : push_new init = inr p0 → push_run (p0, w0) l t →
  push_wf t.1 ∧ answered l t.1.
Proof.
  intros Hnew Hrun. induction Hrun as [|l k t t' _ [IHw IHa] Hs].
  - split; [by eapply push_new_wf|]. intros request b Hb. unfold push_new in Hnew.
    repeat case_match; simplify_eq; simpl in Hb; by rewrite lookup_empty in Hb.
  - by eapply push_step_keeps.
Qed.

(** The set of pushable devices is always within its limits: from the init
    frame on, whatever the desktop and the phones send, at most 64 devices with
    one to four well-formed endpoint ids each, none at all without a VAPID key,
    and the watchers are active exactly when there is one. *)
Theorem push_invariant init p0 w0 l t :
  push_new init = inr p0 → push_run (p0, w0) l t → push_wf t.1.
Proof. intros Hnew Hrun. by apply (push_run_keeps _ _ _ _ _ Hnew Hrun). Qed.

(** A phone is told it is subscribed only when the desktop stored its
    subscription: a subscribe succeeds only if, after that request was made, the
    desktop acknowledged that very request as stored. *)
Theorem subscribe_confirmed init p0 w0 l t request v t' :
  push_new init = inr p0 → push_run (p0, w0) l t →
  subscribe_finish request t = (Ok v, t') →
  v = VObject [("subscribed", VBool true)]
  ∧ ∃ before after, l = before ++ LAck request true :: after ∧ LSubscribed request ∉ after.
Proof.
  intros Hnew Hrun Hf. destruct (push_run_keeps _ _ _ _ _ Hnew Hrun) as [_ Ha]. destruct t as [p w].
  destruct (wp_run _ _ _ _ _ (subscribe_finish_spec request p w) Hf) as (_ & _ & _ & _ & Hok).
  destruct (Hok v eq_refl) as [Hans ->]. split; [done|]. by apply Ha.
Qed.
End Stored.
