(* ===== verification/PushNotices.v ===== *)
(** * Pushes: which changes ring, whom, and how often a watcher retries *)
From stdpp Require Import base gmap strings list sorting fin_maps fin_sets.
From Stdlib Require Import ZArith Lia.
From S2P Require Import Prelude Rust Externals Crates Clock Devices Admin Events World Webauthn.
From S2P Require Import Session Authorize SessionProps WriteAudit Herdr HerdrFacts Push.
Local Open Scope Z_scope.

(** ** A snapshot against what was seen *)

Lemma elem_of_options {A} (o : option A) x : x ∈ option_list o ↔ o = Some x.
Proof. destruct o as [y|]; simpl; [rewrite list_elem_of_singleton; naive_solver|by rewrite elem_of_nil]. Qed.

(** The news of one pane of a snapshot. *)
Definition news (seen : Seen) (snapshot pane : Value) : list Notice :=
  match pane_id pane with
  | None => []
  | Some id =>
      let now := pane_read snapshot pane id in
      match seen !! id with
      | Some before => if bool_decide (pn_status before = pn_status now) then []
                       else option_list (pane_notice id now)
      | None => []
      end
  end.

Lemma seen_panes_notices seen snapshot l : ∀ acc,
  (seen_panes seen snapshot l acc).1 = acc.1 ++ (l ≫= news seen snapshot)
  ∧ dom (seen_panes seen snapshot l acc).2 = dom acc.2 ∪ list_to_set (omap pane_id l).
Proof.
  induction l as [|pane l IH]; intros acc; simpl.
  { split; [by rewrite app_nil_r|set_solver]. }
  unfold news at 1. destruct (pane_id pane) as [id|]; simpl; [|by apply IH].
  match goal with |- context [seen_panes _ _ _ ?a] => destruct (IH a) as [-> ->] end. simpl. split.
  - rewrite <-app_assoc. do 2 f_equal. destruct (seen !! id); [|done]. by case_bool_decide.
  - rewrite dom_insert_L. set_solver.
Qed.

(** A snapshot rings exactly for the known panes whose agent became blocked or
    done.  A notice comes from a pane of the snapshot that was seen before with
    another status and is blocked or done now, and every such pane gives one; so
    the first snapshot is silent.  Afterwards exactly the snapshot's panes are
    known. *)
Theorem snapshot_news snapshot seen :
  let r := seen_snapshot snapshot seen in
  (∀ n, n ∈ r.1 ↔ ∃ pane id before, pane ∈ array snapshot "panes" ∧ pane_id pane = Some id
     ∧ seen !! id = Some before ∧ pn_status before ≠ pn_status (pane_read snapshot pane id)
     ∧ pn_status (pane_read snapshot pane id) ∈ ["blocked"; "done"]
     ∧ pane_notice id (pane_read snapshot pane id) = Some n)
  ∧ (seen = ∅ → r.1 = [])
  ∧ dom r.2 = pane_set snapshot.
Proof.
  unfold seen_snapshot. destruct (seen_panes_notices seen snapshot (array snapshot "panes") ([], ∅)) as [Hn Hd].
  cbn zeta. rewrite Hn, Hd. simpl. split_and!.
  - intros n. rewrite list_elem_of_bind. split.
    + intros (pane & Hnews & Hin). unfold news in Hnews.
      destruct (pane_id pane) as [id|] eqn:Hid; [|by apply elem_of_nil in Hnews].
      destruct (seen !! id) as [before|] eqn:Hs; [|by apply elem_of_nil in Hnews].
      case_bool_decide as Hst; [by apply elem_of_nil in Hnews|]. apply elem_of_options in Hnews.
      exists pane, id, before. split_and!; try done. unfold pane_notice in Hnews. by case_bool_decide.
    + intros (pane & id & before & Hin & Hid & Hs & Hst & _ & Hnotice). exists pane. split; [|done].
      unfold news. rewrite Hid, Hs, bool_decide_eq_false_2 by done. by apply elem_of_options.
  - intros ->. clear Hn Hd. induction (array snapshot "panes") as [|pane l IH]; [done|].
    change (news ∅ snapshot pane ++ (l ≫= news ∅ snapshot) = []). rewrite IH.
    unfold news. destruct (pane_id pane) as [id|]; [|done]. by rewrite lookup_empty.
  - rewrite dom_empty_L. unfold pane_set. set_solver.
Qed.

(** The notices of a pane's status reports, one after the other. *)
Fixpoint reported (id : string) (reports : list string) (seen : Seen) : list Notice :=
  match reports with
  | [] => []
  | s :: reports =>
      let '(n, seen) := seen_status id s seen in option_list n ++ reported id reports seen
  end.
Fixpoint changes (before : string) (reports : list string) : list string :=
  match reports with
  | [] => []
  | s :: reports =>
      (if bool_decide (s ≠ before ∧ s ∈ ["blocked"; "done"]) then [s] else []) ++ changes s reports
  end.

(** Between snapshots a pane rings once per change: its notices are exactly
    its changes into blocked or done, in order; a repeated status is no news, and
    neither is a pane that is not known. *)
Theorem status_news id reports seen :
  no_kind <$> reported id reports seen
  = match seen !! id with Some pane => changes (pn_status pane) reports | None => [] end.
Proof.
  revert seen. induction reports as [|s reports IH]; intros seen; simpl; [by destruct (seen !! id)|].
  unfold seen_status. destruct (seen !! id) as [pane|] eqn:Hs; simpl; [|by rewrite IH, Hs].
  rewrite fmap_app, IH, lookup_insert_eq. simpl. f_equal.
  case_bool_decide as Heq.
  - subst. rewrite bool_decide_eq_false_2; [done|]. by intros [[] _].
  - unfold pane_notice. simpl. case_bool_decide as Hk.
    + by rewrite bool_decide_eq_true_2.
    + rewrite bool_decide_eq_false_2; [done|]. by intros [_ ?].
Qed.

(** ** Whom a notice reaches *)
Section Notices.
Context `{World W, !WorldLaws W}.

Definition lost_of (a : Audits) : Z :=
  match df_dropped (as_deferred a) with Some r => dr_lost r | None => 0 end.
Definition request_of (n : Notifier) (session : string) (notice : Notice) : Event :=
  push_request (targets n) (notice_payload session notice).

Lemma targets_spec n id : id ∈ targets n ↔
  is_Some (pu_devices (nt_push n) !! id) ∧ ∃ d, i_devices (nt_identity n) !! id = Some d ∧ d_locked d = false.
Proof.
  unfold targets. rewrite list_elem_of_In, List.filter_In, <-list_elem_of_In, merge_sort_Permutation.
  rewrite list_elem_of_fmap. split.
  - intros [([id' ids] & -> & Hin%elem_of_map_to_list) Hd]. simpl in *. split; [eauto|].
    destruct (i_devices _ !! id') as [d|]; [|done]. exists d. split; [done|]. by destruct (d_locked d).
  - intros [[ids Hin] (d & Hd & Hl)]. split; [|by rewrite Hd, Hl].
    exists (id, ids). split; [done|]. by apply elem_of_map_to_list.
Qed.

Lemma lost_add now a : 0 <= lost_of a < u64_max →
  lost_of (set_deferred (deferred_lost 1 now (as_deferred a)) a) = lost_of a + 1.
Proof.
  intros Ha. unfold lost_of, deferred_lost, counts in *. simpl.
  destruct (df_dropped (as_deferred a)); simpl in *; apply saturating_add_small; lia.
Qed.

(** A push goes to the right devices or is counted.  [notify] asks only for
    devices that hold a subscription and that the identity knows as unlocked (so
    neither a revoked nor a locked one), once per notice and in order; what the
    queue does not take is counted as lost, and without a device nothing is sent
    or counted. *)
Theorem notify_targets {E} session notices n w :
  0 <= lost_of (nt_audits n) → lost_of (nt_audits n) + Z.of_nat (length notices) <= u64_max →
  wp (notify (E := E) session notices) (λ r t, r = Ok tt
    ∧ nt_push t.1 = nt_push n ∧ nt_identity t.1 = nt_identity n
    ∧ ∃ sent, sent `sublist_of` notices
      ∧ world_log t.2 = world_log w ++ (request_of n session <$> sent)
      ∧ lost_of (nt_audits t.1) = lost_of (nt_audits n)
        + (if bool_decide (targets n = []) then 0 else Z.of_nat (length notices) - Z.of_nat (length sent))
      ∧ (targets n = [] → sent = [])
      ∧ ∀ id, id ∈ targets n → is_Some (pu_devices (nt_push n) !! id)
          ∧ ∃ d, i_devices (nt_identity n) !! id = Some d ∧ d_locked d = false) (n, w).
Proof.
  assert (∀ id, id ∈ targets n → is_Some (pu_devices (nt_push n) !! id)
    ∧ ∃ d, i_devices (nt_identity n) !! id = Some d ∧ d_locked d = false) as Htargets by apply targets_spec.
  revert n w Htargets. induction notices as [|notice notices IH]; intros n w Htargets Hlo Hhi.
  { apply wp_ret. split_and!; [done..|]. exists []. rewrite app_nil_r. split_and!; [done..| |done|done].
    by case_bool_decide; simpl; lia. }
  cbn [length] in Hhi. apply wp_bind, wp_bind, wp_get. cbn zeta.
  case_bool_decide as Hnone.
  - apply wp_ret. eapply wp_mono; [apply (IH n w Htargets Hlo); lia|].
    intros r t (-> & Hp & Hi & sent & Hsub & Hlog & Hlost & Hnil & _). split_and!; [done..|].
    exists sent. split_and!; [by apply sublist_cons|done| |done|done].
    by rewrite Hlost, !bool_decide_eq_true_2.
  - apply wp_bind, wp_try_emit. intros ok w1 _ Hl1. apply wp_when. destruct ok; simpl.
    + eapply wp_mono; [apply (IH n w1 Htargets Hlo); lia|].
      intros r t (-> & Hp & Hi & sent & Hsub & Hlog & Hlost & Hnil & _). split_and!; [done..|].
      exists (notice :: sent). split_and!; [by apply sublist_skip|by rewrite Hlog, Hl1, <-app_assoc| |done|done].
      rewrite Hlost, bool_decide_eq_false_2 by done. cbn [length]. lia.
    + apply wp_zoom, wp_bind, wp_clock_read. intros now w2 _ _ Hl2. apply wp_zoom, wp_update. simpl.
      set (n' := mkNotifier _ _ _).
      assert (lost_of (nt_audits n') = lost_of (nt_audits n) + 1) as Hn' by (apply lost_add; lia).
      assert (targets n' = targets n) as Ht by done.
      eapply wp_mono; [apply (IH n' w2); [done|lia|lia]|].
      intros r t (-> & Hp & Hi & sent & Hsub & Hlog & Hlost & Hnil & _). split_and!; [done..|].
      exists sent. split_and!; [by apply sublist_cons| | |done|done].
      * rewrite Hlog, Hl2, Hl1, app_nil_r. done.
      * rewrite Hlost, Hn', Ht, !bool_decide_eq_false_2 by done. cbn [length]. lia.
Qed.
End Notices.

(** ** Pauses *)

Inductive Beat := Up (began : Z) | Failure_at (now : Z).
(** The waits of a history of cycles that came up and failures. *)
Fixpoint waits (beats : list Beat) (b : Backoff) : list Z :=
  match beats with
  | [] => []
  | Up began :: beats => waits beats (backoff_up began b)
  | Failure_at now :: beats => let '(wait, b) := backoff_after now b in wait :: waits beats b
  end.

Lemma waits_range pace beats b : 0 < first pace <= longest pace → bo_pace b = pace →
  first pace <= bo_delay b <= longest pace →
  Forall (λ w, first pace <= w <= longest pace) (waits beats b).
Proof.
  intros Hpace. revert b. induction beats as [|[began|now] beats IH]; intros b Hb Hd; simpl; [constructor|by apply IH|].
  rewrite Hb. destruct (match bo_healthy_since b with Some _ => _ | None => _ end);
    (constructor; [lia|]); apply IH; simpl; [done|lia|done|lia].
Qed.
Lemma waits_doubling pace nows : ∀ k b, 0 < first pace <= longest pace → bo_pace b = pace →
  bo_healthy_since b = None → bo_delay b = Z.min (first pace * 2 ^ Z.of_nat k) (longest pace) →
  waits (Failure_at <$> nows) b
  = (λ i, Z.min (first pace * 2 ^ Z.of_nat i) (longest pace)) <$> seq k (length nows).
Proof.
  induction nows as [|now nows IH]; intros k b Hpace Hb Hh Hd; [done|]. csimpl. rewrite Hh, Hd, Hb.
  f_equal. apply IH; [done..|]. simpl. rewrite Nat2Z.inj_succ, Z.pow_succ_r by lia.
  assert (0 < 2 ^ Z.of_nat k) by (apply Z.pow_pos_nonneg; lia). nia.
Qed.

(** A watcher retries neither too fast nor too slowly.  Every wait is between
    the first and the longest; consecutive failures double it up to the longest;
    and a failure after the watcher had been up for the longest wait, however many
    cycles that streak had, is retried after the first. *)
Theorem backoff_bounds pace :
  0 < first pace <= longest pace →
  (∀ beats, Forall (λ w, first pace <= w <= longest pace) (waits beats (backoff_new pace)))
  ∧ (∀ nows, waits (Failure_at <$> nows) (backoff_new pace)
       = (λ i, Z.min (first pace * 2 ^ Z.of_nat i) (longest pace)) <$> seq 0 (length nows))
  ∧ (∀ b began cycles now, bo_pace b = pace → bo_healthy_since b = None → longest pace <= now - began →
       (backoff_after now (foldl (λ b t, backoff_up t b) (backoff_up began b) cycles)).1 = first pace).
Proof.
  intros Hpace. split_and!.
  - intros beats. apply waits_range; [done|done|simpl; lia].
  - intros nows. apply (waits_doubling pace nows 0); [done..|]. simpl. lia.
  - intros b began cycles now Hb Hh Hup.
    assert (∀ b', bo_pace b' = pace → bo_healthy_since b' = Some began →
      bo_pace (foldl (λ b t, backoff_up t b) b' cycles) = pace
      ∧ bo_healthy_since (foldl (λ b t, backoff_up t b) b' cycles) = Some began) as Hfold.
    { induction cycles as [|t cycles IH]; intros b' Hp Hs; [done|]. simpl. apply IH; [done|]. simpl. by rewrite Hs. }
    destruct (Hfold (backoff_up began b)) as [Hp Hs]; [done|simpl; by rewrite Hh|].
    unfold backoff_after. rewrite Hs, Hp, (proj2 (Z.leb_le _ _)) by lia. done.
Qed.

(** * A subscription and a notice, computed *)
Lemma endpoint_sound_witness :
  ∃ host rest, "https://web.push.apple.com/Q1" = "https://" +:+ host +:+ rest
    ∧ (rest = EmptyString ∨ ∃ c rest', rest = String c rest' ∧ (byte c = 47 ∨ byte c = 63))
    ∧ valid_rp_id host = true
    ∧ (∃ service, service ∈ PUSH_SERVICES ∧ (host = service ∨ ∃ sub, host = sub +:+ "." +:+ service)).
Proof. apply endpoint_sound. vm_compute. reflexivity. Defined.

Definition demo_vapid : string := encode (String (char_of 4) (zeros 64)).
Definition demo_endpoint_id : string := encode (zeros 32).
Definition demo_push_init : Init := mkInit "/bin/herdr" ["work"] "/web"
  (mkListeners (mkLoopback 0 "host.ts.net" "me@example" "") None) [demo_device] demo_policy "/trust" []
  (Some (mkPushInit demo_vapid [mkPushDevice demo_device_id [demo_endpoint_id]])).
Definition demo_push : Push :=
  match push_new demo_push_init with
  | inr p => p
  | inl _ => mkPush None ∅ ∅ false ∅ ∅ 1
  end.
Lemma demo_push_made : push_new demo_push_init = inr demo_push.
Proof. vm_compute. reflexivity. Qed.

(** The parser of a body that is the expected one. *)
Definition demo_parse (v : Value) : option SubscribeParams :=
  Some (mkSubscribeParams "https://web.push.apple.com/Q1" demo_vapid (encode (zeros 16))).
Definition demo_params : Value := VObject [("endpoint", VNull); ("keys", VObject [])].
Definition demo_push_t0 : Push * SimWorld := (demo_push, mkSim 0 1 5 0 []).
Definition demo_push_t1 := (subscribe_begin demo_parse demo_device_id demo_params demo_push_t0).2.
Definition demo_push_t2 : Push * SimWorld := (push_ack 1 true demo_push_t1.1, demo_push_t1.2).
Definition demo_push_labels : list PushLabel := [LSubscribed 1; LAck 1 true].

Lemma demo_push_run : push_run demo_parse demo_push_t0 demo_push_labels demo_push_t2.
Proof.
  change demo_push_labels with (([] ++ option_list (Some (LSubscribed 1))) ++ option_list (Some (LAck 1 true))).
  apply (pr_step _ _ _ _ demo_push_t1).
  - apply (pr_step _ _ _ _ demo_push_t0); [apply pr_refl|].
    apply (ps_subscribe _ demo_device_id demo_params). vm_compute. reflexivity.
  - apply (ps_ack _ 1 true demo_push_t1.1 demo_push_t1.2).
Qed.

Lemma push_invariant_witness : pu_active demo_push_t2.1 = true ∧ push_wf demo_push_t2.1.
Proof.
  split; [vm_compute; reflexivity|].
  exact (push_invariant demo_parse demo_push_init demo_push (mkSim 0 1 5 0 []) demo_push_labels demo_push_t2
    demo_push_made demo_push_run).
Defined.

Lemma subscribe_confirmed_witness :
  (subscribe_finish 1 demo_push_t1).1 = Err "push-unconfirmed"
  ∧ ∃ before after, demo_push_labels = before ++ LAck 1 true :: after ∧ LSubscribed 1 ∉ after.
Proof.
  split; [vm_compute; reflexivity|].
  exact (proj2 (subscribe_confirmed demo_parse demo_push_init demo_push (mkSim 0 1 5 0 []) demo_push_labels
    demo_push_t2 1 (VObject [("subscribed", VBool true)]) (subscribe_finish 1 demo_push_t2).2
    demo_push_made demo_push_run ltac:(vm_compute; reflexivity))).
Defined.

Definition demo_notice : Notice := mkNotice "done" "w:p" None "claude" None.
Definition demo_notifier : Notifier := mkNotifier demo_push demo_identity audits_new.

(** Room for one event: the second notice is counted. *)
Lemma notify_targets_witness :
  targets demo_notifier = [demo_device_id]
  ∧ wp (notify (E := unit) "work" [demo_notice; demo_notice]) (λ r t, r = Ok tt
    ∧ nt_push t.1 = nt_push demo_notifier ∧ nt_identity t.1 = nt_identity demo_notifier
    ∧ ∃ sent, sent `sublist_of` [demo_notice; demo_notice]
      ∧ world_log t.2 = world_log (mkSim 0 1 1 0 []) ++ (request_of demo_notifier "work" <$> sent)
      ∧ lost_of (nt_audits t.1) = lost_of (nt_audits demo_notifier)
        + (if bool_decide (targets demo_notifier = []) then 0
           else Z.of_nat (length [demo_notice; demo_notice]) - Z.of_nat (length sent))
      ∧ (targets demo_notifier = [] → sent = [])
      ∧ ∀ id, id ∈ targets demo_notifier → is_Some (pu_devices (nt_push demo_notifier) !! id)
          ∧ ∃ d, i_devices (nt_identity demo_notifier) !! id = Some d ∧ d_locked d = false)
    (demo_notifier, mkSim 0 1 1 0 []).
Proof.
  split; [vm_compute; reflexivity|].
  exact (notify_targets "work" [demo_notice; demo_notice] demo_notifier (mkSim 0 1 1 0 [])
    ltac:(vm_compute; discriminate) ltac:(vm_compute; discriminate)).
Defined.

Lemma backoff_bounds_witness :
  waits [Failure_at 1; Failure_at 2; Failure_at 3; Failure_at 4; Failure_at 5] (backoff_new PACE_DEFAULT)
  = seconds <$> [5; 10; 20; 40; 60]
  ∧ ∀ beats, Forall (λ w, first PACE_DEFAULT <= w <= longest PACE_DEFAULT) (waits beats (backoff_new PACE_DEFAULT)).
Proof.
  split; [vm_compute; reflexivity|].
  exact (proj1 (backoff_bounds PACE_DEFAULT ltac:(vm_compute; split; [reflexivity|discriminate]))).
Defined.
