(* ===== verification/DesktopPush.v ===== *)
(** * [companion_push.rs]: the desktop keeps the subscriptions and sends the pushes

    Subscriptions by device, in a file of their own; one message for all the endpoints
    of a push; a minute between two pushes of a pane and kind.  The network, the OS
    credential store's calls and the log are outside. *)

From stdpp Require Import base gmap strings list sorting fin_maps fin_sets.
From Stdlib Require Import ZArith Lia.
From S2P Require Import Prelude Rust Externals Crates Clock Files Devices DeviceJson Admin Store Supervisor SupervisionFacts Push.

Local Open Scope Z_scope.

Definition PUSH_FILE : string := "push.json".
(** Nanoseconds of a monotonic clock, as everywhere *)
Definition COOLDOWN : Z := 60 * 1000000000.
Definition PUSH_HOSTS : list string :=
  ["push.apple.com"; "fcm.googleapis.com"; "updates.push.services.mozilla.com"; "notify.windows.com"].
Definition ENDPOINT_LIMIT : Z := 2048.
Definition ENDPOINTS_PER_DEVICE : nat := 4.
Definition SUBJECT : string := "https://github.com/NakiriYuuzu/Yuzora".
Definition JWT_LIFETIME_SECS : Z := 12 * 3600.
Definition RECORD_SIZE : Z := 4096.
Definition ID_BYTES : Z := 256.
Definition TEXT_BYTES : Z := 200.
Definition MESSAGE_BYTES : Z := 3 * 1024.

(** ** [reqwest::Url], [p256], [hkdf], [aes_gcm] *)
Record Url := mkUrl {
  url_scheme : string;
  url_username : string;
  url_password : option string;
  url_host_str : option string;
  url_fragment : option string;
  (* [origin().ascii_serialization()] *)
  url_origin : string;
}.
Class PushCrates (K S : Type) := {
  url_parse : string → option Url;
  from_sec1_bytes : string → option K;
  sec1_point : K → string;
  secret_from_slice : string → option S;
  secret_bytes : S → string;
  public_key : S → K;
  diffie_hellman : S → K → string;
  (* salt, input key material, info, length *)
  hkdf_expand : string → string → string → nat → option string;
  (* key, nonce, plaintext *)
  aes128gcm_encrypt : string → string → string → option string;
  es256_sign : S → string → string;
}.
(** An uncompressed point is 65 bytes; AES-GCM adds a tag of 16. *)
Class PushCratesLaws {K S} (C : PushCrates K S) : Prop := {
  sec1_point_len k : len (sec1_point k) = 65;
  aes128gcm_len key nonce text sealed : aes128gcm_encrypt key nonce text = Some sealed → len sealed = len text + 16;
}.

Record Subscription := mkSubscription { su_endpoint : string; su_p256dh : string; su_auth : string; su_created_at : string }.
Abbreviation Subscriptions := (gmap string (list Subscription)).
Record PushFile := mkPushFile { pf_version : Z; pf_subscriptions : Subscriptions }.
(** Session, pane, kind *)
Abbreviation Key := (string * string * string)%type.
Record Vapid (S : Type) := mkVapid { va_key : S; va_public : string }.
Arguments mkVapid {S}.
Arguments va_key {S}.
Arguments va_public {S}.
Record PushMessage := mkMessage {
  ms_kind : string; ms_title : string; ms_space : option string; ms_session : string; ms_pane : string }.
Record PushJob := mkJob { jb_key : Key; jb_message : string; jb_urgency : string; jb_targets : list (string * Subscription) }.
Record PushSend := mkSend { sd_url : string; sd_headers : list (string * string); sd_body : string }.

(** What the OS credential store answers: the secret if there is one. *)
Class Vault (V : Type) := {
  vault_load : V → string + option string;
  vault_store : string → V → (string + unit) * V;
}.

(** [ps_now] and [ps_utc] are what the clocks say: [Instant::now()], and [Utc::now()] as it
    is written; [ps_secret] is the next secret that [random_secret] draws. *)
Record PushState (D V S : Type) := mkPush {
  ps_subscriptions : Subscriptions;
  ps_sent : gmap Key Z;
  ps_held : gset Key;
  ps_vapid : option (Vapid S);
  ps_vault : V;
  ps_disk : D;
  ps_now : Z;
  ps_utc : string;
  ps_secret : S;
}.
Arguments mkPush {D V S}.
Arguments ps_subscriptions {D V S}.
Arguments ps_sent {D V S}.
Arguments ps_held {D V S}.
Arguments ps_vapid {D V S}.
Arguments ps_vault {D V S}.
Arguments ps_disk {D V S}.
Arguments ps_now {D V S}.
Arguments ps_utc {D V S}.
Arguments ps_secret {D V S}.

Section State.
Context {D V S : Type}.
Implicit Types (s : PushState D V S).
Definition set_subscriptions x s := mkPush x s.(ps_sent) s.(ps_held) s.(ps_vapid) s.(ps_vault) s.(ps_disk) s.(ps_now) s.(ps_utc) s.(ps_secret).
Definition set_sent x s := mkPush s.(ps_subscriptions) x s.(ps_held) s.(ps_vapid) s.(ps_vault) s.(ps_disk) s.(ps_now) s.(ps_utc) s.(ps_secret).
Definition set_held x s := mkPush s.(ps_subscriptions) s.(ps_sent) x s.(ps_vapid) s.(ps_vault) s.(ps_disk) s.(ps_now) s.(ps_utc) s.(ps_secret).
Definition set_vapid (x : option (Vapid S)) s := mkPush s.(ps_subscriptions) s.(ps_sent) s.(ps_held) x s.(ps_vault) s.(ps_disk) s.(ps_now) s.(ps_utc) s.(ps_secret).
Definition set_vault (x : V) s := mkPush s.(ps_subscriptions) s.(ps_sent) s.(ps_held) s.(ps_vapid) x s.(ps_disk) s.(ps_now) s.(ps_utc) s.(ps_secret).
Definition set_file (x : D) s := mkPush s.(ps_subscriptions) s.(ps_sent) s.(ps_held) s.(ps_vapid) s.(ps_vault) x s.(ps_now) s.(ps_utc) s.(ps_secret).
Definition set_clocks now utc (secret : S) s := mkPush s.(ps_subscriptions) s.(ps_sent) s.(ps_held) s.(ps_vapid) s.(ps_vault) s.(ps_disk) now utc secret.
End State.

(** ** Messages *)

(** [clip]: characters until the next would not fit *)
Fixpoint clip_from (used : Z) (l : list Z) : list Z :=
  match l with
  | [] => []
  | c :: l =>
      let n := used + Z.of_nat (length (utf8_char c)) in
      if TEXT_BYTES <? n then [] else c :: clip_from n l
  end.
Definition clip (text : string) : string :=
  of_chars (clip_from 0 (List.filter (λ c, negb (is_control c)) (chars text))).
Definition message_id (field : string) (payload : Value) : option string :=
  i ← as_str (value_index field payload);
  if in_range 1 (len i) ID_BYTES && negb (existsb is_control (chars i)) then Some i else None.
Definition message_from (payload : Value) : option PushMessage :=
  kind ← as_str (value_index "kind" payload);
  if negb (bool_decide (kind ∈ ["blocked"; "done"])) then None
  else
    title ← as_str (value_index "title" payload);
    session ← message_id "session" payload;
    pane ← message_id "paneId" payload;
    Some (mkMessage kind (clip title) (clip <$> as_str (value_index "space" payload)) session pane).
Definition message_value (m : PushMessage) : Value :=
  VObject [("v", VNumber 1); ("kind", VString m.(ms_kind)); ("title", VString m.(ms_title));
           ("space", match m.(ms_space) with Some s => VString s | None => VNull end);
           ("session", VString m.(ms_session)); ("pane", VString m.(ms_pane))].

Section Push.
Context {K S : Type} `{Base64, Crypto, Json, !PushCrates K S, Vault V, Fs D} (windows : bool).
Context (parse_from_rfc3339 : string → option (Z * Z * Timestamp)).
(** serde's reading and writing of the two files *)
Context (devices_slice : string → option DevicesFile) (push_slice : string → option PushFile).
Context (to_vec_pretty : PushFile → string + string) (dir : string).
Abbreviation State := (PushState D V S).
Abbreviation push_m E A := (M State E A).

(** [endpoint_id] is the gateway's own. *)

(** [Subscription::keys] *)
Definition host_allowed (host : string) : bool :=
  existsb (λ allowed, bool_decide (host = allowed) || ends_with ("." +:+ allowed) host) PUSH_HOSTS.
Definition keys (s : Subscription) : option (K * string) :=
  url ← url_parse s.(su_endpoint);
  host ← url.(url_host_str);
  if negb ((len s.(su_endpoint) <=? ENDPOINT_LIMIT) && forallb is_ascii_graphic (bytes s.(su_endpoint))
           && bool_decide (url.(url_scheme) = "https") && bool_decide (url.(url_username) = EmptyString)
           && bool_decide (url.(url_password) = None) && bool_decide (url.(url_fragment) = None)
           && host_allowed host) then None
  else
    public ← b64url_decode s.(su_p256dh);
    auth ← b64url_decode s.(su_auth);
    if negb ((len public =? 65) && bool_decide (head (bytes public) = Some 4) && (len auth =? 16)) then None
    else key ← from_sec1_bytes public; Some (key, auth).
Definition sub_ok (s : Subscription) : bool := bool_decide (is_Some (keys s)).

(** [tidy], [retain_known], [count], [listing] *)
Fixpoint tidy_from (kept l : list Subscription) : list Subscription :=
  match l with
  | [] => kept
  | s :: l =>
      if sub_ok s
      then tidy_from (List.filter (λ o, negb (bool_decide (su_endpoint o = su_endpoint s))) kept ++ [s]) l
      else tidy_from kept l
  end.
Definition tidy (l : list Subscription) : list Subscription :=
  let kept := tidy_from [] l in drop (length kept - ENDPOINTS_PER_DEVICE) kept.
Definition known_in (devices : option Devices) (id : string) : bool :=
  match devices with
  | Some devices => existsb (λ d, bool_decide (device_id d = Some id)) devices.(ds_devices)
  | None => true
  end.
Definition retain_known (subscriptions : Subscriptions) : M D Empty_set Subscriptions :=
  let! devices := attempt (devices_load parse_from_rfc3339 devices_slice dir) in
  let devices := match devices with inr d => Some d | inl _ => None end in
  ret (filter (λ e, e.2 ≠ [])
    (tidy <$> filter (λ e : string * list Subscription, known_in devices e.1 = true) subscriptions)).
Definition count (subscriptions : Subscriptions) : nat := sum_list (length <$> (map_to_list subscriptions).*2).
Definition sorted_devices (subscriptions : Subscriptions) : list (string * list Subscription) :=
  (λ id, (id, default [] (subscriptions !! id))) <$> merge_sort String.le (map_to_list subscriptions).*1.
Definition listing (subscriptions : Subscriptions) : Value :=
  VArray ((λ e, VObject [("deviceId", VString e.1);
                         ("endpoints", VArray ((λ s, VString (endpoint_id (su_endpoint s))) <$> e.2))])
          <$> sorted_devices subscriptions).

(** ** Changes *)
Definition on_file {E A} (m : M D E A) : push_m E A := zoom ps_disk set_file m.
Definition push_commit (next : Subscriptions) : push_m string unit :=
  on_file (write_json windows to_vec_pretty (dir, PUSH_FILE) (mkPushFile VERSION next));;
  modify (set_subscriptions next).
Definition saved (next : Subscriptions) : push_m Empty_set bool :=
  let! r := attempt (push_commit next) in
  ret (match r with inr _ => true | inl _ => false end).
Definition reported (v : Value) : option (string * string * string) :=
  o ← only ["endpoint"; "p256dh"; "auth"] v;
  endpoint ← required as_str "endpoint" o;
  p256dh ← required as_str "p256dh" o;
  auth ← required as_str "auth" o;
  Some (endpoint, p256dh, auth).
Definition subscription (device : string) (v : Value) : push_m Empty_set bool :=
  let! s := gets id in
  match reported v with
  | None => ret false
  | Some (endpoint, p256dh, auth) =>
      let new := mkSubscription endpoint p256dh auth s.(ps_utc) in
      if negb (sub_ok new) then ret false
      else
        let list := default [] (s.(ps_subscriptions) !! device) in
        saved (<[device := tidy (list ++ [new])]> s.(ps_subscriptions))
  end.
Definition remove (device : string) (gone : Subscription → bool) : push_m Empty_set bool :=
  let! s := gets id in
  match s.(ps_subscriptions) !! device with
  | None => ret false
  | Some list =>
      let rest := List.filter (λ s, negb (gone s)) list in
      if bool_decide (length rest = length list) then ret false
      else saved (if bool_decide (rest = []) then delete device s.(ps_subscriptions)
                  else <[device := rest]> s.(ps_subscriptions))
  end.
Definition unsubscribe (device endpoint : string) : push_m Empty_set bool :=
  remove device (λ s, bool_decide (endpoint_id (su_endpoint s) = endpoint)).
Definition forget (device : string) : push_m Empty_set bool :=
  let! s := gets id in
  if bool_decide (is_Some (s.(ps_subscriptions) !! device))
  then saved (delete device s.(ps_subscriptions)) else ret false.
Definition same_keys (s t : Subscription) : bool :=
  bool_decide (su_endpoint s = su_endpoint t) && bool_decide (su_p256dh s = su_p256dh t)
  && bool_decide (su_auth s = su_auth t).
Definition expire (device : string) (sent : Subscription) : push_m Empty_set bool :=
  remove device (λ stored, same_keys stored sent).

(** ** The key *)
Definition vapid_new (secret : S) : Vapid S := mkVapid secret (b64url_encode (sec1_point (public_key secret))).
Definition VAULT_CORRUPT : string := "companion-push-vault-corrupt".
Definition vapid_load : push_m string (Vapid S * bool) :=
  let! s := gets id in
  match vault_load s.(ps_vault) with
  | inl e => throw e
  | inr None =>
      match vault_store (b64url_encode (secret_bytes s.(ps_secret))) s.(ps_vault) with
      | (inl e, vault) => modify (set_vault vault);; throw e
      | (inr _, vault) => modify (set_vault vault);; ret (vapid_new s.(ps_secret), true)
      end
  | inr (Some stored) =>
      match (b64url_decode stored ≫= secret_from_slice) with
      | Some secret => ret (vapid_new secret, false)
      | None => throw VAULT_CORRUPT
      end
  end.
Definition vapid : push_m string (Vapid S) :=
  let! s := gets id in
  match s.(ps_vapid) with
  | Some vapid => ret vapid
  | None =>
      let! '(vapid, created) := vapid_load in
      let! s := gets id in
      when (created && negb (bool_decide (s.(ps_subscriptions) = ∅)))
        (let! r := attempt (saved ∅) in ret tt);;
      modify (set_vapid (Some vapid));;
      ret vapid
  end.
(** [Push::new] and [Push::init] *)
Definition push_new (vault : V) (now : Z) (utc : string) (secret : S) (d : D) : outcome Empty_set State * D :=
  let '(stored, d) := attempt (E := Empty_set) (read_versioned push_slice pf_version (dir, PUSH_FILE)) d in
  let stored := match stored with Ok (inr (Some file)) => file.(pf_subscriptions) | _ => ∅ end in
  match retain_known stored d with
  | (Ok kept, d) => (Ok (mkPush kept ∅ ∅ None vault d now utc secret), d)
  | (Err e, d) => (Err e, d)
  | (Panic, d) => (Panic, d)
  end.
Definition push_init : push_m Empty_set Value :=
  let! r := attempt vapid in
  match r with
  | inl _ => ret VNull
  | inr vapid =>
      let! s := gets id in
      let! kept := on_file (retain_known s.(ps_subscriptions)) in
      (if bool_decide (count kept = count s.(ps_subscriptions)) then ret tt
       else let! _ := attempt (push_commit kept) in ret tt);;
      let! s := gets id in
      ret (VObject [("vapidPublicKey", VString vapid.(va_public)); ("devices", listing s.(ps_subscriptions))])
  end.
Definition overview (s : State) : Value :=
  VObject [("type", VString "push");
           ("push", VObject [("available", VBool (bool_decide (is_Some s.(ps_vapid))));
                             ("subscribed", VArray ((λ e, VString e.1) <$> sorted_devices s.(ps_subscriptions)))])].

(** ** Pushes *)
Definition sorted_set (l : list string) : list string := merge_sort String.le (elements (list_to_set l : gset string)).
Definition job_targets (ids : list Value) (subscriptions : Subscriptions) : list (string * Subscription) :=
  sorted_set (omap as_str ids) ≫= λ i, pair i <$> default [] (subscriptions !! i).
Definition request (device_ids payload : Value) : push_m Empty_set (option PushJob) :=
  let! s := gets id in
  match (_ ← s.(ps_vapid); m ← message_from payload; body ← json_to_vec (message_value m);
         if MESSAGE_BYTES <? len body then None
         else ids ← as_array device_ids; Some (m, body, job_targets ids s.(ps_subscriptions))) with
  | None | Some (_, _, []) => ret None
  | Some (m, body, targets) =>
      modify (λ s, set_sent (filter (λ e, ps_now s - e.2 < COOLDOWN) s.(ps_sent)) s);;
      let! s := gets id in
      let key := (ms_session m, ms_pane m, ms_kind m) in
      if bool_decide (is_Some (s.(ps_sent) !! key)) || bool_decide (key ∈ s.(ps_held)) then ret None
      else
        modify (set_held ({[key]} ∪ s.(ps_held)));;
        ret (Some (mkJob key body (if bool_decide (ms_kind m = "blocked") then "high" else "normal") targets))
  end.

Definition ENCRYPT_FAILED : string := "companion-push-encrypt-failed".
Definition nul : string := of_bytes [0].
(** [encrypt] *)
Definition encrypt (message : string) (receiver : K) (auth : string) (sender : S) (salt : string) : string + string :=
  let sender_public := sec1_point (public_key sender) in
  let key_info := "WebPush: info" +:+ nul +:+ sec1_point receiver +:+ sender_public in
  match (ikm ← hkdf_expand auth (diffie_hellman sender receiver) key_info 32;
         cek ← hkdf_expand salt ikm ("Content-Encoding: aes128gcm" +:+ nul) 16;
         nonce ← hkdf_expand salt ikm ("Content-Encoding: nonce" +:+ nul) 12;
         aes128gcm_encrypt cek nonce (message +:+ of_bytes [2])) with
  | None => inl ENCRYPT_FAILED
  | Some sealed =>
      inr (salt +:+ of_bytes [RECORD_SIZE / 16777216 mod 256; RECORD_SIZE / 65536 mod 256; RECORD_SIZE / 256 mod 256; RECORD_SIZE mod 256]
           +:+ of_bytes [len sender_public mod 256] +:+ sender_public +:+ sealed)
  end.
Definition vapid_jwt (key : S) (audience : string) (expires : Z) : string :=
  let part v := b64url_encode (default EmptyString (json_to_vec v)) in
  let input := part (VObject [("typ", VString "JWT"); ("alg", VString "ES256")]) +:+ "."
    +:+ part (VObject [("aud", VString audience); ("exp", VNumber expires); ("sub", VString SUBJECT)]) in
  input +:+ "." +:+ b64url_encode (es256_sign key input).
(** The time and what is drawn are arguments. *)
Definition build_request (vapid : Vapid S) (s : Subscription) (message urgency : string) (unix_now : Z) (sender : S) (salt : string)
    : string + PushSend :=
  match keys s, url_parse s.(su_endpoint) with
  | Some (receiver, auth), Some url =>
      match encrypt message receiver auth sender salt with
      | inl e => inl e
      | inr body =>
          inr (mkSend s.(su_endpoint)
            [("TTL", "3600"); ("Urgency", urgency); ("Content-Encoding", "aes128gcm");
             ("Content-Type", "application/octet-stream");
             ("Authorization", "vapid t=" +:+ vapid_jwt vapid.(va_key) url.(url_origin) (unix_now + JWT_LIFETIME_SECS)
               +:+ ", k=" +:+ vapid.(va_public))] body)
      end
  | _, _ => inl "companion-push-subscription-invalid"
  end.
(** [deliver], up to the sends: what to send to whom; [draws] gives the sender key and
    the salt of each. *)
Fixpoint build_all (vapid : Vapid S) (message urgency : string) (unix_now : Z) (draws : nat → S * string)
    (targets : list (string * Subscription)) : list (string * Subscription * PushSend) :=
  match targets with
  | [] => []
  | (device, s) :: targets =>
      let rest := build_all vapid message urgency unix_now (draws ∘ Datatypes.S) targets in
      match build_request vapid s message urgency unix_now (draws 0%nat).1 (draws 0%nat).2 with
      | inl _ => rest
      | inr r => (device, s, r) :: rest
      end
  end.
Definition deliver_start (job : PushJob) (unix_now : Z) (draws : nat → S * string)
    : push_m Empty_set (list (string * Subscription * PushSend)) :=
  let! s := gets id in
  match s.(ps_vapid) with
  | None => ret []
  | Some vapid =>
      let requests := build_all vapid job.(jb_message) job.(jb_urgency) unix_now draws job.(jb_targets) in
      when (negb (bool_decide (requests = [])))
        (modify (λ s, set_sent (<[job.(jb_key) := s.(ps_now)]> s.(ps_sent)) s));;
      ret requests
  end.
(** What is done with an answer: an HTTP status, or why there was none *)
Definition deliver_answer (device : string) (s : Subscription) (answer : string + Z) : push_m Empty_set bool :=
  match answer with
  | inr status => if (status =? 404) || (status =? 410) then expire device s else ret false
  | inl _ => ret false
  end.
(** [Hold::drop] *)
Definition release_hold (key : Key) (s : State) : State := set_held (s.(ps_held) ∖ {[key]}) s.
End Push.

(** ** Flights: the jobs on their way *)

Inductive Flight :=
| Queued (job : PushJob)
| Sending (key : Key) (waiting : list (string * Subscription)).
Definition flight_key (f : Flight) : Key := match f with Queued job => jb_key job | Sending key _ => key end.
(** [px_log]: when each push was first tried, the last at the end. *)
Record PushSys (D V S : Type) := mkPushSys {
  px_push : PushState D V S;
  px_flights : list Flight;
  px_log : list (Key * Z);
}.
Arguments mkPushSys {D V S}.
Arguments px_push {D V S}.
Arguments px_flights {D V S}.
Arguments px_log {D V S}.
Inductive PushAct (S : Type) :=
| DoSubscription (device : string) (v : Value)
| DoUnsubscribe (device endpoint : string)
| DoForget (device : string)
| DoInit
| DoRequest (device_ids payload : Value)
| DoStart (i : nat) (unix_now : Z) (draws : nat → S * string)
| DoAnswer (i j : nat) (answer : string + Z)
| DoFinish (i : nat)
| DoClock (now : Z) (utc : string) (secret : S).
Arguments DoSubscription {S}.
Arguments DoUnsubscribe {S}.
Arguments DoForget {S}.
Arguments DoInit {S}.
Arguments DoRequest {S}.
Arguments DoStart {S}.
Arguments DoAnswer {S}.
Arguments DoFinish {S}.
Arguments DoClock {S}.

Section System.
Context {K S : Type} `{Base64, Crypto, Json, !PushCrates K S, Vault V, Fs D} (windows : bool).
Context (parse_from_rfc3339 : string → option (Z * Z * Timestamp)).
Context (devices_slice : string → option DevicesFile) (push_slice : string → option PushFile).
Context (to_vec_pretty : PushFile → string + string) (dir : string).
Abbreviation State := (PushState D V S).
Abbreviation System := (PushSys D V S).
Implicit Types (s : State) (x : System).

Definition with_push {A} (r : outcome Empty_set A * State) (x : System) (k : A → System → System) : option System :=
  match r with
  | (Ok a, s) => Some (k a (mkPushSys s x.(px_flights) x.(px_log)))
  | (Err _, _) | (Panic, _) => None
  end.
Definition with_flights l x : System := mkPushSys x.(px_push) l x.(px_log).
Definition push_do (a : PushAct S) x : option System :=
  let s := x.(px_push) in
  match a with
  | DoSubscription device v => with_push (subscription windows to_vec_pretty dir device v s) x (λ _, id)
  | DoUnsubscribe device endpoint => with_push (unsubscribe windows to_vec_pretty dir device endpoint s) x (λ _, id)
  | DoForget device => with_push (forget windows to_vec_pretty dir device s) x (λ _, id)
  | DoInit => with_push (push_init windows parse_from_rfc3339 devices_slice to_vec_pretty dir s) x (λ _, id)
  | DoRequest ids payload => with_push (request ids payload s) x (λ o x,
      match o with Some job => with_flights (x.(px_flights) ++ [Queued job]) x | None => x end)
  | DoStart i unix_now draws =>
      match x.(px_flights) !! i with
      | Some (Queued job) => with_push (deliver_start job unix_now draws s) x (λ requests x,
          match requests with
          | [] => mkPushSys (release_hold (jb_key job) x.(px_push)) (delete i x.(px_flights)) x.(px_log)
          | _ => mkPushSys x.(px_push) (<[i := Sending (jb_key job) requests.*1]> x.(px_flights))
                   (x.(px_log) ++ [(jb_key job, s.(ps_now))])
          end)
      | _ => None
      end
  | DoAnswer i j answer =>
      match x.(px_flights) !! i with
      | Some (Sending key waiting) =>
          '(device, sub) ← waiting !! j;
          with_push (deliver_answer windows to_vec_pretty dir device sub answer s) x (λ _ x,
            with_flights (<[i := Sending key (delete j waiting)]> x.(px_flights)) x)
      | _ => None
      end
  | DoFinish i =>
      match x.(px_flights) !! i with
      | Some (Sending key []) => Some (mkPushSys (release_hold key s) (delete i x.(px_flights)) x.(px_log))
      | _ => None
      end
  | DoClock now utc secret =>
      if s.(ps_now) <=? now then Some (mkPushSys (set_clocks now utc secret s) x.(px_flights) x.(px_log)) else None
  end.
Fixpoint push_dos (l : list (PushAct S)) x : option System :=
  match l with [] => Some x | a :: l => x ← push_do a x; push_dos l x end.
Definition push_sys_step x x' : Prop := ∃ a, push_do a x = Some x'.
(** From a start of the desktop *)
Definition push_reachable x : Prop := ∃ vault now utc secret d s d',
  push_new parse_from_rfc3339 devices_slice push_slice dir vault now utc secret d = (Ok s, d')
  ∧ rtc push_sys_step (mkPushSys s [] []) x.
End System.

(** ** What is stored *)
Section Facts.
Context {K S : Type} `{Base64, Crypto, Json, !PushCrates K S, Vault V, Fs D, !FsLaws H3} (windows : bool).
Context (parse_from_rfc3339 : string → option (Z * Z * Timestamp)).
Context (devices_slice : string → option DevicesFile) (push_slice : string → option PushFile).
Context (to_vec_pretty : PushFile → string + string) (dir : string).
Abbreviation State := (PushState D V S).
Implicit Types (s : State) (sub : Subscription).

(** A device has one to four subscriptions, one per endpoint, each one to send to. *)
Definition list_wf (l : list Subscription) : Prop :=
  l ≠ [] ∧ (length l ≤ 4)%nat ∧ NoDup (su_endpoint <$> l) ∧ Forall (λ sub, sub_ok sub = true) l.
Definition subs_wf (m : Subscriptions) : Prop := map_Forall (λ _ l, list_wf l) m.

Definition endpoints_wf (l : list Subscription) : Prop := NoDup (su_endpoint <$> l) ∧ Forall (λ sub, sub_ok sub = true) l.
Lemma filter_wf (f : Subscription → bool) l : endpoints_wf l → endpoints_wf (List.filter f l).
Proof.
  intros [Hnd Hok]. induction l as [|sub l IH]; [done|]. rewrite fmap_cons, NoDup_cons in Hnd. destruct Hnd as [Hn Hnd].
  apply Forall_cons in Hok as [Hs Hok]. destruct (IH Hnd Hok) as [IH1 IH2]. cbn. destruct (f sub); [|done]. split; [|by constructor].
  rewrite fmap_cons, NoDup_cons. split; [|done]. intros (o & Ho & Hin)%list_elem_of_fmap. apply Hn.
  rewrite Ho. apply list_elem_of_fmap_2. apply list_elem_of_In, List.filter_In in Hin as [Hin _]. by apply list_elem_of_In.
Qed.
Lemma tidy_from_wf l kept : endpoints_wf kept → endpoints_wf (tidy_from kept l).
Proof.
  revert kept. induction l as [|sub l IH]; intros kept Hk; [done|]. cbn [tidy_from]. destruct (sub_ok sub) eqn:Hs; [|by apply IH].
  apply IH. destruct (filter_wf (λ o, negb (bool_decide (su_endpoint o = su_endpoint sub))) _ Hk) as [Hnd Hok]. split.
  - rewrite fmap_app. apply NoDup_app. split; [done|]. split; [|apply NoDup_singleton].
    intros e (o & -> & Hin)%list_elem_of_fmap He%list_elem_of_singleton.
    apply list_elem_of_In, List.filter_In in Hin as [_ Ho%negb_true_iff%bool_decide_eq_false]. done.
  - apply Forall_app. split; [done|by repeat constructor].
Qed.
Lemma tidy_from_app l l' kept : tidy_from kept (l ++ l') = tidy_from (tidy_from kept l) l'.
Proof. revert kept. induction l as [|sub l IH]; intros kept; [done|]. cbn. destruct (sub_ok sub); apply IH. Qed.
Lemma remove_list_wf n l : endpoints_wf l → endpoints_wf (drop n l).
Proof.
  intros [Hnd Hok]. split; [|by apply Forall_drop]. rewrite fmap_drop. eapply sublist_NoDup; [exact Hnd|apply sublist_drop].
Qed.
Lemma tidy_wf l : endpoints_wf (tidy l) ∧ (length (tidy l) ≤ 4)%nat.
Proof.
  unfold tidy. split; [apply remove_list_wf, tidy_from_wf; split; constructor|]. rewrite length_drop. unfold ENDPOINTS_PER_DEVICE. lia.
Qed.
Lemma tidy_last l sub : sub_ok sub = true → ∃ k, tidy (l ++ [sub]) = k ++ [sub].
Proof.
  intros Hs. unfold tidy. rewrite tidy_from_app. cbn [tidy_from]. rewrite Hs. set (k := List.filter _ _).
  exists (drop (length (k ++ [sub]) - ENDPOINTS_PER_DEVICE) k). rewrite drop_app_le; [done|].
  rewrite length_app. unfold ENDPOINTS_PER_DEVICE. cbn. lia.
Qed.
Lemma tidy_add l sub : sub_ok sub = true → list_wf (tidy (l ++ [sub])).
Proof.
  intros Hs. destruct (tidy_wf (l ++ [sub])) as [[Hnd Hok] Hl]. split; [|done]. destruct (tidy_last l sub Hs) as [k ->]. by destruct k.
Qed.

Lemma retain_known_wf m d : wp (retain_known parse_from_rfc3339 devices_slice dir m) (λ r _, match r with
  | Ok kept => subs_wf kept
  | _ => False
  end) d.
Proof.
  unfold retain_known. apply wp_bind, wp_attempt. eapply wp_mono; [apply load_keeps|].
  intros r d1 [_ Hr]. destruct r as [ds|e|]; [..|done]; apply wp_ret; intros id l [Hl Hne]%map_lookup_filter_Some;
    rewrite lookup_fmap in Hl; apply fmap_Some in Hl as (l0 & _ & ->); destruct (tidy_wf l0) as [[? ?] ?]; by split.
Qed.

(** Memory follows the file. *)
Definition path : string * string := (dir, PUSH_FILE).
Definition follows next s (r : bool) s' : Prop :=
  ∃ d, (∀ q, q ≠ path → q ≠ tmp_of path → fs_file d q = fs_file (ps_disk s) q) ∧
  if r then s' = set_subscriptions next (set_file d s)
            ∧ written to_vec_pretty (mkPushFile VERSION next) (fs_file d path)
  else s' = set_file d s.
Lemma commit_follows next s : wp (push_commit windows to_vec_pretty dir next) (λ r s', match r with
  | Ok _ => follows next s true s'
  | Err _ => follows next s false s'
  | Panic => False
  end) s.
Proof.
  unfold push_commit. apply wp_bind. unfold on_file. apply wp_zoom. eapply wp_mono; [apply (write_json_spec windows)|].
  intros [[]|e|] d [Hq Hr]; [|by exists d|done]. apply wp_modify. exists d. by destruct s.
Qed.
Lemma saved_follows next s : wp (saved windows to_vec_pretty dir next) (λ r s', match r with
  | Ok b => follows next s b s'
  | _ => False
  end) s.
Proof.
  unfold saved. apply wp_bind, wp_attempt. eapply wp_mono; [apply commit_follows|]. intros [[]|e|] s' Hf; [..|done]; by apply wp_ret.
Qed.

(** Only the subscriptions, the key, the credential store and the file are changed. *)
Definition keeps_wf s s' : Prop :=
  ps_sent s' = ps_sent s ∧ ps_held s' = ps_held s ∧ ps_now s' = ps_now s ∧ (subs_wf (ps_subscriptions s) → subs_wf (ps_subscriptions s')).
#[local] Instance keeps_refl : Reflexive keeps_wf.
Proof. done. Qed.
#[local] Instance keeps_trans : Transitive keeps_wf.
Proof. intros s1 s2 s3 (H5 & H6 & H7 & H8) (H9 & H10 & H11 & H12). split; [congruence|]. split; [congruence|]. split; [congruence|tauto]. Qed.
Lemma follows_wf next s b s' : (subs_wf (ps_subscriptions s) → subs_wf next) → follows next s b s' → keeps_wf s s'.
Proof. intros Hn (d & _ & Hf). destruct b; [destruct Hf as [-> _]|subst]; (split; [done|split; [done|split; [done|exact Hn || done]]]). Qed.

Definition does {A} (m : M State Empty_set A) : Prop :=
  ∀ s, wp m (λ r s', match r with Ok _ => keeps_wf s s' | _ => False end) s.
Lemma does_saved next s : (subs_wf (ps_subscriptions s) → subs_wf next) →
  wp (saved windows to_vec_pretty dir next) (λ r s', match r with Ok _ => keeps_wf s s' | _ => False end) s.
Proof. intros Hn. eapply wp_mono; [apply saved_follows|]. intros [b| |] s' Hf; [|done..]. by eapply follows_wf. Qed.
Lemma does_subscription device v : does (subscription windows to_vec_pretty dir device v).
Proof.
  intros s. unfold subscription. apply wp_bind, wp_gets. cbn [id]. destruct (reported v) as [[[endpoint p256dh] auth]|]; [|by apply wp_ret].
  destruct (sub_ok _) eqn:Hs; [|by apply wp_ret]. cbn [negb]. apply does_saved. intros Hwf. apply map_Forall_insert_2; [|done]. by apply tidy_add.
Qed.
Lemma does_remove device gone : does (remove windows to_vec_pretty dir device gone).
Proof.
  intros s. unfold remove. apply wp_bind, wp_gets. cbn [id]. destruct (_ !! device) as [l|] eqn:Hl; [|by apply wp_ret].
  case_bool_decide; [by apply wp_ret|]. apply does_saved. intros Hwf. case_bool_decide as Hr; [by apply map_Forall_delete|].
  apply map_Forall_insert_2; [|done]. destruct (Hwf _ _ Hl) as (_ & Hlen & Hnd & Hok). split; [done|]. split.
  - pose proof (List.filter_length_le (λ sub, negb (gone sub)) l). lia.
  - by apply filter_wf.
Qed.
Lemma does_forget device : does (forget windows to_vec_pretty dir device).
Proof.
  intros s. unfold forget. apply wp_bind, wp_gets. cbn [id]. case_bool_decide; [|by apply wp_ret]. apply does_saved.
  intros Hwf. by apply map_Forall_delete.
Qed.
Lemma does_answer device sub answer : does (deliver_answer windows to_vec_pretty dir device sub answer).
Proof.
  intros s. unfold deliver_answer. destruct answer; [by apply wp_ret|]. destruct (_ || _); [apply does_remove|by apply wp_ret].
Qed.
Lemma vapid_keeps s : wp (vapid windows to_vec_pretty dir) (λ r s', r ≠ Panic ∧ keeps_wf s s') s.
Proof.
  unfold vapid. apply wp_bind, wp_gets. cbn [id]. destruct (ps_vapid s); [by apply wp_ret|]. apply wp_bind.
  unfold vapid_load. apply wp_bind, wp_gets. cbn [id].
  assert (∀ v created s1, keeps_wf s s1 → wp (let! s := gets id in
      when (created && negb (bool_decide (ps_subscriptions s = ∅))) (let! r := attempt (saved windows to_vec_pretty dir ∅) in ret tt);;
      modify (set_vapid (Some v));; ret v : M State string (Vapid S)) (λ r s', r ≠ Panic ∧ keeps_wf s s') s1) as Hk.
  { intros v created s1 Hs1. apply wp_bind, wp_gets, wp_bind, wp_when.
    destruct (_ && _); [|by apply wp_bind, wp_modify, wp_ret]. apply wp_bind, wp_attempt.
    eapply wp_mono; [by apply does_saved|]. intros [b| |] s2 Hs2; [|done..]. apply wp_ret, wp_bind, wp_modify, wp_ret.
    split; [done|]. by etrans; [exact Hs1|]. }
  destruct (vault_load _) as [e|[stored|]].
  - by apply wp_throw.
  - destruct (b64url_decode stored ≫= secret_from_slice); [apply wp_ret; by apply (Hk _ false)|by apply wp_throw].
  - destruct (vault_store _ _) as [[e|[]] v].
    + apply wp_bind, wp_modify. by apply wp_throw.
    + apply wp_bind, wp_modify, wp_ret. by apply (Hk _ true).
Qed.
Lemma does_init : does (push_init windows parse_from_rfc3339 devices_slice to_vec_pretty dir).
Proof.
  intros s. unfold push_init. apply wp_bind, wp_attempt. eapply wp_mono; [apply vapid_keeps|].
  intros [v|e|] s1 [Hp Hs1]; [|by apply wp_ret|by destruct Hp]. apply wp_bind, wp_gets, wp_bind. unfold on_file. apply wp_zoom.
  eapply wp_mono; [apply retain_known_wf|]. intros [kept| |] d Hwf; [|done..]. apply wp_bind.
  assert (keeps_wf s (set_file d s1)) as Hs2 by (etrans; [exact Hs1|done]).
  case_bool_decide; [apply wp_ret, wp_bind, wp_gets, wp_ret; exact Hs2|]. apply wp_bind, wp_attempt.
  eapply wp_mono; [apply commit_follows|].
  intros [[]|e|] s3 Hf; [..|done]; apply wp_ret, wp_bind, wp_gets, wp_ret; (etrans; [exact Hs2|eapply follows_wf; [|exact Hf]; done]).
Qed.

(** ** Requests *)
Definition cooled s : gmap Key Z := filter (λ e : Key * Z, ps_now s - e.2 < COOLDOWN) (ps_sent s).
Lemma request_spec ids payload s : wp (request ids payload : M State Empty_set (option PushJob)) (λ r s', match r with
  | Ok None => s' = s ∨ s' = set_sent (cooled s) s
  | Ok (Some job) => s' = set_held ({[jb_key job]} ∪ ps_held s) (set_sent (cooled s) s)
      ∧ jb_key job ∉ ps_held s ∧ cooled s !! jb_key job = None ∧ len (jb_message job) <= MESSAGE_BYTES
      ∧ (∃ m, message_from payload = Some m ∧ json_to_vec (message_value m) = Some (jb_message job))
      ∧ ∃ l, as_array ids = Some l ∧ jb_targets job = job_targets l (ps_subscriptions s)
  | _ => False
  end) s.
Proof.
  unfold request. apply wp_bind, wp_gets. cbn [id]. destruct (_ ← ps_vapid s; _) as [[[m body] targets]|] eqn:Hreq; [|apply wp_ret; by left].
  apply bind_Some in Hreq as (v & _ & Hreq). apply bind_Some in Hreq as (m' & Hm & Hreq). apply bind_Some in Hreq as (body' & Hbody & Hreq).
  destruct (MESSAGE_BYTES <? len body') eqn:Hlen; [done|]. apply bind_Some in Hreq as (l & Hl & [= <- <- <-]).
  destruct (job_targets l (ps_subscriptions s)) as [|t targets] eqn:Ht; [apply wp_ret; by left|].
  apply wp_bind, wp_modify, wp_bind, wp_gets. cbn [id]. fold (cooled s). destruct (_ || _) eqn:Hk; [apply wp_ret; by right|].
  apply orb_false_iff in Hk as [Hs%bool_decide_eq_false Hh%bool_decide_eq_false].
  apply wp_bind, wp_modify, wp_ret. cbn [jb_key jb_message jb_targets]. split; [done|]. split; [exact Hh|].
  split; [by apply eq_None_not_Some|]. split; [lia|]. split; [by exists m'|]. exists l. by rewrite Ht.
Qed.
Lemma job_targets_elem l m device sub : (device, sub) ∈ job_targets l m →
  VString device ∈ l ∧ ∃ list, m !! device = Some list ∧ sub ∈ list.
Proof.
  unfold job_targets. intros (i & Hp & Hi)%list_elem_of_bind. apply list_elem_of_fmap in Hp as (sub' & [= -> ->] & Hsub).
  split.
  - unfold sorted_set in Hi. rewrite merge_sort_Permutation, elem_of_elements, elem_of_list_to_set in Hi.
    apply list_elem_of_omap in Hi as (v & Hv & Hs). by destruct v; try done; injection Hs as ->.
  - destruct (m !! i) as [list|]; [|by apply elem_of_nil in Hsub]. by exists list.
Qed.

(** ** The invariant of the pushes on their way *)
Abbreviation System := (PushSys D V S).
Abbreviation push_do := (push_do windows parse_from_rfc3339 devices_slice to_vec_pretty dir).
Implicit Types (x : System).
Abbreviation fkeys x := (flight_key <$> px_flights x).
Record push_inv x : Prop := {
  pi_subs : subs_wf (ps_subscriptions (px_push x));
  pi_held k : k ∈ ps_held (px_push x) ↔ k ∈ fkeys x;
  pi_once : NoDup (fkeys x);
  pi_queued job t : Queued job ∈ px_flights x → (jb_key job, t) ∈ px_log x → t + COOLDOWN <= ps_now (px_push x);
  pi_sent k t : (k, t) ∈ px_log x →
    t + COOLDOWN <= ps_now (px_push x) ∨ ∃ t', ps_sent (px_push x) !! k = Some t' ∧ t <= t';
  pi_log i j k t t' : (i < j)%nat → px_log x !! i = Some (k, t) → px_log x !! j = Some (k, t') → t + COOLDOWN <= t';
}.

Lemma inv_keeps s' x : push_inv x → keeps_wf (px_push x) s' → push_inv (mkPushSys s' (px_flights x) (px_log x)).
Proof.
  intros [H5 H6 H7 H8 H9 H10] (Hsent & Hheld & Hnow & Hwf). constructor; cbn; rewrite ?Hsent, ?Hheld, ?Hnow; try done. by apply Hwf.
Qed.
Lemma inv_does {A} (m : M State Empty_set A) x x' (k : A → System → System) : push_inv x → does m →
  with_push (m (px_push x)) x k = Some x' →
  ∃ a x1, push_inv x1 ∧ x' = k a x1 ∧ px_flights x1 = px_flights x ∧ px_log x1 = px_log x.
Proof.
  intros Hi Hm. unfold with_push. specialize (Hm (px_push x)). unfold wp in Hm. destruct (m (px_push x)) as [[a|e|] s']; cbn in Hm; [|done..].
  intros [= <-]. eexists a, _. split; [by apply inv_keeps|]. by repeat split.
Qed.
(** Two flights of one key are the same. *)
Lemma flight_unique x i j f f' : push_inv x → px_flights x !! i = Some f → px_flights x !! j = Some f' → flight_key f = flight_key f' → i = j.
Proof.
  intros Hi Hf Hf' Hk. eapply (NoDup_lookup (fkeys x)); [apply Hi| |]; rewrite list_lookup_fmap; [by rewrite Hf|by rewrite Hf', Hk].
Qed.
Lemma inv_request ids payload x x' : push_inv x → push_do (DoRequest ids payload) x = Some x' → push_inv x'.
Proof.
  intros Hi. cbn [DesktopPush.push_do]. unfold with_push. pose proof (request_spec ids payload (px_push x)) as Hr. unfold wp in Hr.
  destruct (request ids payload (px_push x)) as [[o|e|] s'] eqn:Hrun; cbn in Hr; [|done..]. intros [= <-].
  pose proof Hi as [H5 H6 H7 H8 H9 H10].
  assert (∀ k t, (k, t) ∈ px_log x → t + COOLDOWN <= ps_now (px_push x)
    ∨ ∃ t', cooled (px_push x) !! k = Some t' ∧ t <= t') as Hcool.
  { intros k t Hin. destruct (H9 k t Hin) as [|(t' & Ht' & Hle)]; [by left|].
    destruct (decide (ps_now (px_push x) - t' < COOLDOWN)); [|left; lia].
    right. exists t'. split; [|done]. by apply map_lookup_filter_Some. }
  destruct o as [job|].
  - destruct Hr as (-> & Hh & Hc & _). constructor; cbn.
    + exact H5.
    + intros k. rewrite fmap_app, elem_of_app, elem_of_union, elem_of_singleton, H6. cbn. rewrite list_elem_of_singleton. tauto.
    + rewrite fmap_app. apply NoDup_app. split; [done|]. split; [|apply NoDup_singleton]. intros k Hk ->%list_elem_of_singleton.
      apply Hh. by apply H6.
    + intros job' t [Hin|Hin%list_elem_of_singleton]%elem_of_app Hl; [by eapply H8|]. injection Hin as ->.
      destruct (Hcool _ _ Hl) as [|(t' & Ht' & _)]; [done|by rewrite Hc in Ht'].
    + exact Hcool.
    + exact H10.
  - destruct Hr as [-> | ->]; [by constructor|]. by constructor.
Qed.
(** A flight that ends lets its key go. *)
Lemma inv_drop i f x : push_inv x → px_flights x !! i = Some f →
  push_inv (mkPushSys (release_hold (flight_key f) (px_push x)) (delete i (px_flights x)) (px_log x)).
Proof.
  intros Hi Hf. pose proof Hi as [H5 H6 H7 H8 H9 H10]. constructor; cbn; try done.
  - intros k. rewrite elem_of_difference, not_elem_of_singleton, H6. split.
    + intros [(g & -> & (j & Hj)%list_elem_of_lookup_1)%list_elem_of_fmap Hne]. apply list_elem_of_fmap_2.
      assert (j ≠ i) by (intros ->; rewrite Hf in Hj; injection Hj as <-; done).
      destruct (decide (j < i)%nat); [eapply (list_elem_of_lookup_2 _ j); by rewrite list_lookup_delete_lt|].
      eapply (list_elem_of_lookup_2 _ (j - 1)). rewrite list_lookup_delete_ge by lia. by replace (Datatypes.S (j - 1)) with j by lia.
    + intros (g & -> & (j & Hj)%list_elem_of_lookup_1)%list_elem_of_fmap.
      assert (∃ j', j' ≠ i ∧ px_flights x !! j' = Some g) as (j' & Hne & Hj').
      { destruct (decide (j < i)%nat); [exists j; split; [lia|by rewrite list_lookup_delete_lt in Hj]|].
        exists (Datatypes.S j). split; [lia|]. by rewrite list_lookup_delete_ge in Hj by lia. }
      split; [apply list_elem_of_fmap_2; by eapply list_elem_of_lookup_2|]. intros Hk. apply Hne.
      by apply (flight_unique x j' i g f).
  - rewrite list_fmap_delete. eapply sublist_NoDup; [exact H7|apply sublist_delete].
  - intros job' t Hin. apply H8. eapply elem_of_sublist; [exact Hin|apply sublist_delete].
Qed.
Lemma push_inv_start i unix_now draws x x' : push_inv x → push_do (DoStart i unix_now draws) x = Some x' → push_inv x'.
Proof.
  intros Hi. cbn [DesktopPush.push_do]. destruct (px_flights x !! i) as [[job|]|] eqn:Hf; [|done..].
  pose proof Hi as [H5 H6 H7 H8 H9 H10]. unfold with_push, deliver_start.
  pose proof (inv_drop i (Queued job) x Hi Hf) as Hdrop.
  unfold bind, gets. cbn [id]. destruct (ps_vapid (px_push x)) as [v|]; cbn; [|intros [= <-]; exact Hdrop].
  destruct (build_all _ _ _ _ _ _) as [|r l]; cbn; [intros [= <-]; exact Hdrop|intros [= <-]].
  assert (∀ t, (jb_key job, t) ∈ px_log x → t + COOLDOWN <= ps_now (px_push x)) as Hcool.
  { intros t. apply H8. by eapply list_elem_of_lookup_2. }
  constructor; cbn.
  - exact H5.
  - intros k. rewrite H6. rewrite list_fmap_insert. cbn. rewrite list_insert_id; [done|]. rewrite list_lookup_fmap, Hf. done.
  - rewrite list_fmap_insert. cbn. rewrite list_insert_id; [done|]. rewrite list_lookup_fmap, Hf. done.
  - intros job' t Hin [Hl|Hl%list_elem_of_singleton]%elem_of_app.
    + apply (H8 job'); [|done]. apply list_elem_of_lookup_1 in Hin as [j Hj]. destruct (decide (i = j)) as [<-|Hne].
      { rewrite list_lookup_insert_eq in Hj by (by eapply lookup_lt_Some). done. }
      rewrite list_lookup_insert_ne in Hj by done. by eapply list_elem_of_lookup_2.
    + injection Hl as Hk ->. apply list_elem_of_lookup_1 in Hin as [j Hj]. destruct (decide (i = j)) as [<-|Hne].
      { rewrite list_lookup_insert_eq in Hj by (by eapply lookup_lt_Some). done. }
      rewrite list_lookup_insert_ne in Hj by done. destruct Hne. by eapply (flight_unique x i j (Queued job) (Queued job')).
  - intros k t [Hl|Hl%list_elem_of_singleton]%elem_of_app.
    + destruct (decide (k = jb_key job)) as [->|Hne]; [left; by apply Hcool|]. rewrite lookup_insert_ne by done. by apply H9.
    + injection Hl as -> ->. right. exists (ps_now (px_push x)). by rewrite lookup_insert_eq.
  - intros a b k t t' Hab Ha Hb. destruct (decide (b < length (px_log x))%nat) as [Hbl|Hbl].
    + rewrite lookup_app_l in Ha, Hb by lia. by apply (H10 a b k).
    + rewrite lookup_app_r in Hb by lia. apply list_lookup_singleton_Some in Hb as [Hb [= <- <-]].
      rewrite lookup_app_l in Ha by lia. apply Hcool. by eapply list_elem_of_lookup_2.
Qed.
Lemma inv_answer i j answer x x' : push_inv x → push_do (DoAnswer i j answer) x = Some x' → push_inv x'.
Proof.
  intros Hi. cbn [DesktopPush.push_do]. destruct (px_flights x !! i) as [[|key waiting]|] eqn:Hf; [done| |done].
  intros ([device sub] & Hw & Ha)%bind_Some.
  destruct (inv_does _ _ _ _ Hi (does_answer device sub answer) Ha) as (b & x1 & [H5 H6 H7 H8 H9 H10] & -> & Hfl & _).
  assert (flight_key <$> <[i := Sending key (delete j waiting)]> (px_flights x1) = fkeys x1) as Hk.
  { rewrite list_fmap_insert. cbn. rewrite list_insert_id; [done|]. rewrite list_lookup_fmap, Hfl, Hf. done. }
  constructor; cbn; rewrite ?Hk; try done.
  intros job t [a Ha']%list_elem_of_lookup_1. apply H8. destruct (decide (i = a)) as [<-|Hne].
  - rewrite list_lookup_insert_eq in Ha' by (rewrite Hfl; by eapply lookup_lt_Some). done.
  - rewrite list_lookup_insert_ne in Ha' by done. by eapply list_elem_of_lookup_2.
Qed.
Lemma inv_push_step a x x' : push_inv x → push_do a x = Some x' → push_inv x'.
Proof.
  intros Hi. destruct a as [device v|device endpoint|device| |ids payload|i unix_now draws|i j answer|i|now utc secret].
  - intros Ha. by destruct (inv_does _ _ _ _ Hi (does_subscription device v) Ha) as (b & x1 & Hi1 & -> & _).
  - intros Ha. by destruct (inv_does _ _ _ _ Hi (does_remove device _) Ha) as (b & x1 & Hi1 & -> & _).
  - intros Ha. by destruct (inv_does _ _ _ _ Hi (does_forget device) Ha) as (b & x1 & Hi1 & -> & _).
  - intros Ha. by destruct (inv_does _ _ _ _ Hi does_init Ha) as (b & x1 & Hi1 & -> & _).
  - by apply inv_request.
  - by apply push_inv_start.
  - by apply inv_answer.
  - cbn [DesktopPush.push_do]. destruct (px_flights x !! i) as [[|key [|w waiting]]|] eqn:Hf; [done| |done..]. intros [= <-].
    by apply (inv_drop i (Sending key [])).
  - cbn [DesktopPush.push_do]. destruct (ps_now (px_push x) <=? now) eqn:Hn; [|done]. intros [= <-].
    destruct Hi as [H5 H6 H7 H8 H9 H10]. constructor; cbn; try done.
    + intros job t Hin Hl. specialize (H8 job t Hin Hl). lia.
    + intros k t Hl. destruct (H9 k t Hl); [left; lia|by right].
Qed.
Lemma push_reachable_inv x :
  push_reachable windows parse_from_rfc3339 devices_slice push_slice to_vec_pretty dir x → push_inv x.
Proof.
  intros (vault & now & utc & secret & d & s & d' & Hnew & Hr).
  assert (push_inv (mkPushSys s [] [])) as Hi.
  { unfold push_new in Hnew. destruct (attempt _ d) as [r d1]. set (m := match r with Ok _ => _ | _ => _ end) in Hnew.
    pose proof (retain_known_wf m d1) as Hw. unfold wp in Hw. destruct (retain_known _ _ _ _ _) as [[kept|e|] d2]; cbn in Hw; try done.
    injection Hnew as <- _. constructor; cbn; try done; try (by intros; set_solver). by constructor. }
  clear Hnew. induction Hr as [|x1 x2 x3 [a Ha] _ IH]; [done|]. by apply IH, (inv_push_step a x1).
Qed.

(** C30. Whatever the phones, the push services and the gateway do, every device has one to
    four subscriptions, with different endpoints, each a key to send to. *)
Theorem push_subscriptions x :
  push_reachable windows parse_from_rfc3339 devices_slice push_slice to_vec_pretty dir x →
  map_Forall (λ _ l, list_wf l) (ps_subscriptions (px_push x)).
Proof. intros Hr. by destruct (push_reachable_inv x Hr). Qed.

(** C28. Two pushes of one pane and kind are never less than a minute apart, by the first try
    of each, however slowly the push services answer and whatever is reported meanwhile. *)
Theorem push_cooldown x i j key t t' :
  push_reachable windows parse_from_rfc3339 devices_slice push_slice to_vec_pretty dir x → (i < j)%nat →
  px_log x !! i = Some (key, t) → px_log x !! j = Some (key, t') → t + COOLDOWN <= t'.
Proof. intros Hr. by apply (pi_log _ (push_reachable_inv x Hr)). Qed.

(** ** What is sent where *)
Definition destination (sub : Subscription) (url : string) : Prop :=
  url = su_endpoint sub ∧ ∃ u host, url_parse url = Some u ∧ url_scheme u = "https" ∧ url_username u = "" ∧ url_password u = None
    ∧ url_host_str u = Some host ∧ host_allowed host = true.
(** The head of an RFC 8188 body of one record: the salt, the record size as four
    bytes, and the sender's key after its length. *)
Definition record_head (sender : S) (salt : string) : string :=
  let sender_public := sec1_point (public_key sender) in
  salt +:+ of_bytes [0; 0; 16; 0] +:+ of_bytes [len sender_public mod 256] +:+ sender_public.
(** [body] is the encryption of [message] for the keys of [sub]: a head and one
    record, which holds the message, its end mark and the tag. *)
Definition sealed_for (message : string) (sub : Subscription) (draw : S * string) (body : string) : Prop :=
  ∃ receiver auth sealed, keys sub = Some (receiver, auth)
  ∧ encrypt message receiver auth draw.1 draw.2 = inr body
  ∧ body = record_head draw.1 draw.2 +:+ sealed ∧ len sealed = len message + 17.
Lemma encrypt_len `{!PushCratesLaws PushCrates0} message receiver auth sender salt body :
  encrypt message receiver auth sender salt = inr body →
  ∃ sealed, body = record_head sender salt +:+ sealed ∧ len sealed = len message + 17.
Proof.
  unfold encrypt. destruct (ikm ← hkdf_expand _ _ _ _; _) as [sealed|] eqn:Hs; [|done]. intros [= <-].
  apply bind_Some in Hs as (ikm & _ & Hs). apply bind_Some in Hs as (cek & _ & Hs). apply bind_Some in Hs as (nonce & _ & Hs).
  exists sealed. split; [unfold record_head; by rewrite <- !append_assoc|].
  rewrite (aes128gcm_len _ _ _ _ Hs), len_append. change (len (of_bytes [2])) with 1. lia.
Qed.
Lemma build_all_spec `{!PushCratesLaws PushCrates0} v message urgency unix_now draws targets :
  Forall (λ e, e.1 ∈ targets ∧ destination e.1.2 (sd_url e.2)
    ∧ ∃ n, sealed_for message e.1.2 (draws n) (sd_body e.2))
    (build_all v message urgency unix_now draws targets).
Proof.
  revert draws. induction targets as [|[device sub] targets IH]; intros draws; [constructor|]. cbn [build_all].
  specialize (IH (draws ∘ Datatypes.S)).
  assert (Forall (λ e, e.1 ∈ (device, sub) :: targets ∧ destination e.1.2 (sd_url e.2)
    ∧ ∃ n, sealed_for message e.1.2 (draws n) (sd_body e.2))
    (build_all v message urgency unix_now (draws ∘ Datatypes.S) targets)) as IH'.
  { eapply Forall_impl; [exact IH|]. intros e (He & Hd & n & Hb). split; [by right|]. split; [done|]. by exists (Datatypes.S n). }
  destruct (build_request _ _ _ _ _ _ _) as [e|r] eqn:Hr; [exact IH'|]. constructor; [|exact IH']. cbn.
  split; [by left|]. unfold build_request in Hr. destruct (keys sub) as [[receiver auth]|] eqn:Hk; [|done].
  destruct (url_parse (su_endpoint sub)) as [u|] eqn:Hu; [|done].
  destruct (encrypt _ _ _ _ _) as [e|body] eqn:He; [done|]. injection Hr as <-. cbn. split.
  - split; [done|]. unfold keys in Hk. rewrite Hu in Hk. cbn in Hk. apply bind_Some in Hk as (host & Hh & Hk).
    destruct (negb _) eqn:Hc; [done|]. apply negb_false_iff in Hc. rewrite !andb_true_iff, !bool_decide_eq_true in Hc.
    exists u, host. by destruct Hc as [[[[[[_ _] ?] ?] ?] _] ?].
  - exists 0%nat. destruct (encrypt_len _ _ _ _ _ _ He) as (sealed & Hb & Hlen). by exists receiver, auth, sealed.
Qed.
(** C29. A push goes only where it may.  Every request of a job goes to a subscription stored
    for a device the gateway named, at an https address of one of the four push
    services, without user information.  Its body is the encryption of the JSON of the
    message the gateway sent, which is at most three kilobytes, for the keys of that
    subscription: the RFC 8188 head, then one record that holds the whole message and
    17 bytes more, within the 4096 bytes the head announces. *)
Theorem push_destinations `{!PushCratesLaws PushCrates0} s ids payload job s' v unix_now draws :
  request ids payload s = (Ok (Some job), s') →
  (∃ m, message_from payload = Some m ∧ json_to_vec (message_value m) = Some (jb_message job))
  ∧ len (jb_message job) <= MESSAGE_BYTES
  ∧ Forall (λ '(device, sub, r),
    (∃ l, as_array ids = Some l ∧ VString device ∈ l)
    ∧ (∃ subs, ps_subscriptions s !! device = Some subs ∧ sub ∈ subs)
    ∧ destination sub (sd_url r)
    ∧ ∃ n receiver auth sealed, keys sub = Some (receiver, auth)
       ∧ encrypt (jb_message job) receiver auth (draws n).1 (draws n).2 = inr (sd_body r)
       ∧ sd_body r = record_head (draws n).1 (draws n).2 +:+ sealed
       ∧ len sealed = len (jb_message job) + 17 ∧ len sealed <= RECORD_SIZE)
    (build_all v (jb_message job) (jb_urgency job) unix_now draws (jb_targets job)).
Proof.
  intros Hreq. pose proof (request_spec ids payload s) as Hr. unfold wp in Hr. rewrite Hreq in Hr. cbn in Hr.
  destruct Hr as (_ & _ & _ & Hlen & Hm & l & Hl & Ht). split; [exact Hm|]. split; [exact Hlen|].
  eapply Forall_impl; [apply build_all_spec|].
  intros [[device sub] r] (Hin & Hd & n & receiver & auth & sealed & Hk & He & Hb & Hs). cbn in *. rewrite Ht in Hin.
  apply job_targets_elem in Hin as [Hdev Hsub]. split; [by exists l|]. split; [exact Hsub|]. split; [exact Hd|].
  exists n, receiver, auth, sealed. unfold MESSAGE_BYTES, RECORD_SIZE in *. split_and!; (done || lia).
Qed.
End Facts.

(** ** What the gateway makes of the listing *)
Section Listing.
Context {K S : Type} `{Base64, Crypto, !PushCrates K S}.
Definition endpoint_ids (l : list Subscription) : list string := (λ sub, endpoint_id (su_endpoint sub)) <$> l.
Definition push_device_value (d : PushDevice) : Value :=
  VObject [("deviceId", VString (pd_device_id d)); ("endpoints", VArray (VString <$> pd_endpoints d))].
Lemma stored_ids `{!Base64Laws H, !CryptoLaws H0} (g : string → list Subscription) ids acc : NoDup ids →
  (∀ i, i ∈ ids → acc !! i = None ∧ g i ≠ [] ∧ (length (g i) ≤ 4)%nat) →
  ∃ r, stored_from acc ((λ i, mkPushDevice i (endpoint_ids (g i))) <$> ids) = Some r
    ∧ ∀ k, r !! k = if bool_decide (k ∈ ids) then Some (list_to_set (endpoint_ids (g k))) else acc !! k.
Proof.
  intros Hnd. revert acc. induction Hnd as [|i ids Hi Hnd IH]; intros acc Hg; [by exists acc|].
  destruct (Hg i) as (Ha & Hne & Hl); [by left|]. rewrite fmap_cons. cbn [stored_from pd_endpoints pd_device_id].
  rewrite bool_decide_true by (unfold endpoint_ids, MAX_ENDPOINTS; rewrite length_fmap; destruct (g i); cbn in *; [done|lia]).
  rewrite (bool_decide_false (is_Some (acc !! i))) by (rewrite Ha; by intros [? ?]).
  assert (forallb (λ j, bool_decide (is_Some (decode 32 j))) (endpoint_ids (g i)) = true) as ->.
  { apply forallb_forall. intros j (sub & -> & _)%list_elem_of_In%list_elem_of_fmap. apply bool_decide_eq_true.
    unfold endpoint_id. rewrite decode_encode by apply sha256_len. by eexists. }
  cbn [negb orb]. destruct (IH (<[i := list_to_set (endpoint_ids (g i))]> acc)) as (r & Hr & Hk).
  - intros j Hj. destruct (Hg j) as (Haj & Hj'); [by right|]. rewrite lookup_insert_ne by (intros ->; done). done.
  - exists r. split; [exact Hr|]. intros k. rewrite Hk. destruct (decide (k = i)) as [->|Hne'].
    + rewrite (bool_decide_false (i ∈ ids)), (bool_decide_true (i ∈ i :: ids)) by (done || by left). by rewrite lookup_insert_eq.
    + rewrite lookup_insert_ne by done. by rewrite (bool_decide_ext (k ∈ i :: ids) (k ∈ ids)) by set_solver.
Qed.
(** C31. What the gateway makes of the listing the desktop sends.  It takes the listing
    exactly when push is set up and the desktop lists at most sixty-four devices; it
    then has for each device it knows exactly that device's endpoints' ids, and
    nothing for any other.  Otherwise it keeps what it had. *)
Theorem listing_accepted `{!Base64Laws H, !CryptoLaws H0} (m : Subscriptions) known p : subs_wf m →
  ∃ ds, listing m = VArray (push_device_value <$> ds)
    ∧ push_replace ds known p =
        if bool_decide (size m ≤ 64)%nat && push_available p
        then (true, set_push_devices (keep_known known ((λ l, list_to_set (endpoint_ids l)) <$> m)) p)
        else (false, p).
Proof.
  intros Hwf. set (ids := merge_sort String.le (map_to_list m).*1).
  assert (∀ i, i ∈ ids ↔ is_Some (m !! i)) as Hids.
  { intros i. unfold ids. rewrite merge_sort_Permutation, list_elem_of_fmap. split.
    - intros ([k l] & -> & Hl%elem_of_map_to_list). by exists l.
    - intros [l Hl]. exists (i, l). split; [done|]. by apply elem_of_map_to_list. }
  exists ((λ i, mkPushDevice i (endpoint_ids (default [] (m !! i)))) <$> ids). split.
  { unfold listing, sorted_devices. fold ids. f_equal. rewrite <- !list_fmap_compose. apply list_fmap_ext. intros k i _. cbn.
    unfold push_device_value, endpoint_ids. cbn. by rewrite <- list_fmap_compose. }
  unfold push_replace, stored. rewrite length_fmap.
  assert (length ids = size m) as -> by (unfold ids; by rewrite merge_sort_Permutation, length_fmap, length_map_to_list).
  unfold MAX_DEVICES. case_bool_decide as Hmany; [by rewrite bool_decide_false by lia|].
  rewrite bool_decide_true by lia. destruct (stored_ids (λ i, default [] (m !! i)) ids ∅) as (r & -> & Hk).
  - unfold ids. rewrite merge_sort_Permutation. apply NoDup_fst_map_to_list.
  - intros i [l Hl]%Hids. rewrite Hl. cbn. destruct (Hwf _ _ Hl) as (? & ? & _). done.
  - assert (r = (λ l, list_to_set (endpoint_ids l)) <$> m) as ->; [|by destruct (push_available p)].
    apply map_eq. intros k. rewrite Hk, lookup_fmap. case_bool_decide as Hin.
    + apply Hids in Hin as [l Hl]. by rewrite Hl.
    + rewrite lookup_empty. destruct (m !! k) eqn:Hm; [|done]. destruct Hin. apply Hids. by rewrite Hm.
Qed.
End Listing.

(** ** What the supervisor uses of it *)
Section Used.
Context {K S : Type} `{Base64, Crypto, Json, !PushCrates K S, Vault V, Fs D} (windows : bool).
Context (to_vec_pretty : PushFile → string + string) (dir : string).
Abbreviation State := (PushState D V S).
(** None of them fails ([does_forget] and the like). *)
Definition ran (m : M State Empty_set bool) (s : State) : bool * State :=
  match m s with (Ok b, s) => (b, s) | (Err _, s) | (Panic, s) => (false, s) end.
Definition companion_push : DesktopPush State := {|
  push_forget := λ device, ran (forget windows to_vec_pretty dir device);
  push_unsubscribe := λ device endpoint, ran (unsubscribe windows to_vec_pretty dir device endpoint);
  push_subscription := λ device v, ran (subscription windows to_vec_pretty dir device v);
  push_listing := λ s, listing (ps_subscriptions s);
  push_event := overview;
  push_request := λ ids payload, ran (let! job := request ids payload in ret (bool_decide (is_Some job)));
|}.
End Used.

(** ** A desktop that computes *)
Definition sim_url (s : string) : option Url :=
  rest ← strip_prefix "https://" s;
  Some (mkUrl "https" "" None (Some (host_of rest)) None ("https://" +:+ host_of rest)).
#[local] Instance sim_push_crates : PushCrates string string := {|
  url_parse := sim_url;
  from_sec1_bytes := Some;
  sec1_point := λ _, String (char_of 4) (zeros 64);
  secret_from_slice := Some;
  secret_bytes := id;
  public_key := id;
  diffie_hellman := λ _ _, zeros 32;
  hkdf_expand := λ _ _ _ n, Some (zeros n);
  aes128gcm_encrypt := λ _ _ text, Some (text +:+ zeros 16);
  es256_sign := λ _ text, sha256 text;
|}.
#[local] Instance sim_push_laws : PushCratesLaws sim_push_crates.
Proof.
  constructor; cbn -[zeros]; [reflexivity|]. intros key nonce text sealed [= <-]. by rewrite len_append.
Qed.
#[local] Instance sim_vault : Vault (option string) := {|
  vault_load := inr;
  vault_store := λ secret _, (inr tt, Some secret);
|}.
Definition sim_push_text (f : PushFile) : string + string := inr "{}".
Definition no_devices_file (s : string) : option DevicesFile := None.
Definition no_push_file (s : string) : option PushFile := None.
Definition demo_push_new := push_new sim_parse_rfc3339 no_devices_file no_push_file "/data" (None : option string) 0 "1970-01-01T00:00:00Z" (zeros 32) (mkSimFs ∅ []).
Definition demo_push_do := push_do false sim_parse_rfc3339 no_devices_file sim_push_text "/data".
Definition demo_push_dos := push_dos false sim_parse_rfc3339 no_devices_file sim_push_text "/data".
Abbreviation demo_push_reachable := (push_reachable false sim_parse_rfc3339 no_devices_file no_push_file sim_push_text "/data").
Definition demo_empty : PushSys SimFs (option string) string :=
  mkPushSys (mkPush ∅ ∅ ∅ None None (mkSimFs ∅ []) 0 "1970-01-01T00:00:00Z" (zeros 32)) [] [].
Definition demo_subscription : Value :=
  VObject [("endpoint", VString "https://fcm.googleapis.com/a");
           ("p256dh", VString (b64url_encode (String (char_of 4) (zeros 64)))); ("auth", VString (b64url_encode (zeros 16)))].
Definition demo_payload : Value :=
  VObject [("kind", VString "blocked"); ("title", VString "agent"); ("session", VString "s1"); ("paneId", VString "p1")].
Definition demo_ids : Value := VArray [VString "d1"].
Definition one_push : list (PushAct string) :=
  [DoRequest demo_ids demo_payload; DoStart 0 1700000000 (λ _, (zeros 32, zeros 16)); DoAnswer 0 0 (inr 201); DoFinish 0].
Definition two_pushes : list (PushAct string) :=
  [DoInit; DoSubscription "d1" demo_subscription] ++ one_push ++ [DoClock 61000000000 "1970-01-01T00:01:01Z" (zeros 32)] ++ one_push.
Definition demo_sys (l : list (PushAct string)) : PushSys SimFs (option string) string := default demo_empty (demo_push_dos l demo_empty).
Lemma push_dos_rtc l x x' : demo_push_dos l x = Some x' →
  rtc (push_sys_step false sim_parse_rfc3339 no_devices_file sim_push_text "/data") x x'.
Proof.
  revert x. induction l as [|a l IH]; intros x; [by intros [= ->]|]. intros (x1 & Hx1 & Hx)%bind_Some.
  eapply rtc_l; [by exists a|by apply IH].
Qed.
Lemma demo_sys_reachable l : match demo_push_dos l demo_empty with Some _ => true | None => false end = true →
  demo_push_reachable (demo_sys l).
Proof.
  intros Hl. unfold demo_sys. destruct (demo_push_dos l demo_empty) as [x|] eqn:Hx; [|done].
  exists None, 0, "1970-01-01T00:00:00Z", (zeros 32), (mkSimFs ∅ []), (px_push demo_empty), (mkSimFs ∅ []).
  split; [vm_compute; reflexivity|by apply push_dos_rtc in Hx].
Qed.

Lemma push_cooldown_witness :
  demo_push_reachable (demo_sys two_pushes)
  ∧ px_log (demo_sys two_pushes) !! 1%nat = Some (("s1", "p1", "blocked"), 61000000000)
  ∧ 0 + COOLDOWN <= 61000000000.
Proof.
  assert (demo_push_reachable (demo_sys two_pushes)) as Hr by (apply demo_sys_reachable; vm_compute; reflexivity).
  assert (px_log (demo_sys two_pushes) !! 0%nat = Some (("s1", "p1", "blocked"), 0)) as H1 by (vm_compute; reflexivity).
  assert (px_log (demo_sys two_pushes) !! 1%nat = Some (("s1", "p1", "blocked"), 61000000000)) as H2 by (vm_compute; reflexivity).
  split; [exact Hr|]. split; [exact H2|].
  apply (push_cooldown false sim_parse_rfc3339 no_devices_file no_push_file sim_push_text "/data" (demo_sys two_pushes)
    0 1 ("s1", "p1", "blocked") 0 61000000000 Hr ltac:(lia) H1 H2).
Defined.
Lemma push_subscriptions_witness :
  demo_push_reachable (demo_sys two_pushes) ∧ is_Some (ps_subscriptions (px_push (demo_sys two_pushes)) !! "d1")
  ∧ map_Forall (λ _ l, list_wf l) (ps_subscriptions (px_push (demo_sys two_pushes))).
Proof.
  assert (demo_push_reachable (demo_sys two_pushes)) as Hr by (apply demo_sys_reachable; vm_compute; reflexivity).
  split; [exact Hr|]. split; [vm_compute; by eexists|].
  exact (push_subscriptions false sim_parse_rfc3339 no_devices_file no_push_file sim_push_text "/data" _ Hr).
Defined.
Definition subscribed : PushSys SimFs (option string) string := demo_sys [DoInit; DoSubscription "d1" demo_subscription].
Lemma push_destinations_witness : ∃ job s' requests,
  request demo_ids demo_payload (px_push subscribed) = (Ok (Some job), s')
  ∧ requests = build_all (vapid_new (zeros 32)) (jb_message job) (jb_urgency job) 0 (λ _, (zeros 32, zeros 16)) (jb_targets job)
  ∧ length requests = 1%nat
  ∧ Forall (λ e, destination e.1.2 (sd_url e.2)) requests.
Proof.
  destruct (request demo_ids demo_payload (px_push subscribed)) as [r s'] eqn:Hreq.
  assert (match r with Ok (Some _) => true | _ => false end = true) as Hr.
  { assert (match (r, s').1 with Ok (Some _) => true | _ => false end = true) by (rewrite <- Hreq; vm_compute; reflexivity). done. }
  destruct r as [[job|]| |]; try done.
  pose proof (push_destinations (px_push subscribed) demo_ids demo_payload job s' (vapid_new (zeros 32)) 0 (λ _, (zeros 32, zeros 16)) Hreq) as Hd.
  eexists job, s', _. split; [done|]. split; [reflexivity|]. split.
  - assert (length (match (Ok (Some job), s').1 : outcome Empty_set (option PushJob) with
      | Ok (Some job) => build_all (vapid_new (zeros 32)) (jb_message job) (jb_urgency job) 0 (λ _, (zeros 32, zeros 16)) (jb_targets job)
      | _ => []
      end) = 1%nat) as Hlen by (rewrite <- Hreq; vm_compute; reflexivity). exact Hlen.
  - destruct Hd as (_ & _ & Hd). eapply Forall_impl; [exact Hd|]. intros [[device sub] r] (_ & _ & Hdest & _). exact Hdest.
Defined.
Definition demo_receiver : Push.Push := Push.mkPush (Some "key") ∅ ∅ false ∅ ∅ 0.
Lemma listing_accepted_witness : let m := ps_subscriptions (px_push subscribed) in
  size m = 1%nat ∧ ∃ ds, listing m = VArray (push_device_value <$> ds)
    ∧ (push_replace ds (λ _, true) demo_receiver).1 = true.
Proof.
  intros m. assert (demo_push_reachable subscribed) as Hr by (apply demo_sys_reachable; vm_compute; reflexivity).
  assert (subs_wf m) as Hwf by apply (push_reachable_inv _ _ _ _ _ _ _ Hr).
  assert (size m = 1%nat) as Hs by (vm_compute; reflexivity). split; [exact Hs|].
  destruct (listing_accepted m (λ _, true) demo_receiver Hwf) as (ds & Hl & Hrep). exists ds. split; [exact Hl|].
  rewrite Hrep. rewrite Hs. reflexivity.
Defined.
