(* ===== verification/GitBridge.v ===== *)
(** * [git_bridge.rs]: reading Git in the folders the desktop mapped

    A phone names a Space; the gateway reads Git there under the desktop's trust,
    and answers with fixed error codes.  Host log cursors stay here behind tokens
    that only work for the device and Space they were issued to.  The host's Git
    and trust functions are an interface. *)

From stdpp Require Import base gmap strings list pretty.
From Stdlib Require Import ZArith Lia.
From S2P Require Import Prelude Rust Externals Clock Devices Admin Events World Herdr.

Local Open Scope Z_scope.

Definition MAX_ROOTS : nat := 512.
Definition ID_BYTES : Z := 256.
Definition ROOT_BYTES : Z := 4096.
Definition PATH_BYTES : Z := 4096.
Definition DEFAULT_LOG_LIMIT : Z := 50.
Definition MAX_LOG_LIMIT : Z := 100.
Definition AUDIT_WINDOW : Z := seconds 60.
Definition CURSORS : nat := 512.
Definition CURSOR_TTL : Z := seconds (30 * 60).
Definition TOKEN_BYTES : Z := 16.
Definition STALE : list string :=
  ["git-repository-not-open"; "git-repository-identity-mismatch"; "git-repository-replaced"].
Definition CURSOR_INVALID : string := "git-cursor-invalid".

(** [is_git] *)
Definition is_git (method : string) : bool :=
  bool_decide (method ∈ ["git.status"; "git.branches"; "git.log"; "git.commit"; "git.diff"]).

(** [id_ok], [path_ok] *)
Definition id_ok (value : string) : bool := in_range 1 (len value) ID_BYTES.
Definition path_ok (value : string) : bool :=
  in_range 1 (len value) PATH_BYTES && negb (existsb (λ b, b =? 0) (bytes value)).

(** ** Cursor tokens *)

Record Cursor := mkCursor {
  cu_device : string;
  cu_session : string;
  cu_workspace : string;
  cu_host : string;
  cu_expires : Timestamp;
}.
Record Cursors := mkCursors { cs_by_token : gmap string Cursor; cs_order : list string }.
Definition cursors_new : Cursors := mkCursors ∅ [].
(** [Tokens]: the caller. *)
Record Tokens := mkTokens { tk_device : string; tk_now : Timestamp }.

(** [Tokens::open] *)
Definition tokens_open (tk : Tokens) (session workspace token : string) (c : Cursors) : option string :=
  cursor ← c.(cs_by_token) !! token;
  if bool_decide (cu_device cursor = tk.(tk_device)) && bool_decide (cu_session cursor = session)
     && bool_decide (cu_workspace cursor = workspace) && (tk.(tk_now) <? cu_expires cursor)
  then Some (cu_host cursor) else None.

(** The loop of [issue] over the oldest tokens; [None] is the panic of an index
    that is not in the map. *)
Fixpoint evict (now : Timestamp) (order : list string) (by_token : gmap string Cursor)
    : option (list string * gmap string Cursor) :=
  match order with
  | [] => Some ([], by_token)
  | oldest :: rest =>
      match by_token !! oldest with
      | None => None
      | Some cursor =>
          if negb (cu_expires cursor <=? now) && bool_decide (length order < CURSORS)%nat
          then Some (order, by_token)
          else evict now rest (delete oldest by_token)
      end
  end.

Section Tokens.
Context `{Base64, World W}.

(** [Tokens::issue] *)
Definition tokens_issue (tk : Tokens) (session workspace host : string)
    : M (Cursors * W) string string :=
  let! b := random TOKEN_BYTES in
  let! b := ok_or "git-failed" b in
  let token := encode b in
  let! c := get in
  let! '(order, by_token) := expect (evict tk.(tk_now) c.(cs_order) c.(cs_by_token)) in
  update (λ _, mkCursors
    (<[token := mkCursor tk.(tk_device) session workspace host (after tk.(tk_now) CURSOR_TTL)]> by_token)
    (order ++ [token]));;
  ret token.
End Tokens.

(** ** The mapping of Spaces *)

(** A [Space] is an [Arc]: [sc_number] is the count of its generation, which no
    other one has, and names its Git state. *)
Record Space := mkSpace { sc_root : string; sc_number : Z }.
Record Spaces := mkSpaces {
  ss_allowlist : gset string;
  ss_spaces : gmap (string * string) Space;
  ss_salt : string;
  ss_generations : Z;
}.
(** [format!("{}{}", self.salt, generation)] *)
Definition generation (s : Spaces) (space : Space) : string := s.(ss_salt) +:+ pretty space.(sc_number).

Section Spaces.
(** [Path::is_absolute], which depends on the platform. *)
Context (is_absolute : string → bool).

(** [roots_ok] *)
Fixpoint roots_distinct (seen : gset (string * string)) (roots : list SpaceRoot) : bool :=
  match roots with
  | [] => true
  | e :: roots =>
      id_ok e.(sr_session) && id_ok e.(sr_workspace_id)
      && in_range 1 (len e.(sr_root)) ROOT_BYTES && is_absolute e.(sr_root)
      && negb (bool_decide ((sr_session e, sr_workspace_id e) ∈ seen))
      && roots_distinct ({[(sr_session e, sr_workspace_id e)]} ∪ seen) roots
  end.
Definition roots_ok (roots : list SpaceRoot) : bool :=
  bool_decide (length roots ≤ MAX_ROOTS)%nat && roots_distinct ∅ roots.

(** [Spaces::replace]: the loop, with the new mapping and the counter so far. *)
Fixpoint next_spaces (old : gmap (string * string) Space) (roots : list SpaceRoot)
    (next : gmap (string * string) Space) (generations : Z) : gmap (string * string) Space * Z :=
  match roots with
  | [] => (next, generations)
  | e :: roots =>
      let key := (sr_session e, sr_workspace_id e) in
      let fresh := (mkSpace (sr_root e) generations, (generations + 1) mod (u64_max + 1)) in
      let '(space, generations) :=
        match old !! key with
        | Some space => if bool_decide (sc_root space = sr_root e) then (space, generations) else fresh
        | None => fresh
        end in
      next_spaces old roots (<[key := space]> next) generations
  end.
Definition spaces_replace (roots : list SpaceRoot) (s : Spaces) : bool * Spaces :=
  if negb (roots_ok roots) then (false, s)
  else
    let '(next, generations) := next_spaces s.(ss_spaces)
      (List.filter (λ e, bool_decide (sr_session e ∈ s.(ss_allowlist))) roots) ∅ s.(ss_generations) in
    (true, mkSpaces s.(ss_allowlist) next s.(ss_salt) generations).

(** [Spaces::new] *)
Definition spaces_new `{Base64, World W} {S} (trust_store : string) (allowlist : list string)
    (roots : list SpaceRoot) : M (S * W) string Spaces :=
  reject_if (negb (is_absolute trust_store)) "invalid-trust-store";;
  let! b := random 6 in
  let! b := ok_or "entropy-unavailable" b in
  let '(ok, s) := spaces_replace roots (mkSpaces (list_to_set allowlist) ∅ (encode b) 1) in
  reject_if (negb ok) "invalid-space-roots";;
  ret s.
End Spaces.

(** [Spaces::get] *)
Definition spaces_get (session workspace : string) (s : Spaces) : string + Space :=
  if negb (valid_id session) || negb (bool_decide (session ∈ s.(ss_allowlist)))
  then inl "session-not-allowed"
  else match s.(ss_spaces) !! (session, workspace) with
       | Some space => inr space
       | None => inl "git-unavailable"
       end.

(** [Spaces::mark] *)
Definition mark_workspace (s : Spaces) (session : string) (workspace : Value) : option Value :=
  let space := id ← text workspace "id"; s.(ss_spaces) !! (session, id) in
  workspace ← value_set "git" (VBool (bool_decide (is_Some space))) workspace;
  match space with
  | Some space => value_set "gitGeneration" (VString (generation s space)) workspace
  | None => Some workspace
  end.
Definition spaces_mark (s : Spaces) (session : string) (snapshot : Value) : option Value :=
  match value_index "workspaces" snapshot with
  | VArray l => l ← mapM (mark_workspace s session) l; value_set "workspaces" (VArray l) snapshot
  | _ => Some snapshot
  end.

(** ** Requests *)

Inductive Diff :=
| DiffWorktree (path : string) (untracked : bool)
| DiffStaged (path : string) (orig_path : option string)
| DiffCommit (hash path : string) (orig_path : option string).
Inductive GitCall :=
| GitStatus
| GitBranches
| GitLog (cursor : option string) (limit : Z)
| GitCommit (hash : string)
| GitDiff (d : Diff).
Record GitRequest := mkGitRequest { gr_session : string; gr_workspace : string; gr_call : GitCall }.

(** The bodies, as serde reads them. *)
Inductive DiffKind := KindWorktree | KindStaged | KindCommit.
Record SpaceParams := mkSpaceParams { spp_session : string; spp_workspace : string }.
Record LogParams := mkLogParams {
  lp_session : string; lp_workspace : string; lp_cursor : option string; lp_limit : option Z }.
Record CommitParams := mkCommitParams { cp_session : string; cp_workspace : string; cp_hash : string }.
Record DiffParams := mkDiffParams {
  dp_session : string; dp_workspace : string; dp_kind : DiffKind; dp_path : string;
  dp_orig_path : option string; dp_commit : option string; dp_untracked : option bool }.
Record GitParsers := mkGitParsers {
  parse_space : Value → option SpaceParams;
  parse_log : Value → option LogParams;
  parse_commit : Value → option CommitParams;
  parse_diff : Value → option DiffParams;
}.

(** [git_oid::is_full_oid] of the host, [full_oid] *)
Definition is_ascii_hexdigit (b : Z) : bool := is_ascii_digit b || in_range 97 b 102 || in_range 65 b 70.
Definition is_full_oid (value : string) : bool :=
  ((len value =? 40) || (len value =? 64)) && forallb is_ascii_hexdigit (bytes value).
Definition full_oid (value : string) : option string :=
  if is_full_oid value then Some (of_bytes (to_ascii_lowercase <$> bytes value)) else None.

(** [parse]; every error is ["invalid-params"]. *)
Definition parse_call (P : GitParsers) (method : string) (value : Value)
    : option (string * string * GitCall) :=
  if bool_decide (method ∈ ["git.status"; "git.branches"]) then
    p ← P.(parse_space) value;
    Some (spp_session p, spp_workspace p,
          if bool_decide (method = "git.status") then GitStatus else GitBranches)
  else if bool_decide (method = "git.log") then
    p ← P.(parse_log) value;
    let limit := default DEFAULT_LOG_LIMIT (lp_limit p) in
    if in_range 1 limit MAX_LOG_LIMIT
    then Some (lp_session p, lp_workspace p, GitLog (lp_cursor p) limit) else None
  else if bool_decide (method = "git.commit") then
    p ← P.(parse_commit) value;
    hash ← full_oid (cp_hash p);
    Some (cp_session p, cp_workspace p, GitCommit hash)
  else if bool_decide (method = "git.diff") then
    p ← P.(parse_diff) value;
    if negb (path_ok (dp_path p))
       || match dp_orig_path p with Some path => negb (path_ok path) | None => false end
    then None
    else
      diff ← match dp_kind p with
             | KindWorktree => Some (DiffWorktree (dp_path p) (default false (dp_untracked p)))
             | KindStaged => Some (DiffStaged (dp_path p) (dp_orig_path p))
             | KindCommit =>
                 commit ← dp_commit p; hash ← full_oid commit;
                 Some (DiffCommit hash (dp_path p) (dp_orig_path p))
             end;
      Some (dp_session p, dp_workspace p, GitDiff diff)
  else None.
Definition parse_request (P : GitParsers) (method : string) (value : Value) : option GitRequest :=
  '(session, workspace, call) ← parse_call P method value;
  if id_ok session && id_ok workspace then Some (mkGitRequest session workspace call) else None.

(** ** Reading a Space *)

(** What the host offers: the trust check of a folder, the detection of a
    repository, and a read of its root, each for the Space of that number. *)
Class GitHost (P : Type) := {
  host_require_trusted : string → M P string unit;
  host_detect : Z → string → M P string Value;
  host_read : Z → string → GitCall → M P string Value;
}.

Section Read.
Context `{GitHost P}.
(** [serde_json::from_str::<Value>] *)
Context (json_from_str : string → option Value).

(** [classify] *)
Definition DIFF_NOT_UNTRACKED : string := "git-diff-not-untracked".
Definition DIFF_GIT_PATH : string := "git-diff-git-path".
Definition classify (error : string) : string :=
  if bool_decide (error = CURSOR_INVALID) then CURSOR_INVALID
  else if bool_decide (error ∈ [DIFF_NOT_UNTRACKED; DIFF_GIT_PATH]) then "invalid-params"
  else
    match (value ← json_from_str error; text value "error") with
    | Some code =>
        if bool_decide (code ∈ ["untrustedWorkspace"; "identityMismatch"; "storeCorrupt"; "storeLocked"])
        then "git-untrusted" else "git-failed"
    | None => "git-failed"
    end.

(** The state under the lock of a Space: the detected root, and the host. *)
Definition on_host {E A} (m : M P E A) : M (option string * P) E A :=
  zoom snd (λ p s, (s.1, p)) m.

(** [Space::detect] *)
Definition space_detect (space : Space) : M P string string :=
  let! environment := map_err classify (host_detect space.(sc_number) space.(sc_root)) in
  match text environment "status" with
  | Some s =>
      if bool_decide (s = "ready") then ok_or "git-failed" (text environment "root")
      else if bool_decide (s = "notARepo") then throw "git-not-repository" else throw "git-failed"
  | None => throw "git-failed"
  end.

(** One turn of the loop of [Space::read], at most two: [retried] stops it. *)
Definition space_root (space : Space) : M (option string * P) string string :=
  let! s := gets id in
  match s.1 with
  | Some root => ret root
  | None =>
      let! root := on_host (space_detect space) in
      modify (λ s, (Some root, s.2));;
      ret root
  end.
Definition reads_again (error : string) : bool :=
  bool_decide (error ∈ STALE) || bool_decide (classify error = "git-untrusted").
Fixpoint read_turns (turns : nat) (space : Space) (call : GitCall) : M (option string * P) string Value :=
  let! root := space_root space in
  let! r := attempt (on_host (host_read space.(sc_number) root call)) in
  match r with
  | inr value => ret value
  | inl error =>
      match turns with
      | S turns => if reads_again error
                   then modify (λ s, (None, s.2));; read_turns turns space call
                   else throw (classify error)
      | O => throw (classify error)
      end
  end.

(** [Space::read] *)
Definition space_read (space : Space) (call : GitCall) : M (option string * P) string Value :=
  let! s := gets id in
  (match s.1 with
   | Some _ =>
       let! trusted := attempt (on_host (host_require_trusted space.(sc_root))) in
       match trusted with
       | inl error => modify (λ s, (None, s.2));; throw (classify error)
       | inr _ => ret tt
       end
   | None => ret tt
   end);;
  read_turns 1 space call.
End Read.

(** ** [Request::run] *)
Section Run.
Context `{Base64, GitHost P, World W} (json_from_str : string → option Value).

Abbreviation run_m A := (M ((Cursors * (option string * P)) * W) string A).
Definition in_space {A} (m : M (option string * P) string A) : run_m A :=
  zoom (λ '((_, s), _), s) (λ s '((c, _), w), ((c, s), w)) m.
Definition in_cursors {A} (m : M (Cursors * W) string A) : run_m A :=
  zoom (λ '((c, _), w), (c, w)) (λ '(c, w) '((_, s), _), ((c, s), w)) m.

Definition request_run (request : GitRequest) (space : Space) (tk : Tokens) : run_m Value :=
  match request.(gr_call) with
  | GitLog cursor limit =>
      let! c := in_cursors get in
      let! host := (match cursor with
        | None => ret None
        | Some token =>
            let! host := ok_or CURSOR_INVALID
              (tokens_open tk request.(gr_session) request.(gr_workspace) token c) in
            ret (Some host)
        end) in
      let! page := in_space (space_read json_from_str space (GitLog host limit)) in
      match text page "nextCursor" with
      | Some next =>
          let! token := in_cursors (tokens_issue tk request.(gr_session) request.(gr_workspace) next) in
          expect (value_set "nextCursor" (VString token) page)
      | None => ret page
      end
  | call => in_space (space_read json_from_str space call)
  end.
End Run.

(** ** [AuditWindow] *)
Abbreviation AuditWindow := (gmap (string * string) Timestamp).
Definition audit_due (session workspace : string) (now : Timestamp) (a : AuditWindow) : bool * AuditWindow :=
  let a := filter (λ e, now < e.2) a in
  let key := (session, workspace) in
  if bool_decide (is_Some (a !! key)) then (false, a)
  else (true, <[key := after now AUDIT_WINDOW]> a).

Example full_oid_sha1 : full_oid "0123456789ABCDEF0123456789abcdef01234567"
  = Some "0123456789abcdef0123456789abcdef01234567".
Proof. reflexivity. Qed.
Example full_oid_ref : full_oid "HEAD" = None.
Proof. reflexivity. Qed.
