(* ===== verification/GitFacts.v ===== *)
(** * Cursor tokens, the mapping of Spaces, and reads under the desktop's trust *)

From stdpp Require Import base gmap strings list pretty.
From Stdlib Require Import ZArith Lia.
From S2P Require Import Prelude Rust Externals Crates Clock Devices Admin Events World Herdr GitBridge.

Local Open Scope Z_scope.

(** ** Cursor tokens

    The table is the newest part of what was issued: [live] in the order of
    issue, each token with its cursor. *)

Abbreviation issued := (list (string * Cursor)).
Definition stands_for (live : issued) (c : Cursors) : Prop :=
  NoDup live.*1 ∧ c.(cs_order) = live.*1 ∧ c.(cs_by_token) = list_to_map live.

Lemma stands_for_new : stands_for [] cursors_new.
Proof. split_and!; [constructor|done|done]. Qed.

Lemma stands_for_lookup live c token cursor : stands_for live c →
  cs_by_token c !! token = Some cursor ↔ (token, cursor) ∈ live.
Proof. intros (Hnd & _ & ->). symmetry. by apply elem_of_list_to_map. Qed.

(** The oldest cursors go while they are expired or there is no room. *)
Lemma evict_tokens_spec now live : NoDup live.*1 →
  ∃ gone rest, live = gone ++ rest
    ∧ evict now live.*1 (list_to_map live) = Some (rest.*1, list_to_map rest)
    ∧ (length rest < CURSORS)%nat
    ∧ ∀ before e after, gone = before ++ e :: after →
        cu_expires e.2 <= now ∨ (CURSORS ≤ length (e :: after ++ rest))%nat.
Proof.
  induction live as [|[token cursor] live IH]; intros Hnd; csimpl in *.
  { exists [], []. split_and!; [done..|unfold CURSORS; simpl; lia|]. by intros [] ? ?. }
  apply NoDup_cons in Hnd as [Hnew Hnd].
  rewrite lookup_insert_eq, length_fmap.
  destruct (negb _ && _) eqn:Hstop.
  - apply andb_true_iff in Hstop as [_ Hlen%bool_decide_eq_true].
    exists [], ((token, cursor) :: live). split_and!; [done..| |]; [simpl; lia|by intros [] ? ?].
  - rewrite delete_insert_id by (apply not_elem_of_list_to_map; by rewrite <-list_to_set_fmap || exact Hnew).
    destruct (IH Hnd) as (gone & rest & -> & Hev & Hlen & Hgone).
    exists ((token, cursor) :: gone), rest. split_and!; [done..|].
    intros [|e0 before] e after Heq; simplify_eq/=; [|by eapply Hgone].
    apply andb_false_iff in Hstop as [H%negb_false_iff%Z.leb_le|H%bool_decide_eq_false]; [by left|].
    right. simpl in H. lia.
Qed.

Section Cursors.
Context `{Base64, W : Type, !World W, !WorldLaws W}.

Definition cursor_of (tk : Tokens) (session workspace host : string) : Cursor :=
  mkCursor tk.(tk_device) session workspace host (after tk.(tk_now) CURSOR_TTL).

(** Without entropy nothing changes; otherwise the oldest cursors make room and
    the new one is the newest. *)
Lemma issue_spec tk session workspace host live c w : stands_for live c →
  wp (tokens_issue tk session workspace host) (λ (r : outcome string string) (t : Cursors * W),
    match r with
    | Ok token => ∃ gone rest, live = gone ++ rest
        ∧ (token ∉ live.*1 → stands_for (rest ++ [(token, cursor_of tk session workspace host)]) t.1)
        ∧ (length rest < CURSORS)%nat
        ∧ ∀ before e after, gone = before ++ e :: after →
            cu_expires e.2 <= tk_now tk ∨ (CURSORS ≤ length (e :: after ++ rest))%nat
    | Err e => e = "git-failed" ∧ t.1 = c
    | Panic => False
    end) (c, w).
Proof.
  intros (Hnd & Hord & Hmap). destruct (evict_tokens_spec (tk_now tk) live Hnd) as (gone & rest & -> & Hev & Hlen & Hgone).
  rewrite <-Hord, <-Hmap in Hev. unfold tokens_issue. world_steps; simplify_eq; [|done].
  exists gone, rest. split_and!; [done| |done|done].
  intros Hnew. rewrite fmap_app in Hnew, Hnd. apply NoDup_app in Hnd as (_ & _ & Hnd).
  assert (Hfresh : encode s ∉ rest.*1) by set_solver.
  split_and!.
  - rewrite fmap_app. apply NoDup_app. split_and!; [done| |apply NoDup_singleton].
    intros x Hx Heq%list_elem_of_singleton. by subst.
  - by rewrite fmap_app.
  - simpl. rewrite list_to_map_app. simpl.
    rewrite <-insert_union_r by (by apply not_elem_of_list_to_map). by rewrite map_union_empty.
Qed.

(** The tokens issued so far, oldest first, and the time of the last issue. *)
Inductive cursor_run : Cursors * W → issued → Timestamp → Prop :=
| cr_new w t : cursor_run (cursors_new, w) [] t
| cr_world c w w' l t : cursor_run (c, w) l t → cursor_run (c, w') l t
| cr_failed tk session workspace host s s' l t e :
    cursor_run s l t → tokens_issue tk session workspace host s = (Err e, s') → cursor_run s' l t
| cr_issued tk session workspace host s s' l t token :
    cursor_run s l t → t <= tk_now tk → token ∉ l.*1 →
    tokens_issue tk session workspace host s = (Ok token, s') →
    cursor_run s' (l ++ [(token, cursor_of tk session workspace host)]) (tk_now tk).

(** What is gone is expired or has 512 newer ones. *)
Definition outlived (t : Timestamp) (gone live : issued) : Prop :=
  ∀ before e after, gone = before ++ e :: after →
    cu_expires e.2 <= t ∨ (CURSORS ≤ length (after ++ live))%nat.

Lemma outlived_issue t now gone dead rest new : t <= now →
  outlived t gone (dead ++ rest) → 
  (∀ before e after, dead = before ++ e :: after →
     cu_expires e.2 <= now ∨ (CURSORS ≤ length (e :: after ++ rest))%nat) →
  outlived now (gone ++ dead) (rest ++ [new]).
Proof.
  intros Ht Hgone Hdead before e after Heq.
  apply app_eq_inv in Heq as [(mid & Hg & Hd)|(mid & -> & ->)].
  - destruct mid as [|e' mid]; simplify_eq/=.
    + destruct (Hdead [] e after) as [?|Hlen]; [done|by left|right].
      simpl in *. rewrite ?length_app in *. simpl. lia.
    + destruct (Hgone before e' mid) as [?|Hlen]; [done|left; lia|right].
      simpl in *. rewrite ?length_app in *. simpl. lia.
  - destruct (Hdead mid e after) as [?|Hlen]; [done|by left|right].
    simpl in *. rewrite ?length_app in *. simpl. lia.
Qed.

Lemma cursor_run_inv s l t : cursor_run s l t →
  ∃ gone live, l = gone ++ live ∧ NoDup l.*1 ∧ stands_for live s.1 ∧ (length live ≤ CURSORS)%nat
    ∧ outlived t gone live.
Proof.
  induction 1 as [w t|c w w' l t _ IH|tk session workspace host [c w] s' l t e _ IH Hr
    |tk session workspace host [c w] s' l t token _ IH Ht Hnew Hr].
  - exists [], []. split_and!; [done|constructor|apply stands_for_new|simpl; lia|by intros [] ? ?].
  - done.
  - destruct IH as (gone & live & -> & Hnd & Hst & Hlen & Hout). exists gone, live.
    pose proof (wp_run _ _ _ _ _ (issue_spec tk session workspace host live c w Hst) Hr) as [_ ->]. done.
  - destruct IH as (gone & live & -> & Hnd & Hst & Hlen & Hout).
    pose proof (wp_run _ _ _ _ _ (issue_spec tk session workspace host live c w Hst) Hr)
      as (dead & rest & -> & Hst' & Hroom & Hdead).
    exists (gone ++ dead), (rest ++ [(token, cursor_of tk session workspace host)]). split_and!.
    + by rewrite !app_assoc.
    + rewrite fmap_app. apply NoDup_app. split_and!; [done| |apply NoDup_singleton].
      intros x Hx Heq%list_elem_of_singleton. by subst.
    + apply Hst'. rewrite !fmap_app in *. set_solver.
    + rewrite length_app. simpl. lia.
    + by eapply outlived_issue.
Qed.
End Cursors.

Section CursorTheorem.
Context `{Base64, W : Type, !World W, !WorldLaws W}.

(** C36. Cursor tokens, over every history in which no random token repeats: at
    most 512 are kept; a token opens only the cursor it was issued for, to the
    device, session and workspace it was issued to, and before it expires; one
    that has not expired and has fewer than 512 newer ones does open; and issuing
    another never panics. *)
Theorem cursor_tokens (s : Cursors * W) l t : cursor_run s l t →
  (length (cs_order s.1) ≤ CURSORS)%nat
  ∧ (∀ tk session workspace token host, tokens_open tk session workspace token s.1 = Some host →
       ∃ cursor, (token, cursor) ∈ l ∧ cu_device cursor = tk_device tk ∧ cu_session cursor = session
         ∧ cu_workspace cursor = workspace ∧ cu_host cursor = host ∧ tk_now tk < cu_expires cursor)
  ∧ (∀ before token cursor newer now, l = before ++ (token, cursor) :: newer → (length newer < CURSORS)%nat →
       t <= now < cu_expires cursor →
       tokens_open (mkTokens (cu_device cursor) now) (cu_session cursor) (cu_workspace cursor) token s.1
       = Some (cu_host cursor))
  ∧ (∀ tk session workspace host, (tokens_issue tk session workspace host s).1 ≠ Panic).
Proof.
  intros Hrun. destruct (cursor_run_inv _ _ _ Hrun) as (gone & live & -> & Hnd & Hst & Hlen & Hout).
  destruct s as [c w]. simpl in *. split_and!.
  - destruct Hst as (_ & -> & _). by rewrite length_fmap.
  - intros tk session workspace token host Ho. unfold tokens_open in Ho.
    destruct (cs_by_token c !! token) as [cursor|] eqn:Hc; [|done]. cbn in Ho.
    apply (stands_for_lookup live) in Hc; [|done].
    destruct (_ && _) eqn:Hok; [|done]. simplify_eq.
    repeat (apply andb_true_iff in Hok as [Hok ?]).
    exists cursor. rewrite elem_of_app. split_and!; try (by eapply bool_decide_eq_true; eauto); [by right|done|].
    by apply Z.ltb_lt.
  - intros before token cursor newer now Hl Hnewer [Ht Hnow].
    assert (Hlive : (token, cursor) ∈ live).
    { apply app_eq_inv in Hl as [(mid & Hg & Hd)|(mid & -> & ->)]; [|set_solver].
      destruct mid as [|e mid]; simplify_eq/=; [set_solver|].
      destruct (Hout before (token, cursor) mid eq_refl) as [?|?]; simpl in *; lia. }
    unfold tokens_open. apply (stands_for_lookup live c) in Hlive; [|done]. rewrite Hlive. cbn.
    rewrite !bool_decide_eq_true_2 by done. cbn. by rewrite (proj2 (Z.ltb_lt _ _) Hnow).
  - intros tk session workspace host Hp.
    pose proof (issue_spec tk session workspace host live c w Hst) as Hi. unfold wp in Hi. by rewrite Hp in Hi.
Qed.
End CursorTheorem.

(** ** The mapping of Spaces *)

(** The Spaces of a mapping have numbers of their own, all handed out already. *)
Record spaces_wf (s : Spaces) : Prop := {
  sw_numbers k sp : ss_spaces s !! k = Some sp → 0 <= sc_number sp < ss_generations s;
  sw_distinct k k' sp sp' : ss_spaces s !! k = Some sp → ss_spaces s !! k' = Some sp' →
    sc_number sp = sc_number sp' → k = k';
  sw_allowed k sp : ss_spaces s !! k = Some sp → k.1 ∈ ss_allowlist s;
}.

Definition root_key (e : SpaceRoot) : string * string := (sr_session e, sr_workspace_id e).

Lemma roots_distinct_spec is_absolute seen roots : roots_distinct is_absolute seen roots = true →
  NoDup (root_key <$> roots) ∧ (∀ e, e ∈ roots → root_key e ∉ seen).
Proof.
  revert seen. induction roots as [|e roots IH]; intros seen Hr; csimpl in *; [split; [constructor|set_solver]|].
  apply andb_true_iff in Hr as [[_ Hnew%negb_true_iff%bool_decide_eq_false]%andb_true_iff Hr].
  destruct (IH _ Hr) as [Hnd Hseen]. split.
  - apply NoDup_cons. split; [|done]. intros (e' & Hk & He')%list_elem_of_fmap.
    apply (Hseen e' He'). rewrite <-Hk. unfold root_key. set_solver.
  - intros e' [->|He']%elem_of_cons; [done|]. specialize (Hseen e' He'). set_solver.
Qed.

(** What the loop of [replace] leaves at a key, from the generation [g]. *)
Definition remapped (old : gmap (string * string) Space) (g g' : Z) (e : SpaceRoot) (sp : Space) : Prop :=
  sc_root sp = sr_root e ∧
  ((old !! root_key e = Some sp ∧ sc_number sp < g)
   ∨ (∀ o, old !! root_key e = Some o → sc_root o ≠ sr_root e) ∧ g <= sc_number sp < g').

Lemma next_spaces_spec old roots : ∀ next g, NoDup (root_key <$> roots) →
  (∀ k sp, old !! k = Some sp → sc_number sp < g) →
  0 <= g → g + Z.of_nat (length roots) <= u64_max →
  let r := next_spaces old roots next g in
  g <= r.2 <= g + Z.of_nat (length roots)
  ∧ (∀ k, k ∉ root_key <$> roots → r.1 !! k = next !! k)
  ∧ (∀ e, e ∈ roots → ∃ sp, r.1 !! root_key e = Some sp ∧ remapped old g r.2 e sp)
  ∧ (∀ e e' sp sp', e ∈ roots → e' ∈ roots → r.1 !! root_key e = Some sp → r.1 !! root_key e' = Some sp' →
       g <= sc_number sp → sc_number sp = sc_number sp' → root_key e = root_key e').
Proof.
  induction roots as [|e roots IH]; intros next g Hnd Hold Hg Hmax; csimpl.
  { split_and!; [lia|lia|done|set_solver|set_solver]. }
  apply NoDup_cons in Hnd as [Hnew Hnd]. simpl in Hmax. rewrite Nat2Z.inj_succ in *.
  change (sr_session e, sr_workspace_id e) with (root_key e).
  (* Either the old Space is kept, or a new one is made. *)
  assert (Hcase : ∃ sp g1, (match old !! root_key e with
      | Some space => if bool_decide (sc_root space = sr_root e) then (space, g)
                      else (mkSpace (sr_root e) g, (g + 1) mod (u64_max + 1))
      | None => (mkSpace (sr_root e) g, (g + 1) mod (u64_max + 1)) end) = (sp, g1)
      ∧ g <= g1 <= g + 1 ∧ remapped old g g1 e sp ∧ (sc_number sp = g ∨ sc_number sp < g)
      ∧ (sc_number sp = g → g1 = g + 1)).
  { assert (Hwrap : (g + 1) mod (u64_max + 1) = g + 1) by (apply Z.mod_small; unfold u64_max in *; lia).
    rewrite Hwrap. unfold remapped. destruct (old !! root_key e) as [o|] eqn:Ho.
    - pose proof (Hold _ _ Ho). case_bool_decide as Hroot.
      + exists o, g. split_and!; [done|lia|lia|done|by left|lia|lia].
      + exists (mkSpace (sr_root e) g), (g + 1). simpl.
        split_and!; [done|lia|lia|done| |by left|done]. right. split; [|lia]. intros o' [= <-]. done.
    - exists (mkSpace (sr_root e) g), (g + 1). simpl.
      split_and!; [done|lia|lia|done| |by left|done]. right. split; [done|lia]. }
  destruct Hcase as (sp & g1 & -> & Hg1 & Hsp & Hnum & Hnext).
  destruct (IH (<[root_key e := sp]> next) g1 Hnd) as (Hr & Hout & Hin & Hinj);
    [intros k o Hk; pose proof (Hold k o Hk); lia|lia|lia|].
  cbn zeta in *. set (r := next_spaces old roots (<[root_key e:=sp]> next) g1) in *.
  assert (Hat : r.1 !! root_key e = Some sp) by (rewrite Hout by done; apply lookup_insert_eq).
  split_and!; [lia|lia| | |].
  - intros k Hk. rewrite Hout by set_solver. rewrite lookup_insert_ne; [done|set_solver].
  - intros e' [->|He']%elem_of_cons.
    + exists sp. split; [done|]. destruct Hsp as [? [Hs|[? Hs]]]; split; [done|by left|done|right; split; [done|lia]].
    + destruct (Hin e' He') as (sp' & Hl & Hroot & Hs). exists sp'. split; [done|]. split; [done|].
      destruct Hs as [[Ho _]|[Ho Hs]]; [left; split; [done|by eapply Hold]|right; split; [done|lia]].
  - intros e1 e2 sp1 sp2 H1 H2 Hl1 Hl2 Hge Heq.
    apply elem_of_cons in H1 as [->|H1]; apply elem_of_cons in H2 as [->|H2]; [done| | |].
    + rewrite Hat in Hl1. simplify_eq. destruct (Hin e2 H2) as (o & Ho & _ & Hs). simplify_eq.
      destruct Hs as [[Ho' _]|[_ ?]]; [pose proof (Hold _ _ Ho')|]; lia.
    + rewrite Hat in Hl2. simplify_eq. destruct (Hin e1 H1) as (o & Ho & _ & Hs). simplify_eq.
      destruct Hs as [[Ho' _]|[_ ?]]; [pose proof (Hold _ _ Ho')|]; lia.
    + destruct (decide (g1 <= sc_number sp1)); [by eapply (Hinj e1 e2)|].
      destruct (Hin e1 H1) as (o & Ho & _ & Hs). simplify_eq.
      destruct Hs as [[Ho' _]|[_ ?]]; [pose proof (Hold _ _ Ho')|]; lia.
Qed.

(** Distinct numbers are distinct generations. *)
Lemma generation_inj s sp sp' : generation s sp = generation s sp' → sc_number sp = sc_number sp'.
Proof.
  unfold generation. intros Heq. apply (inj pretty).
  induction (ss_salt s) as [|a salt IH]; [done|]. apply IH. by injection Heq.
Qed.

Lemma spaces_replace_inv is_absolute roots s : spaces_wf s → 0 <= ss_generations s →
  ss_generations s + Z.of_nat (length roots) <= u64_max →
  let allowed := List.filter (λ e, bool_decide (sr_session e ∈ ss_allowlist s)) roots in
  let s' := (spaces_replace is_absolute roots s).2 in
  (spaces_replace is_absolute roots s).1 = roots_ok is_absolute roots
  ∧ if roots_ok is_absolute roots
    then spaces_wf s' ∧ ss_allowlist s' = ss_allowlist s ∧ ss_salt s' = ss_salt s
      ∧ ss_generations s <= ss_generations s'
      ∧ (∀ k, k ∉ root_key <$> allowed → ss_spaces s' !! k = None)
      ∧ (∀ e, e ∈ allowed → ∃ sp, ss_spaces s' !! root_key e = Some sp
           ∧ remapped (ss_spaces s) (ss_generations s) (ss_generations s') e sp)
    else s' = s.
Proof.
  intros Hwf Hg Hmax allowed. unfold spaces_replace. fold allowed.
  destruct (roots_ok is_absolute roots) eqn:Hok; [|done]. cbn.
  unfold roots_ok in Hok. apply andb_true_iff in Hok as [_ [Hnd _]%roots_distinct_spec].
  assert (Hnd' : NoDup (root_key <$> allowed)).
  { clear -Hnd. subst allowed. induction roots as [|e roots IH]; csimpl in *; [constructor|].
    apply NoDup_cons in Hnd as [Hnew Hnd]. case_bool_decide; csimpl; [|by apply IH].
    apply NoDup_cons. split; [|by apply IH]. intros (e' & Hk & He')%list_elem_of_fmap. apply Hnew.
    rewrite Hk. apply list_elem_of_fmap_2. apply list_elem_of_In, List.filter_In in He' as [? _].
    by apply list_elem_of_In. }
  assert (Hlen : (length allowed ≤ length roots)%nat) by apply List.filter_length_le.
  destruct (next_spaces_spec (ss_spaces s) allowed ∅ (ss_generations s) Hnd') as (Hr & Hout & Hin & Hinj);
    [intros k sp Hk; by eapply sw_numbers|lia|lia|].
  destruct (next_spaces _ _ _ _) as [next g']. cbn in *.
  assert (Hkey : ∀ k sp, next !! k = Some sp → ∃ e, e ∈ allowed ∧ root_key e = k).
  { intros k sp Hk. destruct (decide (k ∈ root_key <$> allowed)) as [(e & -> & He)%list_elem_of_fmap|Hk'].
    - by exists e.
    - rewrite Hout, lookup_empty in Hk by done. done. }
  split; [done|]. split_and!; [|done|done|lia| |done].
  - constructor; cbn.
    + intros k sp Hk. destruct (Hkey _ _ Hk) as (e & He & <-). destruct (Hin e He) as (sp' & Hk' & _ & Hs).
      simplify_eq. destruct Hs as [[Ho ?]|[_ ?]]; [|lia]. pose proof (sw_numbers _ Hwf _ _ Ho). lia.
    + intros k k' sp sp' Hk Hk' Heq. destruct (Hkey _ _ Hk) as (e & He & <-).
      destruct (Hkey _ _ Hk') as (e' & He' & <-).
      destruct (decide (ss_generations s <= sc_number sp)) as [Hge|Hlt]; [by eapply Hinj|].
      destruct (Hin e He) as (? & ? & _ & Hs), (Hin e' He') as (? & ? & _ & Hs'). simplify_eq.
      destruct Hs as [[Ho _]|[_ ?]]; [|lia]. destruct Hs' as [[Ho' _]|[_ ?]]; [|lia].
      by eapply (sw_distinct _ Hwf).
    + intros k sp Hk. destruct (Hkey _ _ Hk) as (e & He & <-). cbn.
      apply list_elem_of_In, List.filter_In in He as [_ He]. by eapply bool_decide_eq_true.
  - intros k Hk. by rewrite Hout, lookup_empty.
Qed.
