(* ===== verification/GitProps.v ===== *)
(** * Spaces remapped, marked and read; requests bounded; the audit window *)
From stdpp Require Import base gmap strings list pretty.
From Stdlib Require Import ZArith Lia.
From S2P Require Import Prelude Rust Externals Crates Clock Devices Admin Events World Herdr.
From S2P Require Import GitBridge GitFacts.
Local Open Scope Z_scope.

(** A new mapping of Spaces: an invalid one changes nothing; a valid one maps
    exactly the entries of allowed sessions; a Space whose root is unchanged is the
    same one, with its Git state and generation, and every other gets a generation
    that none ever had, so distinct Spaces never share one. *)
Theorem spaces_remapped is_absolute roots s s' ok : spaces_wf s → 0 <= ss_generations s →
  ss_generations s + Z.of_nat (length roots) <= u64_max →
  spaces_replace is_absolute roots s = (ok, s') →
  ok = roots_ok is_absolute roots
  ∧ (ok = false → s' = s)
  ∧ (ok = true → spaces_wf s'
     ∧ (∀ session workspace sp, ss_spaces s' !! (session, workspace) = Some sp → session ∈ ss_allowlist s
          ∧ mkSpaceRoot session workspace (sc_root sp) ∈ roots
          ∧ (ss_spaces s !! (session, workspace) = Some sp
             ∨ (∀ o, ss_spaces s !! (session, workspace) = Some o → sc_root o ≠ sc_root sp)
               ∧ (∀ k o, ss_spaces s !! k = Some o → generation s' o ≠ generation s' sp)))
     ∧ (∀ e, e ∈ roots → sr_session e ∈ ss_allowlist s →
          ∃ sp, ss_spaces s' !! root_key e = Some sp ∧ sc_root sp = sr_root e)
     ∧ (∀ k k' sp sp', ss_spaces s' !! k = Some sp → ss_spaces s' !! k' = Some sp' →
          generation s' sp = generation s' sp' → k = k')).
Proof.
  intros Hwf Hg Hmax Hr. pose proof (spaces_replace_inv is_absolute roots s Hwf Hg Hmax) as [Hok Hs].
  rewrite Hr in Hok, Hs. simpl in *. subst ok. split; [done|].
  destruct (roots_ok is_absolute roots); [|by subst]. split; [done|]. intros _.
  destruct Hs as (Hwf' & Hall & Hsalt & Hge & Hout & Hin). split; [done|].
  set (allowed := List.filter _ _) in *.
  assert (Hmem : ∀ e, e ∈ allowed ↔ e ∈ roots ∧ sr_session e ∈ ss_allowlist s).
  { intros e. subst allowed. rewrite !list_elem_of_In, List.filter_In, bool_decide_eq_true. done. }
  split_and!.
  - intros session workspace sp Hk.
    destruct (decide ((session, workspace) ∈ root_key <$> allowed)) as [(e & Hkey & He)%list_elem_of_fmap|Hno];
      [|by rewrite Hout in Hk].
    destruct (Hin e He) as (sp' & Hk' & Hroot & Hs). rewrite <-Hkey in *. simplify_eq.
    apply Hmem in He as [He Ha]. unfold root_key in Hkey. destruct e as [se we ro]. simpl in *. simplify_eq.
    split_and!; [done..|]. destruct Hs as [[? _]|[Hne Hnum]]; [by left|right]. split; [done|].
    intros k o Ho Heq%generation_inj. pose proof (sw_numbers _ Hwf _ _ Ho). lia.
  - intros e He Ha. destruct (Hin e) as (sp & Hk & Hroot & _); [by apply Hmem|eauto].
  - intros k k' sp sp' Hk Hk' Heq%generation_inj. by eapply (sw_distinct _ Hwf').
Qed.

(** ** Marks on a snapshot *)

(** A workspace of a normalized snapshot with its marks. *)
Definition marked_workspace (s : Spaces) (session : string) (w : Value) : Value :=
  let space := id ← text w "workspace_id"; ss_spaces s !! (session, id) in
  VObject ([("id", opt_string (text w "workspace_id")); ("label", opt_string (text w "label"));
            ("status", VString (status (value_index "agent_status" w)));
            ("git", VBool (bool_decide (is_Some space)))]
           ++ match space with Some sp => [("gitGeneration", VString (generation s sp))] | None => [] end).

Lemma mark_normal_workspace s session w :
  mark_workspace s session (normal_workspace w) = Some (marked_workspace s session w).
Proof.
  unfold mark_workspace, marked_workspace, normal_workspace.
  assert (Hid : ∀ o l, text (VObject (("id", opt_string o) :: l)) "id" = o) by by intros [].
  rewrite Hid. destruct (text w "workspace_id" ≫= _) as [sp|]; done.
Qed.

(** Marking a normalized snapshot never panics and adds only the marks: each
    workspace says whether its Space is mapped and, when it is, that Space's
    opaque generation; everything else is as it was. *)
Theorem marked_snapshot s session raw :
  spaces_mark s session (normal_value session raw) = Some (VObject
    [("session", VString session);
     ("workspaces", VArray (marked_workspace s session <$> array raw "workspaces"));
     ("tabs", VArray (normal_tab <$> array raw "tabs"));
     ("panes", VArray (normal_pane raw <$> array raw "panes"));
     ("agents", VArray (normal_agent <$> array raw "agents"))]).
Proof.
  assert (Hl : mapM (mark_workspace s session) (normal_workspace <$> array raw "workspaces")
    = Some (marked_workspace s session <$> array raw "workspaces")).
  { induction (array raw "workspaces") as [|w l IH]; [done|]. rewrite !fmap_cons.
    change (mapM (mark_workspace s session) (?x :: ?l)) with
      (y ← mark_workspace s session x; k ← mapM (mark_workspace s session) l; Some (y :: k)).
    by rewrite mark_normal_workspace, IH. }
  unfold spaces_mark.
  change (value_index "workspaces" (normal_value session raw))
    with (VArray (normal_workspace <$> array raw "workspaces")).
  cbn beta iota. by rewrite Hl.
Qed.

(** ** Reads of a Space *)

Definition GIT_ERRORS : list string :=
  [CURSOR_INVALID; "invalid-params"; "git-untrusted"; "git-failed"; "git-not-repository"].

Section Read.
Context `{GitHost P} (json_from_str : string → option Value).
Implicit Types (p : P) (d : option string).

Lemma classify_fixed e : classify json_from_str e ∈ GIT_ERRORS.
Proof.
  unfold classify, GIT_ERRORS. case_bool_decide; [set_solver|]. case_bool_decide; [set_solver|].
  destruct (_ ≫= _); [case_bool_decide|]; set_solver.
Qed.

(** The root that was read, and what allowed it: it was found before and the
    Space's folder is trusted now, or a detection just found it. *)
Definition read_allowed (space : Space) d p (root : string) p1 : Prop :=
  (d = Some root ∧ host_require_trusted space.(sc_root) p = (Ok tt, p1))
  ∨ ∃ p0 environment, host_detect space.(sc_number) space.(sc_root) p0 = (Ok environment, p1)
      ∧ text environment "status" = Some "ready" ∧ text environment "root" = Some root.

Definition fails_fixed {A} (r : outcome string A) : Prop := ∀ e, r = Err e → e ∈ GIT_ERRORS.

Lemma root_spec (space : Space) d p :
  wp (space_root json_from_str space) (λ (r : outcome string string) (t : option string * P),
    fails_fixed r ∧ ∀ root, r = Ok root → t.1 = Some root ∧
      (d = Some root ∧ t = (d, p) ∨ d = None ∧ ∃ p0 environment,
         host_detect space.(sc_number) space.(sc_root) p0 = (Ok environment, t.2)
         ∧ text environment "status" = Some "ready" ∧ text environment "root" = Some root)) (d, p).
Proof.
  unfold space_root. wp_step. wp_step. simpl. destruct d as [root|].
  { wp_step. split; [done|]. intros ? [= <-]. auto. }
  unfold on_host, space_detect. wp_step. wp_step. wp_step. wp_step. apply run_wp. intros r p1 Hr. simpl in Hr.
  destruct r as [env|e|]; cbn; [|split; [intros ? [= <-]; apply classify_fixed|done]|split; done].
  assert (Hf : ∀ e, e ∈ ["git-not-repository"; "git-failed"] → e ∈ GIT_ERRORS) by (unfold GIT_ERRORS; set_solver).
  destruct (text env "status") as [st|] eqn:Hst; [|wp_steps; split; [intros ? [= <-]; apply Hf; set_solver|done]].
  case_bool_decide as Hready.
  - wp_steps; try (split; [intros ? [= <-]; apply Hf; set_solver|done]).
    split; [done|]. intros ? [= <-]. split; [done|]. right. split; [done|]. exists p, env. by subst.
  - wp_steps; (split; [intros ? [= <-]; apply Hf; set_solver|done]).
Qed.

Lemma turns_spec turns (space : Space) call d p :
  wp (read_turns json_from_str turns space call) (λ (r : outcome string Value) (t : option string * P),
    fails_fixed r ∧ ∀ v, r = Ok v → ∃ root p1, t.1 = Some root
      ∧ host_read space.(sc_number) root call p1 = (Ok v, t.2)
      ∧ (d = Some root ∧ p1 = p ∨ read_allowed space None p root p1)) (d, p).
Proof.
  revert d p. induction turns as [|turns IH]; intros d p; cbn; wp_step;
    (eapply wp_mono; [apply root_spec|]); cbn beta iota;
    (intros [root|e|] [d1 p1] [He Hroot]; [|split; [intros ? [= <-]; by apply He|done]|done]);
    destruct (Hroot root eq_refl) as [Hd Hwhy]; simpl in Hd; subst d1; wp_step; wp_step; unfold on_host; wp_step;
    apply run_wp; intros r p2 Hr; simpl in Hr; destruct r as [v|e|]; cbn.
  1,4: wp_step; split; [done|]; intros ? [= <-]; exists root, p1; split_and!; [done..|];
      destruct Hwhy as [[-> [= <-]]|(-> & p0 & env & ?)]; [by left|right; right; simpl in *; eauto].
  - wp_step. split; [intros ? [= <-]; apply classify_fixed|done].
  - done.
  - destruct (reads_again _ _); [|wp_step; split; [intros ? [= <-]; apply classify_fixed|done]].
    wp_step. wp_step. eapply wp_mono; [apply IH|]. cbn beta. intros r t [Hf Hok]. split; [done|].
    intros v Hv. destruct (Hok v Hv) as (root' & p3 & ? & ? & [[? _]|Hal]); [done|].
    exists root', p3. split_and!; [done..|]. right. right.
    destruct Hal as [[? _]|?]; done.
  - done.
Qed.

#[local] Arguments read_turns : simpl never.

(** C37. A read of a Space answers only under the desktop's trust.  When it answers,
    the answer is the host's read of a root that an earlier detection found, the
    Space's own folder having just been checked as trusted, or that a detection
    of the folder has found during this very read; that root is the one kept.  A
    folder that is no longer trusted forgets its root and nothing is read.  Every
    error is one of five fixed codes, whatever the host's text. *)
Theorem space_read_trusted (space : Space) call d p :
  (∀ e p1, host_require_trusted space.(sc_root) p = (Err e, p1) → is_Some d →
     space_read json_from_str space call (d, p) = (Err (classify json_from_str e), (None, p1)))
  ∧ (∀ v d' p', space_read json_from_str space call (d, p) = (Ok v, (d', p')) →
       ∃ root p1, d' = Some root ∧ host_read space.(sc_number) root call p1 = (Ok v, p')
         ∧ read_allowed space d p root p1)
  ∧ (∀ e, (space_read json_from_str space call (d, p)).1 = Err e → e ∈ GIT_ERRORS).
Proof.
  split.
  { intros e p1 Hp [root ->]. unfold space_read, bind, gets, attempt, on_host, zoom. simpl. by rewrite Hp. }
  assert (Hall : wp (space_read json_from_str space call) (λ (r : outcome string Value) (t : option string * P),
    fails_fixed r ∧ ∀ v, r = Ok v → ∃ root p1, t.1 = Some root
      ∧ host_read space.(sc_number) root call p1 = (Ok v, t.2) ∧ read_allowed space d p root p1) (d, p)).
  { unfold space_read. wp_step. wp_step. wp_step. simpl. destruct d as [root|]; cbn.
    - wp_step. wp_step. unfold on_host. wp_step. apply run_wp. intros r p1 Hr. simpl in Hr.
      destruct r as [[]|e|]; cbn; [|wp_steps; split; [intros ? [= <-]; apply classify_fixed|done]|done].
      wp_step. eapply wp_mono; [apply (turns_spec 1)|]. cbn beta. intros r t [Hf Hok]. split; [done|].
      intros v Hv. destruct (Hok v Hv) as (root' & p3 & ? & ? & Hwhy). exists root', p3. split_and!; [done..|].
      destruct Hwhy as [[? ->]|[[? _]|?]]; [left; by simplify_eq|done|by right].
    - wp_step. eapply wp_mono; [apply (turns_spec 1)|]. cbn beta. intros r t [Hf Hok]. split; [done|].
      intros v Hv. destruct (Hok v Hv) as (root' & p3 & ? & ? & Hwhy). exists root', p3. split_and!; [done..|].
      destruct Hwhy as [[? _]|?]; done. }
  split.
  - intros v d' p' Hr. pose proof (wp_run _ _ _ _ _ Hall Hr) as [_ Hok].
    destruct (Hok v eq_refl) as (root & p1 & ? & ? & ?). by exists root, p1.
  - unfold wp in Hall. destruct Hall as [Hf _]. exact Hf.
Qed.
End Read.

(** ** Requests *)

(** A full object id, lower case: 40 or 64 hexadecimal digits. *)
Definition oid_ok (hash : string) : Prop :=
  (len hash = 40 ∨ len hash = 64)
  ∧ Forall (λ b, is_ascii_digit b = true ∨ in_range 97 b 102 = true) (bytes hash).
Definition opt_path_ok (path : option string) : Prop := ∀ p, path = Some p → path_ok p = true.
Definition diff_ok (d : Diff) : Prop :=
  match d with
  | DiffWorktree path _ => path_ok path = true
  | DiffStaged path orig => path_ok path = true ∧ opt_path_ok orig
  | DiffCommit hash path orig => oid_ok hash ∧ path_ok path = true ∧ opt_path_ok orig
  end.
Definition call_ok (method : string) (c : GitCall) : Prop :=
  match c with
  | GitStatus => method = "git.status"
  | GitBranches => method = "git.branches"
  | GitLog _ limit => method = "git.log" ∧ 1 <= limit <= MAX_LOG_LIMIT
  | GitCommit hash => method = "git.commit" ∧ oid_ok hash
  | GitDiff d => method = "git.diff" ∧ diff_ok d
  end.

Lemma full_oid_ok value hash : full_oid value = Some hash → oid_ok hash.
Proof.
  unfold full_oid, is_full_oid. destruct (_ && _) eqn:Hok; [|done]. intros [= <-].
  apply andb_true_iff in Hok as [Hlen Hhex%forallb_Forall].
  assert (Hlow : Forall (λ b, is_ascii_digit b = true ∨ in_range 97 b 102 = true)
    (to_ascii_lowercase <$> bytes value)).
  { apply Forall_fmap. eapply Forall_impl; [exact Hhex|]. intros b Hb.
    unfold is_ascii_hexdigit, to_ascii_lowercase, is_ascii_uppercase, is_ascii_digit, in_range in *. simpl.
    destruct ((65 <=? b) && (b <=? 90)) eqn:Hu; lia. }
  assert (Hb : bytes (of_bytes (to_ascii_lowercase <$> bytes value)) = to_ascii_lowercase <$> bytes value).
  { apply bytes_of_bytes. eapply Forall_impl; [exact Hlow|]. intros b. unfold is_ascii_digit, in_range. lia. }
  split; [|by rewrite Hb]. rewrite len_bytes, Hb, length_fmap, <-len_bytes. lia.
Qed.

Lemma in_range_spec lo x hi : in_range lo x hi = true ↔ lo <= x <= hi.
Proof. unfold in_range. lia. Qed.

Lemma parse_call_ok P method value session workspace call :
  parse_call P method value = Some (session, workspace, call) → call_ok method call.
Proof.
  unfold parse_call. intros Hp. case_bool_decide as Hm.
  { destruct (parse_space P value) as [p|]; [|done]. simplify_eq/=.
    case_bool_decide; simplify_eq/=; [done|]. set_solver. }
  case_bool_decide as Hlog.
  { destruct (parse_log P value) as [p|]; [|done]. simplify_eq/=.
    destruct (in_range _ _ _) eqn:Hr; simplify_eq/=. split; [done|]. by apply in_range_spec. }
  case_bool_decide as Hcommit.
  { destruct (parse_commit P value) as [p|]; [|done]. simplify_eq/=.
    destruct (full_oid _) eqn:Ho; simplify_eq/=. split; [done|]. by eapply full_oid_ok. }
  case_bool_decide as Hdiff; [|done].
  destruct (parse_diff P value) as [p|]; [|done]. simplify_eq/=.
  destruct (negb _ || _) eqn:Hpath; [done|]. apply orb_false_iff in Hpath as [Hpath%negb_false_iff Horig].
  assert (Ho : opt_path_ok (dp_orig_path p)).
  { intros o Ho. rewrite Ho in Horig. by apply negb_false_iff. }
  destruct (dp_kind p); simplify_eq/=; [done..|].
  destruct (dp_commit p) as [c|]; simplify_eq/=. destruct (full_oid c) eqn:Hc; simplify_eq/=.
  split; [done|]. split; [by eapply full_oid_ok|done].
Qed.

(** What reaches the host is bounded: a request that is accepted is one of the
    five Git methods, its session and workspace ids have 1 to 256 bytes, a log asks
    for 1 to 100 commits, a commit is a full lower-case object id (never a ref or
    an option), and paths have 1 to 4096 bytes and no NUL. *)
Theorem request_bounded P method value r : parse_request P method value = Some r →
  is_git method = true ∧ call_ok method (gr_call r)
  ∧ 1 <= len (gr_session r) <= ID_BYTES ∧ 1 <= len (gr_workspace r) <= ID_BYTES.
Proof.
  unfold parse_request. destruct (parse_call P method value) as [[[session workspace] call]|] eqn:Hc; [|done].
  simpl. destruct (_ && _) eqn:Hid; [|done]. intros [= <-].
  apply parse_call_ok in Hc. apply andb_true_iff in Hid as [?%in_range_spec ?%in_range_spec]. simpl.
  split_and!; try done; [|lia..]. unfold is_git. apply bool_decide_eq_true.
  destruct call; simpl in Hc; [subst|subst|destruct Hc as [-> _]..]; set_solver.
Qed.

(** ** The audit window *)

(** The calls so far: Space, time and answer. *)
Abbreviation audit_calls := (list (string * string * Timestamp * bool)).
Inductive audit_run : AuditWindow → audit_calls → Prop :=
| au_new : audit_run ∅ []
| au_call a a' l session workspace now due :
    audit_run a l → (∀ e, e ∈ l → e.1.2 <= now) → audit_due session workspace now a = (due, a') →
    audit_run a' (l ++ [((session, workspace), now, due)]).

Definition window_inv (a : AuditWindow) (l : audit_calls) : Prop :=
  (∀ k t, a !! k = Some t → ∃ now0, (k, now0, true) ∈ l ∧ t = after now0 AUDIT_WINDOW)
  ∧ ∀ k now0, (k, now0, true) ∈ l → (∃ e, e ∈ l ∧ after now0 AUDIT_WINDOW <= e.1.2)
                                  ∨ ∃ t, a !! k = Some t ∧ after now0 AUDIT_WINDOW <= t.
Definition due_exactly (before : audit_calls) k (now : Timestamp) (due : bool) : Prop :=
  due = true ↔ ∀ now0, (k, now0, true) ∈ before → after now0 AUDIT_WINDOW <= now.

Lemma audit_due_spec session workspace now a a' l due : window_inv a l →
  (∀ e, e ∈ l → e.1.2 <= now) → audit_due session workspace now a = (due, a') →
  due_exactly l (session, workspace) now due ∧ window_inv a' (l ++ [((session, workspace), now, due)]).
Proof.
  intros [Hfrom Hkept] Hnow. unfold audit_due. set (k := (session, workspace)).
  set (f := filter (λ e, now < e.2) a).
  assert (Hf : ∀ k t, f !! k = Some t ↔ a !! k = Some t ∧ now < t).
  { intros k' t. subst f. by rewrite map_lookup_filter_Some. }
  assert (Hk : ∀ k' now0, (k', now0, true) ∈ l → after now0 AUDIT_WINDOW <= now
                          ∨ ∃ t, f !! k' = Some t ∧ after now0 AUDIT_WINDOW <= t).
  { intros k' now0 Hin. destruct (Hkept _ _ Hin) as [(e & He & ?)|(t & Ht & ?)].
    - left. specialize (Hnow e He). lia.
    - destruct (decide (now < t)); [right; exists t; by rewrite Hf|left; lia]. }
  case_bool_decide as Hsome; intros [= <- <-]; split.
  - split; [done|]. intros Hall. destruct Hsome as [t Ht]. apply Hf in Ht as [Ht Hlt].
    destruct (Hfrom _ _ Ht) as (now0 & Hin & ->). specialize (Hall _ Hin). lia.
  - split.
    + intros k' t [Ht _]%Hf. destruct (Hfrom _ _ Ht) as (now0 & ? & ?). exists now0. set_solver.
    + intros k' now0 [Hin|Hin]%elem_of_app; [|set_solver].
      destruct (Hk _ _ Hin) as [?|?]; [left|by right]. eexists. split; [apply elem_of_app; right; left|done].
  - split; [|done]. intros _ now0 Hin. destruct (Hk _ _ Hin) as [?|(t & Ht & _)]; [done|]. by destruct Hsome.
  - split.
    + intros k' t [[<- <-]|[_ [Ht _]%Hf]]%lookup_insert_Some; [exists now; set_solver|].
      destruct (Hfrom _ _ Ht) as (now0 & ? & ?). exists now0. set_solver.
    + intros k' now0 [Hin|Hin]%elem_of_app.
      * destruct (Hk _ _ Hin) as [?|(t & Ht & ?)].
        -- left. eexists. split; [apply elem_of_app; right; left|done].
        -- destruct (decide (k' = k)) as [->|]; [by destruct Hsome|]. right. exists t. by rewrite lookup_insert_ne.
      * apply list_elem_of_singleton in Hin. simplify_eq. right. eexists. by rewrite lookup_insert_eq.
Qed.
Lemma audit_run_inv a l : audit_run a l → window_inv a l.
Proof.
  induction 1 as [|a a' l session workspace now due _ IH Hnow Hd].
  - split; [by intros ? ? ?%lookup_empty_Some|set_solver].
  - by eapply audit_due_spec.
Qed.

(** The reads of a Space are audited once a minute: in every run of calls
    whose times do not go back, one is due exactly when every earlier one that was
    due for that Space is at least sixty seconds old. *)
Theorem audit_once_a_minute a l session workspace now due a' : audit_run a l →
  (∀ e, e ∈ l → e.1.2 <= now) → audit_due session workspace now a = (due, a') →
  (due = true ↔ ∀ now0, ((session, workspace), now0, true) ∈ l → now0 + seconds 60 <= now).
Proof. intros Hr Hnow Hd. by eapply audit_due_spec; [apply audit_run_inv| |]. Qed.

(** * Git over the gateway, computed *)
(** Two cursors of one device, of which the second is issued later. *)
Definition demo_tokens (now : Z) : Tokens := mkTokens "phone" now.
Definition demo_cursors_0 : Cursors * SimWorld := (cursors_new, mkSim 0 1 1 0 []).
Definition demo_cursors_1 := (tokens_issue (demo_tokens 10) "work" "w" "host-1" demo_cursors_0).2.
Definition demo_cursors_2 := (tokens_issue (demo_tokens 20) "work" "w" "host-2" demo_cursors_1).2.
Definition demo_token_1 : string := encode (sim_entropy 16 0).
Definition demo_token_2 : string := encode (sim_entropy 16 1).
Definition demo_issued : list (string * Cursor) :=
  [(demo_token_1, cursor_of (demo_tokens 10) "work" "w" "host-1");
   (demo_token_2, cursor_of (demo_tokens 20) "work" "w" "host-2")].
Lemma demo_cursor_run : cursor_run demo_cursors_2 demo_issued 20.
Proof.
  change demo_issued with (([] ++ [(demo_token_1, cursor_of (demo_tokens 10) "work" "w" "host-1")])
    ++ [(demo_token_2, cursor_of (demo_tokens 20) "work" "w" "host-2")]).
  apply (cr_issued (demo_tokens 20) "work" "w" "host-2" demo_cursors_1 _ _ 10).
  - apply (cr_issued (demo_tokens 10) "work" "w" "host-1" demo_cursors_0 _ _ 0);
      [apply cr_new|done|set_solver|vm_compute; reflexivity].
  - done.
  - cbn [fmap list_fmap app fst]. rewrite list_elem_of_singleton. vm_compute. discriminate.
  - vm_compute. reflexivity.
Qed.
Lemma cursor_tokens_witness :
  (∃ cursor, (demo_token_1, cursor) ∈ demo_issued ∧ cu_host cursor = "host-1")
  ∧ tokens_open (mkTokens "phone" 30) "work" "w" demo_token_1 demo_cursors_2.1 = Some "host-1"
  ∧ tokens_open (mkTokens "other" 30) "work" "w" demo_token_1 demo_cursors_2.1 = None.
Proof.
  destruct (cursor_tokens demo_cursors_2 demo_issued 20 demo_cursor_run) as (_ & Hopen & Hlive & _).
  split_and!.
  - destruct (Hopen (mkTokens "phone" 30) "work" "w" demo_token_1 "host-1") as (c & ? & _ & _ & _ & ? & _);
      [vm_compute; reflexivity|by exists c].
  - apply (Hlive [] demo_token_1 (cursor_of (demo_tokens 10) "work" "w" "host-1")
      [(demo_token_2, cursor_of (demo_tokens 20) "work" "w" "host-2")] 30);
      [reflexivity|vm_compute; lia|unfold cursor_of, after, CURSOR_TTL, seconds; simpl; lia].
  - vm_compute. reflexivity.
Defined.

(** The desktop remaps one Space and keeps another. *)
Definition unix_absolute (path : string) : bool := starts_with "/" path.
Definition demo_roots : list SpaceRoot :=
  [mkSpaceRoot "work" "w1" "/a"; mkSpaceRoot "work" "w2" "/b"; mkSpaceRoot "other" "w1" "/c"].
Definition demo_spaces : Spaces :=
  (spaces_replace unix_absolute demo_roots (mkSpaces {["work"]} ∅ "salt" 1)).2.
Lemma demo_spaces_wf : spaces_wf demo_spaces.
Proof.
  destruct (spaces_replace_inv unix_absolute demo_roots (mkSpaces {["work"]} ∅ "salt" 1)) as [_ Hs].
  - split; intros; simplify_map_eq.
  - simpl. lia.
  - vm_compute. discriminate.
  - change (roots_ok unix_absolute demo_roots) with true in Hs. by destruct Hs.
Qed.
Lemma spaces_remapped_witness : let roots := [mkSpaceRoot "work" "w1" "/a"; mkSpaceRoot "work" "w2" "/d"] in
  let s' := (spaces_replace unix_absolute roots demo_spaces).2 in
  (∃ sp, ss_spaces s' !! ("work", "w2") = Some sp ∧ sc_root sp = "/d" ∧ generation s' sp = "salt3")
  ∧ ss_spaces s' !! ("work", "w1") = Some (mkSpace "/a" 1)
  ∧ spaces_wf s'.
Proof.
  intros roots s'.
  destruct (spaces_remapped unix_absolute roots demo_spaces s' true demo_spaces_wf) as (_ & _ & Hok);
    [vm_compute; discriminate|vm_compute; discriminate|vm_compute; reflexivity|].
  destruct (Hok eq_refl) as (Hwf & _ & Hin & _). split_and!; [|vm_compute; reflexivity|exact Hwf].
  destruct (Hin (mkSpaceRoot "work" "w2" "/d")) as (sp & Hk & Hr);
    [right; left|change ("work" ∈ ({["work"]} : gset string)); set_solver|].
  exists sp. split; [exact Hk|]. split; [exact Hr|].
  assert (Hsp : ss_spaces s' !! ("work", "w2") = Some (mkSpace "/d" 3)) by (vm_compute; reflexivity).
  change (root_key (mkSpaceRoot "work" "w2" "/d")) with ("work", "w2") in Hk.
  rewrite Hsp in Hk. injection Hk as <-. vm_compute. reflexivity.
Defined.

Definition demo_git : GitParsers := mkGitParsers (λ _, Some (mkSpaceParams "work" "w"))
  (λ _, Some (mkLogParams "work" "w" None (Some 100))) (λ _, Some (mkCommitParams "work" "w" "HEAD"))
  (λ _, None).
Lemma request_bounded_witness :
  parse_request demo_git "git.log" VNull = Some (mkGitRequest "work" "w" (GitLog None 100))
  ∧ call_ok "git.log" (GitLog None 100) ∧ parse_request demo_git "git.commit" VNull = None.
Proof.
  split_and!; [reflexivity| |reflexivity].
  exact (proj1 (proj2 (request_bounded demo_git "git.log" VNull (mkGitRequest "work" "w" (GitLog None 100)) eq_refl))).
Defined.

(** Two reads of a Space, the second half a minute later. *)
Lemma audit_once_a_minute_witness :
  let a := (audit_due "work" "w" 0 ∅).2 in
  (audit_due "work" "w" (seconds 30) a).1 = false ∧ (audit_due "work" "w" (seconds 60) a).1 = true.
Proof.
  intros a.
  assert (Hrun : audit_run a ([] ++ [(("work", "w"), 0, true)])).
  { apply (au_call ∅ a [] "work" "w" 0 true); [apply au_new|set_solver|vm_cast_no_check (eq_refl (true, a))]. }
  split; [vm_compute; reflexivity|].
  apply (audit_once_a_minute a _ "work" "w" (seconds 60) _ (audit_due "work" "w" (seconds 60) a).2 Hrun).
  - intros e He%list_elem_of_singleton. subst. unfold seconds. simpl. lia.
  - vm_cast_no_check (eq_refl (audit_due "work" "w" (seconds 60) a)).
  - intros now0 Hin%list_elem_of_singleton. injection Hin as ->. lia.
Defined.

(** A host whose folder was trusted once and is trusted no more. *)
#[local] Instance demo_host : GitHost bool := {|
  host_require_trusted := λ _, (let! trusted := gets id in reject_if (negb trusted) "untrusted");
  host_detect := λ _ root, ret (VObject [("status", VString "ready"); ("root", VString root)]);
  host_read := λ _ root _, ret (VString root) |}.
Lemma space_read_trusted_witness :
  space_read (λ _, None) (mkSpace "/a" 1) GitStatus (Some "/a", false) = (Err "git-failed", (None, false))
  ∧ ∃ root p1, Some "/a" = Some root
      ∧ host_read 1 root GitStatus p1 = (Ok (VString "/a"), true)
      ∧ read_allowed (mkSpace "/a" 1) None true root p1.
Proof.
  split.
  - apply (proj1 (space_read_trusted (λ _, None) (mkSpace "/a" 1) GitStatus (Some "/a") false) "untrusted" false);
      [reflexivity|by exists "/a"].
  - apply (proj1 (proj2 (space_read_trusted (λ _, None) (mkSpace "/a" 1) GitStatus None true))).
    vm_compute. reflexivity.
Defined.
