(* ===== verification/Kept.v ===== *)
(** * Only a revocation forgets a device

    Every critical section of the gateway but one keeps the devices it has. *)

From stdpp Require Import base gmap strings list fin_maps fin_sets relations.
From Stdlib Require Import ZArith Lia.
From S2P Require Import Prelude Steps Rust Externals Clock Devices Admin Events World.
From S2P Require Import Pairing PairingFacts PairingSpec Webauthn WebauthnFacts.
From S2P Require Import Session SessionInv SessionOps SessionLogin Authorize.
From S2P Require Import SessionSpec Gateway GatewayFacts.

Local Open Scope Z_scope.

Section Kept.
Context `{Base64, Crypto, Http, Tokio, !Webauthn Transport, World W}.

Definition keeps (i i' : Identity) : Prop :=
  ∀ id, is_Some (i_devices i !! id) → is_Some (i_devices i' !! id).
#[export] Instance keeps_preorder : PreOrder keeps.
Proof. split; [by intros i id|]. intros i1 i2 i3 H12 H23 id Hid. auto. Qed.
Definition kept (t t' : Identity * W) : Prop := keeps t.1 t'.1.

Abbreviation kalong := (along kept).

Lemma kept_same {E A} (m : M (Identity * W) E A) : (∀ t, (m t).2.1 = t.1) → kalong m.
Proof. intros Hm. apply along_once. intros t id. by rewrite Hm. Qed.
Lemma kept_lift {E A} (f : W → A * W) : kalong (lift f : M (Identity * W) E A).
Proof. apply kept_same. intros [i w]. simpl. unfold lift. by destruct (f w). Qed.
Lemma kept_update {E} f : (∀ i, keeps i (f i)) → kalong (update f : M (Identity * W) E unit).
Proof. intros Hf. apply along_once. intros [i w]. apply Hf. Qed.
Lemma kept_get {E} : kalong (get : M (Identity * W) E Identity).
Proof. by apply kept_same. Qed.

Lemma keeps_same i i' : i_devices i' = i_devices i → keeps i i'.
Proof. intros Hd id. by rewrite Hd. Qed.
Lemma keeps_insert i id d : keeps i (set_devices (<[id := d]> (i_devices i)) i).
Proof. intros k Hk. simpl. apply lookup_insert_is_Some. destruct (decide (id = k)); auto. Qed.
Lemma keeps_invalidate_where p i : keeps i (invalidate_where p i).
Proof.
  apply keeps_same. unfold invalidate_where. induction (map_to_list _).*1 as [|id l IH]; [done|]. done.
Qed.

Hint Resolve kept_get keeps_insert keeps_invalidate_where : stepping.
Hint Extern 2 (along kept clock_read) => apply kept_lift : stepping.
Hint Extern 2 (along kept (random _)) => apply kept_lift : stepping.
Hint Extern 2 (along kept (try_emit _)) => apply kept_lift : stepping.
Hint Extern 2 (along kept (iterate _)) => apply kept_lift : stepping.
Hint Extern 2 (along kept draw_challenge) => apply kept_lift : stepping.
Hint Extern 2 (along kept (update _)) =>
  apply kept_update; intros ?; first [apply keeps_insert|apply keeps_invalidate_where|by apply keeps_same] : stepping.

Section Methods.
Context {E : Type}.
Lemma kept_try_emit_event e : kalong (try_emit_event e).
Proof. unfold try_emit_event. along_auto. Qed.
Hint Resolve kept_try_emit_event : stepping.
Lemma kept_purge : kalong (purge_expired (E := E)).
Proof. unfold purge_expired. along_auto. Qed.
Lemma kept_snapshot id : kalong (notify_snapshot (E := E) id).
Proof. unfold notify_snapshot. along_auto. Qed.
Hint Resolve kept_purge kept_snapshot : stepping.
Lemma kept_maintenance : kalong (identity_maintenance (E := E)).
Proof.
  unfold identity_maintenance. along_auto; apply along_for_each; intros [id d]; along_auto.
Qed.
Lemma kept_validate id host scope : kalong (validate (E := E) id host scope).
Proof. unfold validate. along_auto. Qed.
Hint Resolve kept_validate : stepping.
Lemma kept_revalidate ctx scope : kalong (revalidate (E := E) ctx scope).
Proof. unfold revalidate. along_auto. Qed.
Lemma kept_active_ids : kalong (active_session_ids (E := E)).
Proof. unfold active_session_ids. along_auto. Qed.
Lemma kept_can_elevate ctx scope : kalong (can_elevate (E := E) ctx scope).
Proof. unfold can_elevate. along_auto. Qed.
Lemma kept_owner response host : kalong (assertion_owner (E := E) response host).
Proof. unfold assertion_owner. along_auto. Qed.
Lemma kept_failed id rollback : kalong (assertion_failed (E := E) id rollback).
Proof. unfold assertion_failed. along_auto. Qed.
Lemma kept_verified id cred host v : kalong (assertion_verified (E := E) id cred host v).
Proof. unfold assertion_verified. along_auto. Qed.
End Methods.
Hint Resolve kept_try_emit_event kept_purge kept_snapshot kept_maintenance kept_validate kept_revalidate
  kept_active_ids kept_can_elevate kept_owner kept_failed kept_verified : stepping.

Lemma kept_authenticate headers host scope : kalong (authenticate headers host scope).
Proof. unfold authenticate. along_auto. Qed.
Lemma kept_elevate ctx scope : kalong (elevate ctx scope).
Proof. unfold elevate. along_auto. Qed.
Lemma kept_deadline ctx scope fresh : kalong (write_deadline ctx scope fresh).
Proof. unfold write_deadline. along_auto. Qed.
Lemma kept_register pairing verified : kalong (register_verified pairing verified).
Proof. unfold register_verified. along_auto. Qed.
Lemma kept_issue id host : kalong (issue_session id host).
Proof. unfold issue_session. along_auto. Qed.
Hint Resolve kept_elevate kept_deadline kept_issue : stepping.
Lemma kept_finish rp state response ctx : kalong (finish_assertion rp state response ctx).
Proof. unfold finish_assertion. along_auto. Qed.
Lemma kept_authorized {T} host ctx scope (write : M (Identity * W) Failure T) :
  kalong write → kalong (with_authorized host ctx scope write).
Proof. intros Hw. unfold with_authorized. along_auto. Qed.
Hint Resolve kept_authorized : stepping.
Lemma kept_peer host ctx : kalong (with_authorized host ctx View (peer_registration ctx)).
Proof.
  apply kept_authorized. unfold peer_registration. apply along_once. intros [i w]. simpl.
  apply keeps_same. unfold register_peer. destruct (_ || _); [done|]. by destruct (checked_add _ _ _).
Qed.
Lemma kept_logout host ctx : kalong (gateway_logout host ctx).
Proof. unfold gateway_logout. along_auto. Qed.

(** A command that is not a revocation. *)
Lemma change_kept command d snapshot widening name : (∀ v id, command ≠ DeviceRevoke v id) →
  command_change command d = Some (snapshot, widening, name) → is_Some snapshot.
Proof.
  intros Hc. destruct command as [v id label grants|v id|v id]; [|by destruct (Hc v id)|by intros [= <- _ _]].
  intros Hs. simpl in Hs. destruct label, grants; try done; cbn in Hs;
    repeat (case_match; simplify_eq/=); done.
Qed.
Lemma along_ret_bind {A B} (a : A) (k : A → M (Identity * W) Failure B) : kalong (k a) → kalong (bind (ret a) k).
Proof. done. Qed.
Lemma kept_command command : (∀ v id, command ≠ DeviceRevoke v id) → kalong (identity_command command).
Proof.
  intros Hc. unfold identity_command. cbn zeta. apply along_bind; [along_auto|intros _].
  apply along_bind; [along_auto|intros i]. apply along_bind; [along_auto|intros d].
  destruct (command_change command d) as [[[snapshot widening] name]|] eqn:Hs;
    [|exact (along_throw kept (A := AdminResult) INVALID_COMMAND)].
  apply along_ret_bind. destruct (change_kept _ _ _ _ _ Hc Hs) as [d' ->]. along_auto.
Qed.

(** ** The steps *)

Definition is_revoke (command : DeviceCommand) : option string :=
  match command with DeviceRevoke _ id => Some id | _ => None end.

(** The critical sections of the requests and of the maintenance: those of
    [gw_step] whose identity steps forget no device. *)
Definition itask t t' : Prop := identity_step t t' ∧ kept t t'.
Inductive ftask : Gw * W → Gw * W → Prop :=
| ft_identity p i w i' w' c : itask (i, w) (i', w') → ftask (mkGw p i c, w) (mkGw p i' c, w')
| ft_ceremony p i w c c' : ceremony_step c c' → ftask (mkGw p i c, w) (mkGw p i c', w).
Inductive gtask : Gw * W → Gw * W → Prop :=
| gt_free t t' : ftask t t' → gtask t t'
| gt_pairing p w p' w' i c : pairing_call (p, w) (p', w') → gtask (mkGw p i c, w) (mkGw p' i c, w')
| gt_register inner pairing verified t :
    (∀ n t, rtc ftask t (inner n t)) → gtask t (registration_commit inner pairing verified t).2.

Definition gw_keeps (t t' : Gw * W) : Prop := keeps (gw_identity t.1) (gw_identity t'.1).
Lemma ftask_free t t' : ftask t t' → free_step t t' ∧ gw_keeps t t'.
Proof. intros [p i w i' w' c [Hs Hk]|p i w c c' Hs]; split; [by constructor|exact Hk|by constructor|by intros id]. Qed.
Lemma ftasks_free t t' : rtc ftask t t' → rtc free_step t t' ∧ gw_keeps t t'.
Proof.
  intros Hs. induction Hs as [t|t1 t2 t3 H12 _ [IH IK]]; [split; [done|by intros id]|].
  apply ftask_free in H12 as [Hf Hk]. split; [by eapply rtc_l|]. intros id Hid. by apply IK, Hk.
Qed.
Lemma along_kept {E A} (m : M (Identity * W) E A) t : kalong m → kept t (m t).2.
Proof.
  intros Hm. specialize (Hm t). generalize dependent (m t).2. clear.
  intros t' Hs. induction Hs as [t|t1 t2 t3 H12 _ IH]; [by intros id|]. intros id Hid. by apply IH, H12.
Qed.

(** Every identity step is a revocation or keeps the devices. *)
Lemma identity_step_kept t t' : identity_step t t' →
  kept t t' ∨ ∃ v id, t' = (identity_command (DeviceRevoke v id) t).2.
Proof.
  intros Hs. pose proof (@along_kept) as Hk.
  destruct Hs as [c t|t|headers host scope t|ctx scope t|ctx scope t|t|rp state response ctx t
    |pairing verified t|host ctx t|host ctx t|host ctx scope fresh t|n i w|i w w' l _ _ _]; cycle 1.
  1-11: left.
  - apply Hk, kept_maintenance.
  - apply Hk, kept_authenticate.
  - apply Hk, kept_revalidate.
  - apply Hk, kept_can_elevate.
  - apply Hk, kept_active_ids.
  - apply Hk, kept_finish.
  - apply Hk, kept_register.
  - apply Hk, kept_peer.
  - apply Hk, kept_logout.
  - apply Hk, kept_authorized, along_map_err, kept_deadline.
  - by intros id.
  - by left; intros id.
  - destruct c as [v id label grants|v id|v id]; [left; apply Hk, kept_command; done|right; eauto
      |left; apply Hk, kept_command; done].
Qed.

(** The table's own sections of a commit leave the identity alone. *)
Abbreviation gkeeps := (along gw_keeps).
Lemma gkeeps_pairings {E A} (m : M (Pairings * W) E A) : gkeeps (in_pairings m).
Proof.
  apply along_once. intros [[p i c] w] id. unfold in_pairings, zoom. simpl. by destruct (m (p, w)) as [r [p' w']].
Qed.
Lemma gkeeps_register pairing verified : gkeeps (in_identity (register_verified pairing verified)).
Proof.
  intros [[p i c] w]. pose proof (kept_register pairing verified (i, w)) as Hk. unfold in_identity, zoom. simpl.
  destruct (register_verified pairing verified (i, w)) as [r t']. simpl in *. destruct t' as [i' w'].
  change i with ((i, w).1) at 1. apply rtc_once. intros id Hid. simpl in *.
  assert (∀ t t' : Identity * W, rtc kept t t' → kept t t') as Hall.
  { intros t t' Hs. induction Hs as [t|t1 t2 t3 H12 _ IH]; [by intros k|]. intros k Hk'. by apply IH, H12. }
  by apply (Hall _ _ Hk).
Qed.
Lemma gtask_step t t' : gtask t t' → gw_step t t' ∧ gw_keeps t t'.
Proof.
  intros [t0 t1 Hf|p w p' w' i c Hc|inner pairing verified t0 Hin].
  - apply ftask_free in Hf as [Hf Hk]. split; [by apply gs_free|done].
  - split; [by apply gs_pairing|by intros id].
  - split; [apply gs_register; intros n x; by apply ftasks_free|].
    assert (gkeeps (registration_commit inner pairing verified)) as Hk.
    { assert (∀ E n, gkeeps (modify (inner n) : M (Gw * W) E unit)) as Hinner.
      { intros E n. apply along_once. intros x. exact (proj2 (ftasks_free x _ (Hin n x))). }
      unfold registration_commit, finish.
      pose proof gkeeps_register. pose proof (@gkeeps_pairings).
      along_auto. }
    specialize (Hk t0). generalize dependent (registration_commit inner pairing verified t0).2.
    clear. intros t' Hs. induction Hs as [t|t1 t2 t3 H12 _ IH]; [by intros id|].
    intros id Hid. by apply IH, H12.
Qed.
End Kept.
