(* ===== verification/Control.v ===== *)
(** * [gateway.rs]: the gateway as the desktop drives it

    All the state of [Gateway], how it starts from the init frame, what an admin
    command does to it, and the maintenance that runs every second.  As in
    [Gateway.v], [other n] is whatever the other tasks do between two critical
    sections. *)

From stdpp Require Import base gmap strings list fin_maps fin_sets.
From Stdlib Require Import ZArith Lia.
From S2P Require Import Prelude Rust Externals Clock Devices Admin Guard Events World.
From S2P Require Import Pairing Webauthn Session Authorize Gateway WriteAudit Jobs Push GitBridge.

Local Open Scope Z_scope.

Section Control.
Context `{Base64, Crypto, Http, Tokio, !Webauthn Transport, World W}.

(** The fields of [Gateway] that change: the three tables of [Gateway.v], then
    [push], [spaces], [herdr_jobs], and the audit's [deferred_audit] and
    [live_streams]. *)
Record Whole := mkWhole {
  wh_gw : Gw;
  wh_push : Push;
  wh_spaces : Spaces;
  wh_jobs : Jobs;
  wh_audits : Audits;
}.

Abbreviation whole_m E A := (M (Whole * W) E A).

Definition in_gw {E A} (m : M (Gw * W) E A) : whole_m E A :=
  zoom (λ '(g, w), (wh_gw g, w))
       (λ '(x, w) '(g, _), (mkWhole x g.(wh_push) g.(wh_spaces) g.(wh_jobs) g.(wh_audits), w)) m.
Definition in_push {E A} (m : M Push E A) : whole_m E A :=
  zoom (λ '(g, _), wh_push g)
       (λ x '(g, w), (mkWhole g.(wh_gw) x g.(wh_spaces) g.(wh_jobs) g.(wh_audits), w)) m.
Definition in_spaces {E A} (m : M Spaces E A) : whole_m E A :=
  zoom (λ '(g, _), wh_spaces g)
       (λ x '(g, w), (mkWhole g.(wh_gw) g.(wh_push) x g.(wh_jobs) g.(wh_audits), w)) m.
Definition in_jobs {E A} (m : M Jobs E A) : whole_m E A :=
  zoom (λ '(g, _), wh_jobs g)
       (λ x '(g, w), (mkWhole g.(wh_gw) g.(wh_push) g.(wh_spaces) x g.(wh_audits), w)) m.
Definition in_deferred_audit {E A} (m : M (Deferred * W) E A) : whole_m E A :=
  zoom (λ '(g, w), (as_deferred (wh_audits g), w))
       (λ '(x, w) '(g, _), (mkWhole g.(wh_gw) g.(wh_push) g.(wh_spaces) g.(wh_jobs)
                              (set_deferred x g.(wh_audits)), w)) m.
(** A method with [&mut self] that cannot fail. *)
Definition run_on {S E A} (f : S → A * S) : M S E A := λ s, let '(a, s) := f s in (Ok a, s).

(** ** [Gateway::with_herdr] *)
Section New.
Context (is_absolute : string → bool).

(** [?] on a constructor's [Result]. *)
Definition of_sum {S A} (r : string + A) : M (S * W) string A :=
  match r with inl e => throw e | inr a => ret a end.

Definition gateway_new (init : Init) (instant : Z) : M (unit * W) string (GwConfig * Whole) :=
  let config := init.(listeners).(loopback) in
  let policy := init.(init_policy) in
  let! _ := of_sum (guard_new config instant) in
  reject_if (negb (is_absolute init.(herdr_binary))) "invalid-herdr-binary";;
  reject_if (negb (policy_valid policy)) "invalid-policy";;
  let! now := clock_read in
  reject_if (enable_until policy <=? now) "policy-expired";;
  let! identity := of_sum (identity_new init.(init_devices) policy) in
  let pairings := pairings_new config.(public_host) config.(required_tailscale_login) in
  let! rp_id := expect (head (split_on (char_of 58) config.(public_host))) in
  let! rp := ok_or "invalid-host" (relying_party_new config.(public_host)) in
  let ceremonies := ceremonies_new (max_devices policy) in
  let! spaces := spaces_new is_absolute init.(trust_store) init.(session_allowlist) init.(space_roots) in
  let! push := of_sum (push_new init) in
  ret (mkGwConfig rp_id rp policy,
       mkWhole (mkGw pairings identity ceremonies) push spaces jobs_new audits_new).
End New.

Section Commands.
Context (is_absolute : string → bool) (config : GwConfig) (other : nat → Whole * W → Whole * W).
Definition meanwhile_whole {E} (n : nat) : whole_m E unit := modify (other n).

(** [Identity::device], under the identity's lock *)
Definition device_known (id : string) (g : Whole) : bool :=
  bool_decide (is_Some (i_devices (gw_identity (wh_gw g)) !! id)).

(** [Gateway::command] *)
Definition gateway_command (command : CommandBody) : whole_m Failure AdminResult :=
  let! now := clock_read in
  reject_if (enable_until (gc_policy config) <=? now) (FORBIDDEN, "Policy expired");;
  match command with
  | CmdPairing command =>
      match command with
      | PairingCreate _ _ (Some id) =>
          in_gw (in_identity (let! i := get in let! _ := ok_or REJECTED (registration_target id i) in ret tt));;
          meanwhile_whole 0
      | _ => ret tt
      end;;
      in_gw (in_pairings (pairings_command command))
  | CmdDevice command =>
      let revoked := match command with DeviceRevoke _ id => Some id | _ => None end in
      let! result := in_gw (in_identity (identity_command command)) in
      match revoked with
      | Some id => meanwhile_whole 1;; in_push (modify (push_remove id))
      | None => ret tt
      end;;
      ret result
  | CmdSpaces command =>
      let! ok := in_spaces (run_on (spaces_replace is_absolute command.(sp_roots))) in
      reject_if (negb ok) (BAD_REQUEST, "Invalid spaces");;
      ret Applied
  | CmdPush command =>
      let! s := gets id in
      let! ok := in_push (run_on (push_replace command.(psh_devices) (λ id, device_known id s.1))) in
      reject_if (negb ok) (BAD_REQUEST, "Invalid push devices");;
      ret Applied
  | CmdPushAck ack => in_push (modify (push_ack ack.(pa_request_id) ack.(pa_stored)));; ret Applied
  | CmdPeers l =>
      let! s := gets id in
      ret (PeersResult l.(pl_request_id) (peer_list (gw_identity (wh_gw s.1)))
             (live_list (as_live (wh_audits s.1))))
  | CmdInit _ | CmdShutdown | CmdUnknown => throw (BAD_REQUEST, "Invalid admin command")
  end.

(** [Gateway::maintenance] *)
Definition gateway_maintenance : whole_m Failure unit :=
  in_jobs (modify reap);;
  meanwhile_whole 2;;
  in_deferred_audit flush;;
  meanwhile_whole 3;;
  in_gw (in_pairings pairings_maintenance);;
  meanwhile_whole 4;;
  let! now := clock_read in
  in_gw (in_ceremonies (modify (purge now)));;
  meanwhile_whole 5;;
  in_gw (in_identity identity_maintenance).
End Commands.
End Control.
