(* ===== verification/ControlFacts.v ===== *)
(** * The whole gateway keeps its invariants, command by command

    [task_step] is one critical section of a request, of a watcher or of the
    maintenance; commands come one at a time from the admin pipe, and a command
    that takes two locks has task steps in between. *)

From stdpp Require Import base gmap strings list fin_maps fin_sets relations.
From Stdlib Require Import ZArith Lia.
From S2P Require Import Prelude Steps Rust Externals Clock Devices Admin Guard Events World.
From S2P Require Import Pairing PairingFacts PairingSpec Webauthn WebauthnFacts.
From S2P Require Import Session SessionInv SessionOps SessionLogin Authorize.
From S2P Require Import SessionSpec Gateway GatewayFacts Kept.
From S2P Require Import WriteAudit Jobs Push GitBridge GitFacts Control.

Local Open Scope Z_scope.

Section Facts.
Context `{Base64, !Base64Laws _, Crypto, !CryptoLaws _, Http, Tokio, !Webauthn Transport, World W, !WorldLaws W}.
Context (d0 : gmap string Device) (is_absolute : string → bool) (config : GwConfig).
Context (parse_subscribe : Value → option SubscribeParams).

Abbreviation gw_inv := (gw_inv d0).

(** ** What the tasks do *)

Inductive push_task : Push * W → Push * W → Prop :=
| pt_begin device params t : push_task t (subscribe_begin parse_subscribe device params t).2
| pt_finish request t : push_task t (subscribe_finish request t).2
| pt_call device method params t : push_task t (push_call device method params t).2.

(** No bundle of the audit announces a device. *)
Definition pending_quiet (d : Deferred) : Prop :=
  map_Forall (λ _ b, Forall (λ e, device_event e = false) b.2) d.(df_pending).

Definition with_gw x g := mkWhole x g.(wh_push) g.(wh_spaces) g.(wh_jobs) g.(wh_audits).
Definition with_push x g := mkWhole g.(wh_gw) x g.(wh_spaces) g.(wh_jobs) g.(wh_audits).
Definition with_spaces x g := mkWhole g.(wh_gw) g.(wh_push) x g.(wh_jobs) g.(wh_audits).
Definition with_herdr_jobs x g := mkWhole g.(wh_gw) g.(wh_push) g.(wh_spaces) x g.(wh_audits).
Definition with_audits x g := mkWhole g.(wh_gw) g.(wh_push) g.(wh_spaces) g.(wh_jobs) x.

Inductive task_step : Whole * W → Whole * W → Prop :=
| tk_gw g w x w' : gtask (wh_gw g, w) (x, w') → task_step (g, w) (with_gw x g, w')
| tk_push g w x w' : push_task (wh_push g, w) (x, w') → task_step (g, w) (with_push x g, w')
| tk_jobs g w x : task_step (g, w) (with_herdr_jobs x g, w)
| tk_audits g w x w' : quiet_world w w' → pending_quiet (as_deferred x) →
    task_step (g, w) (with_audits x g, w').

Lemma push_task_spec t t' : push_wf t.1 → push_task t t' →
  push_wf t'.1 ∧ pu_devices t'.1 = pu_devices t.1 ∧ quiet_world t.2 t'.2.
Proof.
  intros Hw Hs. destruct Hs as [device params [p w]|request [p w]|device method params [p w]]; simpl in *.
  - pose proof (begin_spec parse_subscribe device params p w) as (Hd & Ha & Hv & _).
    assert (quiet (subscribe_begin parse_subscribe device params)) as Hq
      by (unfold subscribe_begin; quiet_auto).
    split_and!; [by eapply push_wf_same|done|apply Hq].
  - pose proof (subscribe_finish_spec request p w) as (Hd & Ha & Hv & _).
    assert (quiet (subscribe_finish request)) as Hq by (unfold subscribe_finish; quiet_auto).
    split_and!; [by eapply push_wf_same|done|apply Hq].
  - pose proof (call_spec device method params p w) as Hc. unfold wp in Hc.
    assert (quiet (push_call device method params)) as Hq by (unfold push_call; quiet_auto).
    rewrite Hc. split_and!; [done|done|apply Hq].
Qed.

(** ** The invariant *)

Definition known_devices (g : Whole) : Prop :=
  ∀ id, is_Some (pu_devices (wh_push g) !! id) → device_known id g = true.
(** The same while a revocation of [gone] is under way. *)
Definition known_except (gone : string) (g : Whole) : Prop :=
  ∀ id, is_Some (pu_devices (wh_push g) !! id) → id ≠ gone → device_known id g = true.

Record whole_wf (t : Whole * W) : Prop := {
  wi_gw : gw_inv (wh_gw t.1, t.2);
  wi_push : push_wf (wh_push t.1);
  wi_spaces : spaces_wf (wh_spaces t.1);
  wi_counter : 0 <= ss_generations (wh_spaces t.1);
  wi_pending : pending_quiet (as_deferred (wh_audits t.1));
}.
Record whole_inv (t : Whole * W) : Prop := {
  wi_wf : whole_wf t;
  wi_known : known_devices t.1;
}.

Lemma device_known_iff id g : device_known id g = true ↔ is_Some (i_devices (gw_identity (wh_gw g)) !! id).
Proof. apply bool_decide_eq_true. Qed.

Lemma gw_inv_quiet g w w' : gw_inv (g, w) → quiet_world w w' → gw_inv (g, w').
Proof.
  intros [Hp Hid Hc] Hq. constructor; simpl in *; [|by eapply inv_quiet|done].
  eapply table_inv_grows; [|exact Hp]. destruct Hq as [(l & Hl & _) _]. by eapply log_grows_app.
Qed.
Lemma wf_quiet g w w' : whole_wf (g, w) → quiet_world w w' → whole_wf (g, w').
Proof. intros [] Hq. constructor; simpl in *; try done. by eapply gw_inv_quiet. Qed.

(** A task keeps everything, and forgets no device. *)
Lemma task_step_wf t t' : whole_wf t → task_step t t' →
  whole_wf t' ∧ pu_devices (wh_push t'.1) = pu_devices (wh_push t.1)
  ∧ ∀ id, device_known id t.1 = true → device_known id t'.1 = true.
Proof.
  intros [Hg Hp Hs Hn Hq] Hstep. destruct Hstep as [g w x w' Hx|g w x w' Hx|g w x|g w x w' Hw Hx]; simpl in *.
  - apply gtask_step in Hx as [Hx Hk]. split; [|split; [done|]].
    + constructor; simpl; try done. by eapply gw_step_inv.
    + intros id. rewrite !device_known_iff. apply Hk.
  - apply push_task_spec in Hx as (Hp' & Hd & Hw); [|done]. split; [|by split].
    constructor; simpl; try done. by eapply gw_inv_quiet.
  - split; [|by split]. by constructor.
  - split; [|by split]. constructor; simpl; try done. by eapply gw_inv_quiet.
Qed.
Lemma tasks_wf t t' : whole_wf t → rtc task_step t t' →
  whole_wf t' ∧ pu_devices (wh_push t'.1) = pu_devices (wh_push t.1)
  ∧ ∀ id, device_known id t.1 = true → device_known id t'.1 = true.
Proof.
  intros Hi Hs. induction Hs as [t|t1 t2 t3 H12 _ IH]; [by split|].
  destruct (task_step_wf _ _ Hi H12) as (Hi2 & Hd2 & Hk2). destruct (IH Hi2) as (Hi3 & Hd3 & Hk3).
  split; [done|]. split; [congruence|]. auto.
Qed.
Lemma tasks_inv t t' : whole_inv t → rtc task_step t t' → whole_inv t'.
Proof.
  intros [Hi Hk] Hs. destruct (tasks_wf _ _ Hi Hs) as (Hi' & Hd & Hk'). constructor; [done|].
  intros id Hid. apply Hk', Hk. by rewrite <-Hd.
Qed.

(** ** The methods *)

Section Methods.
Context (other : nat → Whole * W → Whole * W).
Hypothesis others : ∀ n t, rtc task_step t (other n t).

Lemma in_gw_wp {E A} (m : M (Gw * W) E A) (Q : outcome E A → Whole * W → Prop) g w :
  wp m (λ r t, Q r (with_gw t.1 g, t.2)) (wh_gw g, w) → wp (in_gw m) Q (g, w).
Proof. intros Hm. apply wp_zoom. eapply wp_mono; [exact Hm|]. by intros r [x w']. Qed.
Lemma in_push_wp {E A} (m : M Push E A) (Q : outcome E A → Whole * W → Prop) g w :
  wp m (λ r p, Q r (with_push p g, w)) (wh_push g) → wp (in_push m) Q (g, w).
Proof. intros Hm. apply wp_zoom. exact Hm. Qed.
Lemma in_spaces_wp {E A} (m : M Spaces E A) (Q : outcome E A → Whole * W → Prop) g w :
  wp m (λ r p, Q r (with_spaces p g, w)) (wh_spaces g) → wp (in_spaces m) Q (g, w).
Proof. intros Hm. apply wp_zoom. exact Hm. Qed.
Lemma meanwhile_wp {E} n (Q : outcome E unit → Whole * W → Prop) t :
  whole_inv t → (∀ t', whole_inv t' → Q (Ok tt) t') → wp (meanwhile_whole other n) Q t.
Proof. intros Hi HQ. apply wp_modify, HQ. by eapply tasks_inv. Qed.
Lemma clock_whole_wp {E} (Q : outcome E Timestamp → Whole * W → Prop) g w :
  whole_inv (g, w) →
  (∀ w', whole_inv (g, w') → world_time w <= world_time w' → Q (Ok (world_time w')) (g, w')) →
  wp clock_read Q (g, w).
Proof.
  intros [Hi Hk] HQ. apply wp_clock_read. intros now w' Ht <- Hl. apply HQ; [|done].
  constructor; [|done]. eapply wf_quiet; [done|]. by apply quiet_same.
Qed.

Lemma identity_wp {E A} (m : M (Identity * W) E A) (Q : outcome E A → Whole * W → Prop) g w :
  whole_inv (g, w) →
  wp m (λ r t, irel d0 (gw_identity (wh_gw g), w) t ∧ ∀ g' : Whole, 
    g' = with_gw (mkGw (gw_pairings (wh_gw g)) t.1 (gw_ceremonies (wh_gw g))) g →
    whole_wf (g', t.2) → Q r (g', t.2)) (gw_identity (wh_gw g), w) →
  wp (in_gw (in_identity m)) Q (g, w).
Proof.
  intros [[Hg Hp Hs Hn Hq] Hk] Hm. simpl in *. apply in_gw_wp, wp_zoom. destruct (wh_gw g) as [p i c] eqn:Hgw. simpl.
  eapply wp_mono; [exact Hm|]. intros r [i' w'] [[Hi' Hl _ _] HQ]. simpl in *. apply HQ; [done|].
  constructor; simpl; try done. destruct Hg as [Hg1 Hg2 Hg3]. constructor; simpl in *; [|done..].
  by eapply table_inv_grows.
Qed.

(** A command can only forget the device it revokes. *)
Lemma command_devices command o widening name i i' id : command_done command o widening name i i' →
  is_Some (i_devices i !! id) → is_revoke command ≠ Some id → is_Some (i_devices i' !! id).
Proof.
  intros (d & Hd & Hch & Hdev & _) Hid Hne. rewrite Hdev.
  destruct (decide (id = command_id command)) as [->|Hother]; [|destruct o; [by rewrite lookup_insert_ne|by rewrite lookup_delete_ne]].
  assert (∀ v k, command ≠ DeviceRevoke v k) as Hc by (by intros v k ->).
  destruct (change_kept _ _ _ _ _ Hc Hch) as [d' ->]. by rewrite lookup_insert_eq.
Qed.

(** ** Commands *)

Definition room (command : CommandBody) (t : Whole * W) : Prop :=
  match command with
  | CmdSpaces c => ss_generations (wh_spaces t.1) + Z.of_nat (length c.(sp_roots)) <= u64_max
  | _ => True
  end.

Abbreviation command_ok := (λ (r : outcome Failure AdminResult) t', whole_inv t' ∧ r ≠ Panic).

Lemma pairing_part_wp command t : whole_inv t →
  wp (in_gw (in_pairings (pairings_command command))) command_ok t.
Proof.
  destruct t as [g w]. intros [[Hg Hp Hs Hn Hq] Hk]. simpl in *. apply in_gw_wp, wp_zoom. destruct (wh_gw g) as [p i c] eqn:Hgw. simpl.
  pose proof (quiet_command command p w) as Hquiet.
  pose proof (pairing_command_spec (p, w) command p w (table_rel_refl _ _ (gi_pairings _ _ Hg))) as Hspec.
  apply run_wp. intros r [p' w'] Hr. rewrite Hr in Hquiet.
  pose proof (wp_run _ _ _ _ _ Hspec Hr) as [Hnp Hrel]. simpl in *. split; [|done]. constructor.
  - constructor; simpl; try done.
    constructor; simpl; [apply Hrel|eapply inv_quiet; [apply Hg|exact Hquiet]|apply Hg].
  - intros id. unfold device_known. simpl. rewrite <-Hgw in *. intros Hid. specialize (Hk id Hid).
    unfold device_known in Hk. by rewrite Hgw in Hk.
Qed.

(** A pairing's target is looked up under the lock of the identity alone. *)
Lemma target_wp id t (Q : outcome Failure unit → Whole * W → Prop) : 
  (∀ r, r ≠ Panic → Q r t) →
  wp (in_gw (in_identity (let! i := get in let! _ := ok_or REJECTED (registration_target id i) in ret tt))) Q t.
Proof.
  destruct t as [[gw p s j a] w]. intros HQ. apply in_gw_wp, wp_zoom. destruct gw as [tp i c]. simpl.
  apply wp_bind, wp_get, wp_bind, wp_ok_or. destruct (registration_target id i); by apply HQ.
Qed.

Lemma device_part_wp command t : whole_inv t →
  wp (let! result := in_gw (in_identity (identity_command command)) in
      match is_revoke command with
      | Some id => meanwhile_whole other 1;; in_push (modify (push_remove id))
      | None => ret tt
      end;;
      ret result) command_ok t.
Proof.
  destruct t as [g w]. intros Hi. apply wp_bind, identity_wp; [done|].
  eapply command_spec; [apply irel_refl, Hi|]. intros r i' w' Hnp Hr Herr Hok. split; [done|].
  intros g' -> Hwf. destruct r as [res|e|]; [| |done]; cycle 1.
  { split; [|done]. constructor; [done|]. destruct (Herr e eq_refl) as [-> _]. apply Hi. }
  destruct (Hok res eq_refl) as (snap & widening & name & Hdone & _).
  assert (∀ id, is_Some (pu_devices (wh_push g) !! id) → is_revoke command ≠ Some id →
    is_Some (i_devices i' !! id)) as Hkeep.
  { intros id Hid Hne. eapply command_devices; [done| |done]. apply device_known_iff. by apply Hi. }
  apply wp_bind. destruct (is_revoke command) as [gone|]; cycle 1.
  { apply wp_ret, wp_ret. split; [|done]. constructor; [done|]. intros id Hid. apply device_known_iff. by apply Hkeep. }
  apply wp_bind, wp_modify. cbn [fst snd] in *. set (t1 := (with_gw (mkGw (gw_pairings (wh_gw g)) i' (gw_ceremonies (wh_gw g))) g, w')) in *.
  destruct (tasks_wf _ _ Hwf (others 1%nat t1)) as (Hwf2 & Hpush & Hknown).
  destruct (other 1%nat t1) as [g2 w2]. apply in_push_wp, wp_modify, wp_ret. split; [|done].
  destruct Hwf2 as [Hg2 Hp2 Hs2 Hn2 Hq2]. simpl in *. constructor; [constructor; simpl; try done; by apply push_remove_wf|].
  intros id Hid. simpl in Hid. change (device_known id (with_push (push_remove gone (wh_push g2)) g2))
    with (device_known id g2). unfold push_remove in Hid.
  assert (id ≠ gone ∧ is_Some (pu_devices (wh_push g2) !! id)) as [Hne Hid'].
  { destruct (pu_devices (wh_push g2) !! gone) eqn:Hgone; simpl in Hid.
    - by apply lookup_delete_is_Some in Hid as [? ?].
    - split; [|done]. intros ->. rewrite Hgone in Hid. by destruct Hid. }
  apply Hknown, device_known_iff. simpl. apply Hkeep; [by rewrite <-Hpush|congruence].
Qed.

Lemma push_part_wp devices t : whole_inv t →
  wp (let! s := gets id in
      let! ok := in_push (run_on (push_replace devices (λ id, device_known id s.1))) in
      reject_if (negb ok) (BAD_REQUEST, "Invalid push devices");;
      ret Applied) command_ok t.
Proof.
  destruct t as [g w]. intros [Hwf Hk]. apply wp_bind, wp_gets, wp_bind, in_push_wp.
  pose proof (push_replace_wf devices (λ id, device_known id g) (wh_push g) (wi_push _ Hwf)) as Hp'.
  apply run_wp. unfold run_on. simpl. intros r p' Hr.
  assert (whole_inv (with_push p' g, w) ∧ ∃ b, r = Ok b) as [Hi [b ->]].
  { destruct (push_replace _ _ _) as [b q] eqn:Hrep. simplify_eq/=. split; [|by exists b].
    destruct Hwf as [Hg Hp Hs Hn Hq]. simpl in *. constructor; [by constructor|].
    intros id Hid. change (device_known id (with_push p' g)) with (device_known id g). simpl in Hid.
    unfold push_replace in Hrep. destruct (stored devices); [|simplify_eq; by apply Hk].
    destruct (negb _); [simplify_eq; by apply Hk|]. simplify_eq/=. destruct Hid as [ids Hid].
    by apply map_lookup_filter_Some in Hid as [_ ?]. }
  apply wp_bind, wp_reject_if. destruct b; simpl; [by apply wp_ret|done].
Qed.

Lemma spaces_part_wp c t : whole_inv t → room (CmdSpaces c) t →
  wp (let! ok := in_spaces (run_on (spaces_replace is_absolute c.(sp_roots))) in
      reject_if (negb ok) (BAD_REQUEST, "Invalid spaces");;
      ret Applied) command_ok t.
Proof.
  destruct t as [g w]. intros [[Hg Hp Hs Hn Hq] Hk] Hroom. simpl in *. apply wp_bind, in_spaces_wp.
  pose proof (spaces_replace_inv is_absolute c.(sp_roots) (wh_spaces g) Hs Hn Hroom) as [Hok Hinv].
  apply run_wp. unfold run_on. simpl. intros r s' Hr. destruct (spaces_replace _ _ _) as [b s1]. simplify_eq/=.
  assert (whole_inv (with_spaces s' g, w)) as Hi.
  { constructor; [|exact Hk]. destruct (roots_ok _ _); [|subst; by constructor].
    destruct Hinv as (Hwf & _ & _ & Hge & _). constructor; simpl; try done. lia. }
  apply wp_bind, wp_reject_if. destruct (roots_ok _ _); simpl; [by apply wp_ret|done].
Qed.

Lemma command_whole_wp command t : whole_inv t → room command t →
  wp (gateway_command is_absolute config other command) command_ok t.
Proof.
  destruct t as [g w]. intros Hi Hroom. unfold gateway_command. apply wp_bind, clock_whole_wp; [done|].
  intros w1 Hi1 _. apply wp_bind, wp_reject_if. destruct (_ <=? _); [done|].
  destruct command as [init| |command|command|c|c|c|l|]; try (by apply wp_throw).
  - assert (wp (in_gw (in_pairings (pairings_command command))) command_ok (g, w1)) as Hrest
      by by apply pairing_part_wp.
    apply wp_bind. destruct command as [v path [target|]|v id|v id|v id]; try (by apply wp_ret).
    apply wp_bind, target_wp. intros r Hnp. destruct r as [u|e|]; [|done..].
    apply meanwhile_wp; [done|]. intros t' Hi'. by apply pairing_part_wp.
  - by apply device_part_wp.
  - by apply spaces_part_wp.
  - by apply push_part_wp.
  - apply wp_bind, in_push_wp, wp_modify, wp_ret. split; [|done]. destruct Hi1 as [[Hg Hp Hs Hn Hq] Hk].
    simpl in *. constructor.
    + constructor; simpl; try done. unfold push_ack. case_bool_decide; [destruct Hp; by constructor|done].
    + intros id Hid. simpl in Hid. apply Hk. unfold push_ack in Hid. by case_bool_decide.
  - apply wp_bind, wp_gets, wp_ret. done.
Qed.
End Methods.
End Facts.
