(* ===== verification/ControlProps.v ===== *)
(** * From the init frame on: the gateway's promises to the desktop *)
From stdpp Require Import base gmap strings list fin_maps fin_sets relations.
From Stdlib Require Import ZArith Lia.
From S2P Require Import Prelude Steps Rust Externals Crates Clock Devices Admin Guard Events World.
From S2P Require Import Pairing PairingFacts PairingSpec Webauthn WebauthnFacts Session.
From S2P Require Import SessionInv SessionOps SessionLogin Authorize SessionSpec.
From S2P Require Import SessionProps Gateway GatewayFacts WriteAudit Jobs Push.
From S2P Require Import PushNotices GitBridge GitFacts GitProps Kept Control ControlFacts.
Local Open Scope Z_scope.

Section Props.
Context `{Base64, !Base64Laws _, Crypto, !CryptoLaws _, Http, Tokio, !Webauthn Transport, World W, !WorldLaws W}.
Context (is_absolute : string → bool) (parse_subscribe : Value → option SubscribeParams).

Abbreviation task_step := (task_step parse_subscribe).

(** ** Maintenance *)

Lemma quiet_emit_while events : Forall (λ e, device_event e = false) events →
  ∀ s w, wp (emit_while (S := Deferred) (E := Failure) events) (λ r t, quiet_world w t.2 ∧ t.1 = s
    ∧ ∃ rest, r = Ok rest ∧ Forall (λ e, device_event e = false) rest) (s, w).
Proof.
  induction 1 as [|e events He Hall IH]; intros s w; cbn.
  { apply wp_ret. split; [reflexivity|]. split; [done|]. exists []. by split. }
  apply wp_bind, wp_try_emit. intros ok w1 Ht Hl. destruct ok.
  - eapply wp_mono; [apply IH|]. cbn beta. intros r t (Hq & Hs & Hr). split; [|by split].
    etrans; [|exact Hq]. constructor; [|simpl; lia]. exists [e]. split; [done|by constructor].
  - apply wp_ret. rewrite app_nil_r in Hl. split; [apply quiet_same; [done|simpl; lia]|].
    split; [done|]. exists (e :: events). split; [done|by constructor].
Qed.
Lemma flush_quiet_spec d w : pending_quiet d →
  wp (flush (E := Failure)) (λ r t, r = Ok tt ∧ quiet_world w t.2 ∧ pending_quiet t.1) (d, w).
Proof.
  intros Hd. unfold flush. apply wp_bind, wp_get, wp_bind, wp_iterate. intros l w1 Hl Ht Hlog.
  assert (∀ k b, (k, b) ∈ l → Forall (λ e, device_event e = false) b.2) as Hb.
  { intros k b Hin. rewrite Hl in Hin. apply elem_of_map_to_list in Hin. by apply (Hd k). }
  apply wp_bind. apply (wp_for_each _ _ (λ t : Deferred * W, quiet_world w t.2 ∧ pending_quiet t.1)).
  - split; [|done]. apply quiet_same; [done|simpl; lia].
  - intros [k [device events]] [d1 w2] Hin [Hq Hd1]. apply wp_bind. eapply wp_mono.
    { apply quiet_emit_while. exact (Hb _ _ Hin). }
    cbn beta. intros r [d2 w3] (Hq2 & Hd2 & rest & -> & Hrest). simpl in Hd2. subst d2. apply wp_update. split; [done|].
    split; [by etrans|]. case_bool_decide; simpl.
    + eapply map_Forall_delete, Hd1.
    + by apply map_Forall_insert_2.
  - intros [d1 w2] [Hq Hd1]. apply wp_bind, wp_get. destruct (df_dropped d1) as [rp|]; [|by apply wp_ret].
    apply wp_bind, wp_try_emit. intros ok w3 Ht3 Hl3. assert (quiet_world w w3) as Hq3.
    { etrans; [exact Hq|]. constructor; [|simpl; lia]. eexists. split; [exact Hl3|]. destruct ok; auto. }
    apply wp_when. destruct ok; [by apply wp_update|done].
Qed.

Section Run.
Context (d0 : gmap string Device) (config : GwConfig).
Abbreviation inv_of := (ControlFacts.whole_inv d0).

Lemma gw_part_wp {E A} (m : M (Gw * W) E A) (Q : outcome E A → Whole * W → Prop) g w :
  inv_of (g, w) →
  wp m (λ r t, gtask (wh_gw g, w) t ∧ ∀ g', inv_of (g', t.2) → Q r (g', t.2)) (wh_gw g, w) →
  wp (in_gw m) Q (g, w).
Proof.
  intros Hi Hm. apply in_gw_wp. eapply wp_mono; [exact Hm|]. cbn beta. intros r [x w'] [Hs HQ].
  apply HQ. eapply tasks_inv; [exact Hi|]. by apply rtc_once, (tk_gw parse_subscribe g w x w').
Qed.

(** The maintenance is a task: it never panics and keeps the invariant. *)
Lemma maintenance_whole_wp other t : (∀ n t, rtc task_step t (other n t)) → inv_of t →
  wp (gateway_maintenance other) (λ r t', r = Ok tt ∧ inv_of t') t.
Proof.
  intros Ho Hi. unfold gateway_maintenance. destruct t as [g w].
  apply wp_bind, wp_zoom, wp_modify. simpl. change (mkWhole _ _ _ _ _) with (with_herdr_jobs (reap (wh_jobs g)) g).
  assert (inv_of (with_herdr_jobs (reap (wh_jobs g)) g, w)) as Hi1.
  { eapply tasks_inv; [exact Hi|]. apply rtc_once, (tk_jobs parse_subscribe). }
  apply wp_bind. eapply meanwhile_wp; [exact Ho|exact Hi1|]. intros [g2 w2] Hi2.
  apply wp_bind, wp_zoom. eapply wp_mono; [apply flush_quiet_spec, (wi_pending _ _ (wi_wf _ _ Hi2))|]. cbn beta.
  intros r [d w3] (-> & Hq & Hd). simpl in Hq, Hd. simpl.
  assert (inv_of (with_audits (set_deferred d (wh_audits g2)) g2, w3)) as Hi3.
  { eapply tasks_inv; [exact Hi2|]. by apply rtc_once, (tk_audits parse_subscribe). }
  apply wp_bind. eapply meanwhile_wp; [exact Ho|exact Hi3|]. clear dependent g g2 d w w2 w3. intros [g w] Hi.
  apply wp_bind. eapply gw_part_wp; [exact Hi|]. destruct (wh_gw g) as [p i c] eqn:Hgw.
  apply wp_zoom. assert (table_inv p w) as Hp.
  { pose proof (gi_pairings _ _ (wi_gw _ _ (wi_wf _ _ Hi))) as Hp. simpl in Hp. by rewrite Hgw in Hp. }
  pose proof (maintenance_spec (p, w) p w (table_rel_refl _ _ Hp)) as Hm. apply run_wp. intros r [p' w'] Hr. simpl in Hr.
  pose proof (wp_run _ _ _ _ _ Hm Hr) as [-> _]. simpl. split.
  { apply gt_pairing. pose proof (call_maintenance (p, w)) as Hc. by rewrite Hr in Hc. }
  clear Hi. intros g' Hi. apply wp_bind. eapply meanwhile_wp; [exact Ho|exact Hi|].
  clear dependent g g' p i c w w'. intros [g w] Hi.
  apply wp_bind. eapply clock_whole_wp; [exact Hi|]. intros w1 Hi1 _. apply wp_bind.
  eapply gw_part_wp; [exact Hi1|]. destruct (wh_gw g) as [p i c] eqn:Hgw. apply wp_zoom, wp_modify. simpl. split.
  { apply gt_free, ft_ceremony. apply step_purge. }
  intros g' Hi'. apply wp_bind. eapply meanwhile_wp; [exact Ho|exact Hi'|].
  clear dependent g g' p i c w w1. intros [g w] Hi.
  eapply gw_part_wp; [exact Hi|]. destruct (wh_gw g) as [p i c] eqn:Hgw. apply wp_zoom.
  assert (inv d0 (i, w)) as Hid.
  { pose proof (gi_identity _ _ (wi_gw _ _ (wi_wf _ _ Hi))) as Hid. simpl in Hid. by rewrite Hgw in Hid. }
  pose proof (maintenance_keeps (E := Failure) d0 (i, w) i w (irel_refl d0 _ Hid)) as Hm. apply run_wp. intros r [i' w'] Hr. simpl in Hr.
  pose proof (wp_run _ _ _ _ _ Hm Hr) as [-> _]. simpl. split; [|done].
  pose proof (istep_maintenance (i, w)) as Hs. pose proof (along_kept (identity_maintenance (E := Failure)) (i, w) kept_maintenance) as Hk.
  rewrite Hr in Hs, Hk. by apply gt_free, ft_identity.
Qed.
End Run.

(** ** The start *)

Lemma of_sum_wp {S A} (r : string + A) (Q : outcome string A → S * W → Prop) t :
  match r with inl e => Q (Err e) t | inr a => Q (Ok a) t end → wp (of_sum r) Q t.
Proof. by destruct r. Qed.

Lemma spaces_new_spec {S} trust allowlist roots (s : S) w :
  wp (spaces_new is_absolute trust allowlist roots) (λ (r : outcome string Spaces) t,
    r ≠ Panic ∧ (world_time t.2 = world_time w ∧ world_log t.2 = world_log w) ∧ ∀ sp, r = Ok sp → spaces_wf sp ∧ 0 <= ss_generations sp
      ∧ roots_ok is_absolute roots = true ∧ ss_allowlist sp = list_to_set allowlist) (s, w).
Proof.
  unfold spaces_new. apply wp_bind, wp_reject_if. destruct (negb _); [by split_and!|].
  apply wp_bind, wp_random; [done|]. intros o w1 Hlen Ht Hl.
  apply wp_bind, wp_ok_or. destruct o as [b|]; [|by split_and!].
  set (s0 := mkSpaces _ _ _ _).
  destruct (roots_ok is_absolute roots) eqn:Hok; cycle 1.
  { unfold spaces_replace. rewrite Hok. simpl. apply wp_bind, wp_throw. by split_and!. }
  assert (Z.of_nat (length roots) <= 512) as Hlr.
  { apply andb_true_iff in Hok as [Hr%bool_decide_eq_true _]. unfold MAX_ROOTS in Hr. lia. }
  destruct (spaces_replace_inv is_absolute roots s0) as [Hb Hs]; [| |unfold u64_max; simpl; lia|].
  - subst s0. split; simpl; intros *; by rewrite lookup_empty.
  - simpl. lia.
  - rewrite Hok in Hb, Hs. destruct (spaces_replace is_absolute roots s0) as [ok sp]. simpl in *. subst ok.
    destruct Hs as (Hwf & Ha & _ & Hg & _). apply wp_bind, wp_reject_if, wp_ret. split; [done|]. split; [done|].
    intros ? [= <-]. split_and!; [done|lia|done|done].
Qed.

Record started_with (init : Init) (w : W) (config : GwConfig) (g : Whole) (w' : W) : Prop := {
  st_policy : gc_policy config = init.(init_policy) ∧ policy_valid init.(init_policy) = true;
  st_time : world_time w <= world_time w' < enable_until init.(init_policy);
  st_guard : ∀ instant, ∃ guard, guard_new init.(listeners).(loopback) instant = inr guard;
  st_paths : is_absolute init.(herdr_binary) = true ∧ roots_ok is_absolute init.(space_roots) = true;
  st_host : gc_rp_id config = rp_host (gc_rp config) ∧ valid_rp_id (gc_rp_id config) = true
            ∧ rp_origin (gc_rp config) = "https://" +:+ init.(listeners).(loopback).(public_host);
  st_empty : i_sessions (gw_identity (wh_gw g)) = ∅ ∧ i_peers (gw_identity (wh_gw g)) = ∅
             ∧ ps_entries (gw_pairings (wh_gw g)) = ∅ ∧ cs_entries (gw_ceremonies (wh_gw g)) = ∅
             ∧ as_live (wh_audits g) = ∅;
  st_inv : ∀ fields, deserialize_devices fields = Some init.(init_devices) →
           Forall (λ e, device_event e = false) (world_log w) →
           whole_inv (i_devices (gw_identity (wh_gw g))) (g, w');
}.

Lemma guard_any init i j gd : guard_new init i = inr gd → ∃ gd', guard_new init j = inr gd'.
Proof. unfold guard_new. repeat case_match; simplify_eq; eauto. Qed.

Lemma push_known init p : push_new init = inr p → ∀ id, is_Some (pu_devices p !! id) →
  ∃ d, d ∈ init.(init_devices) ∧ d_device_id d = id.
Proof.
  unfold push_new. destruct (init_push init) as [push|]; cycle 1.
  { intros [= <-] id. simpl. rewrite lookup_empty. by intros []. }
  destruct (stored _); [|done]. destruct (negb _); [done|]. intros [= <-] id [ids Hid]. simpl in Hid.
  apply map_lookup_filter_Some in Hid as [_ Hk]. simpl in Hk. apply existsb_exists in Hk as (d & Hd & Hk).
  exists d. split; [by apply list_elem_of_In|by apply bool_decide_eq_true in Hk].
Qed.

Lemma table_known devices d : d ∈ devices →
  is_Some (foldl (λ m d, <[d_device_id d := d]> m) (∅ : gmap string Device) devices !! d_device_id d).
Proof.
  assert (∀ (m : gmap string Device), d ∈ devices ∨ is_Some (m !! d_device_id d) →
    is_Some (foldl (λ m d, <[d_device_id d := d]> m) m devices !! d_device_id d)) as Hgen; [|by intros; apply Hgen; left].
  induction devices as [|x devices IH]; simpl; intros m Hd; [destruct Hd as [Hd|]; [by apply elem_of_nil in Hd|done]|].
  apply IH. destruct Hd as [[->|Hd]%elem_of_cons|Hd]; [right|by left|right].
  - by rewrite lookup_insert_eq.
  - apply lookup_insert_is_Some. destruct (decide (d_device_id x = d_device_id d)); auto.
Qed.

Lemma identity_new_empty devices policy i : identity_new devices policy = inr i →
  i_sessions i = ∅ ∧ i_peers i = ∅ ∧ i_policy i = policy
  ∧ i_devices i = foldl (λ m d, <[d_device_id d := d]> m) ∅ devices.
Proof. unfold identity_new. destruct (_ || _); [done|]. destruct (negb _); [done|]. by intros [= <-]. Qed.

Lemma gateway_new_wp init instant w :
  wp (gateway_new is_absolute init instant) (λ r (t : unit * W),
    r ≠ Panic ∧ ∀ config g, r = Ok (config, g) → started_with init w config g t.2) (tt, w).
Proof.
  unfold gateway_new. cbn zeta. apply wp_bind, of_sum_wp.
  destruct (guard_new _ instant) as [e|gd] eqn:Hgd; [done|]. apply wp_bind, wp_reject_if.
  destruct (is_absolute (herdr_binary init)) eqn:Habs; simpl; [|done]. apply wp_bind, wp_reject_if.
  destruct (policy_valid _) eqn:Hpol; simpl; [|done]. apply wp_bind, wp_clock_read. intros now w1 Ht <- Hl.
  apply wp_bind, wp_reject_if. destruct (Z.leb_spec (enable_until (init_policy init)) (world_time w1)) as [|Hnow]; [done|].
  apply wp_bind, of_sum_wp. destruct (identity_new _ _) as [e|i] eqn:Hid; [done|].
  unfold relying_party_new. apply wp_bind, wp_expect.
  destruct (head (split_on (char_of 58) (public_host (loopback (listeners init))))) as [host|] eqn:Hhost; cycle 1.
  { by destruct (public_host _) as [|c s]; simpl in Hhost; [|destruct (Ascii.eqb _ _); [|destruct (split_on _ _)]]. }
  simpl. apply wp_bind, wp_ok_or. destruct (valid_rp_id host) eqn:Hv; simpl; [|done].
  destruct (ascii_domain_ok host); simpl; [|done].
  apply wp_bind. eapply wp_mono; [apply spaces_new_spec|]. cbn beta. intros r [[] w2] (Hnp & Hq & Hsp).
  destruct r as [sp|e|]; [|by split|done]. destruct (Hsp sp eq_refl) as (Hwf & Hg & Hroots & _).
  apply wp_bind, of_sum_wp. destruct (push_new init) as [e|p] eqn:Hpush; [done|]. apply wp_ret. split; [done|].
  intros config g [= <- <-]. simpl in *. destruct (identity_new_empty _ _ _ Hid) as (Hs & Hpe & Hpo & Hde).
  destruct Hq as [Ht2 Hl2]. constructor; simpl; try done; [lia|intros j; by eapply guard_any|].
  intros fields Hfields Hlog. assert (∀ id d, i_devices i !! id = Some d → True) as _ by done. constructor.
  - constructor; simpl; [|by eapply push_new_wf|done|done|apply map_Forall_empty].
    apply gateway_reachable_inv. exists (mkGw (pairings_new (public_host (loopback (listeners init)))
      (required_tailscale_login (loopback (listeners init)))) i (ceremonies_new (max_devices (init_policy init))), w2).
    split; [|done]. split_and!; simpl; [by do 2 eexists| |by rewrite Hpo].
    exists fields, (init_devices init), (init_policy init), i. split_and!; try done. simpl. by rewrite Hl2, Hl.
  - intros id Hid'. apply device_known_iff. simpl in *. rewrite Hde.
    destruct (push_known _ _ Hpush id Hid') as (d & Hd & <-). by apply table_known.
Qed.

(** ** The theorems *)

(** The gateway starts only as configured.  If [Gateway::new] succeeds, the
    listener's host, login and proxy secret passed the guard's checks, the herdr
    binary is an absolute path, the mapping of Spaces and the policy are valid and
    the policy has not expired; the relying party is the public host's name; there
    is no session, peer, pairing, ceremony or stream; and the invariants of all
    parts hold, pushes going to known devices only. *)
Theorem gateway_starts init instant w config g w' :
  gateway_new is_absolute init instant (tt, w) = (Ok (config, g), (tt, w')) →
  started_with init w config g w'.
Proof. intros Hr. destruct (wp_run _ _ _ _ _ (gateway_new_wp init instant w) Hr) as [_ Hs]. by apply Hs. Qed.

(** The gateway in service: tasks, commands and maintenance. *)
Inductive whole_step (config : GwConfig) : Whole * W → Whole * W → Prop :=
| wst_task t t' : task_step t t' → whole_step config t t'
| wst_command other command t : (∀ n t, rtc task_step t (other n t)) → room command t →
    whole_step config t (gateway_command is_absolute config other command t).2
| wst_maintenance other t : (∀ n t, rtc task_step t (other n t)) →
    whole_step config t (gateway_maintenance other t).2.

Lemma whole_step_inv d0 config t t' : whole_inv d0 t → whole_step config t t' → whole_inv d0 t'.
Proof.
  intros Hi Hs. destruct Hs as [t t' Hs|other command t Ho Hroom|other t Ho].
  - eapply tasks_inv; [exact Hi|by apply rtc_once].
  - by apply (command_whole_wp d0 is_absolute config parse_subscribe other Ho command t Hi Hroom).
  - by apply (maintenance_whole_wp d0 other t Ho Hi).
Qed.
Lemma whole_steps_inv d0 config t t' : whole_inv d0 t → rtc (whole_step config) t t' → whole_inv d0 t'.
Proof. intros Hi Hs. induction Hs as [|t1 t2 t3 H12 _ IH]; [done|]. apply IH. by eapply whole_step_inv. Qed.

(** C10. In service, the gateway is always well formed and never panics: after any
    interleaving of requests, watchers, maintenance and admin commands since the
    start, the invariants of the pairings, identity, ceremonies, push set, Spaces
    and audit hold together, pushes only go to devices the gateway knows (a
    revocation takes a device's pushes away with it), and no command and no
    maintenance panics. *)
Theorem service_invariant init instant w0 config g w fields t :
  gateway_new is_absolute init instant (tt, w0) = (Ok (config, g), (tt, w)) →
  deserialize_devices fields = Some init.(init_devices) →
  Forall (λ e, device_event e = false) (world_log w0) →
  rtc (whole_step config) (g, w) t →
  whole_inv (i_devices (gw_identity (wh_gw g))) t
  ∧ (∀ id, is_Some (pu_devices (wh_push t.1) !! id) → is_Some (i_devices (gw_identity (wh_gw t.1)) !! id))
  ∧ (∀ other command, (∀ n t, rtc task_step t (other n t)) → room command t →
       (gateway_command is_absolute config other command t).1 ≠ Panic)
  ∧ (∀ other, (∀ n t, rtc task_step t (other n t)) → (gateway_maintenance other t).1 = Ok tt).
Proof.
  intros Hnew Hfields Hlog Hs.
  destruct (wp_run _ _ _ _ _ (gateway_new_wp init instant w0) Hnew) as [_ Hst].
  pose proof (st_inv _ _ _ _ _ (Hst config g eq_refl) fields Hfields Hlog) as Hi0. simpl in Hi0.
  pose proof (whole_steps_inv _ _ _ _ Hi0 Hs) as Hi. split_and!; [done| | |].
  - intros id Hid. apply device_known_iff. by apply Hi.
  - intros other command Ho Hroom. apply (command_whole_wp _ is_absolute config parse_subscribe other Ho command t Hi Hroom).
  - intros other Ho. apply (maintenance_whole_wp _ other t Ho Hi).
Qed.

(** A refused command changes nothing.  Every admin command but those of the
    pairings that is answered with an error leaves the whole gateway, and what the
    desktop was told, as they were; once the policy has expired that is every
    command, and none is ever applied. *)
Theorem refused_command d0 config other command t : whole_inv d0 t →
  (∀ e t', gateway_command is_absolute config other command t = (Err e, t') →
     (∀ c, command ≠ CmdPairing c) → t'.1 = t.1 ∧ world_log t'.2 = world_log t.2)
  ∧ (enable_until (gc_policy config) <= world_time t.2 → ∃ t',
       gateway_command is_absolute config other command t = (Err (FORBIDDEN, "Policy expired"), t')
       ∧ t'.1 = t.1 ∧ world_log t'.2 = world_log t.2).
Proof.
  destruct t as [g w]. intros Hi. split.
  - intros e t' Hr Hc. assert (wp (gateway_command is_absolute config other command) (λ r t', ∀ e, r = Err e →
      t'.1 = g ∧ world_log t'.2 = world_log w) (g, w)) as Hwp; [|exact (wp_run _ _ _ _ _ Hwp Hr e eq_refl)].
    clear e t' Hr. unfold gateway_command. apply wp_bind, wp_clock_read. intros now w1 Ht <- Hl.
    assert (whole_inv d0 (g, w1)) as Hi1.
    { destruct Hi as [Hwf Hk]. constructor; [|done]. eapply wf_quiet; [done|]. by apply quiet_same. }
    apply wp_bind, wp_reject_if. destruct (_ <=? _); [by intros|].
    destruct command as [init| |c|c|c|c|c|l|]; try (by apply wp_throw; intros); [by destruct (Hc c)| | | | |].
    + apply wp_bind. eapply identity_wp; [exact Hi1|].
      eapply command_spec; [apply irel_refl, Hi1|]. intros r i' w' _ Hrel Herr _. split; [done|].
      intros g' -> _. destruct r as [res|e|]; [|intros ? [= ->]|done].
      * destruct c as [v id label grants|v id|v id]; by do 2 apply wp_bind || apply wp_ret.
      * destruct (Herr _ eq_refl) as [-> Hlw]. simpl. rewrite Hlw. split; [|exact Hl]. by destruct g as [[]].
    + apply wp_bind. eapply in_spaces_wp. apply run_wp. unfold run_on. intros r s' Hr.
      destruct (spaces_replace _ _ _) as [b s1] eqn:Hb. simplify_eq. apply wp_bind, wp_reject_if.
      destruct b; simpl; [by apply wp_ret|]. intros _ _. split; [|done]. unfold spaces_replace in Hb.
      destruct (negb _); [simplify_eq; by destruct g|]. by destruct (next_spaces _ _ _ _).
    + apply wp_bind, wp_gets, wp_bind. eapply in_push_wp. apply run_wp. unfold run_on. intros r s' Hr.
      destruct (push_replace _ _ _) as [b s1] eqn:Hb. simplify_eq. apply wp_bind, wp_reject_if.
      destruct b; simpl; [by apply wp_ret|]. intros _ _. split; [|done]. unfold push_replace in Hb.
      destruct (stored _); [|simplify_eq; by destruct g]. destruct (negb _); [simplify_eq; by destruct g|done].
    + apply wp_bind. eapply in_push_wp. by apply wp_modify, wp_ret.
    + by apply wp_bind, wp_gets, wp_ret.
  - intros Hlate. assert (wp (gateway_command is_absolute config other command) (λ r t',
      r = Err (FORBIDDEN, "Policy expired") ∧ t'.1 = g ∧ world_log t'.2 = world_log w) (g, w)) as Hwp.
    { unfold gateway_command. apply wp_bind, wp_clock_read. intros now w1 Ht <- Hl.
      apply wp_bind, wp_reject_if. simpl in Hlate. by rewrite (proj2 (Z.leb_le _ _)) by lia. }
    destruct (wp_result _ _ _ Hwp) as (r & t' & Hr & -> & Hg & Hlog). by exists t'.
Qed.

(** Revocation also ends the pushes: once a [device.revoke] is answered
    with success, no push goes to that device, whatever ran meanwhile. *)
Theorem revocation_ends_pushes d0 config other v id t res t' : whole_inv d0 t →
  (∀ n t, rtc task_step t (other n t)) →
  gateway_command is_absolute config other (CmdDevice (DeviceRevoke v id)) t = (Ok res, t') →
  is_Some (i_devices (gw_identity (wh_gw t.1)) !! id) ∧ pu_devices (wh_push t'.1) !! id = None
  ∧ (res = Applied ∨ ∃ name, res = NotificationDeferred name id).
Proof.
  destruct t as [g w]. intros Hi Ho Hr.
  assert (wp (gateway_command is_absolute config other (CmdDevice (DeviceRevoke v id))) (λ r t', ∀ res, r = Ok res →
    is_Some (i_devices (gw_identity (wh_gw g)) !! id) ∧ pu_devices (wh_push t'.1) !! id = None
    ∧ (res = Applied ∨ ∃ name, res = NotificationDeferred name id)) (g, w)) as Hwp;
    [|exact (wp_run _ _ _ _ _ Hwp Hr res eq_refl)].
  unfold gateway_command. apply wp_bind. eapply clock_whole_wp; [exact Hi|]. intros w1 Hi1 _.
  apply wp_bind, wp_reject_if. destruct (_ <=? _); [done|]. cbn beta iota.
  apply wp_bind. eapply identity_wp; [exact Hi1|].
  eapply command_spec; [apply irel_refl, Hi1|]. intros r i' w' _ Hrel _ Hok. split; [done|].
  intros g' -> _. destruct r as [re|e|]; [|done..]. destruct (Hok re eq_refl) as (o & wd & nm & (d & Hd & Hch & _) & Hres).
  simpl in Hd, Hch. simplify_eq.
  apply wp_bind, wp_bind, wp_modify. destruct (other 1%nat _) as [g2 w2]. eapply in_push_wp.
  apply wp_modify, wp_ret. intros ? [= <-]. split; [by eexists|]. split.
  - simpl. unfold push_remove. destruct (pu_devices (wh_push g2) !! id) eqn:Hk; simpl; [apply lookup_delete_eq|done].
  - destruct Hres as [(-> & _)|(-> & _)]; [by left|right; by eexists].
Qed.
End Props.

(** * A gateway that is started, given a push device and told to revoke it *)
Definition whole_init : Init := mkInit "/bin/herdr" ["work"] "/web"
  (mkListeners (mkLoopback 0 "host.ts.net" "me@example" (encode (sim_entropy 32 7))) None) [demo_device] demo_policy "/trust" demo_roots
  (Some (mkPushInit demo_vapid [mkPushDevice demo_device_id [demo_endpoint_id]])).
Definition whole_w0 : SimWorld := mkSim 0 1 5 0 [].
Definition whole_new := gateway_new unix_absolute whole_init 0 (tt, whole_w0).
Definition whole_start : GwConfig * Whole :=
  match whole_new.1 with
  | Ok r => r
  | _ => (mkGwConfig "" demo_rp demo_policy,
          mkWhole (mkGw (pairings_new "" "") demo_identity (ceremonies_new 0)) demo_push demo_spaces jobs_new audits_new)
  end.
Lemma whole_started : whole_new = (Ok whole_start, (tt, whole_new.2.2)).
Proof. vm_cast_no_check (eq_refl whole_new). Qed.

Definition whole_t0 : Whole * SimWorld := (whole_start.2, whole_new.2.2).
Definition alone (_ : nat) (t : Whole * SimWorld) : Whole * SimWorld := t.
Lemma alone_steps n t : rtc (task_step demo_parse) t (alone n t).
Proof. apply rtc_refl. Qed.
Definition whole_command (c : CommandBody) := gateway_command unix_absolute whole_start.1 alone c.
Definition whole_t1 := (whole_command (CmdSpaces (mkSpacesRoots [mkSpaceRoot "work" "w1" "/d"])) whole_t0).2.
Definition whole_revoke : CommandBody := CmdDevice (DeviceRevoke 3 demo_device_id).
Definition whole_t2 := (whole_command whole_revoke whole_t1).2.

Lemma gateway_starts_witness : gc_rp_id whole_start.1 = "host.ts.net"
  ∧ valid_rp_id (gc_rp_id whole_start.1) = true
  ∧ world_time whole_new.2.2 < enable_until demo_policy.
Proof.
  destruct (gateway_starts unix_absolute whole_init 0 whole_w0 whole_start.1 whole_start.2 whole_new.2.2
    ltac:(rewrite <-surjective_pairing; exact whole_started)) as [_ Ht _ _ Hh _ _].
  split; [vm_compute; reflexivity|]. split; [apply Hh|apply Ht].
Defined.

Lemma service_invariant_witness :
  size (pu_devices (wh_push whole_t0.1)) = 1%nat
  ∧ size (pu_devices (wh_push whole_t2.1)) = 0%nat
  ∧ whole_inv (i_devices (gw_identity (wh_gw whole_start.2))) whole_t2.
Proof.
  split; [vm_cast_no_check (eq_refl 1%nat)|]. split; [vm_cast_no_check (eq_refl 0%nat)|].
  apply (service_invariant unix_absolute demo_parse whole_init 0 whole_w0 whole_start.1 whole_start.2
    whole_new.2.2 [demo_device] whole_t2); [rewrite <-surjective_pairing; exact whole_started|vm_compute; reflexivity|constructor|].
  eapply rtc_l; [apply (wst_command unix_absolute demo_parse whole_start.1 alone
    (CmdSpaces (mkSpacesRoots [mkSpaceRoot "work" "w1" "/d"])) whole_t0 alone_steps); vm_compute; discriminate|].
  apply rtc_once. apply (wst_command unix_absolute demo_parse whole_start.1 alone whole_revoke whole_t1 alone_steps). exact I.
Defined.

Lemma whole_t1_inv : whole_inv (i_devices (gw_identity (wh_gw whole_start.2))) whole_t1.
Proof.
  apply (whole_steps_inv unix_absolute demo_parse _ whole_start.1 whole_t0).
  - pose proof (gateway_new_wp unix_absolute whole_init 0 whole_w0) as [_ Hs].
    change (gateway_new _ _ _ _) with whole_new in Hs. rewrite whole_started in Hs.
    apply (st_inv _ _ _ _ _ _ (Hs whole_start.1 whole_start.2 ltac:(by rewrite <-surjective_pairing)) [demo_device]); [vm_compute; reflexivity|constructor].
  - apply rtc_once, (wst_command unix_absolute demo_parse whole_start.1 alone
      (CmdSpaces (mkSpacesRoots [mkSpaceRoot "work" "w1" "/d"])) whole_t0 alone_steps). vm_compute. discriminate.
Qed.

Lemma refused_command_witness :
  (whole_command (CmdDevice (DeviceUnlock 1 "nobody")) whole_t1).1 = Err INVALID_COMMAND
  ∧ (whole_command (CmdDevice (DeviceUnlock 1 "nobody")) whole_t1).2.1 = whole_t1.1.
Proof.
  assert (whole_command (CmdDevice (DeviceUnlock 1 "nobody")) whole_t1
    = (Err INVALID_COMMAND, (whole_command (CmdDevice (DeviceUnlock 1 "nobody")) whole_t1).2)) as Hr
    by (vm_cast_no_check (eq_refl (whole_command (CmdDevice (DeviceUnlock 1 "nobody")) whole_t1))).
  split; [by rewrite Hr|].
  exact (proj1 (proj1 (refused_command unix_absolute _ whole_start.1 alone
    (CmdDevice (DeviceUnlock 1 "nobody")) whole_t1 whole_t1_inv) _ _ Hr ltac:(discriminate))).
Defined.

Lemma revocation_ends_pushes_witness :
  (whole_command whole_revoke whole_t1).1 = Ok Applied ∧ pu_devices (wh_push whole_t2.1) !! demo_device_id = None.
Proof.
  assert (whole_command whole_revoke whole_t1 = (Ok Applied, whole_t2)) as Hr
    by (vm_cast_no_check (eq_refl (whole_command whole_revoke whole_t1))).
  split; [by rewrite Hr|].
  apply (revocation_ends_pushes unix_absolute demo_parse _ whole_start.1 alone 3 demo_device_id whole_t1 Applied whole_t2
    whole_t1_inv alone_steps Hr).
Defined.
