(* ===== verification/Http.v ===== *)
(** * [http.rs]: the routes, the guarded dispatch and the static files

    Hyper parses and writes HTTP; this is what happens to a request in between.
    [return] of a response is [throw]: both ends of [dispatch] are responses. *)
From stdpp Require Import base gmap strings list fin_maps fin_sets pretty.
From Stdlib Require Import ZArith Lia.
From S2P Require Import Prelude Rust Externals Clock Devices Admin Guard Events World Pairing.
From S2P Require Import Webauthn Session Authorize Gateway.
Local Open Scope Z_scope.

Definition NOT_FOUND : Z := 404.
Definition METHOD_NOT_ALLOWED : Z := 405.
Definition PAYLOAD_TOO_LARGE : Z := 413.
Definition INTERNAL_SERVER_ERROR : Z := 500.
Definition NO_CONTENT : Z := 204.
Definition REQUEST_TIMEOUT : Z := seconds 15.
Definition MAX_STATIC_BYTES : Z := 16 * 1024 * 1024.
Definition CSP : string :=
  "default-src 'self'; script-src 'self'; style-src 'self' 'unsafe-inline'; img-src 'self' data: blob:; connect-src 'self'; worker-src 'self'; manifest-src 'self'; frame-ancestors 'none'; base-uri 'none'; form-action 'none'".
Definition SECURITY_HEADERS : list (string * string) :=
  [("content-security-policy", CSP); ("x-content-type-options", "nosniff");
   ("referrer-policy", "no-referrer"); ("cross-origin-opener-policy", "same-origin");
   ("cross-origin-resource-policy", "same-origin");
   ("permissions-policy", "camera=(), microphone=(), geolocation=()");
   ("strict-transport-security", "max-age=31536000")].

(** ** Routes *)

Inductive Access := Public | SessionAccess (scope : Scope) | FirstFrame (scope : Scope).
Inductive RouteDeadline := Standard | LongPoll.
Inductive RouteHandler :=
| Static | UpgradeHandler | Claim | PairStatus | Logout | RegisterOptions | RegisterFinish
| LoginOptions | LoginFinishHandler | ElevateOptions | ElevateFinish.
#[export] Instance access_eq_dec : EqDecision Access.
Proof. solve_decision. Defined.
#[export] Instance handler_eq_dec : EqDecision RouteHandler.
Proof. solve_decision. Defined.
Record Route := mkRoute {
  rt_method : string;
  rt_path : string;
  rt_access : Access;
  rt_deadline : RouteDeadline;
  rt_handler : RouteHandler;
}.
(** [RouteDeadline::duration], [Route::shell] *)
Definition route_duration (d : RouteDeadline) : Z :=
  match d with Standard => REQUEST_TIMEOUT | LongPoll => seconds 26 end.
Definition shell (path : string) : Route := mkRoute "GET" path Public Standard Static.

(** [Route::matches] *)
Definition route_matches (r : Route) (path : string) : bool :=
  match strip_suffix "*" r.(rt_path) with
  | Some prefix => starts_with prefix path
  | None => bool_decide (r.(rt_path) = path)
  end.

(** [ROUTES], without the two of the tests *)
Definition ROUTES : list Route :=
  [shell "/"; shell "/index.html"; shell "/pair"; shell "/manifest.webmanifest"; shell "/sw.js";
   shell "/assets/*"; shell "/icons/*";
   mkRoute "GET" "/ws" (FirstFrame View) Standard UpgradeHandler;
   mkRoute "POST" "/api/pair/claim" Public Standard Claim;
   mkRoute "POST" "/api/pair/status" Public LongPoll PairStatus;
   mkRoute "POST" "/api/pair/webauthn/options" Public Standard RegisterOptions;
   mkRoute "POST" "/api/pair/webauthn/finish" Public Standard RegisterFinish;
   mkRoute "POST" "/api/auth/options" Public Standard LoginOptions;
   mkRoute "POST" "/api/auth/finish" Public Standard LoginFinishHandler;
   mkRoute "POST" "/api/auth/elevate/options" (SessionAccess View) Standard ElevateOptions;
   mkRoute "POST" "/api/auth/elevate/finish" (SessionAccess View) Standard ElevateFinish;
   mkRoute "POST" "/api/auth/logout" (SessionAccess View) Standard Logout].
Definition find_route (method path : string) : option Route :=
  List.find (λ r, route_matches r path && bool_decide (r.(rt_method) = method)) ROUTES.

(** ** Requests and responses *)

(** What collecting the body came to, within its limit and deadline. *)
Inductive BodyRead := BodyLate | BodyTooLong | BodyBroken | BodyRead_ (bytes : string).
Record HttpRequest := mkHttpRequest {
  rq_method : string;
  rq_uri : Uri;
  rq_query : option string;
  rq_headers : HeaderMap;
  rq_body : BodyRead;
}.
Inductive Body := BodyEmpty | BodyText (s : string) | BodyBytes (s : string).
Record Response := mkResponse {
  rs_status : Z; rs_headers : HeaderMap; rs_body : Body }.

(** [StatusCode::into_response], [(StatusCode, &str)::into_response] *)
Definition of_status (status : Z) : Response := mkResponse status [] BodyEmpty.
Definition of_failure (f : Failure) : Response :=
  mkResponse f.1 [("content-type", "text/plain; charset=utf-8")] (BodyText f.2).
(** [HeaderMap::insert] *)
Definition headers_insert (name value : string) (h : HeaderMap) : HeaderMap :=
  filter (λ e, e.1 ≠ name) h ++ [(name, value)].
Definition with_header (name value : string) (r : Response) : Response :=
  mkResponse r.(rs_status) (headers_insert name value r.(rs_headers)) r.(rs_body).
Definition is_success (status : Z) : bool := in_range 200 status 299.

(** ** [str::parse::<u64>] *)
Fixpoint parse_digits (l : list Z) (acc : Z) : option Z :=
  match l with
  | [] => Some acc
  | b :: l => if is_ascii_digit b then
                let acc := acc * 10 + (b - 48) in
                if acc <=? u64_max then parse_digits l acc else None
              else None
  end.
Definition parse_u64 (s : string) : option Z :=
  match bytes s with
  | [] => None
  | b :: l => let l := if b =? 43 then l else b :: l in
              match l with [] => None | _ => parse_digits l 0 end
  end.

(** ** Static files *)

Definition is_alphanumeric (b : Z) : bool :=
  is_ascii_digit b || is_ascii_lowercase b || is_ascii_uppercase b.
Definition to_ascii_uppercase (b : Z) : Z := if is_ascii_lowercase b then b - 32 else b.

(** [valid_static_segment] *)
Definition valid_static_segment (segment : string) : bool :=
  match bytes segment with
  | [] => false
  | b :: rest =>
      if negb (is_alphanumeric b || (b =? 95) || (b =? 45))
         || negb (forallb (λ b, is_alphanumeric b || (b =? 46) || (b =? 95) || (b =? 45)) rest)
         || ends_with "." segment
      then false
      else
        let stem := of_bytes (to_ascii_uppercase <$> bytes (default "" (head (split_on (char_of 46) segment)))) in
        negb (bool_decide (stem ∈ ["CON"; "PRN"; "AUX"; "NUL"]))
        && negb ((len stem =? 4) && (starts_with "COM" stem || starts_with "LPT" stem)
                 && match bytes stem !! 3%nat with Some b => in_range 49 b 57 | None => false end)
  end.

(** [Path::extension] of a relative path: what follows the last dot of its last
    component, if something precedes that dot. *)
Fixpoint after_last (sep : Ascii.ascii) (s : string) : option (string * string) :=
  match s with
  | EmptyString => None
  | String c s =>
      match after_last sep s with
      | Some (before, rest) => Some (String c before, rest)
      | None => if Ascii.eqb c sep then Some (EmptyString, s) else None
      end
  end.
Definition extension (path : string) : option string :=
  let name := match after_last (char_of 47) path with Some (_, name) => name | None => path end in
  match after_last (char_of 46) name with
  | Some (EmptyString, _) => None
  | Some (_, e) => Some e
  | None => None
  end.
Definition content_type (relative : string) : string :=
  match extension relative with
  | Some e =>
      if bool_decide (e = "html") then "text/html; charset=utf-8"
      else if bool_decide (e = "js" ∨ e = "mjs") then "text/javascript; charset=utf-8"
      else if bool_decide (e = "css") then "text/css; charset=utf-8"
      else if bool_decide (e = "webmanifest") then "application/manifest+json"
      else if bool_decide (e = "json" ∨ e = "map") then "application/json"
      else if bool_decide (e = "svg") then "image/svg+xml"
      else if bool_decide (e = "png") then "image/png"
      else if bool_decide (e = "ico") then "image/x-icon"
      else if bool_decide (e = "webp") then "image/webp"
      else if bool_decide (e = "woff2") then "font/woff2"
      else if bool_decide (e = "woff") then "font/woff"
      else if bool_decide (e = "jpg" ∨ e = "jpeg") then "image/jpeg"
      else if bool_decide (e = "txt") then "text/plain; charset=utf-8"
      else if bool_decide (e = "wasm") then "application/wasm"
      else "application/octet-stream"
  | None => "application/octet-stream"
  end.

(** The file system: a canonical path is the list of its components, and
    [canonicalize] is given the root and the path under it. *)
Record Files := mkFiles {
  fs_canonicalize : list string → string → option (list string);
  fs_open : list string → option (bool * string);   (* is it a regular file; its bytes *)
}.
(** [Path::starts_with] *)
Fixpoint path_starts_with (root path : list string) : bool :=
  match root, path with
  | [], _ => true
  | r :: root, p :: path => bool_decide (r = p) && path_starts_with root path
  | _ :: _, [] => false
  end.

Definition static_relative (path : string) : option string :=
  if bool_decide (path ∈ ["/"; "/index.html"; "/pair"]) then Some "index.html"
  else if bool_decide (path = "/manifest.webmanifest") then Some "manifest.webmanifest"
  else if bool_decide (path = "/sw.js") then Some "sw.js"
  else if starts_with "/assets/" path || starts_with "/icons/" path then Some (skip 1 path)
  else None.
(** [static_file] *)
Definition static_file (fs : Files) (root : list string) (path : string) : Response :=
  if contains ".." path
     || (negb (bool_decide (path = "/"))
         && negb match strip_prefix "/" path with
                 | Some relative => forallb valid_static_segment (split_on (char_of 47) relative)
                 | None => false
                 end)
  then of_status NOT_FOUND
  else
    match static_relative path with
    | None => of_status NOT_FOUND
    | Some relative =>
        match fs.(fs_canonicalize) root relative with
        | None => of_status NOT_FOUND
        | Some canonical =>
            if negb (path_starts_with root canonical) then of_status NOT_FOUND
            else match fs.(fs_open) canonical with
                 | None => of_status NOT_FOUND
                 | Some (is_file, contents) =>
                     if negb is_file || (MAX_STATIC_BYTES <? len contents) then of_status NOT_FOUND
                     else mkResponse OK_STATUS
                       [("content-type", content_type relative);
                        ("cache-control", if starts_with "/assets/" path
                           then "public, max-age=31536000, immutable" else "no-cache");
                        ("content-length", pretty (len contents))]
                       (BodyBytes contents)
                 end
        end
    end.

Example device_name : valid_static_segment "com1.js" = false.
Proof. reflexivity. Qed.
Example bundle_name : valid_static_segment "index-Bx_9.js" = true.
Proof. reflexivity. Qed.
Example ambiguous : find_route "GET" "/assets/app.js" = Some (shell "/assets/*").
Proof. reflexivity. Qed.

(** * [bridge.rs]: from an upgrade request to a registered peer

    The handshake itself is tungstenite's; the gateway decides who gets one of
    the sixteen places, and the first frame is what authenticates. *)
Definition WS_PEERS : nat := 16.   (* [MAX_PEERS] *)

(** What closes a socket: the code for the peer, the reason for the desktop. *)
Record Close := mkClose { close_code : Z; close_reason : string }.
Definition INVALID_SESSION : Close := mkClose 4401 "session-invalid".   (* [INVALID] *)
Definition SHUTDOWN : Close := mkClose 1001 "shutdown".
Definition SLOW : Close := mkClose 1013 "slow-consumer".
Definition TRANSPORT : Close := mkClose 1001 "transport-closed".
(** [stop_reason]; [stop] is the value of the watch. *)
Definition stop_reason (stop : Z) : Close := if stop =? 4401 then INVALID_SESSION else SHUTDOWN.

(** Messages of the WebSocket, complete ones. *)
Inductive Message :=
| MText (s : string) | MBinary (s : string) | MPing (s : string) | MPong (s : string)
| MClose (c : option (Z * string)).
(** [close_frame] *)
Definition close_frame (close : Close) : Message := MClose (Some (close.(close_code), EmptyString)).

Section Upgrades.
Context `{Base64, Crypto, Http, Tokio, !Webauthn Transport, World W}.

(** ** [Upgrades] *)
Record Upgrade := mkUpgrade { up_headers : HeaderMap }.
Record Upgrades := mkUpgrades { ug_pending : Chan Upgrade; ug_permits : Sem }.
Definition upgrades_new : Upgrades := mkUpgrades (chan_new WS_PEERS) (sem_new WS_PEERS).

(** [Upgrades::respond]; [handshake] is [create_response_with_body]. *)
Definition respond (handshake : HttpRequest → option Response) (request : HttpRequest)
    (identity : Identity) (u : Upgrades) : Response * Upgrades :=
  match handshake request with
  | None => (of_failure (BAD_REQUEST, "Invalid WebSocket upgrade"), u)
  | Some response =>
      if negb (has_session_cookie request.(rq_headers) identity)
      then (of_failure (UNAUTHORIZED, "Authentication required"), u)
      else
        match sem_try_acquire u.(ug_permits) with
        | None => (of_failure (SERVICE_UNAVAILABLE, "WebSocket limit reached"), u)
        | Some permits =>
            let headers := filter (λ e, e.1 = "cookie") request.(rq_headers) in
            match chan_try_send (mkUpgrade headers) u.(ug_pending) with
            | None => (of_status SERVICE_UNAVAILABLE, mkUpgrades u.(ug_pending) (sem_release permits))
            | Some pending => (response, mkUpgrades pending permits)
            end
        end
  end.
(** [drop(permit)] of a connection *)
Definition permit_drop (u : Upgrades) : Upgrades :=
  mkUpgrades u.(ug_pending) (sem_release u.(ug_permits)).

(** ** The first frame *)

Record AuthFrame := mkAuthFrame { af_kind : string; af_binding : string }.
(** [from_object] and the derived [Deserialize] of [AuthFrame] *)
Context (parse_auth : string → option AuthFrame).
(** [str::trim_start] and [starts_with('{')] *)
Definition is_object_text (text : string) : bool :=
  bool_decide (head (drop_while is_whitespace (chars text)) = Some 123).
Definition from_object {A} (parse : string → option A) (text : string) : option A :=
  if is_object_text text then parse text else None.

(** [authenticate] *)
Definition authenticate_frame (host : string) (headers : HeaderMap) (message : Message)
    : M (Identity * W) unit AuthContext :=
  match message with
  | MText text =>
      let! frame := ok_or tt (from_object parse_auth text) in
      reject_if (negb (bool_decide (frame.(af_kind) = "auth"))) tt;;
      let! value := ok_or tt (header_from_str frame.(af_binding)) in
      authenticate (headers_insert "x-yzc-binding" value headers) host View
  | _ => throw tt
  end.

(** [run] from the first frame to the registration: [stop] is what the watch says
    if it changed first, [frame] what [socket.next()] gave within five seconds. *)
Inductive FirstFrameSeen := FrameStop (stop : Z) | FrameNone | FrameMessage (m : Message).
Definition first_frame (host : string) (job : Upgrade) (seen : FirstFrameSeen)
    : M (Identity * W) Close AuthContext :=
  match seen with
  | FrameStop stop => throw (stop_reason stop)
  | FrameNone => throw INVALID_SESSION
  | FrameMessage message => map_err (λ _, INVALID_SESSION) (authenticate_frame host job.(up_headers) message)
  end.
Definition peer_register (host : string) (ctx : AuthContext) : M (Identity * W) Close Z :=
  let! id := map_err (λ _, INVALID_SESSION) (with_authorized host ctx View (peer_registration ctx)) in
  ok_or (mkClose 1008 "peer-limit") id.

(** [run]: the peer, once it is registered and announced; [between] is what other
    tasks do after the first frame was accepted. *)
Definition peer_admit (between : Identity * W → Identity * W) (host : string) (job : Upgrade)
    (seen : FirstFrameSeen) : M (Identity * W) Close (AuthContext * Z) :=
  let! ctx := first_frame host job seen in
  modify between;;
  let! id := peer_register host ctx in
  let! _ := try_emit (session_opened id ctx.(ctx_device_id)) in
  ret (ctx, id).

(** [Drop for Peer] *)
Definition peer_drop {E} (id : Z) (device reason : string) : M (Identity * W) E unit :=
  update (unregister_peer id);;
  let! _ := try_emit (session_closed id device reason) in
  ret tt.
End Upgrades.
