(* ===== verification/Dispatch.v ===== *)
(** * [http.rs]: [dispatch] and [handle]

    One request through the guard, the route table, the session check and the
    handlers of [Gateway.v]; [here n] is what other tasks do at a place where no
    lock is held, [other] and [inner] the same inside the gateway's handlers. *)

From stdpp Require Import base gmap strings list fin_maps fin_sets.
From Stdlib Require Import ZArith Lia.
From S2P Require Import Prelude Rust Externals Clock Devices Admin Guard Events World.
From S2P Require Import Pairing Webauthn Session Authorize Gateway Http.

Local Open Scope Z_scope.

(** What the JSON bodies are made of. *)
Inductive Reply :=
| ReplyClaim (c : ClaimResponse)
| ReplyStatus (s : StatusResponse)
| ReplyValue (v : Value)
| ReplyLogin (binding device_id : string) (scopes : list Scope)
| ReplyElevation (scope : Scope) (until : Timestamp).

(** [serde_json::from_slice] at each type, and [serde_json::to_vec]. *)
Record HttpParsers := mkHttpParsers {
  hp_claim : string → option ClaimRequest;
  hp_status : string → option StatusRequest;
  hp_register_options : string → option RegistrationOptions;
  hp_register_finish : string → option RegistrationFinish;
  hp_login_options : string → option unit;
  hp_login_finish : string → option LoginFinish;
  hp_elevation_options : string → option ElevationOptions;
  hp_elevation_finish : string → option ElevationFinish;
  hp_to_vec : Reply → option string;
}.

Section Dispatch.
Context `{Base64, Crypto, Http, Tokio, !Webauthn Transport, World W}.

Record HttpState := mkHttpState { hs_guard : Guard; hs_gw : Gw; hs_upgrades : Upgrades }.
Abbreviation http_m E A := (M (HttpState * W) E A).
Definition in_guard {E A} (m : M Guard E A) : http_m E A :=
  zoom (λ '(s, _), hs_guard s)
       (λ g '(s, w), (mkHttpState g s.(hs_gw) s.(hs_upgrades), w)) m.
Definition in_gateway {E A} (m : M (Gw * W) E A) : http_m E A :=
  zoom (λ '(s, w), (hs_gw s, w))
       (λ '(g, w) '(s, _), (mkHttpState s.(hs_guard) g s.(hs_upgrades), w)) m.
Definition in_upgrades {E A} (m : M Upgrades E A) : http_m E A :=
  zoom (λ '(s, _), hs_upgrades s)
       (λ u '(s, w), (mkHttpState s.(hs_guard) s.(hs_gw) u, w)) m.

Section Handlers.
Context (config : GwConfig) (P : HttpParsers) (fs : Files) (root : list string).
Context (handshake : HttpRequest → option Response).
Context (here : nat → HttpState * W → HttpState * W) (other inner : nat → Gw * W → Gw * W).

Definition elsewhere_http {E} (n : nat) : http_m E unit := modify (here n).

(** [invalid_json], [json_result] *)
Definition invalid_json : Response := of_failure (BAD_REQUEST, "Invalid API request").
Definition json_response (r : Reply) : Response :=
  match P.(hp_to_vec) r with
  | Some body => mkResponse OK_STATUS [("content-type", "application/json")] (BodyBytes body)
  | None => of_failure (INTERNAL_SERVER_ERROR, "Response unavailable")
  end.
(** The handler's [Err] is the response. *)
Definition on_gateway {A} (m : M (Gw * W) Failure A) : http_m Response A :=
  map_err of_failure (in_gateway m).
Definition body_of {A} (parse : string → option A) (body : string) : http_m Response A :=
  ok_or invalid_json (parse body).

(** The [PairStatus] arm: the long poll, which the deadline of the route can cut
    off ([late]) while it waits. *)
Definition status_route (late : bool) (request : StatusRequest) : http_m Response Response :=
  let! _ := on_gateway (in_pairings (status_begin request)) in
  elsewhere_http 4;;
  if late then
    in_gateway (in_pairings (update (status_drop request.(st_pairing_id))));;
    throw (of_status REQUEST_TIMEOUT_STATUS)
  else
    let! response := on_gateway (in_pairings (
      let! r := attempt (status_finish request) in
      update (status_drop request.(st_pairing_id));;
      match r with inl e => throw e | inr response => ret response end)) in
    ret (json_response (ReplyStatus response)).

(** The [user-agent] of a claim *)
Definition user_agent (headers : HeaderMap) : option string :=
  match head (headers_get_all "user-agent" headers) with
  | Some value => header_to_str value
  | None => Some EmptyString
  end.

(** The match on [route.handler], under the deadline of the route, which only an
    arm that awaits can miss ([late]); [auth.expect("session route")] is the
    [expect]. *)
Definition run_handler (late : bool) (handler : RouteHandler) (request : HttpRequest)
    (auth : option AuthContext) (body : string) : http_m Response Response :=
  match handler with
  | Static =>
      if late then throw (of_status REQUEST_TIMEOUT_STATUS)
      else ret (static_file fs root (uri_path request.(rq_uri)))
  | UpgradeHandler => panic
  | Claim =>
      let! r := body_of P.(hp_claim) body in
      let! agent := ok_or invalid_json (user_agent request.(rq_headers)) in
      let! response := on_gateway (in_pairings (pairings_claim r agent)) in
      ret (json_response (ReplyClaim response))
  | PairStatus => let! r := body_of P.(hp_status) body in status_route late r
  | RegisterOptions =>
      let! r := body_of P.(hp_register_options) body in
      let! v := on_gateway (registration_options config other r) in
      ret (json_response (ReplyValue v))
  | RegisterFinish =>
      let! r := body_of P.(hp_register_finish) body in
      let! v := on_gateway (registration_finish config other inner r) in
      ret (json_response (ReplyValue v))
  | LoginOptions =>
      let! _ := body_of P.(hp_login_options) body in
      let! v := on_gateway (login_options config other) in
      ret (json_response (ReplyValue v))
  | LoginFinishHandler =>
      let! r := body_of P.(hp_login_finish) body in
      let! result := on_gateway (login_finish config other r) in
      match result with
      | LoggedIn id binding device_id =>
          let! cookie := expect (header_from_str (session_cookie id)) in
          ret (with_header "set-cookie" cookie (json_response (ReplyLogin binding device_id [View])))
      | Elevated _ => ret invalid_json
      end
  | ElevateOptions =>
      let! r := body_of P.(hp_elevation_options) body in
      let! ctx := expect auth in
      let! v := on_gateway (elevation_options config ctx r) in
      ret (json_response (ReplyValue v))
  | ElevateFinish =>
      let! r := body_of P.(hp_elevation_finish) body in
      let! ctx := expect auth in
      let! '(scope, until) := on_gateway (elevation_finish config other ctx r) in
      ret (json_response (ReplyElevation scope until))
  | Logout =>
      reject_if (negb (bool_decide (body = EmptyString)) && negb (bool_decide (body = "{}"))) invalid_json;;
      let! ctx := ok_or (of_failure AUTHENTICATION_REQUIRED) auth in
      on_gateway (logout_session config ctx);;
      ret (mkResponse NO_CONTENT [("set-cookie", clear_cookie)] BodyEmpty)
  end.

(** The session of a route that needs one: [authenticate], then [with_authorized]
    with an empty write. *)
Definition route_session (access : Access) (headers : HeaderMap) : http_m Response (option AuthContext) :=
  match access with
  | SessionAccess scope =>
      let! ctx := map_err (λ _, of_failure AUTHENTICATION_REQUIRED)
        (in_gateway (gateway_authenticate config headers scope)) in
      elsewhere_http 2;;
      on_gateway (authorized config ctx scope (ret tt));;
      elsewhere_http 3;;
      ret (Some ctx)
  | _ => ret None
  end.

(** [dispatch] up to the routes; [instant] is [Instant::now()]. *)
Definition is_api_path (path : string) : bool := starts_with "/api/" path || bool_decide (path = "/ws").
Definition collect_body (b : BodyRead) : http_m Response string :=
  match b with
  | BodyLate => throw (of_status REQUEST_TIMEOUT_STATUS)
  | BodyTooLong => throw (of_failure (PAYLOAD_TOO_LARGE, "Request body too large"))
  | BodyBroken => throw (of_failure (BAD_REQUEST, "Invalid request body"))
  | BodyRead_ body => ret body
  end.
Definition content_length (headers : HeaderMap) : option Z :=
  value ← head (headers_get_all "content-length" headers);
  text ← header_to_str value; parse_u64 text.
Definition dispatch_checks (instant : Z) (request : HttpRequest) : http_m Response string :=
  let path := uri_path request.(rq_uri) in
  map_err of_status (in_guard (guard_check instant request.(rq_method) request.(rq_uri) request.(rq_headers)));;
  elsewhere_http 0;;
  let! now := clock_read in
  reject_if (enable_until (gc_policy config) <=? now) (of_failure (FORBIDDEN, "Policy expired"));;
  reject_if (is_api_path path && bool_decide (is_Some request.(rq_query))) invalid_json;;
  reject_if (match content_length request.(rq_headers) with Some n => BODY_LIMIT <? n | None => false end)
    (of_failure (PAYLOAD_TOO_LARGE, "Request body too large"));;
  elsewhere_http 1;;
  collect_body request.(rq_body).

(** [dispatch] *)
Definition dispatch (instant : Z) (late : bool) (request : HttpRequest) : http_m Response Response :=
  let path := uri_path request.(rq_uri) in
  let! body := dispatch_checks instant request in
  let! route := ok_or (of_status (if bool_decide (request.(rq_method) = "GET") then NOT_FOUND else METHOD_NOT_ALLOWED))
    (find_route request.(rq_method) path) in
  match route.(rt_access) with
  | FirstFrame _ =>
      let! s := gets fst in
      in_upgrades (λ u, let '(r, u) := respond handshake request (gw_identity (hs_gw s)) u in (Ok r, u))
  | access =>
      let! auth := route_session access request.(rq_headers) in
      run_handler late route.(rt_handler) request auth body
  end.

(** [handle] *)
Definition harden (api : bool) (response : Response) : Response :=
  let response := foldl (λ r e, with_header e.1 e.2 r) response SECURITY_HEADERS in
  if api || negb (is_success response.(rs_status))
  then with_header "cache-control" "no-store" response else response.
Definition handle {E} (instant : Z) (late : bool) (request : HttpRequest) : http_m E Response :=
  let! r := attempt (dispatch instant late request) in
  ret (harden (is_api_path (uri_path request.(rq_uri))) (match r with inl r => r | inr r => r end)).
End Handlers.
End Dispatch.
