(* ===== verification/DispatchSpec.v ===== *)
(** * What every HTTP request goes through, under every interleaving *)
From stdpp Require Import base gmap strings list fin_maps fin_sets relations.
From Stdlib Require Import ZArith Lia.
From S2P Require Import Prelude Steps Rust Externals Clock Devices Admin Guard Events.
From S2P Require Import World Pairing PairingFacts PairingSpec Webauthn WebauthnFacts.
From S2P Require Import Session SessionInv SessionOps SessionLogin Authorize.
From S2P Require Import SessionSpec Gateway GatewayFacts Http Dispatch.
Local Open Scope Z_scope.

(** ** The table of routes *)

Lemma starts_with_both p q s : starts_with p s = true → starts_with q s = true →
  starts_with p q = true ∨ starts_with q p = true.
Proof.
  unfold starts_with. rewrite !bool_decide_eq_true. revert q s.
  induction p as [|a p IH]; intros q s; [left; by exists q|]. destruct q as [|b q]; [right; by eexists|].
  destruct s as [|c s]; [by intros []|]. simpl.
  destruct (Ascii.eqb_spec a c) as [->|]; [|by intros []]. destruct (Ascii.eqb_spec b c) as [->|]; [|by intros _ []].
  rewrite !Ascii.eqb_refl. intros Hp Hq. by apply (IH q s).
Qed.

(** No path can match both. *)
Definition disjoint_routes (r1 r2 : Route) : bool :=
  match strip_suffix "*" (rt_path r1), strip_suffix "*" (rt_path r2) with
  | None, None => negb (bool_decide (rt_path r1 = rt_path r2))
  | Some p, None => negb (starts_with p (rt_path r2))
  | None, Some p => negb (starts_with p (rt_path r1))
  | Some p, Some q => negb (starts_with p q) && negb (starts_with q p)
  end.
Lemma disjoint_sound r1 r2 path :
  route_matches r1 path = true → route_matches r2 path = true → disjoint_routes r1 r2 = false.
Proof.
  unfold route_matches, disjoint_routes.
  destruct (strip_suffix "*" (rt_path r1)) as [p|], (strip_suffix "*" (rt_path r2)) as [q|].
  - intros Hp Hq. destruct (starts_with_both p q path Hp Hq) as [->| ->]; simpl; [done|by rewrite andb_false_r].
  - intros Hp <-%bool_decide_eq_true. by rewrite Hp.
  - intros <-%bool_decide_eq_true Hq. by rewrite Hq.
  - intros <-%bool_decide_eq_true <-%bool_decide_eq_true. by rewrite bool_decide_eq_true_2.
Qed.
Lemma routes_disjoint : forallb (λ '(i, r), forallb (λ '(j, s),
  bool_decide (i = j) || disjoint_routes r s) (imap pair ROUTES)) (imap pair ROUTES) = true.
Proof. reflexivity. Qed.
Lemma route_unique r1 r2 path : r1 ∈ ROUTES → r2 ∈ ROUTES →
  route_matches r1 path = true → route_matches r2 path = true → r1 = r2.
Proof.
  intros [i Hi]%list_elem_of_lookup [j Hj]%list_elem_of_lookup H1 H2.
  assert (∀ k r, ROUTES !! k = Some r → In (k, r) (imap pair ROUTES)) as Hin.
  { intros k r Hk. apply list_elem_of_In, list_elem_of_lookup. exists k. by rewrite list_lookup_imap, Hk. }
  pose proof routes_disjoint as Hd. rewrite List.forallb_forall in Hd. specialize (Hd _ (Hin _ _ Hi)).
  cbn beta iota in Hd. rewrite List.forallb_forall in Hd. specialize (Hd _ (Hin _ _ Hj)). cbn beta iota in Hd.
  rewrite (disjoint_sound r1 r2 path H1 H2), orb_false_r in Hd. apply bool_decide_eq_true in Hd. subst j. congruence.
Qed.

Definition route_policy (r : Route) : bool :=
  bool_decide ((rt_method r = "POST" ∧ starts_with "/api/" (rt_path r) = true)
               ∨ (rt_method r = "GET" ∧ starts_with "/api/" (rt_path r) = false))
  && bool_decide (rt_method r = "GET" ↔ rt_handler r ∈ [Static; UpgradeHandler])
  && bool_decide (rt_method r = "POST" → rt_access r = Public →
       rt_handler r ∈ [Claim; PairStatus; RegisterOptions; RegisterFinish; LoginOptions; LoginFinishHandler])
  && bool_decide (rt_handler r ∈ [ElevateOptions; ElevateFinish; Logout] → rt_access r = SessionAccess View).

(** The routes are unambiguous and say who may come.  Whatever the method and
    path, at most one route matches, so the order of the table is immaterial; the
    routes that are not [GET] are exactly the API's; a [GET] only reads a file or
    asks for an upgrade; and the only API routes open to anyone are those that
    establish an identity: pairing, registration and login. *)
Theorem routes_unambiguous r1 r2 path : r1 ∈ ROUTES → r2 ∈ ROUTES →
  route_matches r1 path = true → route_matches r2 path = true →
  r1 = r2
  ∧ (rt_method r1 = "POST" ↔ starts_with "/api/" (rt_path r1) = true)
  ∧ (rt_method r1 = "GET" ↔ rt_handler r1 ∈ [Static; UpgradeHandler])
  ∧ (rt_method r1 = "POST" → rt_access r1 = Public →
       rt_handler r1 ∈ [Claim; PairStatus; RegisterOptions; RegisterFinish; LoginOptions; LoginFinishHandler])
  ∧ (rt_handler r1 ∈ [ElevateOptions; ElevateFinish; Logout] → rt_access r1 = SessionAccess View).
Proof.
  intros H1 H2 M1 M2. split; [by eapply route_unique|]. clear M1 M2 H2.
  assert (forallb route_policy ROUTES = true) as Hp by (vm_compute; reflexivity).
  rewrite List.forallb_forall in Hp. specialize (Hp r1 ltac:(by apply list_elem_of_In)).
  unfold route_policy in Hp. repeat (apply andb_true_iff in Hp as [Hp ?]).
  repeat match goal with H : bool_decide _ = true |- _ => apply bool_decide_eq_true in H end.
  split_and!; try done. destruct Hp as [[-> ->]|[-> ->]]; split; done.
Qed.

(** ** Static files *)

Lemma path_starts_with_app root path : path_starts_with root path = true → ∃ under, path = root ++ under.
Proof.
  revert path. induction root as [|x root IH]; intros path; [by exists path|]. destruct path as [|y path]; [done|].
  simpl. intros [->%bool_decide_eq_true Hr]%andb_true_iff. destruct (IH _ Hr) as [under ->]. by exists under.
Qed.

(** A static file is one of the bundle's.  A file is only served for [/],
    [/index.html], [/pair], the manifest, the service worker, or a path under
    [/assets/] or [/icons/] whose components are all plain names (so no dot
    segments, no percent signs, no Windows device names); what is sent is the
    regular file, of at most 16 MiB, that the path leads to, and that file lies in
    the web root even when links are followed. *)
Theorem static_confined fs root path r : static_file fs root path = r → rs_status r ≠ NOT_FOUND →
  contains ".." path = false
  ∧ (path = "/" ∨ ∃ relative, path = "/" +:+ relative
       ∧ Forall (λ s, valid_static_segment s = true) (split_on (char_of 47) relative))
  ∧ ∃ relative canonical contents, static_relative path = Some relative
    ∧ fs_canonicalize fs root relative = Some canonical ∧ (∃ under, canonical = root ++ under)
    ∧ fs_open fs canonical = Some (true, contents) ∧ len contents <= MAX_STATIC_BYTES
    ∧ rs_status r = OK_STATUS ∧ rs_body r = BodyBytes contents.
Proof.
  unfold static_file. destruct (contains ".." path) eqn:Hdots; cbn [orb]; [by intros <-|].
  destruct (negb (bool_decide (path = "/")) && _) eqn:Hpath; [by intros <-|].
  destruct (static_relative path) as [relative|] eqn:Hrel; [|by intros <-].
  destruct (fs_canonicalize fs root relative) as [canonical|] eqn:Hcan; [|by intros <-].
  destruct (path_starts_with root canonical) eqn:Hroot; cbn [negb]; [|by intros <-].
  destruct (fs_open fs canonical) as [[is_file contents]|] eqn:Hopen; [|by intros <-].
  destruct (negb is_file || _) eqn:Hfile; [by intros <-|]. intros <- _. split; [done|]. split.
  - apply andb_false_iff in Hpath as [Hp%negb_false_iff%bool_decide_eq_true|Hp%negb_false_iff]; [by left|right].
    destruct (strip_prefix "/" path) as [rest|] eqn:Hs; [|done]. exists rest. split; [|by apply forallb_Forall].
    by apply strip_prefix_app in Hs.
  - exists relative, canonical, contents. apply orb_false_iff in Hfile as [Hf%negb_false_iff Hl%Z.ltb_ge].
    subst is_file. split_and!; try done. by apply path_starts_with_app.
Qed.

(** ** The answers *)
Section Answers.
Context `{Base64, Crypto, Http, Tokio, !Webauthn Transport, World W}.
Context (config : GwConfig) (P : HttpParsers) (fs : Files) (root : list string).
Context (handshake : HttpRequest → option Response).
Context (here : nat → HttpState * W → HttpState * W) (other inner : nat → Gw * W → Gw * W).

Definition header (name : string) (r : Response) : list string := headers_get_all name (rs_headers r).

Lemma header_insert name value r name' :
  header name' (with_header name value r) = if bool_decide (name' = name) then [value] else header name' r.
Proof.
  unfold header, headers_get_all, with_header, headers_insert, HeaderMap. cbn [rs_headers].
  induction (rs_headers r) as [|e l IH].
  - change (filter _ [] ++ [(name, value)]) with [(name, value)]. case_bool_decide.
    + by rewrite filter_cons_True.
    + by rewrite filter_cons_False by (simpl; congruence).
  - destruct (decide (e.1 = name)) as [He|He].
    + rewrite (filter_cons_False (λ x : string * string, x.1 ≠ name)) by tauto. rewrite IH.
      case_bool_decide; [done|]. by rewrite filter_cons_False by congruence.
    + rewrite (filter_cons_True (λ x : string * string, x.1 ≠ name)) by tauto.
      rewrite <-app_comm_cons. destruct (decide (e.1 = name')) as [Hn|Hn].
      * rewrite !filter_cons_True by done. rewrite !fmap_cons, IH. by rewrite bool_decide_eq_false_2 by congruence.
      * by rewrite !filter_cons_False by done.
Qed.

Lemma harden_headers api r : let r' := harden api r in
  (∀ e, e ∈ SECURITY_HEADERS → header e.1 r' = [e.2])
  ∧ (api || negb (is_success (rs_status r')) = true → header "cache-control" r' = ["no-store"])
  ∧ rs_status r' = rs_status r ∧ rs_body r' = rs_body r.
Proof.
  cbn zeta. unfold harden. set (r0 := foldl _ _ _).
  assert (rs_status r0 = rs_status r ∧ rs_body r0 = rs_body r) as [Hst Hb] by done.
  assert (∀ e, e ∈ SECURITY_HEADERS → header e.1 r0 = [e.2]) as Hsec.
  { intros e He. subst r0. unfold SECURITY_HEADERS in *. cbn [foldl fst snd].
    repeat (apply elem_of_cons in He as [->|He]; [rewrite !header_insert; vm_compute; reflexivity|]).
    by apply elem_of_nil in He. }
  destruct (api || _) eqn:Hns.
  - split_and!; [|intros _; by rewrite header_insert|done|done].
    intros e He. rewrite header_insert, bool_decide_eq_false_2; [by apply Hsec|].
    repeat (apply elem_of_cons in He as [->|He]; [done|]). by apply elem_of_nil in He.
  - split_and!; [done| |done|done]. by rewrite Hns.
Qed.

(** Every answer carries the security headers, exactly once each, and no
    answer of the API and no error is stored by a cache. *)
Theorem answers_hardened instant late request t r t' :
  handle (E := unit) config P fs root handshake here other inner instant late request t = (Ok r, t') →
  (∀ e, e ∈ SECURITY_HEADERS → header e.1 r = [e.2])
  ∧ (is_api_path (uri_path (rq_uri request)) = true ∨ is_success (rs_status r) = false →
     header "cache-control" r = ["no-store"]).
Proof.
  unfold handle, attempt, bind, ret. intros Hr.
  assert (∃ r0, r = harden (is_api_path (uri_path (rq_uri request))) r0) as [r0 ->].
  { destruct (dispatch _ _ _ _ _ _ _ _ _ _ _ t) as [[a|e|] s]; cbn iota in Hr;
      [assert (Some r = Some (harden (is_api_path (uri_path (rq_uri request))) a)) as Hs by congruence
      |assert (Some r = Some (harden (is_api_path (uri_path (rq_uri request))) e)) as Hs by congruence|done];
      injection Hs as ->; eauto. }
  destruct (harden_headers (is_api_path (uri_path (rq_uri request))) r0) as (Hs & Hc & _).
  split; [exact Hs|]. intros [Ha|Ha]; apply Hc; [by rewrite Ha|by rewrite Ha, orb_true_r].
Qed.
End Answers.

(** * What an answered request went through, and the state it leaves

    [dispatch] runs between other tasks; [http_step] is one critical section of
    any of them: of the guard, of the gateway, of the upgrade queue. *)
(** ** The upgrade queue *)
Section Queue.
Context `{Base64, T : Tokio, !TokioLaws T}.

(** The places, and how many connections [serve] runs: it receives an upgrade,
    runs it, and drops its permit. *)
Record UpgradeSys := mkUpgradeSys { us_upgrades : Upgrades; us_running : nat }.
Inductive upgrade_step : UpgradeSys → UpgradeSys → Prop :=
| us_respond handshake request identity u n :
    upgrade_step (mkUpgradeSys u n) (mkUpgradeSys (respond handshake request identity u).2 n)
| us_take u n job pending : chan_recv (ug_pending u) = Some (job, pending) →
    upgrade_step (mkUpgradeSys u n) (mkUpgradeSys (mkUpgrades pending (ug_permits u)) (S n))
| us_end u n : upgrade_step (mkUpgradeSys u (S n)) (mkUpgradeSys (permit_drop u) n).

Record upgrades_wf (s : UpgradeSys) : Prop := {
  uw_permits : (sem_permits (ug_permits s.(us_upgrades)) + length (chan_queue (ug_pending s.(us_upgrades)))
                + s.(us_running) = WS_PEERS)%nat;
  uw_free : (chan_free (ug_pending s.(us_upgrades)) + length (chan_queue (ug_pending s.(us_upgrades)))
             = WS_PEERS)%nat;
  uw_open : chan_closed (ug_pending s.(us_upgrades)) = false;
}.
Lemma upgrades_new_wf : upgrades_wf (mkUpgradeSys upgrades_new 0).
Proof.
  constructor; simpl; by rewrite ?sem_new_permits, ?chan_new_queue, ?chan_new_free, ?chan_new_open.
Qed.

(** [respond] on every path: the queue has room for everyone who has a permit. *)
Lemma respond_spec handshake request identity u n : upgrades_wf (mkUpgradeSys u n) →
  let '(r, u') := respond handshake request identity u in
  upgrades_wf (mkUpgradeSys u' n) ∧
  match handshake request with
  | None => rs_status r = BAD_REQUEST ∧ u' = u
  | Some response =>
      if has_session_cookie request.(rq_headers) identity
      then if bool_decide (sem_permits (ug_permits u) = 0)%nat
           then rs_status r = SERVICE_UNAVAILABLE ∧ u' = u
           else r = response ∧ chan_queue (ug_pending u') = chan_queue (ug_pending u)
                  ++ [mkUpgrade (filter (λ e, e.1 = "cookie") request.(rq_headers))]
      else rs_status r = UNAUTHORIZED ∧ u' = u
  end.
Proof.
  intros Hwf. unfold respond. destruct (handshake request) as [response|]; [|done].
  destruct (has_session_cookie _ _); cbn [negb]; [|done].
  destruct Hwf as [Hp Hf Ho]. simpl in *. destruct (sem_try_acquire (ug_permits u)) as [permits|] eqn:Hs.
  - apply sem_acquire_some in Hs. rewrite bool_decide_eq_false_2 by lia.
    destruct (chan_try_send _ _) as [pending|] eqn:Hq; cycle 1.
    { apply chan_send_none in Hq as [Hq|Hq]; [lia|congruence]. }
    apply chan_send_some in Hq as (Hq & Hfree & Hclosed).
    split; [|done]. constructor; simpl; rewrite ?Hq, ?length_app; simpl; [lia|lia|congruence].
  - apply sem_acquire_none in Hs. rewrite bool_decide_eq_true_2 by done. done.
Qed.
Lemma upgrade_step_wf s s' : upgrades_wf s → upgrade_step s s' → upgrades_wf s'.
Proof.
  intros Hwf Hs. destruct Hs as [h r i u n|u n job pending Hr|u n].
  - pose proof (respond_spec h r i u n Hwf) as Hspec. destruct (respond h r i u). apply Hspec.
  - destruct Hwf as [Hp Hf Ho]. apply chan_recv_some in Hr as (Hq & Hfree & Hclosed). simpl in *.
    rewrite Hq in *. constructor; simpl in *; [lia|lia|congruence].
  - destruct Hwf as [Hp Hf Ho]. simpl in *. constructor; simpl; rewrite ?sem_release_permits; [lia|done|done].
Qed.
Lemma upgrade_steps_wf s s' : upgrades_wf s → rtc upgrade_step s s' → upgrades_wf s'.
Proof. intros Hwf Hs. induction Hs as [|s1 s2 s3 H12 _ IH]; [done|]. apply IH. by eapply upgrade_step_wf. Qed.

(** At most sixteen connections.  Whatever arrives, is taken up or ends, the
    upgrades waiting and the connections running are at most sixteen together; an
    upgrade request with a session's cookie is refused exactly when the sixteen
    places are taken (the queue itself is never full), queued with its cookies
    and nothing else otherwise; and a request without one takes no place. *)
Theorem upgrades_bounded s handshake request identity :
  rtc upgrade_step (mkUpgradeSys upgrades_new 0) s →
  (length (chan_queue (ug_pending s.(us_upgrades))) + s.(us_running) ≤ 16)%nat ∧
  let '(r, u') := respond handshake request identity s.(us_upgrades) in
  match handshake request with
  | None => rs_status r = BAD_REQUEST ∧ u' = s.(us_upgrades)
  | Some response =>
      if has_session_cookie request.(rq_headers) identity
      then if bool_decide (length (chan_queue (ug_pending s.(us_upgrades))) + s.(us_running) = 16)%nat
           then rs_status r = SERVICE_UNAVAILABLE ∧ u' = s.(us_upgrades)
           else r = response ∧ chan_queue (ug_pending u') = chan_queue (ug_pending s.(us_upgrades))
                  ++ [mkUpgrade (filter (λ e, e.1 = "cookie") request.(rq_headers))]
      else rs_status r = UNAUTHORIZED ∧ u' = s.(us_upgrades)
  end.
Proof.
  intros Hs. pose proof (upgrade_steps_wf _ _ upgrades_new_wf Hs) as Hwf. destruct s as [u n].
  pose proof (respond_spec handshake request identity u n Hwf) as Hspec.
  destruct Hwf as [Hp _ _]. unfold WS_PEERS in Hp. simpl in *. split; [lia|].
  destruct (respond handshake request identity u) as [r u']. destruct Hspec as [_ Hspec].
  rewrite (bool_decide_ext _ (sem_permits (ug_permits u) = 0)%nat) by lia. done.
Qed.
End Queue.

(** ** The steps of a request *)
Section Steps.
Context `{Base64, !Base64Laws _, Crypto, !CryptoLaws _, Http, Tokio, !Webauthn Transport, World W, !WorldLaws W}.
Implicit Types (g : Gw) (w : W) (gd : Guard) (u : Upgrades).

Inductive http_step : HttpState * W → HttpState * W → Prop :=
| hs_gateway gd u g w g' w' : gw_step (g, w) (g', w') →
    http_step (mkHttpState gd g u, w) (mkHttpState gd g' u, w')
| hs_check now method uri headers gd g u w :
    http_step (mkHttpState gd g u, w) (mkHttpState (guard_check now method uri headers gd).2 g u, w)
| hs_upgrade gd g u u' n n' w : upgrade_step (mkUpgradeSys u n) (mkUpgradeSys u' n') →
    http_step (mkHttpState gd g u, w) (mkHttpState gd g u', w).
Abbreviation halong := (along http_step).

Definition gw_of (t : HttpState * W) : Gw * W := (hs_gw t.1, t.2).
Lemma http_step_gw t t' : http_step t t' → rtc gw_step (gw_of t) (gw_of t').
Proof. intros []; [by apply rtc_once|apply rtc_refl..]. Qed.
Lemma http_steps_gw t t' : rtc http_step t t' → rtc gw_step (gw_of t) (gw_of t').
Proof. induction 1 as [|t1 t2 t3 H12 _ IH]; [done|]. etrans; [by apply http_step_gw|done]. Qed.

Lemma halong_gateway {E A} (m : M (Gw * W) E A) : along gw_step m → halong (in_gateway m).
Proof.
  intros Hm [[gd g u] w]. specialize (Hm (g, w)). unfold in_gateway, zoom. simpl.
  destruct (m (g, w)) as [r [g' w']]. simpl in *.
  assert (∀ t t', rtc gw_step t t' →
    rtc http_step (mkHttpState gd t.1 u, t.2) (mkHttpState gd t'.1 u, t'.2)) as Hgen.
  { clear. induction 1 as [|[g1 w1] [g2 w2] t3 H12 _ IH]; [done|]. eapply rtc_l; [by apply hs_gateway|done]. }
  exact (Hgen (g, w) (g', w') Hm).
Qed.
Lemma halong_guard {E} (f : Z → E) now method uri headers :
  halong (map_err f (in_guard (guard_check now method uri headers))).
Proof.
  apply along_map_err, along_once. intros [[gd g u] w]. unfold in_guard, zoom. simpl.
  pose proof (hs_check now method uri headers gd g u w). by destruct (guard_check _ _ _ _ gd).
Qed.
Lemma halong_world {E A} (f : W → A * W) : quiet (lift f : M (HttpState * W) E A) →
  halong (lift f : M (HttpState * W) E A).
Proof.
  intros Hq. apply along_once. intros [[gd [p i c] u] w].
  destruct (along_world _ Hq (λ s w, lift_still f s w) (mkHttpState gd (mkGw p i c) u) w) as (w' & -> & Hw).
  apply hs_gateway, gs_free, free_identity. by apply quiet_istep.
Qed.
Lemma halong_clock {E} : halong (clock_read : M (HttpState * W) E Timestamp).
Proof. apply halong_world, quiet_clock. Qed.
Hint Resolve halong_gateway halong_guard halong_clock : stepping.
Hint Resolve galong_identity ialong_authenticate ialong_authorized galong_registration_options
  galong_registration_finish galong_login_options galong_login_finish galong_elevation_options
  galong_elevation_finish galong_logout : stepping.

(** Several calls on the pairings, one after the other. *)
Abbreviation palong := (along pairing_call).
Lemma galong_calls {E A} (m : M (Pairings * W) E A) : palong m → along gw_step (in_pairings m).
Proof.
  intros Hm [[p i c] w]. specialize (Hm (p, w)). unfold in_pairings, zoom. simpl.
  destruct (m (p, w)) as [r t']. simpl in *.
  assert (∀ t t', rtc pairing_call t t' → rtc gw_step (mkGw t.1 i c, t.2) (mkGw t'.1 i c, t'.2)) as Hgen.
  { clear. induction 1 as [|[p1 w1] [p2 w2] t3 H12 _ IH]; [done|]. eapply rtc_l; [by apply gs_pairing|done]. }
  destruct t' as [p' w']. exact (Hgen (p, w) (p', w') Hm).
Qed.
Lemma palong_status_begin request : palong (status_begin request).
Proof. apply along_once. intros. apply call_status_begin. Qed.
Lemma palong_status_finish request : palong (status_finish request).
Proof. apply along_once. intros. apply call_status_finish. Qed.
Lemma palong_status_drop {E} id : palong (update (status_drop id) : M (Pairings * W) E unit).
Proof. apply along_once. intros [p w]. apply call_status_drop. Qed.
Lemma palong_claim request agent : palong (pairings_claim request agent).
Proof. apply along_once. intros. apply call_claim. Qed.
Hint Resolve galong_calls palong_status_begin palong_status_finish palong_status_drop palong_claim : stepping.

Section Interleaved.
Context (config : GwConfig) (P : HttpParsers) (fs : Files) (root : list string).
Context (handshake : HttpRequest → option Response).
Context (here : nat → HttpState * W → HttpState * W) (other inner : nat → Gw * W → Gw * W).
Hypothesis heres : ∀ n t, rtc http_step t (here n t).
Hypothesis others : ∀ n t, rtc gw_step t (other n t).
Hypothesis inners : ∀ n t, rtc free_step t (inner n t).

Lemma halong_elsewhere {E} n : halong (elsewhere_http here n : M (HttpState * W) E unit).
Proof. apply along_modify, heres. Qed.
Hint Resolve halong_elsewhere : stepping.

Lemma halong_on_gateway {A} (m : M (Gw * W) Failure A) : along gw_step m → halong (on_gateway m).
Proof. intros Hm. by apply along_map_err, halong_gateway. Qed.
Hint Resolve halong_on_gateway : stepping.
Lemma halong_body {A} (parse : string → option A) body : halong (body_of parse body).
Proof. apply along_ok_or. Qed.
Hint Resolve halong_body : stepping.

Lemma halong_status_route late request : halong (status_route P here late request).
Proof. unfold status_route. along_auto. Qed.
Hint Resolve halong_status_route : stepping.

Lemma halong_handler late handler request auth body :
  halong (run_handler config P fs root here other inner late handler request auth body).
Proof. unfold run_handler. along_auto. Qed.
Lemma halong_session access headers : halong (route_session config here access headers).
Proof. unfold route_session, gateway_authenticate, authorized. along_auto. Qed.
Lemma halong_checks instant request : halong (dispatch_checks config here instant request).
Proof. unfold dispatch_checks, collect_body. along_auto. Qed.
Hint Resolve halong_handler halong_session halong_checks : stepping.

Lemma halong_upgrade request : halong (let! s := gets fst in
  in_upgrades (E := Response) (λ u, let '(r, u) := respond handshake request (gw_identity (hs_gw s)) u in (Ok r, u))).
Proof.
  apply along_once. intros [[gd g u] w]. unfold bind, gets, in_upgrades, zoom. simpl.
  pose proof (hs_upgrade gd g u _ 0 0 w (us_respond handshake request (gw_identity g) u 0)) as Hs.
  by destruct (respond _ _ _ _).
Qed.
Hint Resolve halong_upgrade : stepping.
Lemma halong_dispatch instant late request :
  halong (dispatch config P fs root handshake here other inner instant late request).
Proof. unfold dispatch. along_auto. Qed.
Lemma halong_handle {E} instant late request :
  halong (handle (E := E) config P fs root handshake here other inner instant late request).
Proof. pose proof halong_dispatch. unfold handle. along_auto. Qed.
End Interleaved.
End Steps.
