(* ===== verification/Calm.v ===== *)
(** * Handlers that end in an answer

    [calm] says of a computation that it keeps an invariant and panics only where
    [P] allows it; the hints of the database [calm] follow its syntax.  Every
    handler of [Gateway.v] and [Dispatch.v] is calm: the [expect]s of the session
    and of the cookie never fail, and what is left is the authentication string of
    a claim, which the source takes from finitely many digests. *)
From stdpp Require Import base gmap strings list fin_maps fin_sets relations.
From Stdlib Require Import ZArith Lia.
From S2P Require Import Prelude Steps Rust Externals Crates Clock Devices Admin Guard.
From S2P Require Import Events World Pairing PairingFacts PairingSpec Webauthn.
From S2P Require Import WebauthnFacts Session SessionInv SessionOps SessionLogin.
From S2P Require Import Authorize SessionSpec Gateway GatewayFacts.
From S2P Require Import GatewayProps Http Dispatch DispatchSpec.
Local Open Scope Z_scope.

Create HintDb calm discriminated.

Section Calm.
Context {St : Type} (I : St → Prop) (P : Prop).

Definition calm {E A} (m : M St E A) : Prop :=
  ∀ s, I s → wp m (λ r s', (r = Panic → P) ∧ I s') s.

Context {E : Type}.
Lemma calm_ret {A} (a : A) : calm (ret a : M St E A).
Proof. intros s Hs. by apply wp_ret. Qed.
Lemma calm_throw {A} (e : E) : calm (throw e : M St E A).
Proof. intros s Hs. by apply wp_throw. Qed.
Lemma calm_ok_or {A} (e : E) (o : option A) : calm (ok_or e o : M St E A).
Proof. intros s Hs. apply wp_ok_or. by destruct o. Qed.
Lemma calm_reject_if b (e : E) : calm (reject_if b e : M St E unit).
Proof. intros s Hs. apply wp_reject_if. by destruct b. Qed.
Lemma calm_gets {A} (f : St → A) : calm (gets f : M St E A).
Proof. intros s Hs. by apply wp_gets. Qed.
Lemma calm_modify f : (∀ s, I s → I (f s)) → calm (modify f : M St E unit).
Proof. intros Hf s Hs. apply wp_modify. split; [done|auto]. Qed.
Lemma calm_bind {A B} (m : M St E A) (k : A → M St E B) :
  calm m → (∀ a, calm (k a)) → calm (bind m k).
Proof.
  intros Hm Hk s Hs. apply wp_bind. eapply wp_mono; [by apply Hm|].
  intros [a|e|] s' [Hp Hs']; [by apply Hk|done|]. split; [intros _; by apply Hp|done].
Qed.
Lemma calm_attempt {E' A} (m : M St E' A) : calm m → calm (attempt m : M St E (E' + A)).
Proof.
  intros Hm s Hs. apply wp_attempt. eapply wp_mono; [by apply Hm|].
  intros [a|e|] s' [Hp Hs']; [done..|]. split; [intros _; by apply Hp|done].
Qed.
Lemma calm_map_err {E' A} (f : E' → E) (m : M St E' A) : calm m → calm (map_err f m).
Proof.
  intros Hm s Hs. apply wp_map_err. eapply wp_mono; [by apply Hm|].
  intros [a|e|] s' [Hp Hs']; [done..|]. split; [intros _; by apply Hp|done].
Qed.
Lemma calm_expect {A} (o : option A) : is_Some o → calm (expect o : M St E A).
Proof. intros [a ->] s Hs. by apply wp_expect. Qed.
End Calm.

#[export] Hint Resolve calm_ret calm_throw calm_ok_or calm_reject_if calm_gets calm_attempt calm_map_err : calm.
#[export] Hint Extern 1 (calm _ _ (bind _ _)) => apply calm_bind; [|intros ?] : calm.
#[export] Hint Extern 3 (calm _ _ (if ?b then _ else _)) => destruct b : calm.
#[export] Hint Extern 3 (calm _ _ (match ?x with _ => _ end)) => destruct x : calm.
Ltac calm_auto := cbn zeta; eauto 80 with calm nocore.

(** ** The gateway's handlers *)
Section Gateway.
Context `{Base64, !Base64Laws _, Crypto, !CryptoLaws _, Http, Tokio, !Webauthn Transport, World W, !WorldLaws W}.
Context (d0 : gmap string Device) (config : GwConfig) (other inner : nat → Gw * W → Gw * W).
Hypothesis others : ∀ n t, rtc gw_step t (other n t).
Hypothesis inners : ∀ n t, rtc free_step t (inner n t).

(** The authentication string of a claim finds no digest. *)
Definition sas_exhausted : Prop := ∃ secret nonce gateway, derive_sas secret nonce gateway = None.
Context (allowed : Prop).
Abbreviation gcalm := (calm (gw_inv d0) allowed).

Lemma calm_world {E A} (f : W → A * W) : quiet (lift f : M (Gw * W) E A) →
  gcalm (lift f : M (Gw * W) E A).
Proof.
  intros Hq [g w] Hi. specialize (Hq g w). apply run_wp. intros r [g' w'] Hrun. rewrite Hrun in Hq.
  unfold lift in Hrun. destruct (f w) as [a w2]. injection Hrun as <- <- <-.
  split; [done|]. by eapply inv_world.
Qed.
Lemma calm_clock {E} : gcalm (clock_read : M (Gw * W) E Timestamp).
Proof. apply calm_world, quiet_clock. Qed.
Lemma calm_random : gcalm (random 16 : M (Gw * W) Failure _).
Proof. apply calm_world. by apply quiet_random. Qed.
Lemma calm_challenge : gcalm (draw_challenge : M (Gw * W) Failure string).
Proof. apply calm_world, quiet_challenge. Qed.
Lemma calm_outcome {E} ceremony success device_id :
  gcalm (outcome_event ceremony success device_id : M (Gw * W) E unit).
Proof. apply calm_bind; [|intros; apply calm_ret]. apply calm_world. by apply quiet_try_emit. Qed.
Lemma calm_elsewhere {E} n : gcalm (elsewhere other n : M (Gw * W) E unit).
Proof. apply calm_modify. intros t Hi. by eapply gw_steps_inv. Qed.

Lemma calm_identity {E A} (m : M (Identity * W) E A) :
  (∀ i w, inv d0 (i, w) → wp m (λ r t, r ≠ Panic ∧ irel d0 (i, w) t) (i, w)) → gcalm (in_identity m).
Proof.
  intros Hm [[p i c] w] Hi. apply zoom_identity_wp. eapply wp_mono; [apply Hm, Hi|].
  intros r [i' w'] [Hnp Hr]. split; [done|]. by eapply identity_inv.
Qed.
Lemma calm_ceremonies {E A} (m : M Ceremonies E A) :
  (∀ c, ceremonies_wf c → (m c).1 ≠ Panic) → (∀ c, ceremony_step c (m c).2) →
  gcalm (in_ceremonies m : M (Gw * W) E A).
Proof.
  intros Hm Hs [[p i c] w] [Hp Hi Hc]. apply zoom_ceremonies_wp. apply run_wp. intros r c' Hrun.
  specialize (Hm c Hc). pose proof (step_wf c _ Hc (Hs c)) as Hwf. rewrite Hrun in Hm, Hwf.
  split; [done|]. by constructor.
Qed.
Lemma calm_pairings {A} (m : M (Pairings * W) Failure A) :
  (∀ t, pairing_call t (m t).2) → (∀ t, table_inv t.1 t.2 → (m t).1 = Panic → allowed) →
  gcalm (in_pairings m).
Proof.
  intros Hc Hm [[p i c] w] Hi. pose proof Hi as [Hp _ _].
  specialize (Hm (p, w) Hp). pose proof (gs_pairing p w) as Hstep. specialize (Hc (p, w)).
  apply zoom_pairings_wp. apply run_wp. intros r [p' w'] Hrun. rewrite Hrun in Hm, Hc. split; [exact Hm|].
  eapply gw_step_inv; [exact Hi|]. by apply gs_pairing.
Qed.

Lemma calm_consume id ticket : gcalm (in_pairings (consume_ticket id ticket)).
Proof.
  apply calm_pairings; [intros; apply call_consume|]. intros [s w] Hi%table_rel_refl.
  by destruct (consume_spec (s, w) id ticket s w Hi).
Qed.
Lemma calm_retry registration : gcalm (in_pairings (retry_registration registration)).
Proof.
  apply calm_pairings; [intros; apply call_retry|]. intros [s w] Hi%table_rel_refl.
  by destruct (retry_spec (s, w) registration s w Hi).
Qed.
Lemma calm_claim request agent : (sas_exhausted → allowed) → gcalm (in_pairings (pairings_claim request agent)).
Proof.
  intros Hsas. apply calm_pairings; [intros; apply call_claim|]. intros [s w] Hi%table_rel_refl Hp.
  apply Hsas. by apply (claim_spec (s, w) request agent s w Hi).
Qed.
Lemma calm_status_begin request : gcalm (in_pairings (status_begin request)).
Proof.
  apply calm_pairings; [intros; apply call_status_begin|]. intros [s w] Hi%table_rel_refl.
  by destruct (status_begin_spec (s, w) request s w Hi).
Qed.
Lemma calm_status_drop {E} id : gcalm (in_pairings (update (status_drop id) : M (Pairings * W) E unit)).
Proof.
  intros [[p i c] w] Hi. apply zoom_pairings_wp, wp_update. split; [done|]. simpl.
  eapply gw_step_inv; [exact Hi|]. apply gs_pairing, call_status_drop.
Qed.
Lemma calm_status_finish request : gcalm (in_pairings (status_finish request)).
Proof.
  apply calm_pairings; [intros; apply call_status_finish|]. intros [s w] Hi%table_rel_refl.
  by destruct (status_finish_spec (s, w) request s w Hi).
Qed.
Lemma calm_commit pairing verified : gcalm (registration_commit inner pairing verified).
Proof. intros t Hi. eapply wp_mono; [by apply commit_spec|]. intros r t' (Hnp & Hi' & _). by split. Qed.

Lemma calm_insert c now : gcalm (in_ceremonies (ceremonies_insert c now) : M (Gw * W) _ _).
Proof.
  apply calm_ceremonies; [|intros; apply step_insert]. intros s Hs.
  by destruct (insert_spec c now s Hs).
Qed.
Lemma calm_take_registration id response now :
  gcalm (in_ceremonies (take_registration id response now) : M (Gw * W) _ _).
Proof.
  apply calm_ceremonies; [|intros; apply step_take_registration]. intros s Hs.
  by destruct (take_registration_spec id response now s).
Qed.
Lemma calm_retain {E} active : gcalm (in_ceremonies (modify (retain_sessions active)) : M (Gw * W) E unit).
Proof. by apply calm_ceremonies; [|intros; apply step_retain_sessions]. Qed.
Lemma calm_target target :
  gcalm (in_identity (let! i := get in ok_or REJECTED (registration_target target i))).
Proof.
  apply calm_identity. intros i w Hi. apply wp_bind, wp_get, wp_ok_or.
  destruct (registration_target target i); (split; [done|]); by apply irel_refl.
Qed.
Hint Resolve calm_clock calm_random calm_challenge calm_outcome calm_elsewhere calm_consume calm_retry calm_commit
  calm_insert calm_take_registration calm_retain calm_target : calm.

Lemma calm_registration_options request : gcalm (registration_options config other request).
Proof. unfold registration_options, registration_prepare. calm_auto. Qed.
Lemma calm_registration_finish request : gcalm (registration_finish config other inner request).
Proof. unfold registration_finish, registration_verify. calm_auto. Qed.
Lemma calm_login_options : gcalm (login_options config other).
Proof. unfold login_options, assertion_deadline. calm_auto. Qed.
Lemma calm_login_finish request : gcalm (login_finish config other request).
Proof. intros t Hi. eapply wp_mono; [by apply (login_spec d0)|]. intros r t' (? & Hnp & _). by split. Qed.
Lemma calm_elevation_finish ctx request : gcalm (elevation_finish config other ctx request).
Proof. intros t Hi. eapply wp_mono; [by apply (elevation_spec d0)|]. intros r t' (? & Hnp & _). by split. Qed.

Lemma calm_prepare ctx scope : gcalm (in_identity (elevation_prepare config ctx scope)).
Proof.
  apply calm_identity. intros i w Hi%irel_refl. unfold elevation_prepare. apply wp_bind.
  assert (∀ i1 w1, irel d0 (i, w) (i1, w1) → ∀ valid : bool,
    wp (reject_if (negb valid) AUTHENTICATION_REQUIRED;;
        let! able := can_elevate ctx scope in
        reject_if (negb able) SCOPE_NOT_GRANTED;;
        let! i := get in
        let! device := ok_or REJECTED (i.(i_devices) !! ctx.(ctx_device_id)) in
        let! challenge := draw_challenge in
        let! '(state, options) := (match rp_elevation (gc_rp config) (d_credentials device)
            (passkey_binding (gc_policy config)) scope challenge with
          | inl e => throw e
          | inr r => ret r
          end) in
        let! active := active_session_ids in
        ret (state, options, active)) (λ r t, r ≠ Panic ∧ irel d0 (i, w) t) (i1, w1)) as Hrest.
  { intros i1 w1 Hr valid. apply wp_bind, wp_reject_if. destruct valid; cbn [negb]; [|by split].
    apply wp_bind. eapply can_elevate_spec; [exact Hr|]. intros able w2 Hr2 _ _ _.
    apply wp_bind, wp_reject_if. destruct able; cbn [negb]; [|by split].
    apply wp_bind, wp_get, wp_bind, wp_ok_or. destruct (_ !! _) as [device|]; [|by split].
    apply wp_bind, wp_draw_challenge. intros b w3 Ht3 Hl3.
    assert (irel d0 (i, w) (i1, w3)) as Hr3.
    { eapply (irel_trans d0 _ (i1, w2)); [exact Hr2|]. eapply irel_world; [apply irel_refl, Hr2| | |].
      - by rewrite Hl3, app_nil_r.
      - constructor.
      - simpl. lia. }
    apply wp_bind. destruct (rp_elevation _ _ _ _ _) as [e|[st options]]; [by apply wp_throw; split|].
    apply wp_ret, wp_bind. unfold active_session_ids. apply wp_bind.
    eapply purge_expired_spec; [exact Hr3|]. intros w4 i4 Hr4 _ _. by apply wp_bind, wp_get, wp_ret, wp_ret. }
  case_bool_decide; cbn [negb]; [|by apply wp_ret, Hrest].
  eapply revalidate_spec; [exact Hi|]. intros b i1 w1 Hr1 _ _ _. by apply Hrest.
Qed.
Lemma calm_authenticate headers host scope : gcalm (in_identity (authenticate headers host scope)).
Proof.
  apply calm_identity. intros i w Hi%irel_refl. eapply authenticate_spec; [exact Hi|]. by intros.
Qed.
Lemma calm_authorized {T} host ctx scope (write : M (Identity * W) Failure T) :
  (∀ i w, inv d0 (i, w) → wp write (λ r t, r ≠ Panic ∧ irel d0 (i, w) t) (i, w)) →
  gcalm (in_identity (with_authorized host ctx scope write)).
Proof.
  intros Hw. apply calm_identity. intros i w Hi%irel_refl. eapply with_authorized_spec; [exact Hi|by intros|].
  intros now i0 i1 w1 Hr1 _ _ _ _ _. eapply wp_mono; [apply Hw, Hr1|].
  intros r t [? Hr]. split; [done|]. by eapply irel_trans.
Qed.
Lemma calm_logout ctx : gcalm (logout_session config ctx).
Proof.
  apply calm_authorized. intros i w Hi%irel_refl. apply wp_update. split; [done|]. by apply irel_invalidate_session.
Qed.
Hint Resolve calm_prepare : calm.
Lemma calm_elevation_options ctx request : gcalm (elevation_options config ctx request).
Proof. unfold elevation_options, assertion_deadline. calm_auto. Qed.
End Gateway.

#[export] Hint Resolve calm_clock calm_status_begin calm_status_drop calm_status_finish
  calm_registration_options calm_registration_finish calm_login_options calm_login_finish
  calm_elevation_options calm_elevation_finish calm_authenticate calm_logout : calm.

(** ** The handlers of HTTP *)
Section Requests.
Context `{Base64, !Base64Laws _, Crypto, !CryptoLaws _, Http, !HttpLaws _, Tokio, !Webauthn Transport, World W, !WorldLaws W}.
Context (d0 : gmap string Device) (config : GwConfig) (P : HttpParsers) (fs : Files) (root : list string).
Context (handshake : HttpRequest → option Response).
Context (here : nat → HttpState * W → HttpState * W) (other inner : nat → Gw * W → Gw * W).
Hypothesis heres : ∀ n t, rtc http_step t (here n t).
Hypothesis others : ∀ n t, rtc gw_step t (other n t).
Hypothesis inners : ∀ n t, rtc free_step t (inner n t).

Context (allowed : Prop).
Abbreviation gcalm := (calm (gw_inv d0) allowed).
Abbreviation hcalm := (calm (λ t : HttpState * W, gw_inv d0 (gw_of t)) allowed).

Lemma hcalm_gateway {E A} (m : M (Gw * W) E A) : gcalm m → hcalm (in_gateway m).
Proof.
  intros Hm [[gd g u] w] Hi. apply wp_zoom. eapply wp_mono; [by apply Hm|]. by intros r [g' w'].
Qed.
Lemma hcalm_guard {E A} (m : M Guard E A) : (∀ g, (m g).1 ≠ Panic) → hcalm (in_guard m).
Proof.
  intros Hm [[gd g u] w] Hi. specialize (Hm gd). apply wp_zoom, run_wp. intros r gd' Hrun.
  simpl in Hrun. rewrite Hrun in Hm. by split.
Qed.
Lemma hcalm_clock {E} : hcalm (clock_read : M (HttpState * W) E Timestamp).
Proof.
  intros [[gd g u] w] Hi. apply wp_clock_read. intros now w' Ht <- Hl. split; [done|].
  apply (inv_world d0 g w w' Hi). by apply quiet_same.
Qed.
Lemma hcalm_elsewhere {E} n : hcalm (elsewhere_http here n : M (HttpState * W) E unit).
Proof. apply calm_modify. intros t Hi. eapply gw_steps_inv; [exact Hi|]. by apply http_steps_gw. Qed.
Lemma hcalm_on_gateway {A} (m : M (Gw * W) Failure A) : gcalm m → hcalm (on_gateway m).
Proof. intros Hm. by apply calm_map_err, hcalm_gateway. Qed.
Lemma hcalm_body {A} (parse : string → option A) body : hcalm (body_of parse body).
Proof. apply calm_ok_or. Qed.
Hint Resolve hcalm_gateway hcalm_clock hcalm_elsewhere hcalm_on_gateway hcalm_body : calm.

Lemma guard_check_calm now method uri headers g : (guard_check now method uri headers g).1 ≠ Panic.
Proof.
  change (wp (guard_check now method uri headers) (λ r _, r ≠ Panic) g). unfold guard_check. by wp_steps.
Qed.
Lemma hcalm_checks instant request : hcalm (dispatch_checks config here instant request).
Proof.
  assert (hcalm (in_guard (guard_check instant request.(rq_method) request.(rq_uri) request.(rq_headers))))
    by apply hcalm_guard, guard_check_calm.
  unfold dispatch_checks, collect_body. calm_auto.
Qed.
Lemma hcalm_session access headers : hcalm (route_session config here access headers).
Proof.
  assert (∀ ctx scope, gcalm (authorized config ctx scope (ret tt))).
  { intros ctx scope. apply calm_authorized. intros i w Hi%irel_refl. by apply wp_ret. }
  unfold route_session, gateway_authenticate. calm_auto.
Qed.

(** The [long poll]: the answer drops the waiter. *)
Lemma hcalm_status_route late request : hcalm (status_route P here late request).
Proof.
  assert (gcalm (in_pairings (
      let! r := attempt (status_finish request) in
      update (status_drop request.(st_pairing_id));;
      match r with inl e => throw e | inr response => ret response end))) as Hfinish.
  { intros [[p i c] w] Hi. apply zoom_pairings_wp, wp_bind, wp_attempt.
    pose proof (calm_status_finish (W := W) d0 allowed request _ Hi) as Hspec.
    apply run_wp. intros r [p' w'] Hrun.
    assert (in_pairings (status_finish request) (mkGw p i c, w) = (r, (mkGw p' i c, w'))) as Hrun'.
    { unfold in_pairings, zoom. cbn [gw_pairings]. by rewrite Hrun. }
    destruct (wp_run _ _ _ _ _ Hspec Hrun') as [Hp Hi'].
    assert (gw_inv d0 (mkGw (status_drop (st_pairing_id request) p') i c, w')) as Hi''.
    { eapply gw_step_inv; [exact Hi'|]. apply gs_pairing, call_status_drop. }
    destruct r as [a|e|]; [| |by split; [intros _; apply Hp|]]; by apply wp_bind, wp_update. }
  unfold status_route. calm_auto.
Qed.

(** The cookie of a session is visible ASCII, so its header is always made. *)
Lemma session_cookie_visible id : header_from_str (session_cookie id) = Some (session_cookie id).
Proof.
  apply header_from_str_visible. unfold session_cookie, encode. rewrite !bytes_app.
  rewrite !Forall_app. split_and!;
    try (eapply Forall_impl; [apply (b64url_alphabet id)|]; simpl; intros b Hb;
         unfold is_ascii_digit, is_ascii_lowercase, is_ascii_uppercase, in_range in Hb; lia);
    repeat (constructor; [left; vm_compute; split; discriminate|]); constructor.
Qed.

(** What the routes give their handlers: a session to those that expect one. *)
Definition provided (handler : RouteHandler) (auth : option AuthContext) : Prop :=
  match handler with
  | ElevateOptions | ElevateFinish => is_Some auth
  | UpgradeHandler => False
  | _ => True
  end.
Lemma hcalm_handler late handler request auth body : provided handler auth →
  (handler = Claim → sas_exhausted → allowed) →
  hcalm (run_handler config P fs root here other inner late handler request auth body).
Proof.
  intros Hp Hsas. pose proof (λ request, hcalm_status_route late request). pose proof session_cookie_visible as Hc.
  destruct handler; simpl in Hp; try done; unfold run_handler.
  all: try (assert (∀ r agent, gcalm (in_pairings (pairings_claim r agent)))
    by (intros r agent; apply calm_claim; by apply Hsas)).
  all: try (destruct Hp as [ctx ->]; assert (hcalm (expect (E := Response) (Some ctx))) by by apply calm_expect).
  all: try (assert (∀ id, hcalm (expect (E := Response) (header_from_str (session_cookie id))))
    by (intros id; rewrite Hc; by apply calm_expect)).
  all: calm_auto.
Qed.
Lemma routes_provide : Forall (λ r, match rt_access r with
  | FirstFrame _ => True
  | SessionAccess _ => ∀ ctx, provided (rt_handler r) (Some ctx)
  | Public => provided (rt_handler r) None
  end) ROUTES.
Proof. repeat (constructor; [simpl; eauto|]); constructor. Qed.

Lemma hcalm_upgrade request : hcalm (let! s := gets fst in
  in_upgrades (E := Response) (λ u, let '(r, u) := respond handshake request (gw_identity (hs_gw s)) u in (Ok r, u))).
Proof.
  intros [[gd g u] w] Hi. apply wp_bind, wp_gets, wp_zoom, run_wp. simpl. intros r u' Hr.
  destruct (respond _ _ _ _). injection Hr as <- <-. by split.
Qed.
Lemma session_given scope headers t : wp (route_session config here (SessionAccess scope) headers)
  (λ r _, ∀ auth, r = Ok auth → ∃ ctx, auth = Some ctx) t.
Proof.
  unfold route_session. do 4 (apply wp_bind, run_wp; intros [?|?|] ? _; [|done..]).
  apply wp_ret. intros ? [= <-]. by eexists.
Qed.
(** The exception: the route of the claim, when the digests run out. *)
Definition claim_exhausted (request : HttpRequest) : Prop :=
  ∃ route, find_route request.(rq_method) (uri_path request.(rq_uri)) = Some route
  ∧ rt_handler route = Claim ∧ sas_exhausted.
Lemma hcalm_dispatch instant late request : (claim_exhausted request → allowed) →
  hcalm (dispatch config P fs root handshake here other inner instant late request).
Proof.
  intros Hclaim. unfold dispatch. apply calm_bind; [apply hcalm_checks|]. intros body t Hi. apply wp_bind, wp_ok_or.
  destruct (find_route _ _) as [route|] eqn:Hroute; [|by split].
  assert (rt_handler route = Claim → sas_exhausted → allowed) as Hsas by (intros; apply Hclaim; by exists route).
  apply List.find_some in Hroute as [Hin%list_elem_of_In _].
  pose proof (proj1 (Forall_forall _ _) routes_provide route Hin) as Hp. cbn beta in Hp.
  destruct (rt_access route) as [|scope|scope]; [| |by apply hcalm_upgrade].
  - by apply wp_bind, wp_ret, hcalm_handler.
  - apply wp_bind, run_wp. intros r t1 Hrun.
    destruct (wp_run _ _ _ _ _ (hcalm_session _ _ t Hi) Hrun) as [Hpanic Hi1].
    pose proof (wp_run _ _ _ _ _ (session_given scope _ t) Hrun) as Hgiven.
    destruct r as [auth|e|]; [|by split|by split; [intros _; apply Hpanic|]].
    destruct (Hgiven auth eq_refl) as [ctx ->]. by apply hcalm_handler.
Qed.
Lemma hcalm_handle {E} instant late request : (claim_exhausted request → allowed) →
  hcalm (handle (E := E) config P fs root handshake here other inner instant late request).
Proof. intros Hclaim. pose proof (hcalm_dispatch instant late request Hclaim). unfold handle. calm_auto. Qed.
End Requests.
