(* ===== verification/DispatchProps.v ===== *)
(** * What an answered request went through *)
From stdpp Require Import base gmap strings list fin_maps fin_sets relations.
From Stdlib Require Import ZArith Lia.
From S2P Require Import Prelude Steps Rust Externals Crates Clock Devices Admin Guard.
From S2P Require Import Events World Pairing PairingFacts PairingSpec Webauthn.
From S2P Require Import WebauthnFacts Session SessionInv SessionOps SessionLogin.
From S2P Require Import Authorize SessionSpec SessionProps Gateway GatewayFacts.
From S2P Require Import GatewayProps Http Dispatch DispatchSpec Calm.
Local Open Scope Z_scope.

Definition identity_of (gd : Guard) := (gd_host gd, gd_proxy_secret gd, gd_login gd, gd_origin gd).
Lemma guard_check_fixed `{Base64, Crypto, Http} now method uri headers gd :
  identity_of (guard_check now method uri headers gd).2 = identity_of gd.
Proof.
  change (wp (guard_check now method uri headers) (λ _ gd', identity_of gd' = identity_of gd) gd).
  unfold guard_check. wp_steps; unfold identity_of; by repeat case_match.
Qed.

Section Props.
Context `{Base64, !Base64Laws _, Crypto, !CryptoLaws _, Http, !HttpLaws _, Tokio, !Webauthn Transport, World W, !WorldLaws W}.
Context (d0 : gmap string Device).
Context (config : GwConfig) (P : HttpParsers) (fs : Files) (root : list string).
Context (handshake : HttpRequest → option Response).
Context (here : nat → HttpState * W → HttpState * W) (other inner : nat → Gw * W → Gw * W).
Hypothesis heres : ∀ n t, rtc http_step t (here n t).
Hypothesis others : ∀ n t, rtc gw_step t (other n t).
Hypothesis inners : ∀ n t, rtc free_step t (inner n t).
Implicit Types (t : HttpState * W).

(** Past the gateway's state and clock at [t]. *)
Definition later t t' : Prop := gw_inv d0 (gw_of t') ∧ world_time t.2 <= world_time t'.2.
Lemma later_steps t t1 t2 : later t t1 → rtc http_step t1 t2 → later t t2.
Proof.
  intros [Hi Ht] Hs%http_steps_gw. apply (gw_steps_spec d0) in Hs as [Hi' Ht']; [|done].
  split; [done|]. simpl in *. lia.
Qed.
Lemma elsewhere_http_wp {E} n t0 (Q : outcome E unit → HttpState * W → Prop) t :
  later t0 t → (∀ t', later t0 t' → Q (Ok tt) t') → wp (elsewhere_http here n) Q t.
Proof. intros Hl HQ. apply wp_modify, HQ. eapply later_steps, heres. exact Hl. Qed.
Lemma identity_http_wp {E A} (m : M (Identity * W) E A) (Q : outcome E A → HttpState * W → Prop) gd p i c u w :
  wp m (λ r (t' : Identity * W), Q r (mkHttpState gd (mkGw p t'.1 c) u, t'.2)) (i, w) →
  wp (in_gateway (in_identity m)) Q (mkHttpState gd (mkGw p i c) u, w).
Proof.
  intros Hm. apply wp_zoom, zoom_identity_wp. eapply wp_mono; [exact Hm|]. by intros r [i' w'].
Qed.

(** The request up to its body, between [t] and [t']. *)
Record vetted (instant : Z) (request : HttpRequest) t t' (body : string) : Prop := {
  vt_guard : (guard_check instant request.(rq_method) request.(rq_uri) request.(rq_headers) (hs_guard t.1)).1 = Ok tt;
  vt_enabled : ∃ now, world_time t.2 <= now <= world_time t'.2 ∧ now < enable_until (gc_policy config);
  vt_query : is_api_path (uri_path request.(rq_uri)) = true → request.(rq_query) = None;
  vt_length n : content_length request.(rq_headers) = Some n → n <= BODY_LIMIT;
  vt_body : request.(rq_body) = BodyRead_ body;
}.
Lemma checks_spec instant request t : gw_inv d0 (gw_of t) →
  wp (dispatch_checks config here instant request) (λ r t', later t t' ∧
    ∀ body, r = Ok body → vetted instant request t t' body) t.
Proof.
  intros Hi. unfold dispatch_checks. apply wp_bind, wp_map_err.
  destruct t as [[gd g u] w]. apply wp_zoom. simpl. apply run_wp. intros r gd' Hg.
  set (t := (mkHttpState gd g u, w)) in *.
  assert (later t (mkHttpState gd' g u, w)) as Hl by (split; [exact Hi|simpl; lia]).
  destruct r as [[]|e|]; [|by split|by split].
  apply wp_bind. eapply elsewhere_http_wp; [exact Hl|]. clear Hl Hi. intros [s1 w1] Hl.
  apply wp_bind, wp_clock_read. intros now w2 Ht <- Hlog.
  assert (later t (s1, w2)) as Hl2.
  { destruct Hl as [Hi1 Ht1]. simpl in *. split; [|simpl; lia]. eapply inv_world; [exact Hi1|].
    by apply quiet_same. }
  clear Hl. do 3 (apply wp_bind, wp_reject_if; match goal with |- if ?b then _ else _ =>
    let Hb := fresh "Hb" in destruct b eqn:Hb; [by split|] end).
  apply wp_bind, wp_modify. pose proof (later_steps t (s1, w2) _ Hl2 (heres 1%nat _)) as Hl3.
  assert (world_time w2 <= world_time (here 1%nat (s1, w2)).2) as Ht3.
  { apply (later_steps (s1, w2) (s1, w2)); [split; [apply Hl2|simpl; lia]|apply heres]. }
  unfold collect_body. destruct (rq_body request) as [| | |body] eqn:Hbody; try by split.
  apply wp_ret. split; [done|]. intros ? [= <-]. constructor; [subst t; simpl; by rewrite Hg| | | |done].
  - exists (world_time w2). destruct Hl2 as [_ Hl2]. simpl in Hl2. split; [done|lia].
  - intros Hapi. rewrite Hapi in *. destruct (rq_query request); [done|done].
  - intros n Hn. rewrite Hn in *. lia.
Qed.

Definition identity_at t : Identity := gw_identity (hs_gw t.1).

(** Someone who may: from [t1], cookie and binding token name a live session there,
    which leaves [t2]; the other tasks then run, and in the state they leave, [t3],
    the session is authorised again, for the scope, which leaves [t4]. *)
Record session_vetted (headers : HeaderMap) scope ctx t1 t2 t3 t4 : Prop := {
  sv_identified : in_gateway (gateway_authenticate config headers scope) t1 = (Ok ctx, t2);
  sv_host : ctx.(ctx_rp_id) = gc_rp_id config;
  sv_session : authenticated headers (gc_rp_id config) ctx (identity_at t1) (identity_at t2) (world_time t2.2);
  sv_elsewhere : t3 = here 2%nat t2;
  sv_granted : on_gateway (authorized config ctx scope (ret tt)) t3 = (Ok tt, t4);
  sv_admitted : ∃ first i0, world_time t3.2 <= first <= world_time t4.2
    ∧ recognised (gc_rp_id config) ctx (identity_at t3) i0 first
    ∧ admitted (gc_rp_id config) ctx scope i0 (identity_at t4) (world_time t4.2);
}.

(** The two critical sections of the session check. *)
Lemma authenticate_section headers scope t0 t : later t0 t →
  wp (in_gateway (gateway_authenticate config headers scope)) (λ r t', r ≠ Panic ∧ later t0 t' ∧
    ∀ ctx, r = Ok ctx → ctx.(ctx_rp_id) = gc_rp_id config
      ∧ authenticated headers (gc_rp_id config) ctx (identity_at t) (identity_at t') (world_time t'.2)) t.
Proof.
  intros Hl. destruct t as [[gd [p i c] u] w]. destruct Hl as [Hi Ht]. simpl in Ht.
  apply identity_http_wp. eapply authenticate_spec; [apply irel_refl, Hi|].
  intros r i1 w1 Hnp Hr1 _ Hauth. split; [done|]. split; [|exact Hauth].
  split; [eapply identity_inv; [exact Hi|exact Hr1]|]. pose proof (ir_time _ _ _ Hr1). simpl in *. lia.
Qed.
Lemma authorized_section ctx scope t0 t : later t0 t →
  wp (on_gateway (authorized config ctx scope (ret tt))) (λ r t', later t0 t' ∧
    (r = Ok tt → ∃ first i0, world_time t.2 <= first <= world_time t'.2
       ∧ recognised (gc_rp_id config) ctx (identity_at t) i0 first
       ∧ admitted (gc_rp_id config) ctx scope i0 (identity_at t') (world_time t'.2))) t.
Proof.
  intros Hl. destruct t as [[gd [p i c] u] w]. destruct Hl as [Hi Ht]. simpl in Ht.
  apply wp_map_err, identity_http_wp. eapply with_authorized_spec; [apply irel_refl, Hi| |].
  - intros e i3 w3 Hr3 _. split; [|done]. split; [eapply identity_inv; [exact Hi|exact Hr3]|].
    pose proof (ir_time _ _ _ Hr3). simpl in *. lia.
  - intros first i0 i4 w4 Hr4 _ Hf Hf' Hrec Had. apply wp_ret. split.
    + split; [eapply identity_inv; [exact Hi|exact Hr4]|]. simpl. lia.
    + intros _. by exists first, i0.
Qed.

Lemma session_spec access headers t0 t : later t0 t →
  wp (route_session config here access headers) (λ r t', later t0 t' ∧
    ∀ auth, r = Ok auth → match access with
      | SessionAccess scope => ∃ ctx t2 t3 t4, auth = Some ctx ∧ session_vetted headers scope ctx t t2 t3 t4
          ∧ t' = here 3%nat t4
      | _ => auth = None ∧ t' = t end) t.
Proof.
  intros Hl. unfold route_session.
  destruct access as [|scope|scope]; [by apply wp_ret; split; [|intros ? [= <-]]| |by apply wp_ret; split; [|intros ? [= <-]]].
  apply wp_bind, wp_map_err, run_wp. intros r t2 Hrun.
  destruct (wp_run _ _ _ _ _ (authenticate_section headers scope t0 t Hl) Hrun) as (Hnp & Hl2 & Hauth).
  destruct r as [ctx|e|]; [|by split|done]. destruct (Hauth ctx eq_refl) as [Hrp Hau].
  apply wp_bind, wp_modify. pose proof (later_steps _ _ _ Hl2 (heres 2%nat t2)) as Hl3.
  apply wp_bind, run_wp. intros r t4 Hrun'.
  destruct (wp_run _ _ _ _ _ (authorized_section ctx scope t0 _ Hl3) Hrun') as (Hl4 & Had).
  destruct r as [[]|e|]; [|by split..]. apply wp_bind, wp_modify, wp_ret.
  split; [eapply later_steps, heres; exact Hl4|]. intros ? [= <-].
  exists ctx, t2, (here 2%nat t2), t4. split; [done|]. split; [|done]. constructor; try done. by apply Had.
Qed.

(** C11. A handler only runs for a request that went through everything before it.
    If a route answers, then the checks of [dispatch_checks] ran from [t] to [t1]:
    the guard of [t] let the request pass, the policy was in force at a time between
    the two, an API request had no query, the announced and the collected body were
    within the limit; and the route is the one of the table for that method and path.
    If the route asks for a session, cookie and binding token named a live session in
    [t1], and in [t3], which is what the other tasks left, that session was authorised
    again, for the scope of the route; the handler then ran, with the context of that
    session, from the state [t4] that check left (once the other tasks had their
    turn), and its answer is the answer.  Any other handler ran from [t1], without a
    session. *)
Theorem answered_request instant late request t r t' : gateway_reachable d0 (gw_of t) →
  dispatch config P fs root handshake here other inner instant late request t = (Ok r, t') →
  ∃ body route t1, dispatch_checks config here instant request t = (Ok body, t1)
    ∧ vetted instant request t t1 body
    ∧ find_route request.(rq_method) (uri_path request.(rq_uri)) = Some route
    ∧ match route.(rt_access) with
      | SessionAccess scope => ∃ ctx t2 t3 t4,
          session_vetted request.(rq_headers) scope ctx t1 t2 t3 t4
          ∧ run_handler config P fs root here other inner late route.(rt_handler) request (Some ctx) body
              (here 3%nat t4) = (Ok r, t')
      | Public =>
          run_handler config P fs root here other inner late route.(rt_handler) request None body t1 = (Ok r, t')
      | FirstFrame _ => r = (respond handshake request (identity_at t1) (hs_upgrades t1.1)).1
      end.
Proof.
  intros Hi%gateway_reachable_inv Hrun.
  enough (wp (dispatch config P fs root handshake here other inner instant late request)
    (λ a t', ∀ x, a = Ok x → ∃ body route t1, dispatch_checks config here instant request t = (Ok body, t1)
    ∧ vetted instant request t t1 body
    ∧ find_route request.(rq_method) (uri_path request.(rq_uri)) = Some route
    ∧ match route.(rt_access) with
      | SessionAccess scope => ∃ ctx t2 t3 t4,
          session_vetted request.(rq_headers) scope ctx t1 t2 t3 t4
          ∧ run_handler config P fs root here other inner late route.(rt_handler) request (Some ctx) body
              (here 3%nat t4) = (Ok x, t')
      | Public =>
          run_handler config P fs root here other inner late route.(rt_handler) request None body t1 = (Ok x, t')
      | FirstFrame _ => x = (respond handshake request (identity_at t1) (hs_upgrades t1.1)).1
      end) t) as Hwp by by apply (wp_run _ _ _ _ _ Hwp Hrun r).
  unfold dispatch. apply wp_bind, run_wp. intros a t1 Hchecks.
  destruct (wp_run _ _ _ _ _ (checks_spec instant request t Hi) Hchecks) as [Hl1 Hv].
  destruct a as [body|e|]; [|done..]. specialize (Hv body eq_refl).
  apply wp_bind, wp_ok_or. destruct (find_route _ _) as [route|] eqn:Hroute; [|done].
  destruct (rt_access route) as [|scope|scope] eqn:Hacc.
  - apply wp_bind, wp_ret, run_wp. intros a t2 Hh x ->. exists body, route, t1. rewrite Hacc. by split_and!.
  - apply wp_bind. eapply wp_mono; [by apply (session_spec _ _ t)|]. intros a t2 [_ Hs].
    destruct a as [auth|e|]; [|done..]. destruct (Hs auth eq_refl) as (ctx & t3 & t4 & t5 & -> & Hctx & ->).
    apply run_wp. intros a t6 Hh x ->. exists body, route, t1. rewrite Hacc. split_and!; try done.
    by exists ctx, t3, t4, t5.
  - apply wp_bind, wp_gets, run_wp. intros a t2 Hresp x ->. exists body, route, t1. rewrite Hacc. split_and!; try done.
    destruct t1 as [[gd g u] w1]. unfold in_upgrades, zoom in Hresp. simpl in Hresp.
    change (identity_at (mkHttpState gd g u, w1)) with (gw_identity g). simpl.
    destruct (respond _ _ _ _) as [resp u']. by injection Hresp as -> _.
Qed.

(** C38. Serving keeps the gateway's invariant, and every request is answered.
    Whatever is requested and however the requests interleave, the gateway stays
    reachable, time does not go back, and the guard keeps its secret, host, login and
    origin.  The request ends in a response (an error of a handler is one): no
    handler panics, the one exception being a claim whose authentication string finds
    no digest, when the digests of its code run out. *)
Theorem serving_invariant instant late request t r t' : gateway_reachable d0 (gw_of t) →
  handle (E := Empty_set) config P fs root handshake here other inner instant late request t = (r, t') →
  gateway_reachable d0 (gw_of t') ∧ world_time t.2 <= world_time t'.2
  ∧ identity_of (hs_guard t'.1) = identity_of (hs_guard t.1)
  ∧ ((∃ response, r = Ok response) ∨ r = Panic ∧
     ∃ route, find_route request.(rq_method) (uri_path request.(rq_uri)) = Some route ∧ rt_handler route = Claim
       ∧ ∃ secret nonce gateway, derive_sas secret nonce gateway = None).
Proof.
  intros Hr Hrun.
  pose proof (halong_handle config P fs root handshake here other inner heres others inners
    (E := Empty_set) instant late request t) as Hsteps.
  rewrite Hrun in Hsteps. simpl in Hsteps.
  split; [|split; [|split]].
  - destruct Hr as (t0 & Ht0 & Hs). exists t0. split; [done|]. etrans; [exact Hs|]. by apply http_steps_gw.
  - apply (later_steps t t t' ltac:(split; [by apply gateway_reachable_inv|lia]) Hsteps).
  - clear -Hsteps. induction Hsteps as [t|t1 t2 t3 H12 _ IH]; [done|]. rewrite IH. destruct H12; [done| |done].
    apply guard_check_fixed.
  - assert (gw_inv d0 (gw_of t)) as Hi by by apply gateway_reachable_inv.
    destruct (wp_run _ _ _ _ _ (hcalm_handle d0 config P fs root handshake here other inner heres others inners
      (claim_exhausted request) (E := Empty_set) instant late request id t Hi) Hrun) as [Hp _].
    destruct r as [response|[]|]; [left; by exists response|right; split; [done|by apply Hp]].
Qed.
End Props.

(** * A logout and a few other requests, computed *)
Definition demo_parsers : HttpParsers :=
  mkHttpParsers (λ _, None) (λ _, None) (λ _, None) (λ _, None) (λ s, if bool_decide (s = "{}") then Some tt else None)
    (λ _, None) (λ _, None) (λ _, None) (λ _, Some "{}").
(** A web root of one script, and a link that leads out of it. *)
Definition demo_files : Files := mkFiles
  (λ root relative, if bool_decide (relative = "assets/app.js") then Some (root ++ ["assets"; "app.js"])
     else if bool_decide (relative = "assets/link") then Some ["etc"; "passwd"] else None)
  (λ path, if bool_decide (path = ["srv"; "web"; "assets"; "app.js"]) then Some (true, "app()")
     else if bool_decide (path = ["etc"; "passwd"]) then Some (true, "root") else None).
Definition demo_root : list string := ["srv"; "web"].
Definition demo_handshake (_ : HttpRequest) : option Response := Some (of_status 101).

Definition demo_http (g : Gw) : HttpState := mkHttpState sim_guard g upgrades_new.
Definition idle (_ : nat) (t : HttpState * SimWorld) : HttpState * SimWorld := t.
Lemma idle_steps n t : rtc http_step t (idle n t).
Proof. apply rtc_refl. Qed.
Definition demo_request (path : string) (headers : HeaderMap) : HttpRequest :=
  mkHttpRequest "POST" (mkUri path false false) None
    (sim_headers ++ ("origin", "https://host.ts.net") :: headers) (BodyRead_ "{}").
Definition demo_logout : HttpRequest := demo_request "/api/auth/logout" phone_headers.
Definition demo_dispatch := dispatch phone_config demo_parsers demo_files demo_root demo_handshake idle nobody nobody 5 false.
Definition demo_handle := handle (E := Empty_set) phone_config demo_parsers demo_files demo_root demo_handshake idle nobody nobody 5 false.
Definition http_t0 : HttpState * SimWorld := (demo_http phone_t10.1, phone_t10.2).

Lemma gw_of_http (g : Gw) (w : SimWorld) : gw_of (demo_http g, w) = (g, w).
Proof. reflexivity. Qed.
Lemma http_t0_reachable : gateway_reachable (i_devices demo_identity) (gw_of http_t0).
Proof.
  unfold http_t0. rewrite gw_of_http, <-surjective_pairing. exact phone_reachable10.
Qed.
Lemma demo_pair_eq {A B} (p : A * B) a : p.1 = a → p = (a, p.2).
Proof. by destruct p; intros <-. Qed.
Definition logged_out : Response := mkResponse NO_CONTENT [("set-cookie", clear_cookie)] BodyEmpty.
Lemma logout_run : demo_dispatch demo_logout http_t0 = (Ok logged_out, (demo_dispatch demo_logout http_t0).2).
Proof. apply demo_pair_eq. vm_cast_no_check (eq_refl (Ok logged_out : outcome Response Response)). Qed.

Lemma routes_unambiguous_witness :
  shell "/assets/*" ∈ ROUTES ∧ route_matches (shell "/assets/*") "/assets/app.js" = true
  ∧ (rt_method (shell "/assets/*") = "GET" ↔ rt_handler (shell "/assets/*") ∈ [Static; UpgradeHandler]).
Proof.
  assert (shell "/assets/*" ∈ ROUTES) as Hin by (apply (list_elem_of_lookup_2 ROUTES 5); reflexivity).
  split; [exact Hin|]. split; [reflexivity|].
  exact (proj1 (proj2 (proj2 (routes_unambiguous (shell "/assets/*") (shell "/assets/*") "/assets/app.js"
    Hin Hin eq_refl eq_refl)))).
Defined.

Lemma static_confined_witness :
  rs_body (static_file demo_files demo_root "/assets/app.js") = BodyBytes "app()"
  ∧ rs_status (static_file demo_files demo_root "/assets/link") = NOT_FOUND
  ∧ ∃ relative, static_relative "/assets/app.js" = Some relative.
Proof.
  split; [vm_compute; reflexivity|]. split; [vm_compute; reflexivity|].
  destruct (static_confined demo_files demo_root "/assets/app.js" (static_file demo_files demo_root "/assets/app.js")
    eq_refl ltac:(vm_compute; discriminate)) as (_ & _ & relative & _ & _ & Hr & _).
  exists relative. exact Hr.
Defined.

Lemma answers_hardened_witness :
  header "cache-control" (harden true logged_out) = ["no-store"].
Proof.
  apply (answers_hardened phone_config demo_parsers demo_files demo_root demo_handshake idle nobody nobody
    5 false demo_logout http_t0 (harden true logged_out)
    (handle (E := unit) phone_config demo_parsers demo_files demo_root demo_handshake idle nobody nobody 5 false
       demo_logout http_t0).2).
  - apply demo_pair_eq.
    vm_cast_no_check (eq_refl (Ok (harden true logged_out) : outcome unit Response)).
  - left. vm_compute. reflexivity.
Defined.

Definition full_upgrades : UpgradeSys := mkUpgradeSys (Nat.iter 16 (λ u,
  (respond demo_handshake (demo_request "/ws" phone_headers) demo_identity u).2) upgrades_new) 0.
Lemma full_upgrades_steps : rtc upgrade_step (mkUpgradeSys upgrades_new 0) full_upgrades.
Proof.
  unfold full_upgrades. generalize 16%nat. intros n. induction n as [|n IH]; [apply rtc_refl|].
  eapply rtc_r; [exact IH|]. apply us_respond.
Qed.
Lemma upgrades_bounded_witness :
  (length (chan_queue (ug_pending (us_upgrades full_upgrades))) + us_running full_upgrades ≤ 16)%nat.
Proof.
  exact (proj1 (upgrades_bounded full_upgrades demo_handshake (demo_request "/ws" []) demo_identity full_upgrades_steps)).
Defined.

Lemma answered_request_witness :
  (demo_dispatch demo_logout http_t0).1 = Ok logged_out
  ∧ ∃ ctx t1 t2 t3 t4, session_vetted phone_config idle (rq_headers demo_logout) View ctx t1 t2 t3 t4.
Proof.
  split; [rewrite logout_run; reflexivity|].
  destruct (answered_request (i_devices demo_identity) phone_config demo_parsers demo_files demo_root demo_handshake
    idle nobody nobody idle_steps 5 false demo_logout http_t0 logged_out
    (demo_dispatch demo_logout http_t0).2 http_t0_reachable logout_run) as (body & route & t1 & _ & _ & Hr & Hs).
  injection Hr as <-. destruct Hs as (ctx & t2 & t3 & t4 & Hs & _). exists ctx, t1, t2, t3, t4. exact Hs.
Defined.

Lemma serving_invariant_witness :
  gateway_reachable (i_devices demo_identity) (gw_of (demo_handle demo_logout http_t0).2)
  ∧ size (i_sessions (gw_identity (hs_gw http_t0.1))) = 1%nat
  ∧ size (i_sessions (gw_identity (hs_gw (demo_handle demo_logout http_t0).2.1))) = 0%nat.
Proof.
  split; [|split; [vm_cast_no_check (eq_refl 1%nat)|vm_cast_no_check (eq_refl 0%nat)]].
  apply (serving_invariant (i_devices demo_identity) phone_config demo_parsers demo_files demo_root demo_handshake
    idle nobody nobody idle_steps nobody_steps nobody_free 5 false demo_logout http_t0
    (demo_handle demo_logout http_t0).1 (demo_handle demo_logout http_t0).2 http_t0_reachable).
  apply surjective_pairing.
Defined.
