(* ===== verification/Runs.v ===== *)
(** * Computing a run by rewriting

    Where a theorem says what a handler returns on a given state, its run is
    unfolded one call at a time with these equations. *)

From stdpp Require Import base list.
From S2P Require Import Prelude.

Create Rewrite HintDb run.

Section Runs.
Context {St E : Type}.
Implicit Types s : St.

Lemma run_ret {A B} (a : A) (k : A → M St E B) s : bind (ret a) k s = k a s.
Proof. done. Qed.
Lemma run_throw {A B} (e : E) (k : A → M St E B) s : bind (throw e) k s = (Err e, s).
Proof. done. Qed.
Lemma run_gets {A B} (f : St → A) (k : A → M St E B) s : bind (gets f) k s = k (f s) s.
Proof. done. Qed.
Lemma run_modify {B} f (k : unit → M St E B) s : bind (modify f) k s = k tt (f s).
Proof. done. Qed.
Lemma run_ok_or {A B} (e : E) (o : option A) (k : A → M St E B) s :
  bind (ok_or e o) k s = match o with Some a => k a s | None => (Err e, s) end.
Proof. by destruct o. Qed.
Lemma run_expect {A B} (o : option A) (k : A → M St E B) s :
  bind (expect o) k s = match o with Some a => k a s | None => (Panic, s) end.
Proof. by destruct o. Qed.
Lemma run_reject_if {B} b (e : E) (k : unit → M St E B) s :
  bind (reject_if b e) k s = if b then (Err e, s) else k tt s.
Proof. by destruct b. Qed.
Lemma run_bind {A B C} (m : M St E A) (k : A → M St E B) (h : B → M St E C) s :
  bind (bind m k) h s = bind m (λ a, bind (k a) h) s.
Proof. unfold bind. by destruct (m s) as [[a|e|] t]. Qed.
Lemma run_ok {A B} (m : M St E A) (k : A → M St E B) s a t :
  m s = (Ok a, t) → bind m k s = k a t.
Proof. intros Hm. unfold bind. by rewrite Hm. Qed.
Lemma run_err {A B} (m : M St E A) (k : A → M St E B) s e t :
  m s = (Err e, t) → bind m k s = (Err e, t).
Proof. intros Hm. unfold bind. by rewrite Hm. Qed.
Lemma run_if {A B} (b : bool) (m n : M St E A) (k : A → M St E B) s :
  bind (if b then m else n) k s = if b then bind m k s else bind n k s.
Proof. by destruct b. Qed.
End Runs.

Lemma run_attempt {St E E' A B} (m : M St E' A) (k : E' + A → M St E B) s r t :
  m s = (r, t) →
  bind (attempt m) k s = match r with Ok a => k (inr a) t | Err e => k (inl e) t | Panic => (Panic, t) end.
Proof. intros Hm. unfold bind, attempt. rewrite Hm. by destruct r. Qed.
Lemma run_map_err {St E E' A B} (f : E → E') (m : M St E A) (k : A → M St E' B) s r t :
  m s = (r, t) →
  bind (map_err f m) k s = match r with Ok a => k a t | Err e => (Err (f e), t) | Panic => (Panic, t) end.
Proof. intros Hm. unfold bind, map_err. rewrite Hm. by destruct r. Qed.

#[export] Hint Rewrite @run_ret @run_throw @run_gets @run_modify @run_ok_or @run_expect @run_reject_if @run_bind : run.
Tactic Notation "run" := autorewrite with run.
