(* ===== verification/Wire.v ===== *)
(** * [bridge.rs] and [read_bridge.rs]: what waits to be written to a peer

    Replies and events wait in one queue of 256 messages ([Outbound]), frames of
    live streams in another of 2048 that the host's callbacks fill ([Sink]).
    Every byte that waits or is being written holds a permit: of the reply
    reserve, or of a budget the replies share with all streams; a frame also
    holds one of its stream's slots and as many bytes of its stream. *)

From stdpp Require Import base gmap strings list.
From Stdlib Require Import ZArith Lia.
From S2P Require Import Prelude Rust Externals Clock Devices Admin Events World Herdr Http.

Local Open Scope Z_scope.

Definition MESSAGE_BYTES : Z := 64 * 1024.
Definition OUTBOUND_BYTES : Z := 4 * 1024 * 1024.
Definition WRITE_BUFFER_BYTES : Z := MESSAGE_BYTES + 1024.
Definition REPLY_HEADROOM : Z := 128 * 1024.
Definition OUTBOUND_QUEUE : nat := 256.
Definition MAX_STREAMS : nat := 8.
Definition STREAM_FRAMES : nat := 256.
Definition STREAM_BYTES : Z := 384 * 1024.

(** [usize as u32] *)
Definition as_u32 (n : Z) : Z := n mod (u32_max + 1).
(** [u32::to_be_bytes], [u32::from_be_bytes] of the first four bytes *)
Definition u32_be (n : Z) : string :=
  of_bytes [n / 16777216 mod 256; n / 65536 mod 256; n / 256 mod 256; n mod 256].
Definition be_u32 (b : string) : option Z :=
  match bytes b with
  | a :: b :: c :: d :: _ => Some (a * 16777216 + b * 65536 + c * 256 + d)
  | _ => None
  end.

(** [Message::len]: the payload. *)
Definition message_len (m : Message) : Z :=
  match m with
  | MText s | MBinary s | MPing s | MPong s => len s
  | MClose (Some (_, reason)) => len reason
  | MClose None => 0
  end.
(** What a message costs: its bytes and a frame header. *)
Definition cost (m : Message) : Z := message_len m + 16.

(** The host's events, as its callbacks deliver them. *)
Inductive HerdrTerminalEvent :=
| TerminalFrame (session_id : string) (seq : Z) (full : bool) (encoding : string) (width height : Z)
    (bytes_base64 : string)
| TerminalClosed (session_id : string) (reason : option string)
| TerminalResync (session_id : string) (expected_seq received_seq : option Z) (message : string)
| TerminalError (session_id code message : string).
Inductive HerdrSubscriptionEvent :=
| Subscribed (subscription_id : string)
| AgentStatusChanged (subscription_id pane_id workspace_id agent_status : string)
    (agent display_agent title : option string) (state_labels : list (string * string))
| PaneExited (subscription_id pane_id workspace_id : string)
| WorktreeChanged (subscription_id kind : string) (workspace_id : option string)
| TopologyChanged (subscription_id kind : string) (workspace_id tab_id : option string)
| SubscriptionError (subscription_id message : string)
| Disconnected (subscription_id : string) (reason : option string).

(** ** The state of one peer's wire *)

(** [Life] *)
Record Life := mkLife { lf_alive : bool; lf_invalidated : bool; lf_stop : Z }.
Definition life_active (l : Life) : bool :=
  l.(lf_alive) && negb l.(lf_invalidated) && (l.(lf_stop) =? 0).

(** The two semaphores a permit of a queued message can be of. *)
Inductive Reserve := ReplyReserve | SharedReserve.

Section State.
Context `{Tokio, Budgets}.

(** [StreamState]; [sst_notified] is the permit that [ready_changed] stores. *)
Record StreamState := mkStreamState {
  sst_closed : option string;
  sst_ready : bool;
  sst_notified : bool;
  sst_slots : Sem;
  sst_bytes : Budget;
  sst_deadline : option Timestamp;
}.
Definition stream_state_new (deadline : option Timestamp) : StreamState :=
  mkStreamState None false false (sem_new STREAM_FRAMES) (budget_new STREAM_BYTES) deadline.
Definition set_closed v s := mkStreamState v s.(sst_ready) s.(sst_notified) s.(sst_slots) s.(sst_bytes) s.(sst_deadline).
Definition set_ready v s := mkStreamState s.(sst_closed) v s.(sst_notified) s.(sst_slots) s.(sst_bytes) s.(sst_deadline).
Definition set_notified v s := mkStreamState s.(sst_closed) s.(sst_ready) v s.(sst_slots) s.(sst_bytes) s.(sst_deadline).
Definition set_permits slots bytes s :=
  mkStreamState s.(sst_closed) s.(sst_ready) s.(sst_notified) slots bytes s.(sst_deadline).

(** [Queued]: [_bytes] is the reserve it is of and how many, [_batch] says that it
    holds a share of the permit for chunked replies. *)
Record Queued := mkQueued { qd_message : Message; qd_reserve : Reserve; qd_bytes : Z; qd_batch : bool }.
(** [StreamFrame]: its three permits follow from the message; [sf_stream] is the
    stream whose state it holds. *)
Record StreamFrame := mkStreamFrame { sf_stream : Z; sf_message : Message }.
(** What the writer holds while it writes. *)
Inductive Writing := WritingQueued (q : Queued) | WritingFrame (f : StreamFrame).
Definition writing_message (w : Writing) : Message :=
  match w with WritingQueued q => q.(qd_message) | WritingFrame f => f.(sf_message) end.

(** [wr_bytes] is [Outbound::bytes], which [Reads] and every [Sink] share;
    [wr_batch] is the strong count of [_batch]; the [StreamState]s are named by
    the number of their stream; [wr_changed] is the permit of [Reads::changed];
    [wr_sent] is what was handed to the socket so far. *)
Record Wire := mkWire {
  wr_life : Life;
  wr_queue : Chan Queued;
  wr_bytes : Budget;
  wr_reply_bytes : Budget;
  wr_chunked : Sem;
  wr_batch : nat;
  wr_states : gmap Z StreamState;
  wr_frames : Chan StreamFrame;
  wr_held : option StreamFrame;
  wr_changed : bool;
  wr_writing : option Writing;
  wr_sent : list Message;
}.
Definition set_life v s := mkWire v s.(wr_queue) s.(wr_bytes) s.(wr_reply_bytes) s.(wr_chunked) s.(wr_batch)
  s.(wr_states) s.(wr_frames) s.(wr_held) s.(wr_changed) s.(wr_writing) s.(wr_sent).
Definition set_queue v s := mkWire s.(wr_life) v s.(wr_bytes) s.(wr_reply_bytes) s.(wr_chunked) s.(wr_batch)
  s.(wr_states) s.(wr_frames) s.(wr_held) s.(wr_changed) s.(wr_writing) s.(wr_sent).
Definition set_bytes v s := mkWire s.(wr_life) s.(wr_queue) v s.(wr_reply_bytes) s.(wr_chunked) s.(wr_batch)
  s.(wr_states) s.(wr_frames) s.(wr_held) s.(wr_changed) s.(wr_writing) s.(wr_sent).
Definition set_reply_bytes v s := mkWire s.(wr_life) s.(wr_queue) s.(wr_bytes) v s.(wr_chunked) s.(wr_batch)
  s.(wr_states) s.(wr_frames) s.(wr_held) s.(wr_changed) s.(wr_writing) s.(wr_sent).
Definition set_chunked v n s := mkWire s.(wr_life) s.(wr_queue) s.(wr_bytes) s.(wr_reply_bytes) v n
  s.(wr_states) s.(wr_frames) s.(wr_held) s.(wr_changed) s.(wr_writing) s.(wr_sent).
Definition set_states v s := mkWire s.(wr_life) s.(wr_queue) s.(wr_bytes) s.(wr_reply_bytes) s.(wr_chunked)
  s.(wr_batch) v s.(wr_frames) s.(wr_held) s.(wr_changed) s.(wr_writing) s.(wr_sent).
Definition set_frames v h s := mkWire s.(wr_life) s.(wr_queue) s.(wr_bytes) s.(wr_reply_bytes) s.(wr_chunked)
  s.(wr_batch) s.(wr_states) v h s.(wr_changed) s.(wr_writing) s.(wr_sent).
Definition set_changed v s := mkWire s.(wr_life) s.(wr_queue) s.(wr_bytes) s.(wr_reply_bytes) s.(wr_chunked)
  s.(wr_batch) s.(wr_states) s.(wr_frames) s.(wr_held) v s.(wr_writing) s.(wr_sent).
Definition set_writing v sent s := mkWire s.(wr_life) s.(wr_queue) s.(wr_bytes) s.(wr_reply_bytes) s.(wr_chunked)
  s.(wr_batch) s.(wr_states) s.(wr_frames) s.(wr_held) s.(wr_changed) v sent.

(** [Outbound::new] and the wire's part of [Reads::new] *)
Definition SHARED_BYTES : Z := OUTBOUND_BYTES - WRITE_BUFFER_BYTES - REPLY_HEADROOM.
Definition wire_new (invalidated : bool) (stop : Z) : Wire :=
  mkWire (mkLife true invalidated stop) (chan_new OUTBOUND_QUEUE) (budget_new SHARED_BYTES)
    (budget_new REPLY_HEADROOM) (sem_new 1) 0 ∅ (chan_new (MAX_STREAMS * STREAM_FRAMES)) None false None [].

(** A change of a stream's state, wherever it is held. *)
Definition on_state (id : Z) (f : StreamState → StreamState) (s : Wire) : Wire :=
  match s.(wr_states) !! id with
  | Some state => set_states (<[id := f state]> s.(wr_states)) s
  | None => s
  end.

(** The drop of the permits: bytes of a reserve, a share of the batch, the three
    of a frame. *)
Definition give_bytes (r : Reserve) (n : Z) (s : Wire) : Wire :=
  match r with
  | ReplyReserve => set_reply_bytes (budget_give n s.(wr_reply_bytes)) s
  | SharedReserve => set_bytes (budget_give n s.(wr_bytes)) s
  end.
Definition drop_batch (s : Wire) : Wire :=
  match s.(wr_batch) with
  | S O => set_chunked (sem_release s.(wr_chunked)) O s
  | n => set_chunked s.(wr_chunked) (pred n) s
  end.
Definition drop_queued (q : Queued) (s : Wire) : Wire :=
  let s := give_bytes q.(qd_reserve) q.(qd_bytes) s in
  if q.(qd_batch) then drop_batch s else s.
Definition drop_frame (f : StreamFrame) (s : Wire) : Wire :=
  let n := as_u32 (cost f.(sf_message)) in
  on_state f.(sf_stream) (λ t, set_permits (sem_release t.(sst_slots)) (budget_give n t.(sst_bytes)) t)
    (give_bytes SharedReserve n s).
Definition drop_writing (w : Writing) (s : Wire) : Wire :=
  match w with WritingQueued q => drop_queued q s | WritingFrame f => drop_frame f s end.

(** [StreamState::close] *)
Definition close_stream (id : Z) (reason : string) (s : Wire) : Wire :=
  set_changed true
    (on_state id (λ t, set_notified true
       (set_closed (Some (default reason t.(sst_closed))) t)) s).
(** [ready.store(true)] and the notification after it *)
Definition make_ready (id : Z) : Wire → Wire := on_state id (λ t, set_notified true (set_ready true t)).
End State.

(** ** [Outbound] *)
Section Outbound.
Context `{Tokio, Budgets, Json}.

(** [Outbound::reply_permit] *)
Definition reply_permit (size : Z) : M Wire string Reserve :=
  let n := as_u32 size in
  let! s := gets id in
  match budget_take n s.(wr_reply_bytes) with
  | Some b => modify (set_reply_bytes b);; ret ReplyReserve
  | None =>
      match budget_take n s.(wr_bytes) with
      | Some b => modify (set_bytes b);; ret SharedReserve
      | None => throw "busy"
      end
  end.

(** [self.sender.try_send(..)]; a refused message is dropped. *)
Definition push_queued {E} (e : E) (q : Queued) : M Wire E unit :=
  let! s := gets id in
  match chan_try_send q s.(wr_queue) with
  | Some c => modify (set_queue c)
  | None => modify (drop_queued q);; throw e
  end.

(** [Outbound::send] *)
Definition TOO_LARGE : Close := mkClose 1009 "payload-too-large".
Definition outbound_send (m : Message) : M Wire Close unit :=
  let size := message_len m in
  reject_if (MESSAGE_BYTES <? size) TOO_LARGE;;
  let! r := map_err (λ _, SLOW) (reply_permit (size + 16)) in
  push_queued SLOW (mkQueued m r (as_u32 (size + 16)) false).

(** The last loop of [Outbound::batch]: [left] is what [permits] still holds. *)
Fixpoint batch_push (r : Reserve) (chunked : bool) (messages : list Message) (left : Z) : M Wire string unit :=
  match messages with
  | [] => modify (give_bytes r left)
  | m :: messages =>
      if left <? cost m then panic
      else
        (if chunked then modify (λ s, set_chunked s.(wr_chunked) (S s.(wr_batch)) s) else ret tt);;
        let! sent := attempt (E' := string) (push_queued "busy" (mkQueued m r (cost m) chunked)) in
        match sent with
        | inl e => modify (give_bytes r (left - cost m));; throw e
        | inr _ => batch_push r chunked messages (left - cost m)
        end
  end.

(** [Value::to_string] of each reply *)
Definition texts (replies : list Value) : M Wire string (list Message) :=
  expect (mapM (λ v, MText <$> json_to_vec v) replies).

(** [Outbound::batch] between the batch permit and its drop *)
Definition batch_body (chunked : bool) (replies : list Value) : M Wire string unit :=
  let! messages := texts replies in
  reject_if (existsb (λ m, MESSAGE_BYTES <? message_len m) messages) "payload-too-large";;
  let! s := gets id in
  reject_if (bool_decide (chan_free s.(wr_queue) < length messages)%nat) "busy";;
  let total := foldr (λ m n, cost m + n) 0 messages in
  if chunked then
    let! b := ok_or "busy" (budget_take (as_u32 total) s.(wr_bytes)) in
    modify (set_bytes b);;
    batch_push SharedReserve true messages (as_u32 total)
  else
    let! r := reply_permit total in
    batch_push r false messages (as_u32 total).

(** [Outbound::batch] *)
Definition is_chunked (replies : list Value) : bool :=
  match replies with
  | reply :: _ => match value_index "chunked" (value_index "result" reply) with VBool true => true | _ => false end
  | [] => false
  end.
Definition outbound_batch (replies : list Value) : M Wire string unit :=
  if bool_decide (replies = []) then ret tt
  else if is_chunked replies then
    let! s := gets id in
    let! c := ok_or "busy" (sem_try_acquire s.(wr_chunked)) in
    modify (set_chunked c 1);;
    let! r := attempt (E' := string) (batch_body true replies) in
    modify drop_batch;;
    match r with inl e => throw e | inr _ => ret tt end
  else batch_body false replies.

(** [rpc_error] *)
Definition rpc_error (id : Value) (code message : string) : Value :=
  VObject [("id", id); ("error", VObject [("code", VString code); ("message", VString message)])].

(** [Outbound::replies] *)
Definition REPLY_QUEUE_FULL : Close := mkClose 1008 "reply-queue-full".
Definition outbound_replies (replies : list Value) : M Wire Close unit :=
  let id := match replies with reply :: _ => value_index "id" reply | [] => VNull end in
  let! r := attempt (E' := string) (outbound_batch replies) in
  match r with
  | inl code => map_err (λ _, REPLY_QUEUE_FULL) (outbound_batch [rpc_error id code code])
  | inr _ => ret tt
  end.

(** [Outbound::event] *)
Definition event_message (event : string) (data : Value) : Value :=
  VObject [("event", VString event); ("data", data)].
Definition outbound_event (event : string) (data : Value) : M Wire Close unit :=
  let! text := expect (json_to_vec (event_message event data)) in
  outbound_send (MText text).
End Outbound.

(** ** [Sink]: the host's callbacks *)
Section Sink.
Context `{Tokio, Budgets, Json, Base64, World W}.
Abbreviation wire_m E A := (M (Wire * W) E A).

(** [StreamState::active]; a stream without a deadline does not read the clock. *)
Definition stream_active {E} (id : Z) : wire_m E bool :=
  let! s := get in
  match s.(wr_states) !! id with
  | None => ret false
  | Some state =>
      if negb (life_active s.(wr_life)) || bool_decide (is_Some state.(sst_closed)) then ret false
      else match state.(sst_deadline) with
           | None => ret true
           | Some until => let! now := clock_read in ret (now <? until)
           end
  end.

(** A callback that closes its stream and fails. *)
Definition close_with {A} (id : Z) (reason : string) : wire_m string A :=
  update (close_stream id reason);; throw reason.

(** [Sink::send].  All three permits are asked for before any is looked at; those
    that were granted are dropped if one was not. *)
Definition sink_send (id : Z) (m : Message) : wire_m string unit :=
  let! active := stream_active id in
  reject_if (negb active) "stream-closed";;
  if MESSAGE_BYTES <? message_len m then close_with id "payload-too-large"
  else
    let n := as_u32 (cost m) in
    let! s := get in
    let! state := ok_or "stream-closed" (s.(wr_states) !! id) in
    match sem_try_acquire state.(sst_slots), budget_take n s.(wr_bytes), budget_take n state.(sst_bytes) with
    | Some slots, Some bytes, Some stream_bytes =>
        match chan_try_send (mkStreamFrame id m) s.(wr_frames) with
        | Some c =>
            update (λ s, set_frames c s.(wr_held) (set_bytes bytes (on_state id (set_permits slots stream_bytes) s)))
        | None => close_with id "slow-consumer"
        end
    | _, _, _ => close_with id "slow-consumer"
    end.

(** [Sink::terminal] *)
Definition MAX_FRAME_BASE64 : Z := div_ceil (MESSAGE_BYTES - 4) 3 * 4.
Definition sink_terminal (id : Z) (event : HerdrTerminalEvent) : wire_m string unit :=
  match event with
  | TerminalFrame _ _ _ encoding _ _ bytes_base64 =>
      if negb (bool_decide (encoding = "ansi")) then close_with id "stream-closed"
      else if MAX_FRAME_BASE64 <? len bytes_base64 then close_with id "payload-too-large"
      else
        match b64std_decode bytes_base64 with
        | None => close_with id "stream-closed"
        | Some bytes => sink_send id (MBinary (u32_be id +:+ bytes))
        end
  | TerminalClosed _ reason => update (close_stream id (closed_reason reason))
  | TerminalError _ code _ =>
      if bool_decide (code = "tooLarge") then close_with id "payload-too-large" else close_with id "stream-closed"
  | TerminalResync _ _ _ message =>
      if starts_with "ioTimeout:" message then ret tt else close_with id "stream-closed"
  end.

Definition stream_message (event : string) (data : list (string * Value)) (id : Z) : wire_m string unit :=
  let! text := expect (json_to_vec (VObject
    [("event", VString event); ("data", VObject data); ("stream", VNumber id)])) in
  sink_send id (MText text).

(** [Sink::stale] *)
Definition sink_stale (id : Z) (session : string) : wire_m string unit :=
  stream_message "snapshot.stale" [("session", VString session)] id.

(** [Sink::event] *)
Definition sink_event (id : Z) (session : string) (event : HerdrSubscriptionEvent) : wire_m string unit :=
  match event with
  | AgentStatusChanged _ pane_id workspace_id agent_status _ _ _ _ =>
      stream_message "agent.status"
        [("session", VString session); ("pane", VString pane_id); ("workspaceId", VString workspace_id);
         ("status", VString (if bool_decide (agent_status ∈ ["idle"; "working"; "blocked"; "done"])
                             then agent_status else "unknown"))] id
  | PaneExited _ pane_id workspace_id =>
      stream_message "pane.exited"
        [("session", VString session); ("pane", VString pane_id); ("workspaceId", VString workspace_id)] id
  | TopologyChanged _ kind _ _ =>
      if bool_decide (kind = "pane.updated") then ret tt else sink_stale id session
  | Disconnected _ _ | SubscriptionError _ _ => update (close_stream id "stream-closed")
  | Subscribed _ | WorktreeChanged _ _ _ => ret tt
  end.

(** ** [Frames::next]

    One poll: the queue is closed and empty, the writer has to wait, or a frame.
    A turn of the loop takes a frame, drops one, or uses up the notification of
    a stream that is not ready, so three turns a frame are enough
    ([frames_poll_spec]). *)
Inductive Polled := FramesEnded | FramesPending | FramesReady (f : StreamFrame) | FramesOutOfFuel.

Fixpoint frames_turns {E} (fuel : nat) : wire_m E Polled :=
  match fuel with
  | O => ret FramesOutOfFuel
  | S fuel =>
      let! s := get in
      match s.(wr_held) with
      | None =>
          match chan_recv s.(wr_frames) with
          | None => ret (if chan_closed s.(wr_frames) then FramesEnded else FramesPending)
          | Some (f, c) => update (set_frames c (Some f));; frames_turns fuel
          end
      | Some f =>
          let! active := stream_active f.(sf_stream) in
          if negb active then
            update (λ s, drop_frame f (set_frames s.(wr_frames) None s));; frames_turns fuel
          else
            match s.(wr_states) !! f.(sf_stream) with
            | Some state =>
                if state.(sst_ready) then
                  update (λ s, set_frames s.(wr_frames) None s);; ret (FramesReady f)
                else if state.(sst_notified) then
                  update (on_state f.(sf_stream) (set_notified false));; frames_turns fuel
                else ret FramesPending
            | None => ret FramesPending
            end
      end
  end.
Definition frames_fuel (s : Wire) : nat := S (3 * S (length (chan_queue s.(wr_frames)))).
Definition frames_poll {E} : wire_m E Polled :=
  let! s := get in frames_turns (frames_fuel s).

(** One turn of the writer of [drive]: what it takes and hands to the socket; the
    permits are dropped when the write has ended ([writer_done]). *)
Inductive Turn := Idle | Skipped | Wrote.
Definition writer_take : wire_m Close Turn :=
  let! s := get in
  let! next := (match chan_recv s.(wr_queue) with
    | Some (q, c) => update (set_queue c);; ret (inr (WritingQueued q))
    | None =>
        if chan_closed s.(wr_queue) then throw TRANSPORT
        else
          let! polled := frames_poll in
          match polled with
          | FramesReady f =>
              let! active := stream_active f.(sf_stream) in
              if active then ret (inr (WritingFrame f))
              else update (drop_frame f);; ret (inl Skipped)
          | FramesEnded => throw TRANSPORT
          | FramesPending | FramesOutOfFuel => ret (inl Idle)
          end
    end) in
  match next with
  | inl turn => ret turn
  | inr w =>
      let! s := get in
      if s.(wr_life).(lf_invalidated) then update (drop_writing w);; throw INVALID_SESSION
      else if negb (s.(wr_life).(lf_stop) =? 0) then update (drop_writing w);; throw (stop_reason s.(wr_life).(lf_stop))
      else update (λ s, set_writing (Some w) (s.(wr_sent) ++ [writing_message w]) s);; ret Wrote
  end.
Definition writer_done {E} : wire_m E unit :=
  update (λ s, match s.(wr_writing) with
               | Some w => drop_writing w (set_writing None s.(wr_sent) s)
               | None => s
               end).
End Sink.
