(* ===== verification/WireFacts.v ===== *)
(** * The budgets of a peer's wire

    Whatever the reader, the host's callbacks and the writer do, the permits add
    up: what waits or is being written never costs more than was granted. *)

From stdpp Require Import base gmap strings list relations.
From Stdlib Require Import ZArith Lia.
From S2P Require Import Prelude Steps Runs Rust Externals Clock Devices Admin Events World Herdr Http Wire.

Local Open Scope Z_scope.

(** ** Sums *)
Definition total {A} (f : A → Z) (l : list A) : Z := foldr (λ x n, f x + n) 0 l.

Lemma total_app {A} (f : A → Z) l k : total f (l ++ k) = total f l + total f k.
Proof. induction l as [|x l IH]; simpl; [done|]. unfold total in *. lia. Qed.
Lemma total_cons {A} (f : A → Z) x l : total f (x :: l) = f x + total f l.
Proof. done. Qed.
Lemma total_one {A} (f : A → Z) x : total f [x] = f x.
Proof. unfold total. simpl. lia. Qed.
Lemma total_nonneg {A} (f : A → Z) l : Forall (λ x, 0 <= f x) l → 0 <= total f l.
Proof. unfold total. induction 1; simpl; lia. Qed.
Lemma total_le {A} (f g : A → Z) l : Forall (λ x, f x <= g x) l → total f l <= total g l.
Proof. unfold total. induction 1; simpl; lia. Qed.

#[global] Arguments total : simpl never.

Lemma cost_pos m : 16 <= cost m.
Proof. unfold cost, message_len, len. repeat case_match; lia. Qed.
Lemma cost_u32 m : message_len m <= MESSAGE_BYTES → as_u32 (cost m) = cost m.
Proof.
  intros Hm. pose proof (cost_pos m). unfold as_u32. apply Z.mod_small.
  unfold cost, MESSAGE_BYTES, u32_max in *. lia.
Qed.

Section Facts.
Context `{Tokio, !TokioLaws H, Budgets, !BudgetLaws H0}.
Implicit Types s : Wire.

Definition queued_of s : list Queued :=
  match s.(wr_writing) with Some (WritingQueued q) => [q] | _ => [] end ++ chan_queue s.(wr_queue).
Definition frames_of s : list StreamFrame :=
  match s.(wr_writing) with Some (WritingFrame f) => [f] | _ => [] end
  ++ option_list s.(wr_held) ++ chan_queue s.(wr_frames).
Definition reserve_of (r : Reserve) (q : Queued) : Z :=
  match r, q.(qd_reserve) with
  | ReplyReserve, ReplyReserve | SharedReserve, SharedReserve => q.(qd_bytes)
  | _, _ => 0
  end.
Definition frame_cost (f : StreamFrame) : Z := cost f.(sf_message).
Definition of_stream (id : Z) (f : StreamFrame) : Z := if f.(sf_stream) =? id then 1 else 0.
Definition stream_cost (id : Z) (f : StreamFrame) : Z := if f.(sf_stream) =? id then frame_cost f else 0.
Definition batch_share (q : Queued) : Z := if q.(qd_batch) then 1 else 0.

(** The permits that a step of a handler holds itself: bytes of each reserve, and
    shares of the batch. *)
Record wire_with (shared reply : Z) (batch : nat) s : Prop := {
  wi_shared : budget_free s.(wr_bytes) + total (reserve_of SharedReserve) (queued_of s)
                + total frame_cost (frames_of s) + shared = SHARED_BYTES;
  wi_shared_free : 0 <= budget_free s.(wr_bytes);
  wi_reply : budget_free s.(wr_reply_bytes) + total (reserve_of ReplyReserve) (queued_of s) + reply
               = REPLY_HEADROOM;
  wi_reply_free : 0 <= budget_free s.(wr_reply_bytes);
  wi_queue : (chan_free s.(wr_queue) + length (chan_queue s.(wr_queue)) = OUTBOUND_QUEUE)%nat
             ∧ chan_closed s.(wr_queue) = false;
  wi_frames : (chan_free s.(wr_frames) + length (chan_queue s.(wr_frames)) = MAX_STREAMS * STREAM_FRAMES)%nat
              ∧ chan_closed s.(wr_frames) = false;
  wi_queued : Forall (λ q, qd_bytes q = cost (qd_message q) ∧ message_len (qd_message q) <= MESSAGE_BYTES) (queued_of s);
  wi_frame : Forall (λ f, message_len (sf_message f) <= MESSAGE_BYTES ∧ is_Some (s.(wr_states) !! sf_stream f)) (frames_of s);
  wi_batch : Z.of_nat s.(wr_batch) = total batch_share (queued_of s) + Z.of_nat batch;
  wi_chunked : sem_permits s.(wr_chunked) = match s.(wr_batch) with O => 1%nat | S _ => O end;
  wi_streams : ∀ id t, s.(wr_states) !! id = Some t →
    Z.of_nat (sem_permits t.(sst_slots)) + total (of_stream id) (frames_of s) = Z.of_nat STREAM_FRAMES
    ∧ budget_free t.(sst_bytes) + total (stream_cost id) (frames_of s) = STREAM_BYTES
    ∧ 0 <= budget_free t.(sst_bytes);
}.
Definition wire_inv : Wire → Prop := wire_with 0 0 0.

Lemma wire_new_inv invalidated stop : wire_inv (wire_new invalidated stop).
Proof.
  constructor; unfold queued_of, frames_of; simpl; rewrite ?chan_new_queue, ?chan_new_free; simpl.
  - rewrite budget_new_free by done. unfold total. simpl. lia.
  - by rewrite budget_new_free.
  - rewrite budget_new_free by done. unfold total. simpl. lia.
  - by rewrite budget_new_free.
  - split; [done|apply chan_new_open].
  - split; [done|apply chan_new_open].
  - done.
  - done.
  - done.
  - apply sem_new_permits.
  - intros id t. by rewrite lookup_empty.
Qed.

(** ** What each drop gives back *)

Lemma budget_give_eq n b : 0 <= n → budget_free (budget_give n b) = budget_free b + n.
Proof. apply budget_give_free. Qed.

(** A step that leaves queues and budgets alone. *)
Lemma wire_with_same a r b s s' :
  wire_with a r b s →
  s'.(wr_queue) = s.(wr_queue) → s'.(wr_bytes) = s.(wr_bytes) → s'.(wr_reply_bytes) = s.(wr_reply_bytes) →
  s'.(wr_chunked) = s.(wr_chunked) → s'.(wr_batch) = s.(wr_batch) → s'.(wr_frames) = s.(wr_frames) →
  s'.(wr_held) = s.(wr_held) → s'.(wr_writing) = s.(wr_writing) →
  (∀ id t, s'.(wr_states) !! id = Some t → ∃ t0, s.(wr_states) !! id = Some t0
     ∧ t.(sst_slots) = t0.(sst_slots) ∧ t.(sst_bytes) = t0.(sst_bytes)) →
  (∀ id, is_Some (s.(wr_states) !! id) → is_Some (s'.(wr_states) !! id)) →
  wire_with a r b s'.
Proof.
  intros [] E1 E2 E3 E4 E5 E6 E7 E8 Hst Hdom.
  constructor; unfold queued_of, frames_of in *; rewrite ?E1, ?E2, ?E3, ?E4, ?E5, ?E6, ?E7, ?E8; try done.
  - eapply Forall_impl; [done|]. intros f [? ?]. split; [done|by apply Hdom].
  - intros id t Ht. destruct (Hst id t Ht) as (t0 & Ht0 & -> & ->). by apply wi_streams0.
Qed.

Lemma on_state_other s id f id' : id' ≠ id → (on_state id f s).(wr_states) !! id' = s.(wr_states) !! id'.
Proof. intros Hne. unfold on_state. destruct (wr_states s !! id); [|done]. simpl. by rewrite lookup_insert_ne. Qed.
Lemma on_state_same s id f t : s.(wr_states) !! id = Some t → (on_state id f s).(wr_states) !! id = Some (f t).
Proof. intros Ht. unfold on_state. rewrite Ht. simpl. by rewrite lookup_insert_eq. Qed.
Lemma on_state_lookup s id f id' t' : (on_state id f s).(wr_states) !! id' = Some t' →
  ∃ t, s.(wr_states) !! id' = Some t ∧ t' = if bool_decide (id' = id) then f t else t.
Proof.
  case_bool_decide as Hid; [subst id'|].
  - unfold on_state. destruct (wr_states s !! id) as [t|] eqn:Ht; simpl.
    + rewrite lookup_insert_eq. intros [= <-]. eauto.
    + by rewrite Ht.
  - rewrite on_state_other by done. eauto.
Qed.
Lemma on_state_dom s id f id' : is_Some (s.(wr_states) !! id') → is_Some ((on_state id f s).(wr_states) !! id').
Proof.
  intros Hs. destruct (decide (id' = id)) as [->|]; [|by rewrite on_state_other].
  destruct Hs as [t Ht]. rewrite (on_state_same _ _ _ t Ht). eauto.
Qed.
Lemma on_state_fields s id f : ∃ m, on_state id f s = set_states m s.
Proof. unfold on_state. destruct (wr_states s !! id); [eauto|]. exists s.(wr_states). by destruct s. Qed.

Lemma wire_with_on_state a r b s id f :
  (∀ t, (f t).(sst_slots) = t.(sst_slots) ∧ (f t).(sst_bytes) = t.(sst_bytes)) →
  wire_with a r b s → wire_with a r b (on_state id f s).
Proof.
  intros Hf Hs. destruct (on_state_fields s id f) as [m Hm]. eapply wire_with_same; [exact Hs|rewrite Hm; done..| |].
  - intros id' t' Ht. apply on_state_lookup in Ht as (t & Ht & ->). exists t. split; [done|].
    case_bool_decide; [apply Hf|done].
  - intros id'. apply on_state_dom.
Qed.
Lemma wire_with_changed a r b s v : wire_with a r b s → wire_with a r b (set_changed v s).
Proof. intros Hs. eapply wire_with_same; [exact Hs|done..| |]; simpl; eauto. Qed.
Lemma wire_with_life a r b s v : wire_with a r b s → wire_with a r b (set_life v s).
Proof. intros Hs. eapply wire_with_same; [exact Hs|done..| |]; simpl; eauto. Qed.
Lemma wire_with_close a r b s id reason : wire_with a r b s → wire_with a r b (close_stream id reason s).
Proof. intros. by apply wire_with_changed, wire_with_on_state. Qed.
Lemma wire_with_ready a r b s id : wire_with a r b s → wire_with a r b (make_ready id s).
Proof. intros. by apply wire_with_on_state. Qed.

(** A new stream's state *)
Lemma wire_with_open a r b s id deadline : s.(wr_states) !! id = None →
  wire_with a r b s → wire_with a r b (set_states (<[id := stream_state_new deadline]> s.(wr_states)) s).
Proof.
  intros Hid []. constructor; try done.
  - simpl. eapply Forall_impl; [done|]. intros f [? ?]. split; [done|].
    rewrite lookup_insert. by case_decide.
  - simpl. intros id' t Ht. apply lookup_insert_Some in Ht as [[<- <-]|[Hne Ht]]; [|by apply wi_streams0].
    change (frames_of (set_states (<[id := stream_state_new deadline]> (wr_states s)) s)) with (frames_of s).
    assert (Forall (λ f, sf_stream f ≠ id) (frames_of s)) as Hf.
    { eapply Forall_impl; [done|]. intros f [_ [t Ht]] Heq. rewrite Heq in Ht. congruence. }
    assert (total (of_stream id) (frames_of s) = 0 ∧ total (stream_cost id) (frames_of s) = 0) as [-> ->].
    { clear -Hf. unfold total. induction Hf as [|f l Hne _ [IH1 IH2]]; simpl; [done|].
      unfold of_stream at 1, stream_cost at 1. apply Z.eqb_neq in Hne as ->. lia. }
    simpl. rewrite sem_new_permits, budget_new_free by done. by split_and!; [lia|lia|].
Qed.

(** ** Taking and giving back *)
Definition sh (r : Reserve) (n : Z) : Z := match r with SharedReserve => n | ReplyReserve => 0 end.
Definition rp (r : Reserve) (n : Z) : Z := match r with SharedReserve => 0 | ReplyReserve => n end.

(** Only the queue of replies, the budgets and the batch permit may differ. *)
Record same_streams s s' : Prop := {
  sq_life : s'.(wr_life) = s.(wr_life);
  sq_states : s'.(wr_states) = s.(wr_states);
  sq_frames : s'.(wr_frames) = s.(wr_frames);
  sq_held : s'.(wr_held) = s.(wr_held);
  sq_changed : s'.(wr_changed) = s.(wr_changed);
  sq_writing : s'.(wr_writing) = s.(wr_writing);
  sq_sent : s'.(wr_sent) = s.(wr_sent);
}.
#[global] Instance same_streams_preorder : PreOrder same_streams.
Proof. split; [done|]. intros s1 s2 s3 [] []. constructor; congruence. Qed.
(** Only the budgets and the batch permit may differ. *)
Definition same_queues s s' : Prop := same_streams s s' ∧ s'.(wr_queue) = s.(wr_queue).
#[global] Instance same_queues_preorder : PreOrder same_queues.
Proof. split; [done|]. intros s1 s2 s3 [? ?] [? ?]. split; [by etrans|congruence]. Qed.

(** Two states that agree but for the budgets have the same room. *)
Lemma same_room s s' : wire_inv s → wire_inv s' → same_queues s s' →
  budget_free s'.(wr_bytes) = budget_free s.(wr_bytes)
  ∧ budget_free s'.(wr_reply_bytes) = budget_free s.(wr_reply_bytes)
  ∧ sem_permits s'.(wr_chunked) = sem_permits s.(wr_chunked).
Proof.
  intros [] [] [[] Hq0].
  assert (queued_of s' = queued_of s) as Hq by (unfold queued_of; by rewrite Hq0, sq_writing0).
  assert (frames_of s' = frames_of s) as Hf by (unfold frames_of; by rewrite sq_frames0, sq_held0, sq_writing0).
  rewrite Hq, Hf in *. split; [lia|]. split; [lia|].
  assert (wr_batch s' = wr_batch s) as Hb by lia. by rewrite wi_chunked0, wi_chunked1, Hb.
Qed.

Lemma give_bytes_with a b c r n s : 0 <= n →
  wire_with (a + sh r n) (b + rp r n) c s → wire_with a b c (give_bytes r n s).
Proof.
  intros Hn []. destruct r; simpl in *; constructor; try done; simpl; rewrite ?budget_give_free by done;
    change (queued_of (set_reply_bytes ?x s)) with (queued_of s) in *;
    change (frames_of (set_reply_bytes ?x s)) with (frames_of s) in *;
    change (queued_of (set_bytes ?x s)) with (queued_of s) in *;
    change (frames_of (set_bytes ?x s)) with (frames_of s) in *; lia.
Qed.
Lemma give_bytes_same r n s : same_queues s (give_bytes r n s).
Proof. by destruct r. Qed.

Lemma take_shared a b c n x s : 0 <= n → budget_take n s.(wr_bytes) = Some x →
  wire_with a b c s → wire_with (a + n) b c (set_bytes x s).
Proof.
  intros Hn Hx []. pose proof (budget_take_some n _ _ Hn Hx) as Hfree.
  assert (¬ budget_free (wr_bytes s) < n) as Hge.
  { rewrite <-budget_take_none by done. congruence. }
  constructor; try done; simpl; change (queued_of (set_bytes ?x s)) with (queued_of s) in *;
    change (frames_of (set_bytes ?x s)) with (frames_of s) in *; lia.
Qed.
Lemma take_reply a b c n x s : 0 <= n → budget_take n s.(wr_reply_bytes) = Some x →
  wire_with a b c s → wire_with a (b + n) c (set_reply_bytes x s).
Proof.
  intros Hn Hx []. pose proof (budget_take_some n _ _ Hn Hx) as Hfree.
  assert (¬ budget_free (wr_reply_bytes s) < n) as Hge.
  { rewrite <-budget_take_none by done. congruence. }
  constructor; try done; simpl; change (queued_of (set_reply_bytes ?x s)) with (queued_of s) in *;
    change (frames_of (set_reply_bytes ?x s)) with (frames_of s) in *; lia.
Qed.

Lemma as_u32_nonneg n : 0 <= as_u32 n.
Proof. unfold as_u32, u32_max. apply Z.mod_pos_bound. lia. Qed.

Lemma reply_permit_spec a b c size s r s' :
  wire_with a b c s → reply_permit size s = (r, s') →
  same_queues s s' ∧ match r with
  | Ok r => wire_with (a + sh r (as_u32 size)) (b + rp r (as_u32 size)) c s'
  | Err e => s' = s ∧ e = "busy"
  | Panic => False
  end.
Proof.
  intros Hs. unfold reply_permit, bind, gets, id. simpl. pose proof (as_u32_nonneg size) as Hn.
  destruct (budget_take (as_u32 size) (wr_reply_bytes s)) as [x|] eqn:Hx; simpl.
  - intros [= <- <-]. split; [done|]. simpl. rewrite Z.add_0_r. by apply take_reply.
  - destruct (budget_take (as_u32 size) (wr_bytes s)) as [y|] eqn:Hy; simpl; intros [= <- <-]; [|done].
    split; [done|]. simpl. rewrite Z.add_0_r. by apply take_shared.
Qed.

Definition queued_ok (q : Queued) : Prop :=
  qd_bytes q = cost (qd_message q) ∧ message_len (qd_message q) <= MESSAGE_BYTES.
Definition share (q : Queued) : nat := if qd_batch q then 1 else 0.

Lemma push_with a b c q x s : queued_ok q → chan_try_send q s.(wr_queue) = Some x →
  wire_with (a + sh q.(qd_reserve) q.(qd_bytes)) (b + rp q.(qd_reserve) q.(qd_bytes)) (c + share q) s →
  wire_with a b c (set_queue x s).
Proof.
  intros Hq Hx []. destruct (chan_send_some _ _ _ _ Hx) as (Hqueue & Hfree & Hcl).
  assert (queued_of (set_queue x s) = queued_of s ++ [q]) as Hnew.
  { unfold queued_of. simpl. by rewrite Hqueue, app_assoc. }
  change (frames_of s) with (frames_of (set_queue x s)) in *.
  assert (∀ r, reserve_of r q = match r with SharedReserve => sh (qd_reserve q) (qd_bytes q)
    | ReplyReserve => rp (qd_reserve q) (qd_bytes q) end) as Hr by (by intros []; unfold reserve_of; destruct (qd_reserve q)).
  constructor; try done; rewrite ?Hnew, ?total_app, ?total_one, ?Hr.
  - cbn [wr_bytes set_queue]. lia.
  - cbn [wr_reply_bytes set_queue]. lia.
  - cbn [wr_queue set_queue]. rewrite Hqueue, length_app, Hcl. simpl. split; [lia|tauto].
  - apply Forall_app. split; [done|]. by apply Forall_singleton.
  - cbn [wr_batch set_queue]. unfold share, batch_share in *. destruct (qd_batch q); lia.
Qed.

Lemma drop_batch_with a b c s : wire_with a b (S c) s → wire_with a b c (drop_batch s).
Proof.
  intros []. unfold drop_batch. pose proof (total_nonneg batch_share (queued_of s)) as Hpos.
  assert (0 <= total batch_share (queued_of s)) as Hpos'.
  { apply Hpos, Forall_true. intros q. unfold batch_share. destruct (qd_batch q); lia. }
  destruct (wr_batch s) as [|[|n]] eqn:Hb; [lia| |]; constructor; try done; simpl;
    change (queued_of (set_chunked ?x ?y s)) with (queued_of s) in *; try lia.
  all: rewrite ?sem_release_permits, wi_chunked0; done.
Qed.
Lemma drop_batch_same s : same_queues s (drop_batch s).
Proof. unfold drop_batch. by destruct (wr_batch s) as [|[]]. Qed.

Lemma add_share a b c s : (0 < s.(wr_batch))%nat → wire_with a b c s →
  wire_with a b (S c) (set_chunked s.(wr_chunked) (S s.(wr_batch)) s).
Proof.
  intros Hpos []. constructor; try done; simpl;
    change (queued_of (set_chunked ?x ?y s)) with (queued_of s) in *; try lia.
  destruct (wr_batch s); [lia|done].
Qed.

(** ** A batch is queued as a whole or not at all *)

Definition entries (r : Reserve) (chunked : bool) (messages : list Message) : list Queued :=
  (λ m, mkQueued m r (cost m) chunked) <$> messages.

Lemma batch_push_spec r chunked messages left s :
  Forall (λ m, message_len m <= MESSAGE_BYTES) messages →
  left = total cost messages → (length messages ≤ chan_free s.(wr_queue))%nat →
  (chunked = true → (0 < s.(wr_batch))%nat) →
  wire_with (sh r left) (rp r left) (if chunked then 1 else 0) s →
  ∃ s', batch_push r chunked messages left s = (Ok tt, s')
    ∧ wire_with 0 0 (if chunked then 1 else 0) s' ∧ same_streams s s'
    ∧ chan_queue s'.(wr_queue) = chan_queue s.(wr_queue) ++ entries r chunked messages.
Proof.
  revert left s. induction messages as [|m messages IH]; intros left s Hlen -> Hroom Hbatch Hs.
  - exists (give_bytes r 0 s). unfold total in *. simpl in *.
    split; [done|]. split; [|split; [by destruct r|by destruct r; rewrite app_nil_r]].
    by apply (give_bytes_with 0 0 _ r 0).
  - inversion_clear Hlen as [|? ? Hm Hms]. cbn [batch_push]. rewrite total_cons in *.
    pose proof (cost_pos m). assert (0 <= total cost messages).
    { apply total_nonneg, Forall_true. intros m'. pose proof (cost_pos m'). lia. }
    destruct (Z.ltb_spec (cost m + total cost messages) (cost m)); [lia|].
    set (q := mkQueued m r (cost m) chunked).
    set (s1 := if chunked then set_chunked s.(wr_chunked) (S s.(wr_batch)) s else s).
    assert (same_queues s s1) as Hs1 by (by destruct chunked).
    destruct Hs1 as [Hs1 Hq1].
    assert (wire_with (sh r (cost m + total cost messages)) (rp r (cost m + total cost messages))
      ((if chunked then 1 else 0) + share q) s1) as Hw.
    { unfold s1, share, q. simpl. destruct chunked; [apply add_share; auto|done]. }
    destruct (chan_try_send q s1.(wr_queue)) as [c|] eqn:Hc; cycle 1.
    { exfalso. rewrite chan_send_none, Hq1 in Hc. simpl in Hroom. destruct Hs.
      destruct wi_queue0 as [_ Hcl]. destruct Hc; [lia|congruence]. }
    destruct (chan_send_some _ _ _ _ Hc) as (Hcq & Hcf & _). rewrite Hq1 in Hcq, Hcf.
    destruct (IH (cost m + total cost messages - cost m) (set_queue c s1)) as (s' & Hrun & Hw' & Hss & Hqueue).
    + done.
    + lia.
    + simpl. simpl in Hroom. lia.
    + intros ->. simpl. lia.
    + apply (push_with _ _ _ q); [exact (conj eq_refl Hm)|exact Hc|].
      replace (cost m + total cost messages - cost m) with (total cost messages) by lia.
      change (qd_reserve q) with r. change (qd_bytes q) with (cost m).
      destruct r; cbn [sh rp] in *; rewrite ?Z.add_0_r; [|rewrite Z.add_comm]; [rewrite Z.add_comm|]; done.
    + exists s'. split; [|split_and!].
      * unfold bind at 1. replace ((if chunked then modify _ else ret tt) s) with (Ok (E := string) tt, s1) by (by destruct chunked).
        unfold bind, attempt, push_queued. unfold bind, gets, id. rewrite Hc. simpl. exact Hrun.
      * done.
      * etrans; [exact Hs1|]. destruct Hss. by constructor.
      * rewrite Hqueue. simpl. rewrite Hcq, <-app_assoc. done.
Qed.

Context `{Json, !JsonLaws H1}.

Definition fits (messages : list Message) : Prop := Forall (λ m, message_len m <= MESSAGE_BYTES) messages.
Definition reply_texts (replies : list Value) : list Message :=
  (λ v, MText (default EmptyString (json_to_vec v))) <$> replies.

Lemma texts_run replies s : texts replies s = (Ok (reply_texts replies), s).
Proof.
  unfold texts, reply_texts. replace (mapM _ replies) with (Some ((λ v, MText (default EmptyString (json_to_vec v))) <$> replies)); [done|].
  symmetry. apply mapM_Some. induction replies as [|v l IH]; constructor; [|done].
  destruct (json_total v) as [b ->]. done.
Qed.

Lemma existsb_fits messages : existsb (λ m, MESSAGE_BYTES <? message_len m) messages = false → fits messages.
Proof.
  induction messages as [|m l IH]; simpl; intros Hb; constructor; apply orb_false_iff in Hb as [Hm Hl]; [lia|by apply IH].
Qed.

Lemma total_u32 messages : fits messages → (length messages ≤ OUTBOUND_QUEUE)%nat →
  as_u32 (total cost messages) = total cost messages.
Proof.
  intros Hf Hl. unfold as_u32. apply Z.mod_small.
  assert (0 <= total cost messages).
  { apply total_nonneg, Forall_true. intros m. pose proof (cost_pos m). lia. }
  assert (total cost messages <= total (λ _ : Message, MESSAGE_BYTES + 16) messages) as Hle.
  { apply total_le. eapply Forall_impl; [exact Hf|]. intros m Hm. simpl in *. unfold cost. lia. }
  assert (∀ l : list Message, total (λ _ : Message, MESSAGE_BYTES + 16) l = (MESSAGE_BYTES + 16) * Z.of_nat (length l)) as Hc.
  { intros l. induction l as [|m l IH]; [done|]. rewrite total_cons, IH. simpl. lia. }
  rewrite Hc in Hle. unfold MESSAGE_BYTES, OUTBOUND_QUEUE, u32_max in *. lia.
Qed.

Lemma batch_body_spec (chunked : bool) (replies : list Value) s :
  wire_with 0 0 (if chunked then 1 else 0)%nat s → (chunked = true → (0 < s.(wr_batch))%nat) →
  ∃ r s', batch_body chunked replies s = (r, s')
    ∧ wire_with 0 0 (if chunked then 1 else 0) s' ∧ same_streams s s'
    ∧ match r with
      | Ok _ => fits (reply_texts replies)
          ∧ ∃ reserve, (chunked = true → reserve = SharedReserve)
          ∧ chan_queue s'.(wr_queue) = chan_queue s.(wr_queue) ++ entries reserve chunked (reply_texts replies)
      | Err e => s'.(wr_queue) = s.(wr_queue) ∧ e ∈ ["payload-too-large"; "busy"]
      | Panic => False
      end.
Proof.
  intros Hs Hb. unfold batch_body. rewrite (run_ok _ _ _ _ _ (texts_run replies s)). run.
  destruct (existsb _ (reply_texts replies)) eqn:Hbig.
  { eexists _, s. split; [done|]. split_and!; [done..|left]. }
  apply existsb_fits in Hbig. cbn [id]. case_bool_decide as Hfree.
  { eexists _, s. split; [done|]. split_and!; [done..|right; left]. }
  assert (length (reply_texts replies) ≤ chan_free s.(wr_queue))%nat as Hroom by lia.
  change (foldr (λ m n, cost m + n) 0 (reply_texts replies)) with (total cost (reply_texts replies)).
  assert (as_u32 (total cost (reply_texts replies)) = total cost (reply_texts replies)) as Hu.
  { apply total_u32; [done|]. destruct Hs, wi_queue0. lia. }
  assert (0 <= total cost (reply_texts replies)) as Hnn by (rewrite <-Hu; apply as_u32_nonneg).
  destruct chunked; run.
  - rewrite Hu. destruct (budget_take _ _) as [x|] eqn:Hx; cycle 1.
    { eexists _, s. split; [done|]. split_and!; [done..|right; left]. }
    run. destruct (batch_push_spec SharedReserve true (reply_texts replies) (total cost (reply_texts replies)) (set_bytes x s))
      as (s' & Hrun & Hw & Hss & Hq); [done|done|done|by auto|by apply (take_shared 0 0)|].
    exists (Ok tt), s'. split; [exact Hrun|]. split; [done|]. split.
    { destruct Hss. by constructor. } split; [done|]. by exists SharedReserve.
  - destruct (reply_permit (total cost (reply_texts replies)) s) as [r s1] eqn:Hrp.
    destruct (reply_permit_spec _ _ _ _ _ _ _ Hs Hrp) as [[Hss Hqq] Hr]. destruct r as [r|e|]; [| |done].
    + rewrite (run_ok _ _ _ _ _ Hrp). rewrite Hu in *.
      destruct (batch_push_spec r false (reply_texts replies) (total cost (reply_texts replies)) s1)
        as (s' & Hrun & Hw & Hss' & Hq); [done|done|by rewrite Hqq|done|done|].
      exists (Ok tt), s'. split; [exact Hrun|]. split; [done|]. split; [by etrans|]. split; [done|].
      exists r. split; [done|]. by rewrite Hq, Hqq.
    + destruct Hr as [-> ->]. rewrite (run_err _ _ _ _ _ Hrp).
      eexists _, s. split; [done|]. split_and!; [done..|right; left].
Qed.

(** [Outbound::batch] *)
Lemma outbound_batch_spec replies s : wire_inv s →
  ∃ r s', outbound_batch replies s = (r, s') ∧ wire_inv s' ∧ same_streams s s'
    ∧ match r with
      | Ok _ => fits (reply_texts replies)
          ∧ ∃ reserve, (is_chunked replies = true → reserve = SharedReserve)
          ∧ chan_queue s'.(wr_queue)
            = chan_queue s.(wr_queue) ++ entries reserve (is_chunked replies) (reply_texts replies)
      | Err e => s'.(wr_queue) = s.(wr_queue) ∧ e ∈ ["payload-too-large"; "busy"]
      | Panic => False
      end.
Proof.
  intros Hs. unfold outbound_batch. case_bool_decide as Hnil.
  { subst replies. exists (Ok tt), s. do 3 (split; [done|]). split; [constructor|]. exists SharedReserve. simpl. by rewrite app_nil_r. }
  destruct (is_chunked replies) eqn:Hchunk; [|by apply (batch_body_spec false)].
  run. cbn [id]. destruct (sem_try_acquire (wr_chunked s)) as [c|] eqn:Hc; cycle 1.
  { eexists _, s. split; [done|]. split_and!; [done..|right; left]. }
  pose proof (sem_acquire_some _ _ Hc) as Hp.
  assert (wr_batch s = 0%nat) as Hb0. { destruct Hs. destruct (wr_batch s); [done|lia]. }
  run. destruct (batch_body_spec true replies (set_chunked c 1 s)) as (r & s' & Hrun & Hw & Hss & Hr).
  { destruct Hs. constructor; try done; simpl; change (queued_of (set_chunked ?x ?y s)) with (queued_of s) in *.
    - lia.
    - rewrite wi_chunked0, Hb0 in Hp. lia. }
  { simpl. lia. }
  rewrite (run_attempt _ _ _ _ _ Hrun).
  assert (same_streams s s') as Hss' by (destruct Hss; by constructor).
  assert (wire_inv (drop_batch s')) as Hd by (by apply drop_batch_with).
  pose proof (drop_batch_same s') as [Hds Hdq].
  destruct r as [u|e|]; [| |done]; run.
  - exists (Ok tt), (drop_batch s'). split; [done|]. split; [done|]. split; [by etrans|]. by rewrite Hdq.
  - exists (Err e), (drop_batch s'). split; [done|]. split; [done|]. split; [by etrans|]. by rewrite Hdq.
Qed.
End Facts.
