(* ===== verification/WireProps.v ===== *)
(** * A peer's wire as a system

    The reader, the host's callbacks and the writer in any order: the budgets
    hold, frames are written in order and only for a live stream, and the writer
    is never left waiting for a stream that has become ready or was closed. *)
From stdpp Require Import base gmap strings list relations.
From Stdlib Require Import ZArith Lia.
From S2P Require Import Prelude Steps Rust Externals Crates Clock Devices Admin Events World Herdr.
From S2P Require Import Http Runs Wire WireFacts.
Local Open Scope Z_scope.

Section Spec.
Context `{Tokio, !TokioLaws H, Budgets, !BudgetLaws H0, Json, !JsonLaws H1, Base64, World W, !WorldLaws W}.
Implicit Types (s : Wire) (w : W).

(** ** Frames *)

Lemma of_stream_same (f : StreamFrame) : of_stream (sf_stream f) f = 1.
Proof. unfold of_stream. by rewrite Z.eqb_refl. Qed.
Lemma stream_cost_same (f : StreamFrame) : stream_cost (sf_stream f) f = frame_cost f.
Proof. unfold stream_cost. by rewrite Z.eqb_refl. Qed.
Lemma other_stream id (f : StreamFrame) : id ≠ sf_stream f → of_stream id f = 0 ∧ stream_cost id f = 0.
Proof. unfold of_stream, stream_cost. destruct (Z.eqb_spec (sf_stream f) id); [congruence|done]. Qed.

Lemma push_frame a b c s id m t slots bytes stream_bytes ch :
  wire_with a b c s → message_len m <= MESSAGE_BYTES → s.(wr_states) !! id = Some t →
  sem_try_acquire t.(sst_slots) = Some slots → budget_take (as_u32 (cost m)) s.(wr_bytes) = Some bytes →
  budget_take (as_u32 (cost m)) t.(sst_bytes) = Some stream_bytes →
  chan_try_send (mkStreamFrame id m) s.(wr_frames) = Some ch →
  wire_with a b c (set_frames ch s.(wr_held) (set_bytes bytes (on_state id (set_permits slots stream_bytes) s))).
Proof.
  intros Hs Hm Ht Hsl Hb Hsb Hch. rewrite cost_u32 in * by done. pose proof (cost_pos m) as Hpos.
  pose proof (sem_acquire_some _ _ Hsl) as Hsl'. pose proof (budget_take_some (cost m) _ _ ltac:(lia) Hb) as Hb'.
  pose proof (budget_take_some (cost m) _ _ ltac:(lia) Hsb) as Hsb'.
  assert (¬ budget_free (wr_bytes s) < cost m) as Hge by (rewrite <-budget_take_none by lia; congruence).
  assert (¬ budget_free (sst_bytes t) < cost m) as Hge' by (rewrite <-budget_take_none by lia; congruence).
  destruct (chan_send_some _ _ _ _ Hch) as (Hq & Hf & Hcl). destruct Hs.
  set (s' := set_frames _ _ _). set (f := mkStreamFrame id m) in *.
  assert (on_state id (set_permits slots stream_bytes) s
    = set_states (<[id := set_permits slots stream_bytes t]> s.(wr_states)) s) as Hon by (unfold on_state; by rewrite Ht).
  assert (frames_of s' = frames_of s ++ [f]) as HF.
  { unfold frames_of, s'. rewrite Hon. simpl. by rewrite Hq, !app_assoc. }
  assert (queued_of s' = queued_of s) as HQ by (unfold queued_of, s'; by rewrite Hon).
  assert (s'.(wr_states) = <[id := set_permits slots stream_bytes t]> s.(wr_states)) as HS by (unfold s'; by rewrite Hon).
  constructor; rewrite ?HF, ?HQ, ?HS, ?total_app, ?total_one; unfold s'; rewrite ?Hon; try done.
  - cbn [set_frames set_bytes set_states wr_bytes]. change (frame_cost f) with (cost m). lia.
  - cbn [set_frames set_bytes set_states wr_bytes]. lia.
  - cbn [set_frames set_bytes set_states wr_frames]. rewrite Hq, length_app, Hcl. simpl length. split; [lia|tauto].
  - apply Forall_app. split.
    + eapply Forall_impl; [done|]. intros g [? ?]. split; [done|]. rewrite lookup_insert. by case_decide.
    + apply Forall_singleton. simpl. rewrite lookup_insert_eq. eauto.
  - intros id' t'. rewrite lookup_insert. case_decide as Hid; [subst id'|].
    + intros [= <-]. destruct (wi_streams id t Ht) as (Ha1 & Ha2 & Ha3). rewrite !total_app, !total_one.
      change id with (sf_stream f). rewrite of_stream_same, stream_cost_same.
      change (frame_cost f) with (cost m). simpl. lia.
    + intros Ht'. destruct (wi_streams id' t' Ht') as (Ha1 & Ha2 & Ha3). rewrite !total_app, !total_one.
      destruct (other_stream id' f) as [-> ->]; [done|]. rewrite !Z.add_0_r. done.
Qed.

Lemma drop_frame_with a b c s s' f F1 F2 :
  wire_with a b c s → frames_of s = F1 ++ f :: F2 → frames_of s' = F1 ++ F2 → queued_of s' = queued_of s →
  s'.(wr_queue) = s.(wr_queue) → s'.(wr_bytes) = s.(wr_bytes) → s'.(wr_reply_bytes) = s.(wr_reply_bytes) →
  s'.(wr_chunked) = s.(wr_chunked) → s'.(wr_batch) = s.(wr_batch) → s'.(wr_frames) = s.(wr_frames) →
  s'.(wr_states) = s.(wr_states) → wire_with a b c (drop_frame f s').
Proof.
  intros [] HF HF' HQ E1 E2 E3 E4 E5 E6 E7.
  assert (message_len (sf_message f) <= MESSAGE_BYTES ∧ is_Some (wr_states s !! sf_stream f)) as [Hm [t Ht]].
  { rewrite HF in wi_frame. by apply Forall_app in wi_frame as [_ [? _]%Forall_cons]. }
  pose proof (cost_pos (sf_message f)) as Hpos. unfold drop_frame. rewrite cost_u32 by done.
  set (n := cost (sf_message f)) in *. set (g := λ t, set_permits _ _ t).
  assert (on_state (sf_stream f) g (give_bytes SharedReserve n s')
    = set_states (<[sf_stream f := g t]> s.(wr_states)) (set_bytes (budget_give n s.(wr_bytes)) s')) as Hon.
  { unfold on_state. simpl. rewrite E7, Ht, E2. done. }
  rewrite Hon. set (s2 := set_states _ _).
  assert (queued_of s2 = queued_of s) as HQ2 by (rewrite <-HQ; done).
  assert (frames_of s2 = F1 ++ F2) as HF2 by (rewrite <-HF'; done).
  rewrite HF in *. rewrite !total_app, !total_cons in *.
  assert (frame_cost f = n) as Hfc by done.
  constructor; rewrite ?HQ2, ?HF2, ?total_app; unfold s2;
    cbn [set_states set_bytes wr_bytes wr_reply_bytes wr_queue wr_frames wr_chunked wr_batch wr_states];
    rewrite ?E1, ?E3, ?E4, ?E5, ?E6; try done.
  - rewrite budget_give_free by lia. lia.
  - rewrite budget_give_free by lia. lia.
  - apply Forall_app in wi_frame as [Ha [_ Hb]%Forall_cons]. apply Forall_app.
    assert (∀ g0 : StreamFrame, is_Some (wr_states s !! sf_stream g0) → is_Some (<[sf_stream f:=g t]> (wr_states s) !! sf_stream g0)).
    { intros g0 ?. rewrite lookup_insert. by case_decide. }
    split; (eapply Forall_impl; [done|]); intros g0 [? ?]; auto.
  - intros id' t'. rewrite lookup_insert. case_decide as Hid; [subst id'|].
    + intros [= <-]. destruct (wi_streams _ t Ht) as (Ha1 & Ha2 & Ha3). rewrite !total_app, !total_cons in *.
      rewrite of_stream_same in Ha1. rewrite stream_cost_same in Ha2. unfold g. simpl.
      rewrite sem_release_permits, budget_give_free by lia. lia.
    + intros Ht'. destruct (wi_streams id' t' Ht') as (Ha1 & Ha2 & Ha3). rewrite !total_app, !total_cons in *.
      destruct (other_stream id' f) as [Ha Hb]; [done|]. rewrite Ha in Ha1. rewrite Hb in Ha2. lia.
Qed.

(** ** Replies *)

Lemma drop_queued_with a b c s s' q : wire_with a b c s → 0 <= qd_bytes q →
  queued_of s = q :: queued_of s' → frames_of s' = frames_of s →
  s'.(wr_queue) = s.(wr_queue) → s'.(wr_bytes) = s.(wr_bytes) → s'.(wr_reply_bytes) = s.(wr_reply_bytes) →
  s'.(wr_chunked) = s.(wr_chunked) → s'.(wr_batch) = s.(wr_batch) → s'.(wr_frames) = s.(wr_frames) →
  s'.(wr_states) = s.(wr_states) → wire_with a b c (drop_queued q s').
Proof.
  intros [] Hn HQ HF E1 E2 E3 E4 E5 E6 E7. unfold drop_queued.
  assert (wire_with (a + sh q.(qd_reserve) q.(qd_bytes)) (b + rp q.(qd_reserve) q.(qd_bytes)) (c + share q) s') as Hs'.
  { rewrite HQ in *. rewrite !total_cons in *.
    assert (reserve_of SharedReserve q = sh (qd_reserve q) (qd_bytes q)
      ∧ reserve_of ReplyReserve q = rp (qd_reserve q) (qd_bytes q)) as [Ha Hb] by (unfold reserve_of; by destruct (qd_reserve q)).
    rewrite <-E7 in *. constructor; rewrite ?HF, ?E1, ?E2, ?E3, ?E4, ?E5, ?E6; try done; try lia.
    - by apply Forall_cons in wi_queued as [_ ?].
    - unfold share, batch_share in *. destruct (qd_batch q); lia. }
  unfold share in Hs'. destruct (qd_batch q).
  - apply drop_batch_with. apply (give_bytes_with a b (S c) _ _ _ Hn).
    by replace (S c) with (c + 1)%nat by lia.
  - apply (give_bytes_with a b c _ _ _ Hn). by rewrite Nat.add_0_r in Hs'.
Qed.

Lemma drop_writing_inv x sent s : s.(wr_writing) = None → wire_inv (set_writing (Some x) sent s) → wire_inv (drop_writing x s).
Proof.
  intros Hnone Hs. destruct x as [q|f]; simpl.
  - eapply drop_queued_with; [exact Hs|..]; try done.
    + destruct Hs. apply Forall_cons in wi_queued as [[-> _] _]. pose proof (cost_pos (qd_message q)). lia.
    + unfold queued_of. simpl. by rewrite Hnone.
    + unfold frames_of. simpl. by rewrite Hnone.
  - eapply (drop_frame_with _ _ _ _ s f []); [exact Hs|..]; try done.
    + unfold frames_of. simpl. by rewrite Hnone.
    + unfold queued_of. simpl. by rewrite Hnone.
Qed.

Lemma writer_done_inv {E} s w : wire_inv s → wire_inv (writer_done (E := E) (s, w)).2.1.
Proof.
  intros Hs. unfold writer_done, update, modify. simpl. destruct (wr_writing s) as [x|] eqn:Hw; [|done].
  apply (drop_writing_inv _ s.(wr_sent)); [done|]. simpl. unfold set_writing. simpl. rewrite <-Hw. by destruct s.
Qed.

Lemma outbound_send_inv m s : wire_inv s →
  wire_inv (outbound_send m s).2 ∧ same_streams s (outbound_send m s).2 ∧ (outbound_send m s).1 ≠ Panic.
Proof.
  intros Hs. unfold outbound_send. rewrite run_reject_if. destruct (Z.ltb_spec MESSAGE_BYTES (message_len m)); [done|].
  destruct (reply_permit (message_len m + 16) s) as [r s1] eqn:Hrp. rewrite (run_map_err _ _ _ _ _ _ Hrp).
  destruct (reply_permit_spec _ _ _ _ _ _ _ Hs Hrp) as [[Hss Hqq] Hr]. destruct r as [r|e|]; [|by destruct Hr as [-> _]|done].
  change (message_len m + 16) with (cost m) in *. rewrite cost_u32 in * by lia.
  pose proof (cost_pos m). set (q := mkQueued m r (cost m) false).
  unfold push_queued. rewrite run_gets. cbn [id]. destruct (chan_try_send q (wr_queue s1)) as [c|] eqn:Hc.
  - simpl. split; [|split; [destruct Hss; by constructor|done]].
    apply (push_with 0 0 0 q c s1); [done|done|]. by rewrite Nat.add_0_r.
  - rewrite run_modify. simpl. split; [|split; [|done]].
    + by refine (give_bytes_with 0 0 0 r (cost m) s1 _ _); [lia|].
    + etrans; [exact Hss|]. by destruct r.
Qed.

Lemma outbound_replies_inv replies s : wire_inv s →
  wire_inv (outbound_replies replies s).2 ∧ same_streams s (outbound_replies replies s).2
  ∧ (outbound_replies replies s).1 ≠ Panic.
Proof.
  intros Hs. unfold outbound_replies.
  destruct (outbound_batch_spec replies s Hs) as (r & s' & Hrun & Hs' & Hss & Hr).
  rewrite (run_attempt _ _ _ _ _ Hrun). destruct r as [u|e|]; [by split_and!| |done].
  set (l := [rpc_error _ e e]). destruct (outbound_batch_spec l s' Hs') as (r2 & s2 & Hrun2 & Hs2 & Hss2 & Hr2).
  unfold map_err. rewrite Hrun2. destruct r2; simpl; (split; [done|]); (split; [by etrans|done]).
Qed.

Lemma outbound_event_inv event data s : wire_inv s →
  wire_inv (outbound_event event data s).2 ∧ same_streams s (outbound_event event data s).2
  ∧ (outbound_event event data s).1 ≠ Panic.
Proof.
  intros Hs. unfold outbound_event. rewrite run_expect. destruct (json_total (event_message event data)) as [b ->].
  by apply outbound_send_inv.
Qed.

(** ** Streams that are alive *)

Definition active_at s (id : Z) (now : Timestamp) : bool :=
  match s.(wr_states) !! id with
  | None => false
  | Some t => life_active s.(wr_life) && bool_decide (t.(sst_closed) = None)
              && match t.(sst_deadline) with None => true | Some until => now <? until end
  end.

(** What a handler did to the clock and the log. *)
Definition quiet w w' : Prop := world_time w <= world_time w' ∧ world_log w' = world_log w.
#[global] Instance quiet_preorder : PreOrder quiet.
Proof. split; [by split|]. intros w1 w2 w3 [? ?] [? ?]. split; [lia|congruence]. Qed.

Lemma stream_active_run {E} id s w : ∃ w', quiet w w'
  ∧ stream_active (E := E) id (s, w) = (Ok (active_at s id (world_time w')), (s, w')).
Proof.
  unfold stream_active, active_at, get. rewrite run_gets. cbn [fst].
  destruct (wr_states s !! id) as [t|]; [|by exists w].
  destruct (life_active (wr_life s)) eqn:Hl; cbn [negb orb andb]; [|by exists w].
  destruct (sst_closed t) as [r|] eqn:Hc; [by exists w|].
  destruct (sst_deadline t) as [until|]; [|by exists w].
  exists (world_now w).2. split.
  - split; [rewrite now_time; apply now_monotone|apply now_log].
  - unfold clock_read, lift, bind. cbn. pose proof (now_time w) as Ht. destruct (world_now w) as [t' w']. cbn in *. by rewrite Ht.
Qed.

(** Later states of the same wire: a stream stays closed, a deadline stays. *)
Definition state_le (t t' : StreamState) : Prop :=
  (∀ r, t.(sst_closed) = Some r → t'.(sst_closed) = Some r)
  ∧ (t.(sst_ready) = true → t'.(sst_ready) = true) ∧ t'.(sst_deadline) = t.(sst_deadline).
Definition life_le (l l' : Life) : Prop := life_active l' = true → life_active l = true.
Definition wire_le s s' : Prop :=
  life_le s.(wr_life) s'.(wr_life)
  ∧ ∀ id t, s.(wr_states) !! id = Some t → ∃ t', s'.(wr_states) !! id = Some t' ∧ state_le t t'.
#[global] Instance wire_le_preorder : PreOrder wire_le.
Proof.
  split.
  - intros s. split; [by intros ?|]. intros id t Ht. exists t. by split.
  - intros s1 s2 s3 [H12 Hs12] [H23 Hs23]. split; [unfold life_le in *; auto|]. intros id t Ht.
    destruct (Hs12 id t Ht) as (t2 & Ht2 & Hc & Hr & Hd). destruct (Hs23 id t2 Ht2) as (t3 & Ht3 & Hc' & Hr' & Hd').
    exists t3. split; [done|]. split; [auto|]. split; [auto|]. congruence.
Qed.
Lemma active_later s s' id now now' : wire_le s s' → now <= now' → is_Some (s.(wr_states) !! id) →
  active_at s' id now' = true → active_at s id now = true.
Proof.
  intros [Hl Hst] Hn [t Ht]. destruct (Hst id t Ht) as (t' & Ht' & Hc & _ & Hd). unfold active_at.
  rewrite Ht, Ht', Hd. intros [[Hla Hcl%bool_decide_eq_true]%andb_true_iff Hdl]%andb_true_iff.
  rewrite (Hl Hla). destruct (sst_closed t) as [r|]; [by rewrite (Hc r eq_refl) in Hcl|].
  simpl. destruct (sst_deadline t); lia.
Qed.

Lemma wire_le_on_state s id f : (∀ t, state_le t (f t)) → wire_le s (on_state id f s).
Proof.
  intros Hf. split.
  - destruct (on_state_fields s id f) as [m ->]. by intros ?.
  - intros id' t Ht. destruct (decide (id' = id)) as [->|].
    + exists (f t). split; [by apply on_state_same|done].
    + exists t. split; [by rewrite on_state_other|]. by split.
Qed.
Lemma wire_le_close s id reason : wire_le s (close_stream id reason s).
Proof.
  unfold close_stream. etrans; [by apply (wire_le_on_state s id (λ t, set_notified true
    (set_closed (Some (default reason t.(sst_closed))) t))); intros t; split; [intros r ->|]|].
  split; [by intros ?|]. simpl. intros id' t Ht. exists t. by split.
Qed.
Lemma wire_le_same s s' : s'.(wr_life) = s.(wr_life) → s'.(wr_states) = s.(wr_states) → wire_le s s'.
Proof. intros E1 E2. split; [unfold life_le; by rewrite E1|]. rewrite E2. intros id t Ht. exists t. by split. Qed.

(** ** The host's callbacks *)

(** What a callback of stream [id] may change. *)
Record callback (id : Z) s s' : Prop := {
  cb_le : wire_le s s';
  cb_life : s'.(wr_life) = s.(wr_life);
  cb_queue : s'.(wr_queue) = s.(wr_queue);
  cb_held : s'.(wr_held) = s.(wr_held);
  cb_writing : s'.(wr_writing) = s.(wr_writing);
  cb_sent : s'.(wr_sent) = s.(wr_sent);
  cb_frames : ∃ l, chan_queue s'.(wr_frames) = chan_queue s.(wr_frames) ++ l ∧ Forall (λ f, sf_stream f = id) l;
  cb_dom : ∀ i, s.(wr_states) !! i = None → s'.(wr_states) !! i = None;
}.
Lemma callback_close id reason s : callback id s (close_stream id reason s).
Proof.
  assert (∃ m, close_stream id reason s = set_changed true (set_states m s)) as [m Hm].
  { unfold close_stream. match goal with |- context [on_state id ?f s] => destruct (on_state_fields s id f) as [m ->] end. eauto. }
  constructor; [apply wire_le_close|rewrite Hm; done..| |].
  - exists []. rewrite Hm, app_nil_r. done.
  - intros i Hi. unfold close_stream. simpl. unfold on_state. destruct (wr_states s !! id) eqn:Hid; [|done].
    simpl. rewrite lookup_insert_ne; congruence.
Qed.
Lemma callback_refl id s : callback id s s.
Proof. constructor; try done. exists []. by rewrite app_nil_r. Qed.

Definition callback_ok {A} (id : Z) s w (r : outcome string A * (Wire * W)) : Prop :=
  ∃ o s' w', r = (o, (s', w')) ∧ o ≠ Panic ∧ quiet w w' ∧ callback id s s' ∧ (wire_inv s → wire_inv s').

Lemma close_with_ok {A} id reason s w0 w : quiet w0 w → callback_ok id s w0 (close_with (A := A) id reason (s, w)).
Proof.
  intros Hw. unfold close_with, update. rewrite run_modify. eexists _, _, _. split; [reflexivity|].
  split_and!; [done|done|apply callback_close|apply wire_with_close].
Qed.
Lemma close_ok id reason s w : callback_ok id s w (update (close_stream id reason) (s, w)).
Proof.
  eexists _, _, _. split; [reflexivity|]. split_and!; [done|done|apply callback_close|apply wire_with_close].
Qed.
Lemma nothing_ok id s w0 w (r : outcome string unit) : r ≠ Panic → quiet w0 w → callback_ok id s w0 (r, (s, w)).
Proof. intros Hr Hw. exists r, s, w. by split_and!; [| | |apply callback_refl|]. Qed.

Lemma sink_send_ok id m s w : callback_ok id s w (sink_send id m (s, w)).
Proof.
  unfold sink_send. destruct (stream_active_run (E := string) id s w) as (w' & Hw & Hrun).
  rewrite (run_ok _ _ _ _ _ Hrun). rewrite run_reject_if.
  destruct (active_at s id (world_time w')) eqn:Hact; cbn [negb]; [|by apply nothing_ok].
  destruct (Z.ltb_spec MESSAGE_BYTES (message_len m)); [by apply close_with_ok|].
  unfold get. rewrite run_gets, run_ok_or. cbn [fst].
  destruct (wr_states s !! id) as [t|] eqn:Ht; [|by apply nothing_ok].
  destruct (sem_try_acquire _) as [slots|] eqn:H5; [|by apply close_with_ok].
  destruct (budget_take _ (wr_bytes s)) as [bytes|] eqn:H6; [|by apply close_with_ok].
  destruct (budget_take _ (sst_bytes t)) as [stream_bytes|] eqn:H7; [|by apply close_with_ok].
  destruct (chan_try_send _ _) as [ch|] eqn:H8; [|by apply close_with_ok].
  destruct (chan_send_some _ _ _ _ H8) as (Hq & _ & _).
  set (s' := set_frames ch s.(wr_held) (set_bytes bytes (on_state id (set_permits slots stream_bytes) s))).
  assert (on_state id (set_permits slots stream_bytes) s
    = set_states (<[id := set_permits slots stream_bytes t]> s.(wr_states)) s) as Hon by (unfold on_state; by rewrite Ht).
  exists (Ok tt), s', w'. split_and!; [|done|done| |].
  - unfold update, modify. unfold s'. by rewrite Hon.
  - constructor; [|by unfold s'; rewrite Hon..| |].
    + etrans; [by apply (wire_le_on_state s id (set_permits slots stream_bytes))|]. by apply wire_le_same.
    + exists [mkStreamFrame id m]. split; [done|]. by apply Forall_singleton.
    + intros i Hi. unfold s'. rewrite Hon. simpl. rewrite lookup_insert_ne; congruence.
  - intros Hinv. by eapply push_frame.
Qed.

Lemma stream_message_ok event data id s w : callback_ok id s w (stream_message event data id (s, w)).
Proof.
  unfold stream_message. rewrite run_expect.
  match goal with |- context [json_to_vec ?v] => destruct (json_total v) as [b ->] end. apply sink_send_ok.
Qed.
Lemma sink_terminal_ok id event s w : callback_ok id s w (sink_terminal id event (s, w)).
Proof.
  unfold sink_terminal. destruct event; repeat case_match; try by apply close_with_ok.
  - apply sink_send_ok.
  - apply close_ok.
  - by apply nothing_ok.
Qed.
Lemma sink_event_ok id session event s w : callback_ok id s w (sink_event id session event (s, w)).
Proof.
  unfold sink_event. destruct event; try case_match; try apply stream_message_ok; try apply close_ok; by apply nothing_ok.
Qed.

(** ** [Frames::next] *)

Definition pending_frames s : list StreamFrame := option_list s.(wr_held) ++ chan_queue s.(wr_frames).
Definition notified_of s (f : StreamFrame) : nat :=
  match s.(wr_states) !! f.(sf_stream) with Some t => if t.(sst_notified) then 1 else 0 | None => 0 end.
Definition turns_left s : nat :=
  3 * length (chan_queue s.(wr_frames)) + match s.(wr_held) with Some f => S (notified_of s f) | None => 0 end.
Definition ready_of s (f : StreamFrame) : bool :=
  match s.(wr_states) !! f.(sf_stream) with Some t => t.(sst_ready) | None => false end.

(** What polling the frames leaves alone. *)
Record polled s s' : Prop := {
  po_life : s'.(wr_life) = s.(wr_life);
  po_queue : s'.(wr_queue) = s.(wr_queue);
  po_writing : s'.(wr_writing) = s.(wr_writing);
  po_sent : s'.(wr_sent) = s.(wr_sent);
  po_states : ∀ id, match s.(wr_states) !! id, s'.(wr_states) !! id with
    | Some t, Some t' => t'.(sst_closed) = t.(sst_closed) ∧ t'.(sst_ready) = t.(sst_ready)
                         ∧ t'.(sst_deadline) = t.(sst_deadline)
    | None, None => True
    | _, _ => False
    end;
}.
#[global] Instance polled_preorder : PreOrder polled.
Proof.
  split; [intros s; constructor; try done; intros id; by case_match|].
  intros s1 s2 s3 [] []. constructor; try congruence. intros id.
  specialize (po_states0 id). specialize (po_states1 id). repeat case_match; try done. naive_solver congruence.
Qed.
Lemma polled_active s s' id now : polled s s' → active_at s' id now = active_at s id now.
Proof.
  intros []. unfold active_at. specialize (po_states0 id).
  destruct (wr_states s !! id), (wr_states s' !! id); try done. destruct po_states0 as (-> & _ & ->). by rewrite po_life0.
Qed.
Lemma polled_ready s s' f : polled s s' → ready_of s' f = ready_of s f.
Proof.
  intros []. unfold ready_of. specialize (po_states0 (sf_stream f)).
  destruct (wr_states s !! _), (wr_states s' !! _); try done. by destruct po_states0 as (_ & -> & _).
Qed.
Lemma polled_same s s' : s'.(wr_life) = s.(wr_life) → s'.(wr_queue) = s.(wr_queue) →
  s'.(wr_writing) = s.(wr_writing) → s'.(wr_sent) = s.(wr_sent) → s'.(wr_states) = s.(wr_states) → polled s s'.
Proof. intros ???? E. constructor; try done. intros id. rewrite E. by case_match. Qed.
Lemma polled_on_state s id f : (∀ t, (f t).(sst_closed) = t.(sst_closed) ∧ (f t).(sst_ready) = t.(sst_ready)
    ∧ (f t).(sst_deadline) = t.(sst_deadline)) → polled s (on_state id f s).
Proof.
  intros Hf. constructor; try (destruct (on_state_fields s id f) as [m ->]; done).
  intros i. unfold on_state. destruct (wr_states s !! id) as [t|] eqn:Ht; [|by case_match].
  simpl. rewrite lookup_insert. case_decide; [subst i; by rewrite Ht|by case_match].
Qed.
Lemma polled_drop_frame f s : polled s (drop_frame f s).
Proof.
  unfold drop_frame. etrans; [by apply (polled_same s (give_bytes SharedReserve (as_u32 (cost (sf_message f))) s))|].
  by apply polled_on_state.
Qed.

(** What a poll ends with: every frame it passed over belongs to a stream that was
    not active by then. *)
Definition poll_result s0 (p : Polled) s' (now : Timestamp) : Prop :=
  match p with
  | FramesReady f => ∃ dropped, pending_frames s0 = dropped ++ f :: chan_queue s'.(wr_frames)
      ∧ s'.(wr_held) = None ∧ active_at s' f.(sf_stream) now = true ∧ ready_of s' f = true
      ∧ wire_inv (set_frames s'.(wr_frames) (Some f) s')
      ∧ Forall (λ d, active_at s' d.(sf_stream) now = false) dropped
  | FramesPending => ∃ dropped, pending_frames s0 = dropped ++ pending_frames s'
      ∧ wire_inv s'
      ∧ Forall (λ d, active_at s' d.(sf_stream) now = false) dropped
      ∧ match s'.(wr_held) with
        | Some f => ready_of s' f = false ∧ notified_of s' f = 0%nat
                    ∧ active_at s' f.(sf_stream) now = true
        | None => chan_queue s'.(wr_frames) = []
        end
  | FramesEnded | FramesOutOfFuel => False
  end.

Lemma inactive_later s s' l t t' : polled s s' → t <= t' → Forall (λ d, is_Some (s.(wr_states) !! sf_stream d)) l →
  Forall (λ d, active_at s (sf_stream d) t = false) l → Forall (λ d, active_at s' (sf_stream d) t' = false) l.
Proof.
  intros Hp Ht Hs Hl. rewrite Forall_forall in *. intros d Hd. rewrite (polled_active _ _ _ _ Hp).
  apply not_true_is_false. intros Ha. assert (active_at s (sf_stream d) t = true); [|by rewrite Hl in *].
  apply (active_later s s _ t t'); [done|done|by apply Hs|done].
Qed.

Lemma poll_result_step s0 s1 l p s' now : polled s1 s' →
  pending_frames s0 = l ++ pending_frames s1 →
  Forall (λ d, active_at s1 (sf_stream d) now = false) l →
  poll_result s1 p s' now → poll_result s0 p s' now.
Proof.
  intros Hp H01 Hl. destruct p; simpl; try done.
  - intros (dropped & Hpe & Hinv & Hd & Hrest). exists (l ++ dropped). rewrite H01, Hpe, app_assoc.
    split; [done|]. split; [done|]. split; [|done]. apply Forall_app. split; [|done].
    eapply Forall_impl; [exact Hl|]. intros d. simpl. by rewrite (polled_active _ _ _ _ Hp).
  - intros (dropped & Hpe & Hh & Ha & Hr & Hinv & Hd). exists (l ++ dropped). rewrite H01, Hpe, app_assoc.
    split_and!; [done..|]. apply Forall_app. split; [|done].
    eapply Forall_impl; [exact Hl|]. intros d. simpl. by rewrite (polled_active _ _ _ _ Hp).
Qed.

Lemma frames_turns_spec {E} fuel s w : wire_inv s → (turns_left s < fuel)%nat →
  ∃ p s' w', frames_turns (E := E) fuel (s, w) = (Ok p, (s', w')) ∧ quiet w w' ∧ polled s s'
    ∧ poll_result s p s' (world_time w').
Proof.
  revert s w. induction fuel as [|fuel IH]; intros s w Hs Hfuel; [lia|]. cbn [frames_turns].
  unfold get at 1. rewrite run_gets. cbn [fst]. unfold turns_left in Hfuel.
  destruct (wr_held s) as [f|] eqn:Hheld; cycle 1.
  { destruct (chan_recv (wr_frames s)) as [[f c]|] eqn:Hrecv.
    - destruct (chan_recv_some _ _ _ _ Hrecv) as (Hq & Hfree & Hcl). unfold update. rewrite run_modify.
      set (s1 := set_frames c (Some f) s).
      assert (frames_of s1 = frames_of s) as HF by (unfold frames_of, s1; simpl; by rewrite Hheld, Hq).
      assert (wire_inv s1) as Hs1.
      { destruct Hs. constructor; rewrite ?HF; try done. simpl. rewrite Hcl. rewrite Hq in wi_frames. simpl in wi_frames. split; [lia|tauto]. }
      destruct (IH s1 w Hs1) as (p & s' & w' & Hrun & Hw & Hp & Hres).
      { unfold turns_left, s1, notified_of. simpl. rewrite Hq in Hfuel. simpl in Hfuel. repeat case_match; lia. }
      exists p, s', w'. split; [exact Hrun|]. split; [done|].
      assert (polled s s1) as Hp1 by (by apply polled_same). split; [by etrans|].
      apply (poll_result_step s s1 []); [done| |done|done]. unfold pending_frames, s1. simpl. by rewrite Hheld, Hq.
    - apply chan_recv_none in Hrecv. destruct (wi_frames _ _ _ _ Hs) as [_ ->].
      exists FramesPending, s, w. split; [done|]. split; [done|]. split; [done|].
      exists []. simpl. rewrite Hheld. by split_and!. }
  destruct (stream_active_run (E := E) (sf_stream f) s w) as (w1 & Hw1 & Hrun1). rewrite (run_ok _ _ _ _ _ Hrun1).
  assert (f ∈ frames_of s) as Hf. { unfold frames_of. rewrite Hheld. set_solver. }
  assert (is_Some (wr_states s !! sf_stream f)) as [t Ht].
  { pose proof (wi_frame _ _ _ _ Hs) as Hfr. rewrite Forall_forall in Hfr. by apply Hfr. }
  destruct (active_at s (sf_stream f) (world_time w1)) eqn:Hact; cbn [negb].
  - rewrite Ht. destruct (sst_ready t) eqn:Hready.
    + unfold update. rewrite run_modify. set (s1 := set_frames (wr_frames s) None s).
      assert (polled s s1) as Hp by (by apply polled_same).
      exists (FramesReady f), s1, w1. split; [done|]. split; [done|]. split; [done|].
      exists []. split; [unfold pending_frames; by rewrite Hheld|]. split; [done|]. split; [done|].
      split; [unfold ready_of, s1; simpl; by rewrite Ht|]. split; [|done].
      unfold s1, set_frames. simpl. rewrite <-Hheld. by destruct s.
    + destruct (sst_notified t) eqn:Hnot.
      * unfold update. rewrite run_modify. set (s1 := on_state (sf_stream f) (set_notified false) s).
        assert (wire_inv s1) as Hs1 by (by apply wire_with_on_state).
        assert (polled s s1) as Hp1 by (by apply polled_on_state).
        assert (s1 = set_states (<[sf_stream f := set_notified false t]> s.(wr_states)) s) as Hs1e.
        { unfold s1, on_state. by rewrite Ht. }
        destruct (IH s1 w1 Hs1) as (p & s' & w' & Hrun & Hw & Hp & Hres).
        { unfold turns_left. unfold notified_of in *. rewrite Hs1e. simpl. rewrite Hheld, lookup_insert_eq. simpl.
          rewrite Ht, Hnot in Hfuel. lia. }
        exists p, s', w'. split; [exact Hrun|]. split; [by etrans|]. split; [by etrans|].
        apply (poll_result_step s s1 []); [done| |done|done]. unfold pending_frames. by rewrite Hs1e.
      * exists FramesPending, s, w1. split; [done|]. split; [done|]. split; [done|].
        exists []. split; [done|]. split; [done|]. split; [done|]. rewrite Hheld. unfold ready_of, notified_of.
        by rewrite Ht, Hready, Hnot.
  - unfold update. rewrite run_modify. set (s1 := drop_frame f (set_frames (wr_frames s) None s)).
    assert (polled s s1) as Hp1.
    { etrans; [by apply (polled_same s (set_frames (wr_frames s) None s))|]. apply polled_drop_frame. }
    assert (wire_inv s1) as Hs1.
    { eapply (drop_frame_with _ _ _ s _ f (match wr_writing s with Some (WritingFrame f) => [f] | _ => [] end));
        [exact Hs|..]; try done. unfold frames_of. by rewrite Hheld. }
    assert (wr_held s1 = None ∧ wr_frames s1 = wr_frames s) as [Hh1 Hf1].
    { unfold s1, drop_frame. match goal with |- context [on_state ?i ?g ?x] => destruct (on_state_fields x i g) as [m ->] end. done. }
    destruct (IH s1 w1 Hs1) as (p & s' & w' & Hrun & Hw & Hp & Hres).
    { unfold turns_left. rewrite Hh1, Hf1. lia. }
    exists p, s', w'. split; [exact Hrun|]. split; [by etrans|]. split; [by etrans|].
    apply (poll_result_step s s1 [f]); [done| | |done].
    + unfold pending_frames. by rewrite Hh1, Hf1, Hheld.
    + apply (inactive_later s s1 [f] (world_time w1)); [done|by destruct Hw|by apply Forall_singleton; eauto|].
      by apply Forall_singleton.
Qed.

Lemma frames_poll_spec {E} s w : wire_inv s →
  ∃ p s' w', frames_poll (E := E) (s, w) = (Ok p, (s', w')) ∧ quiet w w' ∧ polled s s'
    ∧ poll_result s p s' (world_time w').
Proof.
  intros Hs. unfold frames_poll, get. rewrite run_gets. cbn [fst]. apply frames_turns_spec; [done|].
  unfold turns_left, frames_fuel, notified_of. repeat case_match; lia.
Qed.

(** ** The writer *)

Definition live l : bool := negb l.(lf_invalidated) && (l.(lf_stop) =? 0).

(** What one turn of an idle writer does, from [s] to [s'] at [now]. *)
Definition turn_result s (r : outcome Close Turn) s' (now : Timestamp) : Prop :=
  match r with
  | Ok Wrote => live s.(wr_life) = true ∧ ∃ x, s'.(wr_writing) = Some x ∧ s'.(wr_sent) = s.(wr_sent) ++ [writing_message x]
      ∧ match x with
        | WritingQueued q => chan_queue s.(wr_queue) = q :: chan_queue s'.(wr_queue)
            ∧ pending_frames s' = pending_frames s
        | WritingFrame f => chan_queue s.(wr_queue) = [] ∧ chan_queue s'.(wr_queue) = []
            ∧ active_at s f.(sf_stream) now = true ∧ ready_of s f = true
            ∧ ∃ dropped, pending_frames s = dropped ++ f :: pending_frames s'
              ∧ Forall (λ d, active_at s d.(sf_stream) now = false) dropped
        end
  | Ok Skipped => s'.(wr_writing) = None ∧ s'.(wr_sent) = s.(wr_sent) ∧ chan_queue s'.(wr_queue) = []
      ∧ ∃ dropped, pending_frames s = dropped ++ pending_frames s'
        ∧ Forall (λ d, active_at s d.(sf_stream) now = false) dropped
  | Ok Idle => s'.(wr_writing) = None ∧ s'.(wr_sent) = s.(wr_sent) ∧ chan_queue s.(wr_queue) = []
      ∧ ∃ dropped, pending_frames s = dropped ++ pending_frames s'
        ∧ Forall (λ d, active_at s d.(sf_stream) now = false) dropped
        ∧ match pending_frames s' with [] => True | f :: _ => ready_of s f = false end
  | Err c => s'.(wr_sent) = s.(wr_sent) ∧ live s.(wr_life) = false
      ∧ c = (if s.(wr_life).(lf_invalidated) then INVALID_SESSION else stop_reason s.(wr_life).(lf_stop))
  | Panic => False
  end.

(** The last part of the turn: the check of the watches, then the socket. *)
Lemma hand_over x s w : s.(wr_writing) = None →
  wire_inv (set_writing (Some x) (s.(wr_sent) ++ [writing_message x]) s) →
  ∃ r s', (let! s := get in
     if s.(wr_life).(lf_invalidated) then update (drop_writing x);; throw INVALID_SESSION
     else if negb (s.(wr_life).(lf_stop) =? 0) then update (drop_writing x);; throw (stop_reason s.(wr_life).(lf_stop))
     else update (λ s, set_writing (Some x) (s.(wr_sent) ++ [writing_message x]) s);; ret Wrote) (s, w) = (r, (s', w))
  ∧ wire_inv s'
  ∧ match r with
    | Ok t => t = Wrote ∧ live s.(wr_life) = true ∧ s' = set_writing (Some x) (s.(wr_sent) ++ [writing_message x]) s
    | Err c => s' = drop_writing x s ∧ live s.(wr_life) = false
        ∧ c = (if s.(wr_life).(lf_invalidated) then INVALID_SESSION else stop_reason s.(wr_life).(lf_stop))
    | Panic => False
    end.
Proof.
  intros Hnone Hinv. unfold get. rewrite run_gets. cbn [fst]. unfold live.
  destruct (lf_invalidated (wr_life s)) eqn:Hi; cbn [negb andb].
  - unfold update. rewrite run_modify. eexists _, _. split; [reflexivity|]. split; [by eapply drop_writing_inv|done].
  - destruct (lf_stop (wr_life s) =? 0) eqn:Hst; cbn [negb]; unfold update; rewrite run_modify.
    + eexists _, _. split; [reflexivity|]. by split.
    + eexists _, _. split; [reflexivity|]. split; [by eapply drop_writing_inv|done].
Qed.

Lemma drop_writing_sent x s : (drop_writing x s).(wr_sent) = s.(wr_sent).
Proof.
  destruct x as [q|f]; simpl.
  - unfold drop_queued, drop_batch. destruct (qd_reserve q), (qd_batch q); simpl; by repeat case_match.
  - unfold drop_frame. match goal with |- context [on_state ?i ?g ?y] => destruct (on_state_fields y i g) as [m ->] end. done.
Qed.

Lemma set_writing_sent x sent sent' s : wire_inv (set_writing x sent s) → wire_inv (set_writing x sent' s).
Proof. intros Hs. eapply (wire_with_same _ _ _ _ (set_writing x sent' s) Hs); try done; simpl; eauto. Qed.

Lemma ready_frame_inv f sent s : wire_inv (set_frames s.(wr_frames) (Some f) s) → s.(wr_writing) = None →
  s.(wr_held) = None → wire_inv (set_writing (Some (WritingFrame f)) sent s).
Proof.
  intros [] Hw Hh.
  assert (queued_of (set_writing (Some (WritingFrame f)) sent s) = queued_of (set_frames s.(wr_frames) (Some f) s)) as HQ.
  { unfold queued_of. simpl. by rewrite Hw. }
  assert (frames_of (set_writing (Some (WritingFrame f)) sent s) = frames_of (set_frames s.(wr_frames) (Some f) s)) as HF.
  { unfold frames_of. simpl. by rewrite Hw, Hh. }
  constructor; rewrite ?HQ, ?HF; done.
Qed.

Lemma writer_take_spec s w : wire_inv s → s.(wr_writing) = None →
  ∃ r s' w', writer_take (s, w) = (r, (s', w')) ∧ quiet w w' ∧ wire_inv s' ∧ turn_result s r s' (world_time w').
Proof.
  intros Hs Hnone. unfold writer_take. unfold get at 1. rewrite run_gets. cbn [fst].
  destruct (chan_recv (wr_queue s)) as [[q c]|] eqn:Hrecv.
  - destruct (chan_recv_some _ _ _ _ Hrecv) as (Hq & Hfree & Hcl). unfold update at 1. rewrite run_bind, run_modify, run_ret.
    set (s1 := set_queue c s).
    destruct (hand_over (WritingQueued q) s1 w) as (r & s' & Hrun & Hinv & Hr); [done| |].
    + match goal with |- wire_inv ?x => set (s2 := x) end.
      assert (queued_of s2 = queued_of s) as HQ.
      { unfold queued_of. simpl. by rewrite Hnone, Hq. }
      assert (frames_of s2 = frames_of s) as HF.
      { unfold frames_of. simpl. by rewrite Hnone. }
      destruct Hs. constructor; rewrite ?HQ, ?HF; try done. simpl. rewrite Hcl. rewrite Hq in wi_queue. simpl in wi_queue. split; [lia|tauto].
    + exists r, s', w. split; [exact Hrun|]. split; [done|]. split; [done|]. destruct r as [t|e|]; [| |done].
      * destruct Hr as (-> & Hl & ->). split; [done|]. by exists (WritingQueued q).
      * destruct Hr as (-> & Hl & ->). split; [by rewrite drop_writing_sent|done].
  - apply chan_recv_none in Hrecv as Hempty. destruct (wi_queue _ _ _ _ Hs) as [_ ->].
    destruct (frames_poll_spec (E := Close) s w Hs) as (p & s1 & w1 & Hrun & Hw1 & Hp & Hres).
    rewrite run_bind, (run_ok _ _ _ _ _ Hrun). destruct p as [| |f|]; simpl in Hres; [done| | |done].
    + rewrite run_ret. destruct Hres as (dropped & Hpe & Hinv & Hd & Hheld).
      exists (Ok Idle), s1, w1. split; [done|]. split; [done|]. split; [done|]. destruct Hp as [Hl Hqu Hwr Hse Hst] eqn:HpE.
      split; [congruence|]. split; [congruence|]. split; [done|]. exists dropped. split; [done|]. split.
      * eapply Forall_impl; [exact Hd|]. intros d. simpl. by rewrite (polled_active s s1).
      * unfold pending_frames. destruct (wr_held s1) as [f|]; simpl; [|by rewrite Hheld].
        rewrite <-(polled_ready s s1) by done. tauto.
    + destruct Hres as (dropped & Hpe & Hh & Hact & Hready & Hinv & Hd).
      destruct (stream_active_run (E := Close) (sf_stream f) s1 w1) as (w2 & Hw2 & Hrun2).
      rewrite run_bind, (run_ok _ _ _ _ _ Hrun2).
      assert (wr_writing s1 = None) as Hn1 by (rewrite (po_writing _ _ Hp); done).
      assert (quiet w w2) as Hw by (by etrans).
      assert (Forall (λ d, is_Some (wr_states s1 !! sf_stream d)) (dropped ++ [f])) as Hsome.
      { assert (Forall (λ d, is_Some (wr_states s !! sf_stream d)) (pending_frames s)) as Hall.
        { pose proof (wi_frame _ _ _ _ Hs) as Hfr. unfold frames_of in Hfr. apply Forall_app in Hfr as [_ Hfr].
          eapply Forall_impl; [exact Hfr|]. by intros d [_ ?]. }
        rewrite Hpe in Hall. replace (f :: chan_queue (wr_frames s1)) with ([f] ++ chan_queue (wr_frames s1)) in Hall by done.
        rewrite app_assoc in Hall. apply Forall_app in Hall as [Hall _]. eapply Forall_impl; [exact Hall|].
        intros d [t Ht]. pose proof (po_states _ _ Hp (sf_stream d)) as Hd'. rewrite Ht in Hd'. destruct (wr_states s1 !! _); [eauto|done]. }
      assert (∀ l t, Forall (λ d, active_at s1 (sf_stream d) t = false) l → Forall (λ d, active_at s (sf_stream d) t = false) l) as Hback.
      { intros l t Hl. eapply Forall_impl; [exact Hl|]. intros d. simpl. by rewrite (polled_active s s1). }
      assert (Forall (λ d, active_at s1 (sf_stream d) (world_time w2) = false) dropped) as Hd2.
      { apply (inactive_later s1 s1 dropped (world_time w1)); [done|by destruct Hw2| |done]. by apply Forall_app in Hsome as [? _]. }
      destruct (active_at s1 (sf_stream f) (world_time w2)) eqn:Hact2.
      * rewrite run_ret. destruct (hand_over (WritingFrame f) s1 w2) as (r & s' & Hrun3 & Hinv3 & Hr); [done|by apply ready_frame_inv|].
        exists r, s', w2. split; [exact Hrun3|]. split; [done|]. split; [done|]. rewrite (po_life _ _ Hp), (po_sent _ _ Hp) in Hr. destruct r as [t|e|]; [| |done].
        -- destruct Hr as (-> & Hl & ->). split; [done|]. exists (WritingFrame f). split; [done|]. split; [done|]. split; [done|].
           split; [simpl; by rewrite (po_queue _ _ Hp)|]. split; [by rewrite <-(polled_active s s1)|].
           split; [by rewrite <-(polled_ready s s1)|]. exists dropped. split; [|by apply Hback].
           rewrite Hpe. unfold pending_frames. simpl. by rewrite Hh.
        -- destruct Hr as (-> & Hl & ->). split; [rewrite drop_writing_sent; apply (po_sent _ _ Hp)|done].
      * unfold update at 1. rewrite run_bind, run_modify, run_ret.
        exists (Ok Skipped), (drop_frame f s1), w2. split; [done|]. split; [done|].
        pose proof (ready_frame_inv f s1.(wr_sent) s1 Hinv Hn1 Hh) as Hinv'.
        split; [by apply (drop_writing_inv (WritingFrame f) s1.(wr_sent))|].
        pose proof (polled_drop_frame f s1) as Hp2.
        assert (wr_held (drop_frame f s1) = None ∧ wr_frames (drop_frame f s1) = wr_frames s1) as [Hh1 Hf1].
        { unfold drop_frame. match goal with |- context [on_state ?i ?g ?x] => destruct (on_state_fields x i g) as [m ->] end. done. }
        split; [by rewrite (po_writing _ _ Hp2)|]. split; [by rewrite (po_sent _ _ Hp2), (po_sent _ _ Hp)|].
        split; [by rewrite (po_queue _ _ Hp2), (po_queue _ _ Hp)|].
        exists (dropped ++ [f]). split.
        -- rewrite Hpe. unfold pending_frames. rewrite Hh1, Hf1. simpl. by rewrite <-app_assoc.
        -- apply Hback, Forall_app. split; [done|]. by apply Forall_singleton.
Qed.

(** ** The system *)

Inductive wire_step : Wire * W → Wire * W → Prop :=
| ws_send m s w : wire_step (s, w) ((outbound_send m s).2, w)
| ws_replies l s w : wire_step (s, w) ((outbound_replies l s).2, w)
| ws_event event data s w : wire_step (s, w) ((outbound_event event data s).2, w)
| ws_open id deadline s w : s.(wr_states) !! id = None →
    wire_step (s, w) (set_states (<[id := stream_state_new deadline]> s.(wr_states)) s, w)
| ws_close id reason s w : wire_step (s, w) (close_stream id reason s, w)
| ws_ready id s w : wire_step (s, w) (make_ready id s, w)
| ws_changed s w : wire_step (s, w) (set_changed false s, w)
| ws_terminal id event s w : wire_step (s, w) (sink_terminal id event (s, w)).2
| ws_subscription id session event s w : wire_step (s, w) (sink_event id session event (s, w)).2
| ws_take s w : s.(wr_writing) = None → wire_step (s, w) (writer_take (s, w)).2
| ws_done s w : wire_step (s, w) (writer_done (E := Close) (s, w)).2
| ws_life l s w : life_le s.(wr_life) l → wire_step (s, w) (set_life l s, w)
| ws_world s w w' : world_time w <= world_time w' → wire_step (s, w) (s, w').
Definition wire_reachable (x : Wire * W) : Prop :=
  ∃ invalidated stop w, rtc wire_step (wire_new invalidated stop, w) x.

Lemma wire_step_inv x y : wire_step x y → wire_inv x.1 → wire_inv y.1.
Proof.
  intros Hstep Hs. destruct Hstep; simpl in *.
  - by apply outbound_send_inv.
  - by apply outbound_replies_inv.
  - by apply outbound_event_inv.
  - by apply wire_with_open.
  - by apply wire_with_close.
  - by apply wire_with_ready.
  - by apply wire_with_changed.
  - destruct (sink_terminal_ok id event s w) as (o & s' & w' & -> & _ & _ & _ & Hinv). by apply Hinv.
  - destruct (sink_event_ok id session event s w) as (o & s' & w' & -> & _ & _ & _ & Hinv). by apply Hinv.
  - destruct (writer_take_spec s w) as (r & s' & w' & -> & _ & Hinv & _); done.
  - by apply (writer_done_inv (E := Close) s w).
  - by apply wire_with_life.
  - done.
Qed.
Lemma wire_reachable_inv x : wire_reachable x → wire_inv x.1.
Proof.
  intros (invalidated & stop & w & Hx). remember (wire_new invalidated stop, w) as y eqn:Hy.
  assert (wire_inv y.1) as Hinv by (subst y; apply wire_new_inv). clear Hy.
  induction Hx as [|x y z Hxy _ IH]; [done|]. apply IH. by eapply wire_step_inv.
Qed.
End Spec.

(** * The wire of a peer: the properties *)
Section Props.
Context `{Tokio, !TokioLaws H, Budgets, !BudgetLaws H0, Json, !JsonLaws H1, Base64, World W, !WorldLaws W}.
Implicit Types (s : Wire) (w : W).

(** C27. What waits for the writer or is being written costs at most what the outbound
    limit leaves beside the socket's own buffer; replies alone can always use the
    reserve that streams never see; a stream has at most 256 frames and 384 KiB
    of it, a message at most 64 KiB, and one chunked reply is queued at a time. *)
Theorem wire_bounded s w : wire_reachable (W := W) (s, w) →
  total (λ q, cost (qd_message q)) (queued_of s) + total frame_cost (frames_of s) + WRITE_BUFFER_BYTES <= OUTBOUND_BYTES
  ∧ total frame_cost (frames_of s) <= OUTBOUND_BYTES - WRITE_BUFFER_BYTES - REPLY_HEADROOM
  ∧ (length (chan_queue s.(wr_queue)) <= OUTBOUND_QUEUE)%nat
  ∧ (∀ q, q ∈ queued_of s → message_len (qd_message q) <= MESSAGE_BYTES)
  ∧ (∀ f, f ∈ frames_of s → message_len (sf_message f) <= MESSAGE_BYTES ∧ is_Some (s.(wr_states) !! sf_stream f))
  ∧ (∀ id, total (of_stream id) (frames_of s) <= Z.of_nat STREAM_FRAMES
           ∧ total (stream_cost id) (frames_of s) <= STREAM_BYTES)
  ∧ (sem_permits s.(wr_chunked) <= 1)%nat
  ∧ (sem_permits s.(wr_chunked) = 0%nat ↔ Exists (λ q, qd_batch q = true) (queued_of s)).
Proof.
  intros Hreach. pose proof (wire_reachable_inv _ Hreach) as Hinv. simpl in Hinv. destruct Hinv.
  assert (∀ l, Forall (λ q, qd_bytes q = cost (qd_message q) ∧ message_len (qd_message q) <= MESSAGE_BYTES) l →
    total (λ q, cost (qd_message q)) l = total (reserve_of SharedReserve) l + total (reserve_of ReplyReserve) l
    ∧ 0 <= total (reserve_of SharedReserve) l) as Hsplit.
  { induction 1 as [|q l [Hq _] _ [IH1 IH2]]; [done|]. rewrite !total_cons, IH1. pose proof (cost_pos (qd_message q)).
    assert (reserve_of SharedReserve q = sh (qd_reserve q) (qd_bytes q)
      ∧ reserve_of ReplyReserve q = rp (qd_reserve q) (qd_bytes q)) as [-> ->] by (unfold reserve_of; by destruct (qd_reserve q)).
    unfold sh, rp. destruct (qd_reserve q); lia. }
  destruct (Hsplit _ wi_queued) as [Hsum Hnn]. rewrite Hsum. unfold SHARED_BYTES in *.
  split; [lia|]. split; [lia|]. split; [lia|]. split.
  { intros q Hq. rewrite Forall_forall in wi_queued. by apply wi_queued. }
  split; [by rewrite Forall_forall in wi_frame|]. split; [|split].
  - intros id. destruct (wr_states s !! id) as [t|] eqn:Ht; [destruct (wi_streams id t Ht) as (? & ? & ?); lia|].
    assert (∀ l, Forall (λ f, message_len (sf_message f) <= MESSAGE_BYTES ∧ is_Some (wr_states s !! sf_stream f)) l →
      total (of_stream id) l = 0 ∧ total (stream_cost id) l = 0) as Hz.
    { induction 1 as [|f l [_ [x Hx]] _ [IH1 IH2]]; [done|]. rewrite !total_cons, IH1, IH2.
      destruct (other_stream id f) as [-> ->]; [congruence|done]. }
    destruct (Hz _ wi_frame) as [-> ->]. unfold STREAM_BYTES. lia.
  - rewrite wi_chunked. destruct (wr_batch s); lia.
  - assert (∀ l, total batch_share l = 0 ↔ ¬ Exists (λ q, qd_batch q = true) l) as Hb.
    { assert (∀ l, 0 <= total batch_share l) as Hpos.
      { intros l. apply total_nonneg, Forall_true. intros q. unfold batch_share. destruct (qd_batch q); lia. }
      intros l. induction l as [|q l IH]; [split; [intros _ Hx; inversion Hx|done]|].
      rewrite total_cons, Exists_cons. unfold batch_share at 1. specialize (Hpos l).
      destruct (qd_batch q) eqn:Hq; [split; [lia|intros []; by left]|]. rewrite Z.add_0_l, IH. naive_solver. }
    rewrite wi_chunked. destruct (wr_batch s) as [|n] eqn:Hn; split; try done.
    + intros Hx. exfalso. apply (Hb (queued_of s)); [lia|done].
    + intros _. destruct (decide (Exists (λ q, qd_batch q = true) (queued_of s))) as [|Hne]; [done|].
      apply Hb in Hne. lia.
Qed.

(** The replies to one call are queued as a whole, in order and behind what is
    queued already; or one error reply with the same id is; or nothing is, and the
    connection is closed with 1008.  Streams are not touched. *)
Theorem replies_whole replies s w : wire_reachable (W := W) (s, w) →
  ∃ r s', outbound_replies replies s = (r, s') ∧ same_streams s s'
    ∧ match r with
      | Ok _ => ∃ sent, (sent = reply_texts replies
            ∨ ∃ code, code ∈ ["payload-too-large"; "busy"]
              ∧ sent = reply_texts [rpc_error (match replies with v :: _ => value_index "id" v | [] => VNull end) code code])
          ∧ fits sent
          ∧ qd_message <$> chan_queue s'.(wr_queue) = (qd_message <$> chan_queue s.(wr_queue)) ++ sent
      | Err c => c = REPLY_QUEUE_FULL ∧ s'.(wr_queue) = s.(wr_queue)
      | Panic => False
      end.
Proof.
  intros Hreach. pose proof (wire_reachable_inv _ Hreach) as Hinv. simpl in Hinv.
  assert (∀ r chunked l, qd_message <$> entries r chunked l = l) as Hent.
  { intros r chunked l. unfold entries. rewrite <-list_fmap_compose. by induction l; f_equal/=. }
  unfold outbound_replies. destruct (outbound_batch_spec replies s Hinv) as (r & s1 & Hrun & Hs1 & Hss & Hr).
  rewrite (run_attempt _ _ _ _ _ Hrun). destruct r as [u|e|]; [| |done].
  - exists (Ok tt), s1. split; [done|]. split; [done|]. destruct Hr as (Hfit & reserve & _ & Hq).
    exists (reply_texts replies). split; [by left|]. split; [done|]. by rewrite Hq, fmap_app, Hent.
  - set (l := [rpc_error _ e e]). destruct Hr as [Hq1 He]. destruct (outbound_batch_spec l s1 Hs1) as (r2 & s2 & Hrun2 & Hs2 & Hss2 & Hr2).
    unfold map_err. rewrite Hrun2. destruct r2 as [u|e2|]; [| |done].
    + exists (Ok u), s2. split; [done|]. split; [by etrans|]. destruct Hr2 as (Hfit & reserve & _ & Hq).
      exists (reply_texts l). split; [right; by exists e|]. split; [done|]. by rewrite Hq, fmap_app, Hent, Hq1.
    + exists (Err REPLY_QUEUE_FULL), s2. split; [done|]. split; [by etrans|]. split; [done|]. destruct Hr2 as [-> _]. done.
Qed.

(** C26. A turn of the writer: nothing is written once the peer is invalid or the
    gateway stops; replies go in the order they were queued, and a frame is written
    only when no reply is queued, so every reply queued before the turn has been
    written; a frame is written only if its stream has been made ready and is active
    at that time, in the order the frames were queued; only frames of streams that
    are not active are dropped; and the writer rests only when nothing is left, or
    when the first frame left belongs to a stream that was not made ready. *)
Theorem writer_turns s w : wire_reachable (W := W) (s, w) → s.(wr_writing) = None →
  ∃ r s' w', writer_take (s, w) = (r, (s', w')) ∧ world_time w <= world_time w'
    ∧ turn_result s r s' (world_time w').
Proof.
  intros Hreach Hnone. pose proof (wire_reachable_inv _ Hreach) as Hinv.
  destruct (writer_take_spec s w Hinv Hnone) as (r & s' & w' & Hrun & [Hw _] & _ & Hr). eauto 6.
Qed.
End Props.

(** ** A run: a stream is opened, its frame waits until the stream is made ready *)
Module WireDemo.
Definition world : SimWorld := mkSim 1000 1 8 0 [].
Definition opened : Wire := set_states (<[1 := stream_state_new (Some 2000)]> ∅) (wire_new false 0).
Definition frame : HerdrTerminalEvent := TerminalFrame "s" 0 true "ansi" 80 24 "aGk=".
Definition after_frame : Wire * SimWorld := (sink_terminal 1 frame (opened, world)).2.
Definition OPENED : Value := VObject [("id", VNumber 7); ("result", VObject [("stream", VNumber 1)])].
Definition after_reply : Wire * SimWorld :=
  ((outbound_replies [OPENED] (make_ready 1 after_frame.1)).2, after_frame.2).
Definition after_first : Wire * SimWorld := (writer_take after_reply).2.
Definition after_done : Wire * SimWorld := (writer_done (E := Close) after_first).2.
Definition after_second : Wire * SimWorld := (writer_take after_done).2.

Example reply_then_frame : wr_sent after_second.1
  = [MText (sim_json OPENED); MBinary (u32_be 1 +:+ "hi")].
Proof. vm_compute. reflexivity. Qed.
Example waits_before_reply : ((writer_take after_frame).1, wr_held (writer_take after_frame).2.1)
  = (Ok Idle, Some (mkStreamFrame 1 (MBinary (u32_be 1 +:+ "hi")))).
Proof. vm_compute. reflexivity. Qed.

Lemma reach_frame : wire_reachable (W := SimWorld) after_frame.
Proof.
  exists false, 0, world. eapply rtc_l; [by apply (ws_open 1 (Some 2000) (wire_new false 0))|].
  apply rtc_once. apply (ws_terminal 1 frame).
Qed.
Lemma reach_reply : wire_reachable (W := SimWorld) after_reply.
Proof.
  destruct reach_frame as (i & st & w & Hr). exists i, st, w. etrans; [exact Hr|]. rewrite (surjective_pairing after_frame).
  eapply rtc_l; [by apply (ws_ready 1)|]. apply rtc_once. apply ws_replies.
Qed.
Lemma reach_take (x : Wire * SimWorld) : wr_writing x.1 = None → wire_reachable x → wire_reachable (writer_take x).2.
Proof.
  intros Hx (i & st & w & Hr). exists i, st, w. etrans; [exact Hr|]. destruct x. by apply rtc_once, ws_take.
Qed.
Lemma reach_written (x : Wire * SimWorld) : wire_reachable x → wire_reachable (writer_done (E := Close) x).2.
Proof. intros (i & st & w & Hr). exists i, st, w. etrans; [exact Hr|]. destruct x. by apply rtc_once, ws_done. Qed.
Lemma reach_done : wire_reachable (W := SimWorld) after_done.
Proof. apply reach_written, reach_take; [by vm_compute|exact reach_reply]. Qed.
Lemma reach_pair (x : Wire * SimWorld) : wire_reachable x → wire_reachable (x.1, x.2).
Proof. by destruct x. Qed.
End WireDemo.

Lemma wire_bounded_witness : wire_reachable WireDemo.after_frame
  ∧ total (λ q, cost (qd_message q)) (queued_of (fst WireDemo.after_frame))
    + total frame_cost (frames_of (fst WireDemo.after_frame)) + WRITE_BUFFER_BYTES <= OUTBOUND_BYTES.
Proof.
  split; [exact WireDemo.reach_frame|].
  eapply (wire_bounded (W := SimWorld) (fst WireDemo.after_frame) (snd WireDemo.after_frame)).
  exact (WireDemo.reach_pair _ WireDemo.reach_frame).
Defined.

Lemma replies_whole_witness : ∃ r s', outbound_replies [WireDemo.OPENED] (fst WireDemo.after_frame) = (r, s').
Proof.
  destruct (replies_whole (W := SimWorld) [WireDemo.OPENED] (fst WireDemo.after_frame) (snd WireDemo.after_frame))
    as (r & s' & Hrun & _); [exact (WireDemo.reach_pair _ WireDemo.reach_frame)|]. exists r, s'. exact Hrun.
Defined.

Lemma writer_turns_witness : ∃ r s' w', writer_take (fst WireDemo.after_done, snd WireDemo.after_done) = (r, (s', w'))
  ∧ turn_result (fst WireDemo.after_done) r s' (world_time w').
Proof.
  destruct (writer_turns (W := SimWorld) (fst WireDemo.after_done) (snd WireDemo.after_done))
    as (r & s' & w' & Hrun & _ & Hr); [exact (WireDemo.reach_pair _ WireDemo.reach_done)|by vm_compute|].
  exists r, s', w'. split; [exact Hrun|exact Hr].
Defined.
