(* ===== verification/Rpc.v ===== *)
(** * [bridge.rs]: the calls of a peer, up to the bridges

    [rpc] parses a text message, authorises its method's scope in the same
    critical section in which it answers, and answers itself what needs no host;
    the rest is ["not-implemented"] here and goes to the read and write bridges. *)

From stdpp Require Import base gmap strings list.
From Stdlib Require Import ZArith Lia.
From S2P Require Import Prelude Rust Externals Clock Devices Admin Guard Events World.
From S2P Require Import Pairing Webauthn Session Authorize Gateway WriteAudit Jobs Herdr Push GitBridge Control.
From S2P Require Import Http Wire.

Local Open Scope Z_scope.

(** ** Methods *)

Definition METHODS : list (string * Scope) :=
  [("hello", View); ("session.ping", View); ("sessions.list", View); ("snapshot.get", View);
   ("events.subscribe", View); ("terminal.observe", View); ("stream.close", View);
   ("push.subscribe", View); ("push.unsubscribe", View); ("push.status", View);
   ("git.status", View); ("git.branches", View); ("git.log", View); ("git.commit", View); ("git.diff", View);
   ("terminal.control", Control); ("terminal.input", Control); ("terminal.scroll", Control);
   ("terminal.release", Control); ("agent.prompt", Control); ("pane.sendKeys", Control);
   ("full.open", Full); ("full.input", Full); ("full.resize", Full); ("full.close", Full)].

(** [read_bridge::is_read], [writes::is_write], [writes::method_scope] *)
Definition is_read (method : string) : bool :=
  bool_decide (method ∈ ["sessions.list"; "snapshot.get"; "events.subscribe"; "terminal.observe";
                         "stream.close"; "push.subscribe"]) || is_git method.
Definition is_write (method : string) : bool :=
  bool_decide (method ∈ ["terminal.control"; "terminal.input"; "terminal.scroll"; "terminal.release";
                         "agent.prompt"; "pane.sendKeys"; "full.open"; "full.input"; "full.resize"; "full.close"]).
Definition method_scope (method : string) : Scope := if starts_with "full." method then Full else Control.

(** [herdr::METHOD_MAPPING]: the method, the requests it makes, the transport. *)
Definition METHOD_MAPPING : list (string * list string * string) :=
  [("hello", [], "gateway"); ("session.ping", [], "gateway"); ("sessions.list", [], "session list --json");
   ("snapshot.get", ["ping"; "session.snapshot"], "API");
   ("events.subscribe", ["ping"; "events.subscribe"], "API subscription");
   ("terminal.observe", ["ping"; "session.snapshot"], "terminal session observe");
   ("stream.close", [], "release connector/subscription");
   ("terminal.control", ["ping"; "session.snapshot"], "terminal session control");
   ("terminal.input", [], "connector terminal.input"); ("terminal.scroll", [], "connector terminal.scroll");
   ("terminal.release", [], "release connector");
   ("agent.prompt", ["ping"; "session.snapshot"; "agent.prompt"], "API");
   ("pane.sendKeys", ["ping"; "session.snapshot"; "agent.send_keys"], "API; agent panes only");
   ("full.open", ["ping"], "official client PTY"); ("full.input", [], "official client PTY input");
   ("full.resize", [], "official client PTY resize"); ("full.close", [], "release official client")].
Definition CHUNK_BYTES : Z := 36 * 1024.
Definition INLINE_BYTES : Z := 48 * 1024.
Definition WRITE_QUEUE : nat := 16.

(** [read_bridge::methods], [read_bridge::capabilities] *)
Definition methods : list string := (λ e, e.1.1) <$> METHOD_MAPPING.
Definition capabilities : Value := VObject
  [("methods", VArray (VString <$> methods));
   ("limits", VObject
     [("messageBytes", VNumber MESSAGE_BYTES); ("snapshotBytes", VNumber SNAPSHOT_BYTES);
      ("snapshotChunkBytes", VNumber CHUNK_BYTES); ("streams", VNumber (Z.of_nat MAX_STREAMS));
      ("streamFrames", VNumber (Z.of_nat STREAM_FRAMES)); ("streamBytes", VNumber STREAM_BYTES);
      ("outboundBytes", VNumber OUTBOUND_BYTES); ("pendingCalls", VNumber 2);
      ("globalHerdrReadCalls", VNumber (Z.of_nat MAX_CALLS)); ("globalHerdrWriteCalls", VNumber 2);
      ("globalHerdrCleanupCalls", VNumber 2); ("deviceReadCalls", VNumber 2); ("deviceWriteCalls", VNumber 1);
      ("writeQueue", VNumber 16)]);
   ("snapshotChunks", VString "base64-json-v1"); ("observeSize", VString "layout-rect-not-pty");
   ("controlSize", VString "confirmation-required");
   ("fullSize", VObject [("minCols", VNumber 20); ("maxCols", VNumber 400);
                         ("minRows", VNumber 8); ("maxRows", VNumber 200)])].

(** [Scope] as serde writes it *)
Definition scope_name (s : Scope) : string :=
  match s with View => "view" | Control => "control" | Full => "full" end.

(** [Call] *)
Record Call := mkCall { cl_id : Value; cl_method : string; cl_params : Value }.
(** The condition on a parsed call in [rpc]: [id] is a number or a short string,
    [params] an object or absent. *)
Definition call_ok (c : Call) : bool :=
  (match as_u64 c.(cl_id) with Some _ => true | None => false end
   || match as_str c.(cl_id) with Some id => len id <=? 128 | None => false end)
  && (is_null c.(cl_params) || bool_decide (is_Some (as_object c.(cl_params)))).

Definition result_reply (id value : Value) : Value := VObject [("id", id); ("result", value)].
(** [reply["result"][key] = v] *)
Definition set_result (key : string) (v reply : Value) : option Value :=
  result ← value_set key v (value_index "result" reply);
  value_set "result" result reply.

(** ** The rate of messages

    [messages] starts with the time the peer was served from; [now] is the time at
    which a complete message arrived, on tokio's monotonic clock. *)
Definition MESSAGE_RATE : nat := 50.
Definition message_admit (now : Z) (messages : list Z) : bool * list Z :=
  let messages := drop_while (λ at_, seconds 1 <=? Z.max 0 (now - at_)) messages in
  if bool_decide (MESSAGE_RATE ≤ length messages)%nat then (false, messages)
  else (true, messages ++ [now]).

Section Rpc.
Context `{Base64, Crypto, Http, Tokio, !Webauthn Transport, World W}.
(** The derived [Deserialize] of [Call]; [to_rfc3339_opts] *)
Context (parse_call : string → option Call) (rfc3339 : Timestamp → string).
Context (config : GwConfig) (other : nat → Whole * W → Whole * W).

Abbreviation whole_m E A := (M (Whole * W) E A).

(** [Gateway::with_authorized] whose closure uses more of the gateway than the
    identity, still under its lock. *)
Definition with_authorized_whole {T} (ctx : AuthContext) (scope : Scope) (write : whole_m Failure T) : whole_m Failure T :=
  in_gw (authorized config ctx scope (ret tt));; write.

(** [Push::call], which also uses the world *)
Definition in_push_world {E A} (m : M (Push * W) E A) : whole_m E A :=
  zoom (λ '(g, w), (wh_push g, w))
       (λ '(x, w) '(g, _), (mkWhole g.(wh_gw) x g.(wh_spaces) g.(wh_jobs) g.(wh_audits), w)) m.

(** The decision that [rpc] takes under the lock. *)
Definition rpc_decide (ctx : AuthContext) (call : Call) : whole_m Failure Value :=
  let id := call.(cl_id) in
  let method := call.(cl_method) in
  match List.find (λ m, bool_decide (m.1 = method)) METHODS with
  | None => ret (rpc_error id "unknown-method" "Unknown method")
  | Some (name, _) =>
      if bool_decide (name = "hello") then
        let! now := clock_read in
        ret (result_reply id (VObject [("protocolVersion", VNumber 1); ("serverTime", VString (rfc3339 now))]))
      else if bool_decide (name = "session.ping") then
        let! now := clock_read in
        ret (result_reply id (VObject [("serverTime", VString (rfc3339 now))]))
      else if bool_decide (name ∈ ["push.unsubscribe"; "push.status"]) then
        let! r := attempt (in_push_world (push_call ctx.(ctx_device_id) name call.(cl_params))) in
        match r with
        | inr result => ret (result_reply id result)
        | inl code => ret (rpc_error id code code)
        end
      else ret (rpc_error id "not-implemented" "Not implemented")
  end.
Definition scope_of (method : string) : Scope :=
  match List.find (λ m, bool_decide (m.1 = method)) METHODS with Some (_, scope) => scope | None => View end.

(** The loop of [hello] over the scopes, each in a critical section of its own. *)
Fixpoint hello_scopes (n : nat) (ctx : AuthContext) (l : list Scope) : whole_m Close (list Scope) :=
  match l with
  | [] => ret []
  | scope :: l =>
      modify (other n);;
      let! r := attempt (with_authorized_whole ctx scope (ret tt)) in
      let! here := (match r with
        | inr _ => ret [scope]
        | inl (status, _) => if status =? FORBIDDEN then ret [] else throw INVALID_SESSION
        end) in
      let! rest := hello_scopes (S n) ctx l in
      ret (here ++ rest)
  end.

(** [rpc] *)
Definition rpc (ctx : AuthContext) (text : string) : whole_m Close Value :=
  match (c ← from_object parse_call text; if call_ok c then Some c else None) with
  | None =>
      map_err (λ _, INVALID_SESSION) (with_authorized_whole ctx View (ret tt));;
      ret (rpc_error VNull "invalid-request" "Invalid request")
  | Some call =>
      let! decision := attempt (with_authorized_whole ctx (scope_of call.(cl_method)) (rpc_decide ctx call)) in
      match decision with
      | inr reply =>
          if bool_decide (call.(cl_method) = "hello") then
            let! scopes := hello_scopes 0 ctx [View; Control; Full] in
            let! reply := expect (set_result "scopes" (VArray ((λ s, VString (scope_name s)) <$> scopes)) reply) in
            let! reply := expect (set_result "capabilities" capabilities reply) in
            modify (other 3);;
            let! push := in_push (gets push_hello) in
            expect (set_result "push" push reply)
          else ret reply
      | inl e =>
          if bool_decide (e = SCOPE_NOT_GRANTED) then ret (rpc_error call.(cl_id) "scope-not-granted" "Scope not granted")
          else if e.1 =? FORBIDDEN then ret (rpc_error call.(cl_id) "elevation-required" "Elevation required")
          else throw INVALID_SESSION
      end
  end.
End Rpc.

Example methods_are_known : forallb (λ m, bool_decide (m ∈ METHODS.*1)) methods = true.
Proof. reflexivity. Qed.
Example reads_and_writes_apart : forallb (λ m, negb (is_read m && is_write m)) METHODS.*1 = true.
Proof. reflexivity. Qed.
