(* ===== verification/RpcProps.v ===== *)
(** * What a peer's call is answered with, and the rate of its messages *)
From stdpp Require Import base gmap strings list fin_maps fin_sets relations.
From Stdlib Require Import ZArith Lia.
From S2P Require Import Prelude Steps Rust Externals Crates Clock Devices Admin Guard Events World.
From S2P Require Import Pairing PairingFacts PairingSpec Webauthn WebauthnFacts Session.
From S2P Require Import SessionInv SessionOps SessionLogin Authorize SessionSpec.
From S2P Require Import SessionProps Gateway GatewayFacts WriteAudit Jobs Herdr Push.
From S2P Require Import Push PushNotices GitBridge GitFacts GitProps Kept Control ControlFacts.
From S2P Require Import ControlProps Http Runs Wire Rpc.
Local Open Scope Z_scope.

(** ** The rate *)

Lemma drop_while_suffix {A} (p : A → bool) l : ∃ k, l = k ++ drop_while p l ∧ Forall (λ x, p x = true) k.
Proof.
  induction l as [|x l (k & Hk & Hp)]; [by exists []|]. simpl. destruct (p x) eqn:Hx; [|by exists []].
  exists (x :: k). simpl. split; [by f_equal|by constructor].
Qed.
Lemma drop_while_head {A} (p : A → bool) l x r : drop_while p l = x :: r → p x = false.
Proof. induction l as [|y l IH]; [done|]. simpl. destruct (p y) eqn:Hy; [done|]. intros [= -> ->]. done. Qed.

(** The messages of a connection: those admitted until one is refused, and whether
    one was. *)
Fixpoint admitted_times (times messages : list Z) : list Z * bool :=
  match times with
  | [] => ([], false)
  | now :: times =>
      let '(ok, messages) := message_admit now messages in
      if ok then let '(l, refused) := admitted_times times messages in (now :: l, refused) else ([], true)
  end.

Definition in_second (t x : Z) : bool := (t - seconds 1 <? x) && (x <=? t).
Definition count_second (t : Z) (l : list Z) : nat := length (List.filter (in_second t) l).

Lemma count_second_app t l k : count_second t (l ++ k) = (count_second t l + count_second t k)%nat.
Proof. unfold count_second. by rewrite List.filter_app, length_app. Qed.
Lemma count_second_le t l : (count_second t l ≤ length l)%nat.
Proof. unfold count_second. apply List.filter_length_le. Qed.
Lemma count_second_none t l : Forall (λ x, in_second t x = false) l → count_second t l = 0%nat.
Proof. unfold count_second. induction 1 as [|x l Hx _ IH]; [done|]. simpl. by rewrite Hx. Qed.
Lemma count_second_all t l : Forall (λ x, in_second t x = true) l → count_second t l = length l.
Proof. unfold count_second. induction 1 as [|x l Hx _ IH]; [done|]. simpl. rewrite Hx. simpl. by f_equal. Qed.

(** Up to [c] the times [old ++ messages] were admitted, in order. *)
Record window (c : Z) (old messages : list Z) : Prop := {
  wd_old : Forall (λ x, seconds 1 <= c - x) old;
  wd_past : Forall (λ x, x <= c) messages;
  wd_sorted : ∀ i j x y, (i < j)%nat → messages !! i = Some x → messages !! j = Some y → x <= y;
  wd_room : (length messages ≤ MESSAGE_RATE)%nat;
  wd_rate : ∀ t, (count_second t (old ++ messages) ≤ MESSAGE_RATE)%nat;
}.

Lemma message_admit_step c old messages now : window c old messages → c <= now →
  let '(ok, messages') := message_admit now messages in
  (ok = true → ∃ old', old ++ messages ++ [now] = old' ++ messages' ∧ window now old' messages')
  ∧ (ok = false → count_second now (old ++ messages) = MESSAGE_RATE).
Proof.
  intros [Hold Hpast Hsort Hroom Hrate] Hc. unfold message_admit.
  set (p := λ at_ : Z, seconds 1 <=? Z.max 0 (now - at_)).
  destruct (drop_while_suffix p messages) as (k & Hk & Hp). set (rest := drop_while p messages) in *.
  assert (Forall (λ x, seconds 1 <= now - x) (old ++ k)) as Hstale.
  { apply Forall_app. split; (eapply Forall_impl; [eassumption|]); intros x Hx.
    - simpl in Hx. lia.
    - unfold p, seconds in *. lia. }
  rewrite Hk in Hpast, Hsort, Hroom. apply Forall_app in Hpast as [_ Hpast]. rewrite length_app in Hroom.
  assert (Forall (λ x, in_second now x = true) rest) as Hrest.
  { destruct rest as [|x rest'] eqn:Hr; [done|]. pose proof (drop_while_head p messages x rest') as Hhead.
    fold rest in Hhead. rewrite Hr in Hhead. specialize (Hhead eq_refl).
    apply Forall_forall. intros y Hy. rewrite Forall_forall in Hpast. specialize (Hpast y Hy).
    assert (x <= y) as Hxy.
    { apply list_elem_of_lookup in Hy as [[|j] Hj]; [simpl in Hj; simplify_eq; lia|].
      apply (Hsort (length k) (length k + S j)%nat x y); [lia| |].
      - rewrite lookup_app_r, Nat.sub_diag by lia. done.
      - rewrite lookup_app_r by lia. by replace (length k + S j - length k)%nat with (S j) by lia. }
    unfold p, in_second, seconds in *. lia. }
  assert (∀ t, now <= t → count_second t (old ++ k) = 0%nat) as Hzero.
  { intros t Ht. apply count_second_none. eapply Forall_impl; [exact Hstale|]. intros x Hx. simpl in Hx.
    unfold in_second. lia. }
  case_bool_decide as Hfull; (split; [|try done]); try done.
  - intros _. rewrite Hk, app_assoc, count_second_app, Hzero by lia. rewrite count_second_all by done. lia.
  - intros _. exists (old ++ k). split; [by rewrite Hk, <-!app_assoc|]. constructor.
    + exact Hstale.
    + apply Forall_app. split; [|by apply Forall_singleton]. eapply Forall_impl; [exact Hpast|]. intros x Hx. simpl in Hx. lia.
    + intros i j x y Hij Hi Hj. apply lookup_app_Some in Hj as [Hj|[Hlen Hj]].
      * rewrite lookup_app_l in Hi by (apply lookup_lt_Some in Hj; lia).
        apply (Hsort (length k + i)%nat (length k + j)%nat x y); [lia| |]; (rewrite lookup_app_r by lia);
          [by replace (length k + i - length k)%nat with i by lia|by replace (length k + j - length k)%nat with j by lia].
      * apply list_lookup_singleton_Some in Hj as [Hj0 <-].
        rewrite lookup_app_l in Hi by lia. apply list_elem_of_lookup_2 in Hi.
        rewrite Forall_forall in Hpast. specialize (Hpast x Hi). lia.
    + rewrite length_app. simpl. lia.
    + intros t. destruct (decide (now <= t)) as [Ht|Ht].
      * rewrite count_second_app, Hzero by done. pose proof (count_second_le t (rest ++ [now])) as Hle.
        rewrite length_app in Hle. simpl in *. lia.
      * assert (old ++ k ++ rest = old ++ messages) as Heq by (by rewrite <-Hk).
        specialize (Hrate t). rewrite <-Heq in Hrate. rewrite <-!app_assoc, !app_assoc, count_second_app.
        rewrite !app_assoc in Hrate. rewrite (count_second_none t [now]); [lia|]. apply Forall_singleton. unfold in_second. lia.
Qed.

Fixpoint ascending (c : Z) (l : list Z) : Prop :=
  match l with [] => True | x :: l => c <= x ∧ ascending x l end.

Lemma admitted_window c old messages times : window c old messages → ascending c times →
  let '(l, refused) := admitted_times times messages in
  (∀ t, (count_second t (old ++ messages ++ l) ≤ MESSAGE_RATE)%nat)
  ∧ (refused = true → ∃ n now, times !! n = Some now ∧ length l = n
       ∧ count_second now (old ++ messages ++ l) = MESSAGE_RATE)
  ∧ (refused = false → l = times).
Proof.
  revert c old messages. induction times as [|now times IH]; intros c old messages Hw Hasc; cbn [admitted_times].
  { rewrite app_nil_r. split; [apply Hw|]. by split. }
  destruct Hasc as [Hc Hasc]. pose proof (message_admit_step c old messages now Hw Hc) as Hstep.
  destruct (message_admit now messages) as [[] messages']; destruct Hstep as [Hok Hno].
  - destruct (Hok eq_refl) as (old' & Heq & Hw'). specialize (IH now old' messages' Hw' Hasc).
    destruct (admitted_times times messages') as [l refused]. destruct IH as (Hr & Hf & Hn).
    assert (old ++ messages ++ now :: l = old' ++ messages' ++ l) as Heq'.
    { replace (now :: l) with ([now] ++ l) by done. rewrite !app_assoc, <-(app_assoc old), Heq. by rewrite <-!app_assoc. }
    rewrite Heq'. split; [done|]. split.
    + intros Hrf. destruct (Hf Hrf) as (n & now' & Hl & Hlen & Hcnt). exists (S n), now'. simpl. split; [done|]. split; [by f_equal|done].
    + intros Hrf. by rewrite (Hn Hrf).
  - rewrite app_nil_r. split; [apply Hw|]. split; [|done]. intros _. exists 0%nat, now. split; [done|]. split; [done|]. by apply Hno.
Qed.

(** ** Authorisation in the whole gateway *)
Section Facts.
Context `{Base64, !Base64Laws _, Crypto, !CryptoLaws _, Http, Tokio, !Webauthn Transport, World W, !WorldLaws W}.
Context (d0 : gmap string Device) (parse_subscribe : Value → option SubscribeParams).
Context (parse_call : string → option Call) (rfc3339 : Timestamp → string).
Context (config : GwConfig) (other : nat → Whole * W → Whole * W).
Abbreviation whole_inv := (whole_inv d0).
Abbreviation task_step := (task_step parse_subscribe).

(** [t] is the state right after [ctx] was found authorised for [scope]. *)
Definition moment (ctx : AuthContext) (scope : Scope) (t : Whole * W) : Prop :=
  ∃ i, admitted (gc_rp_id config) ctx scope i (gw_identity (wh_gw t.1)) (world_time t.2).

Lemma with_authorized_error host ctx scope t e t' :
  with_authorized (W := W) host ctx scope (ret tt) t = (Err e, t') →
  e = AUTHENTICATION_REQUIRED ∨ e = SCOPE_NOT_GRANTED ∨ e = ELEVATION_REQUIRED.
Proof.
  assert (wp (with_authorized (W := W) host ctx scope (ret tt)) (λ r _, ∀ e, r = Err e →
    e = AUTHENTICATION_REQUIRED ∨ e = SCOPE_NOT_GRANTED ∨ e = ELEVATION_REQUIRED) t) as Hwp.
  { unfold with_authorized.
    assert (∀ (m : M (Identity * W) Failure bool) (Q : outcome Failure bool → Identity * W → Prop) s,
      wp m (λ r _, ∀ e, r ≠ Err e) s → (∀ b t, Q (Ok b) t) → (∀ t, Q Panic t) → wp m Q s) as Hany.
    { intros m Q s He Hb Hp. eapply wp_mono; [exact He|]. intros [b|e1|] t1 Hne; [apply Hb|by destruct (Hne e1)|apply Hp]. }
    assert (∀ sc (s : Identity * W), wp (revalidate (E := Failure) ctx sc) (λ r _, ∀ e, r ≠ Err e) s) as Hre.
    { intros sc [i w]. unfold revalidate, validate. world_steps; done. }
    assert (∀ (s : Identity * W), wp (can_elevate (E := Failure) ctx scope) (λ r _, ∀ e, r ≠ Err e) s) as Hce.
    { intros [i w]. unfold can_elevate. world_steps; done. }
    apply wp_bind, Hany; [case_match; [done|apply Hre]| |done]. intros b t1.
    apply wp_bind, wp_reject_if. destruct (negb b); [intros e1 [= <-]; auto|].
    apply wp_bind, Hany; [case_match; [done|apply Hce]| |done]. intros b2 t2.
    apply wp_bind, wp_reject_if. destruct (negb b2); [intros e1 [= <-]; auto|].
    apply wp_bind, Hany; [apply Hre| |done]. intros b3 t3.
    apply wp_bind, wp_reject_if. destruct (negb b3); [intros e1 [= <-]; auto|]. by apply wp_ret. }
  intros Hrun. by apply (wp_run _ _ _ _ _ Hwp Hrun).
Qed.

Lemma authorized_wp ctx scope (Q : outcome Failure unit → Whole * W → Prop) t :
  whole_inv t →
  (∀ e t', whole_inv t' → world_time t.2 <= world_time t'.2 →
     e = AUTHENTICATION_REQUIRED ∨ e = SCOPE_NOT_GRANTED ∨ e = ELEVATION_REQUIRED → Q (Err e) t') →
  (∀ t', whole_inv t' → world_time t.2 <= world_time t'.2 → moment ctx scope t' → Q (Ok tt) t') →
  wp (in_gw (authorized config ctx scope (ret tt))) Q t.
Proof.
  destruct t as [g w]. intros Hi Herr Hok.
  set (m := with_authorized (gc_rp_id config) ctx scope (ret tt) : M (Identity * W) Failure unit).
  assert (inv d0 (gw_identity (wh_gw g), w)) as Hid by apply (gi_identity _ _ (wi_gw _ _ (wi_wf _ _ Hi))).
  assert (wp m (λ r t, irel d0 (gw_identity (wh_gw g), w) t ∧ r ≠ Panic ∧
    (r = Ok tt → ∃ i, admitted (gc_rp_id config) ctx scope i t.1 (world_time t.2))) (gw_identity (wh_gw g), w)) as Hspec.
  { unfold m. eapply with_authorized_spec; [by apply irel_refl| |].
    - intros e i' w' Hr' _. by split_and!.
    - intros now i0 i1 w1 Hr1 _ _ _ _ Had. apply wp_ret. simpl. split; [done|]. split; [done|]. eauto. }
  assert (kept (gw_identity (wh_gw g), w) (m (gw_identity (wh_gw g), w)).2) as Hkept.
  { apply along_kept, kept_authorized. apply along_ret. }
  unfold authorized. fold m. eapply identity_wp; [exact Hi|]. apply run_wp. intros r [i' w'] Hrun.
  rewrite Hrun in Hkept. destruct (wp_run _ _ _ _ _ Hspec Hrun) as (Hrel & Hnp & Hadm).
  split; [done|]. intros g' -> Hwf. simpl in *.
  assert (whole_inv (with_gw (mkGw (gw_pairings (wh_gw g)) i' (gw_ceremonies (wh_gw g))) g, w')) as Hi'.
  { constructor; [done|]. intros id Hpush. apply device_known_iff. simpl. apply Hkept. simpl.
    apply device_known_iff, (wi_known _ _ Hi). exact Hpush. }
  destruct r as [[]|e|]; [| |done].
  - apply Hok; [done|apply Hrel|]. by apply Hadm.
  - apply Herr; [done|apply Hrel|]. by eapply with_authorized_error.
Qed.

(** ** [rpc] *)

Hypothesis others : ∀ n t, rtc task_step t (other n t).
Hypothesis others_time : ∀ n t, world_time t.2 <= world_time (other n t).2.

Lemma other_wp {E} n (Q : outcome E unit → Whole * W → Prop) t : whole_inv t →
  (∀ t', whole_inv t' → world_time t.2 <= world_time t'.2 → Q (Ok tt) t') → wp (modify (other n)) Q t.
Proof. intros Hi HQ. apply wp_modify, HQ; [by eapply tasks_inv|apply others_time]. Qed.

Lemma push_world_wp {E} device method params (Q : outcome E (string + Value) → Whole * W → Prop) t :
  whole_inv t →
  (∀ r t', whole_inv t' → world_time t.2 <= world_time t'.2 → Q (Ok r) t') →
  wp (attempt (in_push_world (push_call device method params))) Q t.
Proof.
  destruct t as [g w]. intros Hi HQ. apply wp_attempt, wp_zoom. apply run_wp. intros r [p' w'] Hrun. simpl in Hrun.
  assert (push_task parse_subscribe (wh_push g, w) (p', w')) as Ht.
  { pose proof (pt_call parse_subscribe device method params (wh_push g, w)) as Ht. by rewrite Hrun in Ht. }
  pose proof (push_task_spec parse_subscribe (wh_push g, w) _ (wi_push _ _ (wi_wf _ _ Hi)) Ht) as (_ & _ & Hq). simpl in *.
  assert (whole_inv (with_push p' g, w')) as Hi'.
  { eapply tasks_inv; [exact Hi|]. by apply rtc_once, (tk_push parse_subscribe g w p' w'). }
  assert (wp (push_call device method params) (λ r _, r ≠ Panic) (wh_push g, w)) as Hnp.
  { unfold push_call. apply wp_bind, wp_get. case_bool_decide.
    { apply wp_bind, wp_ok_or. by destruct (status_endpoint params). }
    case_bool_decide; [|by apply wp_throw]. apply wp_bind, wp_reject_if. destruct (negb _); [done|].
    apply wp_bind, wp_ok_or. destruct (unsubscribe_endpoint params); [|done].
    apply wp_bind, wp_try_emit. intros ok w1 _ _. apply wp_bind, wp_reject_if. by destruct ok. }
  pose proof (wp_run _ _ _ _ _ Hnp Hrun) as Hr. destruct r; [| |done]; apply (HQ _ (with_push p' g, w')); try done; apply Hq.
Qed.

Definition error_code (reply : Value) : Value := value_index "code" (value_index "error" reply).
Definition id_of (reply : Value) : Value := value_index "id" reply.
Definition result_of (key : string) (reply : Value) : Value := value_index key (value_index "result" reply).

(** What the decision under the lock gives. *)
Definition decided (call : Call) (reply : Value) : Prop :=
  id_of reply = cl_id call ∧
  match List.find (λ m, bool_decide (m.1 = cl_method call)) METHODS with
  | None => reply = rpc_error (cl_id call) "unknown-method" "Unknown method"
  | Some _ =>
      (cl_method call = "hello" → ∃ now, reply = result_reply (cl_id call)
         (VObject [("protocolVersion", VNumber 1); ("serverTime", VString (rfc3339 now))]))
      ∧ (cl_method call ∉ ["hello"; "session.ping"; "push.unsubscribe"; "push.status"] →
         reply = rpc_error (cl_id call) "not-implemented" "Not implemented")
  end.
(** The methods that [rpc] does not answer itself leave the state alone. *)
Definition passed_on (call : Call) : Prop :=
  cl_method call ∈ METHODS.*1 ∧ cl_method call ∉ ["hello"; "session.ping"; "push.unsubscribe"; "push.status"].

Lemma find_method method m : List.find (λ m : string * Scope, bool_decide (m.1 = method)) METHODS = Some m → m.1 = method.
Proof. intros Hf. apply List.find_some in Hf as [_ Hb]. by apply bool_decide_eq_true in Hb. Qed.

Lemma rpc_decide_wp ctx call (Q : outcome Failure Value → Whole * W → Prop) t :
  whole_inv t →
  (∀ reply t', whole_inv t' → world_time t.2 <= world_time t'.2 → decided call reply →
     (passed_on call → t' = t) → Q (Ok reply) t') →
  wp (rpc_decide rfc3339 ctx call) Q t.
Proof.
  intros Hi HQ. unfold rpc_decide. unfold decided in HQ.
  destruct (List.find _ METHODS) as [[name scope]|] eqn:Hfind; cycle 1.
  { apply wp_ret, HQ; [done|lia|done|done]. }
  apply find_method in Hfind as Hname. simpl in Hname. subst name.
  case_bool_decide as Hhello.
  { apply wp_bind. destruct t as [g w]. eapply clock_whole_wp; [exact Hi|]. intros w' Hi' Ht. apply wp_ret, HQ; [done|done| |].
    - split; [done|]. split; [eauto|]. intros Hn. exfalso. apply Hn. rewrite Hhello. by left.
    - intros [_ Hn]. exfalso. apply Hn. rewrite Hhello. by left. }
  case_bool_decide as Hping.
  { apply wp_bind. destruct t as [g w]. eapply clock_whole_wp; [exact Hi|]. intros w' Hi' Ht. apply wp_ret, HQ; [done|done| |].
    - split; [done|]. split; [done|]. intros Hn. exfalso. apply Hn. rewrite Hping. by right; left.
    - intros [_ Hn]. exfalso. apply Hn. rewrite Hping. by right; left. }
  case_bool_decide as Hpush.
  { assert (cl_method call ∈ ["hello"; "session.ping"; "push.unsubscribe"; "push.status"]) as Hin by (do 2 right; done).
    apply wp_bind. eapply push_world_wp; [exact Hi|]. intros r t' Hi' Ht. destruct r as [code|result]; apply wp_ret, HQ; try done;
      try (split; [done|]; split; [done|]; intros Hn; by exfalso; apply Hn); intros [_ Hn]; by exfalso; apply Hn. }
  apply wp_ret, HQ; [done|lia| |done]. split; [done|]. split; [done|]. done.
Qed.

(** The scopes of a [hello]: each that is listed was authorised at a moment of its own. *)
Definition listed (ctx : AuthContext) (from to : Timestamp) (asked scopes : list Scope) : Prop :=
  sublist scopes asked ∧ Forall (λ s, ∃ t, moment ctx s t ∧ from <= world_time t.2 <= to) scopes.

Lemma hello_scopes_wp l : ∀ n ctx (Q : outcome Close (list Scope) → Whole * W → Prop) t,
  whole_inv t →
  (∀ t', whole_inv t' → Q (Err INVALID_SESSION) t') →
  (∀ scopes t', whole_inv t' → world_time t.2 <= world_time t'.2 →
     listed ctx (world_time t.2) (world_time t'.2) l scopes → Q (Ok scopes) t') →
  wp (hello_scopes config other n ctx l) Q t.
Proof.
  induction l as [|scope l IH]; intros n ctx Q t Hi Herr HQ; cbn [hello_scopes].
  { apply wp_ret, HQ; [done|lia|by split]. }
  apply wp_bind. eapply other_wp; [exact Hi|]. intros t1 Hi1 Ht1. apply wp_bind, wp_attempt, wp_bind.
  eapply authorized_wp; [exact Hi1| |].
  - intros e t2 Hi2 Ht2 He. apply wp_bind. destruct He as [->|He].
    { simpl. apply wp_throw. by apply Herr. }
    assert (e.1 =? FORBIDDEN = true ∧ (e = SCOPE_NOT_GRANTED ∨ e = ELEVATION_REQUIRED)) as [Hf _] by (by destruct He as [->| ->]; split; auto).
    destruct e as [st msg]. simpl in Hf. rewrite Hf. apply wp_ret, wp_bind. eapply IH; [exact Hi2|done|].
    intros scopes t3 Hi3 Ht3 [Hsub Hall]. apply wp_ret. simpl. apply HQ; [done|lia|].
    split; [by apply sublist_cons|]. eapply Forall_impl; [exact Hall|]. intros s (tm & Hm & Htm). exists tm. split; [done|lia].
  - intros t2 Hi2 Ht2 Hm. apply wp_ret, wp_bind, wp_ret, wp_bind. eapply IH; [exact Hi2|done|].
    intros scopes t3 Hi3 Ht3 [Hsub Hall]. apply wp_ret. simpl. apply HQ; [done|lia|].
    split; [by apply sublist_skip|]. constructor; [exists t2; split; [done|lia]|].
      eapply Forall_impl; [exact Hall|]. intros s (tm & Hm' & Htm). exists tm. split; [done|lia].
Qed.
End Facts.

(** * The calls of a peer: the properties *)
(** The rate of messages.  Of the messages of a connection, whenever they arrive, at
    most fifty are admitted in any second, the connection's start counted; one is
    refused only when fifty were admitted in the second before it, and until then
    all are admitted. *)
Theorem message_rate start times : ascending start times →
  let '(l, refused) := admitted_times times [start] in
  (∀ t, (count_second t (start :: l) ≤ 50)%nat)
  ∧ (refused = true → ∃ n now, times !! n = Some now ∧ l = take n times ∧ count_second now (start :: l) = 50%nat)
  ∧ (refused = false → l = times).
Proof.
  intros Hasc. assert (window start [] [start]) as Hw.
  { constructor; [done|by apply Forall_singleton; lia| |simpl; unfold MESSAGE_RATE; lia|].
    - intros i j x y Hij Hi Hj. apply list_lookup_singleton_Some in Hi as [-> <-], Hj as [-> <-]. lia.
    - intros t. pose proof (count_second_le t [start]). simpl in *. unfold MESSAGE_RATE. lia. }
  pose proof (admitted_window start [] [start] times Hw Hasc) as Hrun.
  assert (∀ times messages l refused, admitted_times times messages = (l, refused) → l = take (length l) times) as Hprefix.
  { clear. induction times as [|now times IH]; intros messages l refused; cbn [admitted_times].
    - by intros [= <- <-].
    - destruct (message_admit now messages) as [[] m]; [|by intros [= <- <-]].
      destruct (admitted_times times m) as [l' r] eqn:Hl. intros [= <- <-]. simpl. f_equal. by eapply IH. }
  destruct (admitted_times times [start]) as [l refused] eqn:Hl. destruct Hrun as (H1 & H2 & H3).
  split; [exact H1|]. split; [|exact H3]. intros Hr. destruct (H2 Hr) as (n & now & Hn & Hlen & Hc).
  exists n, now. split; [done|]. split; [|exact Hc]. rewrite <-Hlen. by eapply Hprefix.
Qed.

Section Props.
Context `{Base64, !Base64Laws _, Crypto, !CryptoLaws _, Http, Tokio, !Webauthn Transport, World W, !WorldLaws W}.
Context (parse_subscribe : Value → option SubscribeParams).
Context (parse_call : string → option Call) (rfc3339 : Timestamp → string).

(** What [rpc] may answer, for the parsed call, between [t] and [t']. *)
Definition rpc_answer (config : GwConfig) (ctx : AuthContext) (call : option Call) (t : Whole * W)
    (r : outcome Close Value) (t' : Whole * W) : Prop :=
  match r, call with
  | Panic, _ => False
  | Err c, _ => c = INVALID_SESSION
  | Ok reply, None => reply = rpc_error VNull "invalid-request" "Invalid request" ∧ moment config ctx View t'
  | Ok reply, Some call =>
      id_of reply = cl_id call ∧
      (reply = rpc_error (cl_id call) "scope-not-granted" "Scope not granted"
       ∨ reply = rpc_error (cl_id call) "elevation-required" "Elevation required"
       ∨ ∃ t1, moment config ctx (scope_of (cl_method call)) t1
           ∧ world_time t.2 <= world_time t1.2 <= world_time t'.2
           ∧ (passed_on call → t' = t1 ∧ reply = rpc_error (cl_id call) "not-implemented" "Not implemented")
           ∧ (cl_method call ∉ METHODS.*1 → reply = rpc_error (cl_id call) "unknown-method" "Unknown method")
           ∧ (cl_method call = "hello" → ∃ scopes, result_of "scopes" reply = VArray ((λ s, VString (scope_name s)) <$> scopes)
                ∧ listed config ctx (world_time t1.2) (world_time t'.2) [View; Control; Full] scopes
                ∧ result_of "capabilities" reply = capabilities))
  end.
Definition parsed (text : string) : option Call :=
  c ← from_object parse_call text; if call_ok c then Some c else None.

(** C25. A call reaches a bridge only for a caller who was authorised for the scope of
    its method at the moment it was passed on, and nothing has happened since; a
    message that is no call, or names no method, is answered with an error to a
    caller with a live session; [hello] lists only scopes that the caller was
    authorised for at a moment during the call; every reply carries the id of its
    call; and any other refusal closes the connection with 4401. *)
Theorem rpc_authorised (d0 : gmap string Device) config other ctx text t r t' :
  whole_inv d0 t →
  (∀ n t, rtc (task_step parse_subscribe) t (other n t)) →
  (∀ n t, world_time t.2 <= world_time (other n t).2) →
  rpc parse_call rfc3339 config other ctx text t = (r, t') →
  whole_inv d0 t' ∧ rpc_answer config ctx (parsed text) t r t'.
Proof.
  intros Hi Hother Htime Hrun. refine (wp_run _ (λ r t', whole_inv d0 t' ∧ rpc_answer config ctx (parsed text) t r t') _ _ _ _ Hrun).
  clear r t' Hrun. unfold rpc, parsed. destruct (c ← _; _) as [call|] eqn:Hcall; cycle 1.
  { apply wp_bind, wp_map_err, wp_bind. eapply authorized_wp; [exact Hi|..].
    - intros e t1 Hi1 _ _. by split.
    - intros t1 Hi1 _ Hm. apply wp_ret, wp_ret. by split_and!. }
  apply wp_bind, wp_attempt, wp_bind. eapply authorized_wp; [exact Hi|..].
  { intros e t1 Hi1 _ He.
    case_bool_decide as Hs; [apply wp_ret; split; [done|]; split; [done|]; auto|].
    destruct He as [->|[->| ->]]; simpl; [by apply wp_throw|done|apply wp_ret; split; [done|]; split; [done|]; auto]. }
  intros t1 Hi1 Ht1 Hm1. eapply (rpc_decide_wp d0 parse_subscribe); [exact Hi1|].
  intros reply t2 Hi2 Ht2 [Hid Hdec] Hpass. cbn beta iota.
  assert (cl_method call ∉ METHODS.*1 ↔ List.find (λ m : string * Scope, bool_decide (m.1 = cl_method call)) METHODS = None) as Hin.
  { split.
    - intros Hn. destruct (List.find _ _) as [m|] eqn:Hf; [|done]. exfalso. apply Hn.
      pose proof (find_method _ _ Hf) as <-. apply List.find_some in Hf as [Hf _]. apply list_elem_of_fmap.
      exists m. split; [done|]. by apply list_elem_of_In.
    - intros Hf [m [Heq Hm]]%list_elem_of_fmap. apply list_elem_of_In in Hm.
      pose proof (List.find_none _ _ Hf m Hm) as Hne. apply bool_decide_eq_false in Hne. congruence. }
  case_bool_decide as Hhello; cycle 1.
  { apply wp_ret. split; [done|]. split; [done|]. right. right. exists t1. split_and!; [done|lia|lia| | |done].
    - intros Hp. split; [by apply Hpass|]. destruct Hp as [Hmeth Hnot]. destruct (List.find _ _) eqn:Hf; [by apply Hdec|].
      exfalso. by apply (proj2 Hin eq_refl).
    - intros Hn. apply Hin in Hn. by rewrite Hn in Hdec. }
  destruct (List.find _ METHODS) eqn:Hf; [|by rewrite Hhello in Hf].
  destruct Hdec as [Hd _]. destruct (Hd Hhello) as [now ->].
  apply wp_bind. eapply (hello_scopes_wp d0 parse_subscribe); [exact Hother|exact Htime|exact Hi2|by intros|].
  intros scopes t3 Hi3 Ht3 Hl. apply wp_bind, wp_expect. cbn. apply wp_bind, wp_expect. cbn.
  apply wp_bind. eapply (other_wp d0 parse_subscribe); [exact Hother|exact Htime|exact Hi3|]. intros [g4 w4] Hi4 Ht4.
  apply wp_bind, wp_zoom, wp_gets. simpl.
  assert ((mkWhole (wh_gw g4) (wh_push g4) (wh_spaces g4) (wh_jobs g4) (wh_audits g4)) = g4) as -> by (by destruct g4).
  apply wp_ret. split; [done|]. split; [done|]. right. right. exists t1. simpl in *.
  split_and!; [done|lia|lia| | |].
  - intros [_ Hn]. exfalso. apply Hn. rewrite Hhello. by left.
  - intros Hn. apply Hin in Hn. congruence.
  - intros _. exists scopes. split; [done|]. split; [|done]. destruct Hl as [Hsub Hall]. split; [done|].
    eapply Forall_impl; [exact Hall|]. intros s (tm & Hm & Htm). exists tm. split; [done|]. lia.
Qed.
End Props.

(** * A phone that logged in and calls *)
(** ** The rate *)
Definition burst : list Z := repeat 5 60.
Lemma message_rate_witness : ascending 0 burst ∧ admitted_times burst [0] = (repeat 5 49, true)
  ∧ (∀ t, (count_second t (0%Z :: repeat 5%Z 49) ≤ 50)%nat).
Proof.
  assert (ascending 0 burst) as Hasc by (vm_compute; repeat split; discriminate).
  assert (admitted_times burst [0] = (repeat 5 49, true)) as Hrun by (vm_compute; reflexivity).
  split; [exact Hasc|]. split; [exact Hrun|].
  pose proof (message_rate 0 burst Hasc) as Hrate. rewrite Hrun in Hrate. exact (proj1 Hrate).
Defined.

(** ** The login *)
Definition gw_login (t : Whole * SimWorld) : outcome Failure AssertionResult * (Whole * SimWorld) :=
  in_gw (in_identity demo_login) t.
Definition peer_t0 : Whole * SimWorld := (gw_login whole_t0).2.
Definition peer_ctx : AuthContext :=
  match (gw_login whole_t0).1 with
  | Ok (LoggedIn session _ id) => mkAuthContext session id "host.ts.net"
  | _ => mkAuthContext "" "" ""
  end.

Lemma whole_t0_inv : whole_inv (i_devices (gw_identity (wh_gw whole_start.2))) whole_t0.
Proof.
  pose proof (gateway_new_wp unix_absolute whole_init 0 whole_w0) as [_ Hs].
  change (gateway_new _ _ _ _) with whole_new in Hs. rewrite whole_started in Hs.
  apply (st_inv _ _ _ _ _ _ (Hs whole_start.1 whole_start.2 ltac:(by rewrite <-surjective_pairing)) [demo_device]);
    [vm_compute; reflexivity|constructor].
Qed.
Lemma gw_login_task t : rtc (task_step demo_parse) t (gw_login t).2.
Proof.
  apply rtc_once. destruct t as [[[p i c] q s j a] w]. unfold gw_login, in_gw, in_identity, zoom.
  cbn beta iota zeta delta [wh_gw gw_identity].
  assert (identity_step (i, w) (demo_login (i, w)).2 ∧ kept (i, w) (demo_login (i, w)).2) as [Hs Hk].
  { unfold demo_login. split; [apply istep_finish|apply along_kept, kept_finish]. }
  destruct (demo_login (i, w)) as [r [i' w']].
  cbn in Hs, Hk |- *. apply (tk_gw demo_parse (mkWhole (mkGw p i c) q s j a) w (mkGw p i' c) w').
  by apply gt_free, ft_identity.
Qed.
Lemma peer_t0_inv : whole_inv (i_devices (gw_identity (wh_gw whole_start.2))) peer_t0.
Proof. eapply (tasks_inv _ demo_parse); [exact whole_t0_inv|apply gw_login_task]. Qed.

Definition demo_call (text : string) : option Call :=
  if bool_decide (text = "{hello") then Some (mkCall (VNumber 1) "hello" VNull)
  else if bool_decide (text = "{sessions") then Some (mkCall (VString "a") "sessions.list" VNull)
  else if bool_decide (text = "{control") then Some (mkCall (VNumber 2) "terminal.control" VNull)
  else None.
Definition demo_time (t : Timestamp) : string := "now".
Definition peer_rpc (text : string) := rpc demo_call demo_time whole_start.1 alone peer_ctx text.

Example hello_view_only : match (peer_rpc "{hello" peer_t0).1 with
  | Ok reply => result_of "scopes" reply = VArray [VString "view"]
  | _ => False end.
Proof. vm_cast_no_check (eq_refl (VArray [VString "view"])). Qed.
Example control_refused : (peer_rpc "{control" peer_t0).1
  = Ok (rpc_error (VNumber 2) "elevation-required" "Elevation required").
Proof. vm_cast_no_check (eq_refl (Ok (rpc_error (VNumber 2) "elevation-required" "Elevation required") : outcome Close Value)). Qed.
Example nonsense_refused : (peer_rpc "[]" peer_t0).1 = Ok (rpc_error VNull "invalid-request" "Invalid request").
Proof. vm_cast_no_check (eq_refl (Ok (rpc_error VNull "invalid-request" "Invalid request") : outcome Close Value)). Qed.

Definition sessions_reply : Value := rpc_error (VString "a") "not-implemented" "Not implemented".
Lemma sessions_run : peer_rpc "{sessions" peer_t0 = (Ok sessions_reply, (peer_rpc "{sessions" peer_t0).2).
Proof.
  assert ((peer_rpc "{sessions" peer_t0).1 = Ok sessions_reply) as Hr
    by (vm_cast_no_check (eq_refl (Ok sessions_reply : outcome Close Value))).
  rewrite <-Hr. apply surjective_pairing.
Qed.
Lemma alone_time n (t : Whole * SimWorld) : world_time t.2 <= world_time (alone n t).2.
Proof. apply Z.le_refl. Qed.

Lemma rpc_authorised_witness : peer_rpc "{sessions" peer_t0 = (Ok sessions_reply, (peer_rpc "{sessions" peer_t0).2)
  ∧ rpc_answer whole_start.1 peer_ctx (parsed demo_call "{sessions") peer_t0 (Ok sessions_reply) (peer_rpc "{sessions" peer_t0).2.
Proof.
  split; [exact sessions_run|].
  exact (proj2 (rpc_authorised demo_parse demo_call demo_time _ whole_start.1 alone peer_ctx "{sessions" peer_t0 _ _
    peer_t0_inv alone_steps alone_time sessions_run)).
Defined.
