(* ===== verification/Threads.v ===== *)
(** * Blocking calls as threads

    A closure that the executor of [herdr_jobs.rs] runs on a thread of its own is a
    [Thread]: a sequence of atomic steps on the shared state, each of which may
    depend on what the steps before it returned.  What other threads do happens
    between two steps.  [safe] is a rely-guarantee logic for them. *)

From stdpp Require Import base strings list relations.
From S2P Require Import Prelude Steps.

Inductive Thread (S A : Type) : Type :=
| Done (a : A)
| Atom (B : Type) (m : S → B * S) (k : B → Thread S A).
Arguments Done {S A} a.
Arguments Atom {S A B} m k.

Section Threads.
Context {S : Type}.

Fixpoint tbind {A B} (t : Thread S A) (k : A → Thread S B) : Thread S B :=
  match t with
  | Done a => k a
  | Atom m next => Atom m (λ b, tbind (next b) k)
  end.

(** The steps in a row, nothing in between. *)
Fixpoint run_thread {A} (t : Thread S A) (s : S) : A * S :=
  match t with
  | Done a => (a, s)
  | Atom m k => let '(b, s) := m s in run_thread (k b) s
  end.

(** ** Closures that return a [Result] *)

Definition Job (E A : Type) : Type := Thread S (outcome E A).

Definition jret {E A} (a : A) : Job E A := Done (Ok a).
Definition jthrow {E A} (e : E) : Job E A := Done (Err e).
Definition jbind {E A B} (t : Job E A) (k : A → Job E B) : Job E B :=
  tbind t (λ r, match r with Ok a => k a | Err e => Done (Err e) | Panic => Done Panic end).
(** One atomic step. *)
Definition jcall {E A} (m : M S E A) : Job E A := Atom m Done.
(** What a closure holds is dropped when it does not return [Ok]. *)
Definition jguard {E A} (drop : S → S) (t : Job E A) : Job E A :=
  tbind t (λ r, match r with Ok a => Done (Ok a) | r => Atom (λ s, (tt, drop s)) (λ _, Done r) end).
(** A [Result] looked at as a value, and [map_err] with a closure that itself
    looks at the state. *)
Definition jattempt {E E' A} (t : Job E A) : Job E' (E + A) :=
  tbind t (λ r, match r with Ok a => Done (Ok (inr a)) | Err e => Done (Ok (inl e)) | Panic => Done Panic end).
Definition jmap_err {E E' A} (f : E → Job E' A) (t : Job E A) : Job E' A :=
  tbind t (λ r, match r with Ok a => Done (Ok a) | Err e => f e | Panic => Done Panic end).
Fixpoint jfor_each {E A} (l : list A) (body : A → Job E unit) : Job E unit :=
  match l with
  | [] => jret tt
  | x :: l => jbind (body x) (λ _, jfor_each l body)
  end.
Fixpoint jmap {E A B} (body : A → Job E B) (l : list A) : Job E (list B) :=
  match l with
  | [] => jret []
  | x :: l => jbind (body x) (λ y, jbind (jmap body l) (λ ys, jret (y :: ys)))
  end.
Definition jwhen {E} (b : bool) (t : Job E unit) : Job E unit := if b then t else jret tt.
(** The job run alone. *)
Definition run_job {E A} (t : Job E A) : M S E A := run_thread t.

Lemma run_tbind {A B} (t : Thread S A) (k : A → Thread S B) s :
  run_thread (tbind t k) s = let '(a, s) := run_thread t s in run_thread (k a) s.
Proof.
  revert s. induction t as [a|B' m next IH]; intros s; [done|]. simpl. destruct (m s) as [b s']. apply IH.
Qed.

(** ** Rely and guarantee *)

(** [R] is what the others may do between two steps, [G] what each step does.
    [safe t Q s]: from [s] on, whatever the others do, every step of [t] does no
    more than [G], and [Q] holds of the result where [t] ends. *)
Section Safe.
Context (R G : S → S → Prop).

Fixpoint safe {A} (t : Thread S A) (Q : A → S → Prop) (s : S) : Prop :=
  match t with
  | Done a => ∀ s', rtc R s s' → Q a s'
  | Atom m k => ∀ s', rtc R s s' → G s' (m s').2 ∧ safe (k (m s').1) Q (m s').2
  end.

Lemma safe_mono {A} (t : Thread S A) (Q Q' : A → S → Prop) s :
  safe t Q s → (∀ a s, Q a s → Q' a s) → safe t Q' s.
Proof.
  revert s. induction t as [a|B m k IH]; intros s Hs HQ; simpl in *; [auto|].
  intros s' Hr. destruct (Hs s' Hr) as [HG Hk]. split; [done|]. by apply IH.
Qed.

(** What others do leaves a safe thread safe. *)
Lemma safe_rely {A} (t : Thread S A) Q s s' : safe t Q s → rtc R s s' → safe t Q s'.
Proof.
  destruct t as [a|B m k]; simpl; intros Hs Hr s2 Hr2; apply Hs; by etrans.
Qed.

Lemma safe_tbind {A B} (t : Thread S A) (k : A → Thread S B) Q s :
  safe t (λ a s, safe (k a) Q s) s → safe (tbind t k) Q s.
Proof.
  revert s. induction t as [a|B' m next IH]; intros s Hs; simpl in *.
  - apply Hs, rtc_refl.
  - intros s' Hr. destruct (Hs s' Hr) as [HG Hk]. split; [done|]. by apply IH.
Qed.

Lemma safe_done {A} (a : A) (Q : A → S → Prop) s : (∀ s', rtc R s s' → Q a s') → safe (Done a) Q s.
Proof. done. Qed.
Lemma safe_atom {A B} (m : S → B * S) (k : B → Thread S A) Q s :
  (∀ s', rtc R s s' → G s' (m s').2 ∧ safe (k (m s').1) Q (m s').2) → safe (Atom m k) Q s.
Proof. done. Qed.

Lemma safe_step {A B} (m : S → B * S) (k : B → Thread S A) Q s : safe (Atom m k) Q s →
  G s (m s).2 ∧ safe (k (m s).1) Q (m s).2.
Proof. intros Hs. apply Hs, rtc_refl. Qed.

(** ** Steady threads

    [I] is kept by the others; the thread keeps it and does no more than [G]. *)
Context (I : S → Prop).
Hypothesis I_rely : ∀ s s', I s → R s s' → I s'.

Lemma I_relies s s' : I s → rtc R s s' → I s'.
Proof. intros HI Hr. induction Hr; eauto. Qed.

Definition steady {A} (t : Thread S A) : Prop := ∀ s, I s → safe t (λ _, I) s.
Definition discreet {E A} (m : M S E A) : Prop := ∀ s, I s → G s (m s).2 ∧ I (m s).2.

Lemma steady_done {A} (a : A) : steady (Done a).
Proof. intros s HI s' Hr. by eapply I_relies. Qed.
Lemma steady_atom {A B} (m : S → B * S) (k : B → Thread S A) :
  (∀ s, I s → G s (m s).2 ∧ I (m s).2) → (∀ b, steady (k b)) → steady (Atom m k).
Proof.
  intros Hm Hk s HI s' Hr. destruct (Hm s' (I_relies _ _ HI Hr)) as [HG HI']. split; [done|]. by apply Hk.
Qed.
Lemma steady_tbind {A B} (t : Thread S A) (k : A → Thread S B) :
  steady t → (∀ a, steady (k a)) → steady (tbind t k).
Proof.
  intros Ht Hk s HI. apply safe_tbind. eapply safe_mono; [by apply Ht|]. intros a s' HI'. by apply Hk.
Qed.
Lemma steady_jret {E A} (a : A) : steady (jret (E := E) a).
Proof. apply steady_done. Qed.
Lemma steady_jthrow {E A} (e : E) : steady (jthrow (A := A) e).
Proof. apply steady_done. Qed.
Lemma steady_jcall {E A} (m : M S E A) : discreet m → steady (jcall m).
Proof. intros Hm. apply steady_atom; [done|]. intros b. apply steady_done. Qed.
Lemma steady_jbind {E A B} (t : Job E A) (k : A → Job E B) :
  steady t → (∀ a, steady (k a)) → steady (jbind t k).
Proof. intros Ht Hk. apply steady_tbind; [done|]. intros [a|e|]; [apply Hk|apply steady_done..]. Qed.
Lemma steady_jguard {E A} drop (t : Job E A) :
  steady t → (∀ s, I s → G s (drop s) ∧ I (drop s)) → steady (jguard drop t).
Proof.
  intros Ht Hd. apply steady_tbind; [done|].
  intros [a|e|]; [apply steady_done|apply steady_atom; [exact Hd|intros _; apply steady_done]..].
Qed.
Lemma steady_jattempt {E E' A} (t : Job E A) : steady t → steady (jattempt (E' := E') t).
Proof. intros Ht. apply steady_tbind; [done|]. intros [a|e|]; apply steady_done. Qed.
Lemma steady_jmap_err {E E' A} (f : E → Job E' A) (t : Job E A) :
  steady t → (∀ e, steady (f e)) → steady (jmap_err f t).
Proof. intros Ht Hf. apply steady_tbind; [done|]. intros [a|e|]; [apply steady_done|apply Hf|apply steady_done]. Qed.
Lemma steady_jfor_each {E A} (l : list A) (body : A → Job E unit) :
  (∀ x, steady (body x)) → steady (jfor_each l body).
Proof. intros Hb. induction l as [|x l IH]; [apply steady_jret|]. by apply steady_jbind. Qed.
Lemma steady_jmap {E A B} (body : A → Job E B) (l : list A) :
  (∀ x, steady (body x)) → steady (jmap body l).
Proof.
  intros Hb. induction l as [|x l IH]; [apply steady_jret|]. apply steady_jbind; [done|]. intros y.
  apply steady_jbind; [done|]. intros ys. apply steady_jret.
Qed.
Lemma steady_jwhen {E} b (t : Job E unit) : steady t → steady (jwhen b t).
Proof. intros Ht. destruct b; [done|apply steady_jret]. Qed.

(** A step of a job after which the rest depends on what it did. *)
Lemma safe_jcall {E A B} (m : M S E A) (k : A → Job E B) Q s :
  I s →
  (∀ s, I s → G s (m s).2 ∧ match (m s).1 with
     | Ok a => safe (k a) Q (m s).2
     | Err e => safe (Done (Err e)) Q (m s).2
     | Panic => safe (Done Panic) Q (m s).2
     end) →
  safe (jbind (jcall m) k) Q s.
Proof.
  intros HI Hm. unfold jbind, jcall. simpl. intros s' Hr.
  destruct (Hm s' (I_relies _ _ HI Hr)) as [HG Hk]. split; [done|]. by destruct (m s').1.
Qed.
End Safe.
End Threads.
Arguments Job S E A : clear implicits.

#[export] Hint Resolve steady_jret steady_jthrow steady_jcall steady_jguard steady_jattempt
  steady_jfor_each steady_jmap steady_jwhen steady_done : stepping.
#[export] Hint Extern 1 (steady _ _ _ (jbind _ _)) => apply steady_jbind; [eassumption| |intros ?] : stepping.
#[export] Hint Extern 3 (steady _ _ _ (if ?b then _ else _)) => destruct b : stepping.
#[export] Hint Extern 3 (steady _ _ _ (match ?x with _ => _ end)) => destruct x : stepping.

Notation "'do!' x ':=' t 'in' k" := (jbind t (λ x, k))
  (at level 10, x name, t at level 200, k at level 200,
   format "'[v' 'do!'  x  ':='  t  'in' '//' k ']'") : rust_scope.
Notation "'do!' ' p ':=' t 'in' k" := (jbind t (λ x, match x with p => k end))
  (at level 10, p pattern, t at level 200, k at level 200) : rust_scope.
Notation "t ;;; k" := (jbind t (λ _, k))
  (at level 100, right associativity) : rust_scope.
