(* ===== verification/Growing.v ===== *)
(** * The clock and the log of accepted events only grow

    Whatever the gateway does: a state of the world is followed by one with a later
    time and with more events.  Proved over the syntax of the handlers that a peer's
    task and its calls run, with the hints of [stepping]. *)

From stdpp Require Import base gmap strings list relations.
From Stdlib Require Import ZArith Lia.
From S2P Require Import Prelude Steps Rust Externals Clock Devices Admin Events World.
From S2P Require Import Pairing Webauthn Session Authorize Gateway WriteAudit Jobs Herdr Push GitBridge Control.
From S2P Require Import Http Wire Rpc.

Local Open Scope Z_scope.

Section Growing.
Context `{World W, !WorldLaws W}.

Definition wle (w w' : W) : Prop := world_time w <= world_time w' ∧ world_log w `prefix_of` world_log w'.
#[export] Instance wle_preorder : PreOrder wle.
Proof.
  split; [by intros w|]. intros a b c [? Hab] [? Hbc]. split; [lia|]. by etrans.
Qed.
Definition wgrow {S} (t t' : S * W) : Prop := wle t.2 t'.2.

Lemma rtc_wgrow {S} (t t' : S * W) : rtc wgrow t t' → wgrow t t'.
Proof. intros Hr. induction Hr; [by unfold wgrow|]. unfold wgrow in *. by etrans. Qed.
Lemma along_wgrow {S E A} (m : M (S * W) E A) t : along wgrow m → wgrow t (m t).2.
Proof. intros Hm. apply rtc_wgrow, Hm. Qed.
Lemma along_wgrow_intro {S E A} (m : M (S * W) E A) : (∀ t, wgrow t (m t).2) → along wgrow m.
Proof. apply along_once. Qed.

Lemma wgrow_lift {S E A} (f : W → A * W) : (∀ w, wle w (f w).2) → along wgrow (lift f : M (S * W) E A).
Proof.
  intros Hf. apply along_wgrow_intro. intros [s w]. unfold wgrow, lift. simpl. specialize (Hf w).
  by destruct (f w).
Qed.
Lemma wle_same w w' : world_time w' = world_time w → world_log w' = world_log w → wle w w'.
Proof. intros Ht Hl. split; [lia|by rewrite Hl]. Qed.
Lemma wgrow_clock {S E} : along wgrow (clock_read : M (S * W) E Timestamp).
Proof.
  apply wgrow_lift. intros w. split; [rewrite now_time; apply now_monotone|by rewrite now_log].
Qed.
Lemma wgrow_random {S E} n : along wgrow (random n : M (S * W) E _).
Proof. apply wgrow_lift. intros w. apply wle_same; [apply random_time|apply random_log]. Qed.
Lemma wgrow_emit {S E} e : along wgrow (try_emit e : M (S * W) E bool).
Proof.
  apply wgrow_lift. intros w. split; [rewrite emit_time; lia|]. rewrite emit_log. apply prefix_app_r. done.
Qed.
Lemma wgrow_reserve {S E} p : along wgrow (try_reserve p : M (S * W) E bool).
Proof. apply wgrow_lift. intros w. apply wle_same; [apply reserve_time|apply reserve_log]. Qed.
Lemma wgrow_emit_reserved {S E} p e : along wgrow (emit_reserved p e : M (S * W) E unit).
Proof.
  apply wgrow_lift. intros w. split; simpl; [rewrite reserved_emit_time; lia|].
  rewrite reserved_emit_log. by apply prefix_app_r.
Qed.
Lemma wle_drop p w : wle w (world_reserved_drop p w).
Proof. apply wle_same; [apply reserved_drop_time|apply reserved_drop_log]. Qed.
Lemma wgrow_drop_reserved {S E} p : along wgrow (drop_reserved p : M (S * W) E unit).
Proof. apply wgrow_lift. intros w. apply wle_drop. Qed.
Lemma wgrow_available {S E} : along wgrow (events_available : M (S * W) E bool).
Proof. apply along_gets. Qed.
Lemma wgrow_iterate {S E} `{Countable K} {A} (m : gmap K A) : along wgrow (iterate m : M (S * W) E _).
Proof. apply wgrow_lift. intros w. apply wle_same; [apply order_time|apply order_log]. Qed.
Lemma wgrow_get {S E} : along wgrow (get : M (S * W) E S).
Proof. apply along_gets. Qed.
Lemma wgrow_update {S E} f : along wgrow (update f : M (S * W) E unit).
Proof. apply along_wgrow_intro. by intros [s w]. Qed.
Lemma wgrow_modify {S E} f : (∀ t : S * W, wgrow t (f t)) → along wgrow (modify f : M (S * W) E unit).
Proof. intros Hf. by apply along_wgrow_intro. Qed.
Lemma wgrow_zoom {S T E A} (get' : S * W → T * W) put (m : M (T * W) E A) :
  (∀ t, (get' t).2 = t.2) → (∀ p t, (put p t).2 = p.2) → along wgrow m → along wgrow (zoom get' put m).
Proof.
  intros Hg Hp Hm. apply along_wgrow_intro. intros t. pose proof (along_wgrow m (get' t) Hm) as Ht.
  unfold zoom, wgrow in *. rewrite Hg in Ht. destruct (m (get' t)) as [r p]. simpl in *. by rewrite Hp.
Qed.
Lemma wgrow_zoom_state {S T E A} (get' : S * W → T) put (m : M T E A) :
  (∀ p t, (put p t).2 = t.2) → along wgrow (zoom get' put m).
Proof.
  intros Hp. apply along_wgrow_intro. intros t. unfold zoom, wgrow.
  destruct (m (get' t)) as [r p]. simpl. by rewrite Hp.
Qed.
End Growing.

#[export] Hint Resolve wgrow_clock wgrow_random wgrow_emit wgrow_reserve wgrow_emit_reserved wgrow_drop_reserved
  wgrow_available wgrow_iterate wgrow_get wgrow_update : stepping.

(** The projections of a zoom on a part of the state *)
Ltac zoomed := solve [by intros [] | by intros [] [] | by intros [[? ?] ?] | by intros [] [[? ?] ?]].

(** ** The audit *)
Section Audits.
Context `{World W, !WorldLaws W} (other : Audits * W → Audits * W).
Hypothesis other_grows : ∀ t, wgrow t (other t).

Lemma wgrow_event {S E} u action summary : along wgrow (audit_event u action summary : M (S * W) E Event).
Proof. unfold audit_event. along_auto. Qed.
Hint Resolve wgrow_event : stepping.
Lemma wgrow_admit {S} u action summary : along wgrow (admit_write u action summary : M (S * W) string unit).
Proof. unfold admit_write. along_auto. Qed.
Lemma wgrow_in_deferred {E A} (m : M (Deferred * W) E A) : along wgrow m → along wgrow (in_deferred m).
Proof. apply wgrow_zoom; zoomed. Qed.
Hint Resolve wgrow_in_deferred : stepping.
Lemma wgrow_count_lost {E} now : along wgrow (count_lost now : M (Audits * W) E unit).
Proof. unfold count_lost. along_auto. Qed.
Hint Resolve wgrow_count_lost : stepping.
Lemma wgrow_git_read {E} device peer session workspace method :
  along wgrow (git_read device peer session workspace method : M (Audits * W) E unit).
Proof. unfold git_read. along_auto. Qed.
Lemma wgrow_audit_new {E} device peer scope session target rejections :
  along wgrow (audit_new device peer scope session target rejections : M (Audits * W) E Audit).
Proof. unfold audit_new. along_auto. Qed.
Lemma wgrow_meanwhile {E} : along wgrow (meanwhile other : M (Audits * W) E unit).
Proof. by apply wgrow_modify. Qed.
Hint Resolve wgrow_meanwhile : stepping.
Lemma wgrow_announce {E} u takeover : along wgrow (announce other u takeover : M (Audits * W) E unit).
Proof. unfold announce. along_auto. Qed.
Lemma wgrow_reserve_announced u : along wgrow (reserve_announced u : M (Audits * W) string unit).
Proof. unfold reserve_announced. along_auto. Qed.
Lemma wgrow_emit_or_count {E} u action summary :
  along wgrow (emit_or_count other u action summary : M (Audits * W) E unit).
Proof. unfold emit_or_count. along_auto. Qed.
Lemma wgrow_rejected {E} u : along wgrow (rejected other u : M (Audits * W) E unit).
Proof. unfold rejected, rejection_summary. along_auto. Qed.
Lemma wgrow_emit_while {S E} events : along wgrow (emit_while events : M (S * W) E _).
Proof. induction events as [|e events IH]; simpl; along_auto. Qed.
Hint Resolve wgrow_emit_while : stepping.
Lemma wgrow_tightened {E} u reason announced : along wgrow (tightened other u reason announced : M (Audits * W) E unit).
Proof. unfold tightened, tighten. along_auto. Qed.
End Audits.
#[export] Hint Resolve wgrow_event wgrow_admit wgrow_git_read wgrow_audit_new wgrow_announce wgrow_reserve_announced
  wgrow_emit_or_count wgrow_rejected wgrow_tightened : stepping.

(** ** The gateway *)
Section Gateway.
Context `{Base64, Crypto, Http, Tokio, !Webauthn Transport, World W, !WorldLaws W}.
Context (config : GwConfig).

Lemma wgrow_in_gw {E A} (m : M (Gw * W) E A) : along wgrow m → along wgrow (in_gw m).
Proof. apply wgrow_zoom; zoomed. Qed.
Lemma wgrow_in_identity {E A} (m : M (Identity * W) E A) : along wgrow m → along wgrow (in_identity m).
Proof. apply wgrow_zoom; zoomed. Qed.
Lemma wgrow_in_push_world {E A} (m : M (Push * W) E A) : along wgrow m → along wgrow (in_push_world m).
Proof. apply wgrow_zoom; zoomed. Qed.
Lemma wgrow_in_jobs {E A} (m : M Jobs E A) : along wgrow (in_jobs m : M (Whole * W) E A).
Proof. apply wgrow_zoom_state. by intros p []. Qed.
Lemma wgrow_in_push {E A} (m : M Push E A) : along wgrow (in_push m : M (Whole * W) E A).
Proof. apply wgrow_zoom_state. by intros p []. Qed.
Hint Resolve wgrow_in_gw wgrow_in_identity wgrow_in_push_world wgrow_in_jobs wgrow_in_push : stepping.

Lemma wgrow_revalidate {E} ctx scope : along wgrow (revalidate ctx scope : M (Identity * W) E bool).
Proof. unfold revalidate, validate. along_auto. Qed.
Lemma wgrow_can_elevate {E} ctx scope : along wgrow (can_elevate ctx scope : M (Identity * W) E bool).
Proof. unfold can_elevate. along_auto. Qed.
Hint Resolve wgrow_revalidate wgrow_can_elevate : stepping.
Lemma wgrow_with_authorized {T} host ctx scope (write : M (Identity * W) Failure T) :
  along wgrow write → along wgrow (with_authorized host ctx scope write).
Proof. intros Hw. unfold with_authorized. along_auto. Qed.
Hint Resolve wgrow_with_authorized : stepping.
Lemma wgrow_authorized_whole {T} ctx scope (write : M (Whole * W) Failure T) :
  along wgrow write → along wgrow (with_authorized_whole config ctx scope write).
Proof. intros Hw. unfold with_authorized_whole, authorized. along_auto. Qed.
Hint Resolve wgrow_authorized_whole : stepping.
Lemma wgrow_write_deadline ctx scope fresh : along wgrow (write_deadline (W := W) ctx scope fresh).
Proof. unfold write_deadline. along_auto. Qed.
Lemma wgrow_push_call device method params : along wgrow (push_call (W := W) device method params).
Proof. unfold push_call. along_auto. Qed.
Hint Resolve wgrow_push_call : stepping.
Lemma wgrow_subscribe_begin parse device params : along wgrow (subscribe_begin (W := W) parse device params).
Proof. unfold subscribe_begin. along_auto. Qed.
Lemma wgrow_subscribe_finish request : along wgrow (subscribe_finish (W := W) request).
Proof. unfold subscribe_finish. along_auto. Qed.

Context (parse_call : string → option Call) (rfc3339 : Timestamp → string).
Context (rest : nat → Whole * W → Whole * W).
Hypothesis rest_grows : ∀ n t, wgrow t (rest n t).
Lemma wgrow_rest {E} n : along wgrow (modify (rest n) : M (Whole * W) E unit).
Proof. by apply wgrow_modify. Qed.
Hint Resolve wgrow_rest : stepping.
Lemma wgrow_hello n ctx l : along wgrow (hello_scopes config rest n ctx l).
Proof. revert n. induction l as [|scope l IH]; intros n; simpl; along_auto. Qed.
Hint Resolve wgrow_hello : stepping.
Lemma wgrow_rpc_decide ctx call : along wgrow (rpc_decide rfc3339 ctx call).
Proof. unfold rpc_decide. along_auto. Qed.
Hint Resolve wgrow_rpc_decide : stepping.
Lemma wgrow_rpc ctx text : along wgrow (rpc parse_call rfc3339 config rest ctx text).
Proof. unfold rpc. along_auto. Qed.

Lemma wgrow_in_cursors {P A} (m : M (Cursors * W) string A) :
  along wgrow m → along wgrow (in_cursors m : M ((Cursors * (option string * P)) * W) string A).
Proof. apply wgrow_zoom; zoomed. Qed.
Lemma wgrow_in_space {P A} (m : M (option string * P) string A) :
  along wgrow (in_space m : M ((Cursors * (option string * P)) * W) string A).
Proof. apply wgrow_zoom_state. by intros p [[? ?] ?]. Qed.
Hint Resolve wgrow_in_cursors wgrow_in_space : stepping.
Lemma wgrow_tokens_issue tk session workspace host :
  along wgrow (tokens_issue (W := W) tk session workspace host).
Proof. unfold tokens_issue. along_auto. Qed.
Hint Resolve wgrow_tokens_issue : stepping.
Lemma wgrow_request_run {P} `{!GitHost P} json request space tk :
  along wgrow (request_run (P := P) (W := W) json request space tk).
Proof. unfold request_run. destruct (gr_call request); along_auto. Qed.
End Gateway.
#[export] Hint Resolve wgrow_in_gw wgrow_in_identity wgrow_in_push_world wgrow_in_jobs wgrow_in_push
  wgrow_authorized_whole wgrow_write_deadline wgrow_subscribe_begin wgrow_subscribe_finish wgrow_rpc
  wgrow_request_run : stepping.

(** ** The wire *)
Section Wire.
Context `{Tokio, Budgets, Json, Base64, World W, !WorldLaws W}.

Lemma wgrow_active {E} id : along wgrow (stream_active id : M (Wire * W) E bool).
Proof. unfold stream_active. along_auto. Qed.
Hint Resolve wgrow_active : stepping.
Lemma wgrow_close_with {A} id reason : along wgrow (close_with id reason : M (Wire * W) string A).
Proof. unfold close_with. along_auto. Qed.
Hint Resolve wgrow_close_with : stepping.
Lemma wgrow_sink_send id m : along wgrow (sink_send (W := W) id m).
Proof. unfold sink_send. along_auto. Qed.
Hint Resolve wgrow_sink_send : stepping.
Lemma wgrow_sink_terminal id e : along wgrow (sink_terminal (W := W) id e).
Proof. unfold sink_terminal. along_auto. Qed.
Lemma wgrow_sink_stale id session : along wgrow (sink_stale (W := W) id session).
Proof. unfold sink_stale, stream_message. along_auto. Qed.
Hint Resolve wgrow_sink_stale : stepping.
Lemma wgrow_sink_event id session e : along wgrow (sink_event (W := W) id session e).
Proof. unfold sink_event, stream_message. along_auto. Qed.
Lemma wgrow_frames_turns {E} fuel : along wgrow (frames_turns fuel : M (Wire * W) E Polled).
Proof. induction fuel as [|fuel IH]; simpl; along_auto. Qed.
Hint Resolve wgrow_frames_turns : stepping.
Lemma wgrow_writer_take : along wgrow (writer_take (W := W)).
Proof. unfold writer_take, frames_poll. along_auto. Qed.
Lemma wgrow_writer_done {E} : along wgrow (writer_done : M (Wire * W) E unit).
Proof. unfold writer_done. along_auto. Qed.
End Wire.
#[export] Hint Resolve wgrow_active wgrow_sink_terminal wgrow_sink_stale wgrow_sink_event wgrow_writer_take
  wgrow_writer_done : stepping.
