(* ===== verification/Streams.v ===== *)
(** * [read_bridge.rs] and [write_bridge.rs]: what a peer's task and its calls share

    The peer's task owns [Reads]; a call of the host runs on a thread of its own and
    shares with it the cells behind an [Arc] ([WorkCell], [OpenCell], the peer's
    [Wire]) and the gateway.  A closure given to the executor is a value here
    ([Run], [Submission]); what it does is its interpretation in [WriteBridge] and
    [ReadBridge]. *)

From stdpp Require Import base gmap strings list.
From Stdlib Require Import ZArith Lia.
From S2P Require Import Prelude Rust Externals Clock Devices Admin Events World.
From S2P Require Import Pairing Webauthn Session Authorize Gateway WriteAudit Jobs Herdr Push GitBridge Control.
From S2P Require Import Http Wire.

Local Open Scope Z_scope.

(** ** Calls of the host *)

Inductive HerdrScrollDirection := ScrollUp | ScrollDown.

(** What a write makes the host do. *)
Inductive HostCall :=
| HostControl (session target : string) (size : Z * Z) (takeover : bool)
| HostFull (session : string) (size : Z * Z)
| HostInput (resource bytes : string)
| HostScroll (resource : string) (direction : HerdrScrollDirection) (lines : Z)
| HostResize (resource : string) (size : Z * Z)
| HostPrompt (session target text : string)
| HostKeys (session target : string) (keys : list string).

(** [trait HerdrPort]: the calls beyond the two of [Herdr.v].  The number stands for
    the callback, a [Sink] of that stream; [host_write] is the call the value names,
    with what it returns for a resource that it opened. *)
Class HerdrHost (P : Type) := {
  #[global] host_port :: HerdrPort P;
  port_observe : string → string → Z → Z → Z → M P string string;
  port_subscribe : string → list string → Z → M P string string;
  port_release : Resource → P → P;
  host_write : HostCall → Z → M P string string;
}.

(** ** Parameters of the calls: the derived [Deserialize]s *)

Record ControlParams := mkControlParams {
  ctl_session : string; ctl_target : string; ctl_takeover : bool; ctl_confirm : bool }.
Record FullParams := mkFullParams { fl_session : string; fl_cols : Z; fl_rows : Z; fl_confirm : bool }.
Record InputParams := mkInputParams { in_stream : Z; in_text : option string; in_b64 : option string }.
Record ResizeParams := mkResizeParams { rz_stream : Z; rz_cols : Z; rz_rows : Z; rz_confirm : bool }.
Record ScrollParams := mkScrollParams { sl_stream : Z; sl_direction : HerdrScrollDirection; sl_lines : Z }.
Record PromptParams := mkPromptParams { pm_session : string; pm_target : string; pm_text : string }.
Record KeysParams := mkKeysParams { ks_session : string; ks_target : string; ks_keys : list string }.
Record BridgeParsers := {
  bp_session : Value → option string;
  bp_observe : Value → option (string * string);
  bp_close : Value → option Z;
  bp_control : Value → option ControlParams;
  bp_full : Value → option FullParams;
  bp_input : Value → option InputParams;
  bp_resize : Value → option ResizeParams;
  bp_scroll : Value → option ScrollParams;
  bp_prompt : Value → option PromptParams;
  bp_keys : Value → option KeysParams;
  bp_git : GitParsers;
  bp_subscribe : Value → option SubscribeParams;
}.

(** ** Closures *)

(** What a write does on its thread, with the variables its closure captured. *)
Inductive Op := OpInput (bytes : string) | OpScroll (direction : HerdrScrollDirection) (lines : Z)
| OpResize (size : Z * Z).
Inductive Run :=
| RunAgent (action session target : string) (message : string + list string)
| RunTerminal (action resource : string) (stream : Z) (op : Op)
| RunOpen (action session : string) (target : option string) (size : option (Z * Z)) (takeover : bool)
    (stream : Z) (fresh_until : option Timestamp) (full : option string).

(** [Work]; [wk_number] names its [started] and [cancelled], [wk_until] is captured
    by [run]. *)
Record Work := mkWork {
  wk_number : Z;
  wk_audit : Audit;
  wk_device : string;
  wk_id : Value;
  wk_stream : option Z;
  wk_input : bool;
  wk_until : Timestamp;
  wk_run : Run;
}.
Definition open_run (r : Run) : option (option string) :=
  match r with RunOpen _ _ _ _ _ _ _ full => Some full | _ => None end.

(** A closure given to the executor, and what it returns. *)
Inductive ReadRun :=
| ReadSessions
| ReadSnapshot (session : string)
| ReadObserve (session target : string)
| ReadEvents (session : string)
| ReadGit (request : GitRequest) (space : Space) (tokens : Tokens).
Inductive Submission :=
| SubmitRead (run : ReadRun) (stream : option Z)
| SubmitWrite (work : Work) (handoff : list (Z * Lease)).
Inductive Output :=
| OutValue (v : Value)
| OutSnapshot (v : Value)
| OutOpened (lease : Lease) (v : Value) (announcement : bool).

(** ** Shared cells *)

Record WorkCell := mkWorkCell { wc_started : bool; wc_cancelled : bool }.
(** [Bucket]; its reservation is one of the bucket pool. *)
Record Bucket := mkBucket { bk_until : Timestamp; bk_bytes : Z }.
(** [oc_gone]: the [WriteStream] is dropped, the cell is held by a running call. *)
Record OpenCell := mkOpenCell { oc_leased : bool; oc_bucket : option Bucket; oc_gone : bool }.

(** What happened to the peer's writes, in order: kept for the specification. *)
Inductive Trace :=
| Entered (work : Work)
| Passed (work : Z) (at_ : Timestamp)
| Looked (work : Z) (session : string) (snapshot : Value)
| Counted (work stream bytes : Z)
| Called (work : Z) (call : HostCall)
| Cancelled (work : Z) (unknown : bool).

(** A call given to the executor: it waits for a thread, runs, or has a result that
    was not yet received. *)
Inductive JobPhase := JobSubmitted (c : Submission) | JobRunning | JobDone (r : outcome string Output).
Record JobCell := mkJobCell { jc_device : string; jc_write : bool; jc_phase : JobPhase }.
Definition set_phase v c := mkJobCell c.(jc_device) c.(jc_write) v.

Section State.
Context `{Tokio, Budgets, !Webauthn Transport} {P : Type}.

(** The rest of [Gateway]: the full sessions of each device, the cursors of the
    logs, the memoized root of each space, the host. *)
Record Gate := mkGate {
  gt_whole : Whole;
  gt_full : gmap string DeviceSem;
  gt_cursors : Cursors;
  gt_roots : gmap Z (option string);
  gt_port : P;
}.
Definition set_whole v g := mkGate v g.(gt_full) g.(gt_cursors) g.(gt_roots) g.(gt_port).
Definition set_full v g := mkGate g.(gt_whole) v g.(gt_cursors) g.(gt_roots) g.(gt_port).
Definition set_cursors v g := mkGate g.(gt_whole) g.(gt_full) v g.(gt_roots) g.(gt_port).
Definition set_roots v g := mkGate g.(gt_whole) g.(gt_full) g.(gt_cursors) v g.(gt_port).
Definition set_port v g := mkGate g.(gt_whole) g.(gt_full) g.(gt_cursors) g.(gt_roots) v.

(** [sh_jobs] are the calls of this peer by their number. *)
Record Shared := mkShared {
  sh_gate : Gate;
  sh_wire : Wire;
  sh_works : gmap Z WorkCell;
  sh_opens : gmap Z OpenCell;
  sh_jobs : gmap Z JobCell;
  sh_trace : list Trace;
}.
Definition set_gate v s := mkShared v s.(sh_wire) s.(sh_works) s.(sh_opens) s.(sh_jobs) s.(sh_trace).
Definition set_wire v s := mkShared s.(sh_gate) v s.(sh_works) s.(sh_opens) s.(sh_jobs) s.(sh_trace).
Definition set_works v s := mkShared s.(sh_gate) s.(sh_wire) v s.(sh_opens) s.(sh_jobs) s.(sh_trace).
Definition set_opens v s := mkShared s.(sh_gate) s.(sh_wire) s.(sh_works) v s.(sh_jobs) s.(sh_trace).
Definition set_jobs v s := mkShared s.(sh_gate) s.(sh_wire) s.(sh_works) s.(sh_opens) v s.(sh_trace).
Definition trace (e : Trace) s :=
  mkShared s.(sh_gate) s.(sh_wire) s.(sh_works) s.(sh_opens) s.(sh_jobs) (s.(sh_trace) ++ [e]).
Definition on_whole (f : Whole → Whole) (s : Shared) : Shared :=
  set_gate (set_whole (f (gt_whole (sh_gate s))) (sh_gate s)) s.
Definition on_jobs (f : Jobs → Jobs) : Shared → Shared :=
  on_whole (λ g, mkWhole g.(wh_gw) g.(wh_push) g.(wh_spaces) (f g.(wh_jobs)) g.(wh_audits)).
Definition on_wire (f : Wire → Wire) (s : Shared) : Shared := set_wire (f (sh_wire s)) s.

(** A full session's permit: the device's semaphore of one, held weakly as the
    executor's are. *)
Definition drop_full (device : string) (s : Shared) : Shared :=
  let g := s.(sh_gate) in
  match g.(gt_full) !! device with
  | Some d => set_gate (set_full (<[device := mkDeviceSem (sem_release d.(ds_sem)) (pred d.(ds_strong))]>
                g.(gt_full)) g) s
  | None => s
  end.
Definition drop_fulls (full : option string) (s : Shared) : Shared :=
  match full with Some device => drop_full device s | None => s end.
Definition drop_reserved_resource : Shared → Shared := on_jobs drop_resource_permit.
(** The drop of a closure that has not run. *)
Definition drop_run (r : Run) (s : Shared) : Shared :=
  match open_run r with Some full => drop_fulls full (drop_reserved_resource s) | None => s end.
Definition drop_lease (l : Lease) : Shared → Shared := on_jobs (lease_drop l).
End State.
Arguments Gate {_ _} P.
Arguments Shared {_ _ _} P.

Section Shared.
Context `{Tokio, Budgets, !Webauthn Transport, World W} {P : Type}.
Abbreviation shared_m E A := (M (Shared P * W) E A).

Definition in_whole {E A} (m : M (Whole * W) E A) : shared_m E A :=
  zoom (λ '(s, w), (gt_whole (sh_gate s), w)) (λ '(g, w) '(s, _), (on_whole (λ _, g) s, w)) m.
Definition in_audits {E A} (m : M (Audits * W) E A) : shared_m E A :=
  in_whole (zoom (λ '(g, w), (wh_audits g, w))
    (λ '(a, w) '(g, _), (mkWhole g.(wh_gw) g.(wh_push) g.(wh_spaces) g.(wh_jobs) a, w)) m).
Definition in_port {E A} (m : M P E A) : shared_m E A :=
  zoom (λ '(s, _), gt_port (sh_gate s)) (λ p '(s, w), (set_gate (set_port p (sh_gate s)) s, w)) m.
Definition in_wire {E A} (m : M (Wire * W) E A) : shared_m E A :=
  zoom (λ '(s, w), (sh_wire s, w)) (λ '(x, w) '(s, _), (set_wire x s, w)) m.

(** [started.load], [cancelled.load], and the two stores *)
Definition work_cell (n : Z) (s : Shared P) : WorkCell := default (mkWorkCell false false) (s.(sh_works) !! n).
Definition store_started (n : Z) (s : Shared P) : Shared P :=
  set_works (<[n := mkWorkCell true (wc_cancelled (work_cell n s))]> s.(sh_works)) s.
Definition store_cancelled (n : Z) (s : Shared P) : Shared P :=
  set_works (<[n := mkWorkCell (wc_started (work_cell n s)) true]> s.(sh_works)) s.
Definition open_cell (id : Z) (s : Shared P) : OpenCell := default (mkOpenCell false None false) (s.(sh_opens) !! id).
Definition store_leased (id : Z) (b : bool) (s : Shared P) : Shared P :=
  let c := open_cell id s in set_opens (<[id := mkOpenCell b c.(oc_bucket) c.(oc_gone)]> s.(sh_opens)) s.
Definition store_bucket (id : Z) (b : option Bucket) (s : Shared P) : Shared P :=
  let c := open_cell id s in set_opens (<[id := mkOpenCell c.(oc_leased) b c.(oc_gone)]> s.(sh_opens)) s.
Definition store_gone (id : Z) (s : Shared P) : Shared P :=
  let c := open_cell id s in set_opens (<[id := mkOpenCell c.(oc_leased) c.(oc_bucket) true]> s.(sh_opens)) s.
End Shared.

(** ** [Stream], [Queue], [Reads]: the peer's task *)

(** [WriteStream]; [leased], [bucket] and [state] go by the stream's number. *)
Record WriteStream := mkWriteStream { ws_audit : Audit; ws_announced : bool; ws_takeover : bool }.
Record Stream := mkStream {
  sm_session : string;
  sm_events : bool;
  sm_lease : option Lease;
  sm_write : option WriteStream;
}.
Definition set_lease v s := mkStream s.(sm_session) s.(sm_events) v s.(sm_write).
Definition set_write v s := mkStream s.(sm_session) s.(sm_events) s.(sm_lease) v.

(** [PendingWrite], [Watchdog] *)
Record PendingWrite := mkPendingWrite {
  pw_number : Z; pw_id : Value; pw_stream : option Z; pw_input : bool; pw_audit : Audit }.
Definition pending_of (k : Work) : PendingWrite :=
  mkPendingWrite k.(wk_number) k.(wk_id) k.(wk_stream) k.(wk_input) k.(wk_audit).
Record Watchdog := mkWatchdog {
  wd_until : Timestamp; wd_id : Value; wd_stream : option Z; wd_audit : Audit }.

(** What an entry of [Reads::completed] waits for; a read holds one of the peer's
    two pending slots. *)
Inductive Source := FromJob (number : Z) | FromPush (request : Z).
Record Awaited := mkAwaited { aw_id : Value; aw_stream : option Z; aw_write : bool; aw_source : Source }.
Record Completion := mkCompletion {
  co_id : Value; co_stream : option Z; co_result : string + Output; co_write : bool }.

Section Reads.
Context `{Tokio}.

Record Queue := mkQueue {
  qu_channel : Chan Work;
  qu_active : bool;
  qu_stalled : bool;
  qu_watchdog : option Watchdog;
  qu_stalled_stream : option Z;
  qu_active_write : option PendingWrite;
  qu_rejections : nat;
  qu_cancelled : list Value;
}.
Definition set_channel v q := mkQueue v q.(qu_active) q.(qu_stalled) q.(qu_watchdog) q.(qu_stalled_stream)
  q.(qu_active_write) q.(qu_rejections) q.(qu_cancelled).
Definition set_active v watchdog write q := mkQueue q.(qu_channel) v q.(qu_stalled) watchdog q.(qu_stalled_stream)
  write q.(qu_rejections) q.(qu_cancelled).
Definition set_stalled v stream watchdog q := mkQueue q.(qu_channel) q.(qu_active) v watchdog stream
  q.(qu_active_write) q.(qu_rejections) q.(qu_cancelled).
Definition set_active_write v q := mkQueue q.(qu_channel) q.(qu_active) q.(qu_stalled) q.(qu_watchdog)
  q.(qu_stalled_stream) v q.(qu_rejections) q.(qu_cancelled).
Definition set_answered v q := mkQueue q.(qu_channel) q.(qu_active) q.(qu_stalled) q.(qu_watchdog)
  q.(qu_stalled_stream) q.(qu_active_write) q.(qu_rejections) v.
(** [Queue::new], [Queue::finished] *)
Definition QUEUE_LENGTH : nat := 16.
Definition queue_new (rejections : nat) : Queue := mkQueue (chan_new QUEUE_LENGTH) false false None None None rejections [].
Definition queue_finished (q : Queue) : bool * Queue :=
  (q.(qu_stalled), mkQueue q.(qu_channel) false false None q.(qu_stalled_stream) None q.(qu_rejections) q.(qu_cancelled)).

(** [rd_next_number] names the next work or job. *)
Record Reads := mkReads {
  rd_peer_id : Z;
  rd_streams : gmap Z Stream;
  rd_next_id : Z;
  rd_writes : Queue;
  rd_pending : Sem;
  rd_git_reads : AuditWindow;
  rd_completed : list Awaited;
  rd_next_number : Z;
}.
Definition set_streams v r := mkReads r.(rd_peer_id) v r.(rd_next_id) r.(rd_writes) r.(rd_pending)
  r.(rd_git_reads) r.(rd_completed) r.(rd_next_number).
Definition set_next_id v r := mkReads r.(rd_peer_id) r.(rd_streams) v r.(rd_writes) r.(rd_pending)
  r.(rd_git_reads) r.(rd_completed) r.(rd_next_number).
Definition set_writes v r := mkReads r.(rd_peer_id) r.(rd_streams) r.(rd_next_id) v r.(rd_pending)
  r.(rd_git_reads) r.(rd_completed) r.(rd_next_number).
Definition set_read_slots v r := mkReads r.(rd_peer_id) r.(rd_streams) r.(rd_next_id) r.(rd_writes) v
  r.(rd_git_reads) r.(rd_completed) r.(rd_next_number).
Definition set_git_reads v r := mkReads r.(rd_peer_id) r.(rd_streams) r.(rd_next_id) r.(rd_writes) r.(rd_pending)
  v r.(rd_completed) r.(rd_next_number).
Definition set_completed v r := mkReads r.(rd_peer_id) r.(rd_streams) r.(rd_next_id) r.(rd_writes) r.(rd_pending)
  r.(rd_git_reads) v r.(rd_next_number).
Definition set_next_number v r := mkReads r.(rd_peer_id) r.(rd_streams) r.(rd_next_id) r.(rd_writes) r.(rd_pending)
  r.(rd_git_reads) r.(rd_completed) v.
(** [Reads::new], with [peer_id] and the counter of rejections it is given *)
Definition reads_new (peer_id : Z) (rejections : nat) : Reads :=
  mkReads peer_id ∅ 1 (queue_new rejections) (sem_new 2) ∅ [] 0.
End Reads.
