(* ===== verification/Calls.v ===== *)
(** * [read_bridge.rs] and [write_bridge.rs]: what the executor's threads run

    The closures given to [submit_device], as threads on the state that the peer's
    task and the threads share.  A write checks its validity, audits itself, stores
    [started], checks again and only then calls the host.

    A check is one step: all it reads but the clock only ever goes one way (a peer
    ends, a stream closes, a write is cancelled), so what it found at its last read
    held at its first. *)

From stdpp Require Import base gmap strings list.
From Stdlib Require Import ZArith Lia.
From S2P Require Import Prelude Rust Externals Clock Devices Admin Events World.
From S2P Require Import Pairing Webauthn Session Authorize Gateway WriteAudit Jobs Herdr Push GitBridge Control.
From S2P Require Import Http Wire Rpc Threads Streams.

Local Open Scope Z_scope.

(** [write_error], [error], [reply] *)
Definition opt_number (o : option Z) : Value := match o with Some n => VNumber n | None => VNull end.
Definition write_error (id : Value) (stream : option Z) (code : string) : Value :=
  VObject [("id", id); ("stream", opt_number stream);
           ("error", VObject [("code", VString code); ("message", VString code)])].
Definition read_error (id : Value) (code : string) : Value := rpc_error id code code.

(** What a write answers that ended without a result, by [input] and [started]. *)
Definition outcome_code (input unknown : bool) : string :=
  match input, unknown with
  | true, true => "input-outcome-unknown"
  | true, false => "input-dropped"
  | false, true => "write-outcome-unknown"
  | false, false => "write-dropped"
  end.

(** [agent_target] *)
Definition agent_target (snapshot : Value) (target : string) : string + string :=
  match List.find (λ p, value_is (value_index "pane_id" p) target
                        || value_is (value_index "terminal_id" p) target) (array snapshot "panes") with
  | None => inl "target-not-found"
  | Some pane =>
      match text pane "pane_id" with
      | Some id =>
          if negb (valid_id id) then inl "target-not-found"
          else if existsb (λ a, value_is (value_index "pane_id" a) id) (array snapshot "agents")
               then inr id else inl "no-agent"
      | None => inl "target-not-found"
      end
  end.

(** The summary of a prompt, which holds its first 200 characters, or of keys. *)
Definition agent_summary (message : string + list string) : Value :=
  match message with
  | inl text => VObject [("prefix", VString (of_chars (take 200 (chars text))));
                         ("length", VNumber (Z.of_nat (length (chars text)))); ("bytes", VNumber (len text))]
  | inr keys => VObject [("keys", VNumber (Z.of_nat (length keys)))]
  end.
Definition agent_call (session target : string) (message : string + list string) : HostCall :=
  match message with
  | inl text => HostPrompt session target text
  | inr keys => HostKeys session target keys
  end.

Section Calls.
Context `{Base64, Json, Tokio, Budgets, !Webauthn Transport, World W, HerdrHost P, !GitHost P}.
Context (allowlist : gset string) (rfc3339 : Timestamp → string) (json_from_str : string → option Value).
Context (other : Audits * W → Audits * W).
Abbreviation St := ((Reads * Shared P) * W)%type.
Abbreviation shared_m E A := (M (Shared P * W) E A).

Definition in_shared {E A} (m : shared_m E A) : M St E A :=
  zoom (λ '((_, s), w), (s, w)) (λ '(s, w) '((r, _), _), ((r, s), w)) m.
Definition jshared {E A} (m : shared_m E A) : Job St E A := jcall (in_shared m).
Definition of_either {S E A} (r : E + A) : M S E A := match r with inl e => throw e | inr a => ret a end.

(** ** [Validity] *)

Record Validity := mkValidity { vd_work : Z; vd_state : option Z; vd_until : Timestamp }.

(** [Validity::check] *)
Definition validity_check (v : Validity) : shared_m string unit :=
  let! s := get in
  if wc_cancelled (work_cell v.(vd_work) s) || negb (life_active s.(sh_wire).(wr_life)) then throw "input-dropped"
  else
    let! now := clock_read in
    if v.(vd_until) <=? now then throw "input-dropped"
    else
      let! active := (match v.(vd_state) with
        | Some id => in_wire (stream_active id)
        | None => ret true
        end) in
      reject_if (negb active) "input-dropped";;
      update (trace (Passed v.(vd_work) now)).
(** [Validity::start]: the store comes before the check. *)
Definition validity_start (v : Validity) : Job St string unit :=
  jshared (update (store_started v.(vd_work)));;;
  jshared (validity_check v).

(** The call itself. *)
Definition call_host (n : Z) (call : HostCall) (sink : Z) : shared_m string string :=
  update (trace (Called n call));;
  in_port (host_write call sink).

(** The snapshot that a work looks its target up in. *)
Definition call_snapshot (n : Z) (session : string) : shared_m string Value :=
  let! raw := in_port (port_snapshot session) in
  update (trace (Looked n session raw));;
  ret raw.

(** ** Prompts and keys *)
Definition run_agent (k : Work) (action session target : string) (message : string + list string)
    : Job St string Output :=
  let v := mkValidity k.(wk_number) None k.(wk_until) in
  jshared (validity_check v);;;
  jshared (in_port (session_running allowlist session));;;
  do! raw := jshared (call_snapshot k.(wk_number) session) in
  do! target := jshared (of_either (agent_target raw target)) in
  jshared (in_audits (admit_write k.(wk_audit) action (agent_summary message)));;;
  validity_start v;;;
  jshared (call_host k.(wk_number) (agent_call session target message) 0);;;
  jret (OutValue (VObject [("sent", VBool true)])).

(** ** Input, scroll, resize *)

(** The critical section of the stream's bucket: the bytes of an input are counted
    in an event that is reserved, or audited at once. *)
Definition bucket_admit (n : Z) (u : Audit) (action : string) (stream : Z) (bytes : string) : shared_m string unit :=
  let! s := get in
  let! b := (match oc_bucket (open_cell stream s) with
    | Some b => ret (Some b)
    | None =>
        let! ok := try_reserve BucketPool in
        if ok then let! now := clock_read in ret (Some (mkBucket (after now (seconds 10)) 0))
        else ret None
    end) in
  match b with
  | Some b =>
      update (λ s, trace (Counted n stream (len bytes))
        (store_bucket stream (Some (mkBucket b.(bk_until) (b.(bk_bytes) + len bytes))) s))
  | None => in_audits (admit_write u action (VObject [("bytes", VNumber (len bytes))]))
  end.
(** The closure's [Arc] of the bucket is the last one if the stream is gone. *)
Definition drop_bucket (stream : Z) (t : St) : St :=
  let '((r, s), w) := t in
  let c := open_cell stream s in
  match c.(oc_gone), c.(oc_bucket) with
  | true, Some _ => ((r, store_bucket stream None s), world_reserved_drop BucketPool w)
  | _, _ => t
  end.
Definition jfinally {A} (f : St → St) (t : Job St string A) : Job St string A :=
  tbind t (λ r, Atom (λ s, (tt, f s)) (λ _, Done r)).

Definition op_call (resource : string) (op : Op) : HostCall :=
  match op with
  | OpInput bytes => HostInput resource bytes
  | OpScroll direction lines => HostScroll resource direction lines
  | OpResize size => HostResize resource size
  end.
Definition op_result (stream : Z) (op : Op) : Value :=
  match op with
  | OpInput bytes => VObject [("stream", VNumber stream); ("bytes", VNumber (len bytes))]
  | _ => VObject [("stream", VNumber stream); ("sent", VBool true)]
  end.
Definition op_admit (n : Z) (u : Audit) (action : string) (stream : Z) (op : Op) : Job St string unit :=
  match op with
  | OpInput bytes =>
      jshared (let! available := events_available in reject_if (negb available) "audit-unavailable");;;
      jshared (bucket_admit n u action stream bytes)
  | _ => jshared (in_audits (admit_write u action (VObject [("accepted", VBool true)])))
  end.
Definition run_terminal (k : Work) (action resource : string) (stream : Z) (op : Op) : Job St string Output :=
  let v := mkValidity k.(wk_number) (Some stream) k.(wk_until) in
  jfinally (drop_bucket stream) (
    jshared (validity_check v);;;
    op_admit k.(wk_number) k.(wk_audit) action stream op;;;
    validity_start v;;;
    jshared (call_host k.(wk_number) (op_call resource op) 0);;;
    jret (OutValue (op_result stream op))).

(** ** Control and full sessions *)
Definition open_target (n : Z) (session : string) (target : option string) (size : option (Z * Z))
    : Job St string (option string * (Z * Z)) :=
  match target with
  | Some target =>
      do! raw := jshared (call_snapshot n session) in
      do! '(target, cols, rows) := jshared (of_either (observe_geometry raw target)) in
      jret (Some target, (cols, rows))
  | None => do! size := jshared (expect size) in jret (None, size)
  end.
Definition open_call (session : string) (target : option string) (size : Z * Z) (takeover : bool) : HostCall :=
  match target with
  | Some target => HostControl session target size takeover
  | None => HostFull session size
  end.
Definition set_target (target : option string) (u : Audit) : Audit :=
  mkAudit u.(au_device) u.(au_peer_id) u.(au_session) target u.(au_scope) u.(au_key) u.(au_rejections).

(** The drops of what the closure captured or acquired. *)
Definition lose {E} (f : Shared P → Shared P) : Job St E unit := jshared (update f).
Definition drop_captured (full : option string) (t : St) : St :=
  let '((r, s), w) := t in ((r, drop_fulls full (drop_reserved_resource s)), w).
Definition drop_announcement (t : St) : St :=
  let '(x, w) := t in (x, world_reserved_drop AnnouncementPool w).

(** From the reservation of the announcement to the resource. *)
Definition open_resource (k : Work) (action session : string) (target : option string) (size : Z * Z)
    (takeover : bool) (stream : Z) (fresh_until : option Timestamp) : Job St string string :=
  let v := mkValidity k.(wk_number) (Some stream) k.(wk_until) in
  let u := set_target target k.(wk_audit) in
  jshared (in_audits (reserve_announced u));;;
  jguard drop_announcement (
    jshared (in_audits (admit_write u action
      (VObject [("takeover", VBool takeover); ("resizeConfirmed", VBool true)])));;;
    jshared (validity_check v);;;
    (match fresh_until with
     | Some fresh => jshared (let! now := clock_read in reject_if (fresh <? now) "fresh-elevation-required")
     | None => jret tt
     end);;;
    validity_start v;;;
    jshared (update (store_leased stream true));;;
    jmap_err (λ e, lose (store_leased stream false);;; jthrow e)
      (jshared (call_host k.(wk_number) (open_call session target size takeover) stream))).

Definition open_value (stream : Z) (target : option string) (size : Z * Z) (until : Timestamp) : Value :=
  VObject [("stream", VNumber stream); ("cols", VNumber size.1); ("rows", VNumber size.2);
           ("until", VString (rfc3339 until)); ("target", opt_string target)].
Definition run_open (k : Work) (action session : string) (target : option string) (size : option (Z * Z))
    (takeover : bool) (stream : Z) (fresh_until : option Timestamp) (full : option string)
    : Job St string Output :=
  let v := mkValidity k.(wk_number) (Some stream) k.(wk_until) in
  do! '(target, size, resource) := jguard (drop_captured full) (
    jshared (validity_check v);;;
    jshared (in_port (session_running allowlist session));;;
    do! '(target, size) := open_target k.(wk_number) session target size in
    do! resource := open_resource k action session target size takeover stream fresh_until in
    jret (target, size, resource)) in
  let lease := match full with
    | Some device => hold_full device (lease_new (Observe resource))
    | None => lease_new (Observe resource)
    end in
  do! live := jshared (
    let! s := get in
    if life_active s.(sh_wire).(wr_life) then let! now := clock_read in ret (now <? k.(wk_until))
    else ret false) in
  if live : bool then jret (OutOpened lease (open_value stream target size k.(wk_until)) true)
  else
    lose (drop_lease lease);;;
    jshared (drop_reserved AnnouncementPool);;;
    jthrow "input-dropped".

Definition run_work (k : Work) : Job St string Output :=
  match k.(wk_run) with
  | RunAgent action session target message => run_agent k action session target message
  | RunTerminal action resource stream op => run_terminal k action resource stream op
  | RunOpen action session target size takeover stream fresh_until full =>
      run_open k action session target size takeover stream fresh_until full
  end.

(** ** The closure of [pump_writes] *)

(** [Lease::release_now] *)
Definition release_lease {E} (l : Lease) : shared_m E unit :=
  let! s := get in
  let '(resource, jobs) := release_now l (wh_jobs (gt_whole (sh_gate s))) in
  (match resource with
   | Some resource => in_port (modify (port_release resource))
   | None => ret tt
   end);;
  update (on_jobs (λ _, jobs)).
(** The code of an error, which looks at [started]. *)
Definition started_code (k : Work) (code : string) : Job St string Output :=
  if bool_decide (code = "input-dropped") then
    do! s := jshared get in jthrow (outcome_code k.(wk_input) (wc_started (work_cell k.(wk_number) s)))
  else jthrow code.
Definition write_job (k : Work) (handoff : list (Z * Lease)) : Job St string Output :=
  jfor_each handoff (λ l, jshared (release_lease l.2));;;
  jmap_err (λ code, jshared (in_audits (rejected other k.(wk_audit)));;; jthrow code)
    (jmap_err (started_code k) (run_work k)).

(** ** Reads *)

(** [active]: the stream's state, or one that only follows the peer's life. *)
Definition read_active (stream : option Z) : shared_m string unit :=
  let! active := (match stream with
    | Some id => in_wire (stream_active id)
    | None => let! s := get in ret (life_active s.(sh_wire).(wr_life))
    end) in
  reject_if (negb active) "stream-closed".
(** A call of the port with [map_err(|e| reads.after_error(&session, e))] *)
Definition port_call {A} (session : string) (m : M P string A) : Job St string A :=
  jmap_err (λ e, do! e := jshared (in_port (after_error allowlist session e)) in jthrow e)
    (jshared (in_port m)).

Definition read_observe (session target : string) (stream : Z) : Job St string (Resource * Value) :=
  do! raw := port_call session (port_snapshot session) in
  jshared (read_active (Some stream));;;
  do! '(target, cols, rows) := jshared (of_either (observe_geometry raw target)) in
  jshared (in_port (session_running allowlist session));;;
  jshared (read_active (Some stream));;;
  do! terminal := port_call session (port_observe session target cols rows stream) in
  jret (Observe terminal, VObject [("stream", VNumber stream); ("cols", VNumber cols); ("rows", VNumber rows)]).
Definition read_events (session : string) (stream : Z) : Job St string (Resource * Value) :=
  do! raw := port_call session (port_snapshot session) in
  jshared (read_active (Some stream));;;
  let panes := pane_ids raw in
  do! subscription := port_call session (port_subscribe session panes stream) in
  do! again := jattempt (E := string) (jshared (in_port (port_snapshot session))) in
  (match again with
   | inr raw =>
       jwhen (negb (bool_decide (pane_ids raw = panes)))
         (do! _ := jattempt (E := string) (jshared (in_wire (sink_stale stream session))) in jret tt)
   | inl _ => jret tt
   end);;;
  jret (EventsOf subscription, VObject [("stream", VNumber stream); ("subscribed", VBool true)]).

(** [Request::run] under the lock of its space *)
Definition in_git {A} (space : Space) (m : M ((Cursors * (option string * P)) * W) string A) : shared_m string A :=
  zoom (λ '(s, w), let g := sh_gate s in
          ((gt_cursors g, (default None (gt_roots g !! sc_number space), gt_port g)), w))
       (λ '((c, (root, p)), w) '(s, _), let g := sh_gate s in
          (set_gate (mkGate g.(gt_whole) g.(gt_full) c (<[sc_number space := root]> g.(gt_roots)) p) s, w)) m.

Definition read_open (session : string) (stream : option Z)
    (open : Z → Job St string (Resource * Value)) : Job St string Output :=
  do! stream := jshared (expect stream) in
  do! '(resource, value) := open stream in
  jret (OutOpened (lease_new resource) value false).
Definition read_run (run : ReadRun) (stream : option Z) : Job St string Output :=
  match run with
  | ReadSessions =>
      jshared (read_active stream);;;
      do! v := jshared (in_port (reads_sessions allowlist)) in jret (OutValue v)
  | ReadSnapshot session =>
      jshared (read_active stream);;;
      jshared (in_port (session_running allowlist session));;;
      jshared (read_active stream);;;
      do! v := jshared (in_port (reads_snapshot allowlist session)) in
      do! v := jshared (let! s := get in expect (spaces_mark (wh_spaces (gt_whole (sh_gate s))) session v)) in
      jret (OutSnapshot v)
  | ReadObserve session target =>
      jshared (read_active stream);;;
      jshared (in_port (session_running allowlist session));;;
      jshared (read_active stream);;;
      read_open session stream (read_observe session target)
  | ReadEvents session =>
      jshared (read_active stream);;;
      jshared (in_port (session_running allowlist session));;;
      jshared (read_active stream);;;
      read_open session stream (read_events session)
  | ReadGit request space tk =>
      jshared (in_port (session_running allowlist (gr_session request)));;;
      do! v := jshared (in_git space (request_run json_from_str request space tk)) in
      jret (OutSnapshot v)
  end.
(** The closure of [enqueue]: an attach that the peer no longer wants is released. *)
Definition read_job (run : ReadRun) (stream : option Z) : Job St string Output :=
  do! out := jguard (λ '((r, s), w), ((r, match stream with
                                          | Some _ => drop_reserved_resource s
                                          | None => s
                                          end), w)) (read_run run stream) in
  match out with
  | OutOpened lease _ _ =>
      do! s := jshared get in
      if life_active s.(sh_wire).(wr_life) then jret out
      else lose (drop_lease lease);;; jthrow "stream-closed"
  | _ => jret out
  end.

Definition job_of (c : Submission) : Job St string Output :=
  match c with
  | SubmitRead run stream => read_job run stream
  | SubmitWrite k handoff => write_job k handoff
  end.
End Calls.
