(* ===== verification/WriteBridge.v ===== *)
(** * [write_bridge.rs]: the queue of a peer's writes

    The methods of the peer's task.  What they do under the identity's lock is one
    step; otherwise every access to what a thread shares is a step of its own. *)

From stdpp Require Import base gmap strings list.
From Stdlib Require Import ZArith Lia.
From S2P Require Import Prelude Rust Externals Clock Devices Admin Events World.
From S2P Require Import Pairing Webauthn Session Authorize Gateway WriteAudit Jobs Herdr Push GitBridge Control.
From S2P Require Import Http Wire Rpc Threads Streams Calls.

Local Open Scope Z_scope.

Definition INPUT_BYTES : Z := 4096.
Definition PROMPT_BYTES : Z := 16 * 1024.

(** ** Checks on the parameters *)

(** [full_size] *)
Definition full_size (cols rows : Z) (confirmed : bool) : string + (Z * Z) :=
  if negb (in_range 20 cols 400) || negb (in_range 8 rows 200) then inl "invalid-params"
  else if negb confirmed then inl "size-confirmation-required"
  else inr (cols, rows).

(** [input_bytes] *)
Definition input_bytes `{Base64} (p : InputParams) : string + (Z * string) :=
  let checked b := if INPUT_BYTES <? len b then inl "payload-too-large" else inr (p.(in_stream), b) in
  match p.(in_text), p.(in_b64) with
  | Some text, None => checked text
  | None, Some b64 =>
      if len b64 <=? div_ceil INPUT_BYTES 3 * 4 then
        match b64std_decode b64 with
        | Some b => checked b
        | None => inl "invalid-params"
        end
      else inl "payload-too-large"
  | _, _ => inl "invalid-params"
  end.

(** [mapped_keys] *)
Definition KEYS : list (string * string) :=
  [("Enter", "enter"); ("Escape", "esc"); ("Tab", "tab"); ("BackTab", "shift+tab"); ("ArrowUp", "up");
   ("ArrowDown", "down"); ("ArrowLeft", "left"); ("ArrowRight", "right"); ("Ctrl-C", "ctrl+c");
   ("Ctrl-D", "ctrl+d")].
Fixpoint map_keys (keys : list string) : string + list string :=
  match keys with
  | [] => inr []
  | k :: keys =>
      match assoc k KEYS with
      | None => inl "key-not-allowed"
      | Some v => match map_keys keys with inl e => inl e | inr l => inr (v :: l) end
      end
  end.
Definition mapped_keys (keys : list string) : string + list string :=
  if bool_decide (keys = []) || bool_decide (32 < length keys)%nat then inl "invalid-params"
  else map_keys keys.

Section WriteBridge.
Context `{Base64, Json, Crypto, Http, Tokio, Budgets, !Webauthn Transport, World W, HerdrHost P}.
Context (parsers : BridgeParsers) (config : GwConfig) (rfc3339 : Timestamp → string).
Context (other : Audits * W → Audits * W).
Abbreviation St := ((Reads * Shared P) * W)%type.
Abbreviation peer_m E A := (M St E A).

Definition reads_get {E} : peer_m E Reads := gets (λ '((r, _), _), r).
Definition shared_get {E} : peer_m E (Shared P) := gets (λ '((_, s), _), s).
Definition on_reads {E} (f : Reads → Reads) : peer_m E unit := modify (λ '((r, s), w), ((f r, s), w)).
Definition on_queue {E} (f : Queue → Queue) : peer_m E unit := on_reads (λ r, set_writes (f r.(rd_writes)) r).
Definition on_streams {E} (f : gmap Z Stream → gmap Z Stream) : peer_m E unit :=
  on_reads (λ r, set_streams (f r.(rd_streams)) r).
Definition in_gate {E A} (m : M (Whole * W) E A) : peer_m E A := in_shared (in_whole m).
Definition peer_jobs {E A} (m : M Jobs E A) : peer_m E A := in_gate (in_jobs m).
Definition close_state {E} (id : Z) (reason : string) : peer_m E unit :=
  in_shared (update (on_wire (close_stream id reason))).
(** [*s.state.closed.lock().unwrap()] *)
Definition closed_reason_of (id : Z) (s : Shared P) : option string :=
  state ← wr_states (sh_wire s) !! id; sst_closed state.

(** ** [WriteStream], [Stream]: their drops *)

(** [WriteStream::flush] *)
Definition flush_bucket {E} (force : bool) (id : Z) (u : Audit) : M (Shared P * W) E unit :=
  let! s := get in
  match oc_bucket (open_cell id s) with
  | None => ret tt
  | Some b =>
      let! due := (if force then ret true else let! now := clock_read in ret (b.(bk_until) <=? now)) in
      when due (
        update (store_bucket id None);;
        let! e := audit_event u (if bool_decide (u.(au_scope) = Full) then "full.input" else "terminal.input")
                    (VObject [("bytes", VNumber b.(bk_bytes))]) in
        emit_reserved BucketPool e)
  end.

(** [Drop for WriteStream], then of its fields *)
Definition write_stream_drop {E} (id : Z) (ws : WriteStream) : Job St E unit :=
  jshared (flush_bucket true id ws.(ws_audit));;;
  do! s := jcall shared_get in
  let reason := default "peer-closed" (closed_reason_of id s) in
  jcall (close_state id reason);;;
  do! s := jcall shared_get in
  jshared (in_audits (
    if ws.(ws_announced) || oc_leased (open_cell id s)
    then tightened other ws.(ws_audit) reason ws.(ws_announced)
    else open_failed other ws.(ws_audit) reason));;;
  jshared (update (store_gone id)).
(** A [Stream] drops its lease first. *)
Definition stream_drop {E} (id : Z) (s : Stream) : Job St E unit :=
  (match s.(sm_lease) with Some l => lose (drop_lease l) | None => jret tt end);;;
  (match s.(sm_write) with Some ws => write_stream_drop id ws | None => jret tt end).
(** [self.streams.remove(&id)], the value dropped at once *)
Definition remove_stream {E} (id : Z) : Job St E unit :=
  do! r := jcall reads_get in
  jcall (on_streams (delete id));;;
  (match r.(rd_streams) !! id with Some s => stream_drop id s | None => jret tt end).

(** ** Cancellation *)

(** [self.started.load]: what it finds is the outcome. *)
Definition load_outcome {E} (n : Z) : M (Shared P * W) E bool :=
  let! s := get in
  let unknown := wc_started (work_cell n s) in
  update (trace (Cancelled n unknown));;
  ret unknown.
(** [PendingWrite::cancelled]: the store comes before the load. *)
Definition pending_cancelled {E} (p : PendingWrite) : Job St E Value :=
  jshared (update (store_cancelled p.(pw_number)));;;
  do! unknown := jshared (load_outcome p.(pw_number)) in
  jshared (in_audits (cancelled other p.(pw_audit) p.(pw_input) (if unknown then "unknown" else "dropped")));;;
  jret (write_error p.(pw_id) p.(pw_stream) (outcome_code p.(pw_input) unknown)).

(** [receiver.try_recv()] *)
Definition queue_recv {E} : peer_m E (option Work) :=
  let! r := reads_get in
  match chan_recv r.(rd_writes).(qu_channel) with
  | None => ret None
  | Some (k, c) => on_queue (set_channel c);; ret (Some k)
  end.
(** [let _ = sender.try_send(work)] *)
Definition queue_send_back {E} (k : Work) : Job St E unit :=
  do! sent := jcall (
    let! r := reads_get in
    match chan_try_send k r.(rd_writes).(qu_channel) with
    | Some c => on_queue (set_channel c);; ret true
    | None => ret false
    end) in
  jwhen (negb sent) (lose (drop_run k.(wk_run))).
Definition push_answer {E} (v : Value) : Job St E unit :=
  jcall (on_queue (λ q, set_answered (q.(qu_cancelled) ++ [v]) q)).

(** [Reads::discard_write_stream]; the channel holds [n] works. *)
Fixpoint discard_turns {E} (n : nat) (stream : Z) : Job St E (list Work) :=
  match n with
  | O => jret []
  | S n =>
      do! next := jcall queue_recv in
      match next with
      | None => jret []
      | Some k =>
          if bool_decide (k.(wk_stream) = Some stream) then
            do! v := pending_cancelled (pending_of k) in
            push_answer v;;;
            lose (drop_run k.(wk_run));;;
            discard_turns n stream
          else
            do! retained := discard_turns n stream in jret (k :: retained)
      end
  end.
Definition discard_write_stream {E} (stream : Z) : Job St E unit :=
  do! r := jcall reads_get in
  do! retained := discard_turns (length (chan_queue r.(rd_writes).(qu_channel))) stream in
  jfor_each retained queue_send_back.

(** [Reads::cancelled_writes] *)
Definition cancelled_writes {E} : peer_m E (list Value) :=
  let! r := reads_get in
  on_queue (set_answered []);;
  ret r.(rd_writes).(qu_cancelled).

(** ** Admission *)

(** The full-session permit of a device *)
Definition full_acquire (device : string) : M (Shared P * W) string unit :=
  update (λ s, set_gate (set_full (filter (λ e, (0 < ds_strong e.2)%nat) (gt_full (sh_gate s))) (sh_gate s)) s);;
  let! s := get in
  let d := default (mkDeviceSem (sem_new 1) 0) (gt_full (sh_gate s) !! device) in
  let put d := update (λ s, set_gate (set_full (<[device := d]> (gt_full (sh_gate s))) (sh_gate s)) s) in
  put d;;
  let! permit := ok_or "full-limit" (sem_try_acquire d.(ds_sem)) in
  put (mkDeviceSem permit (S d.(ds_strong))).

(** [self.writes.sender.try_send(work)]: the number is the work's from here on. *)
Definition send_work (work : Z → Work) : peer_m string unit :=
  let! r := reads_get in
  let k := work r.(rd_next_number) in
  match chan_try_send k r.(rd_writes).(qu_channel) with
  | Some c =>
      on_reads (λ r, set_next_number (r.(rd_next_number) + 1) (set_writes (set_channel c r.(rd_writes)) r));;
      in_shared (update (trace (Entered k)))
  | None => in_shared (update (drop_run k.(wk_run)));; throw "busy"
  end.

(** A failure after permits were acquired drops them. *)
Definition or_drop {A} (f : Shared P → Shared P) (m : peer_m string A) : peer_m string A :=
  let! r := attempt (E' := string) m in
  match r with
  | inr a => ret a
  | inl e => in_shared (update f);; throw e
  end.

(** [Reads::admit_open] up to the closure's permits *)
Definition open_params (scope : Scope) (params : Value)
    : string + (string * option string * option (Z * Z) * bool) :=
  match scope with
  | Control =>
      match bp_control parsers params with
      | None => inl "invalid-params"
      | Some p =>
          if negb (valid_id p.(ctl_target)) then inl "invalid-params"
          else if negb p.(ctl_confirm) then inl "size-confirmation-required"
          else inr (p.(ctl_session), Some p.(ctl_target), None, p.(ctl_takeover))
      end
  | _ =>
      match bp_full parsers params with
      | None => inl "invalid-params"
      | Some p => match full_size p.(fl_cols) p.(fl_rows) p.(fl_confirm) with
                  | inl e => inl e
                  | inr size => inr (p.(fl_session), None, Some size, false)
                  end
      end
  end.
Definition peer_audit {E} (ctx : AuthContext) (scope : Scope) (session : string) (target : option string)
    : peer_m E Audit :=
  let! r := reads_get in
  in_shared (in_audits (audit_new ctx.(ctx_device_id) r.(rd_peer_id) scope session target
                          r.(rd_writes).(qu_rejections))).
Definition admit_open (ctx : AuthContext) (id : Value) (method : string) (params : Value)
    (until : Timestamp) (fresh_until : option Timestamp) : peer_m string unit :=
  let! s := shared_get in
  reject_if (pending_for ctx.(ctx_device_id) (as_deferred (wh_audits (gt_whole (sh_gate s))))) "audit-unavailable";;
  let! r := reads_get in
  reject_if (bool_decide (MAX_STREAMS ≤ size r.(rd_streams))%nat) "stream-limit";;
  let scope := method_scope method in
  let! '(session, target, size, takeover) := of_either (open_params scope params) in
  let full := if bool_decide (scope = Full) then Some ctx.(ctx_device_id) else None in
  (match full with Some device => in_shared (full_acquire device) | None => ret tt end);;
  or_drop (drop_fulls full) (peer_jobs reserve_resource);;
  let stream := r.(rd_next_id) in
  let! next := or_drop (λ s, drop_fulls full (drop_reserved_resource s))
                 (ok_or "stream-limit" (checked_add u32_max stream 1)) in
  on_reads (set_next_id next);;
  let! u := peer_audit ctx scope session target in
  send_work (λ n, mkWork n u ctx.(ctx_device_id) id (Some stream) false until
               (RunOpen method session target size takeover stream fresh_until full));;
  in_shared (update (on_wire (λ s, set_states (<[stream := stream_state_new (Some until)]> s.(wr_states)) s)));;
  on_streams (<[stream := mkStream session false None (Some (mkWriteStream u false takeover))]>).

(** The two kinds of other works of [Reads::admit_write] *)
Definition agent_params (method : string) (params : Value) : string + (string * string * (string + list string)) :=
  if bool_decide (method = "agent.prompt") then
    match bp_prompt parsers params with
    | None => inl "invalid-params"
    | Some p => if PROMPT_BYTES <? len p.(pm_text) then inl "payload-too-large"
                else inr (p.(pm_session), p.(pm_target), inl p.(pm_text))
    end
  else
    match bp_keys parsers params with
    | None => inl "invalid-params"
    | Some p => match mapped_keys p.(ks_keys) with
                | inl e => inl e
                | inr keys => inr (p.(ks_session), p.(ks_target), inr keys)
                end
    end.
Definition admit_agent (ctx : AuthContext) (id : Value) (method : string) (params : Value) (until : Timestamp)
    : peer_m string unit :=
  let! '(session, target, message) := of_either (agent_params method params) in
  reject_if (negb (valid_id target)) "invalid-params";;
  let! u := peer_audit ctx (method_scope method) session (Some target) in
  send_work (λ n, mkWork n u ctx.(ctx_device_id) id None false until (RunAgent method session target message)).

Definition op_params (method : string) (params : Value) : string + (Z * Op) :=
  if bool_decide (method ∈ ["terminal.input"; "full.input"]) then
    match bp_input parsers params with
    | None => inl "invalid-params"
    | Some p => match input_bytes p with inl e => inl e | inr (s, b) => inr (s, OpInput b) end
    end
  else if bool_decide (method = "terminal.scroll") then
    match bp_scroll parsers params with
    | None => inl "invalid-params"
    | Some p => if (p.(sl_lines) =? 0) || (1000 <? p.(sl_lines)) then inl "invalid-params"
                else inr (p.(sl_stream), OpScroll p.(sl_direction) p.(sl_lines))
    end
  else if bool_decide (method = "full.resize") then
    match bp_resize parsers params with
    | None => inl "invalid-params"
    | Some p => match full_size p.(rz_cols) p.(rz_rows) p.(rz_confirm) with
                | inl e => inl e
                | inr size => inr (p.(rz_stream), OpResize size)
                end
    end
  else inl "invalid-params".
Definition is_input (op : Op) : bool := match op with OpInput _ => true | _ => false end.
Definition admit_op (ctx : AuthContext) (id : Value) (method : string) (params : Value) (until : Timestamp)
    : peer_m string unit :=
  let! '(stream, op) := of_either (op_params method params) in
  let! r := reads_get in
  let! s := ok_or "stream-not-found" (r.(rd_streams) !! stream) in
  let! ws := ok_or "invalid-stream-type" (ws ← s.(sm_write);
    if bool_decide (au_scope (ws_audit ws) = method_scope method) then Some ws else None) in
  let! lease := ok_or "busy" s.(sm_lease) in
  let! resource := (match lease_id lease with Ok id => ret id | _ => panic end) in
  send_work (λ n, mkWork n ws.(ws_audit) ctx.(ctx_device_id) id (Some stream) (is_input op) until
               (RunTerminal method resource stream op)).

(** [Reads::admit_write].  A tightening call closes its stream here; it is removed
    after the section ([write_call]). *)
Definition tightening (method : string) : bool := bool_decide (method ∈ ["terminal.release"; "full.close"]).
Definition admit_call (ctx : AuthContext) (id : Value) (method : string) (params : Value)
    (until : Timestamp) (fresh_until : option Timestamp) : peer_m string (option Z) :=
  let! r := reads_get in
  if tightening method then
    let! stream := ok_or "invalid-params" (bp_close parsers params) in
    let! s := ok_or "stream-not-found" (r.(rd_streams) !! stream) in
    reject_if (match s.(sm_write) with
               | None => true
               | Some ws => negb (bool_decide (au_scope (ws_audit ws) = method_scope method))
               end) "invalid-stream-type";;
    close_state stream "client-closed";;
    ret (Some stream)
  else
    (if r.(rd_writes).(qu_stalled) then
       match as_u64 (value_index "stream" params) with
       | Some s => throw (if bool_decide (Some (as_u32 s) = r.(rd_writes).(qu_stalled_stream))
                          then "stream-stalled" else "busy")
       | None => throw "busy"
       end
     else ret tt);;
    reject_if (bool_decide (chan_free r.(rd_writes).(qu_channel) = 0%nat)) "busy";;
    (if bool_decide (method ∈ ["terminal.control"; "full.open"])
     then admit_open ctx id method params until fresh_until
     else if bool_decide (method ∈ ["agent.prompt"; "pane.sendKeys"])
     then admit_agent ctx id method params until
     else admit_op ctx id method params until);;
    ret None.

(** What [write_call] does under the identity's lock *)
Definition wants_fresh (method : string) (params : Value) : bool :=
  bool_decide (method = "full.open")
  || (bool_decide (method = "terminal.control")
      && match value_index "takeover" params with VBool b => b | _ => false end).
Definition peer_identity {E A} (m : M (Identity * W) E A) : peer_m E A := in_gate (in_gw (in_identity m)).
Definition write_section (ctx : AuthContext) (id : Value) (method : string) (params : Value)
    : peer_m Failure (string + option Z) :=
  let scope := method_scope method in
  in_gate (with_authorized_whole config ctx (if tightening method then View else scope) (ret tt));;
  attempt (
    let fresh := wants_fresh method params in
    let! until := (if tightening method then in_gate clock_read
                   else map_err (λ _, "fresh-elevation-required") (peer_identity (write_deadline ctx scope fresh))) in
    let! fresh_until := (if fresh then peer_identity (gets (λ '(i, _), freshness_deadline ctx scope i))
                         else ret None) in
    admit_call ctx id method params until fresh_until).

(** [Reads::write_call]; [Err(())] ends the peer. *)
Definition stream_reply (id : Value) (stream : Z) : Value :=
  result_reply id (VObject [("stream", VNumber stream); ("closed", VBool true)]).
Definition write_message (code : string) : string :=
  if bool_decide (code = "scope-not-granted") then "Scope not granted"
  else if bool_decide (code = "elevation-required") then "Elevation required" else code.
Definition write_call (ctx : AuthContext) (id : Value) (method : string) (params : Value)
    : Job St unit (option Value) :=
  do! result := jattempt (jcall (write_section ctx id method params)) in
  let refuse code :=
    do! u := jcall (peer_audit ctx (method_scope method) "" None) in
    jshared (in_audits (rejected other u));;;
    jret (Some (rpc_error id code (write_message code))) in
  match result with
  | inr (inr None) => jret None
  | inr (inr (Some stream)) =>
      remove_stream stream;;;
      discard_write_stream stream;;;
      jret (Some (stream_reply id stream))
  | inr (inl code) => refuse code
  | inl e =>
      if bool_decide (e = SCOPE_NOT_GRANTED) then refuse "scope-not-granted"
      else if e.1 =? FORBIDDEN then refuse "elevation-required"
      else jthrow tt
  end.

(** [Reads::binary_call] *)
Definition binary_call (ctx : AuthContext) (message : string) : Job St unit (option Value) :=
  match be_u32 message with
  | None => jthrow tt
  | Some stream =>
      do! r := jcall reads_get in
      match r.(rd_streams) !! stream with
      | None =>
          if (0 <? stream) && (stream <? r.(rd_next_id))
          then jret (Some (write_error VNull (Some stream) "stream-closed"))
          else jthrow tt
      | Some s =>
          match s.(sm_write) with
          | None => jthrow tt
          | Some ws =>
              let method := if bool_decide (au_scope (ws_audit ws) = Full) then "full.input" else "terminal.input" in
              do! result := write_call ctx VNull method
                (VObject [("stream", VNumber stream); ("bytesB64", VString (b64std_encode (skip 4 message)))]) in
              match result with
              | None => jret None
              | Some v => do! v := jcall (expect (value_set "stream" (VNumber stream) v)) in jret (Some v)
              end
          end
      end
  end.

(** ** The pump *)

(** [submit_device], and the receiver put among [Reads::completed] *)
Definition submit (device : string) (write : bool) (c : Submission) (a : Awaited) (n : Z) : peer_m string unit :=
  peer_jobs (submit_device device write);;
  in_shared (update (λ s, set_jobs (<[n := mkJobCell device write (JobSubmitted c)]> s.(sh_jobs)) s));;
  on_reads (λ r, set_completed (r.(rd_completed) ++ [a]) r).

Definition stream_closed_event (stream : Z) (reason : string) : Value :=
  event_message "stream.closed" (VObject [("stream", VNumber stream); ("reason", VString reason)]).

(** The control streams of the session that an admitted full open displaces. *)
Definition displaced_by (k : Work) (streams : list (Z * Stream)) (all : gmap Z Stream) : list Z :=
  match (id ← k.(wk_stream); all !! id) with
  | Some s =>
      if bool_decide (s.(sm_lease) = None)
         && match s.(sm_write) with Some ws => bool_decide (au_scope (ws_audit ws) = Full) | None => false end
      then (λ e, e.1) <$> List.filter (λ e, bool_decide (sm_session e.2 = sm_session s)
             && match sm_write e.2 with
                | Some ws => bool_decide (au_scope (ws_audit ws) = Control)
                | None => false
                end) streams
      else []
  | None => []
  end.
Definition take_lease (id : Z) (streams : gmap Z Stream) : option (Z * Lease) :=
  s ← streams !! id; l ← sm_lease s; Some (id, l).

(** The first step of the pump: the work, what it displaces and their leases. *)
Definition pump_take {E} : peer_m E (option (Work * list Z * list (Z * Lease) * Timestamp)) :=
  let! next := queue_recv in
  match next with
  | None => ret None
  | Some k =>
      let! r := reads_get in
      let! streams := iterate r.(rd_streams) in
      let displaced := displaced_by k streams r.(rd_streams) in
      let leases := omap (λ id, take_lease id r.(rd_streams)) displaced in
      on_streams (λ m, foldr (alter (set_lease None)) m displaced);;
      let! now := in_shared clock_read in
      ret (Some (k, displaced, leases, now))
  end.
Definition pump_submit (k : Work) (leases : list (Z * Lease)) (now : Timestamp) : peer_m string unit :=
  submit k.(wk_device) true (SubmitWrite k leases)
    (mkAwaited k.(wk_id) k.(wk_stream) true (FromJob k.(wk_number))) k.(wk_number);;
  on_queue (set_active true (Some (mkWatchdog (after now (seconds 10)) k.(wk_id) k.(wk_stream) k.(wk_audit)))
              (Some (pending_of k))).
(** [Reads::pump_writes] *)
Definition pump_writes {E} : Job St E (list Value) :=
  do! r := jcall reads_get in
  if r.(rd_writes).(qu_active) then jret []
  else
    do! next := jcall pump_take in
    match next with
    | None => jret []
    | Some (k, displaced, leases, now) =>
        do! submitted := jattempt (jcall (pump_submit k leases now)) in
        match submitted with
        | inr _ =>
            jmap (λ id,
              do! r := jcall reads_get in
              do! s := jcall (expect (r.(rd_streams) !! id)) in
              jcall (on_streams (delete id));;;
              jcall (close_state id "full-opened");;;
              discard_write_stream id;;;
              stream_drop id s;;;
              jret (stream_closed_event id "full-opened")) displaced
        | inl code =>
            lose (drop_run k.(wk_run));;;
            jcall (on_streams (λ m, foldr (λ e, alter (set_lease (Some e.2)) e.1) m leases));;;
            do! r := jcall reads_get in
            (match k.(wk_stream) with
             | Some id => jwhen (match r.(rd_streams) !! id with
                                 | Some s => bool_decide (s.(sm_lease) = None)
                                 | None => false
                                 end) (remove_stream id)
             | None => jret tt
             end);;;
            jret [write_error k.(wk_id) k.(wk_stream) code]
        end
    end.

(** ** Time *)

(** [Reads::closed] of [read_bridge.rs] *)
Definition closed_streams (s : Shared P) (streams : list (Z * Stream)) : list (Z * string) :=
  omap (λ e, if bool_decide (is_Some (sm_lease e.2)) then (λ reason, (e.1, reason)) <$> closed_reason_of e.1 s
             else None) streams.
Definition reads_closed {E} : Job St E (list Value) :=
  do! closed := jcall (
    let! r := reads_get in
    let! s := shared_get in
    let! streams := iterate r.(rd_streams) in
    ret (closed_streams s streams)) in
  jmap (λ '(id, reason),
    remove_stream id;;;
    discard_write_stream id;;;
    jret (stream_closed_event id reason)) closed.

(** The stall of [Reads::write_tick] *)
Definition write_stall {E} (d : Watchdog) : Job St E unit :=
  jcall (on_queue (set_stalled true d.(wd_stream) None));;;
  jshared (in_audits (stalled other d.(wd_audit) "write"));;;
  (match d.(wd_stream) with
   | Some id =>
       do! r := jcall reads_get in
       jwhen (bool_decide (is_Some (r.(rd_streams) !! id))) (jcall (close_state id "stream-stalled"));;;
       jwhen (match r.(rd_streams) !! id with Some s => bool_decide (s.(sm_lease) = None) | None => false end)
         (remove_stream id;;; discard_write_stream id)
   | None => jret tt
   end);;;
  do! r := jcall reads_get in
  match r.(rd_writes).(qu_active_write) with
  | Some p =>
      jcall (on_queue (set_active_write None));;;
      do! v := pending_cancelled p in push_answer v
  | None => push_answer (write_error d.(wd_id) d.(wd_stream) "stream-stalled")
  end.
(** One turn of its loop over the streams *)
Definition tick_stream {E} (e : Z * Stream) : Job St E unit :=
  match sm_write e.2 with
  | None => jret tt
  | Some ws =>
      jcall (
        let! s := shared_get in
        match (state ← wr_states (sh_wire s) !! e.1; sst_deadline state) with
        | None => ret tt
        | Some until =>
            let! now := in_shared clock_read in
            when (until <=? now) (close_state e.1 "elevation-expired")
        end);;;
      jshared (flush_bucket false e.1 ws.(ws_audit))
  end.
(** [Reads::write_tick] *)
Definition write_tick {E} : Job St E (list Value) :=
  do! r := jcall reads_get in
  (match r.(rd_writes).(qu_watchdog) with
   | Some d =>
       do! now := jshared clock_read in
       jwhen (d.(wd_until) <=? now) (write_stall d)
   | None => jret tt
   end);;;
  do! streams := jcall (let! r := reads_get in iterate r.(rd_streams)) in
  jfor_each streams tick_stream;;;
  reads_closed.

(** [Reads::write_deadline] *)
Definition stream_expiry (s : Shared P) (e : Z * Stream) : option Timestamp :=
  if bool_decide (is_Some (closed_reason_of e.1 s)) then None
  else _ ← sm_write e.2;
       expiry ← (state ← wr_states (sh_wire s) !! e.1; sst_deadline state);
       Some (match oc_bucket (open_cell e.1 s) with
             | Some b => Z.min expiry b.(bk_until)
             | None => expiry
             end).
Definition reads_write_deadline {E} : peer_m E Timestamp :=
  let! r := reads_get in
  let! s := shared_get in
  let! streams := iterate r.(rd_streams) in
  match reduce Z.min (omap (stream_expiry s) streams
                      ++ option_list (wd_until <$> r.(rd_writes).(qu_watchdog))) with
  | Some t => ret t
  | None => let! now := in_shared clock_read in ret (after now (seconds 3600))
  end.

(** ** The end of the peer *)

Fixpoint cancel_rest {E} (n : nat) : Job St E (list Value) :=
  match n with
  | O => jret []
  | S n =>
      do! next := jcall queue_recv in
      match next with
      | None => jret []
      | Some k =>
          do! v := pending_cancelled (pending_of k) in
          lose (drop_run k.(wk_run));;;
          do! rest := cancel_rest n in
          jret (v :: rest)
      end
  end.
(** [Reads::cancel_writes] *)
Definition kill_life (s : Wire) : Wire :=
  Wire.set_life (mkLife false s.(wr_life).(lf_invalidated) s.(wr_life).(lf_stop)) s.
Definition cancel_writes {E} (reason : string) : Job St E (list Value) :=
  jshared (update (on_wire kill_life));;;
  do! streams := jcall (let! r := reads_get in iterate r.(rd_streams)) in
  jfor_each streams (λ e, jcall (close_state e.1 reason));;;
  do! answered := jcall cancelled_writes in
  do! r := jcall reads_get in
  do! active := (match r.(rd_writes).(qu_active), r.(rd_writes).(qu_active_write) with
    | true, Some p =>
        jcall (on_queue (set_active_write None));;;
        do! v := pending_cancelled p in jret [v]
    | _, _ => jret []
    end) in
  do! rest := cancel_rest (length (chan_queue r.(rd_writes).(qu_channel))) in
  jret (answered ++ active ++ rest).
End WriteBridge.
