(* ===== verification/ReadBridge.v ===== *)
(** * [read_bridge.rs]: the calls that read, completions, and chunked snapshots

    The other methods of the peer's task. *)

From stdpp Require Import base gmap strings list.
From Stdlib Require Import ZArith Lia.
From S2P Require Import Prelude Rust Externals Clock Devices Admin Events World.
From S2P Require Import Pairing Webauthn Session Authorize Gateway WriteAudit Jobs Herdr Push GitBridge Control.
From S2P Require Import Http Wire Rpc Threads Streams Calls WriteBridge.

Local Open Scope Z_scope.

(** ** [snapshot_replies] *)

(** [slice::chunks] *)
Fixpoint chunks (fuel : nat) (n : nat) (s : string) : list string :=
  match fuel, s with
  | S fuel, String _ _ => prefix n s :: chunks fuel n (skip n s)
  | _, _ => []
  end.
Definition chunk_event `{Base64} (id : Value) (index : nat) (chunk : string) : Value :=
  event_message "snapshot.chunk" (VObject
    [("id", id); ("index", VNumber (Z.of_nat index)); ("data", VString (b64std_encode chunk))]).
Definition snapshot_header (id : Value) (bytes : Z) : Value :=
  result_reply id (VObject [("chunked", VBool true); ("encoding", VString "base64-json-v1");
    ("bytes", VNumber bytes); ("chunks", VNumber (div_ceil bytes CHUNK_BYTES))]).
Definition snapshot_replies `{Base64, Json} (id value : Value) : option (list Value) :=
  bytes ← json_to_vec value;
  Some (if SNAPSHOT_BYTES <? len bytes then [read_error id "payload-too-large"]
        else if len bytes <=? INLINE_BYTES then [result_reply id value]
        else snapshot_header id (len bytes)
               :: imap (chunk_event id) (chunks (String.length bytes) (Z.to_nat CHUNK_BYTES) bytes)).

Section ReadBridge.
Context `{Base64, Json, Crypto, Http, Tokio, Budgets, !Webauthn Transport, World W, HerdrHost P}.
Context (parsers : BridgeParsers) (config : GwConfig) (other : Audits * W → Audits * W).
Abbreviation St := ((Reads * Shared P) * W)%type.
Abbreviation peer_m E A := (M St E A).

(** ** Calls *)

(** [self.pending.clone().try_acquire_owned()], and its drop *)
Definition acquire_pending : peer_m string unit :=
  let! r := reads_get in
  let! s := ok_or "busy" (sem_try_acquire r.(rd_pending)) in
  on_reads (set_read_slots s).
Definition release_pending {E} : peer_m E unit := on_reads (λ r, set_read_slots (sem_release r.(rd_pending)) r).
(** What fails while the slot is held drops it. *)
Definition holding {A} (m : peer_m string A) : peer_m string A :=
  let! r := attempt (E' := string) m in
  match r with
  | inr a => ret a
  | inl e => release_pending;; throw e
  end.
Definition next_number {E} : peer_m E Z :=
  let! r := reads_get in
  on_reads (set_next_number (r.(rd_next_number) + 1));; ret r.(rd_next_number).

(** The session and the target of a call that goes to the host *)
Definition read_params (method : string) (params : Value) : option (string * option string) :=
  if bool_decide (method = "sessions.list") then
    if is_null params || match as_object params with Some [] => true | _ => false end
    then Some ("", None) else None
  else if bool_decide (method = "terminal.observe") then
    p ← bp_observe parsers params;
    if valid_id p.2 then Some (p.1, Some p.2) else None
  else if bool_decide (method ∈ ["snapshot.get"; "events.subscribe"]) then
    session ← bp_session parsers params; Some (session, None)
  else None.
Definition run_of (method session : string) (target : option string) : ReadRun :=
  if bool_decide (method = "sessions.list") then ReadSessions
  else if bool_decide (method = "snapshot.get") then ReadSnapshot session
  else match target with
       | Some target => ReadObserve session target
       | None => ReadEvents session
       end.
Definition is_opening (method : string) : bool := bool_decide (method ∈ ["events.subscribe"; "terminal.observe"]).

(** What [enqueue] does from the pending slot on: the number of the job. *)
Definition open_read (method session : string) : peer_m string (option Z) :=
  if is_opening method then
    let! r := reads_get in
    reject_if (bool_decide (MAX_STREAMS ≤ size r.(rd_streams))%nat) "stream-limit";;
    peer_jobs reserve_resource;;
    let! next := or_drop drop_reserved_resource (ok_or "stream-limit" (checked_add u32_max r.(rd_next_id) 1)) in
    on_reads (set_next_id next);;
    on_streams (<[r.(rd_next_id) := mkStream session (bool_decide (method = "events.subscribe")) None None]>);;
    in_shared (update (on_wire (λ s, set_states (<[r.(rd_next_id) := stream_state_new None]> s.(wr_states)) s)));;
    ret (Some r.(rd_next_id))
  else ret None.
Definition submit_read (device : string) (id : Value) (run : ReadRun) (stream : option Z) : peer_m string unit :=
  let! n := next_number in
  submit device false (SubmitRead run stream) (mkAwaited id stream false (FromJob n)) n.
(** A refused call drops the closure and its stream, which holds nothing yet. *)
Definition refused_read (stream : option Z) {A} (m : peer_m string A) : peer_m string A :=
  let! r := attempt (E' := string) m in
  match r with
  | inr a => ret a
  | inl e =>
      match stream with
      | Some id => in_shared (update drop_reserved_resource);; on_streams (delete id)
      | None => ret tt
      end;;
      throw e
  end.

(** [Reads::push_subscribe] *)
Definition push_subscribe (device : string) (id params : Value) : peer_m string unit :=
  acquire_pending;;
  let! request := holding (in_gate (in_push_world (subscribe_begin (bp_subscribe parsers) device params))) in
  on_reads (λ r, set_completed (r.(rd_completed) ++ [mkAwaited id None false (FromPush request)]) r).

(** [Reads::git] *)
Definition parse_git (method : string) (params : Value) : string + GitRequest :=
  match parse_request (bp_git parsers) method params with Some r => inr r | None => inl "invalid-params" end.
Definition git_call (device : string) (id : Value) (method : string) (params : Value) : peer_m string unit :=
  let! request := of_either (parse_git method params) in
  let! s := shared_get in
  let! space := of_either (spaces_get request.(gr_session) request.(gr_workspace) (wh_spaces (gt_whole (sh_gate s)))) in
  acquire_pending;;
  let! now := in_shared clock_read in
  holding (submit_read device id (ReadGit request space (mkTokens device now)) None);;
  let! now := in_shared clock_read in
  let! r := reads_get in
  let '(due, window) := audit_due request.(gr_session) request.(gr_workspace) now r.(rd_git_reads) in
  on_reads (set_git_reads window);;
  when due (in_shared (in_audits (git_read device r.(rd_peer_id) request.(gr_session) request.(gr_workspace) method))).

(** A call that goes to the host *)
Definition host_read (device : string) (id : Value) (method : string) (params : Value) : peer_m string (option Value) :=
  let! '(session, target) := ok_or "invalid-params" (read_params method params) in
  let! r := reads_get in
  let! streams := iterate r.(rd_streams) in
  match (if bool_decide (method = "events.subscribe")
         then List.find (λ e, sm_events e.2 && bool_decide (sm_session e.2 = session)) streams else None) with
  | Some (stream, s) =>
      reject_if (bool_decide (s.(sm_lease) = None)) "busy";;
      ret (Some (result_reply id (VObject [("stream", VNumber stream); ("subscribed", VBool true)])))
  | None =>
      acquire_pending;;
      holding (
        let! stream := open_read method session in
        refused_read stream (submit_read device id (run_of method session target) stream));;
      ret None
  end.

(** What a call does under the identity's lock, up to the drop of a stream that it
    closes. *)
Inductive Enqueued := EnqueuedReply (v : option Value) | EnqueuedClose (stream : Z) (s : Stream).
Definition or_error (id : Value) (m : peer_m string Enqueued) : peer_m Failure Enqueued :=
  let! r := attempt m in
  match r with
  | inr x => ret x
  | inl code => ret (EnqueuedReply (Some (read_error id code)))
  end.
(** [Reads::enqueue] *)
Definition enqueue (device : string) (id : Value) (method : string) (params : Value) : peer_m Failure Enqueued :=
  or_error id (
    if bool_decide (method = "stream.close") then
      let! stream := ok_or "invalid-params" (bp_close parsers params) in
      let! r := reads_get in
      reject_if (match r.(rd_streams) !! stream with
                 | Some s => bool_decide (is_Some s.(sm_write))
                 | None => false
                 end) "invalid-stream-type";;
      let! s := ok_or "stream-not-found" (r.(rd_streams) !! stream) in
      on_streams (delete stream);;
      close_state stream "client-closed";;
      ret (EnqueuedClose stream s)
    else if bool_decide (method = "push.subscribe") then
      push_subscribe device id params;; ret (EnqueuedReply None)
    else if is_git method then
      git_call device id method params;; ret (EnqueuedReply None)
    else
      let! v := host_read device id method params in ret (EnqueuedReply v)).
(** [Reads::call] *)
Definition read_call (ctx : AuthContext) (id : Value) (method : string) (params : Value)
    : Job St unit (option Value) :=
  do! r := jattempt (jcall (
    in_gate (with_authorized_whole config ctx View (ret tt));;
    enqueue ctx.(ctx_device_id) id method params)) in
  match r with
  | inl _ => jthrow tt
  | inr (EnqueuedReply v) => jret v
  | inr (EnqueuedClose stream s) => stream_drop other stream s;;; jret (Some (stream_reply id stream))
  end.

(** ** Completions *)

(** The drop of an [Output] *)
Definition drop_output {S} (out : Output) : M (Shared P * W) S unit :=
  match out with
  | OutOpened lease _ announcement =>
      update (drop_lease lease);;
      when announcement (drop_reserved AnnouncementPool)
  | _ => ret tt
  end.
Definition drop_result {S} (r : string + Output) : M (Shared P * W) S unit :=
  match r with inr out => drop_output out | inl _ => ret tt end.

Definition finish_failure (c : Completion) (code : string) : Value :=
  if c.(co_write) then write_error c.(co_id) c.(co_stream) code else read_error c.(co_id) code.
(** The announcement of a write stream that the host has opened. *)
Definition announce_stream {E} (id : Z) (ws : WriteStream) (value : Value) (announcement : bool)
    : peer_m E unit :=
  let u := set_target (as_str (value_index "target" value)) ws.(ws_audit) in
  (if announcement then ret tt else panic);;
  in_shared (in_audits (announce other u ws.(ws_takeover)));;
  on_streams (alter (set_write (Some (mkWriteStream u true ws.(ws_takeover)))) id).
(** The three outcomes of [Reads::finish] *)
Definition finish_opened {E} (c : Completion) (lease : Lease) (value : Value) (announcement : bool)
    : Job St E (list Value) :=
  do! r := jcall reads_get in
  match (id ← c.(co_stream); s ← r.(rd_streams) !! id; Some (id, s)) with
  | None =>
      jshared (drop_output (OutOpened lease value announcement));;;
      jret [finish_failure c "stream-closed"]
  | Some (id, s) =>
      jcall (on_streams (alter (set_lease (Some lease)) id));;;
      do! shared := jcall shared_get in
      match closed_reason_of id shared with
      | Some reason =>
          jwhen announcement (jshared (drop_reserved AnnouncementPool));;;
          jret [finish_failure c reason]
      | None =>
          (match s.(sm_write) with
           | Some ws => jcall (announce_stream id ws value announcement)
           | None => jwhen announcement (jshared (drop_reserved AnnouncementPool))
           end);;;
          jshared (update (on_wire (make_ready id)));;;
          jret [result_reply c.(co_id) value]
      end
  end.
Definition finish_failed {E} (c : Completion) (code : string) : Job St E (list Value) :=
  (match c.(co_stream) with
   | None => jret tt
   | Some id =>
       do! r := jcall reads_get in
       match r.(rd_streams) !! id with
       | None => jret tt
       | Some s =>
           if negb c.(co_write) || bool_decide (s.(sm_lease) = None) then
             jcall (on_streams (delete id));;;
             jcall (close_state id code);;;
             stream_drop other id s
           else jwhen (bool_decide (code = "stream-stalled")) (jcall (close_state id code))
       end
   end);;;
  jret [finish_failure c code].
(** [Reads::finish] *)
Definition finish {E} (c : Completion) : Job St E (list Value) :=
  do! late := (if c.(co_write) then
      jcall (
        let! r := reads_get in
        let '(late, q) := queue_finished r.(rd_writes) in
        on_queue (λ _, q);; ret late)
    else jret false) in
  do! s := jcall shared_get in
  if late || negb (life_active (wr_life (sh_wire s))) then
    jshared (drop_result c.(co_result));;; jret []
  else
    match c.(co_result) with
    | inr (OutOpened lease value announcement) => finish_opened c lease value announcement
    | inr (OutValue value) =>
        do! bytes := jcall (expect (json_to_vec value)) in
        jret (if INLINE_BYTES <? len bytes then [finish_failure c "payload-too-large"]
              else [result_reply c.(co_id) value])
    | inr (OutSnapshot value) => jcall (expect (snapshot_replies c.(co_id) value))
    | inl code => finish_failed c code
    end.

(** [reads.completed.next()]: the [i]-th future is ready; its value, with the
    pending slot of a read given back. *)
Definition receive (a : Awaited) (s : Shared P) : option (M (Push * W) string Value + outcome string Output) :=
  match a.(aw_source) with
  | FromJob n => match jc_phase <$> s.(sh_jobs) !! n with Some (JobDone r) => Some (inr r) | _ => None end
  | FromPush request => Some (inl (subscribe_finish request))
  end.
Definition received (r : outcome string Output) : string + Output :=
  match r with Ok out => inr out | Err e => inl e | Panic => inl "herdr-unavailable" end.
Definition take_awaited {E} (i : nat) (a : Awaited) : peer_m E unit :=
  on_reads (λ r, set_completed (delete i r.(rd_completed)) r);;
  (match a.(aw_source) with
   | FromJob n => in_shared (update (λ s, set_jobs (delete n s.(sh_jobs)) s))
   | FromPush _ => ret tt
   end);;
  when (negb a.(aw_write)) release_pending.
Definition complete {E} (i : nat) : peer_m E (option Completion) :=
  let! r := reads_get in
  let! s := shared_get in
  match r.(rd_completed) !! i with
  | None => ret None
  | Some a =>
      match receive a s with
      | None => ret None
      | Some source =>
          let! result := (match source with
            | inl push =>
                let! v := attempt (in_gate (in_push_world push)) in
                ret (match v with inr v => inr (OutValue v) | inl e => inl e end)
            | inr out => ret (received out)
            end) in
          take_awaited i a;;
          ret (Some (mkCompletion a.(aw_id) a.(aw_stream) result a.(aw_write)))
      end
  end.

(** [drop(reads)]: what its jobs still return is dropped where they end. *)
Definition drop_awaited {E} (a : Awaited) : M (Shared P * W) E unit :=
  match a.(aw_source) with
  | FromJob n =>
      let! s := get in
      match jc_phase <$> s.(sh_jobs) !! n with
      | Some (JobDone (Ok out)) => update (set_jobs (delete n s.(sh_jobs)));; drop_output out
      | _ => ret tt
      end
  | FromPush request => ret tt
  end.
Definition reads_drop {E} : Job St E unit :=
  jshared (update (on_wire kill_life));;;
  do! streams := jcall (let! r := reads_get in iterate r.(rd_streams)) in
  jcall (on_streams (λ _, ∅));;;
  jfor_each streams (λ e, stream_drop other e.1 e.2);;;
  do! r := jcall reads_get in
  jcall (on_reads (set_completed []));;;
  jfor_each r.(rd_completed) (λ a, jshared (drop_awaited a)).
End ReadBridge.
