(* ===== verification/ReadFacts.v ===== *)
(** * [read_bridge.rs]: a large snapshot arrives whole *)

From stdpp Require Import base strings list.
From Stdlib Require Import ZArith Lia.
From S2P Require Import Prelude Rust Externals Crates Clock Devices Admin Herdr Wire Rpc Streams Calls ReadBridge.

Local Open Scope Z_scope.

Lemma prefix_length n s : String.length (prefix n s) = Nat.min n (String.length s).
Proof. revert s. induction n as [|n IH]; intros [|c s]; simpl; [done..|]. f_equal. apply IH. Qed.
Lemma skip_length n s : String.length (skip n s) = (String.length s - n)%nat.
Proof. revert s. induction n as [|n IH]; intros [|c s]; simpl; [done..|]. apply IH. Qed.
Lemma div_ceil_le0 n : 0 < n → div_ceil 0 n = 0.
Proof. intros Hn. unfold div_ceil. apply Z.div_small. lia. Qed.

(** ** [slice::chunks] *)
Lemma chunks_step fuel n s : (0 < n)%nat → (String.length s ≤ fuel)%nat → s ≠ "" →
  chunks fuel n s = prefix n s :: chunks (pred fuel) n (skip n s).
Proof. intros Hn Hf Hs. destruct fuel, s; simpl in *; try done. lia. Qed.
(** In order they make up the slice, each of the given length but the last. *)
Lemma chunks_spec n fuel s : (0 < n)%nat → (String.length s ≤ fuel)%nat →
  foldr String.append "" (chunks fuel n s) = s
  ∧ Forall (λ c, 0 < len c <= Z.of_nat n) (chunks fuel n s)
  ∧ Z.of_nat (length (chunks fuel n s)) = div_ceil (len s) (Z.of_nat n).
Proof.
  intros Hn. revert s. induction fuel as [|fuel IH]; intros s Hf.
  - destruct s; [|simpl in Hf; lia]. split; [done|]. split; [constructor|]. simpl. rewrite div_ceil_le0; lia.
  - destruct (decide (s = "")) as [->|Hs].
    { split; [done|]. split; [constructor|]. simpl. rewrite div_ceil_le0; lia. }
    rewrite chunks_step by done. simpl pred.
    assert (0 < String.length s)%nat as Hpos by (destruct s; [done|simpl; lia]).
    destruct (IH (skip n s)) as (IH1 & IH2 & IH3); [rewrite skip_length; lia|]. simpl.
    rewrite IH1, prefix_skip. split; [done|]. split.
    + constructor; [|done]. unfold len. rewrite prefix_length. lia.
    + rewrite Nat2Z.inj_succ, IH3. unfold div_ceil, len. rewrite skip_length.
      destruct (Nat.le_gt_cases n (String.length s)) as [Hle|Hlt].
      * rewrite Nat2Z.inj_sub by done.
        replace (Z.of_nat (String.length s) + Z.of_nat n - 1)
          with (Z.of_nat (String.length s) - Z.of_nat n + Z.of_nat n - 1 + 1 * Z.of_nat n) by lia.
        rewrite Z.div_add by lia. lia.
      * replace (String.length s - n)%nat with 0%nat by lia. change (Z.of_nat 0) with 0.
        rewrite (Z.div_small (0 + _ - 1)) by lia.
        apply (Z.div_unique_pos _ _ _ (Z.of_nat (String.length s) - 1)); lia.
Qed.

(** ** The replies of a snapshot *)

(** A literal string without escapes *)
Ltac plain k :=
  rewrite ?(json_plain_len k) by (vm_compute; repeat constructor);
  let n := eval vm_compute in (len k) in change (len k) with n.
Section Replies.
Context `{Base64, !Base64Laws _, Json, !JsonLaws _}.

(** What the phone reads from a message of a chunk. *)
Definition event_chunk (v : Value) : option string :=
  text ← as_str (value_index "data" (value_index "data" v)); b64std_decode text.
Definition event_index (v : Value) : Value := value_index "index" (value_index "data" v).

Lemma encoded_len b : json_len (VString (b64std_encode b)) = div_ceil (len b) 3 * 4 + 2.
Proof.
  rewrite json_plain_len; [by rewrite b64std_encode_len|].
  eapply Forall_impl; [apply b64std_alphabet|]. intros c Hc. unfold plain_char, in_range.
  unfold is_ascii_digit, is_ascii_lowercase, is_ascii_uppercase, in_range in Hc. lia.
Qed.
Lemma id_len c : call_ok c = true → json_len (cl_id c) <= 770.
Proof.
  unfold call_ok. intros [[Hn|Hs]%orb_prop _]%andb_prop.
  - destruct (as_u64 (cl_id c)) as [n|] eqn:Hi; [|done]. destruct (cl_id c) as [| |m| | |]; try done. simpl in Hi.
    destruct (in_range 0 m u64_max) eqn:Hr; [|done]. unfold in_range in Hr.
    pose proof (json_number_len m ltac:(lia)). lia.
  - destruct (as_str (cl_id c)) as [s|] eqn:Hi; [|done]. destruct (cl_id c) as [| | |s'| |]; try done.
    injection Hi as ->. pose proof (json_string_len s). lia.
Qed.

Lemma chunk_event_len id i chunk : json_len id <= 770 → Z.of_nat i <= u64_max → len chunk <= CHUNK_BYTES →
  json_len (chunk_event id i chunk) <= MESSAGE_BYTES.
Proof.
  intros Hid Hi Hc. unfold chunk_event, event_message.
  pose proof (encoded_len chunk) as Henc. assert (div_ceil (len chunk) 3 <= 12288) as Hdiv.
  { unfold div_ceil. apply Z.lt_succ_r, Z.div_lt_upper_bound; [lia|]. unfold CHUNK_BYTES in Hc. lia. }
  pose proof (json_number_len (Z.of_nat i) ltac:(lia)) as Hnum.
  etrans; [apply json_object_len|]. cbn [foldr fst snd].
  assert (json_len (VObject [("id", id); ("index", VNumber (Z.of_nat i)); ("data", VString (b64std_encode chunk))]) <= 50000) as Hin.
  { etrans; [apply json_object_len|]. cbn [foldr fst snd].
    plain "id". plain "index". plain "data". lia. }
  plain "event". plain "snapshot.chunk". plain "data". unfold MESSAGE_BYTES. lia.
Qed.
Lemma header_len id bytes : json_len id <= 770 → 0 <= bytes <= SNAPSHOT_BYTES →
  json_len (snapshot_header id bytes) <= MESSAGE_BYTES.
Proof.
  intros Hid Hb. unfold snapshot_header, result_reply. unfold SNAPSHOT_BYTES in Hb.
  assert (0 <= div_ceil bytes CHUNK_BYTES <= u64_max) as Hdiv.
  { unfold div_ceil, CHUNK_BYTES, u64_max. split; [apply Z.div_pos; lia|].
    apply Z.lt_succ_r, Z.div_lt_upper_bound; lia. }
  pose proof (json_number_len bytes ltac:(unfold u64_max; lia)). pose proof (json_number_len _ Hdiv).
  pose proof (json_bool_len true).
  etrans; [apply json_object_len|]. cbn [foldr fst snd].
  assert (json_len (VObject [("chunked", VBool true); ("encoding", VString "base64-json-v1");
    ("bytes", VNumber bytes); ("chunks", VNumber (div_ceil bytes CHUNK_BYTES))]) <= 1000) as Hin.
  { etrans; [apply json_object_len|]. cbn [foldr fst snd].
    plain "chunked". plain "encoding". plain "base64-json-v1". plain "bytes". plain "chunks". lia. }
  plain "id". plain "result". unfold MESSAGE_BYTES. lia.
Qed.
Lemma inline_len id value : json_len id <= 770 → json_len value <= INLINE_BYTES →
  json_len (result_reply id value) <= MESSAGE_BYTES.
Proof.
  intros Hid Hv. unfold result_reply. etrans; [apply json_object_len|]. cbn [foldr fst snd].
  plain "id". plain "result". unfold INLINE_BYTES in Hv. unfold MESSAGE_BYTES. lia.
Qed.
Lemma too_large_len id : json_len id <= 770 → json_len (read_error id "payload-too-large") <= MESSAGE_BYTES.
Proof.
  intros Hid. unfold read_error. etrans; [apply json_object_len|]. cbn [foldr fst snd].
  assert (json_len (VObject [("code", VString "payload-too-large"); ("message", VString "payload-too-large")]) <= 1000) as Hin.
  { etrans; [apply json_object_len|]. cbn [foldr fst snd].
    plain "code". plain "message". plain "payload-too-large". lia. }
  plain "id". plain "error". unfold MESSAGE_BYTES. lia.
Qed.

Lemma events_read id l : mapM event_chunk (imap (chunk_event id) l) = Some l.
Proof.
  apply mapM_Some_2, Forall2_same_length_lookup_2; [by rewrite length_imap|].
  intros i v chunk Hv Hc. rewrite list_lookup_imap, Hc in Hv. injection Hv as <-. apply b64std_decode_encode.
Qed.

(** C33. A snapshot of at most 2 MiB arrives whole: in one reply, or announced by a header
    and in numbered chunks that decode, in order, to exactly its bytes; a larger one
    is refused.  Each of the messages fits the limit of the wire. *)
Theorem snapshot_whole c value bytes : call_ok c = true → json_to_vec value = Some bytes →
  ∃ replies, snapshot_replies (cl_id c) value = Some replies
  ∧ (∀ v, v ∈ replies → json_len v <= MESSAGE_BYTES)
  ∧ (SNAPSHOT_BYTES < len bytes → replies = [read_error (cl_id c) "payload-too-large"])
  ∧ (len bytes <= INLINE_BYTES → replies = [result_reply (cl_id c) value])
  ∧ (INLINE_BYTES < len bytes <= SNAPSHOT_BYTES →
      ∃ events chunks, replies = snapshot_header (cl_id c) (len bytes) :: events
      ∧ Z.of_nat (length events) = div_ceil (len bytes) CHUNK_BYTES
      ∧ (∀ i e, events !! i = Some e → event_index e = VNumber (Z.of_nat i))
      ∧ mapM event_chunk events = Some chunks ∧ foldr String.append "" chunks = bytes).
Proof.
  intros Hc%id_len Hv. unfold snapshot_replies. rewrite Hv. cbn [option_bind mbind]. eexists. split; [done|].
  destruct (chunks_spec (Z.to_nat CHUNK_BYTES) (String.length bytes) bytes) as (H1 & H2 & H3); [unfold CHUNK_BYTES; lia|done|].
  rewrite Z2Nat.id in H2, H3 by done. set (l := chunks _ _ bytes) in *.
  assert (0 <= len bytes) by (unfold len; lia).
  destruct (Z.ltb_spec SNAPSHOT_BYTES (len bytes)) as [Hbig|Hfit].
  { split; [|split; [done|]].
    - intros v ->%list_elem_of_singleton. by apply too_large_len.
    - unfold SNAPSHOT_BYTES, INLINE_BYTES in *. split; intros; lia. }
  destruct (Z.leb_spec (len bytes) INLINE_BYTES) as [Hin|Hout].
  { split; [|split; [lia|split; [done|lia]]]. intros v ->%list_elem_of_singleton. apply inline_len; [done|].
    unfold json_len. by rewrite Hv. }
  split; [|split; [lia|split; [lia|]]].
  - intros v [->|Hv']%elem_of_cons; [by apply header_len|].
    apply list_elem_of_lookup_1 in Hv' as [i Hi]. rewrite list_lookup_imap in Hi.
    destruct (l !! i) as [chunk|] eqn:Hl; [|done]. injection Hi as <-. apply chunk_event_len; [done| |].
    + apply lookup_lt_Some in Hl. assert (Z.of_nat (length l) <= 100) as Hlen; [|unfold u64_max; lia].
      rewrite H3. unfold div_ceil, CHUNK_BYTES, SNAPSHOT_BYTES in *. apply Z.lt_succ_r, Z.div_lt_upper_bound; lia.
    + rewrite Forall_forall in H2. apply (H2 chunk). by eapply list_elem_of_lookup_2.
  - intros _. exists (imap (chunk_event (cl_id c)) l), l. split; [done|]. split; [by rewrite length_imap|].
    split; [|by split; [apply events_read|]].
    intros i e Hi. rewrite list_lookup_imap in Hi. destruct (l !! i); [|done]. by injection Hi as <-.
Qed.
End Replies.

(** ** A snapshot of two chunks *)
Fixpoint letters (n : nat) : string := match n with O => "" | S n => "a" +:+ letters n end.
Definition demo_value : Value := VString (letters 50000).
Definition demo_request : Rpc.Call := mkCall (VNumber 7) "snapshot.get" VNull.
Lemma snapshot_whole_witness : ∃ bytes replies, json_to_vec demo_value = Some bytes ∧ len bytes = 50002
  ∧ snapshot_replies (cl_id demo_request) demo_value = Some replies ∧ length replies = 3%nat.
Proof.
  assert (json_to_vec demo_value = Some ("'" +:+ letters 50000 +:+ "'")) as Hv by reflexivity.
  assert (len ("'" +:+ letters 50000 +:+ "'") = 50002) as Hl by (vm_cast_no_check (eq_refl 50002)).
  destruct (snapshot_whole demo_request demo_value _ eq_refl Hv) as (replies & Hr & _ & _ & _ & Hc).
  exists ("'" +:+ letters 50000 +:+ "'"), replies. split; [exact Hv|]. split; [exact Hl|]. split; [exact Hr|].
  rewrite Hl in Hc. destruct Hc as (events & l & -> & He & _); [vm_compute; split; [reflexivity|discriminate]|].
  cbn [length]. f_equal. apply Nat2Z.inj. rewrite He. vm_compute. reflexivity.
Defined.
