(* ===== verification/Peer.v ===== *)
(** * [bridge.rs]: the task of a peer, as a system of threads

    [drive] is a loop of turns; a turn answers what was cancelled, pumps the queue
    of writes and then handles one event.  The peer's task, the calls of the host
    that it submitted, the host's callbacks, the writer and the rest of the gateway
    take steps in any order. *)

From stdpp Require Import base gmap strings list relations.
From Stdlib Require Import ZArith Lia.
From S2P Require Import Prelude Rust Externals Clock Devices Admin Events World.
From S2P Require Import Pairing Webauthn Session Authorize Gateway WriteAudit Jobs Herdr Push GitBridge Control.
From S2P Require Import Http Wire Rpc Threads Streams Calls WriteBridge ReadBridge.

Local Open Scope Z_scope.

(** What [reader.next()] yields. *)
Inductive Incoming :=
| IncomingFrame (m : Message)
| IncomingCapacity | IncomingProtocol | IncomingUtf8 | IncomingEnd.
(** What the [select!] of the reader takes. *)
Inductive PeerEvent :=
| EvStop
| EvInvalidated
| EvPongDue
| EvIncoming (now : Z) (i : Incoming)
| EvCompleted (i : nat)
| EvDeadline
| EvChanged
| EvPing.

(** What the loop carries: whether a pong is due, and [messages]. *)
Record Conn := mkConn { cn_pong_due : bool; cn_messages : list Z }.

Definition PING_PAYLOAD : string := "yzc".

Section Peer.
Context `{Base64, Json, Crypto, Http, Tokio, Budgets, !Webauthn Transport, World W, HerdrHost P, !GitHost P}.
Context (parse_call : string → option Call) (rfc3339 : Timestamp → string) (parsers : BridgeParsers).
Context (json_from_str : string → option Value) (allowlist : gset string) (config : GwConfig).
Context (other : Audits * W → Audits * W) (rest : nat → Whole * W → Whole * W).
Abbreviation St := ((Reads * Shared P) * W)%type.

Definition on_outbound {E A} (m : M Wire E A) : M St E A :=
  in_shared (zoom (λ '(s, _), sh_wire s) (λ x '(s, w), (set_wire x s, w)) m).
Definition send_replies (l : list Value) : Job St Close unit := jcall (on_outbound (outbound_replies l)).
Definition or_invalid {A} (t : Job St unit A) : Job St Close A := jmap_err (λ _, jthrow INVALID_SESSION) t.

(** [*invalidated.borrow()], [*stop.borrow() != 0] *)
Definition check_life : M St Close unit :=
  let! s := shared_get in
  let l := wr_life (sh_wire s) in
  reject_if l.(lf_invalidated) INVALID_SESSION;;
  reject_if (negb (l.(lf_stop) =? 0)) (stop_reason l.(lf_stop)).

(** A message of text: [rpc] answers it, unless a bridge takes it. *)
Definition error_code (response : Value) : Value := value_index "code" (value_index "error" response).
Definition on_text (ctx : AuthContext) (text : string) : Job St Close unit :=
  do! response := jcall (in_gate (rpc parse_call rfc3339 config rest ctx text)) in
  match parse_call text with
  | Some call =>
      if is_read call.(cl_method) && value_is (error_code response) "not-implemented" then
        do! reply := or_invalid (read_call parsers config other ctx call.(cl_id) call.(cl_method) call.(cl_params)) in
        match reply with Some v => send_replies [v] | None => jret tt end
      else if is_write call.(cl_method) && negb (value_is (error_code response) "invalid-request") then
        do! reply := or_invalid (write_call parsers config other ctx call.(cl_id) call.(cl_method) call.(cl_params)) in
        match reply with Some v => send_replies [v] | None => jret tt end
      else send_replies [response]
  | None => send_replies [response]
  end.
Definition on_binary (ctx : AuthContext) (bytes : string) : Job St Close unit :=
  do! reply := jmap_err (λ _, jthrow (mkClose 1003 "invalid-input-stream"))
                 (binary_call parsers config other ctx bytes) in
  match reply with Some v => send_replies [v] | None => jret tt end.

Definition authorize_activity (ctx : AuthContext) : Job St Close unit :=
  or_invalid (jmap_err (λ _, jthrow tt) (jcall (in_gate (with_authorized_whole config ctx View (ret tt))))).
Definition on_message (ctx : AuthContext) (m : Message) (c : Conn) : Job St Close Conn :=
  match m with
  | MText text => authorize_activity ctx;;; on_text ctx text;;; jret c
  | MBinary bytes => authorize_activity ctx;;; on_binary ctx bytes;;; jret c
  | MPong bytes => jret (if bool_decide (bytes = PING_PAYLOAD) then mkConn false c.(cn_messages) else c)
  | MPing _ => jret c
  | MClose _ => jthrow (mkClose 1000 "client-closed")
  end.
Definition on_incoming (ctx : AuthContext) (now : Z) (i : Incoming) (c : Conn) : Job St Close Conn :=
  match i with
  | IncomingCapacity => jthrow (mkClose 1009 "message-too-large")
  | IncomingProtocol => jthrow (mkClose 1002 "invalid-frame")
  | IncomingUtf8 => jthrow (mkClose 1007 "invalid-utf8")
  | IncomingEnd => jthrow TRANSPORT
  | IncomingFrame m =>
      let '(ok, messages) := message_admit now c.(cn_messages) in
      if ok then on_message ctx m (mkConn c.(cn_pong_due) messages)
      else jthrow (mkClose 1008 "message-rate")
  end.
Definition on_event (ctx : AuthContext) (e : PeerEvent) (c : Conn) : Job St Close Conn :=
  match e with
  | EvStop => do! s := jcall shared_get in jthrow (stop_reason (lf_stop (wr_life (sh_wire s))))
  | EvInvalidated => jthrow INVALID_SESSION
  | EvPongDue => if c.(cn_pong_due) then jthrow (mkClose 1001 "pong-timeout") else jret c
  | EvIncoming now i => on_incoming ctx now i c
  | EvCompleted i =>
      do! completion := jcall (complete i) in
      (match completion with
       | Some completion =>
           do! l := finish other completion in
           send_replies l;;;
           do! l := reads_closed other in
           send_replies l
       | None => jret tt
       end);;;
      jret c
  | EvDeadline =>
      do! l := write_tick other in
      jfor_each l (λ v, send_replies [v]);;;
      jret c
  | EvChanged =>
      jshared (update (on_wire (set_changed false)));;;
      do! l := reads_closed other in
      jfor_each l (λ v, send_replies [v]);;;
      jret c
  | EvPing =>
      if c.(cn_pong_due) then jret c
      else jcall (on_outbound (outbound_send (MPing PING_PAYLOAD)));;; jret (mkConn true c.(cn_messages))
  end.
(** One turn of the loop of [drive] *)
Definition turn (ctx : AuthContext) (e : PeerEvent) (c : Conn) : Job St Close Conn :=
  jcall check_life;;;
  do! answered := jcall cancelled_writes in
  send_replies answered;;;
  do! closed := pump_writes other in
  jfor_each closed (λ v, send_replies [v]);;;
  on_event ctx e c.
(** What precedes the loop: the acknowledgement of the authentication. *)
Definition opening (now : Z) : Job St Close Conn :=
  jcall (on_outbound (outbound_event "session.ready" (VObject [("protocolVersion", VNumber 1)])));;;
  jret (mkConn false [now]).
(** What follows the loop: the answers that are sent before the close frame. *)
Definition ending (reason : string) : Job St unit (list Value) :=
  do! dropped := cancel_writes other reason in
  reads_drop other;;;
  jret dropped.

(** ** The system *)

Inductive Task :=
| Resting (c : Conn)
| Turning (t : Thread St (outcome Close Conn))
| Ending (t : Thread St (outcome unit (list Value)))
| Ended (dropped : list Value).
Record Sys := mkSys {
  sy_state : St;
  sy_task : Task;
  sy_calls : gmap Z (string * bool * Thread St (outcome string Output));
}.

(** The end of a call: its permits go back, then its result is sent; if nobody is
    there to receive it, it is dropped. *)
Definition is_call (device : string) (write : bool) (t : Jobs.Task) : bool :=
  match t with
  | Jobs.Call d b => bool_decide (d = device) && Bool.eqb b write
  | _ => false
  end.
Definition call_task (device : string) (write : bool) (j : Jobs) : Jobs :=
  match list_find (λ t, is_call device write t = true) j.(jb_tasks) with
  | Some (i, _) => call_done device write (at_task i Finished j)
  | None => j
  end.
Definition awaited_by (n : Z) (r : Reads) : bool :=
  existsb (λ a, match a.(aw_source) with FromJob m => m =? n | FromPush _ => false end) r.(rd_completed).
Definition call_end (n : Z) (device : string) (write : bool) (r : outcome string Output) : M St unit unit :=
  in_shared (update (on_jobs (call_task device write)));;
  let! reads := reads_get in
  if awaited_by n reads then in_shared (update (λ s, set_jobs (alter (set_phase (JobDone r)) n s.(sh_jobs)) s))
  else
    in_shared (update (λ s, set_jobs (delete n s.(sh_jobs)) s);;
      match r with Ok out => drop_output out | _ => ret tt end).

(** What the rest of the gateway may do: all but to this peer's own state; a life
    only ends, the clock and the log only grow. *)
Definition life_le (l l' : Life) : Prop :=
  (l'.(lf_alive) = l.(lf_alive)) ∧ (l.(lf_invalidated) → l'.(lf_invalidated))
  ∧ (l.(lf_stop) ≠ 0 → l'.(lf_stop) = l.(lf_stop)).
Definition rest_step (t t' : St) : Prop :=
  let '((r, s), w) := t in let '((r', s'), w') := t' in
  r' = r ∧ ∃ g l, life_le (wr_life (sh_wire s)) l
    ∧ s' = set_gate g (on_wire (Wire.set_life l) s)
    ∧ world_time w <= world_time w' ∧ world_log w `prefix_of` world_log w'.
(** A callback of the host, and a turn of the writer *)
Inductive side_call : M (Wire * W) Close unit → Prop :=
| side_terminal id e : side_call (let! _ := attempt (sink_terminal id e) in ret tt)
| side_event id session e : side_call (let! _ := attempt (sink_event id session e) in ret tt)
| side_take : side_call (let! _ := writer_take in ret tt)
| side_done : side_call writer_done.

Inductive sys_step (ctx : AuthContext) : Sys → Sys → Prop :=
| sys_turn s c e calls :
    sys_step ctx (mkSys s (Resting c) calls) (mkSys s (Turning (turn ctx e c)) calls)
| sys_task s B (m : St → B * St) k calls :
    sys_step ctx (mkSys s (Turning (Atom m k)) calls) (mkSys (m s).2 (Turning (k (m s).1)) calls)
| sys_rest s c calls :
    sys_step ctx (mkSys s (Turning (Done (Ok c))) calls) (mkSys s (Resting c) calls)
| sys_close s close calls :
    sys_step ctx (mkSys s (Turning (Done (Err close))) calls) (mkSys s (Ending (ending close.(close_reason))) calls)
| sys_panic s calls :
    sys_step ctx (mkSys s (Turning (Done Panic)) calls)
      (mkSys s (Ending (reads_drop other;;; jret [])) calls)
| sys_ending s B (m : St → B * St) k calls :
    sys_step ctx (mkSys s (Ending (Atom m k)) calls) (mkSys (m s).2 (Ending (k (m s).1)) calls)
| sys_ended s l calls :
    sys_step ctx (mkSys s (Ending (Done (Ok l))) calls) (mkSys s (Ended l) calls)
| sys_start r s w task calls n device write c :
    sh_jobs s !! n = Some (mkJobCell device write (JobSubmitted c)) →
    sys_step ctx (mkSys ((r, s), w) task calls)
      (mkSys ((r, set_jobs (<[n := mkJobCell device write JobRunning]> s.(sh_jobs)) s), w) task
         (<[n := (device, write, job_of allowlist rfc3339 json_from_str other c)]> calls))
| sys_call s task calls n device write B (m : St → B * St) k :
    calls !! n = Some (device, write, Atom m k) →
    sys_step ctx (mkSys s task calls) (mkSys (m s).2 task (<[n := (device, write, k (m s).1)]> calls))
| sys_call_end s task calls n device write r :
    calls !! n = Some (device, write, Done r) →
    sys_step ctx (mkSys s task calls) (mkSys (call_end n device write r s).2 task (delete n calls))
| sys_side s task calls m :
    side_call m → sys_step ctx (mkSys s task calls) (mkSys (in_shared (in_wire m) s).2 task calls)
| sys_other s s' task calls :
    rest_step s s' → sys_step ctx (mkSys s task calls) (mkSys s' task calls).

(** A peer starts with its [Reads] and its wire, on any gateway. *)
Definition peer_start (peer_id : Z) (rejections : nat) (invalidated : bool) (stop now : Z) (g : Gate P) (w : W) : Sys :=
  mkSys ((reads_new peer_id rejections,
          mkShared g (wire_new invalidated stop) ∅ ∅ ∅ []), w) (Turning (opening now)) ∅.
Inductive sys_reachable (ctx : AuthContext) : Sys → Prop :=
| sys_init peer_id rejections invalidated stop now g w :
    sys_reachable ctx (peer_start peer_id rejections invalidated stop now g w)
| sys_next s s' : sys_reachable ctx s → sys_step ctx s s' → sys_reachable ctx s'.
End Peer.
