(* ===== verification/Still.v ===== *)
(** * Steps that leave a peer's writes alone

    Most of what the peer's task and its calls do touches neither the cells of the
    works, nor the jobs, nor the trace, nor the queue: [still].  The hints of
    [stepping] find it from the syntax of a handler. *)

From stdpp Require Import base gmap strings list relations.
From Stdlib Require Import ZArith Lia.
From S2P Require Import Prelude Steps Rust Externals Clock Devices Admin Events World.
From S2P Require Import Pairing Webauthn Session Authorize Gateway WriteAudit Jobs Herdr Push GitBridge Control.
From S2P Require Import Http Wire Rpc Threads Growing Streams Calls WriteBridge ReadBridge.

Local Open Scope Z_scope.

Section Core.
Context `{World W, !WorldLaws W} {S X : Type} (core : S → X).

(** [core] stays and the world grows. *)
Definition keeps_core (t t' : S * W) : Prop := core t'.1 = core t.1 ∧ wle t.2 t'.2.
Lemma rtc_keeps_core t t' : rtc keeps_core t t' → keeps_core t t'.
Proof.
  intros Hr. induction Hr as [t|a b c [Hab ?] _ [Hbc ?]]; [done|]. split; [by rewrite Hbc|by etrans].
Qed.
Lemma along_keeps_core {E A} (m : M (S * W) E A) t : along keeps_core m → keeps_core t (m t).2.
Proof. intros Hm. apply rtc_keeps_core, Hm. Qed.
Lemma keeps_intro {E A} (m : M (S * W) E A) : (∀ t, keeps_core t (m t).2) → along keeps_core m.
Proof. apply along_once. Qed.

(** What only uses the world keeps any core. *)
Lemma keeps_world {E A} (m : M (S * W) E A) : (∀ t, (m t).2.1 = t.1) → along wgrow m → along keeps_core m.
Proof.
  intros Hs Hm. apply keeps_intro. intros t. split; [by rewrite Hs|]. by apply along_wgrow.
Qed.
Lemma lift_state {E A} (f : W → A * W) t : ((lift f : M (S * W) E A) t).2.1 = t.1.
Proof. destruct t as [s w]. unfold lift. by destruct (f w). Qed.
Lemma keeps_clock {E} : along keeps_core (clock_read : M (S * W) E Timestamp).
Proof. apply keeps_world; [apply lift_state|along_auto]. Qed.
Lemma keeps_emit {E} e : along keeps_core (try_emit e : M (S * W) E bool).
Proof. apply keeps_world; [apply lift_state|along_auto]. Qed.
Lemma keeps_reserve {E} p : along keeps_core (try_reserve p : M (S * W) E bool).
Proof. apply keeps_world; [apply lift_state|along_auto]. Qed.
Lemma keeps_emit_reserved {E} p e : along keeps_core (emit_reserved p e : M (S * W) E unit).
Proof. apply keeps_world; [apply lift_state|along_auto]. Qed.
Lemma keeps_drop_reserved {E} p : along keeps_core (drop_reserved p : M (S * W) E unit).
Proof. apply keeps_world; [apply lift_state|along_auto]. Qed.
Lemma keeps_iterate {E} `{Countable K} {A} (m : gmap K A) : along keeps_core (iterate m : M (S * W) E _).
Proof. apply keeps_world; [apply lift_state|along_auto]. Qed.
Lemma keeps_available {E} : along keeps_core (events_available : M (S * W) E bool).
Proof. apply along_gets. Qed.
Lemma keeps_get {E} : along keeps_core (get : M (S * W) E S).
Proof. apply along_gets. Qed.
Lemma keeps_update {E} f : (∀ s, core (f s) = core s) → along keeps_core (update f : M (S * W) E unit).
Proof. intros Hf. apply keeps_intro. intros [s w]. split; [apply Hf|by apply reflexivity]. Qed.
Lemma keeps_event {E} u action summary : along keeps_core (audit_event u action summary : M (S * W) E Event).
Proof. unfold audit_event. pose proof @keeps_clock. along_auto. Qed.

Lemma keeps_zoom {T E A} (get' : S * W → T * W) put (m : M (T * W) E A) :
  (∀ t, (get' t).2 = t.2) → (∀ p t, (put p t).2 = p.2) → (∀ p t, core (put p t).1 = core t.1) →
  along wgrow m → along keeps_core (zoom get' put m).
Proof.
  intros Hg Hw Hc Hm. apply keeps_intro. intros t. pose proof (along_wgrow m (get' t) Hm) as Ht.
  unfold zoom, wgrow in *. rewrite Hg in Ht. destruct (m (get' t)) as [r p]. simpl in *.
  split; [apply Hc|by rewrite Hw].
Qed.
Lemma keeps_zoom_state {T E A} (get' : S * W → T) put (m : M T E A) :
  (∀ p t, (put p t).2 = t.2) → (∀ p t, core (put p t).1 = core t.1) → along keeps_core (zoom get' put m).
Proof.
  intros Hw Hc. apply keeps_intro. intros t. unfold zoom. destruct (m (get' t)) as [r p]. simpl.
  split; [apply Hc|by rewrite Hw].
Qed.
End Core.
#[export] Hint Resolve keeps_clock keeps_emit keeps_reserve keeps_emit_reserved keeps_drop_reserved keeps_iterate
  keeps_available keeps_get keeps_event : stepping.

Section Still.
Context `{Base64, Json, Crypto, Http, Tokio, Budgets, !Webauthn Transport, World W, !WorldLaws W}.
Context `{HerdrHost P, !GitHost P}.
Abbreviation St := ((Reads * Shared P) * W)%type.

Definition shared_core (s : Shared P) := (s.(sh_works), s.(sh_jobs), s.(sh_trace)).
Definition reads_core (r : Reads) :=
  (r.(rd_writes).(qu_channel), r.(rd_writes).(qu_active), r.(rd_completed), r.(rd_next_number)).
Definition peer_core (x : Reads * Shared P) := (reads_core x.1, shared_core x.2).

Definition sstill : Shared P * W → Shared P * W → Prop := keeps_core shared_core.
Definition still : St → St → Prop := keeps_core peer_core.

(** ** On what is shared *)

Lemma sstill_whole {E A} (m : M (Whole * W) E A) : along wgrow m → along sstill (in_whole (P := P) m).
Proof. apply keeps_zoom; solve [by intros [] | by intros [] [] | by intros [] [[] ?]]. Qed.
Lemma sstill_audits {E A} (m : M (Audits * W) E A) : along wgrow m → along sstill (in_audits (P := P) m).
Proof. intros Hm. apply sstill_whole. apply wgrow_zoom; [zoomed..|done]. Qed.
Lemma sstill_port {E A} (m : M P E A) : along sstill (in_port (W := W) m).
Proof. apply keeps_zoom_state; solve [by intros ? [] | by intros ? [[] ?]]. Qed.
Lemma sstill_wire {E A} (m : M (Wire * W) E A) : along wgrow m → along sstill (in_wire (P := P) m).
Proof. apply keeps_zoom; solve [by intros [] | by intros [] [] | by intros [] [[] ?]]. Qed.
Lemma sstill_git {A} space (m : M ((Cursors * (option string * P)) * W) string A) :
  along wgrow m → along sstill (in_git space m).
Proof. apply keeps_zoom; solve [by intros [] | by intros [[? []] ?] [] | by intros [[? []] ?] [[] ?]]. Qed.
Lemma sstill_update {E} f : (∀ s, shared_core (f s) = shared_core s) → along sstill (update f : M (Shared P * W) E unit).
Proof. apply keeps_update. Qed.

(** ** On the whole state *)
Lemma still_shared {E A} (m : M (Shared P * W) E A) : along sstill m → along still (in_shared m).
Proof.
  intros Hm. apply keeps_intro. intros [[r s] w]. pose proof (along_keeps_core shared_core m (s, w) Hm) as [Hc Hw].
  unfold in_shared, zoom. destruct (m (s, w)) as [a [s' w']]. simpl in *. split; [|done].
  unfold peer_core. simpl. by rewrite Hc.
Qed.
Lemma still_reads {E} f : (∀ r, reads_core (f r) = reads_core r) → along still (on_reads f : M St E unit).
Proof.
  intros Hf. apply keeps_intro. intros [[r s] w]. unfold on_reads, modify. simpl.
  split; [unfold peer_core; simpl; by rewrite Hf|by apply reflexivity].
Qed.
Lemma still_reads_get {E} : along still (reads_get : M St E Reads).
Proof. apply along_gets. Qed.
Lemma still_shared_get {E} : along still (shared_get : M St E (Shared P)).
Proof. apply along_gets. Qed.
Lemma still_streams {E} f : along still (on_streams f : M St E unit).
Proof. by apply still_reads. Qed.
Lemma still_queue {E} f : (∀ q, qu_channel (f q) = qu_channel q ∧ qu_active (f q) = qu_active q) →
  along still (on_queue f : M St E unit).
Proof. intros Hf. apply still_reads. intros r. unfold reads_core. simpl. by destruct (Hf (rd_writes r)) as [-> ->]. Qed.
End Still.
Arguments peer_core {_ _ _ P}.
#[export] Hint Resolve sstill_whole sstill_audits sstill_port sstill_wire sstill_git
  still_shared still_reads_get still_shared_get still_streams : stepping.
#[export] Hint Extern 2 (along sstill (update _)) => (apply sstill_update; intros ?; reflexivity) : stepping.
#[export] Hint Extern 2 (along still (on_reads _)) => (apply still_reads; intros ?; reflexivity) : stepping.
#[export] Hint Extern 2 (along still (on_queue _)) => (apply still_queue; intros ?; done) : stepping.
#[export] Hint Extern 4 (along sstill _) => progress (unfold sstill) : stepping.
#[export] Hint Extern 4 (along still _) => progress (unfold still) : stepping.
