(* ===== verification/PeerRely.v ===== *)
(** * What each thread of a peer guarantees to the others

    [gstep o] bounds a step of owner [o]: the cells of the works only go up, one
    entry at most is added to the trace, and an entry is added only under the
    conditions of [entry_ok].  [history] is what follows for the trace, whoever
    takes the steps. *)

From stdpp Require Import base gmap strings list relations.
From Stdlib Require Import ZArith Lia Sorted.
From S2P Require Import Prelude Steps Rust Externals Clock Devices Admin Events World.
From S2P Require Import Pairing Webauthn Session Authorize Gateway WriteAudit Jobs Herdr Push GitBridge Control.
From S2P Require Import Http Wire Rpc Threads Growing Streams Calls WriteBridge ReadBridge Still Peer.

Local Open Scope Z_scope.

(** ** Reading the trace *)
Definition calls_of (l : list Trace) : list Z :=
  omap (λ e, match e with Called n _ => Some n | _ => None end) l.
Definition admissions (l : list Trace) : list Work :=
  omap (λ e, match e with Entered k => Some k | _ => None end) l.

Lemma elem_calls n l : n ∈ calls_of l ↔ ∃ c, Called n c ∈ l.
Proof.
  unfold calls_of. rewrite list_elem_of_omap. split.
  - intros (e & He & Hn). destruct e; simplify_eq. by eexists.
  - intros [c Hc]. by exists (Called n c).
Qed.
Lemma elem_admissions k l : k ∈ admissions l ↔ Entered k ∈ l.
Proof.
  unfold admissions. rewrite list_elem_of_omap. split.
  - intros (e & He & Hn). by destruct e; simplify_eq.
  - intros Hk. by exists (Entered k).
Qed.
Lemma calls_app l l' : calls_of (l ++ l') = calls_of l ++ calls_of l'.
Proof. apply omap_app. Qed.
Lemma admissions_app l l' : admissions (l ++ l') = admissions l ++ admissions l'.
Proof. apply omap_app. Qed.

(** ** What a call of the host may be *)

(** The calls that a work stands for: its session and its text, keys, bytes or size
    are the admitted ones; a pane is the one that the snapshot names for its target
    that the host gave the work; [pre] is the trace so far. *)
Definition granted (k : Work) (c : HostCall) (pre : list Trace) : Prop :=
  match k.(wk_run), c with
  | RunAgent _ session target (inl text), HostPrompt s t x =>
      s = session ∧ x = text ∧ ∃ raw, Looked (wk_number k) session raw ∈ pre ∧ agent_target raw target = inr t
  | RunAgent _ session target (inr keys), HostKeys s t l =>
      s = session ∧ l = keys ∧ ∃ raw, Looked (wk_number k) session raw ∈ pre ∧ agent_target raw target = inr t
  | RunTerminal _ resource _ op, c => c = op_call resource op
  | RunOpen _ session (Some target) _ takeover _ _ _, HostControl s t size b =>
      s = session ∧ b = takeover
      ∧ ∃ raw, Looked (wk_number k) session raw ∈ pre ∧ observe_geometry raw target = inr (t, size.1, size.2)
  | RunOpen _ session None (Some size) _ _ _ _, HostFull s z => s = session ∧ z = size
  | _, _ => False
  end.
Definition session_of (r : Run) : option string :=
  match r with
  | RunAgent _ session _ _ | RunOpen _ session _ _ _ _ _ _ => Some session
  | RunTerminal _ _ _ _ => None
  end.
Definition target_of (c : HostCall) : option string :=
  match c with HostControl _ target _ _ => Some target | _ => None end.
(** The event in the log that accounts for a call; an input may instead be counted
    in the bucket of its stream. *)
Definition event_of (k : Work) (action : string) (target : option string) (summary : Value) (at_ : Timestamp) : Event :=
  let u := k.(wk_audit) in
  audit u.(au_device) u.(au_peer_id) u.(au_scope) action u.(au_session) target summary at_.
Definition audited (k : Work) (c : HostCall) (pre : list Trace) (log : list Event) : Prop :=
  match k.(wk_run) with
  | RunAgent action _ _ message => ∃ at_, event_of k action (au_target (wk_audit k)) (agent_summary message) at_ ∈ log
  | RunTerminal action _ stream (OpInput bytes) =>
      Counted (wk_number k) stream (len bytes) ∈ pre
      ∨ ∃ at_, event_of k action (au_target (wk_audit k)) (VObject [("bytes", VNumber (len bytes))]) at_ ∈ log
  | RunTerminal action _ _ _ =>
      ∃ at_, event_of k action (au_target (wk_audit k)) (VObject [("accepted", VBool true)]) at_ ∈ log
  | RunOpen action _ _ _ takeover _ _ _ =>
      ∃ at_, event_of k action (target_of c)
               (VObject [("takeover", VBool takeover); ("resizeConfirmed", VBool true)]) at_ ∈ log
  end.

Lemma granted_mono k c pre pre' : (∀ e, e ∈ pre → e ∈ pre') → granted k c pre → granted k c pre'.
Proof.
  intros Hsub. unfold granted. destruct (wk_run k) as [? ? ? [?|?]|? ? ? ?|? ? [?|] [?|] ? ? ? ?], c; try done;
    intros (? & ? & raw & Hraw & ?); split_and!; eauto.
Qed.
Lemma audited_mono k c pre pre' log log' : (∀ e, e ∈ pre → e ∈ pre') → log `prefix_of` log' →
  audited k c pre log → audited k c pre' log'.
Proof.
  intros Hsub [l ->]. unfold audited.
  destruct (wk_run k) as [? ? ? ?|? ? ? []|]; [| |intros [? Hin]; eexists; apply elem_of_app; eauto..].
  - intros [? Hin]; eexists; apply elem_of_app; eauto.
  - intros [?|[? Hin]]; [left; auto|right; eexists; apply elem_of_app; eauto].
Qed.

(** Who takes a step *)
Inductive Owner := OfTask | OfCall (n : Z) | OfExecutor (n : Z) | OfRest.
#[global] Instance owner_eq_dec : EqDecision Owner.
Proof. solve_decision. Defined.

Section Rely.
Context `{Base64, Json, Crypto, Http, Tokio, Budgets, !Webauthn Transport, World W, !WorldLaws W}.
Context `{HerdrHost P, !GitHost P}.
Context (allowlist : gset string).
Abbreviation St := ((Reads * Shared P) * W)%type.

Definition trace_of (t : St) : list Trace := sh_trace t.1.2.
Definition jobs_of (t : St) : gmap Z JobCell := sh_jobs t.1.2.
Definition reads_of (t : St) : Reads := t.1.1.
Definition log_of (t : St) : list Event := world_log t.2.
Definition port_of (t : St) : P := gt_port (sh_gate t.1.2).
Definition bucket_of (stream : Z) (t : St) : option Bucket := oc_bucket (open_cell stream t.1.2).
Definition life_of (t : St) : Life := wr_life (sh_wire t.1.2).
Definition is_started (n : Z) (t : St) : bool := wc_started (work_cell n t.1.2).
Definition is_cancelled (n : Z) (t : St) : bool := wc_cancelled (work_cell n t.1.2).
Definition write_cell (n : Z) (t : St) : Prop := ∃ c, jobs_of t !! n = Some c ∧ c.(jc_write) = true.

(** What holds of the work when the host is called for it: [pre] is the trace so far. *)
Definition call_allowed (n : Z) (c : HostCall) (pre : list Trace) (log : list Event) : Prop :=
  ∃ k at_, Entered k ∈ pre ∧ wk_number k = n ∧ Passed n at_ ∈ pre ∧ at_ < wk_until k
    ∧ granted k c pre ∧ (∀ s, session_of (wk_run k) = Some s → s ∈ allowlist) ∧ audited k c pre log.


(** When an owner adds an entry, and what it says of the step that does. *)
Definition entry_ok (o : Owner) (t t' : St) (e : Trace) : Prop :=
  match e with
  | Entered k => o = OfTask ∧ (∀ k', Entered k' ∈ trace_of t → wk_number k' < wk_number k)
  | Passed n _ => o = OfCall n ∧ is_cancelled n t = false ∧ life_active (life_of t) = true
  | Looked n session raw => o = OfCall n ∧ (port_snapshot session (port_of t)).1 = Ok raw
  | Counted n stream bytes =>
      o = OfCall n ∧ ∃ b, bucket_of stream t' = Some b ∧ bk_bytes b = from_option bk_bytes 0 (bucket_of stream t) + bytes
  | Called n c =>
      o = OfCall n ∧ write_cell n t ∧ is_started n t = true ∧ (Cancelled n false ∉ trace_of t)
      ∧ (∀ m, m ∈ calls_of (trace_of t) → m < n) ∧ call_allowed n c (trace_of t) (log_of t)
  | Cancelled n u => o = OfTask ∧ is_cancelled n t = true ∧ u = is_started n t
  end.

(** A submission of the task: of a write, when no other is with the executor. *)
Definition submitted_ok (t : St) (n : Z) (write : bool) (c : Submission) : Prop :=
  match c with
  | SubmitRead _ _ => write = false
  | SubmitWrite k _ =>
      write = true ∧ wk_number k = n ∧ Entered k ∈ trace_of t
      ∧ (∀ m, m ∈ calls_of (trace_of t) → m < n) ∧ (∀ m, ¬ write_cell m t)
  end.
Definition jobs_step (o : Owner) (t t' : St) : Prop :=
  match o with
  | OfCall _ | OfRest => jobs_of t' = jobs_of t
  | OfTask =>
      jobs_of t' = jobs_of t
      ∨ (∃ n d w c, jobs_of t !! n = None ∧ submitted_ok t n w c
          ∧ jobs_of t' = <[n := mkJobCell d w (JobSubmitted c)]> (jobs_of t))
      ∨ (∃ n c r, jobs_of t !! n = Some c ∧ jc_phase c = JobDone r ∧ jobs_of t' = delete n (jobs_of t))
  | OfExecutor n =>
      ∃ c, jobs_of t !! n = Some c ∧
        ((∃ s, jc_phase c = JobSubmitted s ∧ jobs_of t' = <[n := set_phase JobRunning c]> (jobs_of t))
         ∨ (jc_phase c = JobRunning ∧
             ((∃ r, jobs_of t' = <[n := set_phase (JobDone r) c]> (jobs_of t))
              ∨ (awaited_by n (reads_of t) = false ∧ jobs_of t' = delete n (jobs_of t)))))
  end.

Record gstep (o : Owner) (t t' : St) : Prop := mkGstep {
  g_started n : is_started n t = true → is_started n t' = true;
  g_cancelled n : is_cancelled n t = true → is_cancelled n t' = true;
  g_trace : trace_of t' = trace_of t ∨ ∃ e, trace_of t' = trace_of t ++ [e] ∧ entry_ok o t t' e;
  g_jobs : jobs_step o t t';
  g_reads : o ≠ OfTask → reads_of t' = reads_of t;
  g_world : wgrow t t';
}.

(** ** History *)

Record history (t : St) : Prop := mkHistory {
  h_cancelled n u : Cancelled n u ∈ trace_of t → is_cancelled n t = true;
  h_called n : n ∈ calls_of (trace_of t) → is_started n t = true ∧ (Cancelled n false ∉ trace_of t);
  h_calls : StronglySorted Z.lt (calls_of (trace_of t));
  h_admissions : StronglySorted Z.lt (wk_number <$> admissions (trace_of t));
  h_allowed pre n c post : trace_of t = pre ++ Called n c :: post → call_allowed n c pre (log_of t);
}.

Lemma call_allowed_log n c pre log log' : log `prefix_of` log' → call_allowed n c pre log → call_allowed n c pre log'.
Proof.
  intros Hl (k & at_ & Hk & Hn & Hp & Hlt & Hg & Ha & Hau). exists k, at_. split_and!; try done.
  by eapply audited_mono.
Qed.
(** A split of a list with one more entry is at that entry or in the list. *)
Lemma snoc_split {A} (l : list A) x pre y post :
  l ++ [x] = pre ++ y :: post → (post = [] ∧ l = pre ∧ x = y) ∨ ∃ post', post = post' ++ [x] ∧ l = pre ++ y :: post'.
Proof.
  destruct post as [|z post _] using rev_ind; intros He.
  - left. apply app_inj_tail in He as [-> ->]. done.
  - right. exists post. rewrite app_comm_cons, app_assoc in He. apply app_inj_tail in He as [-> ->].
    done.
Qed.
Lemma sorted_snoc (l : list Z) n : StronglySorted Z.lt l → (∀ m, m ∈ l → m < n) → StronglySorted Z.lt (l ++ [n]).
Proof.
  induction l as [|x l IH]; intros Hs Hn; simpl; [repeat constructor|].
  apply StronglySorted_inv in Hs as [Hs Hx]. constructor.
  - apply IH; [done|]. intros m Hm. apply Hn. by right.
  - apply Forall_app. split; [done|]. constructor; [|done]. apply Hn. by left.
Qed.

Lemma history_step o t t' : history t → gstep o t t' → history t'.
Proof.
  intros Hh Hg. destruct (g_trace _ _ _ Hg) as [Ht|(e & Ht & He)].
  - constructor; rewrite Ht.
    + intros n u Hn. by eapply (g_cancelled _ _ _ Hg), (h_cancelled _ Hh).
    + intros n Hn. destruct (h_called _ Hh n Hn) as [? ?]. split; [|done]. by apply (g_started _ _ _ Hg).
    + apply (h_calls _ Hh).
    + apply (h_admissions _ Hh).
    + intros pre n c post Hp. eapply call_allowed_log; [apply (g_world _ _ _ Hg)|]. by eapply (h_allowed _ Hh).
  - constructor; rewrite Ht.
    + intros n u [Hn|<-%list_elem_of_singleton]%elem_of_app.
      * by eapply (g_cancelled _ _ _ Hg), (h_cancelled _ Hh).
      * destruct He as (_ & Hc & _). by apply (g_cancelled _ _ _ Hg).
    + intros n Hn. rewrite calls_app in Hn. apply elem_of_app in Hn as [Hn|Hn].
      * destruct (h_called _ Hh n Hn) as [Hs Hc]. split; [by apply (g_started _ _ _ Hg)|].
        rewrite elem_of_app, list_elem_of_singleton. intros [?|<-]; [done|].
        destruct He as (_ & _ & Hf). congruence.
      * destruct e; try by apply not_elem_of_nil in Hn. apply list_elem_of_singleton in Hn as ->.
        destruct He as (_ & _ & Hs & Hc & _). split; [by apply (g_started _ _ _ Hg)|].
        rewrite elem_of_app, list_elem_of_singleton. by intros [?|?].
    + rewrite calls_app. destruct e; simpl; rewrite ?app_nil_r; try apply (h_calls _ Hh).
      apply sorted_snoc; [apply (h_calls _ Hh)|]. by apply He.
    + rewrite admissions_app. destruct e; simpl; rewrite ?app_nil_r; try apply (h_admissions _ Hh).
      rewrite fmap_app. apply sorted_snoc; [apply (h_admissions _ Hh)|].
      intros m (k & -> & Hk%elem_admissions)%list_elem_of_fmap. by apply He.
    + intros pre n c post Hp. eapply call_allowed_log; [apply (g_world _ _ _ Hg)|].
      apply snoc_split in Hp as [(-> & <- & ->)|(post' & -> & Hp)]; [by apply He|].
      by eapply (h_allowed _ Hh).
Qed.

Lemma gstep_still o t t' : still t t' → (o ≠ OfTask → reads_of t' = reads_of t) →
  match o with OfExecutor _ => False | _ => True end → gstep o t t'.
Proof.
  destruct t as [[r s] w], t' as [[r' s'] w']. intros [Hc Hw] Hr Ho. unfold peer_core, shared_core in Hc. simpl in *.
  simplify_eq. constructor; unfold is_started, is_cancelled, work_cell, trace_of, jobs_of; simpl; auto; try congruence.
  unfold jobs_step, jobs_of. simpl. destruct o; try done; auto.
Qed.
End Rely.
Arguments trace_of {_ _ _ _ _} t : simpl never.
Arguments jobs_of {_ _ _ _ _} t : simpl never.
Arguments reads_of {_ _ _ _ _} t : simpl never.
Arguments log_of {_ _ _ _ _ _} t : simpl never.
