(* ===== verification/CallsSafe.v ===== *)
(** * A call of the host keeps the guarantee of its thread

    From admission to the host: every step of [write_job] is a [gstep] of its own
    number, whatever the others do between two steps. *)
From stdpp Require Import base gmap strings list relations.
From Stdlib Require Import ZArith Lia Sorted.
From S2P Require Import Prelude Steps Rust Externals Clock Devices Admin Events World Pairing.
From S2P Require Import Webauthn Session Authorize Gateway WriteAudit Jobs Herdr HerdrFacts Push.
From S2P Require Import GitBridge Control Http Wire Rpc Threads Growing Streams Calls WriteBridge.
From S2P Require Import ReadBridge Peer Still PeerRely.
Local Open Scope Z_scope.

Section Facts.
Context `{Base64, Json, Crypto, Http, Tokio, Budgets, !Webauthn Transport, World W, !WorldLaws W}.
Context `{HerdrHost P, !GitHost P}.
Context (allowlist : gset string).
Abbreviation St := ((Reads * Shared P) * W)%type.
Implicit Types t : St.
Abbreviation step := (gstep (P := P) (W := W) allowlist).

(** What the others do, seen from the call [n] *)
Definition relies (n : Z) (t t' : St) : Prop :=
  ∃ o, o ≠ OfCall n ∧ o ≠ OfExecutor n ∧ step o t t'.
Definition guarantees (n : Z) : St → St → Prop := step (OfCall n).
Definition stable (n : Z) (I : St → Prop) : Prop := ∀ t t', I t → relies n t t' → I t'.
Abbreviation safely n := (safe (relies n) (guarantees n)).

Lemma stable_and n I J : stable n I → stable n J → stable n (λ t, I t ∧ J t).
Proof. intros HI HJ t t' [??] Hr. split; eauto. Qed.

(** ** Quiet steps *)
Definition quiet_step (t t' : St) : Prop := still t t' ∧ reads_of t' = reads_of t.
Lemma quiet_shared {E A} (m : M (Shared P * W) E A) t : along sstill m → quiet_step t (in_shared m t).2.
Proof.
  intros Hm. split; [by apply along_keeps_core, still_shared|].
  destruct t as [[r s] w]. unfold in_shared, zoom. by destruct (m (s, w)) as [? []].
Qed.
Lemma quiet_relies n t t' : quiet_step t t' → relies n t t'.
Proof. intros [Hs Hr]. exists OfRest. split_and!; try done. by apply gstep_still. Qed.
Lemma quiet_guarantees n t t' : quiet_step t t' → guarantees n t t'.
Proof. intros [Hs Hr]. by apply gstep_still. Qed.

(** A postcondition that asks nothing of a failure. *)
Definition lax {A} (Q : outcome string A → St → Prop) : Prop := ∀ s, (∀ e, Q (Err e) s) ∧ Q Panic s.
Definition kept_by n {A} (Q : outcome string A → St → Prop) : Prop :=
  ∀ r s s', Q r s → rtc (relies n) s s' → Q r s'.
Definition then_ n {A B} (k : A → Job St string B) (Q : outcome string B → St → Prop)
    (r : outcome string A) (s : St) : Prop :=
  match r with Ok a => safely n (k a) Q s | _ => True end.
Lemma lax_then n {A B} (k : A → Job St string B) Q : lax (then_ n k Q).
Proof. by intros s. Qed.
Lemma kept_then n {A B} (k : A → Job St string B) Q : kept_by n (then_ n k Q).
Proof. intros [a|e|] s s'; simpl; [|done..]. apply safe_rely. Qed.
Lemma lax_true {A} : lax (A := A) (λ _ _, True).
Proof. done. Qed.
Lemma kept_true n {A} : kept_by n (A := A) (λ _ _, True).
Proof. done. Qed.

Lemma safe_bind n {A B} (m : Job St string A) (k : A → Job St string B) Q t :
  lax Q → safely n m (then_ n k Q) t → safely n (jbind m k) Q t.
Proof.
  intros HQ Hm. apply safe_tbind. eapply safe_mono; [exact Hm|]. intros [a|e|] s Hs; [done|intros s' _; apply HQ..].
Qed.
Lemma safe_guard n {A} drop (m : Job St string A) Q t :
  lax Q → kept_by n Q → (∀ t, quiet_step t (drop t)) → safely n m Q t → safely n (jguard drop m) Q t.
Proof.
  intros HQ HK Hd Hm. apply safe_tbind. eapply safe_mono; [exact Hm|].
  intros [a|e|] s Hs; simpl; intros s' Hr; [by eapply HK|split; [by apply quiet_guarantees|intros; apply HQ]..].
Qed.
Lemma safe_finally n {A} f (m : Job St string A) Q t :
  (∀ r s, Q r s) → (∀ t, quiet_step t (f t)) → safely n m Q t → safely n (jfinally f m) Q t.
Proof.
  intros HQ Hd Hm. apply safe_tbind. eapply safe_mono; [exact Hm|].
  intros r s Hs; simpl; intros s' Hr. split; [by apply quiet_guarantees|auto].
Qed.
Lemma safe_map_err n {A} (f : string → Job St string A) (m : Job St string A) Q t :
  lax Q → kept_by n Q → (∀ e s, safely n (f e) Q s) → safely n m Q t → safely n (jmap_err f m) Q t.
Proof.
  intros HQ HK Hf Hm. apply safe_tbind. eapply safe_mono; [exact Hm|].
  intros [a|e|] s Hs; simpl; [intros s' Hr; by eapply HK|apply Hf|intros; apply HQ].
Qed.
Lemma safe_ret n {A} (a : A) (Q : outcome string A → St → Prop) t :
  kept_by n Q → Q (Ok a) t → safely n (jret a) Q t.
Proof. intros HK HQ s' Hr. by eapply HK. Qed.

(** A quiet step that establishes [φ] where it succeeds. *)
Lemma safe_quiet n {A B} (I : St → Prop) (φ : A → St → Prop) (m : M (Shared P * W) string A)
    (k : A → Job St string B) Q t :
  lax Q → stable n I → along sstill m →
  (∀ t a, I t → (in_shared m t).1 = Ok a → φ a (in_shared m t).2) →
  I t → (∀ a t', I t' → φ a t' → safely n (k a) Q t') →
  safely n (jbind (jshared m) k) Q t.
Proof.
  intros HQ HI Hm Hφ Ht Hk. apply (safe_jcall _ _ I HI); [done|]. intros s Hs.
  pose proof (quiet_shared m s Hm) as Hq. split; [by apply quiet_guarantees|].
  destruct (in_shared m s).1 as [a|e|] eqn:Hr; [|intros ? _; apply HQ..].
  apply Hk; [by eapply HI, quiet_relies|by apply Hφ].
Qed.
Lemma safe_quiet_last n {A} (I : St → Prop) (m : M (Shared P * W) string A) (Q : outcome string A → St → Prop) t :
  (∀ r s, Q r s) → stable n I → along sstill m → I t → safely n (jshared m) Q t.
Proof.
  intros HQ HI Hm Ht s Hr. split; [by apply quiet_guarantees, quiet_shared|]. intros ? _. apply HQ.
Qed.

(** ** Quiet threads, from any state *)
Abbreviation calmly n := (steady (relies n) (guarantees n) (λ _, True)).
Lemma calm_shared n {A} (m : M (Shared P * W) string A) : along sstill m → calmly n (jshared m).
Proof. intros Hm. apply steady_jcall; [done|]. intros s _. by split; [apply quiet_guarantees, quiet_shared|]. Qed.
Lemma calm_safe n {A} (m : Job St string A) t : calmly n m → safely n m (λ _ _, True) t.
Proof. intros Hm. by apply Hm. Qed.
Lemma calm_guard n {A} drop (m : Job St string A) :
  (∀ t, quiet_step t (drop t)) → calmly n m → calmly n (jguard drop m).
Proof. intros Hd Hm. apply steady_jguard; [done..|]. intros s _. by split; [apply quiet_guarantees|]. Qed.
Lemma calm_finally n {A} f (m : Job St string A) :
  (∀ t, quiet_step t (f t)) → calmly n m → calmly n (jfinally f m).
Proof.
  intros Hd Hm. apply steady_tbind; [done|]. intros r. apply steady_atom; [done| |intros _; by apply steady_done].
  intros s _. by split; [apply quiet_guarantees|].
Qed.

(** ** A write between its start and its call *)

(** The work [k] runs: it was admitted, and no call was made for it or a later one. *)
Record running (k : Work) (t : St) : Prop := mkRunning {
  rn_history : history allowlist t;
  rn_cell : ∃ d, jobs_of t !! wk_number k = Some (mkJobCell d true JobRunning);
  rn_one m : write_cell m t → m = wk_number k;
  rn_admitted : Entered k ∈ trace_of t;
  rn_above m : m ∈ calls_of (trace_of t) → m < wk_number k;
}.
Definition armed (k : Work) (t : St) : Prop :=
  is_started (wk_number k) t = true ∧ (Cancelled (wk_number k) false ∉ trace_of t)
  ∧ ∃ at_, Passed (wk_number k) at_ ∈ trace_of t ∧ at_ < wk_until k.

Lemma trace_grows o t t' e : step o t t' → e ∈ trace_of t → e ∈ trace_of t'.
Proof. intros Hg He. destruct (g_trace _ _ _ _ Hg) as [->|(e' & -> & _)]; [done|]. apply elem_of_app. by left. Qed.

Lemma jobs_running o t t' n d w : step o t t' → o ≠ OfExecutor n →
  jobs_of t !! n = Some (mkJobCell d w JobRunning) → jobs_of t' !! n = Some (mkJobCell d w JobRunning).
Proof.
  intros Hg Ho Hn. pose proof (g_jobs _ _ _ _ Hg) as Hj. destruct o as [|m|m|]; simpl in Hj; try congruence.
  - destruct Hj as [->|[(m & d' & w' & c & Hm & _ & ->)|(m & c & r & Hm & Hp & ->)]]; [done| |].
    + rewrite lookup_insert_ne; [done|]. intros ->. congruence.
    + rewrite lookup_delete_ne; [done|]. intros ->. simplify_eq.
  - destruct Hj as (c & Hm & Hj). assert (m ≠ n) by congruence.
    destruct Hj as [(s & _ & ->)|(_ & [[r ->]|[_ ->]])]; by rewrite ?lookup_insert_ne, ?lookup_delete_ne.
Qed.
(** A new write cell is one that the task submits when there is none. *)
Lemma write_cell_back o t t' m : step o t t' → write_cell m t' →
  write_cell m t ∨ ∀ m', ¬ write_cell m' t.
Proof.
  intros Hg (c & Hc & Hw). pose proof (g_jobs _ _ _ _ Hg) as Hj. unfold write_cell.
  destruct o as [|n|n|]; simpl in Hj; [|left; rewrite Hj in Hc; eauto| |left; rewrite Hj in Hc; eauto].
  - destruct Hj as [Hj|[(n & d & w & s & Hn & Hs & Hj)|(n & c' & r & Hn & Hp & Hj)]]; rewrite Hj in Hc.
    + eauto.
    + destruct (decide (m = n)) as [->|Hne].
      * rewrite lookup_insert_eq in Hc. simplify_eq. simpl in Hw. subst w.
        destruct s as [|k h]; [done|]. right. by apply Hs.
      * rewrite lookup_insert_ne in Hc by done. eauto.
    + apply lookup_delete_Some in Hc as [_ Hc]. eauto.
  - destruct Hj as (c' & Hn & Hj). left. destruct (decide (m = n)) as [->|Hne].
    + destruct Hj as [(s & _ & Hj)|(_ & [[r Hj]|[_ Hj]])]; rewrite Hj in Hc;
        [rewrite lookup_insert_eq in Hc; simplify_eq; by exists c'..|].
      by rewrite lookup_delete_eq in Hc.
    + destruct Hj as [(s & _ & Hj)|(_ & [[r Hj]|[_ Hj]])]; rewrite Hj in Hc;
        rewrite ?lookup_insert_ne, ?lookup_delete_ne in Hc by done; eauto.
Qed.

Lemma running_cell k t : running k t → write_cell (wk_number k) t.
Proof. intros Hr. destruct (rn_cell _ _ Hr) as [d Hd]. eexists. by split. Qed.

Lemma stable_running k : stable (wk_number k) (running k).
Proof.
  intros t t' Hr (o & Ho & Hx & Hg). constructor.
  - eapply history_step; [apply Hr|done].
  - destruct (rn_cell _ _ Hr) as [d Hd]. exists d. by eapply jobs_running.
  - intros m Hm. destruct (write_cell_back _ _ _ _ Hg Hm) as [Hm'|Hn]; [by apply (rn_one _ _ Hr)|].
    destruct (Hn _ (running_cell _ _ Hr)).
  - eapply trace_grows; [done|apply Hr].
  - intros m Hm. destruct (g_trace _ _ _ _ Hg) as [Ht|(e & Ht & He)]; rewrite Ht in Hm.
    + by apply (rn_above _ _ Hr).
    + rewrite calls_app in Hm. apply elem_of_app in Hm as [Hm|Hm]; [by apply (rn_above _ _ Hr)|].
      destruct e; try by apply not_elem_of_nil in Hm. apply list_elem_of_singleton in Hm as ->.
      destruct He as (-> & Hw & _). by apply (rn_one _ _ Hr) in Hw as ->.
Qed.
Lemma stable_armed k : stable (wk_number k) (armed k).
Proof.
  intros t t' (Hs & Hc & at_ & Hp & Hu) (o & Ho & Hx & Hg). split_and!.
  - by apply (g_started _ _ _ _ Hg).
  - destruct (g_trace _ _ _ _ Hg) as [->|(e & -> & He)]; [done|].
    rewrite elem_of_app, list_elem_of_singleton. intros [?|<-]; [done|].
    destruct He as (_ & _ & He). unfold is_started in *. congruence.
  - exists at_. split; [by eapply trace_grows|done].
Qed.
(** What holds of the log, and what holds of no state. *)
Lemma stable_log n (X : list Event → Prop) :
  (∀ l l', l `prefix_of` l' → X l → X l') → stable n (λ t, X (log_of t)).
Proof. intros HX t t' Ht (o & _ & _ & Hg). eapply HX; [apply (g_world _ _ _ _ Hg)|done]. Qed.
Lemma stable_pure n (φ : Prop) : stable n (λ _, φ).
Proof. by intros t t' ?. Qed.
End Facts.

(** * [write_bridge.rs]: the closures of writes are safe

    Each kind of [run_work], and the closure around it, from the start of its thread. *)
Section Safe.
Context `{Base64, Json, Crypto, Http, Tokio, Budgets, !Webauthn Transport, World W, !WorldLaws W}.
Context `{HerdrHost P, !GitHost P}.
Context (allowlist : gset string).
Abbreviation St := ((Reads * Shared P) * W)%type.
Implicit Types t : St.
Abbreviation step := (gstep (P := P) (W := W) allowlist).
Abbreviation relies := (relies (P := P) (W := W) allowlist).
Abbreviation guarantees := (guarantees (P := P) (W := W) allowlist).
Abbreviation stable := (stable (P := P) (W := W) allowlist).
Abbreviation running := (running (P := P) (W := W) allowlist).
Abbreviation safely n := (safe (relies n) (guarantees n)).
Abbreviation calmly n := (steady (relies n) (guarantees n) (λ _, True)).
Abbreviation shared_m E A := (M (Shared P * W) E A).

(** ** Single steps *)

Lemma in_shared_run {E A} (m : shared_m E A) r s w :
  in_shared m ((r, s), w) = ((m (s, w)).1, ((r, (m (s, w)).2.1), (m (s, w)).2.2)).
Proof. unfold in_shared, zoom. by destruct (m (s, w)) as [a [s' w']]. Qed.

(** A step that only adds an entry to the trace. *)
Definition records (e : Trace) (t t' : St) : Prop :=
  reads_of t' = reads_of t ∧ sh_works t'.1.2 = sh_works t.1.2 ∧ jobs_of t' = jobs_of t
  ∧ trace_of t' = trace_of t ++ [e] ∧ wgrow t t'.
Lemma records_step n e t t' : records e t t' → entry_ok allowlist (OfCall n) t t' e → guarantees n t t'.
Proof.
  intros (Hr & Hk & Hj & Ht & Hw) He. constructor; try done;
    try (intros m; unfold is_started, is_cancelled, work_cell; by rewrite Hk).
  right. by exists e.
Qed.

(** The check passes when nothing has happened, and says so. *)
Lemma check_run v t :
  match (in_shared (validity_check v) t).1 with
  | Ok _ => ∃ at_, at_ < vd_until v ∧ is_cancelled (vd_work v) t = false ∧ life_active (life_of t) = true
              ∧ records (Passed (vd_work v) at_) t (in_shared (validity_check v) t).2
  | _ => quiet_step t (in_shared (validity_check v) t).2
  end.
Proof.
  destruct t as [[r s] w]. rewrite in_shared_run. cbn [fst snd].
  assert (wp (validity_check v) (λ a x, match a with
    | Ok _ => ∃ at_ s', at_ < vd_until v ∧ wc_cancelled (work_cell (vd_work v) s) = false
        ∧ life_active (wr_life (sh_wire s)) = true ∧ x.1 = trace (Passed (vd_work v) at_) s'
        ∧ shared_core s' = shared_core s ∧ wle w x.2
    | _ => sstill (s, w) x
    end) (s, w)) as Hwp.
  { unfold validity_check. apply wp_bind, wp_get. simpl.
    destruct (wc_cancelled _) eqn:Hc; simpl; [apply wp_throw; split; [done|by apply reflexivity]|].
    destruct (life_active _) eqn:Hl; simpl; [|apply wp_throw; split; [done|by apply reflexivity]].
    apply wp_bind, wp_clock_read. intros now w1 Hn1 Hn2 Hn3.
    assert (wle w w1) as Hw1 by (split; [lia|by rewrite Hn3]).
    destruct (Z.leb_spec (vd_until v) now) as [Hle|Hlt]; [apply wp_throw; by split|].
    apply wp_bind. unfold wp.
    set (m := match vd_state v with Some id => in_wire (stream_active id) | None => ret true end : shared_m string bool).
    assert (along sstill m) as Hm by (unfold m; destruct (vd_state v); along_auto).
    pose proof (along_keeps_core _ m (s, w1) Hm) as [Hcore Hw2].
    destruct (m (s, w1)) as [[b|e|] [s2 w2]]; cbn [fst snd] in *; [|split; [done|by etrans]..].
    unfold bind, reject_if. destruct b; simpl; [|split; [done|by etrans]].
    exists now, s2. split_and!; try done. by etrans. }
  unfold wp in Hwp. destruct (validity_check v (s, w)) as [[a|e|] [s' w']]; cbn [fst snd] in *.
  - destruct Hwp as (at_ & s1 & Hlt & Hc & Hl & -> & Hcore & Hw). unfold shared_core in Hcore. simplify_eq.
    exists at_. split_and!; try done. unfold records, reads_of, jobs_of, trace_of, trace, wgrow. cbn [fst snd sh_works sh_jobs sh_trace].
    by split_and!; try congruence.
  - destruct Hwp as [Hcore Hw]. split; [|done]. split; [|done]. unfold peer_core. cbn [fst snd] in *. by rewrite Hcore.
  - destruct Hwp as [Hcore Hw]. split; [|done]. split; [|done]. unfold peer_core. cbn [fst snd] in *. by rewrite Hcore.
Qed.

(** What lasts: no step of any owner ends it. *)
Definition lasting (X : St → Prop) : Prop := ∀ o t t', step o t t' → X t → X t'.
Lemma lasting_stable n X : lasting X → stable n X.
Proof. intros HX t t' Ht (o & _ & _ & Hg). by eapply HX. Qed.
Lemma lasting_true : lasting (λ _, True).
Proof. done. Qed.
Lemma lasting_and X Y : lasting X → lasting Y → lasting (λ t, X t ∧ Y t).
Proof. intros HX HY o t t' Hg [??]. split; eauto. Qed.
Lemma lasting_entry e : lasting (λ t, e ∈ trace_of t).
Proof. intros o t t'. apply trace_grows. Qed.
Definition logged (e : Timestamp → Event) (t : St) : Prop := ∃ at_, e at_ ∈ log_of t.
Lemma lasting_logged e : lasting (logged e).
Proof.
  intros o t t' Hg [at_ He]. exists at_. destruct (g_world _ _ _ _ Hg) as [_ [l Hl]].
  unfold log_of in *. rewrite Hl. apply elem_of_app. by left.
Qed.
Lemma step_entries o t t' : step o t t' → ∀ e, e ∈ trace_of t → e ∈ trace_of t'.
Proof. intros Hg e. by eapply trace_grows. Qed.
Lemma lasting_granted k c : lasting (λ t, granted k c (trace_of t)).
Proof. intros o t t' Hg. apply granted_mono. by eapply step_entries. Qed.
Lemma lasting_audited k c : lasting (λ t, audited k c (trace_of t) (log_of t)).
Proof. intros o t t' Hg. apply audited_mono; [by eapply step_entries|apply (g_world _ _ _ _ Hg)]. Qed.
Hint Resolve lasting_true lasting_and lasting_entry lasting_logged lasting_granted lasting_audited : core.

(** An entry that a work adds on its way to its call. *)
Definition noting (e : Trace) : Prop :=
  match e with Passed _ _ | Looked _ _ _ | Counted _ _ _ => True | _ => False end.
Lemma running_records k e t t' : noting e → running k t → records e t t' → running k t'.
Proof.
  intros He Hr (Hrd & Hk & Hj & Ht & Hw). destruct Hr as [Hh Hc Ho Ha Hab].
  assert (calls_of (trace_of t') = calls_of (trace_of t)) as Hcalls
    by (rewrite Ht, calls_app; destruct e; try done; simpl; by rewrite app_nil_r).
  constructor.
  - destruct Hh as [h1 h2 h3 h4 h5].
    constructor; rewrite ?Hcalls; unfold is_cancelled, is_started, work_cell; rewrite ?Hk; try done.
    + intros m u. rewrite Ht, elem_of_app, list_elem_of_singleton. intros [Hm|<-]; [by eapply h1|done].
    + intros m Hm. destruct (h2 m Hm) as [? ?]. split; [done|].
      rewrite Ht, elem_of_app, list_elem_of_singleton. by intros [?|<-].
    + rewrite Ht, admissions_app. destruct e; try done; simpl; by rewrite app_nil_r.
    + intros pre m c post Hp. rewrite Ht in Hp. apply snoc_split in Hp as [(_ & _ & ->)|(post' & -> & Hp)]; [done|].
      eapply call_allowed_log; [apply Hw|by eapply h5].
  - destruct Hc as [d Hd]. exists d. by rewrite Hj.
  - intros m (c & Hm & Hcw). apply Ho. exists c. by rewrite <- Hj.
  - rewrite Ht. apply elem_of_app. by left.
  - intros m. rewrite Hcalls. apply Hab.
Qed.
(** A step of the work that is quiet or adds such an entry *)
Definition notes (n : Z) (t t' : St) : Prop :=
  quiet_step t t' ∨ ∃ e, noting e ∧ records e t t' ∧ entry_ok allowlist (OfCall n) t t' e.
Lemma notes_guarantees n t t' : notes n t t' → guarantees n t t'.
Proof. intros [Hq|(e & _ & Hr & He)]; [by apply quiet_guarantees|by eapply records_step]. Qed.
Lemma notes_running k t t' : notes (wk_number k) t t' → running k t → running k t'.
Proof.
  intros [Hq|(e & Hn & Hr & _)] Hrun; [|by eapply running_records].
  by eapply stable_running; [|apply quiet_relies].
Qed.

(** [started.store(true)] *)
Lemma start_run n t : let t' := (in_shared (E := string) (update (store_started n)) t).2 in
  reads_of t' = reads_of t ∧ jobs_of t' = jobs_of t ∧ trace_of t' = trace_of t ∧ t'.2 = t.2
  ∧ is_started n t' = true
  ∧ (∀ m, is_started m t = true → is_started m t' = true) ∧ (∀ m, is_cancelled m t' = is_cancelled m t).
Proof.
  destruct t as [[r s] w]. rewrite in_shared_run. cbn [fst snd update modify].
  unfold reads_of, jobs_of, trace_of, is_started, is_cancelled, store_started, work_cell, set_works.
  cbn [fst snd sh_works sh_jobs sh_trace].
  split_and!; try done.
  - by rewrite lookup_insert_eq.
  - intros m. destruct (decide (m = n)) as [->|Hne]; [by rewrite lookup_insert_eq|by rewrite lookup_insert_ne].
  - intros m. destruct (decide (m = n)) as [->|Hne]; [by rewrite lookup_insert_eq|by rewrite lookup_insert_ne].
Qed.
Lemma start_step n t : guarantees n t (in_shared (E := string) (update (store_started n)) t).2.
Proof.
  destruct (start_run n t) as (Hr & Hj & Ht & Hw & Hs & Hst & Hca). constructor; try done.
  - intros m. by rewrite Hca.
  - by left.
  - unfold wgrow. rewrite Hw. by apply reflexivity.
Qed.
Lemma running_start k n t : running k t → running k (in_shared (E := string) (update (store_started n)) t).2.
Proof.
  intros Hr. pose proof (start_step n t) as Hg. destruct (start_run n t) as (_ & Hj & Ht & Hw & _).
  destruct Hr as [Hh Hc Ho Ha Hab]. constructor; rewrite ?Ht; try done.
  - by eapply history_step.
  - unfold write_cell. by rewrite Hj.
  - unfold write_cell. by rewrite Hj.
Qed.

(** [validity.start(&started)?] *)
Lemma safe_start {B} k state (X : St → Prop) (next : unit → Job St string B) Q t :
  let n := wk_number k in
  lax Q → lasting X → running k t → X t →
  (∀ t', running k t' → armed k t' → X t' → safely n (next tt) Q t') →
  safely n (jbind (validity_start (mkValidity n state (wk_until k))) next) Q t.
Proof.
  intros n HQ HX Hr Ht Hk. apply safe_bind; [done|]. unfold validity_start. cbn [vd_work].
  set (I := λ t, running k t ∧ X t).
  assert (stable n I) as HI by (apply stable_and; [apply stable_running|by apply lasting_stable]).
  apply (safe_jcall _ _ I HI); [done|]. intros s [Hsr Hsx].
  split; [apply start_step|].
  set (J := λ t, I t ∧ is_started n t = true).
  assert (stable n J) as HJ.
  { intros a b [HIa Hsa] Hrel. split; [by eapply HI|]. destruct Hrel as (o & _ & _ & Hg). by apply (g_started _ _ _ _ Hg). }
  apply (safe_mono _ _ _ (λ r s, match r with Ok a => safely n (next a) Q s | _ => True end)); [|done].
  assert (J (in_shared (E := string) (update (store_started n)) s).2) as HJs.
  { split; [split; [by apply running_start|eapply HX; [apply start_step|done]]|]. by destruct (start_run n s) as (_ & _ & _ & _ & ? & _). }
  revert HJs. generalize (in_shared (E := string) (update (store_started n)) s).2 as s1. intros s1 HJs.
  replace ((in_shared (update (store_started n)) s).1) with (@Ok string unit tt)
    by (destruct s as [[? ?] ?]; reflexivity).
  intros s' Hr'. pose proof (I_relies _ _ HJ _ _ HJs Hr') as [[Hrun' HX'] Hst'].
  pose proof (check_run (mkValidity n state (wk_until k)) s') as Hc. cbn [vd_work vd_until] in Hc.
  destruct (in_shared (validity_check (mkValidity n state (wk_until k))) s').1 as [[]|e|] eqn:He.
  - destruct Hc as (at_ & Hlt & Hcan & Hl & Hrec). split; [by eapply records_step|].
    assert (running k (in_shared (validity_check (mkValidity n state (wk_until k))) s').2) as Hrun2
      by (by eapply running_records; [|done|exact Hrec]).
    assert (safely n (next tt) Q (in_shared (validity_check (mkValidity n state (wk_until k))) s').2) as Hnext.
    { apply Hk; [done| |by eapply HX; [eapply records_step; [exact Hrec|done]|]]. destruct Hrec as (_ & Hks & _ & Htr & _). split_and!.
      - unfold is_started, work_cell in *. by rewrite Hks.
      - rewrite Htr, elem_of_app, list_elem_of_singleton. intros [Hin|?]; [|done].
        apply (h_cancelled _ _ (rn_history _ _ _ Hrun')) in Hin. unfold is_cancelled in *. subst n. congruence.
      - exists at_. split; [|done]. rewrite Htr. apply elem_of_app. right. by apply list_elem_of_singleton. }
    intros s2 Hr2. by eapply safe_rely.
  - split; [by apply quiet_guarantees|]. done.
  - split; [by apply quiet_guarantees|]. done.
Qed.

(** The call: the trace has it, then the host runs. *)
Lemma call_run n c sink t : records (Called n c) t (in_shared (call_host n c sink) t).2.
Proof.
  destruct t as [[r s] w]. rewrite in_shared_run. unfold call_host, bind, update, modify. cbn [fst snd].
  unfold in_port, zoom. destruct (host_write c sink _) as [a p]. by unfold records.
Qed.
Lemma safe_call {B} k c sink (next : string → Job St string B) Q t :
  lax Q →
  running k t → armed k t → granted k c (trace_of t) → (∀ s, session_of (wk_run k) = Some s → s ∈ allowlist) →
  audited k c (trace_of t) (log_of t) →
  (∀ a t', safely (wk_number k) (next a) Q t') →
  safely (wk_number k) (jbind (jshared (call_host (wk_number k) c sink)) next) Q t.
Proof.
  intros HQ Hr Ha Hg Hs Hau Hk.
  set (I := λ t, (running k t ∧ armed k t) ∧ granted k c (trace_of t) ∧ audited k c (trace_of t) (log_of t)).
  assert (stable (wk_number k) I) as HI.
  { apply stable_and; [apply stable_and; [apply stable_running|apply stable_armed]|].
    apply lasting_stable, lasting_and; [apply lasting_granted|apply lasting_audited]. }
  apply (safe_jcall _ _ I HI); [done|]. intros s [[Hrs (Hst & Hnc & at_ & Hp & Hlt)] [Hgs Haus]]. split.
  - eapply records_step; [apply call_run|]. split_and!; try done.
    + by eapply running_cell.
    + by apply (rn_above _ _ _ Hrs).
    + exists k, at_. split_and!; try done. apply Hrs.
  - destruct (in_shared _ s).1; [apply Hk|intros ? _; apply HQ..].
Qed.

(** ** What the quiet steps of a write establish *)

Lemma running_allowed session t a :
  (in_shared (in_port (session_running allowlist session)) t).1 = Ok a → session ∈ allowlist.
Proof.
  destruct t as [[r s] w]. rewrite in_shared_run. unfold in_port, zoom. intros Hr.
  pose proof (running_spec allowlist session (gt_port (sh_gate s))) as Hwp. unfold wp in Hwp.
  cbn [fst snd] in Hr. destruct (session_running allowlist session (gt_port (sh_gate s))) as [x p'].
  cbn [fst snd] in *. subst x. destruct Hwp as [(_ & ? & _)|(_ & Hin & _)]; [done|exact Hin].
Qed.

Lemma wp_admit_logged {S} u action summary (s : S) w :
  wp (admit_write u action summary) (λ r x, ∀ a, r = Ok a → ∃ at_,
    audit u.(au_device) u.(au_peer_id) u.(au_scope) action u.(au_session) u.(au_target) summary at_ ∈ world_log x.2) (s, w).
Proof.
  unfold admit_write, audit_event. apply wp_bind, wp_bind, wp_clock_read. intros now w1 _ _ _.
  apply wp_ret, wp_bind, wp_try_emit. intros ok w2 _ Hl. apply wp_reject_if. destruct ok; simpl; [|done].
  intros _ _. exists now. rewrite Hl. apply elem_of_app. right. by apply list_elem_of_singleton.
Qed.
Lemma admit_logged u action summary t a :
  (in_shared (in_audits (admit_write u action summary)) t).1 = Ok a →
  ∃ at_, audit u.(au_device) u.(au_peer_id) u.(au_scope) action u.(au_session) u.(au_target) summary at_
    ∈ log_of (in_shared (in_audits (admit_write u action summary)) t).2.
Proof.
  destruct t as [[r s] w]. rewrite in_shared_run. unfold in_audits, in_whole, zoom, log_of. cbn [fst snd].
  pose proof (wp_admit_logged u action summary (wh_audits (gt_whole (sh_gate s))) w) as Hwp. unfold wp in Hwp.
  destruct (admit_write u action summary _) as [x [au w']]. cbn [fst snd] in *. apply Hwp.
Qed.

Lemma either_ok {A} (r : string + A) t a : (in_shared (of_either r) t).1 = Ok a → r = inr a.
Proof. destruct t as [[? ?] ?]. rewrite in_shared_run. destruct r; simpl; congruence. Qed.

(** The rules, for a thread of the work [k] *)
Section Work.
Context (k : Work).
Let n := wk_number k.

(** A step after which [φ] holds where it succeeds; what lasts, lasts. *)
Lemma work_step {A B} X (φ : A → St → Prop) (m : shared_m string A) (next : A → Job St string B) Q t :
  lax Q → lasting X → running k t → X t →
  (∀ t, notes n t (in_shared m t).2) → (∀ t a, (in_shared m t).1 = Ok a → φ a (in_shared m t).2) →
  (∀ a t', running k t' → X t' → φ a t' → safely n (next a) Q t') →
  safely n (jbind (jshared m) next) Q t.
Proof.
  intros HQ HX Hr Ht Hm Hφ Hk. set (I := λ t, running k t ∧ X t).
  apply (safe_jcall _ _ I); [apply stable_and; [apply stable_running|by apply lasting_stable]|done|].
  intros s [Hs Hxs]. pose proof (notes_guarantees _ _ _ (Hm s)) as Hg. split; [exact Hg|].
  pose proof (notes_running _ _ _ (Hm s) Hs) as Hrs.
  pose proof (Hφ s) as Hφs. destruct (in_shared m s).1 as [a|e|]; [|intros ? _; apply HQ..].
  apply Hk; [done|by eapply HX|by apply Hφs].
Qed.
Lemma quiet_notes {A} (m : shared_m string A) t : along sstill m → notes n t (in_shared m t).2.
Proof. intros Hm. left. by apply quiet_shared. Qed.
Lemma work_quiet_with {A B} X (φ : A → St → Prop) (m : shared_m string A) (next : A → Job St string B) Q t :
  lax Q → lasting X → running k t → X t → along sstill m →
  (∀ t a, (in_shared m t).1 = Ok a → φ a (in_shared m t).2) →
  (∀ a t', running k t' → X t' → φ a t' → safely n (next a) Q t') →
  safely n (jbind (jshared m) next) Q t.
Proof. intros HQ HX Hr Ht Hm Hφ Hk. apply (work_step X φ); try done. intros s. by apply quiet_notes. Qed.
Lemma work_quiet {A B} X (m : shared_m string A) (next : A → Job St string B) Q t :
  lax Q → lasting X → running k t → X t → along sstill m →
  (∀ a t', running k t' → X t' → safely n (next a) Q t') →
  safely n (jbind (jshared m) next) Q t.
Proof. intros HQ HX Hr Ht Hm Hk. apply (work_quiet_with X (λ _ _, True)); auto. Qed.

Lemma check_notes state t : notes n t (in_shared (validity_check (mkValidity n state (wk_until k))) t).2.
Proof.
  pose proof (check_run (mkValidity n state (wk_until k)) t) as Hc. cbn [vd_work vd_until] in Hc.
  destruct (in_shared _ t).1; [|by left..]. destruct Hc as (at_ & _ & Hcan & Hl & Hr). right.
  by exists (Passed n at_).
Qed.
Lemma work_check {B} X state (next : unit → Job St string B) Q t :
  lax Q → lasting X → running k t → X t → (∀ t', running k t' → X t' → safely n (next tt) Q t') →
  safely n (jbind (jshared (validity_check (mkValidity n state (wk_until k)))) next) Q t.
Proof.
  intros HQ HX Hr Ht Hk. apply (work_step X (λ _ _, True)); try done; [apply check_notes|].
  intros [] t' Hr' Ht' _. auto.
Qed.
Lemma snapshot_run session t :
  match (in_shared (call_snapshot n session) t).1 with
  | Ok raw => (port_snapshot session (port_of t)).1 = Ok raw
              ∧ records (Looked n session raw) t (in_shared (call_snapshot n session) t).2
  | _ => quiet_step t (in_shared (call_snapshot n session) t).2
  end.
Proof.
  destruct t as [[r s] w]. rewrite in_shared_run. unfold call_snapshot, bind, in_port, zoom, update, modify, ret, port_of.
  cbn [fst snd]. destruct (port_snapshot session (gt_port (sh_gate s))) as [[raw|e|] p]; cbn [fst snd].
  - split; [done|]. by unfold records.
  - split; [|done]. by split.
  - split; [|done]. by split.
Qed.
Lemma snapshot_notes session t : notes n t (in_shared (call_snapshot n session) t).2.
Proof.
  pose proof (snapshot_run session t) as Hs. destruct (in_shared _ t).1 as [raw| |]; [|by left..].
  right. destruct Hs as [Hs Hrec]. by exists (Looked n session raw).
Qed.
Lemma work_snapshot {B} X session (next : Value → Job St string B) Q t :
  lax Q → lasting X → running k t → X t →
  (∀ raw t', running k t' → X t' → Looked n session raw ∈ trace_of t' → safely n (next raw) Q t') →
  safely n (jbind (jshared (call_snapshot n session)) next) Q t.
Proof.
  intros HQ HX Hr Ht Hk. apply (work_step X (λ raw t, Looked n session raw ∈ trace_of t)); try done; [apply snapshot_notes|].
  intros s raw Hok. pose proof (snapshot_run session s) as Hs. rewrite Hok in Hs. destruct Hs as (_ & _ & _ & _ & -> & _).
  apply elem_of_app. right. by apply list_elem_of_singleton.
Qed.
Lemma work_running {B} X session (next : unit → Job St string B) Q t :
  lax Q → lasting X → running k t → X t →
  (session ∈ allowlist → ∀ a t', running k t' → X t' → safely n (next a) Q t') →
  safely n (jbind (jshared (in_port (session_running allowlist session))) next) Q t.
Proof.
  intros HQ HX Hr Ht Hk. apply (work_quiet_with X (λ _ _, session ∈ allowlist)); try done; [along_auto| |auto].
  intros s a. apply running_allowed.
Qed.
Lemma work_either {A B} X (r : string + A) (next : A → Job St string B) Q t :
  lax Q → lasting X → running k t → X t → (∀ a t', r = inr a → running k t' → X t' → safely n (next a) Q t') →
  safely n (jbind (jshared (of_either r)) next) Q t.
Proof.
  intros HQ HX Hr Ht Hk. apply (work_quiet_with X (λ a _, r = inr a)); try done; [| |auto].
  - destruct r; unfold of_either; along_auto.
  - intros s a. apply either_ok.
Qed.
Definition admitted_event u action summary (at_ : Timestamp) : Event :=
  audit u.(au_device) u.(au_peer_id) u.(au_scope) action u.(au_session) u.(au_target) summary at_.
Lemma work_admit {B} X u action summary (next : unit → Job St string B) Q t :
  lax Q → lasting X → running k t → X t →
  (∀ t', running k t' → X t' → logged (admitted_event u action summary) t' → safely n (next tt) Q t') →
  safely n (jbind (jshared (in_audits (admit_write u action summary))) next) Q t.
Proof.
  intros HQ HX Hr Ht Hk.
  apply (work_quiet_with X (λ _, logged (admitted_event u action summary))); try done; [along_auto| |].
  - intros s []. apply admit_logged.
  - intros [] t' Hr' Ht' Hl. auto.
Qed.

(** A last step *)
Lemma safe_last {A} (m : shared_m string A) Q t : safely n (jbind (jshared m) jret) Q t → safely n (jshared m) Q t.
Proof. intros Hs s Hr. destruct (Hs s Hr) as [HG Hk]. split; [exact HG|]. by destruct (in_shared m s).1. Qed.
Lemma safe_done_true {A} (r : outcome string A) t : safely n (Done r) (λ _ _, True) t.
Proof. by intros s' _. Qed.

(** ** Prompts and keys *)
Lemma safe_agent action session target message t :
  wk_run k = RunAgent action session target message → running k t →
  safely n (run_agent allowlist k action session target message) (λ _ _, True) t.
Proof.
  intros Hrun Hr. unfold run_agent.
  apply (work_check (λ _, True)); [done..|]. clear t Hr. intros t Hr _.
  apply (work_running (λ _, True)); [done..|]. clear t Hr. intros Hin _ t Hr _.
  apply (work_snapshot (λ _, True)); [done..|]. clear t Hr. intros raw t Hr _ Hl.
  set (X := λ t, Looked n session raw ∈ trace_of t) in *. assert (lasting X) as HX by apply lasting_entry.
  apply (work_either X); [done..|]. clear t Hr Hl. intros pane t Hpane Hr Hl.
  apply (work_admit X); [done..|]. clear t Hr Hl. intros t Hr Hl He. set (e := admitted_event _ _ _) in *.
  apply (safe_start k None (λ t, X t ∧ logged e t)); [done|by auto|done..|]. clear t Hr Hl He.
  intros t Hr Ha [Hl He]. apply safe_call; [done|done|done| | | |].
  - unfold granted. rewrite Hrun. destruct message; simpl; eauto.
  - rewrite Hrun. simpl. by intros s [= <-].
  - unfold audited. rewrite Hrun. exact He.
  - intros a t'. apply safe_done_true.
Qed.

(** ** Input, scroll, resize *)
Lemma quiet_bucket stream t : quiet_step t (drop_bucket stream t).
Proof.
  destruct t as [[r s] w]. unfold drop_bucket.
  destruct (oc_gone (open_cell stream s)), (oc_bucket (open_cell stream s)); split; try done; split; try done; try by apply reflexivity.
  apply wle_drop.
Qed.
Lemma bucket_open u action stream (b : Bucket) bytes t : bucket_of stream t = Some b →
  in_shared (bucket_admit n u action stream bytes) t
  = (Ok tt, ((t.1.1, trace (Counted n stream (len bytes))
                       (store_bucket stream (Some (mkBucket (bk_until b) (bk_bytes b + len bytes))) t.1.2)), t.2)).
Proof.
  destruct t as [[r s] w]. unfold bucket_of. cbn [fst snd]. intros Hb. unfold in_shared, zoom, bucket_admit, bind, get, gets.
  cbn [fst snd]. by rewrite Hb.
Qed.
(** The bytes are in the bucket, or in an event of their own. *)
Definition bucketed u action stream bytes t t' : Prop :=
  (records (Counted n stream (len bytes)) t t'
   ∧ ∃ b, bucket_of stream t' = Some b ∧ bk_bytes b = from_option bk_bytes 0 (bucket_of stream t) + len bytes)
  ∨ (quiet_step t t' ∧ logged (admitted_event u action (VObject [("bytes", VNumber (len bytes))])) t').
Lemma bucket_run u action stream bytes t :
  let x := in_shared (bucket_admit n u action stream bytes) t in
  match x.1 with Ok _ => bucketed u action stream bytes t x.2 | _ => quiet_step t x.2 end.
Proof.
  assert (∀ r s w w' b, wle w w' → bk_bytes b = from_option bk_bytes 0 (oc_bucket (open_cell stream s)) →
    bucketed u action stream bytes ((r, s), w) ((r, trace (Counted n stream (len bytes))
      (store_bucket stream (Some (mkBucket (bk_until b) (bk_bytes b + len bytes))) s)), w')) as Hstore.
  { intros r s w w' b Hw Hb. left. split; [by unfold records|].
    exists (mkBucket (bk_until b) (bk_bytes b + len bytes)). unfold bucket_of, store_bucket, open_cell. cbn [fst snd trace sh_opens set_opens].
    rewrite lookup_insert_eq. split; [done|]. unfold open_cell in Hb. simpl. by rewrite Hb. }
  destruct t as [[r s] w]. destruct (oc_bucket (open_cell stream s)) as [b|] eqn:Hb.
  { cbv zeta. rewrite (bucket_open _ _ _ b) by exact Hb. apply (Hstore r s w w b); [by apply reflexivity|by rewrite Hb]. }
  cbv zeta. rewrite in_shared_run. cbn [fst snd].
  assert (wp (bucket_admit n u action stream bytes) (λ a x, match a with
    | Ok _ => bucketed u action stream bytes ((r, s), w) ((r, x.1), x.2)
    | _ => quiet_step ((r, s), w) ((r, x.1), x.2) end) (s, w)) as Hwp.
  { unfold bucket_admit. apply wp_bind, wp_get. rewrite Hb. cbn iota beta. apply wp_bind, wp_bind, wp_try_reserve.
    intros ok w1 Ht1 Hl1. assert (wle w w1) as Hw1 by (split; [lia|by rewrite Hl1]). destruct ok.
    - apply wp_bind, wp_clock_read. intros now w2 Hn1 Hn2 Hl2.
      assert (wle w w2) as Hw2 by (split; [lia|by rewrite Hl2, Hl1]). apply wp_ret, wp_update.
      apply (Hstore r s w w2 (mkBucket (after now (seconds 10)) 0)); [done|by rewrite Hb].
    - apply wp_ret. cbn iota beta. pose proof (quiet_shared (in_audits (P := P) (admit_write u action
        (VObject [("bytes", VNumber (len bytes))]))) ((r, s), w1) ltac:(along_auto)) as Hq.
      pose proof (admit_logged u action (VObject [("bytes", VNumber (len bytes))]) ((r, s), w1)) as Hlog.
      rewrite in_shared_run in Hq, Hlog. cbn [fst snd] in Hq, Hlog. unfold wp.
      destruct (in_audits (admit_write _ _ _) (s, w1)) as [a [s2 w2]]. cbn [fst snd] in *.
      assert (quiet_step ((r, s), w) ((r, s2), w2)) as Hq2
        by (destruct Hq as [[Hc Hw] Hrd]; split; [split; [exact Hc|cbn [snd] in *; by etrans]|done]).
      destruct a as [[]|e|]; [|done..]. right. split; [done|]. destruct (Hlog tt eq_refl) as [at_ Hat]. by exists at_. }
  unfold wp in Hwp. by destruct (bucket_admit n u action stream bytes (s, w)) as [a [s' w']].
Qed.
Lemma bucket_notes u action stream bytes t : notes n t (in_shared (bucket_admit n u action stream bytes) t).2.
Proof.
  pose proof (bucket_run u action stream bytes t) as Hs. cbv zeta in Hs.
  destruct (in_shared _ t).1; [|by left..]. destruct Hs as [[Hrec Hb]|[Hq _]]; [|by left].
  right. by exists (Counted n stream (len bytes)).
Qed.
(** What accounts for an input *)
Definition input_counted u action stream bytes t : Prop :=
  Counted n stream (len bytes) ∈ trace_of t
  ∨ logged (admitted_event u action (VObject [("bytes", VNumber (len bytes))])) t.
Lemma lasting_counted u action stream bytes : lasting (input_counted u action stream bytes).
Proof.
  intros o t t' Hg [Hc|Hl]; [left; by eapply lasting_entry|right; by eapply lasting_logged].
Qed.
Lemma work_bucket {B} u action stream bytes (next : unit → Job St string B) Q t :
  lax Q → running k t →
  (∀ t', running k t' → input_counted u action stream bytes t' → safely n (next tt) Q t') →
  safely n (jbind (jshared (bucket_admit n u action stream bytes)) next) Q t.
Proof.
  intros HQ Hr Hk. apply (work_step (λ _, True) (λ _, input_counted u action stream bytes)); try done; [apply bucket_notes| |].
  - intros s [] Hok. pose proof (bucket_run u action stream bytes s) as Hs. cbv zeta in Hs. rewrite Hok in Hs.
    destruct Hs as [[(_ & _ & _ & Ht & _) _]|[_ Hl]]; [left|by right].
    rewrite Ht. apply elem_of_app. right. by apply list_elem_of_singleton.
  - intros [] t' Hr' _ Hc. auto.
Qed.
Lemma safe_op_call {B} action resource stream op (next : string → Job St string B) Q t :
  wk_run k = RunTerminal action resource stream op → lax Q →
  running k t → armed k t → audited k (op_call resource op) (trace_of t) (log_of t) →
  (∀ a t', safely n (next a) Q t') →
  safely n (jbind (jshared (call_host n (op_call resource op) 0)) next) Q t.
Proof.
  intros Hrun HQ Hr Ha Hau Hk. apply safe_call; try done.
  - unfold granted. rewrite Hrun. by destruct op.
  - by rewrite Hrun.
Qed.
(** The rest, from what accounts for the operation *)
Lemma safe_op_rest {B} X action resource stream op (next : string → Job St string B) Q t :
  wk_run k = RunTerminal action resource stream op → lax Q → lasting X →
  (∀ t, X t → audited k (op_call resource op) (trace_of t) (log_of t)) →
  running k t → X t → (∀ a t', safely n (next a) Q t') →
  safely n (jbind (validity_start (mkValidity n (Some stream) (wk_until k)))
    (λ _, jbind (jshared (call_host n (op_call resource op) 0)) next)) Q t.
Proof.
  intros Hrun HQ HX Hau Hr Ht Hk. apply (safe_start k (Some stream) X); [done..|].
  intros t' Hr' Ha' Hx'. eapply safe_op_call; [done|done|done|done|by apply Hau|done].
Qed.
Lemma safe_terminal action resource stream op t :
  wk_run k = RunTerminal action resource stream op → running k t →
  safely n (run_terminal k action resource stream op) (λ _ _, True) t.
Proof.
  intros Hrun Hr. unfold run_terminal. apply safe_finally; [done|intros; apply quiet_bucket|].
  apply (work_check (λ _, True)); [done..|]. clear t Hr. intros t Hr _.
  destruct op as [bytes|direction lines|size]; unfold op_admit.
  - apply safe_bind; [done|]. apply (work_quiet (λ _, True)); [apply lax_then|done|done|done|along_auto|].
    clear t Hr. intros _ t Hr _. apply safe_last.
    apply work_bucket; [apply lax_then|done|]. clear t Hr. intros t Hr Hc. apply safe_ret; [apply kept_then|]. cbn [then_].
    eapply safe_op_rest; [done|done|apply lasting_counted| |done|exact Hc|intros; apply safe_done_true].
    clear t Hr Hc. intros t Hc. unfold audited. rewrite Hrun. exact Hc.
  - apply (work_admit (λ _, True)); [done..|]. clear t Hr. intros t Hr _ He.
    eapply safe_op_rest; [done|done|apply lasting_logged| |done|exact He|intros; apply safe_done_true].
    clear t Hr He. intros t He. unfold audited. rewrite Hrun. exact He.
  - apply (work_admit (λ _, True)); [done..|]. clear t Hr. intros t Hr _ He.
    eapply safe_op_rest; [done|done|apply lasting_logged| |done|exact He|intros; apply safe_done_true].
    clear t Hr He. intros t He. unfold audited. rewrite Hrun. exact He.
Qed.
End Work.
End Safe.
