(* ===== verification/CallsOpen.v ===== *)
(** * [write_bridge.rs], [read_bridge.rs]: every job of the executor is safe

    The opens of control and full sessions, the closure of [pump_writes] and, as
    they make no write call, the reads. *)

From stdpp Require Import base gmap strings list relations.
From Stdlib Require Import ZArith Lia Sorted.
From S2P Require Import Prelude Steps Rust Externals Clock Devices Admin Events World.
From S2P Require Import Pairing Webauthn Session Authorize Gateway WriteAudit Jobs Herdr HerdrFacts Push GitBridge Control.
From S2P Require Import Http Wire Rpc Threads Growing Streams Calls WriteBridge ReadBridge Still Peer PeerRely CallsSafe.

Local Open Scope Z_scope.

(** A thread that only takes quiet steps, by its syntax. *)
Ltac calm_step :=
  match goal with
  | |- steady _ _ _ (jbind _ _) => apply steady_jbind; [done| |intros ?]
  | |- steady _ _ _ (jret _) => by apply steady_jret
  | |- steady _ _ _ (jthrow _) => by apply steady_jthrow
  | |- steady _ _ _ (Done _) => by apply steady_done
  | |- steady _ _ _ (lose _) => unfold lose
  | |- steady _ _ _ (jshared _) => apply calm_shared; solve [along_auto]
  | |- steady _ _ _ (jmap_err _ _) => apply steady_jmap_err; [done| |intros ?]
  | |- steady _ _ _ (jattempt _) => apply steady_jattempt; [done|]
  | |- steady _ _ _ (jwhen _ _) => apply steady_jwhen; [done|]
  | |- steady _ _ _ (jfor_each _ _) => apply steady_jfor_each; [done|intros ?]
  | |- steady _ _ _ (jmap _ _) => apply steady_jmap; [done|intros ?]
  | |- steady _ _ _ (let '(_, _) := ?p in _) => destruct p
  | |- steady _ _ _ (match ?x with _ => _ end) => destruct x
  end.
Ltac calm := repeat calm_step.

Section Open.
Context `{Base64, Json, Crypto, Http, Tokio, Budgets, !Webauthn Transport, World W, !WorldLaws W}.
Context `{HerdrHost P, !GitHost P}.
Context (allowlist : gset string) (rfc3339 : Timestamp → string) (json_from_str : string → option Value).
Context (other : Audits * W → Audits * W).
Hypothesis other_grows : ∀ x, wgrow x (other x).
Abbreviation St := ((Reads * Shared P) * W)%type.
Implicit Types t : St.
Abbreviation relies := (relies (P := P) (W := W) allowlist).
Abbreviation guarantees := (guarantees (P := P) (W := W) allowlist).
Abbreviation running := (running (P := P) (W := W) allowlist).
Abbreviation safely n := (safe (relies n) (guarantees n)).
Abbreviation calmly n := (steady (relies n) (guarantees n) (λ _, True)).

Lemma safe_call_tail k c sink (Q : outcome string string → St → Prop) t :
  lax Q → (∀ a s, Q (Ok a) s) →
  running k t → armed k t → granted k c (trace_of t) → (∀ s, session_of (wk_run k) = Some s → s ∈ allowlist) →
  audited k c (trace_of t) (log_of t) →
  safely (wk_number k) (jshared (call_host (wk_number k) c sink)) Q t.
Proof.
  intros HQ Hok Hr Ha Hg Hs Hau.
  pose proof (safe_call allowlist k c sink (λ a, jret a) (λ _ _, True) t lax_true Hr Ha Hg Hs Hau
                ltac:(intros a t' s _; done)) as Hsafe.
  intros s Hrel. destruct (Hsafe s Hrel) as [HG _]. split; [exact HG|]. intros s' _.
  destruct (in_shared _ s).1; [apply Hok|apply HQ..].
Qed.

Lemma quiet_captured full t : quiet_step t (drop_captured full t).
Proof.
  destruct t as [[r s] w]. unfold drop_captured. split; [|done]. split; [|by apply reflexivity].
  unfold peer_core. simpl. f_equal. destruct full as [d|]; [|done]. unfold drop_fulls, drop_full. simpl.
  by destruct (gt_full (sh_gate s) !! d).
Qed.
Lemma quiet_announcement t : quiet_step t (drop_announcement t).
Proof. destruct t as [[r s] w]. split; [|done]. split; [done|]. apply wle_drop. Qed.
Lemma still_reserve u : along sstill (in_audits (P := P) (reserve_announced (W := W) u)).
Proof. along_auto. Qed.

Section Work.
Context (k : Work).
Let n := wk_number k.

Definition open_ok (session : string) (target0 : option string) (size0 : option (Z * Z))
    (target : option string) (size : Z * Z) (t : St) : Prop :=
  match target0 with
  | Some t0 => ∃ raw pane, target = Some pane ∧ Looked n session raw ∈ trace_of t
                 ∧ observe_geometry raw t0 = inr (pane, size.1, size.2)
  | None => target = None ∧ size0 = Some size
  end.
Lemma lasting_open session target0 size0 target size : lasting allowlist (open_ok session target0 size0 target size).
Proof.
  intros o t t' Hg. destruct target0 as [t0|]; [|done]. intros (raw & pane & ? & Hl & ?). exists raw, pane.
  split_and!; try done. by eapply lasting_entry.
Qed.
Hint Resolve lasting_open lasting_logged lasting_and : core.

Lemma safe_open_target {B} session target0 size0 (next : option string * (Z * Z) → Job St string B) Q t :
  lax Q → running k t →
  (∀ target size t', open_ok session target0 size0 target size t' → running k t' → safely n (next (target, size)) Q t') →
  safely n (jbind (open_target n session target0 size0) next) Q t.
Proof.
  intros HQ Hr Hk. apply safe_bind; [done|]. destruct target0 as [t0|]; unfold open_target.
  - apply (work_snapshot _ _ (λ _, True)); [apply lax_then|done..|]. clear t Hr. intros raw t Hr _ Hl.
    apply (work_either _ _ (λ t, Looked n session raw ∈ trace_of t)); [apply lax_then|apply lasting_entry|done|done|].
    clear t Hr Hl. intros [[pane cols] rows] t Hgeo Hr Hl.
    apply safe_ret; [apply kept_then|]. apply Hk; [|done]. simpl. eauto.
  - apply (work_quiet_with _ _ (λ _, True) (λ a _, size0 = Some a)); [apply lax_then|done|done|done|along_auto| |].
    + intros [[? ?] ?] a. rewrite in_shared_run. destruct size0; simpl; congruence.
    + clear t Hr. intros size t Hr _ Hs. apply safe_ret; [apply kept_then|]. by apply Hk.
Qed.

Lemma granted_open action session target0 size0 takeover stream fresh full target size t :
  wk_run k = RunOpen action session target0 size0 takeover stream fresh full →
  open_ok session target0 size0 target size t → granted k (open_call session target size takeover) (trace_of t).
Proof.
  intros Hrun Hok. unfold granted. rewrite Hrun. destruct target0 as [t0|]; simpl in Hok.
  - destruct Hok as (raw & pane & -> & Hl & Hgeo). simpl. eauto.
  - by destruct Hok as [-> ->].
Qed.

(** From the start on *)
Lemma safe_open_start {B} action session target0 size0 takeover stream fresh full target size
    (next : string → Job St string B) Q t :
  wk_run k = RunOpen action session target0 size0 takeover stream fresh full → session ∈ allowlist →
  lax Q → kept_by allowlist n Q → (∀ a t', safely n (next a) Q t') →
  running k t →
  open_ok session target0 size0 target size t
  ∧ logged (admitted_event (set_target target (wk_audit k)) action
      (VObject [("takeover", VBool takeover); ("resizeConfirmed", VBool true)])) t →
  safely n (validity_start (mkValidity n (Some stream) (wk_until k));;;
    jshared (update (store_leased stream true));;;
    jmap_err (λ e, lose (store_leased stream false);;; jthrow e)
      (jshared (call_host n (open_call session target size takeover) stream))) (then_ allowlist n next Q) t.
Proof.
  intros Hrun Hin HQ HK Hk Hr Hx. set (e := admitted_event _ _ _) in *.
  set (X := λ t, open_ok session target0 size0 target size t ∧ logged e t).
  assert (lasting allowlist X) as HX by (unfold X; auto).
  apply (safe_start _ k (Some stream) X); [apply lax_then|done..|]. clear t Hr Hx. intros t Hr Ha Hx.
  set (I := λ t, (running k t ∧ armed k t) ∧ X t).
  apply (safe_quiet _ _ I (λ _ _, True)); [apply lax_then| |along_auto|done|done|].
  { apply stable_and; [apply stable_and; [apply stable_running|apply stable_armed]|by apply lasting_stable]. }
  clear t Hr Ha Hx. intros _ t [[Hr Ha] [Hok He]] _.
  apply safe_map_err; [apply lax_then|apply kept_then| |].
  - intros err s. eapply safe_mono; [apply (calm_safe allowlist n (lose (store_leased stream false);;; jthrow err))|].
    + calm.
    + intros [a|err'|] s' _; [|done..]. simpl. by apply Hk.
  - apply safe_call_tail; [apply lax_then|intros; apply Hk|done|done| | |].
    + by eapply granted_open.
    + rewrite Hrun. simpl. by intros s [= <-].
    + unfold audited. rewrite Hrun. unfold logged, e, admitted_event in He. simpl in He.
      destruct target; exact He.
Qed.
Lemma safe_open_resource {B} action session target0 size0 takeover stream fresh full target size
    (next : string → Job St string B) Q t :
  wk_run k = RunOpen action session target0 size0 takeover stream fresh full →
  open_ok session target0 size0 target size t → session ∈ allowlist →
  lax Q → kept_by allowlist n Q → running k t → (∀ a t', safely n (next a) Q t') →
  safely n (jbind (open_resource k action session target size takeover stream fresh) next) Q t.
Proof.
  intros Hrun Hok Hin HQ HK Hr Hk. apply safe_bind; [done|]. unfold open_resource.
  set (Y := open_ok session target0 size0 target size).
  apply (work_quiet _ _ Y); [apply lax_then|unfold Y; auto|done|done|apply still_reserve|]. clear t Hok Hr. intros _ t Hr Hok.
  apply safe_guard; [apply lax_then|apply kept_then|intros; apply quiet_announcement|].
  apply (work_admit _ _ Y); [apply lax_then|unfold Y; auto|done|done|]. clear t Hr Hok. intros t Hr Hok He.
  set (e := admitted_event _ _ _) in *. set (X := λ t, Y t ∧ logged e t).
  assert (lasting allowlist X) as HX by (unfold X, Y; auto).
  apply (work_check _ _ X); [apply lax_then|done..|]. clear t Hr Hok He. intros t Hr Hx.
  destruct fresh as [fresh|].
  - apply (work_quiet _ _ X); [apply lax_then|done|done|done|along_auto|].
    intros _ t' Hr' Hx'. by eapply safe_open_start.
  - apply safe_bind; [apply lax_then|]. intros s Hrel. simpl. set (I := λ t, running k t ∧ X t).
    destruct (I_relies (relies n) I ltac:(by apply stable_and; [apply stable_running|apply lasting_stable]) t s (conj Hr Hx) Hrel)
      as [Hrs Hxs]. by eapply safe_open_start.
Qed.

Lemma safe_open action session target size takeover stream fresh full t :
  wk_run k = RunOpen action session target size takeover stream fresh full → running k t →
  safely n (run_open allowlist rfc3339 k action session target size takeover stream fresh full) (λ _ _, True) t.
Proof.
  intros Hrun Hr. unfold run_open. apply safe_bind; [done|].
  apply safe_guard; [apply lax_then|apply kept_then|intros; apply quiet_captured|].
  apply (work_check _ _ (λ _, True)); [apply lax_then|done..|]. clear t Hr. intros t Hr _.
  apply (work_running _ _ (λ _, True)); [apply lax_then|done..|]. clear t Hr. intros Hin _ t Hr _.
  apply safe_open_target; [apply lax_then|done|]. clear t Hr. intros target' size' t Hok Hr.
  eapply safe_open_resource; [done|done|done|apply lax_then|apply kept_then|done|].
  clear t Hr Hok. intros resource t. apply safe_ret; [apply kept_then|]. cbn [then_].
  apply calm_safe. destruct full; calm.
Qed.

(** ** The closure of [pump_writes] *)
Lemma still_release l : along sstill (release_lease (P := P) (W := W) (E := string) l).
Proof.
  unfold release_lease. apply along_bind; [along_auto|]. intros s.
  destruct (release_now l (wh_jobs (gt_whole (sh_gate s)))) as [[resource|] jobs]; along_auto.
Qed.
Lemma safe_run_work t : running k t → safely n (run_work allowlist rfc3339 k) (λ _ _, True) t.
Proof.
  intros Hr. unfold run_work. destruct (wk_run k) eqn:Hrun;
    [by eapply safe_agent|by eapply safe_terminal|by eapply safe_open].
Qed.
Lemma safe_handoff handoff t : running k t →
  safely n (jfor_each handoff (λ l : Z * Lease, jshared (release_lease (P := P) (W := W) (E := string) l.2))) (λ _ s, running k s) t.
Proof.
  intros Hr. apply (steady_jfor_each _ _ (running k)); [apply stable_running| |done]. intros l.
  apply steady_jcall; [apply stable_running|]. intros s Hs. pose proof (quiet_shared _ s (still_release l.2)) as Hq.
  split; [by apply quiet_guarantees|]. by eapply stable_running; [|apply quiet_relies].
Qed.
Lemma safe_write_job handoff t : running k t →
  safely n (write_job allowlist rfc3339 other k handoff) (λ _ _, True) t.
Proof.
  intros Hr. unfold write_job. apply safe_bind; [done|].
  eapply (safe_mono _ _ _ (λ _ s, running k s)); [by apply safe_handoff|].
  clear t Hr. intros [[]|e|] t Hr; [|done..]. cbn [then_].
    apply safe_map_err; [done|done| |].
    + intros code s. apply calm_safe. calm.
    + apply safe_map_err; [done|done| |by apply safe_run_work].
      intros code s. apply calm_safe. unfold started_code. calm.
Qed.
End Work.

(** ** Reads *)
Lemma still_either {A} (r : string + A) : along sstill (of_either (S := Shared P * W) r).
Proof. destruct r; unfold of_either; along_auto. Qed.
Hint Resolve still_either : stepping.
Lemma calm_port n {A} session (m : M P string A) : calmly n (port_call allowlist session m).
Proof. unfold port_call. calm. Qed.
Lemma calm_observe n session target stream : calmly n (read_observe allowlist session target stream).
Proof. unfold read_observe, read_active. calm; apply calm_port. Qed.
Lemma calm_events n session stream : calmly n (read_events allowlist session stream).
Proof. unfold read_events, read_active. calm; try apply calm_port. Qed.
Lemma still_active stream : along sstill (read_active (P := P) (W := W) stream).
Proof. unfold read_active. along_auto. Qed.
Lemma calm_run n run stream : calmly n (read_run allowlist json_from_str run stream).
Proof.
  pose proof still_active.
  destruct run; unfold read_run, read_open; calm; (apply calm_observe || apply calm_events).
Qed.
Lemma calm_read_job n run stream : calmly n (read_job allowlist json_from_str run stream).
Proof.
  unfold read_job. apply steady_jbind; [done| |intros out; calm].
  apply calm_guard; [|apply calm_run]. intros [[r s] w]. split; [|done]. split; [|by apply reflexivity].
  by destruct stream.
Qed.
End Open.
