(* ===== verification/Truthful.v ===== *)
(** * [write_bridge.rs]: a write answered as dropped did not reach the host

    What the result of a write's closure says of the calls that were made: an error
    before the call is one of a work that was not called, the host's own errors are
    not those of a dropped write, and [started_code] asks the cell that was stored
    before the call. *)
From stdpp Require Import base gmap strings list relations.
From Stdlib Require Import ZArith Lia Sorted.
From S2P Require Import Prelude Steps Rust Externals Clock Devices Admin Events World.
From S2P Require Import Pairing Webauthn Session Authorize Gateway WriteAudit Jobs Herdr HerdrFacts Push GitBridge Control.
From S2P Require Import Http Wire Rpc Threads Growing Streams Calls WriteBridge ReadBridge Still Peer PeerRely CallsSafe CallsOpen.
Local Open Scope Z_scope.

(** The codes with which a write is answered that was not started. *)
Definition dropped_code (code : string) : Prop := ∃ input, code = outcome_code input false.
Lemma dropped_codes code : dropped_code code → code = "write-dropped" ∨ code = "input-dropped".
Proof. intros [[|] ->]; auto. Qed.
Lemma dropped_unknown input : ¬ dropped_code (outcome_code input true).
Proof. intros [[|] Hc]; by destruct input. Qed.

Section Truth.
Context `{Base64, Json, Crypto, Http, Tokio, Budgets, !Webauthn Transport, World W, !WorldLaws W}.
Context `{HerdrHost P, !GitHost P}.
(** A call of the host never fails with the bridge's own code for a dropped write. *)
Definition host_truthful : Prop := ∀ c sink (p : P), (host_write c sink p).1 ≠ Err "write-dropped".
Context (allowlist : gset string) (rfc3339 : Timestamp → string) (json_from_str : string → option Value).
Context (other : Audits * W → Audits * W).
Hypothesis other_grows : ∀ x, wgrow x (other x).
Abbreviation St := ((Reads * Shared P) * W)%type.
Implicit Types t : St.
Abbreviation relies := (relies (P := P) (W := W) allowlist).
Abbreviation shared_m E A := (M (Shared P * W) E A).
Abbreviation ends n := (safe (relies n) (λ _ _ : St, True)).

Definition uncalled (n : Z) t : Prop := n ∉ calls_of (trace_of t).
Lemma uncalled_rely n t t' : uncalled n t → relies n t t' → uncalled n t'.
Proof.
  intros Hu (o & Ho & _ & Hg) Hn. unfold uncalled in *.
  destruct (g_trace _ _ _ _ Hg) as [Ht|(e & Ht & He)]; rewrite Ht in Hn; [done|].
  rewrite calls_app in Hn. apply elem_of_app in Hn as [Hn|Hn]; [done|].
  destruct e; try by apply not_elem_of_nil in Hn. apply list_elem_of_singleton in Hn as ->. by destruct He.
Qed.

(** ** The results of a closure *)

(** A failure as dropped is of a work that was not called. *)
Definition honest (n : Z) {A} (r : outcome string A) t : Prop := r = Err "write-dropped" → uncalled n t.
Definition other_code {A} (r : outcome string A) t : Prop := r ≠ Err "write-dropped".
Lemma honest_rely n {A} (r : outcome string A) t t' : honest n r t → rtc (relies n) t t' → honest n r t'.
Proof. intros Hh Hr He. eapply I_relies; [apply uncalled_rely|by apply Hh|done]. Qed.

(** The answer that it is dropped is given of a write that was not called. *)
Definition truthful (n : Z) {A} (r : outcome string A) t : Prop :=
  ∀ code, r = Err code → dropped_code code → uncalled n t.
Lemma truthful_rely n {A} (r : outcome string A) t t' : truthful n r t → rtc (relies n) t t' → truthful n r t'.
Proof. intros Hh Hr code He Hc. eapply I_relies; [apply uncalled_rely|by eapply Hh|done]. Qed.
Lemma uncalled_truthful (n : Z) {A} (r : outcome string A) t : uncalled n t → truthful n r t.
Proof. by intros Ht code _ _. Qed.

Section Rules.
Context (n : Z).
Abbreviation early := (steady (relies n) (λ _ _ : St, True) (uncalled n)).

Lemma early_shared {A} (m : shared_m string A) :
  (∀ t, notes allowlist n t (in_shared m t).2) → early (jshared m).
Proof.
  intros Hm. apply steady_jcall; [apply uncalled_rely|]. intros t Ht. split; [done|]. unfold uncalled in *.
  destruct (Hm t) as [[Hs _]|(e & He & (_ & _ & _ & Htr & _) & _)].
  - destruct t as [[r s] w], (in_shared m _).2 as [[r' s'] w']. destruct Hs as [Hc _]. injection Hc. intros Hx.
    intros. unfold trace_of in *. cbn [fst snd] in *. congruence.
  - rewrite Htr, calls_app. destruct e; try done; simpl; by rewrite app_nil_r.
Qed.
Lemma early_quiet {A} (m : shared_m string A) : along sstill m → early (jshared m).
Proof. intros Hm. apply early_shared. intros t. left. by apply quiet_shared. Qed.
Lemma early_bind {A B} (m : Job St string A) (k : A → Job St string B) t :
  early m → (∀ a t, uncalled n t → ends n (k a) (honest n) t) → uncalled n t → ends n (jbind m k) (honest n) t.
Proof.
  intros Hm Hk Ht. apply safe_tbind. eapply safe_mono; [by apply Hm|].
  intros [a|e|] s Hs; [by apply Hk|intros s' Hr _; by eapply I_relies; [apply uncalled_rely|..]..].
Qed.
Lemma late {A} (m : Job St string A) t : ends n m other_code t → ends n m (honest n) t.
Proof. intros Hm. eapply safe_mono; [exact Hm|]. by intros r s Ho ->. Qed.
Lemma late_bind {A B} (m : Job St string A) (k : A → Job St string B) t :
  ends n m (honest n) t → (∀ a t, ends n (k a) other_code t) → ends n (jbind m k) (honest n) t.
Proof.
  intros Hm Hk. apply safe_tbind. eapply safe_mono; [exact Hm|].
  intros [a|e|] s Hs; [by apply late, Hk|intros s' Hr; eapply honest_rely; [|exact Hr]..]; [|done].
  intros [= ->]. by apply Hs.
Qed.
Lemma honest_finally {A} f (m : Job St string A) t :
  (∀ t, quiet_step t (f t)) → ends n m (honest n) t → ends n (jfinally f m) (honest n) t.
Proof.
  intros Hf Hm. apply safe_tbind. eapply safe_mono; [exact Hm|]. intros r s Hs s' Hr. split; [done|].
  intros s2 Hr2. eapply honest_rely; [|exact Hr2]. intros He.
  assert (uncalled n s') as Hu by (eapply I_relies; [apply uncalled_rely|by apply Hs|done]).
  eapply uncalled_rely; [exact Hu|]. apply quiet_relies, Hf.
Qed.
Lemma honest_guard {A} f (m : Job St string A) t :
  (∀ t, quiet_step t (f t)) → ends n m (honest n) t → ends n (jguard f m) (honest n) t.
Proof.
  intros Hf Hm. apply safe_tbind. eapply safe_mono; [exact Hm|]. intros r s Hs.
  assert (∀ s', rtc (relies n) s s' → ∀ s2, rtc (relies n) (f s') s2 → honest n r s2) as Hfail.
  { intros s' Hr s2 Hr2. eapply honest_rely; [|exact Hr2]. intros He.
    assert (uncalled n s') as Hu by (eapply I_relies; [apply uncalled_rely|by apply Hs|done]).
    eapply uncalled_rely; [exact Hu|]. apply quiet_relies, Hf. }
  destruct r as [a|e|]; intros s' Hr; [by eapply honest_rely|split; [done|intros s2 Hr2; by eapply Hfail]..].
Qed.

(** Steps and closures that never fail so, whatever the state *)
Lemma other_ret {A} (a : A) t : ends n (jret a) other_code t.
Proof. by intros s' _. Qed.
Lemma other_throw {A} e t : e ≠ "write-dropped" → ends n (jthrow (A := A) e) other_code t.
Proof. intros He s' _ [= ->]. done. Qed.
Lemma other_shared {A} (m : shared_m string A) t :
  (∀ t, (in_shared m t).1 ≠ Err "write-dropped") → ends n (jshared m) other_code t.
Proof. intros Hm s _. split; [done|]. intros s' _. apply Hm. Qed.
Lemma other_bind {A B} (m : Job St string A) (k : A → Job St string B) t :
  ends n m other_code t → (∀ a t, ends n (k a) other_code t) → ends n (jbind m k) other_code t.
Proof.
  intros Hm Hk. apply safe_tbind. eapply safe_mono; [exact Hm|].
  intros [a|e|] s Hs; [apply Hk|intros s' _; unfold other_code in *; congruence..].
Qed.
Lemma other_map_err {A} (f : string → Job St string A) (m : Job St string A) t :
  ends n m other_code t → (∀ e t, e ≠ "write-dropped" → ends n (f e) other_code t) → ends n (jmap_err f m) other_code t.
Proof.
  intros Hm Hf. apply safe_tbind. eapply safe_mono; [exact Hm|].
  intros [a|e|] s Hs; [by intros s' _|apply Hf; unfold other_code in *; congruence|by intros s' _].
Qed.
Lemma other_update f t : ends n (jshared (update f)) other_code t.
Proof. apply other_shared. by intros [[r s] w]. Qed.

(** ** The closures of writes *)
Hypothesis truthful_host : host_truthful.
Lemma other_call c sink t : ends n (jshared (call_host n c sink)) other_code t.
Proof.
  apply other_shared. intros [[r s] w]. rewrite in_shared_run. unfold call_host, bind, update, modify, in_port, zoom.
  cbn [fst snd]. pose proof (truthful_host c sink (gt_port (sh_gate (trace (Called n c) s)))) as Ht.
  by destruct (host_write c sink _).
Qed.
Lemma early_start v : vd_work v = n → (∀ t, notes allowlist n t (in_shared (validity_check v) t).2) →
  early (validity_start v).
Proof.
  intros Hv Hm. unfold validity_start. rewrite Hv. apply steady_jbind; [apply uncalled_rely| |intros ?; by apply early_shared].
  apply steady_jcall; [apply uncalled_rely|]. intros t Ht. split; [done|]. unfold uncalled in *.
  by destruct (start_run n t) as (_ & _ & -> & _).
Qed.
End Rules.

Section Work.
Context (k : Work).
Let n := wk_number k.
Hypothesis truthful_host : host_truthful.
Abbreviation early := (steady (relies n) (λ _ _ : St, True) (uncalled n)).

Lemma early_check state : early (jshared (validity_check (mkValidity n state (wk_until k)))).
Proof. apply early_shared. intros t. apply check_notes. Qed.
Lemma early_begin state : early (validity_start (mkValidity n state (wk_until k))).
Proof. apply early_start; [done|]. intros t. apply check_notes. Qed.
Lemma early_snapshot session : early (jshared (call_snapshot n session)).
Proof. apply early_shared. intros t. apply snapshot_notes. Qed.
Lemma early_either {A} (r : string + A) : early (jshared (of_either r)).
Proof. apply early_quiet. destruct r; unfold of_either; along_auto. Qed.
Lemma early_admit u action stream op : early (op_admit n u action stream op).
Proof.
  destruct op; unfold op_admit; [|apply early_quiet; along_auto..].
  apply steady_jbind; [apply uncalled_rely|apply early_quiet; along_auto|]. intros ?.
  apply early_shared. intros t. apply bucket_notes.
Qed.
Lemma early_target session target size : early (open_target n session target size).
Proof.
  unfold open_target. destruct target as [target|].
  - apply steady_jbind; [apply uncalled_rely|apply early_snapshot|intros raw].
    apply steady_jbind; [apply uncalled_rely|apply early_either|intros [[? ?] ?]]. apply steady_jret, uncalled_rely.
  - apply steady_jbind; [apply uncalled_rely|apply early_quiet; along_auto|intros ?]. apply steady_jret, uncalled_rely.
Qed.
Hint Resolve early_check early_begin early_snapshot early_either early_admit early_target : core.

Lemma honest_agent action session target message t : uncalled n t →
  ends n (run_agent allowlist k action session target message) (honest n) t.
Proof.
  apply early_bind; [done|intros _ ?]. apply early_bind; [apply early_quiet; along_auto|intros _ ?].
  apply early_bind; [done|intros raw ?]. apply early_bind; [done|intros pane ?].
  apply early_bind; [apply early_quiet; along_auto|intros _ ?]. apply early_bind; [done|intros _ ? _].
  apply late_bind; [by apply late, other_call|intros a ?]. apply other_ret.
Qed.
Lemma honest_terminal action resource stream op t : uncalled n t →
  ends n (run_terminal k action resource stream op) (honest n) t.
Proof.
  intros Ht. apply honest_finally; [intros; apply quiet_bucket|]. revert Ht.
  apply early_bind; [done|intros _ ?]. apply early_bind; [done|intros _ ?].
  apply early_bind; [done|intros _ ? _].
  apply late_bind; [by apply late, other_call|intros a ?]. apply other_ret.
Qed.
Lemma honest_resource action session target size takeover stream fresh t : uncalled n t →
  ends n (open_resource k action session target size takeover stream fresh) (honest n) t.
Proof.
  apply early_bind; [by apply early_quiet, still_reserve|intros _ ? Ht].
  apply honest_guard; [intros; apply quiet_announcement|]. revert Ht.
  apply early_bind; [apply early_quiet; along_auto|intros _ ?]. apply early_bind; [done|intros _ ?].
  apply early_bind.
  { destruct fresh; [apply early_quiet; along_auto|apply steady_jret, uncalled_rely]. }
  intros _ ?. apply early_bind; [done|intros _ ?]. apply early_bind; [apply early_quiet; along_auto|intros _ ? _].
  apply late, other_map_err; [by apply other_call|]. intros e s He.
  apply other_bind; [apply other_update|intros ? ?]. by apply other_throw.
Qed.
Lemma honest_open action session target size takeover stream fresh full t : uncalled n t →
  ends n (run_open allowlist rfc3339 k action session target size takeover stream fresh full) (honest n) t.
Proof.
  intros Ht. apply late_bind.
  - apply honest_guard; [intros; apply quiet_captured|]. revert Ht. apply early_bind; [done|intros _ ?].
    apply early_bind; [apply early_quiet; along_auto|intros _ ?].
    apply early_bind; [done|intros [target' size'] ? Ht].
    apply late_bind; [by apply honest_resource|intros a ?]. apply other_ret.
  - clear t Ht. intros [[target' size'] resource] t. apply other_bind.
    + apply other_shared. intros [[r s] w]. rewrite in_shared_run. unfold bind, get, gets, clock_read, lift. cbn [fst snd].
      destruct (life_active _); [|done]. by destruct (world_now w).
    + intros [|] ?; [apply other_ret|].
      apply other_bind; [apply other_update|intros _ ?]. apply other_bind; [|intros _ ?; by apply other_throw].
      apply other_shared. by intros [[r s] w].
Qed.
Lemma honest_work t : uncalled n t → ends n (run_work allowlist rfc3339 k) (honest n) t.
Proof.
  intros Ht. unfold run_work. destruct (wk_run k);
    [by apply honest_agent|by apply honest_terminal|by apply honest_open].
Qed.

(** ** [started_code] and the closure of [pump_writes] *)
Abbreviation safely := (safe (relies n) (guarantees (P := P) (W := W) allowlist n)).


Lemma truthful_code code t : history allowlist t → (code = "write-dropped" → uncalled n t) →
  ends n (started_code k code) (truthful n) t.
Proof.
  intros Hh Hc. unfold started_code. case_bool_decide as Hd.
  - intros s Hr. split; [done|].
    assert (history allowlist s) as Hs.
    { clear -Hh Hr. induction Hr as [|x y z Hxy _ IH]; [done|]. destruct Hxy as (o & _ & _ & Hg).
      apply IH. by eapply history_step. }
    destruct s as [[r sh] w]. intros s' Hr' code' [= <-] Hdrop. eapply I_relies; [apply uncalled_rely| |exact Hr'].
    intros Hin. destruct (h_called _ _ Hs _ Hin) as [Hst _]. unfold is_started in Hst. cbn [fst snd] in Hst.
    unfold n in Hst. rewrite Hst in Hdrop. by apply dropped_unknown in Hdrop.
  - intros s Hr code' [= <-] Hdrop. eapply I_relies; [apply uncalled_rely| |exact Hr]. apply Hc.
    by apply dropped_codes in Hdrop as [->| ->].
Qed.

(** [rejected] never fails, so the code that was given is the one that is returned. *)
Lemma rejected_result u t : ∀ e, (in_shared (P := P) (W := W) (E := string) (in_audits (rejected other u)) t).1 ≠ Err e.
Proof.
  intros e. destruct t as [[r s] w]. rewrite in_shared_run. unfold in_audits, in_whole, zoom. cbn [fst snd].
  unfold rejected, rejection_summary, in_deferred, audit_event, meanwhile, bind, clock_read, try_emit, lift, zoom, get, gets, update, modify, ret, when.
  destruct (world_now w) as [now w1]. cbn [fst snd].
  destruct (other _) as [a w2]. cbn [fst snd]. match goal with |- context [if ?c then _ else _] => destruct c; [|done] end.
  cbn [fst snd]. destruct (world_now w2) as [now2 w3]. cbn [fst snd]. destruct (world_emit _ w3) as [ok w4]. by destruct ok.
Qed.
Lemma truthful_rejected {A} u code t : (dropped_code code → uncalled n t) →
  ends n (jshared (in_audits (rejected other u));;; jthrow (A := A) code) (truthful n) t.
Proof.
  intros Hc s Hr. split; [done|]. pose proof (rejected_result u s) as Hres.
  destruct (in_shared _ s).1 as [[]|e|] eqn:He; [|by destruct (Hres e)|by intros s' _ code'].
  intros s' Hr' code' [= <-] Hd.
  pose proof (quiet_shared (in_audits (P := P) (rejected (E := string) other u)) s ltac:(pose proof @wgrow_rejected; along_auto)) as Hq.
  eapply I_relies; [apply uncalled_rely| |exact Hr'].
  eapply uncalled_rely; [|by apply quiet_relies].
  eapply I_relies; [apply uncalled_rely|by apply Hc|exact Hr].
Qed.

(** What [safe] says and what [history] says hold together. *)
Lemma safe_history {A} (m : Job St string A) Q t :
  safely m Q t → history allowlist t → safely m (λ r s, history allowlist s) t.
Proof.
  revert t. induction m as [a|B m next IH]; intros t Hs Hh; simpl in *.
  - intros s' Hr. clear Hs. induction Hr as [|x y z Hxy _ IHr]; [done|]. destruct Hxy as (o & _ & _ & Hg).
    apply IHr. by eapply history_step.
  - intros s' Hr. destruct (Hs s' Hr) as [HG Hk]. split; [done|]. eapply IH; [done|].
    eapply history_step; [|exact HG]. clear -Hh Hr. induction Hr as [|x y z Hxy _ IHr]; [done|].
    destruct Hxy as (o & _ & _ & Hg). apply IHr. by eapply history_step.
Qed.
Lemma safe_both {A} G G' (m : Job St string A) Q Q' t :
  safe (relies n) G m Q t → safe (relies n) G' m Q' t → safe (relies n) G m (λ r s, Q r s ∧ Q' r s) t.
Proof.
  revert t. induction m as [a|B m next IH]; intros t Hs Hs'; simpl in *; [by auto|].
  intros s Hr. destruct (Hs s Hr) as [HG Hk]. destruct (Hs' s Hr) as [_ Hk']. split; [done|]. by apply IH.
Qed.
Lemma safe_ends {A} G (m : Job St string A) Q t : safe (relies n) G m Q t → ends n m Q t.
Proof.
  revert t. induction m as [a|B m next IH]; intros t Hs; simpl in *; [done|].
  intros s Hr. destruct (Hs s Hr) as [_ Hk]. split; [done|]. by apply IH.
Qed.
Lemma running_uncalled t : running allowlist k t → uncalled n t.
Proof. intros Hr Hin. apply (rn_above _ _ _ Hr) in Hin. unfold n in *. lia. Qed.

Lemma truthful_write handoff t : running allowlist k t →
  ends n (write_job allowlist rfc3339 other k handoff) (truthful n) t.
Proof.
  intros Hr. unfold write_job. apply safe_tbind. eapply safe_mono.
  { apply safe_ends with (guarantees allowlist n). by apply safe_handoff. }
  clear t Hr. intros r t Hr. pose proof (running_uncalled _ Hr) as Hu.
  destruct r as [[]|e|]; [|intros s Hs; eapply truthful_rely; [by apply uncalled_truthful|exact Hs]..].
  apply safe_tbind. eapply (safe_mono _ _ _ (truthful n)).
  2:{ intros [a|e|] s Hs; [by intros s' Hs' code|apply truthful_rejected; by intros Hd; eapply Hs|by intros s' Hs' code]. }
  apply safe_tbind. eapply safe_mono.
  { apply safe_both with (λ _ _, True); [|by apply honest_work].
    apply safe_ends with (guarantees allowlist n). eapply safe_history; [|apply Hr].
    by apply safe_run_work. }
  intros [a|e|] s [Hh Hhon]; [by intros s' Hs' code| |by intros s' Hs' code].
  apply truthful_code; [done|]. intros ->. by apply Hhon.
Qed.
End Work.

(** What holds under a hypothesis holds of the results under it. *)
Lemma ends_under {A} (φ : Prop) n (m : Job St string A) Q t :
  (φ → ends n m Q t) → ends n m (λ r s, φ → Q r s) t.
Proof.
  revert t. induction m as [a|B m next IH]; intros t Hs; simpl in *.
  - intros s Hr Hφ. by apply Hs.
  - intros s Hr. split; [done|]. apply IH. intros Hφ. by apply Hs.
Qed.

(** ** The answers of the task *)

(** Whatever the others do, as long as the trace keeps what it has. *)
Definition recalls t t' : Prop := ∀ e, e ∈ trace_of t → e ∈ trace_of t'.
Lemma rtc_recalls t t' : rtc recalls t t' → recalls t t'.
Proof. intros Hr e. induction Hr; auto. Qed.
Lemma kept_trace {E A} (m : shared_m E A) t : along sstill m → trace_of (in_shared m t).2 = trace_of t.
Proof.
  intros Hm. destruct (quiet_shared m t Hm) as [[Hc _] _]. destruct t as [[r s] w], (in_shared m _).2 as [[r' s'] w'].
  injection Hc. intros Ht. intros. exact Ht.
Qed.
(** A cancellation answers the code of what it found when it looked. *)
Lemma cancel_answer p t : safe recalls (λ _ _, True) (pending_cancelled (P := P) (E := unit) other p)
  (λ r t', ∀ v, r = Ok v → ∃ unknown, Cancelled p.(pw_number) unknown ∈ trace_of t'
     ∧ v = write_error p.(pw_id) p.(pw_stream) (outcome_code p.(pw_input) unknown)) t.
Proof.
  intros t1 _. split; [done|].
  replace (in_shared (E := unit) (update (store_cancelled (pw_number p))) t1).1 with (@Ok unit unit tt)
    by (destruct t1 as [[? ?] ?]; reflexivity).
  intros t2 _. split; [done|]. destruct t2 as [[r s] w]. rewrite in_shared_run.
  unfold load_outcome, bind, get, gets, update, modify, ret. cbn [fst snd].
  set (unknown := wc_started (work_cell (pw_number p) s)).
  set (t2 := (r, trace (Cancelled (pw_number p) unknown) s, w) : St).
  assert (Cancelled (pw_number p) unknown ∈ trace_of t2) as Hin
    by (apply elem_of_app; right; by apply list_elem_of_singleton).
  intros t3 Hr. split; [done|]. apply rtc_recalls in Hr. apply Hr in Hin.
  pose proof (kept_trace (E := unit) (in_audits (P := P) (cancelled other p.(pw_audit) p.(pw_input)
    (if unknown then "unknown" else "dropped"))) t3) as Hk.
  assert (along sstill (in_audits (P := P) (cancelled (E := unit) other p.(pw_audit) p.(pw_input)
    (if unknown then "unknown" else "dropped")))) as Hs by (unfold cancelled; pose proof @wgrow_emit_or_count; along_auto).
  specialize (Hk Hs). rewrite <- Hk in Hin.
  destruct (in_shared _ t3) as [[[]|e|] t4]; cbn [fst snd] in *; intros t5 Hr5 v [= <-].
  exists unknown. split; [|done]. apply rtc_recalls in Hr5. by apply Hr5.
Qed.

Abbreviation anyhow := (safe (λ _ _ : St, True) (λ _ _ : St, True)).
Lemma anyhow_bind {E A B} (m : Job St E A) (k : A → Job St E B) (Q : outcome E B → St → Prop) t :
  (∀ s, (∀ e, Q (Err e) s) ∧ Q Panic s) → (∀ a s, anyhow (k a) Q s) → anyhow (jbind m k) Q t.
Proof.
  intros HQ Hk. apply safe_tbind. revert t. induction m as [r|C m next IH]; intros t; simpl.
  - intros s _. destruct r; [apply Hk|intros s' _; apply HQ..].
  - intros s _. by split.
Qed.
(** What is told of a call that failed is its code. *)
Lemma finish_answer c code t : co_result c = inl code →
  anyhow (finish (P := P) (W := W) (E := unit) other c)
    (λ r _, ∀ l, r = Ok l → l = [] ∨ l = [finish_failure c code]) t.
Proof.
  intros Hc. unfold finish. apply anyhow_bind; [done|]. intros late s. apply anyhow_bind; [done|]. intros sh s'.
  rewrite Hc. destruct (late || _).
  - apply anyhow_bind; [done|]. intros _ s2 s3 _ l [= <-]. by left.
  - unfold finish_failed. apply anyhow_bind; [done|]. intros _ s2 s3 _ l [= <-]. by right.
Qed.
(** The completion of a call of the executor has the result that the thread left. *)
Lemma complete_answer i t c t' a n : complete (P := P) (W := W) (E := unit) i t = (Ok (Some c), t') →
  rd_completed (reads_of t) !! i = Some a → aw_source a = FromJob n →
  ∃ cell r, jobs_of t !! n = Some cell ∧ jc_phase cell = JobDone r ∧ co_result c = received r
    ∧ co_id c = aw_id a ∧ co_stream c = aw_stream a ∧ co_write c = aw_write a.
Proof.
  destruct t as [[r s] w]. unfold complete, reads_get, shared_get, gets, bind, reads_of, jobs_of. cbn [fst snd].
  intros Hc Ha Hs. rewrite Ha in Hc. unfold receive in Hc. rewrite Hs in Hc.
  destruct (sh_jobs s !! n) as [cell|] eqn:Hj; [|done]. simpl in Hc.
  destruct (jc_phase cell) as [| |res] eqn:Hp; [done..|]. cbn [ret] in Hc.
  destruct (take_awaited (E := unit) i a _) as [[[]| |] t2]; [|done..]. injection Hc as <- _.
  by exists cell, res.
Qed.
End Truth.
