(* ===== verification/PeerInv.v ===== *)
(** * The invariant of a peer's task

    [inv l] relates the works [l] that the task still holds, in its channel or in a
    local variable, to the jobs and the trace: numbers grow along [l], no job and no
    call has one of them, all calls made were for smaller ones, and a write is with
    the executor only while [active]. *)

From stdpp Require Import base gmap strings list relations.
From Stdlib Require Import ZArith Lia Sorted.
From S2P Require Import Prelude Steps Rust Externals Clock Devices Admin Events World.
From S2P Require Import Pairing Webauthn Session Authorize Gateway WriteAudit Jobs Herdr Push GitBridge Control.
From S2P Require Import Http Wire Rpc Threads Growing Streams Calls WriteBridge ReadBridge Still Peer PeerRely CallsSafe.

Local Open Scope Z_scope.

Definition job_number (a : Awaited) : option Z :=
  match a.(aw_source) with FromJob n => Some n | FromPush _ => None end.

Lemma sorted_sublist (l l' : list Z) : l `sublist_of` l' → StronglySorted Z.lt l' → StronglySorted Z.lt l.
Proof.
  induction 1 as [|x l l' Hsub IH|x l l' Hsub IH]; intros Hs; [done| |].
  - apply StronglySorted_inv in Hs as [Hs Hx]. constructor; [by apply IH|].
    rewrite Forall_forall in Hx |- *. intros y Hy. apply Hx.
    eapply elem_of_submseteq; [done|by apply sublist_submseteq].
  - apply StronglySorted_inv in Hs as [Hs _]. by apply IH.
Qed.
Lemma sorted_last (l : list Z) n : StronglySorted Z.lt (l ++ [n]) → ∀ m, m ∈ l → m < n.
Proof.
  induction l as [|x l IH]; intros Hs m Hm; [by apply not_elem_of_nil in Hm|].
  apply StronglySorted_inv in Hs as [Hs Hx]. apply elem_of_cons in Hm as [->|Hm]; [|by apply IH].
  rewrite Forall_forall in Hx. apply Hx, elem_of_app. right. by left.
Qed.

Section Inv.
Context `{Base64, Json, Crypto, Http, Tokio, !TokioLaws _, Budgets, !Webauthn Transport, World W, !WorldLaws W}.
Context `{HerdrHost P, !GitHost P}.
Context (allowlist : gset string).
Abbreviation St := ((Reads * Shared P) * W)%type.
Implicit Types t : St.
Abbreviation step := (gstep (P := P) (W := W) allowlist).

Definition task_relies t t' : Prop := ∃ o, o ≠ OfTask ∧ step o t t'.
Definition task_guar : St → St → Prop := step OfTask.
Abbreviation tsafe := (safe task_relies task_guar).

Definition queue_of t : list Work := chan_queue (qu_channel (rd_writes (reads_of t))).
Definition active_of t : bool := qu_active (rd_writes (reads_of t)).
Definition awaited_of t : list Awaited := rd_completed (reads_of t).
Definition next_of t : Z := rd_next_number (reads_of t).
Definition no_write t : Prop := ∀ n, ¬ write_cell n t.

Record inv (l : list Work) t : Prop := mkInv {
  v_history : history allowlist t;
  v_sorted : StronglySorted Z.lt (wk_number <$> l);
  v_admitted k : k ∈ l → Entered k ∈ trace_of t;
  v_called k m : k ∈ l → m ∈ calls_of (trace_of t) → m < wk_number k;
  v_cells k m : k ∈ l → write_cell m t → m < wk_number k;
  v_fresh k : k ∈ l → jobs_of t !! wk_number k = None;
  v_next k : Entered k ∈ trace_of t → wk_number k < next_of t;
  v_jobs n : is_Some (jobs_of t !! n) → n < next_of t;
  v_called_cells n m : m ∈ calls_of (trace_of t) → write_cell n t → m ≤ n;
  v_one m m' : write_cell m t → write_cell m' t → m = m';
  v_active : active_of t = false → no_write t;
  v_awaited a n : a ∈ awaited_of t → aw_source a = FromJob n →
    ∃ c, jobs_of t !! n = Some c ∧ jc_write c = aw_write a;
  v_push a q : a ∈ awaited_of t → aw_source a = FromPush q → aw_write a = false;
  v_nodup : NoDup (omap job_number (awaited_of t));
}.
(** The task at rest: what it holds is what its channel holds. *)
Definition ready t : Prop := inv (queue_of t) t.
Definition holds (l q : list Work) t : Prop := inv l t ∧ queue_of t = q.

Lemma ready_holds t : ready t ↔ ∃ q, holds q q t.
Proof. split; [intros Hr; by exists (queue_of t)|by intros (q & Hi & <-)]. Qed.

Lemma inv_sublist l l' t : l `sublist_of` l' → inv l' t → inv l t.
Proof.
  intros Hs Hi. assert (∀ k, k ∈ l → k ∈ l') as Hin
    by (intros k Hk; eapply elem_of_submseteq; [done|by apply sublist_submseteq]).
  destruct Hi. constructor; auto.
  - eapply sorted_sublist; [|done]. by apply fmap_sublist.
Qed.

(** ** What the others do leaves it *)

Lemma cell_back o t t' n : step o t t' → o ≠ OfTask →
  ∀ c, jobs_of t' !! n = Some c → ∃ c', jobs_of t !! n = Some c' ∧ jc_write c' = jc_write c.
Proof.
  intros Hg Ho c Hc. pose proof (g_jobs _ _ _ _ Hg) as Hj. destruct o as [|m|m|]; simpl in Hj; [done| | |];
    try (rewrite Hj in Hc; by exists c).
  destruct Hj as (c' & Hm & Hj). destruct (decide (n = m)) as [->|Hne].
  - exists c'. split; [done|].
    destruct Hj as [(s & _ & Hj)|(_ & [[r Hj]|[_ Hj]])]; rewrite Hj in Hc;
      rewrite ?lookup_insert_eq, ?lookup_delete_eq in Hc; by simplify_eq.
  - exists c. split; [|done].
    destruct Hj as [(s & _ & Hj)|(_ & [[r Hj]|[_ Hj]])]; rewrite Hj in Hc;
      by rewrite ?lookup_insert_ne, ?lookup_delete_ne in Hc.
Qed.
Lemma write_back o t t' n : step o t t' → o ≠ OfTask → write_cell n t' → write_cell n t.
Proof. intros Hg Ho (c & Hc & Hw). destruct (cell_back _ _ _ _ Hg Ho c Hc) as (c' & Hc' & He). exists c'. by rewrite He. Qed.

(** An awaited job stays until it is received. *)
Lemma awaited_true a n r : a ∈ rd_completed r → aw_source a = FromJob n → awaited_by n r = true.
Proof.
  intros Ha Hs. unfold awaited_by. apply existsb_exists. exists a. split; [by apply list_elem_of_In|].
  rewrite Hs. apply Z.eqb_refl.
Qed.
Lemma cell_kept o t t' a n c : step o t t' → o ≠ OfTask →
  a ∈ awaited_of t → aw_source a = FromJob n → jobs_of t !! n = Some c →
  ∃ c', jobs_of t' !! n = Some c' ∧ jc_write c' = jc_write c.
Proof.
  intros Hg Ho Ha Hs Hc. pose proof (g_jobs _ _ _ _ Hg) as Hj. destruct o as [|m|m|]; simpl in Hj; [done| | |];
    try (rewrite Hj; by exists c).
  destruct Hj as (c' & Hm & Hj). destruct (decide (n = m)) as [->|Hne].
  - simplify_eq. destruct Hj as [(s & _ & ->)|(_ & [[r ->]|[Haw _]])];
      [rewrite lookup_insert_eq; eauto..|].
    by rewrite (awaited_true a m) in Haw.
  - exists c. split; [|done].
    destruct Hj as [(s & _ & ->)|(_ & [[r ->]|[_ ->]])]; by rewrite ?lookup_insert_ne, ?lookup_delete_ne.
Qed.

(** The trace grows by at most one entry, a call only of the running write. *)
Lemma calls_back o t t' m : step o t t' → m ∈ calls_of (trace_of t') →
  m ∈ calls_of (trace_of t) ∨ (o = OfCall m ∧ write_cell m t ∧ ∀ m', m' ∈ calls_of (trace_of t) → m' < m).
Proof.
  intros Hg Hm. destruct (g_trace _ _ _ _ Hg) as [Ht|(e & Ht & He)]; rewrite Ht in Hm; [by left|].
  rewrite calls_app in Hm. apply elem_of_app in Hm as [Hm|Hm]; [by left|].
  destruct e; try by apply not_elem_of_nil in Hm. apply list_elem_of_singleton in Hm as ->.
  right. destruct He as (? & ? & _ & _ & ? & _). done.
Qed.
Lemma admitted_back o t t' k : step o t t' → o ≠ OfTask → Entered k ∈ trace_of t' → Entered k ∈ trace_of t.
Proof.
  intros Hg Ho Hk. destruct (g_trace _ _ _ _ Hg) as [Ht|(e & Ht & He)]; rewrite Ht in Hk; [done|].
  apply elem_of_app in Hk as [Hk|Hk]; [done|]. apply list_elem_of_singleton in Hk as <-. by destruct He.
Qed.

Lemma inv_rely l t t' : inv l t → task_relies t t' → inv l t'.
Proof.
  intros Hi (o & Ho & Hg). pose proof (g_reads _ _ _ _ Hg Ho) as Hr.
  assert (next_of t' = next_of t ∧ active_of t' = active_of t ∧ awaited_of t' = awaited_of t) as (Hn & Ha & Hw)
    by (unfold next_of, active_of, awaited_of; by rewrite Hr).
  constructor; rewrite ?Hn, ?Ha, ?Hw.
  - eapply history_step; [apply Hi|done].
  - apply Hi.
  - intros k Hk. eapply trace_grows; [done|by apply (v_admitted _ _ Hi)].
  - intros k m Hk Hm. destruct (calls_back _ _ _ _ Hg Hm) as [Hm'|(_ & Hc & _)].
    + by apply (v_called _ _ Hi).
    + by apply (v_cells _ _ Hi).
  - intros k m Hk Hm. apply (v_cells _ _ Hi); [done|]. by eapply write_back.
  - intros k Hk. destruct (jobs_of t' !! wk_number k) as [c|] eqn:Hc; [|done].
    destruct (cell_back _ _ _ _ Hg Ho c Hc) as (c' & Hc' & _). by rewrite (v_fresh _ _ Hi k Hk) in Hc'.
  - intros k Hk. apply (v_next _ _ Hi). by eapply admitted_back.
  - intros n [c Hc]. destruct (cell_back _ _ _ _ Hg Ho c Hc) as (c' & Hc' & _). apply (v_jobs _ _ Hi). by exists c'.
  - intros n m Hm Hwc. apply (write_back _ _ _ _ Hg Ho) in Hwc.
    destruct (calls_back _ _ _ _ Hg Hm) as [Hm'|(_ & Hc & _)]; [by apply (v_called_cells _ _ Hi)|].
    by rewrite (v_one _ _ Hi m n).
  - intros m m' Hm Hm'. apply (v_one _ _ Hi); by eapply write_back.
  - intros Hf n Hwc. eapply (v_active _ _ Hi Hf n). by eapply write_back.
  - intros a n Hin Hs. destruct (v_awaited _ _ Hi a n Hin Hs) as (c & Hc & Hwr).
    destruct (cell_kept _ _ _ _ _ _ Hg Ho Hin Hs Hc) as (c' & Hc' & He). exists c'. by rewrite He.
  - apply Hi.
  - apply Hi.
Qed.
Lemma holds_rely l q t t' : holds l q t → task_relies t t' → holds l q t'.
Proof.
  intros [Hi Hq] Hr. split; [by eapply inv_rely|]. destruct Hr as (o & Ho & Hg). unfold queue_of.
  by rewrite (g_reads _ _ _ _ Hg Ho).
Qed.
Lemma ready_rely t t' : ready t → task_relies t t' → ready t'.
Proof. rewrite !ready_holds. intros [q Hq] Hr. exists q. by eapply holds_rely. Qed.
Lemma no_write_rely t t' : no_write t → task_relies t t' → no_write t'.
Proof. intros Hn (o & Ho & Hg) n Hw. eapply Hn. by eapply write_back. Qed.
End Inv.
