(* ===== verification/TaskSteps.v ===== *)
(** * Steps of a peer's task

    The steps that keep [inv], those that cancel a work, the turns over the channel,
    what is taken from it and sent back, and sections that admit or submit one thing. *)
From stdpp Require Import base gmap strings list relations.
From Stdlib Require Import ZArith Lia Sorted.
From S2P Require Import Prelude Steps Rust Externals Clock Devices Admin Events World Pairing.
From S2P Require Import Webauthn Session Authorize Gateway WriteAudit Jobs Herdr Push GitBridge.
From S2P Require Import Control Http Wire Rpc Threads Growing Streams Calls WriteBridge.
From S2P Require Import ReadBridge Peer Still PeerRely CallsSafe PeerInv.
Local Open Scope Z_scope.

Section Steps.
Context `{Base64, Json, Crypto, Http, Tokio, !TokioLaws _, Budgets, !Webauthn Transport, World W, !WorldLaws W}.
Context `{HerdrHost P, !GitHost P}.
Context (allowlist : gset string) (other : Audits * W → Audits * W).
Hypothesis other_grows : ∀ x, wgrow x (other x).
Abbreviation St := ((Reads * Shared P) * W)%type.
Implicit Types t : St.
Abbreviation step := (gstep (P := P) (W := W) allowlist).
Abbreviation inv := (inv (P := P) (W := W) allowlist).
Abbreviation ready := (ready (P := P) (W := W) allowlist).
Abbreviation holds := (holds (P := P) (W := W) allowlist).
Abbreviation task_relies := (task_relies (P := P) (W := W) allowlist).
Abbreviation task_guar := (task_guar (P := P) (W := W) allowlist).
Abbreviation tsafe := (safe task_relies task_guar).
Abbreviation tsteady := (steady task_relies task_guar).

(** ** Assertions of the task that cancellation and quiet steps keep *)

(** A work is cancelled, or that is recorded. *)
Record cancel_step (t t' : St) : Prop := mkCancelStep {
  cs_reads : reads_of t' = reads_of t;
  cs_jobs : jobs_of t' = jobs_of t;
  cs_calls : calls_of (trace_of t') = calls_of (trace_of t);
  cs_admitted k : Entered k ∈ trace_of t' ↔ Entered k ∈ trace_of t;
  cs_step : task_guar t t';
}.
Record closed (I : St → Prop) : Prop := mkClosed {
  cl_rely t t' : I t → task_relies t t' → I t';
  cl_still t t' : I t → still t t' → I t';
  cl_cancel t t' : I t → cancel_step t t' → I t';
}.

Lemma guar_still t t' : still t t' → task_guar t t'.
Proof. intros Hs. by apply gstep_still. Qed.
Lemma still_parts t t' : still t t' →
  queue_of t' = queue_of t ∧ active_of t' = active_of t ∧ awaited_of t' = awaited_of t ∧ next_of t' = next_of t
  ∧ jobs_of t' = jobs_of t ∧ trace_of t' = trace_of t.
Proof.
  destruct t as [[r s] w], t' as [[r' s'] w']. intros [Hc _]. unfold peer_core, reads_core, shared_core in Hc.
  simpl in Hc. unfold queue_of, active_of, awaited_of, next_of, jobs_of, trace_of, reads_of. simpl.
  injection Hc as Hq ? ? ? ? ? ?. by rewrite Hq.
Qed.

(** [inv] depends on a few parts of the state. *)
Lemma inv_same l t t' : inv l t → history allowlist t' →
  active_of t' = active_of t → awaited_of t' = awaited_of t → next_of t <= next_of t' →
  jobs_of t' = jobs_of t → calls_of (trace_of t') = calls_of (trace_of t) →
  (∀ k, Entered k ∈ trace_of t' ↔ Entered k ∈ trace_of t) → inv l t'.
Proof.
  intros Hi Hh Ha Hw Hn Hj Hc Hk.
  assert (∀ n, write_cell n t' ↔ write_cell n t) as Hcell by (intros n; unfold write_cell; by rewrite Hj).
  destruct Hi as [h1 h2 h3 h4 h5 h6 h7 h8 h9 h10 h11 h12 h13 h14].
  constructor; unfold no_write in *; rewrite ?Ha, ?Hw, ?Hj, ?Hc; try done;
    try (setoid_rewrite Hcell; done).
  - intros k. rewrite Hk. auto.
  - intros k. rewrite Hk. intros Hin. specialize (h7 k Hin). lia.
  - intros n Hin. specialize (h8 n Hin). lia.
Qed.
Lemma inv_still l t t' : still t t' → inv l t → inv l t'.
Proof.
  intros Hs Hi. pose proof (still_parts _ _ Hs) as (? & ? & ? & Hn & ? & Ht).
  eapply inv_same; try done; rewrite ?Ht, ?Hn; try done. eapply history_step; [apply Hi|by apply guar_still].
Qed.
Lemma inv_cancel l t t' : cancel_step t t' → inv l t → inv l t'.
Proof.
  intros [Hr Hj Hc Ha Hs] Hi. eapply inv_same; try done; unfold active_of, awaited_of, next_of; rewrite ?Hr; try done.
  eapply history_step; [apply Hi|done].
Qed.
Lemma closed_holds l q : closed (holds l q).
Proof.
  constructor.
  - apply holds_rely.
  - intros t t' [Hi Hq] Hs. split; [by eapply inv_still|]. by destruct (still_parts _ _ Hs) as (-> & _).
  - intros t t' [Hi Hq] Hs. split; [by eapply inv_cancel|]. unfold queue_of. by rewrite (cs_reads _ _ Hs).
Qed.
Lemma closed_ready : closed ready.
Proof.
  constructor; intros t t'; rewrite !ready_holds; intros [q Hq] Hs; exists q;
    pose proof (closed_holds q q) as Hc; first [by eapply (cl_rely _ Hc)|by eapply (cl_still _ Hc)|by eapply (cl_cancel _ Hc)].
Qed.
Lemma closed_true : closed (λ _, True).
Proof. by constructor. Qed.
Lemma closed_and I J : closed I → closed J → closed (λ t, I t ∧ J t).
Proof. intros [HI1 HI2 HI3] [HJ1 HJ2 HJ3]. constructor; intros t t' [? ?] ?; eauto. Qed.
Lemma closed_no_write : closed no_write.
Proof.
  constructor.
  - apply no_write_rely.
  - intros t t' Hn Hs n. unfold write_cell. destruct (still_parts _ _ Hs) as (_ & _ & _ & _ & -> & _). apply Hn.
  - intros t t' Hn Hs n. unfold write_cell. rewrite (cs_jobs _ _ Hs). apply Hn.
Qed.

(** ** Rules *)
Section Rules.
Context (I : St → Prop) (HI : closed I).

Lemma task_rely t t' : I t → task_relies t t' → I t'.
Proof. apply HI. Qed.
Lemma task_call {E A} (m : M St E A) : along still m → tsteady I (jcall m).
Proof.
  intros Hm. apply steady_jcall; [apply HI|]. intros t Ht.
  pose proof (along_keeps_core peer_core m t Hm) as Hs. split; [by apply guar_still|by eapply cl_still].
Qed.
Lemma task_shared {E A} (m : M (Shared P * W) E A) : along sstill m → tsteady I (jshared m).
Proof. intros Hm. apply task_call. along_auto. Qed.
Lemma task_bind {E A B} (m : Job St E A) (k : A → Job St E B) : tsteady I m → (∀ a, tsteady I (k a)) → tsteady I (jbind m k).
Proof. apply steady_jbind, HI. Qed.
Lemma task_ret {E A} (a : A) : tsteady I (jret (E := E) a).
Proof. apply steady_jret, HI. Qed.
Lemma task_throw {E A} (e : E) : tsteady I (jthrow (A := A) e).
Proof. apply steady_jthrow, HI. Qed.
Lemma task_when {E} b (m : Job St E unit) : tsteady I m → tsteady I (jwhen b m).
Proof. apply steady_jwhen, HI. Qed.
Lemma task_for_each {E A} (l : list A) (body : A → Job St E unit) : (∀ x, tsteady I (body x)) → tsteady I (jfor_each l body).
Proof. apply steady_jfor_each, HI. Qed.
Lemma task_map {E A B} (body : A → Job St E B) (l : list A) : (∀ x, tsteady I (body x)) → tsteady I (jmap body l).
Proof. apply steady_jmap, HI. Qed.
Lemma task_attempt {E E' A} (m : Job St E A) : tsteady I m → tsteady I (jattempt (E' := E') m).
Proof. apply steady_jattempt, HI. Qed.
Lemma task_map_err {E E' A} (f : E → Job St E' A) (m : Job St E A) :
  tsteady I m → (∀ e, tsteady I (f e)) → tsteady I (jmap_err f m).
Proof. apply steady_jmap_err, HI. Qed.

(** ** [PendingWrite::cancelled] *)
Lemma store_run {E} n t : let t' := (in_shared (E := E) (update (store_cancelled n)) t).2 in
  cancel_step t t' ∧ is_cancelled n t' = true.
Proof.
  destruct t as [[r s] w]. rewrite in_shared_run. unfold store_cancelled, update, modify. cbn [fst snd].
  assert (∀ m, is_started m ((r, set_works (<[n:=mkWorkCell (wc_started (work_cell n s)) true]> (sh_works s)) s), w)
    = is_started m ((r, s), w)) as Hst.
  { intros m. unfold is_started, work_cell, set_works. cbn [fst snd sh_works].
    destruct (decide (m = n)) as [->|Hne]; [by rewrite lookup_insert_eq|by rewrite lookup_insert_ne]. }
  split.
  - constructor; try done. constructor; try done; try by left.
    + intros m. by rewrite Hst.
    + intros m. unfold is_cancelled, work_cell, set_works. cbn [fst snd sh_works].
      destruct (decide (m = n)) as [->|Hne]; [by rewrite lookup_insert_eq|by rewrite lookup_insert_ne].
  - unfold is_cancelled, work_cell, set_works. cbn [fst snd sh_works]. by rewrite lookup_insert_eq.
Qed.
Lemma record_run {E} n t : is_cancelled n t = true →
  cancel_step t (in_shared (E := E) (load_outcome n) t).2.
Proof.
  destruct t as [[r s] w]. intros Hc. rewrite in_shared_run. unfold load_outcome, bind, get, gets, update, modify, ret. cbn [fst snd].
  set (e := Cancelled n (wc_started (work_cell n s))).
  assert (trace_of ((r, trace e s), w) = trace_of ((r, s), w) ++ [e]) as Ht by done.
  constructor; try done.
  - by rewrite Ht, calls_app, app_nil_r.
  - intros k. rewrite Ht, elem_of_app, list_elem_of_singleton. split; [by intros [?|?]|by left].
  - constructor; try done; try by left.
    right. exists e. split; [done|]. by split.
Qed.
Lemma steady_cancelled {E} p : tsteady I (pending_cancelled (E := E) other p).
Proof.
  intros t Ht. unfold pending_cancelled.
  set (J := λ t, I t ∧ is_cancelled (pw_number p) t = true).
  assert (∀ t t', J t → task_relies t t' → J t') as HJ.
  { intros a b [Ha Hc] Hr. split; [by eapply HI|]. destruct Hr as (o & _ & Hg). by apply (g_cancelled _ _ _ _ Hg). }
  apply (safe_jcall _ _ I (cl_rely _ HI)); [done|]. clear t Ht. intros t Ht.
  destruct (store_run (E := E) (pw_number p) t) as [Hcs Hc]. split; [apply Hcs|].
  assert (J (in_shared (E := E) (update (store_cancelled (pw_number p))) t).2) as HJt
    by (split; [by eapply cl_cancel|done]).
  replace (in_shared (E := E) (update (store_cancelled (pw_number p))) t).1 with (@Ok E unit tt)
    by (destruct t as [[? ?] ?]; reflexivity).
  revert HJt. generalize (in_shared (E := E) (update (store_cancelled (pw_number p))) t).2. clear t Ht Hcs Hc. intros t HJt.
  apply (safe_jcall _ _ J HJ); [done|]. clear t HJt. intros t [Ht Hc].
  pose proof (record_run (E := E) (pw_number p) t Hc) as Hcs. split; [apply Hcs|].
  assert (I (in_shared (E := E) (load_outcome (pw_number p)) t).2) as Ht2 by (by eapply cl_cancel).
  revert Ht2. generalize (in_shared (E := E) (load_outcome (pw_number p)) t).2 as t2. intros t2 Ht2.
  destruct (in_shared (load_outcome (pw_number p)) t).1 as [unknown|e|];
    [|intros s Hs; by eapply (I_relies _ _ (cl_rely _ HI))..].
  apply task_bind; [|intros ?; apply task_ret|done]. apply task_shared. unfold cancelled. along_auto.
Qed.
End Rules.

(** Any change of what only the task has is a step it may take. *)
Lemma guar_reads {E} f t : task_guar t (on_reads (E := E) f t).2.
Proof.
  destruct t as [[r s] w]. by constructor; try done; left.
Qed.
End Steps.

(** * The channel of works: taking, discarding, sending back, submitting

    The steps of a peer's task that change what it holds. *)
Section Queue.
Context `{Base64, Json, Crypto, Http, Tokio, !TokioLaws _, Budgets, !Webauthn Transport, World W, !WorldLaws W}.
Context `{HerdrHost P, !GitHost P}.
Context (allowlist : gset string) (other : Audits * W → Audits * W).
Hypothesis other_grows : ∀ x, wgrow x (other x).
Abbreviation St := ((Reads * Shared P) * W)%type.
Implicit Types t : St.
Abbreviation step := (gstep (P := P) (W := W) allowlist).
Abbreviation inv := (inv (P := P) (W := W) allowlist).
Abbreviation ready := (ready (P := P) (W := W) allowlist).
Abbreviation holds := (holds (P := P) (W := W) allowlist).
Abbreviation task_relies := (task_relies (P := P) (W := W) allowlist).
Abbreviation task_guar := (task_guar (P := P) (W := W) allowlist).
Abbreviation tsafe := (safe task_relies task_guar).
Abbreviation tsteady := (steady task_relies task_guar).
Abbreviation closed := (closed (P := P) (W := W) allowlist).

(** A step on the channel alone *)
Definition private t t' : Prop :=
  t'.1.2 = t.1.2 ∧ t'.2 = t.2 ∧ active_of t' = active_of t ∧ awaited_of t' = awaited_of t ∧ next_of t <= next_of t'.
Lemma private_guar t t' : private t t' → task_guar t t'.
Proof.
  destruct t as [[r s] w], t' as [[r' s'] w']. intros (Hs & Hw & _). simpl in *. subst.
  by constructor; try done; left.
Qed.
Lemma private_inv l t t' : private t t' → inv l t → inv l t'.
Proof.
  intros Hp Hi. pose proof (private_guar _ _ Hp) as Hg. destruct Hp as (Hs & _ & Ha & Hw & Hn).
  assert (jobs_of t' = jobs_of t ∧ trace_of t' = trace_of t) as [Hj Ht] by (unfold jobs_of, trace_of; by rewrite Hs).
  eapply inv_same; try done; rewrite ?Ht; try done. eapply history_step; [apply Hi|done].
Qed.

Lemma recv_run {E} t : ∃ t', queue_recv (E := E) t = (Ok (head (queue_of t)), t')
  ∧ private t t' ∧ queue_of t' = tail (queue_of t).
Proof.
  destruct t as [[r s] w]. unfold queue_recv, reads_get, on_queue, on_reads, bind, gets, modify, ret.
  destruct (chan_recv (qu_channel (rd_writes r))) as [[k c]|] eqn:Hc.
  - apply chan_recv_some in Hc as (Hq & _). unfold queue_of, reads_of. simpl. rewrite Hq. by eexists.
  - apply chan_recv_none in Hc. unfold queue_of, reads_of. simpl. rewrite Hc. eexists. split; [done|]. split; [done|]. exact Hc.
Qed.
Lemma send_back_run {E} k t : ∃ b t',
  (let! r := reads_get in
   match chan_try_send k r.(rd_writes).(qu_channel) with
   | Some c => on_queue (set_channel c);; ret true
   | None => ret false
   end : M St E bool) t = (Ok b, t')
  ∧ private t t' ∧ queue_of t' = queue_of t ++ (if b : bool then [k] else []).
Proof.
  destruct t as [[r s] w]. unfold reads_get, on_queue, on_reads, bind, gets, modify, ret.
  destruct (chan_try_send k (qu_channel (rd_writes r))) as [c|] eqn:Hc.
  - apply chan_send_some in Hc as (Hq & _). exists true. eexists. split; [done|]. split; [done|]. exact Hq.
  - exists false. eexists. split; [done|]. split; [done|]. by rewrite app_nil_r.
Qed.

Lemma still_drop_run {E} r : along still (in_shared (P := P) (W := W) (E := E) (update (drop_run r))).
Proof.
  apply still_shared, sstill_update. intros s. unfold drop_run, open_run. destruct r as [| |]; try done.
  unfold drop_fulls, drop_full. destruct full as [d|]; [|done]. simpl.
  by destruct (gt_full (sh_gate s) !! d).
Qed.
Lemma still_answer {E} v : along still (on_queue (P := P) (W := W) (E := E) (λ q, set_answered (q.(qu_cancelled) ++ [v]) q)).
Proof. along_auto. Qed.

(** ** Jobs that leave the task at rest where they succeed *)

Definition on_ok {E A} (I : A → St → Prop) (r : outcome E A) (s : St) : Prop :=
  match r with Ok a => I a s | _ => True end.
Definition restful {E A} (m : Job St E A) : Prop := ∀ t, ready t → tsafe m (on_ok (λ _, ready)) t.

Lemma restful_steady {E A} (m : Job St E A) : tsteady ready m → restful m.
Proof. intros Hm t Ht. eapply safe_mono; [by apply Hm|]. by intros [a|e|] s Hs. Qed.
Lemma safe_then {E A B} (J : A → St → Prop) (m : Job St E A) (k : A → Job St E B) Q t :
  tsafe m (on_ok J) t → (∀ a s, J a s → tsafe (k a) (on_ok Q) s) → tsafe (jbind m k) (on_ok Q) t.
Proof.
  intros Hm Hk. apply safe_tbind. eapply safe_mono; [exact Hm|]. intros [a|e|] s Hs; [by apply Hk|done..].
Qed.
Lemma restful_bind {E A B} (m : Job St E A) (k : A → Job St E B) :
  restful m → (∀ a, restful (k a)) → restful (jbind m k).
Proof. intros Hm Hk t Ht. apply (safe_then (λ _, ready)); [by apply Hm|]. intros a s Hs. by apply Hk. Qed.
Lemma restful_ret {E A} (a : A) : restful (jret (E := E) a).
Proof. apply restful_steady. eapply task_ret, closed_ready. Qed.
Lemma restful_throw {E A} (e : E) : restful (jthrow (A := A) e).
Proof. by intros t Ht s Hs. Qed.
Lemma restful_call {E A} (m : M St E A) : along still m → restful (jcall m).
Proof. intros Hm. apply restful_steady. eapply task_call; [apply closed_ready|done]. Qed.
Lemma restful_shared {E A} (m : M (Shared P * W) E A) : along sstill m → restful (jshared m).
Proof. intros Hm. apply restful_call. along_auto. Qed.
Lemma restful_when {E} b (m : Job St E unit) : restful m → restful (jwhen b m).
Proof. intros Hm. destruct b; [done|apply restful_ret]. Qed.
Lemma restful_for_each {E A} (l : list A) (body : A → Job St E unit) : (∀ x, restful (body x)) → restful (jfor_each l body).
Proof. intros Hb. induction l as [|x l IH]; [apply restful_ret|by apply restful_bind]. Qed.
Lemma restful_map {E A B} (body : A → Job St E B) (l : list A) : (∀ x, restful (body x)) → restful (jmap body l).
Proof.
  intros Hb. induction l as [|x l IH]; [apply restful_ret|]. apply restful_bind; [done|]. intros y.
  apply restful_bind; [done|]. intros ys. apply restful_ret.
Qed.
(** [map_err] to a plain error *)
Lemma restful_map_err {E E' A} (f : E → E') (m : Job St E A) : restful m → restful (jmap_err (λ e, jthrow (f e)) m).
Proof.
  intros Hm t Ht. apply safe_tbind. eapply safe_mono; [by apply Hm|]. intros [a|e|] s Hs; simpl; [|done..].
  intros s' Hr. by eapply (I_relies _ _ (ready_rely _)).
Qed.

(** ** Discarding *)

(** [while let Ok(work) = receiver.try_recv()]: what is kept follows what was kept. *)
Lemma safe_discard {E} n stream before q t : (length q ≤ n)%nat → holds (before ++ q) q t →
  tsafe (discard_turns (E := E) other n stream) (on_ok (λ kept, holds (before ++ kept) [])) t.
Proof.
  revert before q t. induction n as [|n IH]; intros before q t Hn Ht.
  - destruct q; [|simpl in Hn; lia]. intros s Hs. simpl. by eapply (I_relies _ _ (holds_rely _ _ _)).
  - simpl. apply (safe_jcall _ _ (holds (before ++ q) q)); [apply holds_rely|done|].
    clear t Ht. intros t [Hi Hq]. destruct (recv_run (E := E) t) as (t' & Hr & Hp & Hq'). rewrite Hr. simpl.
    split; [by apply private_guar|]. pose proof (private_inv _ _ _ Hp Hi) as Hi'. rewrite Hq in Hq' |- *.
    destruct q as [|k q]; simpl in *.
    { intros s Hs. by eapply (I_relies _ _ (holds_rely _ _ _)). }
    destruct (bool_decide (wk_stream k = Some stream)).
    + assert (holds (before ++ q) q t') as Hdrop.
      { split; [|done]. eapply inv_sublist; [|exact Hi']. apply sublist_app; [done|by constructor]. }
      assert (closed (holds (before ++ q) q)) as Hc by apply closed_holds.
      apply (safe_then (λ _, holds (before ++ q) q)).
      { eapply safe_mono; [by eapply (steady_cancelled allowlist other other_grows)|]. by intros [] s Hs. }
      intros v s Hs. apply (safe_then (λ _, holds (before ++ q) q)).
      { eapply safe_mono; [eapply task_call; [exact Hc|apply still_answer|exact Hs]|]. by intros [] s' Hs'. }
      clear s Hs. intros _ s Hs. apply (safe_then (λ _, holds (before ++ q) q)).
      { eapply safe_mono; [eapply task_call; [exact Hc|apply still_drop_run|exact Hs]|]. by intros [] s' Hs'. }
      clear s Hs. intros _ s Hs. apply (IH before q); [lia|done].
    + apply (safe_then (λ kept, holds ((before ++ [k]) ++ kept) [])).
      { apply (IH _ q); [lia|]. rewrite <- app_assoc. by split. }
      intros kept s Hs s' Hr'. simpl. rewrite <- app_assoc in Hs. by eapply (I_relies _ _ (holds_rely _ _ _)).
Qed.
Lemma safe_send_back {E} k q l t : holds (q ++ k :: l) q t →
  tsafe (queue_send_back (E := E) k) (on_ok (λ _ s, ∃ q', holds (q' ++ l) q' s)) t.
Proof.
  intros Ht. unfold queue_send_back. apply (safe_jcall _ _ (holds (q ++ k :: l) q)); [apply holds_rely|done|].
  clear t Ht. intros t [Hi Hq]. destruct (send_back_run (E := E) k t) as (b & t' & Hr & Hp & Hq'). rewrite Hr. cbn [fst snd].
  split; [by apply private_guar|]. pose proof (private_inv _ _ _ Hp Hi) as Hi'. rewrite Hq in Hq'. destruct b; cbn [negb jwhen].
  - intros s Hs. exists (q ++ [k]). eapply (I_relies _ _ (holds_rely _ _ _)); [|exact Hs].
    split; [by rewrite <- app_assoc|done].
  - rewrite app_nil_r in Hq'.
    assert (holds (q ++ l) q t') as Ht'.
    { split; [|done]. eapply inv_sublist; [|exact Hi']. apply sublist_app; [done|by constructor]. }
    assert (closed (holds (q ++ l) q)) as Hc by apply closed_holds.
    eapply safe_mono; [eapply task_call; [exact Hc|apply still_drop_run|exact Ht']|].
    intros [] s Hs; simpl; eauto.
Qed.
Lemma safe_send_all {E} l : ∀ q t, holds (q ++ l) q t →
  tsafe (jfor_each l (queue_send_back (E := E))) (on_ok (λ _, ready)) t.
Proof.
  induction l as [|k l IH]; intros q t Ht; cbn [jfor_each].
  - intros s Hs. simpl. apply ready_holds. exists q. rewrite app_nil_r in Ht.
    by eapply (I_relies _ _ (holds_rely _ _ _)).
  - apply (safe_then (λ _ s, ∃ q', holds (q' ++ l) q' s)); [by eapply safe_send_back|].
    intros _ s (q' & Hs). by apply (IH q').
Qed.
(** [Reads::discard_write_stream] *)
Lemma restful_discard {E} stream : restful (discard_write_stream (E := E) other stream).
Proof.
  intros t Ht. unfold discard_write_stream.
  apply (safe_jcall _ _ ready); [apply ready_rely|done|]. clear t Ht. intros t Ht.
  destruct t as [[r s] w]. simpl. split; [by apply guar_still|].
  apply (safe_then (λ kept, holds kept [])).
  - apply (safe_discard _ _ [] (queue_of ((r, s), w))); [done|]. by split.
  - intros kept s' Hs. by apply (safe_send_all kept []).
Qed.
End Queue.

(** * Sections of a peer's task that admit or submit one thing

    A section under the identity's lock is one step: quiet work around at most one
    change of what the task holds. *)
Section Once.
Context `{Base64, Json, Crypto, Http, Tokio, !TokioLaws _, Budgets, !Webauthn Transport, World W, !WorldLaws W}.
Context `{HerdrHost P, !GitHost P}.
Context (allowlist : gset string).
Abbreviation St := ((Reads * Shared P) * W)%type.
Implicit Types t : St.
Abbreviation inv := (inv (P := P) (W := W) allowlist).
Abbreviation ready := (ready (P := P) (W := W) allowlist).
Abbreviation task_guar := (task_guar (P := P) (W := W) allowlist).
Abbreviation restful := (restful (P := P) (W := W) allowlist).

Definition once {E A} (m : M St E A) : Prop := ∀ t, ready t → task_guar t (m t).2 ∧ ready (m t).2.

(** Quiet steps around a step are no more than the step. *)
Lemma cell_eq t t' n : still t t' → (write_cell n t' ↔ write_cell n t) ∧ is_started n t' = is_started n t
  ∧ is_cancelled n t' = is_cancelled n t.
Proof.
  intros Hs. destruct (still_parts _ _ Hs) as (_ & _ & _ & _ & Hj & _). split; [unfold write_cell; by rewrite Hj|].
  destruct t as [[r s] w], t' as [[r' s'] w'], Hs as [Hc _]. unfold peer_core, shared_core in Hc. simpl in Hc.
  injection Hc as _ _ _ _ Hw _ _. unfold is_started, is_cancelled, work_cell. simpl. by rewrite Hw.
Qed.
Lemma guar_still_l t t1 t2 : still t t1 → task_guar t1 t2 → task_guar t t2.
Proof.
  intros Hs Hg. destruct (still_parts _ _ Hs) as (_ & _ & _ & _ & Hj & Ht). constructor.
  - intros n Hn. apply (g_started _ _ _ _ Hg). by destruct (cell_eq _ _ n Hs) as (_ & -> & _).
  - intros n Hn. apply (g_cancelled _ _ _ _ Hg). by destruct (cell_eq _ _ n Hs) as (_ & _ & ->).
  - destruct (g_trace _ _ _ _ Hg) as [Htr|(e & Htr & He)]; rewrite Htr, Ht; [by left|]. right. exists e.
    split; [done|]. destruct e as [k|n at_|n s raw|n s b|n c|n u]; simpl in *; rewrite ?Ht in He; try done; try by destruct He.
    by destruct (cell_eq _ _ n Hs) as (_ & <- & <-).
  - pose proof (g_jobs _ _ _ _ Hg) as Hjs. simpl in *. rewrite Hj in Hjs.
    destruct Hjs as [?|[(n & d & w & c & Hn & Hc & ?)|?]]; [by left| |by right; right].
    right; left. exists n, d, w, c. split; [done|]. split; [|done]. unfold submitted_ok in *. rewrite Ht in Hc.
    destruct c as [|k h]; [done|]. destruct Hc as (? & ? & ? & ? & Hno). split_and!; try done.
    intros m Hm. eapply Hno. by apply (cell_eq _ _ m Hs).
  - done.
  - destruct Hs as [_ Hw]. unfold wgrow in *. etrans; [exact Hw|]. apply (g_world _ _ _ _ Hg).
Qed.
Lemma guar_still_r t t1 t2 : task_guar t t1 → still t1 t2 → task_guar t t2.
Proof.
  intros Hg Hs. destruct (still_parts _ _ Hs) as (_ & _ & _ & _ & Hj & Ht). constructor.
  - intros n Hn. destruct (cell_eq _ _ n Hs) as (_ & -> & _). by apply (g_started _ _ _ _ Hg).
  - intros n Hn. destruct (cell_eq _ _ n Hs) as (_ & _ & ->). by apply (g_cancelled _ _ _ _ Hg).
  - rewrite Ht. destruct (g_trace _ _ _ _ Hg) as [?|(e & ? & He)]; [by left|]. right. exists e. split; [done|].
    destruct e; simpl in *; try done; by destruct He.
  - pose proof (g_jobs _ _ _ _ Hg) as Hjs. simpl in *. by rewrite Hj.
  - done.
  - destruct Hs as [_ Hw]. unfold wgrow in *. etrans; [apply (g_world _ _ _ _ Hg)|exact Hw].
Qed.
Lemma ready_still t t' : still t t' → ready t → ready t'.
Proof. intros Hs Hr. by eapply (cl_still _ _ (closed_ready allowlist)). Qed.

Lemma once_still {E A} (m : M St E A) : along still m → once m.
Proof.
  intros Hm t Ht. pose proof (along_keeps_core peer_core m t Hm) as Hs.
  split; [by apply guar_still|by eapply ready_still].
Qed.
Lemma once_bind_l {E A B} (m : M St E A) (k : A → M St E B) : along still m → (∀ a, once (k a)) → once (bind m k).
Proof.
  intros Hm Hk t Ht. pose proof (along_keeps_core peer_core m t Hm) as Hs. unfold bind.
  destruct (m t) as [[a|e|] t1]; simpl in *; [|split; [by apply guar_still|by eapply ready_still]..].
  destruct (Hk a t1 (ready_still _ _ Hs Ht)) as [Hg Hr]. split; [by eapply guar_still_l|done].
Qed.
Lemma once_bind_r {E A B} (m : M St E A) (k : A → M St E B) : once m → (∀ a, along still (k a)) → once (bind m k).
Proof.
  intros Hm Hk t Ht. destruct (Hm t Ht) as [Hg Hr]. unfold bind.
  destruct (m t) as [[a|e|] t1]; simpl in *; [|done..].
  pose proof (along_keeps_core peer_core (k a) t1 (Hk a)) as Hs.
  split; [by eapply guar_still_r|by eapply ready_still].
Qed.
Lemma once_attempt {E E' A} (m : M St E' A) : once m → once (attempt m : M St E (E' + A)).
Proof. intros Hm t Ht. specialize (Hm t Ht). unfold attempt. by destruct (m t) as [[a|e|] t1]. Qed.
Lemma once_map_err {E E' A} (f : E' → E) (m : M St E' A) : once m → once (map_err f m).
Proof. intros Hm t Ht. specialize (Hm t Ht). unfold map_err. by destruct (m t) as [[a|e|] t1]. Qed.

Lemma restful_once {E A} (m : M St E A) : once m → restful (jcall m).
Proof.
  intros Hm. apply restful_steady. apply steady_jcall; [apply ready_rely|]. exact Hm.
Qed.
Lemma restful_attempt_once {E E' A} (m : M St E' A) : once m → restful (jattempt (E' := E) (jcall m)).
Proof.
  intros Hm. apply restful_steady. apply steady_jattempt; [apply ready_rely|].
  apply steady_jcall; [apply ready_rely|]. exact Hm.
Qed.

(** ** Admission *)

Lemma history_admit t t' l : inv l t → task_guar t t' → history allowlist t'.
Proof. intros Hi Hg. eapply history_step; [apply Hi|exact Hg]. Qed.

(** [try_send] of a work that has the next number. *)
Lemma once_send (work : Z → Work) : (∀ n, wk_number (work n) = n) → once (send_work (P := P) work).
Proof.
  intros Hw t Ht. destruct t as [[r s] w]. unfold send_work, reads_get, bind, gets. cbn [fst snd].
  set (k := work (rd_next_number r)). assert (wk_number k = rd_next_number r) as Hk by apply Hw.
  destruct (chan_try_send k (qu_channel (rd_writes r))) as [c|] eqn:Hc.
  2:{ apply (once_still (E := string) (in_shared (update (drop_run (wk_run k)));; throw "busy" : M St string unit)); [|done].
      apply along_bind; [apply still_drop_run|intros; along_auto]. }
  apply chan_send_some in Hc as (Hq & _).
  unfold on_reads, modify, in_shared, zoom, update. simpl.
  match goal with |- PeerInv.task_guar _ _ ?x ∧ _ => set (t' := x : St) end.
  assert (queue_of t' = queue_of ((r, s), w) ++ [k]) as Hqueue by exact Hq.
  assert (trace_of t' = trace_of ((r, s), w) ++ [Entered k]) as Htr by done.
  assert (task_guar ((r, s), w) t') as Hg.
  { constructor; try done; [|by left]. right. exists (Entered k). split; [done|]. split; [done|].
    intros k' Hk'. rewrite Hk. by apply (v_next _ _ _ Ht). }
  split; [done|]. unfold PeerInv.ready. rewrite Hqueue.
  assert (calls_of (trace_of t') = calls_of (trace_of ((r, s), w))) as Hcalls
    by (by rewrite Htr, calls_app, app_nil_r).
  assert (∀ n, write_cell n t' ↔ write_cell n ((r, s), w)) as Hcell by done.
  assert (∀ k', k' ∈ queue_of ((r, s), w) ++ [k] → k' ∈ queue_of ((r, s), w) ∨ k' = k) as Hin
    by (intros k'; rewrite elem_of_app, list_elem_of_singleton; done).
  constructor.
  - by eapply history_admit.
  - rewrite fmap_app. apply sorted_snoc; [apply Ht|].
    intros m (k' & -> & Hk')%list_elem_of_fmap. rewrite Hk. apply (v_next _ _ _ Ht). by apply (v_admitted _ _ _ Ht).
  - intros k' [Hk'| ->]%Hin; rewrite Htr, elem_of_app; [left; by apply (v_admitted _ _ _ Ht)|].
    right. by apply list_elem_of_singleton.
  - intros k' m Hk' Hm. rewrite Hcalls in Hm. apply Hin in Hk' as [Hk'| ->]; [by apply (v_called _ _ _ Ht)|].
    rewrite Hk. apply elem_calls in Hm as [c0 Hm]. apply list_elem_of_split in Hm as (pre & post & Hm).
    destruct (h_allowed _ _ (v_history _ _ _ Ht) _ _ _ _ Hm) as (k0 & at_ & Hk0 & <- & _).
    apply (v_next _ _ _ Ht). rewrite Hm. apply elem_of_app. by left.
  - intros k' m [Hk'| ->]%Hin Hm; [by apply (v_cells _ _ _ Ht)|]. rewrite Hk.
    destruct Hm as (c0 & Hc0 & _). apply (v_jobs _ _ _ Ht). by exists c0.
  - intros k' [Hk'| ->]%Hin; [by apply (v_fresh _ _ _ Ht)|]. rewrite Hk.
    destruct (jobs_of t' !! rd_next_number r) as [c0|] eqn:Hj; [|done].
    pose proof (v_jobs _ _ _ Ht (rd_next_number r) (ex_intro _ c0 Hj)) as Hlt. unfold next_of, reads_of in Hlt. simpl in Hlt. lia.
  - intros k'. rewrite Htr, elem_of_app, list_elem_of_singleton. unfold next_of, reads_of. simpl.
    intros [Hk'|[= ->]]; [|fold k; lia]. pose proof (v_next _ _ _ Ht _ Hk') as Hlt. unfold next_of, reads_of in Hlt. simpl in Hlt. lia.
  - intros n Hn. pose proof (v_jobs _ _ _ Ht n Hn) as Hlt. unfold next_of, reads_of in *. simpl in *. lia.
  - intros n m. rewrite Hcalls. apply (v_called_cells _ _ _ Ht).
  - apply (v_one _ _ _ Ht).
  - apply (v_active _ _ _ Ht).
  - apply (v_awaited _ _ _ Ht).
  - apply (v_push _ _ _ Ht).
  - apply (v_nodup _ _ _ Ht).
Qed.
End Once.
