(* ===== verification/TaskSubmit.v ===== *)
(** * Submitting to the executor, receiving from it, and finishing a write *)
From stdpp Require Import base gmap strings list relations.
From Stdlib Require Import ZArith Lia Sorted.
From S2P Require Import Prelude Steps Rust Externals Clock Devices Admin Events World Pairing.
From S2P Require Import Webauthn Session Authorize Gateway WriteAudit Jobs Herdr Push GitBridge.
From S2P Require Import Control Http Runs Wire Rpc Threads Growing Streams Calls WriteBridge.
From S2P Require Import ReadBridge Peer Still PeerRely CallsSafe PeerInv TaskSteps.
Local Open Scope Z_scope.

Section Submit.
Context `{Base64, Json, Crypto, Http, Tokio, !TokioLaws _, Budgets, !Webauthn Transport, World W, !WorldLaws W}.
Context `{HerdrHost P, !GitHost P}.
Context (allowlist : gset string).
Abbreviation St := ((Reads * Shared P) * W)%type.
Implicit Types t : St.
Abbreviation inv := (inv (P := P) (W := W) allowlist).
Abbreviation ready := (ready (P := P) (W := W) allowlist).
Abbreviation task_guar := (task_guar (P := P) (W := W) allowlist).
Abbreviation task_relies := (task_relies (P := P) (W := W) allowlist).
Abbreviation tsafe := (safe task_relies task_guar).
Abbreviation once := (once (P := P) (W := W) allowlist).

(** One more job, and the future that waits for it. *)
Record submits (d : string) (w : bool) (c : Submission) (a : Awaited) (n : Z) t t' : Prop := mkSubmits {
  sb_jobs : jobs_of t' = <[n := mkJobCell d w (JobSubmitted c)]> (jobs_of t);
  sb_trace : trace_of t' = trace_of t;
  sb_works : sh_works t'.1.2 = sh_works t.1.2;
  sb_awaited : awaited_of t' = awaited_of t ++ [a];
  sb_world : t'.2 = t.2;
}.
Lemma submits_guar d w c a n t t' : submits d w c a n t t' →
  jobs_of t !! n = None → submitted_ok t n w c → task_guar t t'.
Proof.
  intros [Hj Ht Hw _ Hww] Hn Hc. constructor; try done;
    try (intros m; unfold is_started, is_cancelled, work_cell; by rewrite Hw).
  - left. exact Ht.
  - right; left. exists n, d, w, c. done.
  - unfold wgrow. rewrite Hww. by apply reflexivity.
Qed.
Lemma inv_submits l d w c a n t t' : inv l t → submits d w c a n t t' →
  aw_source a = FromJob n → aw_write a = w → jobs_of t !! n = None → submitted_ok t n w c →
  n < next_of t' → next_of t <= next_of t' → (∀ k, k ∈ l → wk_number k ≠ n) →
  (if w then active_of t' = true ∧ (∀ k, k ∈ l → n < wk_number k) else active_of t' = active_of t) →
  inv l t'.
Proof.
  intros Hi Hs Ha Hw Hn Hc Hlt Hle Hne Hact. pose proof (submits_guar _ _ _ _ _ _ _ Hs Hn Hc) as Hg.
  destruct Hs as [Hj Ht _ Haw _].
  assert (∀ m, write_cell m t' → write_cell m t ∨ (m = n ∧ w = true)) as Hback.
  { intros m (x & Hx & Hxw). rewrite Hj in Hx. destruct (decide (m = n)) as [->|Hmn].
    - rewrite lookup_insert_eq in Hx. simplify_eq. by right.
    - rewrite lookup_insert_ne in Hx by done. left. by exists x. }
  assert (w = true → no_write t ∧ ∀ m, m ∈ calls_of (trace_of t) → m < n) as Hwrite.
  { intros ->. destruct c as [|k h]; [done|]. destruct Hc as (_ & _ & _ & ? & ?). done. }
  constructor; rewrite ?Ht, ?Haw.
  - eapply history_step; [apply Hi|exact Hg].
  - apply Hi.
  - apply Hi.
  - apply Hi.
  - intros k m Hk [Hm|[-> ->]]%Hback; [by apply (v_cells _ _ _ Hi)|]. by apply Hact.
  - intros k Hk. rewrite Hj, lookup_insert_ne; [by apply (v_fresh _ _ _ Hi)|]. intros Heq. by apply (Hne k).
  - intros k Hk. pose proof (v_next _ _ _ Hi k Hk). lia.
  - intros m [x Hx]. rewrite Hj in Hx. destruct (decide (m = n)) as [->|Hmn]; [done|].
    rewrite lookup_insert_ne in Hx by done. pose proof (v_jobs _ _ _ Hi m (ex_intro _ x Hx)). lia.
  - intros m m' Hm [Hm'|[-> Hw']]%Hback; [by apply (v_called_cells _ _ _ Hi)|].
    destruct (Hwrite Hw') as [_ Hcalls]. pose proof (Hcalls m' Hm). lia.
  - intros m m' [Hm|[-> Hw1]]%Hback [Hm'|[-> Hw2]]%Hback; [by apply (v_one _ _ _ Hi)| | |done];
      [destruct (Hwrite Hw2) as [Hno _]|destruct (Hwrite Hw1) as [Hno _]]; by edestruct Hno.
  - intros Hf m [Hm|[-> Hw1]]%Hback.
    + destruct w; [by edestruct (proj1 (Hwrite eq_refl)) |]. rewrite Hact in Hf. by eapply (v_active _ _ _ Hi Hf).
    + rewrite Hw1 in Hact. destruct Hact. congruence.
  - intros x m [Hx| ->%list_elem_of_singleton]%elem_of_app Hsx.
    + destruct (v_awaited _ _ _ Hi x m Hx Hsx) as (y & Hy & Hyw). exists y. split; [|done].
      rewrite Hj, lookup_insert_ne; [done|]. intros ->. congruence.
    + assert (m = n) as -> by congruence. exists (mkJobCell d w (JobSubmitted c)). rewrite Hj, lookup_insert_eq. done.
  - intros x q [Hx| ->%list_elem_of_singleton]%elem_of_app Hsx; [by eapply (v_push _ _ _ Hi)|]. congruence.
  - rewrite omap_app. apply NoDup_app. split_and!; [apply Hi| |].
    + intros m Hm Hm2. simpl in Hm2. unfold job_number in Hm2 at 1. rewrite Ha in Hm2.
      apply list_elem_of_singleton in Hm2 as ->. apply list_elem_of_omap in Hm as (x & Hx & Hxn).
      unfold job_number in Hxn. destruct (aw_source x) as [y|] eqn:Hsx; [|done]. simplify_eq.
      destruct (v_awaited _ _ _ Hi x n Hx Hsx) as (z & Hz & _). congruence.
    + simpl. unfold job_number. rewrite Ha. apply NoDup_singleton.
Qed.

(** The end of [submit], once the executor has taken the call. *)
Lemma submit_run device write c a n t :
  let m := (in_shared (update (λ s, set_jobs (<[n := mkJobCell device write (JobSubmitted c)]> s.(sh_jobs)) s));;
            on_reads (λ r, set_completed (r.(rd_completed) ++ [a]) r)) : M St string unit in
  ∃ t', m t = (Ok tt, t') ∧ submits device write c a n t t' ∧ queue_of t' = queue_of t
    ∧ next_of t' = next_of t ∧ active_of t' = active_of t.
Proof. destruct t as [[r s] w]. eexists. split; [reflexivity|]. by split. Qed.

Lemma still_jobs {E A} (m : M Jobs E A) : along still (peer_jobs (P := P) (W := W) m).
Proof. unfold peer_jobs, in_gate. along_auto. Qed.

Lemma number_run {E} t : ∃ t1, next_number (P := P) (W := W) (E := E) t = (Ok (next_of t), t1)
  ∧ private t t1 ∧ queue_of t1 = queue_of t ∧ next_of t1 = next_of t + 1 ∧ jobs_of t1 = jobs_of t.
Proof.
  destruct t as [[r s] w]. eexists. split; [done|]. split; [|done]. split_and!; try done.
  unfold next_of, reads_of. simpl. lia.
Qed.
(** What only the task has does not matter to the others. *)
Lemma guar_private_l t t1 t2 : t1.1.2 = t.1.2 → t1.2 = t.2 → task_guar t1 t2 → task_guar t t2.
Proof.
  destruct t as [[r s] w], t1 as [[r1 s1] w1]. simpl. intros -> -> Hg. destruct Hg as [h1 h2 h3 h4 h5 h6].
  by constructor.
Qed.
Lemma once_submit_read device id run stream : once (submit_read (P := P) (W := W) device id run stream).
Proof.
  intros t Ht. unfold submit_read, submit.
  destruct (number_run (E := string) t) as (t1 & Hn & Hp & Hq & Hnext & Hj1).
  pose proof (private_inv allowlist _ _ _ Hp Ht) as Hi1. pose proof (private_guar allowlist _ _ Hp) as Hg1.
  rewrite (run_ok _ _ _ _ _ Hn). clear Hn.
  set (a := mkAwaited id stream false (FromJob (next_of t))).
  pose proof (along_keeps_core peer_core _ t1 (still_jobs (submit_device device false))) as Hs.
  destruct (peer_jobs (submit_device device false) t1) as [[[]|e|] t2] eqn:He; cbn [snd] in Hs.
  - rewrite (run_ok _ _ _ _ _ He). destruct (submit_run device false (SubmitRead run stream) a (next_of t) t2) as (t3 & -> & Hsub & Hq3 & Hn3 & Ha3).
    cbn [snd]. destruct (still_parts _ _ Hs) as (Hq2 & Ha2 & Haw2 & Hn2 & Hj2 & Ht2).
    assert (jobs_of t2 !! next_of t = None) as Hfree.
    { rewrite Hj2, Hj1. destruct (jobs_of t !! next_of t) as [x|] eqn:Hx; [|done].
      pose proof (v_jobs _ _ _ Ht (next_of t) (ex_intro _ x Hx)). lia. }
    assert (inv (queue_of t) t2) as Hi2 by (by eapply inv_still).
    split.
    + eapply (guar_private_l t t1); [apply Hp..|]. eapply guar_still_l; [exact Hs|by eapply submits_guar].
    + unfold PeerInv.ready. rewrite Hq3, Hq2, Hq. eapply inv_submits; try done.
      * rewrite Hn3, Hn2, Hnext. lia.
      * rewrite Hn3. lia.
      * intros k Hk. pose proof (v_next _ _ _ Ht k (v_admitted _ _ _ Ht k Hk)). lia.
  - rewrite (run_err _ _ _ _ _ He).
    split; [by eapply guar_still_r|]. eapply ready_still; [exact Hs|]. unfold PeerInv.ready. by rewrite Hq.
  - unfold bind. rewrite He. cbn [snd].
    split; [by eapply guar_still_r|]. eapply ready_still; [exact Hs|]. unfold PeerInv.ready. by rewrite Hq.
Qed.

(** A push request has no job. *)
Lemma once_push id request : once (on_reads (P := P) (W := W) (E := string)
  (λ r, set_completed (r.(rd_completed) ++ [mkAwaited id None false (FromPush request)]) r)).
Proof.
  intros t Ht. split; [apply guar_reads|]. destruct t as [[r s] w]. unfold on_reads, modify. cbn [snd].
  match goal with |- PeerInv.ready _ ?x => set (t' := x : St) end.
  assert (awaited_of t' = awaited_of ((r, s), w) ++ [mkAwaited id None false (FromPush request)]) as Haw by done.
  destruct Ht as [h1 h2 h3 h4 h5 h6 h7 h8 h9 h10 h11 h12 h13 h14].
  constructor; rewrite ?Haw; try done.
  - eapply history_step; [exact h1|]. exact (guar_reads allowlist (E := string) _ ((r, s), w)).
  - intros a n [Ha| ->%list_elem_of_singleton]%elem_of_app Hs; [by eapply h12|done].
  - intros a q [Ha| ->%list_elem_of_singleton]%elem_of_app Hs; [by eapply h13|done].
  - rewrite omap_app. simpl. by rewrite app_nil_r.
Qed.

(** The pump gives a work that it took from the channel to the executor. *)
Lemma pump_submitted k leases now t : inv (k :: queue_of t) t → active_of t = false →
  let t' := (pump_submit (P := P) k leases now t).2 in
  task_guar t t' ∧ ready t'.
Proof.
  intros Hi Hact. unfold pump_submit, submit.
  set (a := mkAwaited (wk_id k) (wk_stream k) true (FromJob (wk_number k))).
  pose proof (along_keeps_core peer_core _ t (still_jobs (submit_device (wk_device k) true))) as Hs.
  assert (inv (queue_of t) t) as Hrest by (eapply inv_sublist; [|exact Hi]; by constructor).
  rewrite run_bind. destruct (peer_jobs (submit_device (wk_device k) true) t) as [[[]|e|] t1] eqn:He; cbn [snd] in Hs.
  2:{ rewrite (run_err _ _ _ _ _ He). split; [by apply guar_still|by eapply ready_still]. }
  2:{ unfold bind. rewrite He. cbn [snd]. split; [by apply guar_still|by eapply ready_still]. }
  rewrite (run_ok _ _ _ _ _ He).
  destruct (submit_run (wk_device k) true (SubmitWrite k leases) a (wk_number k) t1) as (t2 & Hr & Hsub & Hq2 & Hn2 & Ha2).
  rewrite (run_ok _ _ _ _ _ Hr).
  destruct (still_parts _ _ Hs) as (Hq1 & Ha1 & Haw1 & Hn1 & Hj1 & Ht1).
  pose proof (inv_still allowlist _ _ _ Hs Hi) as Hi1.
  assert (k ∈ k :: queue_of t) as Hin by by left.
  assert (submitted_ok t1 (wk_number k) true (SubmitWrite k leases)) as Hok.
  { split_and!; try done.
    - by apply (v_admitted _ _ _ Hi1).
    - intros m Hm. by apply (v_called _ _ _ Hi1).
    - apply (v_active _ _ _ Hi1). by rewrite Ha1. }
  assert (task_guar t t2) as Hg2.
  { eapply guar_still_l; [exact Hs|]. eapply submits_guar; [exact Hsub| |done]. by apply (v_fresh _ _ _ Hi1). }
  match goal with |- context [on_queue ?f t2] => set (t3 := (on_queue (E := string) f t2).2) end.
  assert (t3.1.2 = t2.1.2 ∧ t3.2 = t2.2 ∧ queue_of t3 = queue_of t2 ∧ active_of t3 = true
    ∧ awaited_of t3 = awaited_of t2 ∧ next_of t3 = next_of t2) as (H3s & H3w & H3q & H3a & H3aw & H3n)
    by (unfold t3; destruct t2 as [[r2 s2] w2]; done).
  assert (submits (wk_device k) true (SubmitWrite k leases) a (wk_number k) t1 t3) as Hsub3.
  { destruct Hsub as [s1 s2 s3 s4 s5]. constructor; unfold jobs_of, trace_of in *; rewrite ?H3s, ?H3w, ?H3aw; done. }
  split.
  - eapply guar_still_l; [exact Hs|]. eapply submits_guar; [exact Hsub3| |done]. by apply (v_fresh _ _ _ Hi1).
  - unfold PeerInv.ready. rewrite H3q, Hq2, Hq1.
    assert (StronglySorted Z.lt (wk_number k :: (wk_number <$> queue_of t))) as Hsort by apply (v_sorted _ _ _ Hi).
    apply StronglySorted_inv in Hsort as [_ Hsort]. rewrite Forall_forall in Hsort.
    assert (∀ k', k' ∈ queue_of t → wk_number k < wk_number k') as Hlt.
    { intros k' Hk'. apply Hsort. by apply list_elem_of_fmap_2. }
    assert (wk_number k < next_of t1) as Hkn by (apply (v_next _ _ _ Hi1); by apply (v_admitted _ _ _ Hi1)).
    apply (inv_submits _ _ _ _ _ _ _ _ (inv_still allowlist _ _ _ Hs Hrest) Hsub3); try done.
    + by apply (v_fresh _ _ _ Hi1).
    + rewrite H3n, Hn2. lia.
    + rewrite H3n, Hn2. lia.
    + intros k' Hk'. specialize (Hlt k' Hk'). lia.
Qed.
End Submit.

(** * Receiving a result, and finishing a write *)
Section Receive.
Context `{Base64, Json, Crypto, Http, Tokio, !TokioLaws _, Budgets, !Webauthn Transport, World W, !WorldLaws W}.
Context `{HerdrHost P, !GitHost P}.
Context (allowlist : gset string).
Abbreviation St := ((Reads * Shared P) * W)%type.
Implicit Types t : St.
Abbreviation inv := (inv (P := P) (W := W) allowlist).
Abbreviation ready := (ready (P := P) (W := W) allowlist).
Abbreviation task_guar := (task_guar (P := P) (W := W) allowlist).
Abbreviation task_relies := (task_relies (P := P) (W := W) allowlist).
Abbreviation tsafe := (safe task_relies task_guar).
Abbreviation once := (once (P := P) (W := W) allowlist).

(** The future at [i] is gone, and its job if it had one. *)
Record takes (i : nat) (a : Awaited) t t' : Prop := mkTakes {
  tk_jobs : jobs_of t' = match aw_source a with FromJob n => delete n (jobs_of t) | FromPush _ => jobs_of t end;
  tk_trace : trace_of t' = trace_of t;
  tk_works : sh_works t'.1.2 = sh_works t.1.2;
  tk_awaited : awaited_of t' = delete i (awaited_of t);
  tk_queue : queue_of t' = queue_of t;
  tk_active : active_of t' = active_of t;
  tk_next : next_of t' = next_of t;
  tk_world : t'.2 = t.2;
}.
Lemma take_run {E} i a t : ∃ t', take_awaited (E := E) i a t = (Ok tt, t') ∧ takes i a t t'.
Proof.
  destruct t as [[r s] w]. unfold take_awaited.
  destruct a as [aid astream [] [n|q]]; eexists; (split; [reflexivity|done]).
Qed.
Definition done_job (a : Awaited) t : Prop :=
  ∀ n, aw_source a = FromJob n → ∃ c r, jobs_of t !! n = Some c ∧ jc_phase c = JobDone r.
Lemma takes_guar i a t t' : takes i a t t' → done_job a t → task_guar t t'.
Proof.
  intros [Hj Ht Hw _ _ _ _ Hww] Hd. constructor; try done;
    try (intros m; unfold is_started, is_cancelled, work_cell; by rewrite Hw).
  - left. exact Ht.
  - simpl. destruct (aw_source a) as [n|q] eqn:Hs; [|by left]. right; right.
    destruct (Hd n Hs) as (c & r & Hc & Hp). exists n, c, r. done.
  - unfold wgrow. rewrite Hww. by apply reflexivity.
Qed.
Lemma number_at i a (l : list Awaited) n : l !! i = Some a → aw_source a = FromJob n →
  NoDup (omap job_number l) → (n ∉ omap job_number (delete i l)) ∧ NoDup (omap job_number (delete i l)).
Proof.
  intros Hi Hs Hnd. rewrite <- (take_drop_middle l i a Hi) in Hnd.
  rewrite omap_app in Hnd. simpl in Hnd. unfold job_number in Hnd at 2. rewrite Hs in Hnd.
  rewrite delete_take_drop, omap_app. apply NoDup_app in Hnd as (N1 & N2 & N3).
  apply NoDup_cons in N3 as [N3 N4]. split.
  - rewrite elem_of_app. intros [Hn|Hn]; [|done]. apply (N2 n Hn). by left.
  - apply NoDup_app. split_and!; try done. intros x Hx Hx'. apply (N2 x Hx). by right.
Qed.
Lemma nodup_delete i (l : list Awaited) : NoDup (omap job_number l) → NoDup (omap job_number (delete i l)).
Proof.
  intros Hnd. rewrite delete_take_drop, omap_app. rewrite <- (take_drop i l), omap_app in Hnd.
  destruct (drop i l) as [|x rest] eqn:Hd.
  - assert (drop (S i) l = []) as -> by (rewrite <- Nat.add_1_r, <- drop_drop, Hd; done).
    simpl. by rewrite app_nil_r in *.
  - assert (drop (S i) l = rest) as -> by (rewrite <- Nat.add_1_r, <- drop_drop, Hd; done).
    simpl in Hnd. destruct (job_number x); [|done]. apply NoDup_app in Hnd as (N1 & N2 & N3).
    apply NoDup_cons in N3 as [N3 N4]. apply NoDup_app. split_and!; try done.
    intros y Hy Hy'. apply (N2 y Hy). by right.
Qed.
Lemma inv_takes l i a t t' : inv l t → awaited_of t !! i = Some a → done_job a t → takes i a t t' →
  inv l t' ∧ (aw_write a = true → no_write t').
Proof.
  intros Hi Ha Hd Htk. pose proof (takes_guar _ _ _ _ Htk Hd) as Hg. destruct Htk as [Hj Ht _ Haw _ Hact Hnext _].
  assert (a ∈ awaited_of t) as Hin by (by eapply list_elem_of_lookup_2).
  assert (∀ n c, jobs_of t' !! n = Some c → jobs_of t !! n = Some c) as Hsub.
  { intros n c. rewrite Hj. destruct (aw_source a); [|done]. by intros [_ ?]%lookup_delete_Some. }
  assert (∀ n, write_cell n t' → write_cell n t) as Hback by (intros n (c & Hc & ?); exists c; auto).
  assert (∀ x, x ∈ delete i (awaited_of t) → x ∈ awaited_of t) as Hdel.
  { intros x Hx. rewrite delete_take_drop in Hx. apply elem_of_app in Hx as [Hx|Hx].
    - eapply elem_of_submseteq; [exact Hx|apply sublist_submseteq, sublist_take].
    - eapply elem_of_submseteq; [exact Hx|apply sublist_submseteq, sublist_drop]. }
  split.
  - constructor; rewrite ?Ht, ?Haw, ?Hact, ?Hnext; try apply Hi.
    + eapply history_step; [apply Hi|exact Hg].
    + intros k m Hk Hm%Hback. by apply (v_cells _ _ _ Hi).
    + intros k Hk. destruct (jobs_of t' !! wk_number k) as [c|] eqn:Hc; [|done].
      apply Hsub in Hc. by rewrite (v_fresh _ _ _ Hi k Hk) in Hc.
    + intros n [c Hc%Hsub]. apply (v_jobs _ _ _ Hi). by exists c.
    + intros n m Hm Hw%Hback. by apply (v_called_cells _ _ _ Hi).
    + intros m m' Hm%Hback Hm'%Hback. by apply (v_one _ _ _ Hi).
    + intros Hf n Hw%Hback. by eapply (v_active _ _ _ Hi Hf).
    + intros x n Hx Hs. destruct (v_awaited _ _ _ Hi x n (Hdel _ Hx) Hs) as (c & Hc & Hcw). exists c. split; [|done].
      rewrite Hj. destruct (aw_source a) as [m|] eqn:Hsa; [|done]. rewrite lookup_delete_ne; [done|].
      intros ->. destruct (number_at _ _ _ _ Ha Hsa (v_nodup _ _ _ Hi)) as [Hno _]. apply Hno.
      apply list_elem_of_omap. exists x. split; [done|]. unfold job_number. by rewrite Hs.
    + intros x q Hx. apply (v_push _ _ _ Hi). auto.
    + apply nodup_delete, Hi.
  - intros Hw n Hn. destruct (aw_source a) as [m|q] eqn:Hsa.
    + destruct (v_awaited _ _ _ Hi a m Hin Hsa) as (c & Hc & Hcw).
      assert (n = m) as -> by (apply (v_one _ _ _ Hi); [by apply Hback|exists c; by rewrite Hcw]).
      destruct Hn as (c' & Hc' & _). by rewrite Hj, lookup_delete_eq in Hc'.
    + by rewrite (v_push _ _ _ Hi a q Hin Hsa) in Hw.
Qed.

(** [reads.completed.next()] *)
Definition received_ok (c : option Completion) t : Prop :=
  ready t ∧ match c with Some c => co_write c = true → no_write t | None => True end.
Lemma complete_run {E} i t : ready t → let x := complete (P := P) (W := W) (E := E) i t in
  task_guar t x.2 ∧ on_ok received_ok x.1 x.2.
Proof.
  intros Ht. unfold complete. cbv zeta.
  assert (∀ o, o = None → task_guar t t ∧ on_ok (E := E) received_ok (Ok o) t) as Hnone.
  { intros o ->. split; [by apply guar_still|]. by split. }
  destruct t as [[r s] w]. unfold reads_get, shared_get. rewrite run_gets, run_gets.
  destruct (rd_completed r !! i) as [a|] eqn:Ha; [|by apply Hnone].
  destruct (receive a s) as [source|] eqn:Hsrc; [|by apply Hnone].
  assert (done_job a ((r, s), w)) as Hd.
  { intros n Hs. unfold receive in Hsrc. rewrite Hs in Hsrc. unfold jobs_of. cbn [fst snd].
    destruct (sh_jobs s !! n) as [[d w' ph]|]; [|done]. simpl in Hsrc. destruct ph; try done. eauto. }
  destruct source as [push|out].
  - match goal with |- context [bind (bind ?p ?k) _] => set (prefix := p); set (next := k) end.
    assert (along still (bind prefix next)) as Hprefix.
    { unfold prefix, next. apply along_bind; [|intros []; along_auto].
      apply along_attempt. unfold in_gate. assert (along wgrow push) as Hpush.
      { unfold receive in Hsrc. destruct (aw_source a) as [n|q]; [|simplify_eq; along_auto].
        by destruct (jc_phase <$> sh_jobs s !! n) as [[]|]; simplify_eq. }
      along_auto. }
    pose proof (along_keeps_core peer_core _ ((r, s), w) Hprefix) as Hs.
    destruct (bind prefix next ((r, s), w)) as [[result|e|] t1] eqn:Hp; cbn [snd] in Hs.
    + rewrite (run_ok _ _ _ _ _ Hp). destruct (take_run (E := E) i a t1) as (t2 & Htr & Htk).
      rewrite (run_ok _ _ _ _ _ Htr). cbn [fst snd ret].
      destruct (still_parts _ _ Hs) as (Hq1 & _ & Haw1 & _ & Hj1 & _).
      assert (done_job a t1) as Hd1 by (intros n Hn; rewrite Hj1; by apply Hd).
      destruct (inv_takes (queue_of ((r, s), w)) i a t1 t2) as [Hi2 Hnw]; [by eapply inv_still|by rewrite Haw1|done|done|].
      split; [eapply guar_still_l; [exact Hs|by eapply takes_guar]|].
      split; [|done]. unfold PeerInv.ready. by rewrite (tk_queue _ _ _ _ Htk), Hq1.
    + rewrite (run_err _ _ _ _ _ Hp). cbn [fst snd]. split; [by apply guar_still|done].
    + assert (∀ k : string + Output → M St E (option Completion), bind (bind prefix next) k ((r, s), w) = (Panic, t1)) as ->
        by (intros k; unfold bind at 1; by rewrite Hp).
      cbn [fst snd]. split; [by apply guar_still|done].
  - rewrite run_ret. destruct (take_run (E := E) i a ((r, s), w)) as (t2 & Htr & Htk).
    rewrite (run_ok _ _ _ _ _ Htr). cbn [fst snd ret].
    destruct (inv_takes _ i a _ t2 Ht Ha Hd Htk) as [Hi2 Hnw].
    split; [by eapply takes_guar|]. split; [|done]. unfold PeerInv.ready. by rewrite (tk_queue _ _ _ _ Htk).
Qed.

(** [self.writes.finished()], once the write is off the executor *)
Lemma finished_run {E} t : ready t → no_write t → let x := ((
    let! r := reads_get in
    let '(late, q) := queue_finished r.(rd_writes) in
    on_queue (λ _, q);; ret late) : M St E bool) t in
  task_guar t x.2 ∧ ready x.2.
Proof.
  intros Hi Hno. destruct t as [[r s] w]. cbv zeta.
  match goal with |- context [?m ((r, s), w)] => set (x := m ((r, s), w)) end.
  split; [exact (guar_reads allowlist (E := E) (λ r, set_writes (queue_finished (rd_writes r)).2 r) ((r, s), w))|].
  destruct Hi as [h1 h2 h3 h4 h5 h6 h7 h8 h9 h10 h11 h12 h13 h14].
  constructor; try done. eapply history_step; [exact h1|].
  exact (guar_reads allowlist (E := E) (λ r, set_writes (queue_finished (rd_writes r)).2 r) ((r, s), w)).
Qed.
End Receive.
