(* ===== verification/TaskSafe.v ===== *)
(** * Every turn of a peer's task keeps its guarantee

    The methods of [write_bridge.rs] and [read_bridge.rs], and with them each turn of
    the loop of [drive] and what follows the loop. *)
From stdpp Require Import base gmap strings list relations.
From Stdlib Require Import ZArith Lia Sorted.
From S2P Require Import Prelude Steps Rust Externals Clock Devices Admin Events World Pairing.
From S2P Require Import Webauthn Session Authorize Gateway WriteAudit Jobs Herdr Push GitBridge.
From S2P Require Import Control Http Runs Wire Rpc Threads Growing Streams Calls WriteBridge.
From S2P Require Import ReadBridge Peer Still PeerRely CallsSafe PeerInv TaskSteps TaskSubmit.
Local Open Scope Z_scope.

Create HintDb restful discriminated.

(** By the syntax of a method; what is left is not quiet. *)
Ltac rest_step :=
  match goal with
  | |- restful _ (jbind _ _) => apply restful_bind; [|intros ?]
  | |- restful _ (jret _) => apply restful_ret
  | |- restful _ (jthrow _) => apply restful_throw
  | |- restful _ (jmap_err _ _) => apply restful_map_err
  | |- restful _ (jwhen _ _) => apply restful_when
  | |- restful _ (jfor_each _ _) => apply restful_for_each; intros ?
  | |- restful _ (jmap _ _) => apply restful_map; intros ?
  | |- restful _ (jcall _) => apply restful_call; solve [along_auto]
  | |- restful _ (jshared _) => apply restful_shared; solve [along_auto]
  | |- restful _ (lose _) => apply restful_shared; solve [along_auto]
  | |- restful _ _ => solve [eauto with restful nocore]
  | |- restful _ (let '(_, _) := ?p in _) => destruct p
  | |- restful _ (match ?x with _ => _ end) => destruct x
  end.
Ltac rest := cbn zeta; repeat rest_step.

Section Safe.
Context `{Base64, Json, Crypto, Http, Tokio, !TokioLaws _, Budgets, !Webauthn Transport, World W, !WorldLaws W}.
Context `{HerdrHost P, !GitHost P}.
Context (allowlist : gset string) (other : Audits * W → Audits * W).
Hypothesis other_grows : ∀ x, wgrow x (other x).
Abbreviation St := ((Reads * Shared P) * W)%type.
Implicit Types t : St.
Abbreviation ready := (ready (P := P) (W := W) allowlist).
Abbreviation task_guar := (task_guar (P := P) (W := W) allowlist).
Abbreviation task_relies := (task_relies (P := P) (W := W) allowlist).
Abbreviation tsafe := (safe task_relies task_guar).
Abbreviation tsteady := (steady task_relies task_guar).
Abbreviation once := (once (P := P) (W := W) allowlist).
Abbreviation restful := (restful (P := P) (W := W) allowlist).

(** ** Drops and cancellation *)

Lemma wgrow_open_failed {E} u reason : along wgrow (open_failed other u reason : M (Audits * W) E unit).
Proof. unfold open_failed. along_auto. Qed.
Lemma wgrow_stalled {E} u phase : along wgrow (stalled other u phase : M (Audits * W) E unit).
Proof. unfold stalled. along_auto. Qed.
Hint Resolve wgrow_open_failed wgrow_stalled : stepping.
Lemma still_flush {E} force id u : along sstill (flush_bucket (P := P) (W := W) (E := E) force id u).
Proof. unfold flush_bucket. along_auto. Qed.
Lemma still_close {E} id reason : along still (close_state (P := P) (W := W) (E := E) id reason).
Proof. unfold close_state. along_auto. Qed.
Hint Resolve still_flush still_close still_answer : stepping.

Lemma restful_cancelled {E} p : restful (pending_cancelled (E := E) other p).
Proof. apply restful_steady, steady_cancelled; [done|apply closed_ready]. Qed.
Lemma restful_drop_run {E} r : restful (lose (E := E) (drop_run r)).
Proof. apply restful_call, still_drop_run. Qed.
Hint Resolve restful_cancelled restful_drop_run : restful.
Lemma restful_discard' {E} stream : restful (discard_write_stream (E := E) other stream).
Proof. by apply restful_discard. Qed.
Hint Resolve restful_discard' : restful.
Lemma restful_write_stream_drop {E} id ws : restful (write_stream_drop (E := E) other id ws).
Proof. unfold write_stream_drop. rest. Qed.
Hint Resolve restful_write_stream_drop : restful.
Lemma restful_stream_drop {E} id s : restful (stream_drop (E := E) other id s).
Proof. unfold stream_drop. rest. Qed.
Hint Resolve restful_stream_drop : restful.
Lemma restful_remove {E} id : restful (remove_stream (E := E) other id).
Proof. unfold remove_stream. rest. Qed.
Hint Resolve restful_remove : restful.
Lemma restful_answer {E} v : restful (push_answer (E := E) v).
Proof. unfold push_answer. rest. Qed.
Hint Resolve restful_answer : restful.

(** ** [write_call] *)
Context (parsers : BridgeParsers) (config : GwConfig).

Lemma still_identity {E A} (m : M (Identity * W) E A) : along wgrow m → along still (peer_identity (P := P) m).
Proof. intros Hm. unfold peer_identity, in_gate. pose proof @wgrow_in_identity. along_auto. Qed.
Lemma still_audit {E} ctx scope session target : along still (peer_audit (P := P) (W := W) (E := E) ctx scope session target).
Proof. unfold peer_audit. along_auto. Qed.
Lemma still_of_either {A} (r : string + A) : along still (of_either (S := St) r).
Proof. destruct r; unfold of_either; along_auto. Qed.
Lemma still_or_drop {A} f (m : M St string A) :
  (∀ s, shared_core (f s) = shared_core s) → along still m → along still (or_drop f m).
Proof. intros Hf Hm. unfold or_drop. pose proof (sstill_update (E := string) f Hf). along_auto. Qed.
Lemma core_fulls full s : shared_core (drop_fulls (P := P) full s) = shared_core s.
Proof. destruct full as [d|]; [|done]. unfold drop_fulls, drop_full. by destruct (gt_full (sh_gate s) !! d). Qed.
Lemma still_full device : along sstill (full_acquire (P := P) (W := W) device).
Proof. unfold full_acquire. along_auto. Qed.
Hint Resolve still_identity still_audit still_of_either still_full still_jobs : stepping.

Lemma once_admit_open ctx id method params deadline fresh_until :
  once (admit_open (P := P) (W := W) parsers ctx id method params deadline fresh_until).
Proof.
  unfold admit_open.
  apply once_bind_l; [along_auto|intros s]. apply once_bind_l; [along_auto|intros []].
  apply once_bind_l; [along_auto|intros r]. apply once_bind_l; [along_auto|intros []].
  apply once_bind_l; [along_auto|intros [[[session target] size] takeover]].
  apply once_bind_l; [destruct (if bool_decide _ then _ else _); along_auto|intros []].
  apply once_bind_l; [apply still_or_drop; [apply core_fulls|along_auto]|intros []].
  apply once_bind_l; [apply still_or_drop; [intros s'; by rewrite core_fulls|along_auto]|intros next].
  apply once_bind_l; [along_auto|intros []]. apply once_bind_l; [along_auto|intros u].
  apply once_bind_r; [by apply once_send|intros []]. along_auto.
Qed.
Lemma once_admit_agent ctx id method params deadline :
  once (admit_agent (P := P) (W := W) parsers ctx id method params deadline).
Proof.
  unfold admit_agent. apply once_bind_l; [along_auto|intros [[session target] message]].
  apply once_bind_l; [along_auto|intros []]. apply once_bind_l; [along_auto|intros u]. by apply once_send.
Qed.
Lemma once_admit_op ctx id method params deadline :
  once (admit_op (P := P) (W := W) parsers ctx id method params deadline).
Proof.
  unfold admit_op. apply once_bind_l; [along_auto|intros [stream op]].
  apply once_bind_l; [along_auto|intros r]. apply once_bind_l; [along_auto|intros s].
  apply once_bind_l; [along_auto|intros ws]. apply once_bind_l; [along_auto|intros lease].
  apply once_bind_l; [along_auto|intros resource]. by apply once_send.
Qed.
Lemma once_if {E A} (b : bool) (m n : M St E A) : once m → once n → once (if b then m else n).
Proof. by destruct b. Qed.
Lemma once_admit_call ctx id method params deadline fresh_until :
  once (admit_call (P := P) (W := W) parsers ctx id method params deadline fresh_until).
Proof.
  unfold admit_call. apply once_bind_l; [along_auto|intros r]. apply once_if; [apply once_still; along_auto|].
  apply once_bind_l; [along_auto|intros []]. apply once_bind_l; [along_auto|intros []].
  apply once_bind_r; [|intros []; along_auto].
  apply once_if; [apply once_admit_open|apply once_if; [apply once_admit_agent|apply once_admit_op]].
Qed.
Lemma still_authorized ctx scope :
  along still (in_gate (P := P) (W := W) (with_authorized_whole config ctx scope (ret tt))).
Proof. unfold in_gate. along_auto. Qed.
Lemma once_section ctx id method params : once (write_section (P := P) (W := W) parsers config ctx id method params).
Proof.
  unfold write_section. apply once_bind_l; [apply still_authorized|intros []]. apply once_attempt.
  apply once_bind_l; [|intros deadline].
  { destruct (tightening method); [unfold in_gate|apply along_map_err]; along_auto. }
  apply once_bind_l; [along_auto|intros fresh]. apply once_admit_call.
Qed.
Lemma restful_refuse {E} ctx scope code id :
  restful (do! u := jcall (peer_audit (E := E) ctx scope "" None) in
           jshared (in_audits (rejected other u));;;
           jret (Some (rpc_error id code (write_message code)))).
Proof. rest. Qed.
Lemma restful_write_call ctx id method params : restful (write_call (P := P) parsers config other ctx id method params).
Proof.
  unfold write_call. apply restful_bind; [apply restful_attempt_once, once_section|].
  intros [e|[code|[stream|]]].
  - case_bool_decide; [apply restful_refuse|]. destruct (e.1 =? FORBIDDEN); [apply restful_refuse|rest].
  - apply restful_refuse.
  - rest.
  - rest.
Qed.
Hint Resolve restful_write_call : restful.
Lemma restful_binary ctx message : restful (binary_call (P := P) parsers config other ctx message).
Proof. unfold binary_call. rest. Qed.

(** ** [pump_writes] *)
Lemma still_take {E} k : along still (
  let! r := reads_get in
  let! streams := iterate r.(rd_streams) in
  let displaced := displaced_by k streams r.(rd_streams) in
  let leases := omap (λ id, take_lease id r.(rd_streams)) displaced in
  on_streams (λ m, foldr (alter (set_lease None)) m displaced);;
  let! now := in_shared clock_read in
  ret (Some (k, displaced, leases, now)) : M St E _).
Proof. along_auto. Qed.
(** What the pump took, and that no write is with the executor *)
Definition taken (o : option (Work * list Z * list (Z * Lease) * Timestamp)) t : Prop :=
  match o with
  | Some (k, _, _, _) => PeerInv.inv allowlist (k :: queue_of t) t ∧ active_of t = false
  | None => ready t
  end.
Lemma take_pump {E} t : ready t → active_of t = false →
  let x := pump_take (P := P) (W := W) (E := E) t in task_guar t x.2 ∧ on_ok taken x.1 x.2.
Proof.
  intros Ht Hact. cbv zeta. unfold pump_take. destruct (recv_run (E := E) t) as (t1 & Hr & Hp & Hq).
  rewrite (run_ok _ _ _ _ _ Hr). pose proof (private_guar allowlist _ _ Hp) as Hg.
  pose proof (private_inv allowlist _ _ _ Hp Ht) as Hi. pose proof (proj1 (proj2 (proj2 Hp))) as Ha.
  destruct (queue_of t) as [|k q] eqn:Hqt; simpl in Hq; cbn [head].
  - split; [done|]. simpl. unfold PeerInv.ready. by rewrite Hq.
  - pose proof (along_keeps_core peer_core _ t1 (still_take (E := E) k)) as Hs.
    match type of Hs with keeps_core _ _ (snd ?x) => set (y := x) in * end.
    split; [by eapply guar_still_r|]. destruct (still_parts _ _ Hs) as (Hq2 & Ha2 & _).
    assert (match y.1 with Ok (Some (k', _, _, _)) => k' = k | Ok None => False | _ => True end) as Hk.
    { unfold y, reads_get, on_streams, on_reads, clock_read, in_shared, zoom, iterate, lift, bind, gets, modify, ret.
      destruct t1 as [[r1 s1] w1]. cbn [fst snd].
      destruct (world_order (rd_streams r1) w1) as [l w2]. destruct (world_now w2). done. }
    destruct y.1 as [[[[[k' displaced] leases] now]|]|e|]; [|done..]. subst k'. simpl.
    rewrite Hq2, Ha2, Hq, Ha. split; [|done]. by eapply inv_still.
Qed.
Lemma restful_pump {E} : restful (pump_writes (P := P) (E := E) other).
Proof.
  intros t Ht. unfold pump_writes. apply (safe_jcall _ _ ready); [apply ready_rely|done|].
  clear t Ht. intros t Ht. split; [apply guar_still; by destruct t as [[? ?] ?]|].
  destruct t as [[r s] w]. cbn [fst snd reads_get gets].
  destruct (qu_active (rd_writes r)) eqn:Hact; [by apply restful_ret|].
  set (I := λ t, ready t ∧ active_of t = false).
  assert (∀ t t', I t → task_relies t t' → I t') as HI.
  { intros a b [Ha Hf] Hr. split; [by eapply ready_rely|]. destruct Hr as (o & Ho & Hg). unfold active_of.
    by rewrite (g_reads _ _ _ _ Hg Ho). }
  apply (safe_jcall _ _ I HI); [done|]. intros t [Hrt Hft]. destruct (take_pump (E := E) t Hrt Hft) as [Hg Hok].
  split; [exact Hg|]. revert Hok. generalize (pump_take (E := E) t).2 as t1.
  destruct (pump_take t).1 as [[[[[k displaced] leases] now]|]|e|]; intros t1 Hok; [|by apply restful_ret|done..].
  clear s w Hact r Ht t Hrt Hft Hg. destruct Hok as [Hi Hf].
  set (J := λ t, PeerInv.inv allowlist (k :: queue_of t) t ∧ active_of t = false).
  assert (∀ t t', J t → task_relies t t' → J t') as HJ.
  { intros a b [Ha Hfa] Hr. pose proof Hr as (o & Ho & Hg). unfold J, queue_of, active_of.
    rewrite (g_reads _ _ _ _ Hg Ho). split; [by eapply inv_rely|done]. }
  apply (safe_then allowlist (λ _, ready)).
  - unfold jattempt. intros s' Hr. cbn [jcall tbind].
    destruct (I_relies _ _ HJ t1 s' (conj Hi Hf) Hr) as [Hi' Hf'].
    destruct (pump_submitted allowlist k leases now s' Hi' Hf') as [Hg Hrd]. split; [exact Hg|].
    destruct (pump_submit k leases now s').1; intros s2 Hs2; simpl; try done;
      by eapply (I_relies _ _ (ready_rely _)).
  - intros [code|u] s Hs; revert s Hs; match goal with |- ∀ s, _ → safe _ _ ?m _ _ => change (restful m) end; rest.
Qed.
End Safe.

(** * Every turn of a peer's task keeps its guarantee: reads, time, the loop

    The other methods of the bridges, and with them each turn of the loop of [drive]
    and what follows the loop. *)
Section Turn.
Context `{Base64, Json, Crypto, Http, Tokio, !TokioLaws _, Budgets, !Webauthn Transport, World W, !WorldLaws W}.
Context `{HerdrHost P, !GitHost P}.
Context (allowlist : gset string) (other : Audits * W → Audits * W).
Hypothesis other_grows : ∀ x, wgrow x (other x).
Abbreviation St := ((Reads * Shared P) * W)%type.
Implicit Types t : St.
Abbreviation ready := (ready (P := P) (W := W) allowlist).
Abbreviation task_guar := (task_guar (P := P) (W := W) allowlist).
Abbreviation task_relies := (task_relies (P := P) (W := W) allowlist).
Abbreviation tsafe := (safe task_relies task_guar).
Abbreviation tsteady := (steady task_relies task_guar).
Abbreviation once := (once (P := P) (W := W) allowlist).
Abbreviation restful := (restful (P := P) (W := W) allowlist).
Hint Resolve wgrow_open_failed wgrow_stalled still_flush still_close still_answer still_jobs still_of_either : stepping.
Hint Resolve restful_cancelled restful_drop_run restful_discard' restful_write_stream_drop restful_stream_drop
  restful_remove restful_answer restful_write_call restful_binary restful_pump : restful.

(** ** Time *)
Lemma restful_closed {E} : restful (reads_closed (E := E) other).
Proof. unfold reads_closed. rest. Qed.
Lemma restful_stall {E} d : restful (write_stall (E := E) other d).
Proof. unfold write_stall. rest. Qed.
Hint Resolve restful_closed restful_stall : restful.
Lemma restful_tick_stream {E} e : restful (tick_stream (P := P) (W := W) (E := E) e).
Proof. unfold tick_stream. rest. Qed.
Hint Resolve restful_tick_stream : restful.
Lemma restful_tick {E} : restful (write_tick (P := P) (E := E) other).
Proof. unfold write_tick. rest. Qed.
Hint Resolve restful_tick : restful.

(** ** Calls that read *)
Context (parsers : BridgeParsers) (config : GwConfig).

Lemma once_holding {A} (m : M St string A) : once m → once (holding m).
Proof. intros Hm. unfold holding, release_pending. apply once_bind_r; [by apply once_attempt|intros [e|a]; along_auto]. Qed.
Lemma once_refused stream {A} (m : M St string A) : once m → once (refused_read stream m).
Proof. intros Hm. unfold refused_read. apply once_bind_r; [by apply once_attempt|intros [e|a]; along_auto]. Qed.
Lemma still_holding {A} (m : M St string A) : along still m → along still (holding m).
Proof. intros Hm. unfold holding, release_pending. along_auto. Qed.
Lemma still_acquire : along still (acquire_pending (P := P) (W := W)).
Proof. unfold acquire_pending. along_auto. Qed.
Lemma still_open_read method session : along still (open_read (P := P) (W := W) method session).
Proof.
  unfold open_read. pose proof (λ A f m Hf Hm, still_or_drop (P := P) (W := W) (A := A) f m Hf Hm) as Hdrop.
  destruct (is_opening method); [|along_auto]. apply along_bind; [along_auto|intros r].
  apply along_bind; [along_auto|intros []]. apply along_bind; [along_auto|intros []].
  apply along_bind; [apply still_or_drop; [done|along_auto]|intros next]. along_auto.
Qed.
Hint Resolve still_acquire still_open_read still_holding : stepping.
Lemma once_git device id method params : once (git_call (P := P) (W := W) parsers device id method params).
Proof.
  unfold git_call. do 5 (apply once_bind_l; [along_auto|intros ?]).
  apply once_bind_r; [apply once_holding, once_submit_read|intros []]. along_auto.
Qed.
Lemma once_subscribe device id params : once (push_subscribe (P := P) (W := W) parsers device id params).
Proof.
  unfold push_subscribe. apply once_bind_l; [along_auto|intros []].
  apply once_bind_l; [unfold in_gate; along_auto|intros request]. apply once_push.
Qed.
Lemma once_host_read device id method params : once (host_read (P := P) (W := W) parsers device id method params).
Proof.
  unfold host_read. apply once_bind_l; [along_auto|intros [session target]].
  do 2 (apply once_bind_l; [along_auto|intros ?]).
  match goal with |- TaskSteps.once _ (match ?x with _ => _ end) => destruct x as [[stream s]|] end; [apply once_still; along_auto|].
  apply once_bind_l; [along_auto|intros []].
  apply once_bind_r; [|intros []; along_auto]. apply once_holding.
  apply once_bind_l; [along_auto|intros stream]. apply once_refused, once_submit_read.
Qed.
Lemma once_enqueue device id method params : once (enqueue (P := P) (W := W) parsers device id method params).
Proof.
  unfold enqueue, or_error. apply once_bind_r; [apply once_attempt|intros [code|x]; along_auto].
  apply once_if; [apply once_still; along_auto|].
  apply once_if; [apply once_bind_r; [apply once_subscribe|intros []; along_auto]|].
  apply once_if; [apply once_bind_r; [apply once_git|intros []; along_auto]|].
  apply once_bind_r; [apply once_host_read|intros ?; along_auto].
Qed.
Lemma restful_read_call ctx id method params : restful (read_call (P := P) parsers config other ctx id method params).
Proof.
  unfold read_call. apply restful_bind; [apply restful_attempt_once|].
  - apply once_bind_l; [apply still_authorized|intros []]. apply once_enqueue.
  - intros [e|[v|stream s]]; rest.
Qed.
Hint Resolve restful_read_call : restful.

(** ** Completions *)
Lemma still_drop_output {E} out : along sstill (drop_output (P := P) (W := W) (S := E) out).
Proof. destruct out; unfold drop_output; along_auto. Qed.
Hint Resolve still_drop_output : stepping.
Lemma still_drop_result {E} r : along sstill (drop_result (P := P) (W := W) (S := E) r).
Proof. unfold drop_result. along_auto. Qed.
Lemma still_announce {E} id ws v b : along still (announce_stream (P := P) (E := E) other id ws v b).
Proof. unfold announce_stream. along_auto. Qed.
Hint Resolve still_drop_result still_announce : stepping.
Lemma restful_opened {E} c lease value b : restful (finish_opened (E := E) other c lease value b).
Proof. unfold finish_opened. rest. Qed.
Lemma restful_failed {E} c code : restful (finish_failed (E := E) other c code).
Proof. unfold finish_failed. rest. Qed.
Hint Resolve restful_opened restful_failed : restful.
Lemma received_rely c t t' : received_ok allowlist (Some c) t → task_relies t t' → received_ok allowlist (Some c) t'.
Proof.
  intros [Hr Hw] Hrel. split; [by eapply ready_rely|]. intros Hc. eapply no_write_rely; [by apply Hw|done].
Qed.
Lemma safe_finish {E} c t : received_ok allowlist (Some c) t →
  tsafe (finish (E := E) other c) (on_ok (λ _, ready)) t.
Proof.
  intros Ht. unfold finish. apply (safe_then allowlist (λ _, ready)).
  - destruct (co_write c) eqn:Hc; intros s Hs; pose proof (I_relies _ _ (received_rely c) _ _ Ht Hs) as [Hr Hw]; [|done].
    pose proof (finished_run allowlist (E := E) s Hr (Hw Hc)) as [Hg Hrd]. split; [exact Hg|].
    revert Hrd. match goal with |- _ → safe _ _ (_ ?x.1) _ _ => generalize x end. intros x Hx s' Hs'.
    destruct x.1; [|done..]. by eapply (I_relies _ _ (ready_rely _)).
  - intros late s Hs. revert s Hs. match goal with |- ∀ s, _ → safe _ _ ?m _ _ => change (restful m) end. rest.
Qed.

(** ** The loop *)
Context (parse_call : string → option Call) (rfc3339 : Timestamp → string).
Context (rest_ : nat → Whole * W → Whole * W).
Hypothesis rest_grows : ∀ n x, wgrow x (rest_ n x).

Lemma still_outbound {E A} (m : M Wire E A) : along still (on_outbound (P := P) (W := W) m).
Proof.
  unfold on_outbound. apply still_shared. apply keeps_zoom_state; solve [by intros ? [] | by intros ? [[] ?]].
Qed.
Hint Resolve still_outbound : stepping.
Lemma restful_send l : restful (send_replies (P := P) (W := W) l).
Proof. unfold send_replies. rest. Qed.
Hint Resolve restful_send : restful.
Lemma restful_invalid {A} (m : Job St unit A) : restful m → restful (or_invalid m).
Proof. intros Hm. unfold or_invalid. by apply restful_map_err. Qed.
Hint Resolve restful_invalid : restful.
Lemma still_rpc ctx text : along still (in_gate (P := P) (rpc parse_call rfc3339 config rest_ ctx text)).
Proof. unfold in_gate. along_auto. Qed.
Hint Resolve still_rpc : stepping.
Lemma restful_text ctx text : restful (on_text parse_call rfc3339 parsers config other rest_ ctx text).
Proof. unfold on_text. rest. Qed.
Lemma restful_on_binary ctx bytes : restful (on_binary (P := P) parsers config other ctx bytes).
Proof. unfold on_binary. rest. Qed.
Lemma restful_authorize ctx : restful (authorize_activity (P := P) (W := W) config ctx).
Proof.
  unfold authorize_activity. apply restful_invalid, restful_map_err, restful_call.
  pose proof (still_authorized (P := P) (W := W) config). along_auto.
Qed.
Hint Resolve restful_text restful_on_binary restful_authorize : restful.
Lemma restful_message ctx m c : restful (on_message parse_call rfc3339 parsers config other rest_ ctx m c).
Proof. unfold on_message. rest. Qed.
Hint Resolve restful_message : restful.
Lemma restful_incoming ctx now i c : restful (on_incoming parse_call rfc3339 parsers config other rest_ ctx now i c).
Proof. unfold on_incoming. rest. Qed.
Hint Resolve restful_incoming : restful.
Lemma restful_completed i c : restful (
  do! completion := jcall (complete i) in
  (match completion with
   | Some completion =>
       do! l := finish other completion in
       send_replies l;;;
       do! l := reads_closed other in
       send_replies l
   | None => jret tt
   end);;;
  jret c : Job St Close Conn).
Proof.
  intros t Ht. apply (safe_jcall _ _ ready); [apply ready_rely|done|]. clear t Ht. intros t Ht.
  destruct (complete_run allowlist (E := Close) i t Ht) as [Hg Hok]. split; [exact Hg|].
  revert Hok. generalize (complete (E := Close) i t). intros [[[x|]|e|] t']; cbn [fst snd on_ok]; [|intros [Hr _]; revert Hr|done..].
  - intros Hx. apply (safe_then allowlist (λ _, ready)); [|by intros ? s Hs; apply restful_ret].
    apply (safe_then allowlist (λ _, ready)); [by apply safe_finish|].
    intros l s Hs. revert s Hs. match goal with |- ∀ s, _ → safe _ _ ?m _ _ => change (restful m) end. rest.
  - revert t'. match goal with |- ∀ s, _ → safe _ _ ?m _ _ => change (restful m) end. rest.
Qed.
Hint Resolve restful_completed : restful.
Lemma restful_event ctx e c : restful (on_event parse_call rfc3339 parsers config other rest_ ctx e c).
Proof. destruct e; cbn [on_event]; try apply restful_completed; rest. Qed.
Hint Resolve restful_event : restful.
Lemma still_life : along still (check_life (P := P) (W := W)).
Proof. unfold check_life. along_auto. Qed.
Lemma still_answered {E} : along still (cancelled_writes (P := P) (W := W) (E := E)).
Proof. unfold cancelled_writes. along_auto. Qed.
Hint Resolve still_life still_answered : stepping.
Lemma restful_turn ctx e c : restful (turn parse_call rfc3339 parsers config other rest_ ctx e c).
Proof. unfold turn. rest. Qed.
Lemma restful_opening now : restful (opening (P := P) (W := W) now).
Proof. unfold opening. rest. Qed.
End Turn.

(** * The end of a peer's task keeps its guarantee

    [cancel_writes], then the drop of [Reads]: results that nobody receives any more
    are dropped with their cells. *)
Section End.
Context `{Base64, Json, Crypto, Http, Tokio, !TokioLaws _, Budgets, !Webauthn Transport, World W, !WorldLaws W}.
Context `{HerdrHost P, !GitHost P}.
Context (allowlist : gset string) (other : Audits * W → Audits * W).
Hypothesis other_grows : ∀ x, wgrow x (other x).
Abbreviation St := ((Reads * Shared P) * W)%type.
Implicit Types t : St.
Abbreviation ready := (ready (P := P) (W := W) allowlist).
Abbreviation task_guar := (task_guar (P := P) (W := W) allowlist).
Abbreviation task_relies := (task_relies (P := P) (W := W) allowlist).
Abbreviation tsafe := (safe task_relies task_guar).
Abbreviation once := (once (P := P) (W := W) allowlist).
Abbreviation restful := (restful (P := P) (W := W) allowlist).
Hint Resolve still_flush still_close still_answered still_drop_output : stepping.

Definition calm {E A} (m : Job St E A) : Prop := steady task_relies task_guar (λ _, True) m.

Lemma calm_then {E A B} (m : Job St E A) (k : A → Job St E B) : calm m → (∀ a, calm (k a)) → calm (jbind m k).
Proof. by apply steady_jbind. Qed.
Lemma calm_result {E A} (a : A) : calm (jret (E := E) a).
Proof. by apply steady_jret. Qed.
Lemma calm_for_each {E A} (l : list A) (body : A → Job St E unit) : (∀ x, calm (body x)) → calm (jfor_each l body).
Proof. by apply steady_jfor_each. Qed.
Lemma calm_call {E A} (m : M St E A) : (∀ t, task_guar t (m t).2) → calm (jcall m).
Proof. intros Hm. by apply steady_jcall. Qed.
Lemma calm_still {E A} (m : M St E A) : along still m → calm (jcall m).
Proof. intros Hm. eapply task_call; [apply closed_true|done]. Qed.
Lemma calm_cancelled {E} p : calm (pending_cancelled (E := E) other p).
Proof. apply steady_cancelled; [done|apply closed_true]. Qed.
Lemma calm_recv {E} : calm (jcall (queue_recv (P := P) (W := W) (E := E))).
Proof. apply calm_call. intros t. destruct (recv_run (E := E) t) as (t' & -> & Hp & _). by apply private_guar. Qed.
Lemma calm_drop_run {E} r : calm (lose (E := E) (drop_run (P := P) r)).
Proof. apply calm_still. apply still_drop_run. Qed.
Ltac calm_step :=
  match goal with
  | |- calm (jbind _ _) => apply calm_then; [|intros ?]
  | |- calm (jret _) => apply calm_result
  | |- calm (jfor_each _ _) => apply calm_for_each; intros ?
  | |- calm (pending_cancelled _ _) => apply calm_cancelled
  | |- calm (lose (drop_run _)) => apply calm_drop_run
  | |- calm (lose _) => apply calm_still; unfold lose; along_auto
  | |- calm (jcall queue_recv) => apply calm_recv
  | |- calm (jcall _) => apply calm_still; solve [along_auto]
  | |- calm (jshared _) => apply calm_still; solve [along_auto]
  | |- calm (match ?x with _ => _ end) => destruct x
  end.
Ltac calm := repeat calm_step.

Lemma calm_stream_drop {E} id s : calm (stream_drop (E := E) other id s).
Proof. unfold stream_drop, write_stream_drop. calm. Qed.
Lemma calm_rest {E} n : calm (cancel_rest (E := E) other n).
Proof. induction n as [|n IH]; cbn [cancel_rest]; calm. apply IH. Qed.
Lemma calm_cancel_writes {E} reason : calm (cancel_writes (P := P) (E := E) other reason).
Proof. unfold cancel_writes. calm. apply calm_rest. Qed.

(** What nobody waits for any more is forgotten. *)
Lemma calm_awaited {E} a : calm (jshared (E := E) (drop_awaited (P := P) (W := W) a)).
Proof.
  intros t _ s _. split; [|by intros s' _]. destruct s as [[r s] w]. rewrite in_shared_run. cbn [snd].
  unfold drop_awaited. destruct (aw_source a) as [n|q]; [|by apply guar_still].
  unfold get. rewrite run_gets. cbn [fst snd].
  destruct (sh_jobs s !! n) as [[d b [c| |out]]|] eqn:Hn; try by apply guar_still.
  destruct out as [out|e|]; cbn [fmap option_fmap option_map jc_phase]; try by apply guar_still.
  set (s1 := set_jobs (delete n (sh_jobs s)) s).
  assert (task_guar ((r, s), w) ((r, s1), w)) as Hg.
  { constructor; try done; [by left|]. right; right. exists n, (mkJobCell d b (JobDone (Ok out))), (Ok out). done. }
  pose proof (along_keeps_core shared_core (drop_output (S := E) out) (s1, w) (still_drop_output out)) as [Hc Hw].
  change ((update (set_jobs (delete n (sh_jobs s)));; drop_output out) (s, w)) with (drop_output (S := E) out (s1, w)).
  eapply guar_still_r; [exact Hg|]. destruct (drop_output out (s1, w)) as [x [s2 w2]]. cbn [fst snd] in *.
  split; [|done]. unfold peer_core. cbn [fst snd]. by rewrite Hc.
Qed.
Lemma calm_drop {E} : calm (reads_drop (P := P) (E := E) other).
Proof.
  unfold reads_drop. calm.
  - apply calm_stream_drop.
  - apply calm_call. intros t. apply (guar_reads allowlist).
  - apply calm_awaited.
Qed.
Lemma calm_ending reason : calm (ending (P := P) other reason).
Proof. unfold ending. calm; [apply calm_cancel_writes|apply calm_drop]. Qed.
End End.
