(* ===== verification/PeerSystem.v ===== *)
(** * The invariant of a peer and its threads

    [sys_inv] composes the guarantees of the task, of each call on its thread and of
    the executor; every step of the system keeps it. *)
From stdpp Require Import base gmap strings list relations fin_map_dom.
From Stdlib Require Import ZArith Lia Sorted.
From S2P Require Import Prelude Steps Rust Externals Clock Devices Admin Events World Pairing.
From S2P Require Import Webauthn Session Authorize Gateway WriteAudit Jobs Herdr Push GitBridge.
From S2P Require Import Control Http Runs Wire Rpc Threads Growing Streams Calls WriteBridge.
From S2P Require Import ReadBridge Peer Still PeerRely CallsSafe CallsOpen Truthful PeerInv.
From S2P Require Import TaskSteps TaskSubmit TaskSafe.
Local Open Scope Z_scope.

Section System.
Context `{Base64, Json, Crypto, Http, Tokio, !TokioLaws _, Budgets, !Webauthn Transport, World W, !WorldLaws W}.
Context `{HerdrHost P, !GitHost P}.
Context (parse_call : string → option Call) (rfc3339 : Timestamp → string) (parsers : BridgeParsers).
Context (json_from_str : string → option Value) (allowlist : gset string) (config : GwConfig).
Context (other : Audits * W → Audits * W) (rest : nat → Whole * W → Whole * W).
Hypothesis other_grows : ∀ x, wgrow x (other x).
Hypothesis rest_grows : ∀ n x, wgrow x (rest n x).
Abbreviation St := ((Reads * Shared P) * W)%type.
Implicit Types t : St.
Abbreviation step := (gstep (P := P) (W := W) allowlist).
Abbreviation ready := (ready (P := P) (W := W) allowlist).
Abbreviation tsafe := (safe (task_relies allowlist) (task_guar allowlist)).
Abbreviation safely n := (safe (relies (P := P) (W := W) allowlist n) (guarantees allowlist n)).
Abbreviation Sys := (Sys (P := P) (W := W)).

(** ** Cells of the executor *)

(** A call that waits for a thread is the one that was submitted. *)
Definition waiting_ok (n : Z) (write : bool) (c : Submission) t : Prop :=
  match c with
  | SubmitRead _ _ => write = false
  | SubmitWrite k _ => write = true ∧ wk_number k = n ∧ Entered k ∈ trace_of t
                       ∧ ∀ m, m ∈ calls_of (trace_of t) → m < n
  end.
Record cells t : Prop := mkCells {
  ce_waiting n d w c : jobs_of t !! n = Some (mkJobCell d w (JobSubmitted c)) → waiting_ok n w c t;
  ce_one m m' : write_cell m t → write_cell m' t → m = m';
}.
(** Only a running call makes a call of the host. *)
Definition runs (o : Owner) t : Prop :=
  match o with OfCall n => ∃ d w, jobs_of t !! n = Some (mkJobCell d w JobRunning) | _ => True end.

Lemma waiting_back o t t' n d w c : step o t t' →
  jobs_of t' !! n = Some (mkJobCell d w (JobSubmitted c)) →
  jobs_of t !! n = Some (mkJobCell d w (JobSubmitted c)) ∨ (o = OfTask ∧ submitted_ok t n w c).
Proof.
  intros Hg Hn. pose proof (g_jobs _ _ _ _ Hg) as Hj. destruct o as [|m|m|]; simpl in Hj; try (left; congruence).
  - destruct Hj as [Hj|[(m & d' & w' & c' & Hm & Hc & Hj)|(m & c' & r & Hm & Hp & Hj)]]; rewrite Hj in Hn; [by left| |].
    + destruct (decide (n = m)) as [->|Hne]; [|rewrite lookup_insert_ne in Hn by done; by left].
      rewrite lookup_insert_eq in Hn. simplify_eq. by right.
    + apply lookup_delete_Some in Hn as [_ Hn]. by left.
  - destruct Hj as (c' & Hm & Hj). left. destruct (decide (n = m)) as [->|Hne].
    + destruct Hj as [(s & _ & Hj)|(_ & [[r Hj]|[_ Hj]])]; rewrite Hj in Hn;
        rewrite ?lookup_insert_eq, ?lookup_delete_eq in Hn; by simplify_eq.
    + destruct Hj as [(s & _ & Hj)|(_ & [[r Hj]|[_ Hj]])]; rewrite Hj in Hn;
        by rewrite ?lookup_insert_ne, ?lookup_delete_ne in Hn.
Qed.
Lemma first_write o t t' m m' : step o t t' → no_write t → write_cell m t' → write_cell m' t' → m = m'.
Proof.
  intros Hg Hno. pose proof (g_jobs _ _ _ _ Hg) as Hj. destruct o as [|x|x|]; simpl in Hj;
    try (intros (c & Hc & Hw) _; rewrite Hj in Hc; by edestruct Hno; exists c).
  - destruct Hj as [Hj|[(n & d & w & c' & Hn & Hc' & Hj)|(n & c' & r & Hn & Hp & Hj)]].
    + intros (c & Hc & Hw) _. rewrite Hj in Hc. by edestruct Hno; exists c.
    + assert (∀ i, write_cell i t' → i = n) as Hi; [|by intros ->%Hi ->%Hi].
      intros i (c & Hc & Hw). rewrite Hj in Hc. destruct (decide (i = n)) as [->|Hne]; [done|].
      rewrite lookup_insert_ne in Hc by done. by edestruct (Hno i); exists c.
    + intros (c & Hc & Hw) _. rewrite Hj in Hc. apply lookup_delete_Some in Hc as [_ Hc]. by edestruct Hno; exists c.
  - intros Hm _. destruct (write_back _ _ _ _ _ Hg ltac:(done) Hm) as (c & Hc). by edestruct Hno; exists c.
Qed.
Lemma cells_step o t t' : cells t → runs o t → step o t t' → cells t'.
Proof.
  intros [Hw Hone] Hrun Hg. constructor.
  - intros n d w c Hn. destruct (waiting_back _ _ _ _ _ _ _ Hg Hn) as [Ho|[-> Ho]].
    + specialize (Hw _ _ _ _ Ho). destruct c as [|k h]; [done|]. destruct Hw as (-> & Hk & Ha & Hc).
      split_and!; try done; [by eapply trace_grows|]. intros m Hm.
      destruct (calls_back allowlist _ _ _ _ Hg Hm) as [Hm'|(-> & Hwc & _)]; [by apply Hc|].
      assert (m = n) as -> by (apply Hone; [done|by eexists]). destruct Hrun as (d' & w' & Hr). congruence.
    + destruct c as [|k h]; [done|]. destruct Ho as (-> & Hk & Ha & Hc & _).
      split_and!; try done; [by eapply trace_grows|]. intros m Hm.
      destruct (calls_back allowlist _ _ _ _ Hg Hm) as [Hm'|(Hof & _)]; [by apply Hc|done].
  - intros m m' Hm Hm'. destruct (write_cell_back _ _ _ _ _ Hg Hm) as [Ho|Hno].
    + destruct (write_cell_back _ _ _ _ _ Hg Hm') as [Ho'|Hno]; [by apply Hone|by destruct (Hno m)].
    + by eapply first_write.
Qed.

(** ** Answers that wait for the task *)

(** Under [host_truthful], a write whose answer is that it was dropped was not called. *)
Definition answered_ok (n : Z) (w : bool) (r : outcome string Output) t : Prop :=
  w = true → host_truthful (P := P) → truthful n r t.
Definition answers t : Prop :=
  ∀ n d w r, jobs_of t !! n = Some (mkJobCell d w (JobDone r)) → answered_ok n w r t.
Lemma uncalled_step o t t' n : uncalled n t → step o t t' → o ≠ OfCall n → uncalled n t'.
Proof. intros Hu Hg Ho Hn. destruct (calls_back allowlist _ _ _ _ Hg Hn) as [?|[-> _]]; [by destruct Hu|done]. Qed.
Lemma done_back o t t' n d w r : step o t t' → o ≠ OfExecutor n →
  jobs_of t' !! n = Some (mkJobCell d w (JobDone r)) → jobs_of t !! n = Some (mkJobCell d w (JobDone r)).
Proof.
  intros Hg Ho Hn. pose proof (g_jobs _ _ _ _ Hg) as Hj. destruct o as [|m|m|]; simpl in Hj; try congruence.
  - destruct Hj as [Hj|[(m & d' & w' & c' & Hm & Hc & Hj)|(m & c' & r' & Hm & Hp & Hj)]]; rewrite Hj in Hn; [done| |].
    + destruct (decide (n = m)) as [->|Hne]; [by rewrite lookup_insert_eq in Hn|by rewrite lookup_insert_ne in Hn].
    + by apply lookup_delete_Some in Hn as [_ Hn].
  - assert (n ≠ m) by congruence. destruct Hj as (c' & Hm & [(s & _ & Hj)|(_ & [[r' Hj]|[_ Hj]])]); rewrite Hj in Hn;
      by rewrite ?lookup_insert_ne, ?lookup_delete_ne in Hn.
Qed.
Lemma answers_step o t t' : answers t → runs o t → step o t t' →
  (∀ n d w r, o = OfExecutor n → jobs_of t' !! n = Some (mkJobCell d w (JobDone r)) → answered_ok n w r t') →
  answers t'.
Proof.
  intros Ha Hrun Hg Hx n d w r Hn. destruct (decide (o = OfExecutor n)) as [Ho|Ho]; [by eapply Hx|].
  pose proof (done_back _ _ _ _ _ _ _ Hg Ho Hn) as Hb. intros Hw Hh code Hr Hd.
  eapply uncalled_step; [by eapply Ha|exact Hg|]. intros ->. destruct Hrun as (d' & w' & Hr'). congruence.
Qed.

(** ** The invariant *)

Definition task_ok (k : Task) t : Prop :=
  match k with
  | Resting _ => ready t
  | Turning th => tsafe th (on_ok (λ _, ready)) t
  | Ending th => tsafe th (λ _ _, True) t
  | Ended _ => True
  end.
Definition thread_ok (n : Z) (d : string) (w : bool) (th : Thread St (outcome string Output)) t : Prop :=
  jobs_of t !! n = Some (mkJobCell d w JobRunning) ∧ safely n th (answered_ok n w) t.
Record sys_inv (s : Sys) : Prop := mkSysInv {
  si_history : history allowlist (sy_state s);
  si_cells : cells (sy_state s);
  si_answers : answers (sy_state s);
  si_task : task_ok (sy_task s) (sy_state s);
  si_calls n d w th : sy_calls s !! n = Some (d, w, th) → thread_ok n d w th (sy_state s);
}.

(** What each part relies on is what the others do. *)
Lemma task_kept o k t t' : o ≠ OfTask → step o t t' → task_ok k t → task_ok k t'.
Proof.
  intros Ho Hg. assert (task_relies allowlist t t') as Hr by by exists o.
  destruct k; simpl; [intros Hs; by eapply ready_rely|intros Hs; eapply safe_rely; [done|by apply rtc_once]..|done].
Qed.
Lemma call_kept o n d w th t t' : o ≠ OfCall n → o ≠ OfExecutor n → step o t t' →
  thread_ok n d w th t → thread_ok n d w th t'.
Proof.
  intros Ho Hx Hg [Hc Hs]. split; [by eapply jobs_running|]. eapply safe_rely; [exact Hs|].
  apply rtc_once. by exists o.
Qed.
(** A step of the task *)
Lemma inv_task k k' t t' calls : sys_inv (mkSys t k calls) → step OfTask t t' → task_ok k' t' →
  sys_inv (mkSys t' k' calls).
Proof.
  intros [Hh Hc Ha _ Hca] Hg Hk.
  constructor; simpl in *; [by eapply history_step|by eapply (cells_step OfTask)|by eapply (answers_step OfTask)|done|].
  intros n d w th Hn. apply (call_kept OfTask n d w th t); [done|done|done|by apply Hca].
Qed.
(** A step of another *)
Lemma inv_other o k t t' calls : sys_inv (mkSys t k calls) → o ≠ OfTask → runs o t → step o t t' →
  (∀ n, o ≠ OfCall n) → (∀ n, o ≠ OfExecutor n) → sys_inv (mkSys t' k calls).
Proof.
  intros [Hh Hc Ha Hk Hca] Ho Hr Hg Hno Hnx.
  constructor; simpl in *; [by eapply history_step|by eapply cells_step| |by eapply task_kept|].
  { eapply answers_step; [done|done|exact Hg|]. intros n ? ? ? He. by destruct (Hnx n). }
  intros n d w th Hn. apply (call_kept o n d w th t); [done|done|done|by apply Hca].
Qed.
(** A step of the call [n] or of the executor for it, after which its thread is the
    given one *)
Lemma inv_call o n k t t' calls calls' : sys_inv (mkSys t k calls) →
  o = OfCall n ∨ o = OfExecutor n → runs o t → step o t t' →
  (∀ m, m ≠ n → calls' !! m = calls !! m) → (∀ d w th, calls' !! n = Some (d, w, th) → thread_ok n d w th t') →
  (∀ d w r, jobs_of t' !! n = Some (mkJobCell d w (JobDone r)) → answered_ok n w r t') →
  sys_inv (mkSys t' k calls').
Proof.
  intros [Hh Hc Ha Hk Hca] Ho Hr Hg Hm Hn Hd. constructor; simpl in *.
  - by eapply history_step.
  - by eapply cells_step.
  - eapply answers_step; [done|done|exact Hg|]. intros m d w r Hom. destruct Ho as [->|Ho]; [done|].
    rewrite Ho in Hom. injection Hom as <-. apply Hd.
  - eapply task_kept; [|done..]. by destruct Ho as [->| ->].
  - intros m d w th Hin. destruct (decide (m = n)) as [->|Hne]; [by apply Hn|].
    rewrite Hm in Hin by done. eapply call_kept; [| |done|by apply Hca]; destruct Ho as [->| ->]; congruence.
Qed.

(** ** The executor *)

Lemma start_step' r s w n d b c : sh_jobs s !! n = Some (mkJobCell d b (JobSubmitted c)) →
  step (OfExecutor n) ((r, s), w) ((r, set_jobs (<[n := mkJobCell d b JobRunning]> (sh_jobs s)) s), w).
Proof.
  intros Hn. constructor; try done; [by left|]. eexists. split; [exact Hn|]. left. by exists c.
Qed.
Lemma start_safe r s w n d b c :
  let t := ((r, s), w) in let t' := ((r, set_jobs (<[n := mkJobCell d b JobRunning]> (sh_jobs s)) s), w) in
  history allowlist t → cells t → sh_jobs s !! n = Some (mkJobCell d b (JobSubmitted c)) →
  safely n (job_of allowlist rfc3339 json_from_str other c) (answered_ok n b) t'.
Proof.
  intros t t' Hh Hc Hn. destruct c as [run stream|k h]; cbn [job_of].
  - pose proof (ce_waiting _ Hc n d b _ Hn) as Hb. simpl in Hb. subst b.
    eapply safe_mono; [by apply calm_read_job|]. by intros a s' _ Hb.
  - destruct (ce_waiting _ Hc n d b _ Hn) as (-> & <- & Ha & Hcalls).
    pose proof (start_step' r s w _ d true _ Hn) as Hg.
    assert (write_cell (wk_number k) t) as Hwc by (by eexists).
    assert (running allowlist k t') as Hrun.
    2:{ eapply safe_mono; [apply safe_both with (λ _ _, True);
          [by apply safe_write_job|apply (ends_under _ (host_truthful (P := P))); intros Ht; by apply truthful_write]|].
        intros a s' [_ Hq] _. exact Hq. }
    constructor.
    + by eapply history_step.
    + exists d. unfold jobs_of. apply lookup_insert_eq.
    + intros m Hm. destruct (write_cell_back _ _ _ _ _ Hg Hm) as [Ho|Hno]; [by apply (ce_one _ Hc)|by destruct (Hno (wk_number k))].
    + exact Ha.
    + exact Hcalls.
Qed.
Lemma end_step n d b r t : jobs_of t !! n = Some (mkJobCell d b JobRunning) →
  step (OfExecutor n) t (call_end n d b r t).2.
Proof.
  destruct t as [[rd s] w]. unfold jobs_of. cbn [fst snd]. intros Hn. unfold call_end, in_shared, zoom, reads_get.
  unfold bind. cbn [fst snd update modify gets].
  set (s1 := on_jobs (call_task d b) s). assert (shared_core s1 = shared_core s) as Hs1 by done.
  destruct (awaited_by n rd) eqn:Haw.
  - constructor; try done; [by left|]. eexists. split; [exact Hn|]. right. split; [done|]. left. exists r.
    cbn [fst snd jobs_of sh_jobs set_jobs]. apply map_eq. intros i. unfold jobs_of. simpl.
    destruct (decide (i = n)) as [->|Hne]; [by rewrite lookup_alter_eq, lookup_insert_eq, Hn|].
    by rewrite lookup_alter_ne, lookup_insert_ne.
  - set (s2 := set_jobs (delete n (sh_jobs s1)) s1).
    assert (along sstill (match r with Ok out => drop_output out | _ => ret tt end : M (Shared P * W) unit unit)) as Hd
      by (pose proof (still_drop_output (P := P) (W := W) (E := unit)); destruct r; along_auto).
    pose proof (along_keeps_core shared_core _ (s2, w) Hd) as [Hc Hw]. revert Hc Hw. fold s2.
    destruct ((match r with Ok out => drop_output out | _ => ret tt end : M (Shared P * W) unit unit) (s2, w)) as [x [s3 w3]].
    cbn [fst snd]. intros Hc Hw. injection Hc as Hwk Hjb Htr.
    constructor; unfold is_started, is_cancelled, work_cell, trace_of, jobs_of; cbn [fst snd]; rewrite ?Hwk, ?Hjb, ?Htr; try done; [by left|].
    unfold jobs_step, jobs_of. cbn [fst snd]. rewrite Hjb. eexists. split; [exact Hn|]. right. split; [done|]. by right.
Qed.

(** The result that waits for the task is the thread's. *)
Lemma end_result n d b r t d' b' r' : jobs_of t !! n = Some (mkJobCell d b JobRunning) →
  jobs_of (call_end n d b r t).2 !! n = Some (mkJobCell d' b' (JobDone r')) → b' = b ∧ r = r'.
Proof.
  destruct t as [[rd s] w]. unfold jobs_of. cbn [fst snd]. intros Hn. unfold call_end, in_shared, zoom, reads_get.
  unfold bind. cbn [fst snd update modify gets]. set (s1 := on_jobs (call_task d b) s).
  destruct (awaited_by n rd).
  - cbn [fst snd sh_jobs set_jobs]. rewrite lookup_alter_eq. simpl. rewrite Hn. simpl. by intros [= -> ->].
  - set (s2 := set_jobs (delete n (sh_jobs s1)) s1).
    assert (along sstill (match r with Ok out => drop_output out | _ => ret tt end : M (Shared P * W) unit unit)) as Hd
      by (pose proof (still_drop_output (P := P) (W := W) (E := unit)); destruct r; along_auto).
    pose proof (along_keeps_core shared_core _ (s2, w) Hd) as [Hc _]. revert Hc. fold s2.
    destruct ((match r with Ok out => drop_output out | _ => ret tt end : M (Shared P * W) unit unit) (s2, w)) as [x [s3 w3]].
    cbn [fst snd]. intros Hc. injection Hc as _ -> _. cbn [sh_jobs set_jobs]. by rewrite lookup_delete_eq.
Qed.

(** ** The others *)
Lemma side_grows m : side_call m → along wgrow (m : M (Wire * W) Close unit).
Proof. intros Hm. destruct Hm; along_auto. Qed.
Lemma rest_still t t' : rest_step t t' → still t t' ∧ reads_of t' = reads_of t.
Proof.
  destruct t as [[r s] w], t' as [[r' s'] w']. intros (-> & g & l & _ & -> & Ht & Hl). split; [|done].
  split; [done|]. by split.
Qed.

(** ** Every step *)
Lemma task_atom {E A B} (m : St → B * St) (k : B → Thread St (outcome E A)) Q t :
  tsafe (Atom m k) Q t → step OfTask t (m t).2 ∧ tsafe (k (m t).1) Q (m t).2.
Proof. intros Hs. by apply Hs. Qed.
Lemma sys_inv_step ctx s s' : sys_inv s →
  sys_step parse_call rfc3339 parsers json_from_str allowlist config other rest ctx s s' → sys_inv s'.
Proof.
  intros Hi Hs. destruct Hs as [t c e calls|t B m k calls|t c calls|t close calls|t calls|t B m k calls|t l calls
    |r s w task calls n device write c Hn|t task calls n device write B m k Hn|t task calls n device write r Hn
    |t task calls m Hm|t t' task calls Hr].
  - destruct Hi as [Hh Hc Ha Hk Hca]. constructor; try done. by apply restful_turn.
  - pose proof (si_task _ Hi) as Hk. apply task_atom in Hk as [Hg Hk]. by eapply inv_task.
  - destruct Hi as [Hh Hc Ha Hk Hca]. constructor; try done. by apply Hk.
  - destruct Hi as [Hh Hc Ha Hk Hca]. constructor; try done. by apply calm_ending.
  - destruct Hi as [Hh Hc Ha Hk Hca]. constructor; try done.
    assert (calm allowlist (jbind (reads_drop (P := P) (E := unit) other) (λ _, jret (A := list Value) []))) as Hcalm
      by (apply calm_then; [by apply calm_drop|intros ?; apply calm_result]).
    exact (Hcalm t I).
  - pose proof (si_task _ Hi) as Hk. apply task_atom in Hk as [Hg Hk]. by eapply inv_task.
  - destruct Hi as [Hh Hc Ha Hk Hca]. by constructor.
  - eapply (inv_call (OfExecutor n)); [exact Hi|by right|done|eapply start_step'; exact Hn| | |].
    + intros m Hm. by rewrite lookup_insert_ne.
    + intros d b th. rewrite lookup_insert_eq. intros [= <- <- <-]. split; [unfold jobs_of; apply lookup_insert_eq|].
      eapply start_safe; [apply Hi|apply Hi|exact Hn].
    + intros d b r' Hd. unfold jobs_of in Hd. cbn [fst snd sh_jobs set_jobs] in Hd. by rewrite lookup_insert_eq in Hd.
  - destruct (si_calls _ Hi _ _ _ _ Hn) as [Hc Hs]. destruct (Hs t ltac:(done)) as [Hg Hs'].
    pose proof (jobs_running allowlist _ _ _ n _ _ Hg ltac:(done) Hc) as Hc'.
    eapply (inv_call (OfCall n)); [exact Hi|by left|by eexists _, _|exact Hg| | |].
    + intros i Hne. by rewrite lookup_insert_ne.
    + intros d b th. rewrite lookup_insert_eq. by intros [= <- <- <-].
    + intros d b r Hd. congruence.
  - destruct (si_calls _ Hi _ _ _ _ Hn) as [Hc Hs].
    eapply (inv_call (OfExecutor n)); [exact Hi|by right|done|by apply end_step| | |].
    + intros i Hne. by rewrite lookup_delete_ne.
    + intros d b th. by rewrite lookup_delete_eq.
    + intros d b r' Hd Hb Hh code Hr Hcode. destruct (end_result _ _ _ _ _ _ _ _ Hc Hd) as (-> & <-).
      eapply uncalled_step; [|by apply end_step|done]. by eapply (Hs t ltac:(done)).
  - pose proof (quiet_shared (in_wire (P := P) m) t (sstill_wire m (side_grows m Hm))) as [Hst Hrd].
    eapply (inv_other OfRest); [exact Hi|done|done| |done|done]. by apply gstep_still.
  - destruct (rest_still _ _ Hr) as [Hst Hrd].
    eapply (inv_other OfRest); [exact Hi|done|done| |done|done]. by apply gstep_still.
Qed.
(** Each is a step of some owner, or leaves the state. *)
Lemma sys_step_owner ctx s s' : sys_inv s →
  sys_step parse_call rfc3339 parsers json_from_str allowlist config other rest ctx s s' →
  sy_state s' = sy_state s ∨ ∃ o, step o (sy_state s) (sy_state s').
Proof.
  intros Hi Hs. destruct Hs as [t c e calls|t B m k calls|t c calls|t close calls|t calls|t B m k calls|t l calls
    |r s w task calls n device write c Hn|t task calls n device write B m k Hn|t task calls n device write r Hn
    |t task calls m Hm|t t' task calls Hr]; simpl; [by left| |by left|by left|by left| |by left|..]; right.
  - exists OfTask. pose proof (si_task _ Hi) as Hk. by apply task_atom in Hk as [Hg _].
  - exists OfTask. pose proof (si_task _ Hi) as Hk. by apply task_atom in Hk as [Hg _].
  - exists (OfExecutor n). eapply start_step'. exact Hn.
  - exists (OfCall n). destruct (si_calls _ Hi _ _ _ _ Hn) as [_ Hs]. by destruct (Hs t ltac:(done)).
  - exists (OfExecutor n). destruct (si_calls _ Hi _ _ _ _ Hn) as [Hc _]. by apply end_step.
  - exists OfRest. apply gstep_still; [|intros _|done]; by apply (quiet_shared (in_wire (P := P) m) t (sstill_wire m (side_grows m Hm))).
  - exists OfRest. destruct (rest_still _ _ Hr) as [Hst Hrd]. by apply gstep_still.
Qed.
Lemma sys_inv_start peer_id rejections invalidated stop now (g : Gate P) w :
  sys_inv (peer_start peer_id rejections invalidated stop now g w).
Proof.
  set (t := ((reads_new peer_id rejections, mkShared g (wire_new invalidated stop) ∅ ∅ ∅ []), w) : St).
  assert (∀ n, ¬ write_cell n t) as Hno by (by intros n (c & Hc & _)).
  assert (history allowlist t) as Hh.
  { constructor; try (by intros ? ? ?%not_elem_of_nil); try (by intros ? ?%not_elem_of_nil); try constructor.
    by intros [|] ? ? ? [=]. }
  assert (ready t) as Hr.
  { assert (queue_of t = []) as Hq by apply chan_new_queue. unfold PeerInv.ready. rewrite Hq.
    constructor; [done|constructor|..]; try (by intros ? ?%not_elem_of_nil); try (by intros ? ? ?%not_elem_of_nil).
    - by intros n [c Hc].
    - by intros m m' ?%Hno.
    - by intros _ n ?%Hno.
    - constructor. }
  constructor; try done.
  - constructor; [done|]. by intros m m' ?%Hno.
  - by apply restful_opening.
Qed.
Lemma sys_inv_reachable ctx s :
  sys_reachable parse_call rfc3339 parsers json_from_str allowlist config other rest ctx s → sys_inv s.
Proof.
  induction 1 as [|s s' _ IH Hs]; [apply sys_inv_start|by eapply sys_inv_step].
Qed.
End System.

(** * The streams of a peer and their numbers

    At most eight at a time, numbered upwards: a number is never used again, so that
    a frame for a closed stream cannot reach another. *)
Section Streams.
Context `{Base64, Json, Crypto, Http, Tokio, Budgets, !Webauthn Transport, World W}.
Context `{HerdrHost P, !GitHost P}.
Abbreviation St := ((Reads * Shared P) * W)%type.
Implicit Types (r : Reads) (t : St).

Record streams_ok r : Prop := mkStreamsOk {
  so_size : (size (rd_streams r) ≤ MAX_STREAMS)%nat;
  so_next : 1 <= rd_next_id r <= u32_max;
  so_ids id : is_Some (rd_streams r !! id) → 1 <= id < rd_next_id r;
}.
(** Streams come with new numbers only. *)
Record sstep_reads r r' : Prop := mkSstep {
  ss_ok : streams_ok r → streams_ok r';
  ss_next : rd_next_id r <= rd_next_id r';
  ss_new id : is_Some (rd_streams r' !! id) → is_Some (rd_streams r !! id) ∨ rd_next_id r <= id;
}.
Definition sstep t t' : Prop := sstep_reads t.1.1 t'.1.1.
#[export] Instance sstep_preorder : PreOrder sstep.
Proof.
  split; [intros t; constructor; [done|lia|by left]|].
  intros a b c [Hok Hn Hs] [Hok' Hn' Hs']. constructor; [auto|lia|].
  intros id [Hid|Hid]%Hs'; [by apply Hs|]. right. lia.
Qed.
Definition same_streams t t' : Prop := rd_streams t'.1.1 = rd_streams t.1.1 ∧ rd_next_id t'.1.1 = rd_next_id t.1.1.
Lemma same_sstep t t' : same_streams t t' → sstep t t'.
Proof.
  intros [Hs Hn]. constructor; [|lia|rewrite Hs; by left].
  intros [Ho1 Ho2 Ho3]. constructor; rewrite ?Hs, ?Hn; auto.
Qed.
Lemma rtc_same t t' : rtc same_streams t t' → same_streams t t'.
Proof. intros Hr. induction Hr as [|a b c [Hs Hn] _ [Hs' Hn']]; [done|]. split; congruence. Qed.
Lemma rtc_sstep t t' : rtc sstep t t' → sstep t t'.
Proof. intros Hr. induction Hr; [reflexivity|by etrans]. Qed.

(** ** Most steps change neither *)
Lemma same_intro {E A} (m : M St E A) : (∀ t, same_streams t (m t).2) → along same_streams m.
Proof. apply along_once. Qed.
Lemma same_shared {E A} (m : M (Shared P * W) E A) : along same_streams (in_shared m).
Proof. apply same_intro. intros [[r s] w]. unfold in_shared, zoom. by destruct (m (s, w)) as [a [s' w']]. Qed.
Lemma same_iterate {E} `{Countable K} {A} (m : gmap K A) : along same_streams (iterate m : M St E _).
Proof. apply same_intro. intros [[r s] w]. unfold iterate, lift. by destruct (world_order m w). Qed.
Lemma same_reads {E} f : (∀ r, rd_streams (f r) = rd_streams r ∧ rd_next_id (f r) = rd_next_id r) →
  along same_streams (on_reads f : M St E unit).
Proof. intros Hf. apply same_intro. intros [[r s] w]. apply Hf. Qed.
Lemma same_queue {E} f : along same_streams (on_queue f : M St E unit).
Proof. by apply same_reads. Qed.
Lemma same_reads_get {E} : along same_streams (reads_get : M St E Reads).
Proof. apply along_gets. Qed.
Lemma same_shared_get {E} : along same_streams (shared_get : M St E (Shared P)).
Proof. apply along_gets. Qed.

(** ** Fewer streams, or others with the same numbers *)
Definition shrinks (f : gmap Z Stream → gmap Z Stream) : Prop := ∀ m id, is_Some (f m !! id) → is_Some (m !! id).
Lemma shrinks_size f m : shrinks f → (size (f m) ≤ size m)%nat.
Proof.
  intros Hf. rewrite <- !size_dom. apply subseteq_size. intros id. rewrite !elem_of_dom. apply Hf.
Qed.
Lemma shrinks_delete id : shrinks (delete id).
Proof. intros m i. rewrite lookup_delete_is_Some. by intros [_ ?]. Qed.
Lemma shrinks_alter f id : shrinks (alter f id).
Proof. intros m i. by rewrite lookup_alter_is_Some. Qed.
Lemma shrinks_foldr {A} (g : A → gmap Z Stream → gmap Z Stream) l : (∀ a, shrinks (g a)) → shrinks (λ m, foldr g m l).
Proof. intros Hg m id. induction l as [|a l IH]; simpl; [done|]. intros Hid%Hg. by apply IH. Qed.
Lemma shrinks_empty : shrinks (λ _, ∅).
Proof. intros m id. rewrite lookup_empty. by intros []. Qed.
Lemma sstep_streams {E} f : shrinks f → along sstep (on_streams f : M St E unit).
Proof.
  intros Hf. apply along_once. intros [[r s] w]. constructor; cbn [fst snd on_streams on_reads modify set_streams rd_streams rd_next_id].
  - intros [Ho1 Ho2 Ho3]. constructor; cbn [set_streams rd_streams rd_next_id]; [|done|].
    + pose proof (shrinks_size f (rd_streams r) Hf). lia.
    + intros id Hid%Hf. by apply Ho3.
  - lia.
  - intros id Hid. left. by apply Hf.
Qed.
Lemma along_same {E A} (m : M St E A) : along same_streams m → along sstep m.
Proof. intros Hm t. apply rtc_once, same_sstep, rtc_same, Hm. Qed.

(** ** A new stream

    From the look at the number of streams on, nothing else touches them. *)
Definition post t0 {E A} (m : M St E A) t : Prop := sstep t0 (m t).2.
Definition room (n : Z) (bumped : bool) t0 t : Prop :=
  sstep t0 t ∧ rd_next_id t0.1.1 = n ∧ rd_streams t.1.1 = rd_streams t0.1.1
  ∧ (size (rd_streams t0.1.1) < MAX_STREAMS)%nat
  ∧ rd_next_id t.1.1 = (if bumped then n + 1 else n) ∧ (bumped = true → n + 1 <= u32_max).
Lemma room_bind n b t0 {E A B} (m : M St E A) (k : A → M St E B) t :
  room n b t0 t → along same_streams m → (∀ a t', room n b t0 t' → post t0 (k a) t') → post t0 (bind m k) t.
Proof.
  intros (Hs & Hn & Hm & Hsz & Hx & Hb) Hsame Hk. pose proof (rtc_same _ _ (Hsame t)) as [H1' H2'].
  assert (room n b t0 (m t).2) as Hr.
  { split; [etrans; [exact Hs|by apply same_sstep]|]. split; [done|]. rewrite H1', H2'. done. }
  unfold post, bind. destruct (m t) as [[a|e|] t']; simpl in *; [by apply Hk|apply Hr..].
Qed.
Lemma room_bump n t0 {E} t : room n false t0 t → n + 1 <= u32_max →
  room n true t0 (on_reads (set_next_id (n + 1)) t : outcome E unit * St).2.
Proof.
  destruct t as [[r s] w]. intros (Hs & Hn & Hm & Hsz & Hx & _) Hmax. cbn [fst snd] in *.
  split; [|by split_and!]. etrans; [exact Hs|]. constructor; cbn [fst snd on_reads modify set_next_id rd_streams rd_next_id].
  - intros [Ho1 Ho2 Ho3]. constructor; cbn [set_next_id rd_streams rd_next_id]; [done|lia|].
    intros id Hid%Ho3. lia.
  - lia.
  - by left.
Qed.
Lemma room_insert n t0 {E} x t : room n true t0 t → sstep t0 (on_streams (<[n := x]>) t : outcome E unit * St).2.
Proof.
  destruct t as [[r s] w]. intros (Hs & Hn & Hm & Hsz & Hx & Hb). cbn [fst snd] in *.
  assert (streams_ok t0.1.1 → 1 <= n) as H1n by (intros Ho; pose proof (so_next _ Ho); lia).
  constructor; cbn [fst snd on_streams on_reads modify set_streams rd_streams rd_next_id]; rewrite ?Hm, ?Hx.
  - intros Ho. specialize (H1n Ho). constructor; cbn [set_streams rd_streams rd_next_id]; rewrite ?Hm, ?Hx.
    + pose proof (map_size_insert_le n x (rd_streams t0.1.1)). lia.
    + specialize (Hb eq_refl). lia.
    + intros id. destruct (decide (id = n)) as [->|Hne]; [lia|]. rewrite lookup_insert_ne by done.
      intros Hid. pose proof (so_ids _ Ho id Hid). lia.
  - lia.
  - intros id. destruct (decide (id = n)) as [->|Hne]; [right; lia|]. rewrite lookup_insert_ne by done. by left.
Qed.

Hint Resolve same_shared same_iterate same_queue same_reads_get same_shared_get : stepping.
Hint Extern 2 (along same_streams (on_reads _)) => (apply same_reads; intros ?; split; reflexivity) : stepping.
Lemma same_gate {E A} (m : M (Whole * W) E A) : along same_streams (in_gate (P := P) m).
Proof. apply same_shared. Qed.
Lemma same_jobs {E A} (m : M Jobs E A) : along same_streams (peer_jobs (P := P) (W := W) m).
Proof. apply same_shared. Qed.
Lemma same_either {A} (x : string + A) : along same_streams (of_either (S := St) x).
Proof. destruct x; unfold of_either; along_auto. Qed.
Lemma same_audit {E} ctx scope session target : along same_streams (peer_audit (P := P) (W := W) (E := E) ctx scope session target).
Proof. unfold peer_audit. along_auto. Qed.
Lemma same_or_drop {A} f (m : M St string A) : along same_streams m → along same_streams (or_drop f m).
Proof. intros Hm. unfold or_drop. along_auto. Qed.
Lemma same_send work : along same_streams (send_work (P := P) (W := W) work).
Proof. unfold send_work. along_auto. Qed.
Hint Resolve same_gate same_jobs same_either same_audit same_or_drop same_send : stepping.

(** [or_drop] of a checked addition *)
Lemma checked_bind n t0 f {A} (k : Z → M St string A) t : room n false t0 t →
  (∀ t', room n false t0 t' → n + 1 <= u32_max → post t0 (k (n + 1)) t') →
  post t0 (bind (or_drop f (ok_or "stream-limit" (checked_add u32_max n 1))) k) t.
Proof.
  intros Hr Hk. assert (n + 1 <= u32_max → or_drop f (ok_or "stream-limit" (checked_add u32_max n 1)) t = (Ok (n + 1), t)) as Hok.
  { intros Hle. unfold checked_add, or_drop. by rewrite (proj2 (Z.leb_le _ _) Hle). }
  destruct (Z.le_gt_cases (n + 1) u32_max) as [Hle|Hgt].
  - unfold post, bind. rewrite (Hok Hle). by apply Hk.
  - unfold post, bind. pose proof (rtc_same _ _ (same_or_drop f (ok_or "stream-limit" (checked_add u32_max n 1)) (along_ok_or _ _ _) t)) as Hs.
    assert (∀ z, (or_drop f (ok_or "stream-limit" (checked_add u32_max n 1)) t).1 ≠ Ok z) as Hno.
    { intros z. unfold checked_add, or_drop. rewrite (proj2 (Z.leb_gt _ _) Hgt). by destruct t as [[? ?] ?]. }
    destruct (or_drop f _ t) as [[z|e|] t']; simpl in *; [by destruct (Hno z)|..];
      (etrans; [apply Hr|by apply same_sstep]).
Qed.

Lemma room_here t : (size (rd_streams t.1.1) < MAX_STREAMS)%nat → room (rd_next_id t.1.1) false t t.
Proof. intros Hs. by split_and!. Qed.
(** The test of the limit, with the [Reads] it looks at *)
Lemma limit_then {A} (k : Reads → M St string A) :
  (∀ t, room (rd_next_id t.1.1) false t t → post t (k t.1.1) t) →
  along sstep (let! r := reads_get in reject_if (bool_decide (MAX_STREAMS ≤ size r.(rd_streams))%nat) "stream-limit";; k r).
Proof.
  intros Hk. apply along_once. intros [[r s] w]. unfold reads_get. rewrite run_gets.
  case_bool_decide as Hsize; [by apply same_sstep|]. apply (Hk ((r, s), w)), room_here. simpl. lia.
Qed.
(** The new number, what happens before the stream is there, and the stream *)
Lemma bump_then n t0 {A} (k : M St string A) t : room n false t0 t → n + 1 <= u32_max →
  (∀ t', room n true t0 t' → post t0 k t') → post t0 (on_reads (set_next_id (n + 1));; k) t.
Proof.
  intros Hr Hmax Hk. pose proof (room_bump n t0 (E := string) t Hr Hmax) as Hb. unfold post, bind.
  destruct t as [[r s] w]. by apply Hk.
Qed.
Lemma insert_then n t0 x {A} (k : M St string A) t : room n true t0 t → along same_streams k →
  post t0 (on_streams (<[n := x]>);; k) t.
Proof.
  intros Hr Hk. pose proof (room_insert n t0 (E := string) x t Hr) as Hi. unfold post, bind.
  destruct t as [[r s] w]. cbn [on_streams on_reads modify snd] in *. etrans; [exact Hi|]. apply same_sstep, rtc_same, Hk.
Qed.
Lemma sstep_open_read method session : along sstep (open_read (P := P) (W := W) method session).
Proof.
  unfold open_read. destruct (is_opening method); [|apply along_same, along_ret]. apply limit_then. intros t Hr.
  eapply room_bind; [exact Hr|along_auto|]. clear Hr. intros [] t1 Hr.
  apply checked_bind; [exact Hr|]. clear t1 Hr. intros t1 Hr Hmax.
  apply bump_then; [exact Hr|exact Hmax|]. clear t1 Hr. intros t1 Hr.
  apply insert_then; [exact Hr|along_auto].
Qed.
Context (parsers : BridgeParsers).
Lemma sstep_admit_open ctx id method params deadline fresh :
  along sstep (admit_open (P := P) (W := W) parsers ctx id method params deadline fresh).
Proof.
  unfold admit_open. apply along_bind; [apply along_same; along_auto|intros s].
  apply along_bind; [apply along_same; along_auto|intros []]. apply limit_then. intros t Hr.
  eapply room_bind; [exact Hr|along_auto|]. clear Hr. intros [[[session target] size] takeover] t1 Hr.
  eapply room_bind; [exact Hr|destruct (if bool_decide _ then _ else _); along_auto|]. clear t1 Hr. intros [] t1 Hr.
  eapply room_bind; [exact Hr|along_auto|]. clear t1 Hr. intros [] t1 Hr.
  apply checked_bind; [exact Hr|]. clear t1 Hr. intros t1 Hr Hmax.
  apply bump_then; [exact Hr|exact Hmax|]. clear t1 Hr. intros t1 Hr.
  eapply room_bind; [exact Hr|along_auto|]. clear t1 Hr. intros u t1 Hr.
  eapply room_bind; [exact Hr|along_auto|]. clear t1 Hr. intros [] t1 Hr.
  eapply room_bind; [exact Hr|along_auto|]. clear t1 Hr. intros [] t1 Hr.
  pose proof (room_insert (rd_next_id t.1.1) t (E := string)
    (mkStream session false None (Some (mkWriteStream u false takeover))) t1 Hr) as Hi. exact Hi.
Qed.

(** ** The task's methods, by their syntax *)
Lemma sstep_shared {E A} (m : M (Shared P * W) E A) : along sstep (in_shared m).
Proof. apply along_same, same_shared. Qed.
Lemma sstep_iterate {E} `{Countable K} {A} (m : gmap K A) : along sstep (iterate m : M St E _).
Proof. apply along_same, same_iterate. Qed.
Lemma sstep_queue {E} f : along sstep (on_queue f : M St E unit).
Proof. apply along_same, same_queue. Qed.
Lemma sstep_get {E} : along sstep (reads_get : M St E Reads).
Proof. apply along_same, same_reads_get. Qed.
Lemma sstep_shared_get {E} : along sstep (shared_get : M St E (Shared P)).
Proof. apply along_same, same_shared_get. Qed.
Lemma sstep_gate {E A} (m : M (Whole * W) E A) : along sstep (in_gate (P := P) m).
Proof. apply sstep_shared. Qed.
Lemma sstep_jobs {E A} (m : M Jobs E A) : along sstep (peer_jobs (P := P) (W := W) m).
Proof. apply sstep_shared. Qed.
Lemma sstep_identity {E A} (m : M (Identity * W) E A) : along sstep (peer_identity (P := P) m).
Proof. apply sstep_shared. Qed.
Lemma sstep_close {E} id reason : along sstep (close_state (P := P) (W := W) (E := E) id reason).
Proof. apply sstep_shared. Qed.
Lemma sstep_either {A} (x : string + A) : along sstep (of_either (S := St) x).
Proof. apply along_same, same_either. Qed.
Lemma sstep_audit {E} ctx scope session target : along sstep (peer_audit (P := P) (W := W) (E := E) ctx scope session target).
Proof. apply along_same, same_audit. Qed.
Lemma sstep_send work : along sstep (send_work (P := P) (W := W) work).
Proof. apply along_same, same_send. Qed.
Hint Resolve sstep_shared sstep_iterate sstep_queue sstep_get sstep_shared_get sstep_gate sstep_jobs sstep_identity
  sstep_close sstep_either sstep_audit sstep_send sstep_open_read sstep_admit_open : stepping.
Hint Extern 2 (along sstep (on_reads _)) => (apply along_same, same_reads; intros ?; split; reflexivity) : stepping.
Hint Resolve shrinks_delete shrinks_alter shrinks_empty shrinks_foldr sstep_streams : stepping.

Definition tidy {E A} (m : Job St E A) : Prop := steady (λ _ _, True) sstep (λ _, True) m.
Lemma tidy_call {E A} (m : M St E A) : along sstep m → tidy (jcall m).
Proof. intros Hm. apply steady_jcall; [done|]. intros t _. split; [by apply rtc_sstep|done]. Qed.
Create HintDb tidy discriminated.
Ltac tidy_step :=
  match goal with
  | |- tidy (jbind _ _) => apply steady_jbind; [done| |intros ?]
  | |- tidy (jret _) => by apply steady_jret
  | |- tidy (jthrow _) => by apply steady_jthrow
  | |- tidy (lose _) => apply tidy_call; solve [along_auto]
  | |- tidy (jshared _) => apply tidy_call; solve [along_auto]
  | |- tidy (jcall _) => apply tidy_call; solve [along_auto]
  | |- tidy (jattempt _) => apply steady_jattempt; [done|]
  | |- tidy (jmap_err _ _) => apply steady_jmap_err; [done| |intros ?]
  | |- tidy (jwhen _ _) => apply steady_jwhen; [done|]
  | |- tidy (jfor_each _ _) => apply steady_jfor_each; [done|intros ?]
  | |- tidy (jmap _ _) => apply steady_jmap; [done|intros ?]
  | |- steady _ _ _ ?m => change (tidy m)
  | |- tidy _ => solve [eauto with tidy nocore]
  | |- tidy (let '(_, _) := ?p in _) => destruct p
  | |- tidy (match ?x with _ => _ end) => destruct x
  end.
Ltac tidy := cbn zeta; repeat tidy_step.
Context (other : Audits * W → Audits * W) (config : GwConfig).

Lemma tidy_cancelled {E} p : tidy (pending_cancelled (P := P) (E := E) other p).
Proof. unfold pending_cancelled. tidy. Qed.
Hint Resolve tidy_cancelled : tidy.
Lemma tidy_answer {E} v : tidy (push_answer (P := P) (W := W) (E := E) v).
Proof. unfold push_answer. tidy. Qed.
Lemma tidy_recv {E} : along sstep (queue_recv (P := P) (W := W) (E := E)).
Proof. unfold queue_recv. along_auto. Qed.
Lemma tidy_send_back {E} k : tidy (queue_send_back (P := P) (W := W) (E := E) k).
Proof. unfold queue_send_back. tidy. Qed.
Hint Resolve tidy_answer tidy_send_back : tidy.
Hint Resolve tidy_recv : stepping.
Lemma tidy_turns {E} n stream : tidy (discard_turns (P := P) (E := E) other n stream).
Proof. induction n as [|n IH]; cbn [discard_turns]; tidy; exact IH. Qed.
Hint Resolve tidy_turns : tidy.
Lemma tidy_discard {E} stream : tidy (discard_write_stream (P := P) (E := E) other stream).
Proof. unfold discard_write_stream. tidy. Qed.
Lemma tidy_stream_drop {E} id x : tidy (stream_drop (P := P) (E := E) other id x).
Proof. unfold stream_drop, write_stream_drop. tidy. Qed.
Hint Resolve tidy_discard tidy_stream_drop : tidy.
Lemma tidy_remove {E} id : tidy (remove_stream (P := P) (E := E) other id).
Proof. unfold remove_stream. tidy. Qed.
Hint Resolve tidy_remove : tidy.

Lemma sstep_section ctx id method params : along sstep (write_section (P := P) (W := W) parsers config ctx id method params).
Proof.
  unfold write_section. apply along_bind; [along_auto|intros []]. apply along_attempt.
  apply along_bind; [destruct (tightening method); along_auto|intros deadline].
  apply along_bind; [along_auto|intros fresh]. unfold admit_call. apply along_bind; [along_auto|intros r].
  destruct (tightening method); [along_auto|]. apply along_bind; [along_auto|intros []].
  apply along_bind; [along_auto|intros []]. apply along_bind; [|intros []; along_auto].
  case_bool_decide; [along_auto|]. case_bool_decide; [unfold admit_agent|unfold admit_op]; along_auto.
Qed.
Hint Resolve sstep_section : stepping.
Lemma tidy_write_call ctx id method params : tidy (write_call (P := P) parsers config other ctx id method params).
Proof. unfold write_call. tidy. Qed.
Hint Resolve tidy_write_call : tidy.
Lemma tidy_binary ctx message : tidy (binary_call (P := P) parsers config other ctx message).
Proof. unfold binary_call. tidy. Qed.
Lemma sstep_submit device write c a n : along sstep (submit (P := P) (W := W) device write c a n).
Proof. unfold submit. along_auto. Qed.
Hint Resolve sstep_submit : stepping.
Lemma sstep_take {E} : along sstep (pump_take (P := P) (W := W) (E := E)).
Proof. unfold pump_take. along_auto. Qed.
Lemma sstep_pump_submit k leases now : along sstep (pump_submit (P := P) (W := W) k leases now).
Proof. unfold pump_submit. along_auto. Qed.
Hint Resolve sstep_take sstep_pump_submit : stepping.
Lemma tidy_pump {E} : tidy (pump_writes (P := P) (W := W) (E := E) other).
Proof. unfold pump_writes. tidy. Qed.
Lemma tidy_closed {E} : tidy (reads_closed (P := P) (W := W) (E := E) other).
Proof. unfold reads_closed. tidy. Qed.
Lemma tidy_stall {E} d : tidy (write_stall (P := P) (W := W) (E := E) other d).
Proof. unfold write_stall. tidy. Qed.
Hint Resolve tidy_binary tidy_pump tidy_closed tidy_stall : tidy.
Lemma tidy_tick {E} : tidy (write_tick (P := P) (W := W) (E := E) other).
Proof. unfold write_tick, tick_stream. tidy. Qed.
Hint Resolve tidy_tick : tidy.

Lemma sstep_submit_read device id run stream : along sstep (submit_read (P := P) (W := W) device id run stream).
Proof. unfold submit_read, next_number. along_auto. Qed.
Lemma sstep_holding {A} (m : M St string A) : along sstep m → along sstep (holding m).
Proof. intros Hm. unfold holding, release_pending. along_auto. Qed.
Lemma sstep_refused stream {A} (m : M St string A) : along sstep m → along sstep (refused_read stream m).
Proof. intros Hm. unfold refused_read. along_auto. Qed.
Lemma sstep_acquire : along sstep (acquire_pending (P := P) (W := W)).
Proof. unfold acquire_pending. along_auto. Qed.
Hint Resolve sstep_submit_read sstep_holding sstep_refused sstep_acquire : stepping.
Lemma sstep_enqueue device id method params : along sstep (enqueue (P := P) (W := W) parsers device id method params).
Proof.
  unfold enqueue, or_error. apply along_bind; [apply along_attempt|intros ?; along_auto].
  case_bool_decide; [along_auto|]. case_bool_decide; [unfold push_subscribe; along_auto|].
  destruct (is_git method); [unfold git_call; along_auto|]. unfold host_read. along_auto.
Qed.
Hint Resolve sstep_enqueue : stepping.
Lemma tidy_read_call ctx id method params : tidy (read_call (P := P) parsers config other ctx id method params).
Proof. unfold read_call. tidy. Qed.
Lemma tidy_opened {E} c lease value b : tidy (finish_opened (P := P) (W := W) (E := E) other c lease value b).
Proof. unfold finish_opened, announce_stream. tidy. Qed.
Lemma tidy_failed {E} c code : tidy (finish_failed (P := P) (W := W) (E := E) other c code).
Proof. unfold finish_failed. tidy. Qed.
Hint Resolve tidy_read_call tidy_opened tidy_failed : tidy.
Lemma tidy_finish {E} c : tidy (finish (P := P) (W := W) (E := E) other c).
Proof. unfold finish. tidy. Qed.
Lemma sstep_complete {E} i : along sstep (complete (P := P) (W := W) (E := E) i).
Proof. unfold complete, take_awaited, release_pending. along_auto. Qed.
Hint Resolve tidy_finish : tidy.
Hint Resolve sstep_complete : stepping.

Context (parse_call : string → option Call) (rfc3339 : Timestamp → string) (rest : nat → Whole * W → Whole * W).
Lemma sstep_outbound {E A} (m : M Wire E A) : along sstep (on_outbound (P := P) (W := W) m).
Proof. apply sstep_shared. Qed.
Hint Resolve sstep_outbound : stepping.
Lemma tidy_text ctx text : tidy (on_text (P := P) parse_call rfc3339 parsers config other rest ctx text).
Proof. unfold on_text, or_invalid, send_replies. tidy. Qed.
Hint Resolve tidy_text : tidy.
Lemma tidy_event ctx e c : tidy (on_event (P := P) parse_call rfc3339 parsers config other rest ctx e c).
Proof.
  destruct e; cbn [on_event]; unfold on_incoming, on_message, authorize_activity, or_invalid, on_binary, send_replies; tidy.
Qed.
Hint Resolve tidy_event : tidy.
Lemma tidy_turn ctx e c : tidy (turn (P := P) parse_call rfc3339 parsers config other rest ctx e c).
Proof. unfold turn, check_life, send_replies, cancelled_writes. tidy. Qed.
Lemma tidy_opening now : tidy (opening (P := P) (W := W) now).
Proof. unfold opening. tidy. Qed.
Lemma tidy_rest {E} n : tidy (cancel_rest (P := P) (W := W) (E := E) other n).
Proof. induction n as [|n IH]; cbn [cancel_rest]; tidy. Qed.
Hint Resolve tidy_rest : tidy.
Lemma tidy_drop {E} : tidy (reads_drop (P := P) (W := W) (E := E) other).
Proof. unfold reads_drop. tidy. Qed.
Hint Resolve tidy_drop : tidy.
Lemma tidy_ending reason : tidy (ending (P := P) (W := W) other reason).
Proof. unfold ending, cancel_writes, cancelled_writes. tidy. Qed.
End Streams.
#[export] Hint Resolve same_shared same_iterate same_queue same_reads_get same_shared_get : stepping.
#[export] Hint Extern 2 (along same_streams (on_reads _)) => (apply same_reads; intros ?; split; reflexivity) : stepping.
