(* ===== verification/PeerProps.v ===== *)
(** * What a phone may rely on

    Over every run of a peer's task, its calls, the executor, the host's callbacks
    and the rest of the gateway. *)
From stdpp Require Import base gmap strings list relations fin_maps.
From Stdlib Require Import ZArith Lia Sorted.
From S2P Require Import Prelude Steps Rust Externals Crates Clock Devices Admin Guard Events World.
From S2P Require Import Pairing Webauthn Session Authorize SessionProps Gateway WriteAudit Jobs Herdr.
From S2P Require Import Push PushNotices GitBridge GitProps Control ControlProps Http Runs Wire Rpc.
From S2P Require Import RpcProps Threads Growing Streams Calls WriteBridge ReadBridge Peer Still.
From S2P Require Import PeerRely CallsSafe Truthful PeerInv PeerSystem.
Local Open Scope Z_scope.

(** A growing list of some numbers of a growing list is part of it, in order. *)
Lemma sorted_part (l l' : list Z) : StronglySorted Z.lt l → StronglySorted Z.lt l' → (∀ n, n ∈ l → n ∈ l') → l `sublist_of` l'.
Proof.
  intros Hl Hl'. revert l Hl. induction Hl' as [|y l' Hl' IH Hy]; intros l Hl Hin.
  - destruct l as [|x l]; [done|]. destruct (not_elem_of_nil x). apply Hin. by left.
  - rewrite Forall_forall in Hy. destruct Hl as [|x l Hl Hx]; [apply sublist_nil_l|]. rewrite Forall_forall in Hx.
    destruct (decide (x = y)) as [->|Hne].
    + apply sublist_skip, IH; [done|]. intros n Hn. specialize (Hin n ltac:(by right)).
      apply elem_of_cons in Hin as [->|?]; [|done]. specialize (Hx _ Hn). lia.
    + apply sublist_cons, IH; [by constructor; [|rewrite Forall_forall]|]. intros n Hn.
      specialize (Hin n Hn) as Hn'. apply elem_of_cons in Hn' as [->|?]; [|done].
      apply elem_of_cons in Hn as [->|Hn]; [done|]. specialize (Hx _ Hn).
      specialize (Hin x ltac:(by left)). apply elem_of_cons in Hin as [->|Hin]; [done|].
      specialize (Hy _ Hin). lia.
Qed.

Section Props.
Context `{Base64, Json, Crypto, Http, Tokio, !TokioLaws _, Budgets, !Webauthn Transport, World W, !WorldLaws W}.
Context `{HerdrHost P, !GitHost P}.
Context (parse_call : string → option Call) (rfc3339 : Timestamp → string) (parsers : BridgeParsers).
Context (json_from_str : string → option Value) (allowlist : gset string) (config : GwConfig).
Context (other : Audits * W → Audits * W) (rest : nat → Whole * W → Whole * W).
Hypothesis other_grows : ∀ x, wgrow x (other x).
Hypothesis rest_grows : ∀ n x, wgrow x (rest n x).
Abbreviation Sys := (Sys (P := P) (W := W)).
Abbreviation reachable := (sys_reachable (P := P) (W := W) parse_call rfc3339 parsers json_from_str allowlist config other rest).

Abbreviation St := ((Reads * Shared P) * W)%type.
Abbreviation tidily := (safe (λ _ _ : St, True) sstep).

(** ** The streams, over the system *)
Definition task_tidy (k : Task) (t : St) : Prop :=
  match k with
  | Turning th => tidily th (λ _ _, True) t
  | Ending th => tidily th (λ _ _, True) t
  | _ => True
  end.
Lemma tidy_moves k t t' : task_tidy k t → task_tidy k t'.
Proof. destruct k; simpl; try done; intros Hs; by eapply safe_rely, rtc_once. Qed.
Lemma tidy_atom {E A B} (m : St → B * St) (k : B → Thread St (outcome E A)) t :
  tidily (Atom m k) (λ _ _, True) t → sstep t (m t).2 ∧ tidily (k (m t).1) (λ _ _, True) (m t).2.
Proof. intros Hs. by apply Hs. Qed.
Lemma same_reads_sstep (t t' : St) : reads_of t' = reads_of t → sstep t t'.
Proof. intros Hr. apply same_sstep. unfold same_streams. unfold reads_of in Hr. by rewrite Hr. Qed.
Lemma streams_step ctx s s' :
  sys_inv allowlist s → task_tidy (sy_task s) (sy_state s) →
  sys_step parse_call rfc3339 parsers json_from_str allowlist config other rest ctx s s' →
  task_tidy (sy_task s') (sy_state s') ∧ sstep (sy_state s) (sy_state s').
Proof.
  intros Hi Ht Hs. destruct Hs as [t c e calls|t B m k calls|t c calls|t close calls|t calls|t B m k calls|t l calls
    |r s w task calls n device write c Hn|t task calls n device write B m k Hn|t task calls n device write r Hn
    |t task calls m Hm|t t' task calls Hr]; simpl in *.
  - split; [by apply tidy_turn|done].
  - apply tidy_atom in Ht as [Hg Hk]. done.
  - done.
  - split; [by apply tidy_ending|done].
  - split; [|done]. assert (tidy (jbind (reads_drop (P := P) (W := W) (E := unit) other) (λ _, jret (A := list Value) []))) as Hd
      by (apply steady_jbind; [done|apply tidy_drop|intros ?; by apply steady_jret]). by apply Hd.
  - apply tidy_atom in Ht as [Hg Hk]. done.
  - done.
  - split; [by eapply tidy_moves|]. by apply same_reads_sstep.
  - split; [by eapply tidy_moves|]. destruct (si_calls _ _ Hi _ _ _ _ Hn) as [_ Hc].
    destruct (Hc t ltac:(done)) as [Hg _]. apply same_reads_sstep. by apply (g_reads _ _ _ _ Hg).
  - split; [by eapply tidy_moves|]. destruct (si_calls _ _ Hi _ _ _ _ Hn) as [Hc _].
    apply same_reads_sstep. by apply (g_reads _ _ _ _ (end_step allowlist n device write r t Hc)).
  - split; [by eapply tidy_moves|]. apply rtc_sstep, along_same, same_shared.
  - split; [by eapply tidy_moves|]. apply same_reads_sstep. by apply rest_still.
Qed.
Lemma tidy_reachable ctx s : reachable ctx s →
  task_tidy (sy_task s) (sy_state s) ∧ streams_ok (reads_of (sy_state s)).
Proof.
  intros Hr. induction Hr as [peer_id rejections invalidated stop now g w|s s' Hr [IH1 IH2] Hs].
  - split; [by apply tidy_opening|]. constructor; unfold reads_of; cbn [peer_start sy_state fst reads_new rd_streams rd_next_id].
    + rewrite map_size_empty. lia.
    + unfold u32_max. lia.
    + intros id. rewrite lookup_empty. by intros [].
  - pose proof (sys_inv_reachable _ _ _ _ _ _ _ _ other_grows rest_grows _ _ Hr) as Hi.
    destruct (streams_step _ _ _ Hi IH1 Hs) as [Ht Hss]. split; [done|]. by apply (ss_ok _ _ Hss).
Qed.

(** C23. A write that is answered as dropped never reaches the host: neither one whose
    cancellation found it not started, nor one whose closure returned that code, by a
    check that failed at any step of its thread.  The second asks of the host's own
    errors that none has the code that the bridge gives a dropped write.  These are
    the answers: a cancellation answers the code of what the trace says it found,
    whatever the others do meanwhile; the completion of a call has the result that its
    thread left, and one that failed is answered with that code or not at all. *)
Theorem dropped_never_sent ctx s n : reachable ctx s →
  (Cancelled n false ∈ trace_of (sy_state s) → ∀ c, Called n c ∉ trace_of (sy_state s))
  ∧ (host_truthful (P := P) → ∀ d code,
       jobs_of (sy_state s) !! n = Some (mkJobCell d true (JobDone (Err code))) → dropped_code code →
       ∀ c, Called n c ∉ trace_of (sy_state s))
  ∧ (∀ p, safe recalls (λ _ _, True) (pending_cancelled (E := unit) other p)
       (λ r t, ∀ v, r = Ok v → ∃ unknown, Cancelled (pw_number p) unknown ∈ trace_of t
          ∧ v = write_error (pw_id p) (pw_stream p) (outcome_code (pw_input p) unknown)) (sy_state s))
  ∧ (∀ i c t a, complete (E := unit) i (sy_state s) = (Ok (Some c), t) →
       rd_completed (reads_of (sy_state s)) !! i = Some a → aw_source a = FromJob n →
       ∃ cell r, jobs_of (sy_state s) !! n = Some cell ∧ jc_phase cell = JobDone r ∧ co_result c = received r
         ∧ co_id c = aw_id a ∧ co_stream c = aw_stream a ∧ co_write c = aw_write a)
  ∧ ∀ c code, co_result c = inl code →
      safe (λ _ _, True) (λ _ _, True) (finish (E := unit) other c)
        (λ r _, ∀ l, r = Ok l → l = [] ∨ l = [finish_failure c code]) (sy_state s).
Proof.
  intros Hr. pose proof (sys_inv_reachable _ _ _ _ _ _ _ _ other_grows rest_grows _ _ Hr) as Hi. split_and!.
  - intros Hc c Hn. apply (h_called _ _ (si_history _ _ Hi) n); [|done]. apply elem_calls. by exists c.
  - intros Hh d code Hj Hd c Hn. apply (si_answers _ _ Hi _ _ _ _ Hj eq_refl Hh code eq_refl Hd).
    apply elem_calls. by exists c.
  - intros p. by apply cancel_answer.
  - intros i c t a. apply complete_answer.
  - intros c code. apply finish_answer.
Qed.

(** C24. The host is called for the admitted writes in the order of their admission, at
    most once for each. *)
Theorem calls_in_order ctx s : reachable ctx s →
  calls_of (trace_of (sy_state s)) `sublist_of` (wk_number <$> admissions (trace_of (sy_state s)))
  ∧ NoDup (wk_number <$> admissions (trace_of (sy_state s))).
Proof.
  intros Hr. pose proof (sys_inv_reachable _ _ _ _ _ _ _ _ other_grows rest_grows _ _ Hr) as Hi.
  apply si_history in Hi. split.
  - apply sorted_part; [apply (h_calls _ _ Hi)|apply (h_admissions _ _ Hi)|].
    intros n [c Hc]%elem_calls. apply list_elem_of_split in Hc as (pre & post & Hc).
    destruct (h_allowed _ _ Hi _ _ _ _ Hc) as (k & at_ & Hk & <- & _). apply list_elem_of_fmap_2.
    apply elem_admissions. rewrite Hc. apply elem_of_app. by left.
  - pose proof (h_admissions _ _ Hi) as Hs. induction Hs as [|n l Hs IH Hn]; constructor; [|done].
    rewrite Forall_forall in Hn. intros Hin. specialize (Hn _ Hin). lia.
Qed.

(** An operation enters for the resource of a stream that the peer has open for
    writing, under the scope of its method, and with that stream's audit. *)
Lemma admit_op_resource ctx id method params until t t' :
  admit_op (P := P) (W := W) parsers ctx id method params until t = (Ok tt, t') →
  ∃ k stream op x ws lease resource,
    trace_of t' = trace_of t ++ [Entered k] ∧ wk_run k = RunTerminal method resource stream op
    ∧ rd_streams (reads_of t) !! stream = Some x ∧ sm_write x = Some ws ∧ wk_audit k = ws_audit ws
    ∧ au_scope (ws_audit ws) = method_scope method ∧ sm_lease x = Some lease ∧ lease_id lease = Ok resource.
Proof.
  destruct t as [[r s] w]. unfold admit_op, of_either, reads_get, ok_or, gets, bind.
  destruct (op_params parsers method params) as [|[stream op]]; [done|]. cbn [ret fst].
  destruct (rd_streams r !! stream) as [x|] eqn:Hx; [|done]. cbn [ret].
  destruct (sm_write x) as [ws|] eqn:Hws; simpl; [|done]. case_bool_decide as Hsc; [|done]. cbn [ret].
  destruct (sm_lease x) as [lease|] eqn:Hl; [|done]. cbn [ret].
  destruct (lease_id lease) as [resource| |] eqn:Hid; [|done..]. cbn [ret].
  unfold send_work, reads_get, gets, bind. cbn [fst]. case_match; [|done].
  intros [= <-]. by eexists _, stream, op, x, ws, lease, resource.
Qed.

(** C22. Before the host is called for a write, the write was admitted and its validity
    was checked before its deadline.  The call is the one it was admitted for: the
    text, keys, bytes or size are its own, a pane is the one that the snapshot names
    for its target which the host gave this work before, and the session of a prompt,
    of keys or of an opening is one the operator allows; an operation goes to the
    resource it was admitted for, which is that of a stream the peer has open for
    writing under the scope of the method.  The audit event that accounts for the call
    is in the log; an input has its own event there or its bytes were counted in the
    bucket of its stream.  These entries say what they claim: each step of the system
    adds at most one, under the conditions of [entry_ok] on the states before and
    after, so a snapshot is what the host returned then and a counted input made the
    bucket grow by its bytes. *)
Theorem call_guarded ctx s : reachable ctx s →
  (∀ pre n c post, trace_of (sy_state s) = pre ++ Called n c :: post →
     call_allowed allowlist n c pre (log_of (sy_state s)))
  ∧ (∀ s', sys_step parse_call rfc3339 parsers json_from_str allowlist config other rest ctx s s' →
      trace_of (sy_state s') = trace_of (sy_state s)
      ∨ ∃ o e, trace_of (sy_state s') = trace_of (sy_state s) ++ [e]
               ∧ entry_ok allowlist o (sy_state s) (sy_state s') e)
  ∧ ∀ id method params until t t', admit_op (P := P) (W := W) parsers ctx id method params until t = (Ok tt, t') →
      ∃ k stream op x ws lease resource,
        trace_of t' = trace_of t ++ [Entered k] ∧ wk_run k = RunTerminal method resource stream op
        ∧ rd_streams (reads_of t) !! stream = Some x ∧ sm_write x = Some ws ∧ wk_audit k = ws_audit ws
        ∧ au_scope (ws_audit ws) = method_scope method ∧ sm_lease x = Some lease ∧ lease_id lease = Ok resource.
Proof.
  intros Hr. pose proof (sys_inv_reachable _ _ _ _ _ _ _ _ other_grows rest_grows _ _ Hr) as Hi. split_and!.
  - apply (h_allowed _ _ (si_history _ _ Hi)).
  - intros s' Hs. assert (sy_state s' = sy_state s ∨ ∃ o, gstep allowlist o (sy_state s) (sy_state s')) as [->|[o Hg]]
      by (by eapply sys_step_owner); [by left|].
    destruct (g_trace _ _ _ _ Hg) as [?|(e & Ht & He)]; [by left|]. right. by exists o, e.
  - intros id method params until t t'. apply admit_op_resource.
Qed.

(** A peer has at most eight streams, with numbers that it has used; the number of a
    stream that is gone is never given to another, so nothing addressed to the one
    can reach the other. *)
Theorem stream_numbers ctx s s' : reachable ctx s →
  rtc (sys_step parse_call rfc3339 parsers json_from_str allowlist config other rest ctx) s s' →
  let r := reads_of (sy_state s) in let r' := reads_of (sy_state s') in
  (size (rd_streams r') ≤ MAX_STREAMS)%nat ∧ rd_next_id r <= rd_next_id r' <= u32_max
  ∧ (∀ id, is_Some (rd_streams r' !! id) → 1 <= id < rd_next_id r')
  ∧ (∀ id, id < rd_next_id r → rd_streams r !! id = None → rd_streams r' !! id = None).
Proof.
  intros Hr Hs. cbv zeta.
  assert (reachable ctx s' ∧ sstep (sy_state s) (sy_state s')) as [Hr' [_ Hn Hnew]].
  { induction Hs as [s|s s1 s' Hs _ IH]; [by split|].
    destruct IH as [IH1 IH2]; [by eapply sys_next|]. split; [done|].
    pose proof (sys_inv_reachable _ _ _ _ _ _ _ _ other_grows rest_grows _ _ Hr) as Hi.
    destruct (tidy_reachable _ _ Hr) as [Ht _]. destruct (streams_step _ _ _ Hi Ht Hs) as [_ Hss]. by etrans. }
  destruct (tidy_reachable _ _ Hr') as [_ [Ho1 Ho2 Ho3]]. unfold reads_of in *. split_and!; [done|done|lia|done|].
  intros id Hid Hnone. destruct (rd_streams (sy_state s').1.1 !! id) as [x|] eqn:Hx; [|done].
  destruct (Hnew id (ex_intro _ x Hx)) as [[y Hy]|Hge]; [congruence|lia].
Qed.
End Props.

(** * A phone that prompts an agent, computed *)
(** ** An executable schedule *)
Section Schedule.
Context `{Base64, Json, Crypto, Http, Tokio, Budgets, !Webauthn Transport, World W, HerdrHost P, !GitHost P}.
Context (parse_call : string → option Call) (rfc3339 : Timestamp → string) (parsers : BridgeParsers).
Context (json_from_str : string → option Value) (allowlist : gset string) (config : GwConfig).
Context (other : Audits * W → Audits * W) (rest : nat → Whole * W → Whole * W) (ctx : AuthContext).
Abbreviation Sys := (Sys (P := P) (W := W)).
Abbreviation sys_step := (sys_step (P := P) (W := W) parse_call rfc3339 parsers json_from_str allowlist config other rest ctx).
Abbreviation reachable := (sys_reachable (P := P) (W := W) parse_call rfc3339 parsers json_from_str allowlist config other rest ctx).

(** The task's next step, with an event when it rests; the start, a step or the end
    of a call. *)
Inductive Move := MoveTask (e : PeerEvent) | MoveCall (n : Z).
Definition task_move (e : PeerEvent) (s : Sys) : Sys :=
  match s with
  | mkSys t k calls =>
      match k with
      | Resting c => mkSys t (Turning (turn parse_call rfc3339 parsers config other rest ctx e c)) calls
      | Turning (Done (Ok c)) => mkSys t (Resting c) calls
      | Turning (Done (Err close)) => mkSys t (Ending (ending other (close_reason close))) calls
      | Turning (Atom m k) => mkSys (m t).2 (Turning (k (m t).1)) calls
      | Ending (Atom m k) => mkSys (m t).2 (Ending (k (m t).1)) calls
      | Ending (Done (Ok l)) => mkSys t (Ended l) calls
      | _ => s
      end
  end.
Definition call_move (n : Z) (s : Sys) : Sys :=
  match s with
  | mkSys ((r, sh), w) k calls =>
      match calls !! n with
      | Some (device, write, Atom m next) =>
          mkSys (m ((r, sh), w)).2 k (<[n := (device, write, next (m ((r, sh), w)).1)]> calls)
      | Some (device, write, Done x) => mkSys (call_end n device write x ((r, sh), w)).2 k (delete n calls)
      | None =>
          match sh_jobs sh !! n with
          | Some (mkJobCell device write (JobSubmitted c)) =>
              mkSys ((r, set_jobs (<[n := mkJobCell device write JobRunning]> sh.(sh_jobs)) sh), w) k
                (<[n := (device, write, job_of allowlist rfc3339 json_from_str other c)]> calls)
          | _ => s
          end
      end
  end.
Definition move (m : Move) (s : Sys) : Sys :=
  match m with MoveTask e => task_move e s | MoveCall n => call_move n s end.
Definition moves (l : list Move) (s : Sys) : Sys := foldl (λ s m, move m s) s l.

Lemma move_rtc m s : rtc sys_step s (move m s).
Proof.
  destruct m as [e|n]; simpl.
  - destruct s as [t [c|[[c|close|]|]|[[l| |]|]|l] calls]; simpl; try done; apply rtc_once; constructor.
  - destruct s as [[[r sh] w] k calls]. simpl. destruct (calls !! n) as [[[d b] [x|B m next]]|] eqn:Hn.
    + by apply rtc_once; constructor.
    + by apply rtc_once; constructor.
    + destruct (sh_jobs sh !! n) as [[d b [c| |]]|] eqn:Hj; try done. by apply rtc_once; constructor.
Qed.
Lemma moves_rtc l s : rtc sys_step s (moves l s).
Proof. revert s. induction l as [|m l IH]; intros s; [done|]. simpl. etrans; [apply move_rtc|apply IH]. Qed.
Lemma rtc_reachable s s' : reachable s → rtc sys_step s s' → reachable s'.
Proof. intros Hr Hs. induction Hs as [|s s1 s' Hs _ IH]; [done|]. apply IH. by eapply sys_next. Qed.
Lemma moves_reachable l s : reachable s → reachable (moves l s).
Proof. intros Hr. eapply rtc_reachable; [exact Hr|apply moves_rtc]. Qed.
End Schedule.

(** ** A host with one session and one agent *)
Definition demo_snapshot : Value := VObject
  [("panes", VArray [VObject [("pane_id", VString "p1"); ("terminal_id", VString "t1")]]);
   ("agents", VArray [VObject [("pane_id", VString "p1")]])].
#[local] Instance demo_herdr : HerdrHost (list HostCall) := {|
  host_port := {| port_sessions := ret [mkNamedSession "work" true true]; port_snapshot := λ _, ret demo_snapshot |};
  port_observe := λ _ _ _ _ _, throw "none";
  port_subscribe := λ _ _ _, throw "none";
  port_release := λ _ p, p;
  host_write := λ c _ p, (Ok "", p ++ [c]) |}.
#[local] Instance demo_git_host : GitHost (list HostCall) := {|
  host_require_trusted := λ _, throw "untrusted";
  host_detect := λ _ _, throw "none";
  GitBridge.host_read := λ _ _ _, throw "none" |}.

(** The phone may write for an hour. *)
Definition hour : Z := seconds 3600.
Definition elevated (i : Identity) : Identity :=
  set_sessions (alter (Session.set_control hour 0) (ctx_session_id peer_ctx) i.(i_sessions))
    (set_devices (alter (λ d, mkDevice d.(d_device_id) d.(d_label) d.(d_credentials)
       (mkGrants (Some (mkControlGrant hour)) false) d.(d_locked) d.(d_created_at) d.(d_last_seen))
       (ctx_device_id peer_ctx) i.(i_devices)) i).
Definition demo_whole : Whole :=
  let g := peer_t0.1 in
  mkWhole (mkGw (gw_pairings (wh_gw g)) (elevated (gw_identity (wh_gw g))) (gw_ceremonies (wh_gw g)))
    g.(wh_push) g.(wh_spaces) g.(wh_jobs) g.(wh_audits).
Definition demo_gate : Gate (list HostCall) := mkGate demo_whole ∅ cursors_new ∅ [].
Definition prompt_call (text : string) : option Call :=
  if bool_decide (text = "{first") || bool_decide (text = "{second")
  then Some (mkCall (VString text) "agent.prompt" (VObject [("text", VString text)]))
  else if bool_decide (text = "{observe") then Some (mkCall (VString text) "terminal.observe" (VObject []))
  else if bool_decide (text = "{close") then Some (mkCall (VString text) "stream.close" (VObject [("stream", VNumber 1)]))
  else None.
Definition prompt_parsers : BridgeParsers := {|
  bp_session := λ _, None;
  bp_observe := λ _, Some ("work", "t1");
  bp_close := λ v, as_u64 (value_index "stream" v); bp_control := λ _, None; bp_full := λ _, None; bp_input := λ _, None; bp_resize := λ _, None; bp_scroll := λ _, None;
  bp_prompt := λ v, mkPromptParams "work" "t1" <$> as_str (value_index "text" v);
  bp_keys := λ _, None; bp_git := demo_git; bp_subscribe := λ _, None |}.
Definition demo_allowlist : gset string := {["work"]}.
Definition quiet (x : Audits * SimWorld) : Audits * SimWorld := x.

Definition demo_sys : Sys (P := list HostCall) (W := SimWorld) := peer_start 1 0 false 0 0 demo_gate peer_t0.2.
Definition demo_moves (l : list Move) := moves prompt_call demo_time prompt_parsers (λ _, None) demo_allowlist
  whole_start.1 quiet alone peer_ctx l demo_sys.
Definition many (n : nat) (m : Move) : list Move := repeat m n.
Definition say (text : string) : Move := MoveTask (EvIncoming 0 (IncomingFrame (MText text))).
(** Two prompts; the first is sent while the second waits, then the peer is stopped. *)
Definition demo_run : list Move :=
  many 12 (say "{first") ++ many 17 (say "{second") ++ many 11 (MoveCall 0) ++ many 40 (MoveTask EvStop).
Definition demo_end : Sys (P := list HostCall) (W := SimWorld) := demo_moves demo_run.

Lemma quiet_grows x : wgrow x (quiet x).
Proof. unfold wgrow. by apply reflexivity. Qed.
Lemma alone_grows n (t : Whole * SimWorld) : wgrow t (alone n t).
Proof. unfold wgrow. by apply reflexivity. Qed.
Lemma demo_reachable : sys_reachable prompt_call demo_time prompt_parsers (λ _, None) demo_allowlist
  whole_start.1 quiet alone peer_ctx demo_end.
Proof. apply moves_reachable, sys_init. Qed.

(** A prompt whose thread runs when the peer is stopped: its first check fails. *)
Definition late_end : Sys (P := list HostCall) (W := SimWorld) :=
  demo_moves (many 29 (say "{first") ++ many 1 (MoveCall 0) ++ many 12 (MoveTask EvStop) ++ many 9 (MoveCall 0)).
Lemma late_reachable : sys_reachable prompt_call demo_time prompt_parsers (λ _, None) demo_allowlist
  whole_start.1 quiet alone peer_ctx late_end.
Proof. apply moves_reachable, sys_init. Qed.
Lemma demo_truthful : host_truthful (P := list HostCall).
Proof. by intros c sink p. Qed.
(** Of the first two the one reached the host, the other did not; the late one neither. *)
Lemma dropped_never_sent_witness :
  (Cancelled 1 false ∈ trace_of (sy_state demo_end) ∧ ∀ c, Called 1 c ∉ trace_of (sy_state demo_end))
  ∧ jc_phase <$> jobs_of (sy_state late_end) !! 0 = Some (JobDone (Err "write-dropped"))
  ∧ ∀ c, Called 0 c ∉ trace_of (sy_state late_end).
Proof.
  assert (Cancelled 1 false ∈ trace_of (sy_state demo_end)) as Hin.
  { apply (list_elem_of_lookup_2 _ 8). vm_cast_no_check (eq_refl (Some (Cancelled 1 false))). }
  assert (jobs_of (sy_state late_end) !! 0 = Some (mkJobCell (ctx_device_id peer_ctx) true (JobDone (Err "write-dropped")))) as Hj
    by (vm_cast_no_check (eq_refl (Some (mkJobCell (ctx_device_id peer_ctx) true (JobDone (Err "write-dropped")))))).
  split; [split; [exact Hin|]|split].
  - exact (proj1 (dropped_never_sent _ _ _ _ _ _ _ _ quiet_grows alone_grows _ _ 1 demo_reachable) Hin).
  - rewrite Hj. reflexivity.
  - refine (proj1 (proj2 (dropped_never_sent _ _ _ _ _ _ _ _ quiet_grows alone_grows _ _ 0 late_reachable)) demo_truthful _ _ Hj _).
    exists false. reflexivity.
Defined.
Lemma calls_in_order_witness : calls_of (trace_of (sy_state demo_end)) = [0]
  ∧ wk_number <$> admissions (trace_of (sy_state demo_end)) = [0; 1; 2]
  ∧ calls_of (trace_of (sy_state demo_end)) `sublist_of` (wk_number <$> admissions (trace_of (sy_state demo_end))).
Proof.
  split; [vm_cast_no_check (eq_refl [0])|]. split; [vm_cast_no_check (eq_refl [0; 1; 2])|].
  exact (proj1 (calls_in_order _ _ _ _ _ _ _ _ quiet_grows alone_grows _ _ demo_reachable)).
Defined.
Lemma trace_at (l : list Trace) i x : l !! i = Some x → l = take i l ++ x :: drop (S i) l.
Proof. intros Hx. symmetry. by apply take_drop_middle. Qed.
Lemma call_guarded_witness : let l := trace_of (sy_state demo_end) in
  l !! 5%nat = Some (Called 0 (HostPrompt "work" "p1" "{first"))
  ∧ call_allowed demo_allowlist 0 (HostPrompt "work" "p1" "{first") (take 5 l) (log_of (sy_state demo_end)).
Proof.
  assert (trace_of (sy_state demo_end) !! 5%nat = Some (Called 0 (HostPrompt "work" "p1" "{first"))) as Hl
    by (vm_cast_no_check (eq_refl (Some (Called 0 (HostPrompt "work" "p1" "{first"))))).
  split; [exact Hl|].
  exact (proj1 (call_guarded _ _ _ _ _ _ _ _ quiet_grows alone_grows _ _ demo_reachable) _ _ _ _ (trace_at _ _ _ Hl)).
Defined.

(** A stream is opened and closed, then another opened: it is the second. *)
Definition closed_sys : Sys (P := list HostCall) (W := SimWorld) :=
  demo_moves (many 12 (say "{observe") ++ many 11 (say "{close")).
Definition reopened_sys : Sys (P := list HostCall) (W := SimWorld) :=
  moves prompt_call demo_time prompt_parsers (λ _, None) demo_allowlist whole_start.1 quiet alone peer_ctx
    (many 10 (say "{observe")) closed_sys.
Lemma stream_numbers_witness :
  fst <$> map_to_list (rd_streams (reads_of (sy_state reopened_sys))) = [2]
  ∧ rd_streams (reads_of (sy_state closed_sys)) !! 1 = None
  ∧ rd_streams (reads_of (sy_state reopened_sys)) !! 1 = None.
Proof.
  split; [vm_cast_no_check (eq_refl [2])|].
  assert (rd_streams (reads_of (sy_state closed_sys)) !! 1 = None) as Hc by (vm_cast_no_check (eq_refl (@None Stream))).
  split; [exact Hc|].
  assert (1 < rd_next_id (reads_of (sy_state closed_sys))) as Hlt by (vm_cast_no_check (eq_refl Lt)).
  refine (proj2 (proj2 (proj2 (stream_numbers _ _ _ _ _ _ _ _ quiet_grows alone_grows _ closed_sys reopened_sys _ _))) 1 Hlt Hc).
  - apply moves_reachable, sys_init.
  - apply moves_rtc.
Defined.
